(* ===== verification/_CoqProject ===== *)
-Q . S2P
Prelude.v
Store.v
World.v
Evidence.v
Commit.v
Attempt.v
Outcome.v
Settle.v
Observe.v
Executor.v
CommitSpec.v
Lifecycle.v
Refinement.v
System.v
Sending.v
OutcomeSpec.v
DecisionSpec.v
Scenario.v
ExecutionProps.v
DecisionProps.v
Staging.v
StagingProps.v
TextDiff.v
Ident.v
IngestPath.v
IngestSpec.v
TextProps.v
Config.v
Request.v
RequestSpec.v
Redaction.v
Governance.v
Authority.v
GovernanceSpec.v
Adoption.v
Governed.v
ActsSpec.v
GovernedScenario.v
GovernanceProps.v
Recovery.v
RecoveryGate.v
RecoverySpec.v
RecoveryActs.v
Recovered.v
RecoveryScenario.v
RequestProps.v
RecoveryProps.v
Times.v
TimesSpec.v
Json.v
Classify.v
Monitor.v
MonitorSpec.v
MonitorInv.v
MonitorRuns.v
MonitorScenario.v
MonitorProps.v
Drafts.v
Ingested.v
Declared.v
Values.v
Trace.v
Redactor.v
Compile.v
Compiled.v
RedactorSpec.v
CompileSpec.v
CompileProps.v
Publish.v
Release.v
Build.v
BuildSpec.v
BuildProps.v
ContentSpec.v
PublishSpec.v
ReleaseSpec.v
PublishEffect.v
PublishInv.v
PublishScenario.v
PublishProps.v
