(* ===== verification/Prelude.v ===== *)
(** * Bronzeward: a verification library

    Bronzeward manages the machine configuration of Talos clusters.  A configuration is ingested,
    published as a release, planned for a machine and approved; then a controller process _executes_
    the plan: it commits the plan as an operation, records an attempt, sends the configuration to
    the node once, records the answer and settles the outcome, or retries.  Several processes may
    run, lose their database, be replaced and be fenced by a recovery epoch; the program's claims
    are about what then still holds.  This library models that execution core from the Go code under
    [src/internal/api], the governance around it (requests, plans, approvals, revocations,
    adoptions), recovery mode, the drafts and the publication of their releases, the dependency
    monitor and the compilation of configurations, with the staging of ingestions
    ([src/internal/staging]) and pure components ([textdiff], [id],
    [config]'s checks, [ingest]'s paths).

    ** How the code is modelled

    A table is a list or a map of records and the store a record of tables ([Store.Db]).  A
    transaction is a function of the error and state monad [M] of this file over the store: it
    answers a value and the store it leaves, or an error, and the store is then the one before.  A
    call of the API is a procedure [P] over the world ([World.world]): the store, what the process
    sent, and the answers it is going to get from the node, the secret provider and its clock.  A
    procedure reaches the store in turns, each one transaction or query; before every turn the other
    processes have changed it by the parameter [others].  Clocks are parameters too: [tick] is the
    next time the database tells after an instant, [ptick] the process's, [fresh_id] gives new
    identifiers.  The database's times are microseconds and the monitor's, like a provider's creation
    times, nanoseconds; ages are compared through Go's saturating int64 nanoseconds.

    A request of the HTTP interface is a [Request.route]: its effect, run in the request's
    transaction, answers the write to run once the act-order lock is held ([attempt_tx]); [mutate]
    adds the gate, the idempotency key, deadlock retries and the reading back of a lost COMMIT.

    ** The files

    - [Store]: the tables' rows, [Db], errors, the process ([api]) and its controls ([options]), Go's
      durations, timeline revisions.  [World]: the world, [inTx], [send].
    - [Evidence]: the reads and decisions several transactions share ([identityMatch],
      [newerContradiction], [useTimeCheckCause], [finalPlanCause], [scopeGate]; commit.go, attempt.go,
      dispatch.go), and [applyDrift] (drift.go).  [Commit]: [commitTx], [recordRefusalEntry],
      [commitPlan] (commit.go, adoption.go).  [Attempt]: [recordAttemptTx], [settleAttemptRefusal],
      [recordAttempt], [cancelUnattempted] (attempt.go).  [Outcome]: the operation's lock, moves,
      classifications, [takeOverTx], [recordResponseTx] (outcome.go).  [Settle]: [accountByDecision],
      [settleOperationTx] (settle.go).  [Observe]: [startObservation], [recordObservation], [observe]
      (observe.go).  [Executor]: [useTimeCheck], [dispatchPlan], [advance], [executorPass],
      [executorLoop] (dispatch.go, executor.go).  A large transaction is cut where the code reads and
      where it compares: the comparisons are pure functions of what was read, in the code's order.
    - [Staging] (claim.go, takeover.go, mark.go, sweep.go); [TextDiff] (textdiff.go); [Ident] (id.go);
      [IngestPath] (path.go, walk.go, parse.go); [Config] (config.go, provider/paths.go,
      provider/ingestion.go); [Redaction]: a plan's paired redacted documents (plans.go).
    - [Request]: the gate, the key, the transaction with its act and record, retries and lost replies
      (api.go, tx.go, idempotency.go).  [Governance]: plans, approvals, revocations, cancellations,
      freezes and endpoint changes (plans.go, approvals.go, approval_revocations.go, revocations.go,
      cancellations.go, freeze.go, endpoint.go).  [Adoption]: [adoptionTx] and the adopter's loop
      (adoption.go, adopter.go).
    - [Recovery]: [enterRecovery] and the process it makes, [accountScopes], [markScope],
      [releaseScope], [leaveRecovery], the acts on an operation and [inventoryMachine]
      (recovery_entries.go, recovery_accountings.go, recovery_marks.go, recovery_releases.go,
      recovery_exits.go, recovery_acts.go, inventory.go).
    - [Lifecycle]: what the writes of a timeline leave alone ([TimelineFree], [DriftFree]: a reading of
      the store no timeline or drift write changes), [core], the part of the store an operation's
      lifecycle is about, and the abstract machine [astep] over [core] with the schema's
      transitions and what each rests on, and its invariant.  [Refinement]: every transaction is a run
      of [astep].  [System]: [step], one transaction of any process or any change of the rest of the
      program ([env]), and the invariants of [reachable] stores.  [Sending]: a pass of the executor is
      a run of the system, and what it sends.
    - [Authority]: the plans' states and approvals as an abstract state with its invariant.
      [Governed]: [gstep], the system with the governing acts and adoptions.  [RecoveryGate]: the
      epochs and scopes as the abstract machine [rmove].  [Recovered]: [rstep], the system with the
      acts of recovery mode too.  Each is an interface: what the layer above needs of a transaction is
      a class ([CoreFree], [ActFree]) or a frame, which the components discharge.
    - [CommitSpec] (with the attempt's), [OutcomeSpec], [DecisionSpec], [IngestSpec], [RequestSpec], [GovernanceSpec], [ActsSpec], [RecoverySpec],
      [RecoveryActs] (with the entry's): the components' specifications and lemmas.  [Scenario],
      [GovernedScenario], [RecoveryScenario]: concrete installations, whose runs the witnesses evaluate.
    - [Times], [Json]: what the monitor uses of Go's [time] and [encoding/json].  [Classify]
      ([internal/classify]): an answer's class.  [Monitor] ([internal/monitor], with publication's
      [seedStatuses]): its tables, a dependency's record, the pass, the watchdog and the logger; its
      clock and provider are parameters.  [MonitorInv]: [mstep], one transaction of any instance, and
      the tables' invariant [minv].  [MonitorRuns]: the logger between the others' transactions.
      [TimesSpec], [MonitorSpec] (with the classification's): their lemmas.  [MonitorScenario]:
      a concrete monitor.
    - [Drafts] (drafts.go, inventory.go): the tables of drafts, sources and releases, [pdb] (the core's
      store, the monitor's, the staging claims and these), and every act on a draft.  [Ingested]
      (fragments.go, runner.go): [updateFragment], [commitImport], [abandon].  [Declared]
      (publish_declarations.go): a machine's [disagreement].  [Publish] (publications.go, worker.go,
      publication_observation.go, publish.go): the request, the claim and its fence, a release's
      [digest].  [Release] (publish.go): [checkInputs], [publicationEvidence], [recheckStatuses],
      [commitRelease] with [writeRelease], [commitTx3] with the constraints [deferred] to COMMIT,
      [publishCommit], [runPublish].
    - [ContentSpec] (a release's content and declarations), [PublishSpec], [ReleaseSpec]: their
      specifications: [release_written], [edited], and [pact], a transaction of drafts or publication
      that went through.  [PublishEffect]: what each is to these tables ([effect]) and what no run undoes
      ([later]).  [PublishInv]: [prun], a run of [pact]s among the core's, recovery's, the monitor's and
      the claims' steps ([rest]), its invariant [pub_inv] and what they give.
      [PublishScenario]: a concrete run of two drafts and their releases.
    - [Values] ([internal/provider/value.go]): a secret's value, base64 and texts.  [Trace]
      ([internal/ingest]: declare.go, resolve.go, trace.go): declarations, [Resolve] and [Trace], which
      puts stand-ins for values.  [Redactor] (redact.go, message.go): what is shown of a configuration
      that holds secrets.  [Compile] (compile.go, compiler.go, records.go, [internal/ingest/leaves.go]):
      [compose] over the machinery, a parameter, [attribute], [overrider].  [Compiled] (compiler.go,
      checks.go, render.go): [checkOutput], [redactedText], [Compile] and its records.  [RedactorSpec],
      [CompileSpec]: their lemmas; [compilation], what a compilation that succeeds went through.
    - [Build] (pipeline.go, pipeline_deps.go, pipeline_build.go, [internal/compile]: dependencies.go,
      renderer.go): [readSnapshot], [readPinned], [EncryptArtifacts], [KubernetesVersion] and [buildRelease],
      which gives [Release] its unit.  [BuildSpec]: their lemmas; [snapshot_of], what a snapshot holds;
      [built], what a unit's build went through.

    ** The properties

    - [ExecutionProps], of every store the system reaches: scopes are exclusive, attempts numbered and
      bounded, ends justified; the refinement behind them; what a run of the whole executor sends; an
      attempt is recorded and a plan committed exactly when every comparison holds, with the store
      left given in full; a takeover fences; operations go forward; a decision, a completion and a
      retry rest on what the code demands.
    - [RecoveryProps]: an entry takes effect as it says and fences every earlier epoch; a scope opens
      again only in order; nothing is executed on a machine before its scope is accounted and released.
    - [GovernanceProps]: plan states and approvals fit each other and move as the schema allows; what a
      withdrawn plan still does; an approval, an adoption, a plan's creation and a revocation, each
      exactly; separation of duties.
    - [RequestProps]: of the routes [served], recovery's entry among them, what an answer says is what
      was committed, and a key has one answer; acts and records; deadlocks; the gate; recorded key versions; the redacted documents; credentials.
    - [StagingProps]: staging claims, whose table's CHECKs the statements keep of themselves, their
      fence and sweep (with their invariant and lemmas).  [TextProps] (with the diff's lemmas): the diff
      replays, and indexes nothing out of range;
      identifiers and paths round trip.  [DecisionProps]: the pure decisions, each exactly, and what a
      read of a node records.
    - [MonitorProps], of every store the instances reach: what is warned once, alerted in time and
      logged, no line being written that no alert records; a classification is always recorded; what a lost class rests on; the reason an answer
      fails by; the Date header.
    - [PublishProps], of every run of drafts and publication among everything else: it is governed; a
      release replaces exactly the heads its draft and its unit read, an entry's as it was first edited from; drafts, operations and releases
      are one to one; a release never changes; an earlier claim is fenced; an assignment moves only
      where no operation holds its machine; a release is written whole or not at all, and its answer
      is true of the store; the declarations' check and the digest's encoding, each exactly.
    - [CompileProps], of any compilation over any machinery, decoder and encoder: nothing that it tells
      but its text is a value or holds one of six bytes or more, notices and tokens apart; what it returns is whole and searched for copies; attribution,
      stand-ins and overrides are exact; redaction hides exactly the copies; where it panics.
    - [BuildProps], of any build over any provider: the snapshot is the draft as it was bound; the unit is
      the snapshot compiled; every version it names was classified and read, and its effective ones are those
      its compilation reached; the key's versions are
      bracketed; every occurrence is accounted for as the commit checks.

    ** Fuel

    [executorLoop] and [adoptLoop] take the number of wakes, as the loop ends only with its process;
    every result about them is for every number.  [blank_fuel] and [runes_fuel] take the text's length,
    and each step drops a byte.  In the diff, [slide] takes one more than the first text's length, as the
    index only grows to it, [keep] one more than the index it counts down, and running out is [None], as
    an index out of range is; [search] takes the number of rounds the code's loop has, [ranges] the
    number of changes.  [edits_replay] shows that [None] is never reached, and the scripts complete.  [logAlerts] takes the number of batches, and [alerts_logged]
    shows how many empty the backlog.

    ** What is not modelled

    Row locks and isolation: a transaction is one atomic step, and the others' are interleaved between
    them, which the locks the code takes are for; the test controls that drop a lock ([noReadLock],
    [noMachineLock]), use another access or quote errors are left out.  Deadlocks and lost COMMIT
    replies are modelled for requests, and not for the executor's transactions.  JSON documents keep
    the members the code reads back; log lines are left out.  A staging statement on one claim reads the
    clock for each comparison and for what it sets; any other statement that reads the clock twice
    reads it once, and so does [prune] the process's.  An API without
    an executor, and [respond]'s retries after a lost connection are left out.  The test controls of staging's statements and
    [AbandonDueNoWait] are left out.  Secrets are opaque texts.  The decoder of YAML, OpenBao, gRPC and PostgreSQL are not
    part of the repository: the decoder's documents and the provider's and node's answers are given.
    A refusal's text that lists details (the settle floor's, unread evidence's) is shortened.  Of a
    request, the decoding and fingerprint of its body and its authentication are given, and what runs
    before the transaction ([prepare], [admit]) is left out: [prepareMark]'s evidence is given to
    [markScope].  Comments of YAML documents are left out of the redaction.  The scanner of
    JSON texts is the language's: a body is the value it holds.  The monitor's reports of its own
    failures, the timeouts of a stuck holder and a sink that outlasts its batch are left out; so is
    the form of a status row's identity.  Of publication, the release unit
    is an argument of the commit, and [buildRelease] gives one; the worker's waits, the heartbeat's
    times and the test controls between the build's stages are left out, as are formats of texts that a CHECK matches, the triggers
    that make rows immutable, and columns nothing reads back (titles, times, provenance documents).
    SHA-256 is a parameter, and nothing is assumed of it.  What ingesting a document gives is an
    argument of the transaction that ends the ingestion.  Of compilation, the machinery that
    loads, patches, encodes and validates a configuration, the YAML decoder and encoders are
    parameters, of which nothing is assumed; a regular expression's match is modelled as [regexp]
    documents it, of valid UTF-8 (a literal U+FFFD would match an invalid byte too).
  The rest of the
    program is in [env]: ingestion requests, the reads of the HTTP
    layer. *)

From Stdlib Require Export Ascii ZArith Lia.
From stdpp Require Export base tactics option gmap strings numbers.
From stdpp Require Export list.
From stdpp Require Import sorting.


#[global] Open Scope Z_scope.

(** ** Results and the transaction monad *)

(** What a Go call answers: a value, or a non-nil error. *)
Inductive result (E A : Type) : Type :=
| Ok (a : A)
| Err (e : E).
Arguments Ok {E A} a.
Arguments Err {E A} e.

(** A database transaction's body: it reads and writes the store and may fail.  A failure carries
    no store: the transaction rolls back. *)
Definition M (S E A : Type) : Type := S → result E (A * S).

#[global] Instance M_ret S E : MRet (M S E) := λ A a s, Ok (a, s).
#[global] Instance M_bind S E : MBind (M S E) := λ A B f m s,
  match m s with Ok (a, s') => f a s' | Err e => Err e end.

Section MonadOps.
Context {S E : Type}.

(** A read of the store. *)
Definition gets {A} (f : S → A) : M S E A := λ s, Ok (f s, s).
(** A write of the store. *)
Definition modify (f : S → S) : M S E unit := λ s, Ok (tt, f s).
(** A returned error. *)
Definition throw {A} (e : E) : M S E A := λ _, Err e.
(** [if b { return e }] *)
Definition failIf (b : bool) (e : E) : M S E unit := if b then throw e else mret tt.
(** A single-row query, whose missing row is the error [e]. *)
Definition getsOr {A} (f : S → option A) (e : E) : M S E A := λ s,
  match f s with Some a => Ok (a, s) | None => Err e end.
(** [if b { m }] *)
Definition whenM (b : bool) (m : M S E unit) : M S E unit := if b then m else mret tt.

(** [if err != nil { return err }] *)
Definition reject (e : option E) : M S E unit :=
  match e with Some x => throw x | None => mret tt end.

Lemma bind_ok {A B} (m : M S E A) (f : A → M S E B) s r :
  (m ≫= f) s = Ok r ↔ ∃ a s', m s = Ok (a, s') ∧ f a s' = Ok r.
Proof.
  unfold mbind, M_bind. split.
  - destruct (m s) as [[a s']|e] eqn:Hm; [eauto | done].
  - intros (a & s' & -> & Hf). done.
Qed.

Lemma bind_eq {A B} (m : M S E A) (f : A → M S E B) s a s' :
  m s = Ok (a, s') → (m ≫= f) s = f a s'.
Proof. unfold mbind, M_bind. by intros ->. Qed.

Lemma bind_err {A B} (m : M S E A) (f : A → M S E B) s e :
  (m ≫= f) s = Err e ↔ m s = Err e ∨ ∃ a s', m s = Ok (a, s') ∧ f a s' = Err e.
Proof.
  unfold mbind, M_bind. destruct (m s) as [[a s']|e'] eqn:Hm; naive_solver.
Qed.

Lemma ret_ok {A} (a : A) s b s' : (mret a : M S E A) s = Ok (b, s') ↔ a = b ∧ s = s'.
Proof. unfold mret, M_ret. naive_solver. Qed.
Lemma gets_ok {A} (f : S → A) s b s' : gets f s = Ok (b, s') ↔ f s = b ∧ s = s'.
Proof. unfold gets. naive_solver. Qed.
Lemma modify_ok (f : S → S) s b s' : modify f s = Ok (b, s') ↔ f s = s'.
Proof. unfold modify. destruct b. naive_solver. Qed.
Lemma throw_ok {A} (e : E) s (r : A * S) : throw e s = Ok r ↔ False.
Proof. done. Qed.
Lemma failIf_ok b (e : E) s u s' : failIf b e s = Ok (u, s') ↔ b = false ∧ s = s'.
Proof. unfold failIf. destruct b, u; simpl; [naive_solver|]. rewrite ret_ok. naive_solver. Qed.
Lemma getsOr_ok {A} (f : S → option A) (e : E) s b s' :
  getsOr f e s = Ok (b, s') ↔ f s = Some b ∧ s = s'.
Proof. unfold getsOr. destruct (f s); naive_solver. Qed.
Lemma whenM_ok b m s u s' :
  whenM b m s = Ok (u, s') ↔ if b then m s = Ok (u, s') else s = s'.
Proof. unfold whenM. destruct b, u; [done|]. rewrite ret_ok. naive_solver. Qed.
Lemma reject_ok (e : option E) s u s' : reject e s = Ok (u, s') ↔ e = None ∧ s = s'.
Proof. destruct e, u; simpl; [naive_solver|]. rewrite ret_ok. naive_solver. Qed.
(** How a step fails. *)
Lemma ret_err {A} (a : A) s (e : E) : (mret a : M S E A) s ≠ Err e.
Proof. done. Qed.
Lemma gets_err {A} (f : S → A) s (e : E) : gets f s ≠ Err e.
Proof. done. Qed.
Lemma modify_err (f : S → S) s (e : E) : modify f s ≠ Err e.
Proof. done. Qed.
Lemma throw_err {A} (e e' : E) s : (throw e : M S E A) s = Err e' → e' = e.
Proof. unfold throw. congruence. Qed.
Lemma failIf_err b (e e' : E) s : failIf b e s = Err e' → b = true ∧ e' = e.
Proof. unfold failIf. destruct b; [intros ?%throw_err; done|done]. Qed.
Lemma getsOr_err {A} (f : S → option A) (e e' : E) s : getsOr f e s = Err e' → f s = None ∧ e' = e.
Proof. unfold getsOr. destruct (f s); naive_solver. Qed.
Lemma if_ok {A} (b : bool) (m n : M S E A) s r :
  (if b then m else n) s = Ok r ↔ (b = true ∧ m s = Ok r) ∨ (b = false ∧ n s = Ok r).
Proof. destruct b; naive_solver. Qed.
End MonadOps.

#[global] Opaque M_bind M_ret gets modify throw failIf getsOr whenM reject.

(** [if !P { return err }] passed. *)
Lemma unless_ok (P : Prop) `{Decision P} : negb (bool_decide P) = false ↔ P.
Proof. by rewrite negb_false_iff, bool_decide_eq_true. Qed.

(** Runs a transaction body forwards: the goal that it succeeds, by the facts in context. *)
Ltac m_run_step :=
  lazymatch goal with
  | |- mret _ _ = Ok (_, _) => apply ret_ok; split; reflexivity
  | |- gets _ _ = Ok (_, _) => apply gets_ok; split; reflexivity
  | |- modify _ _ = Ok (_, _) => apply (modify_ok _ _ tt); reflexivity
  | |- failIf _ _ _ = Ok (_, _) => apply (failIf_ok _ _ _ tt); split; [first [done | by apply unless_ok]|reflexivity]
  | |- getsOr _ _ _ = Ok (_, _) => apply getsOr_ok; split; [eassumption || done|reflexivity]
  | |- reject _ _ = Ok (_, _) => apply (reject_ok _ _ tt); split; [eassumption || done|reflexivity]
  | |- _ => eassumption
  end.
Ltac m_run := repeat lazymatch goal with
  | |- mbind _ _ _ = Ok _ => apply bind_ok; eexists _, _; split; [solve [m_run_step]|]; cbv beta
  end; try solve [m_run_step].

(** Takes conjunctions and existentials apart. *)
Ltac split_hyps := repeat match goal with
  | H : _ ∧ _ |- _ => destruct H
  | H : ∃ _, _ |- _ => destruct H
  end.

(** Names a state by the one it was reached from. *)
Ltac subst_state s := try subst s; subst.

(** Inverts hypotheses that a transaction body succeeded, one step of the body at a time. *)
Ltac m_step H :=
  lazymatch type of H with
  | mbind _ _ _ = Ok _ =>
      let a := fresh "a" in let s := fresh "s" in let H1 := fresh "H" in let H2 := fresh "H" in
      apply bind_ok in H as (a & s & H1 & H2); m_step H1; m_step H2
  | mret _ _ = Ok (_, ?s) => apply ret_ok in H; destruct H; subst_state s
  | gets _ _ = Ok (_, ?s) => apply gets_ok in H; destruct H; subst_state s
  | modify _ _ = Ok (_, _) => apply modify_ok in H; subst
  | throw _ _ = Ok _ => apply throw_ok in H; destruct H
  | failIf _ _ _ = Ok (_, ?s) => apply failIf_ok in H; destruct H; subst_state s
  | getsOr _ _ _ = Ok (_, ?s) => apply getsOr_ok in H; destruct H; subst_state s
  | reject _ _ = Ok (_, ?s) => apply reject_ok in H; destruct H; subst_state s
  | whenM _ _ _ = Ok (_, _) => apply whenM_ok in H
  | _ => idtac
  end.
Ltac m_inv := repeat match goal with
  | H : negb (bool_decide _) = false |- _ => apply unless_ok in H
  | H : ?m ?s = Ok (_, _) |- _ => progress m_step H
  | H : Ok _ = Ok _ |- _ => injection H as H; subst
  end.

(** The branches of a body's conditional. *)
Ltac if_inv := match goal with H : (if _ then _ else _) _ = Ok _ |- _ =>
  let Hb := fresh "Hb" in apply if_ok in H as [[Hb H]|[Hb H]] end.

(** ** Procedures *)

(** A procedure over a world: unlike a transaction's, its effects stay when it fails. *)
Definition P (W E A : Type) : Type := W → result E A * W.

#[global] Instance P_ret W E : MRet (P W E) := λ A a w, (Ok a, w).
#[global] Instance P_bind W E : MBind (P W E) := λ A B f m w,
  match m w with (Ok a, w') => f a w' | (Err e, w') => (Err e, w') end.

Section Procedures.
Context {W E : Type}.

(** A returned error. *)
Definition fail {A} (e : E) : P W E A := λ w, (Err e, w).
(** [v, err := m], the error kept as a value. *)
Definition attempt_of {A} (m : P W E A) : P W E (result E A) := λ w, let '(r, w') := m w in (Ok r, w').
(** A read of the world, and a write. *)
Definition ask {A} (f : W → A) : P W E A := λ w, (Ok (f w), w).
Definition put (f : W → W) : P W E unit := λ w, (Ok tt, f w).

(** What a procedure's run keeps, whatever it answers. *)
Definition always {A} (R : W → W → Prop) (m : P W E A) : Prop := ∀ w, R w (m w).2.

Section Always.
Context (R : W → W → Prop) `{!PreOrder R}.
Lemma always_ret {A} (a : A) : always R (mret a : P W E A).
Proof. intros w. unfold mret, P_ret. simpl. reflexivity. Qed.
Lemma always_fail {A} (e : E) : always R (fail (A:=A) e).
Proof. intros w. simpl. reflexivity. Qed.
Lemma always_ask {A} (f : W → A) : always R (ask f).
Proof. intros w. simpl. reflexivity. Qed.
Lemma always_put (f : W → W) : (∀ w, R w (f w)) → always R (put f).
Proof. intros Hf w. apply Hf. Qed.
Lemma always_attempt {A} (m : P W E A) : always R m → always R (attempt_of m).
Proof. intros Hm w. unfold attempt_of. specialize (Hm w). by destruct (m w). Qed.
Lemma always_bind {A B} (m : P W E A) (k : A → P W E B) :
  always R m → (∀ x, always R (k x)) → always R (m ≫= k).
Proof.
  intros Hm Hk w. unfold mbind, P_bind. specialize (Hm w). destruct (m w) as [[a|e] w']; simpl in *; [|done].
  etransitivity; [exact Hm|apply Hk].
Qed.
End Always.
End Procedures.

Create HintDb always discriminated.
#[export] Hint Resolve always_ret always_fail always_ask : always.

(** Proves that a procedure always keeps a relation from its parts. *)
Ltac solve_always :=
  intros; repeat first
    [ solve [eauto 3 with always nocore typeclass_instances]
    | progress cbv zeta
    | lazymatch goal with
      | |- always _ (mbind _ _) => apply always_bind; [apply _| |intros ?]
      | |- always _ (attempt_of _) => apply always_attempt
      | |- always _ (match ?x with _ => _ end) => destruct x
      end ].

(** ** Frames: what a transaction body leaves alone *)

(** [m] changes nothing that [f] observes of the store. *)
Definition keeps {S E A B} (f : S → B) (m : M S E A) : Prop :=
  ∀ s x s', m s = Ok (x, s') → f s' = f s.

Section Keeps.
Context {S E B : Type} (f : S → B).
Implicit Types b : bool.

Lemma keeps_ret {A} (x : A) : keeps (E:=E) f (mret x).
Proof. intros s y s' [-> ->]%ret_ok. done. Qed.
Lemma keeps_gets {A} (g : S → A) : keeps (E:=E) f (gets g).
Proof. intros s y s' [<- <-]%gets_ok. done. Qed.
Lemma keeps_getsOr {A} (g : S → option A) (e : E) : keeps f (getsOr g e).
Proof. intros s y s' [_ <-]%getsOr_ok. done. Qed.
Lemma keeps_throw {A} (e : E) : keeps f (throw (A:=A) e).
Proof. by intros s y s' ?%throw_ok. Qed.
Lemma keeps_failIf b (e : E) : keeps f (failIf b e).
Proof. intros s y s' [_ <-]%failIf_ok. done. Qed.
Lemma keeps_reject (e : option E) : keeps f (reject e).
Proof. intros s y s' [_ <-]%reject_ok. done. Qed.
Lemma keeps_modify (g : S → S) : (∀ s, f (g s) = f s) → keeps (E:=E) f (modify g).
Proof. intros Hg s y s' <-%modify_ok. apply Hg. Qed.
Lemma keeps_bind {A C} (m : M S E A) (k : A → M S E C) :
  keeps f m → (∀ x, keeps f (k x)) → keeps f (m ≫= k).
Proof. intros Hm Hk s y s' (x & s1 & H1 & H2)%bind_ok. rewrite (Hk _ _ _ _ H2). by eapply Hm. Qed.
End Keeps.

Create HintDb keeps discriminated.
#[export] Hint Resolve keeps_ret keeps_gets keeps_getsOr keeps_throw keeps_failIf keeps_reject : keeps.
#[export] Hint Extern 1 (keeps _ (modify _)) => apply keeps_modify; intros; reflexivity : keeps.

(** Proves a frame from the parts' frames. *)
Ltac solve_keeps :=
  intros; repeat first
    [ solve [eauto 4 with keeps nocore typeclass_instances]
    | progress cbv zeta
    | lazymatch goal with
      | |- keeps _ (mbind _ _) => apply keeps_bind; [|intros ?]
      | |- keeps _ (match ?x with _ => _ end) => destruct x
      end ].

(** ** ORDER BY ... LIMIT 1 *)

Section OrderBy.
Context {A : Type} (key : A → Z).

(** The first row of [l ORDER BY key DESC], the earlier of two with one key. *)
Fixpoint max_by (l : list A) : option A :=
  match l with
  | [] => None
  | x :: l => match max_by l with
              | Some y => if key x <? key y then Some y else Some x
              | None => Some x
              end
  end.
(** The first row of [l ORDER BY key]. *)
Fixpoint min_by (l : list A) : option A :=
  match l with
  | [] => None
  | x :: l => match min_by l with
              | Some y => if key y <? key x then Some y else Some x
              | None => Some x
              end
  end.

Lemma max_by_Some l x : max_by l = Some x → x ∈ l ∧ ∀ y, y ∈ l → key y ≤ key x.
Proof.
  revert x. induction l as [|z l IH]; intros x; simpl; [done|].
  destruct (max_by l) as [y|] eqn:Hm.
  - destruct (IH y eq_refl) as [Hy Hle]. destruct (Z.ltb_spec (key z) (key y)); intros [= <-].
    + split; [by right|]. intros w [->|Hw]%elem_of_cons; [lia | by apply Hle].
    + split; [by left|]. intros w [->|Hw]%elem_of_cons; [lia|]. specialize (Hle w Hw). lia.
  - intros [= <-]. split; [by left|]. destruct l; [|simpl in Hm; by repeat case_match].
    intros w ->%list_elem_of_singleton. lia.
Qed.

Lemma min_by_Some l x : min_by l = Some x → x ∈ l ∧ ∀ y, y ∈ l → key x ≤ key y.
Proof.
  revert x. induction l as [|z l IH]; intros x; simpl; [done|].
  destruct (min_by l) as [y|] eqn:Hm.
  - destruct (IH y eq_refl) as [Hy Hle]. destruct (Z.ltb_spec (key y) (key z)); intros [= <-].
    + split; [by right|]. intros w [->|Hw]%elem_of_cons; [lia | by apply Hle].
    + split; [by left|]. intros w [->|Hw]%elem_of_cons; [lia|]. specialize (Hle w Hw). lia.
  - intros [= <-]. split; [by left|]. destruct l; [|simpl in Hm; by repeat case_match].
    intros w ->%list_elem_of_singleton. lia.
Qed.

Lemma max_by_None l : max_by l = None ↔ l = [].
Proof. destruct l; simpl; [done|]. repeat case_match; done. Qed.
Lemma min_by_None l : min_by l = None ↔ l = [].
Proof. destruct l; simpl; [done|]. repeat case_match; done. Qed.
End OrderBy.

(** ** Identifiers in order, each once *)

#[export] Instance string_leb_dec : RelDecision (λ x y, String.leb x y = true).
Proof. intros x y. apply _. Defined.
Definition sorted_ids (l : list string) : list string := merge_sort (λ x y, String.leb x y = true) (remove_dups l).
Lemma sorted_elem x l : x ∈ sorted_ids l ↔ x ∈ l.
Proof. unfold sorted_ids. by rewrite merge_sort_Permutation, elem_of_remove_dups. Qed.
Lemma sorted_nodup l : NoDup (sorted_ids l).
Proof. unfold sorted_ids. rewrite merge_sort_Permutation. apply NoDup_remove_dups. Qed.
Lemma omap_none {A B} (f : A → option B) l : omap f l = [] ↔ ∀ x, x ∈ l → f x = None.
Proof.
  split.
  - intros H x Hx. destruct (f x) as [y|] eqn:E; [|done]. assert (Hy : y ∈ omap f l) by (apply list_elem_of_omap; by exists x).
    rewrite H in Hy. by apply elem_of_nil in Hy.
  - intros H. destruct (omap f l) as [|y k] eqn:E; [done|]. assert (Hy : y ∈ omap f l) by (rewrite E; by left).
    apply list_elem_of_omap in Hy as (x & Hx & Hf). by rewrite (H x Hx) in Hf.
Qed.

(** [time.Second], in nanoseconds. *)
Definition second : Z := 1000000000.
