(* ===== verification/Store.v ===== *)
(** * The store: the tables the execution core reads and writes, and the transaction monad over them.

    One record per table of [internal/migrate/migrations/0001_schema.sql], holding the columns the
    transactions of [internal/api] read or write; the store [Db]; the errors a transaction body
    returns; and the primitive reads and writes (rows found by key, appended rows, the conditional
    state write under the schema's transition trigger). *)

From S2P Require Import Prelude.

(** ** Rows *)

(** The values of [operation.kind] and [operation.state]. *)
Inductive op_kind := KPublish | KIngest | KApplyConfig | KAdopt.
Inductive op_state :=
| Queued | Running | Succeeded
| Committed | Sending | Verifying | Unresolved
| Completed | Rejected | Failed | Cancelled.
#[export] Instance op_kind_eq : EqDecision op_kind.
Proof. solve_decision. Defined.
#[export] Instance op_state_eq : EqDecision op_state.
Proof. solve_decision. Defined.

(** The state's text, as an entry or a refusal's cause spells it. *)
Definition state_text (s : op_state) : string :=
  match s with
  | Queued => "queued" | Running => "running" | Succeeded => "succeeded"
  | Committed => "committed" | Sending => "sending" | Verifying => "verifying"
  | Unresolved => "unresolved" | Completed => "completed" | Rejected => "rejected"
  | Failed => "failed" | Cancelled => "cancelled"
  end.

(** [state IN ('committed', 'sending', 'verifying', 'unresolved')]: the operation holds its scopes. *)
Definition active (s : op_state) : bool :=
  match s with Committed | Sending | Verifying | Unresolved => true | _ => false end.

(** A JSON object, its members in order: an operation's result or error, an act's answer. *)
Inductive json := JStr (s : string) | JInt (z : Z) | JBool (b : bool) | JNull | JList (l : list string).
#[export] Instance json_eq : EqDecision json.
Proof. solve_decision. Defined.
Notation doc := (list (string * json)).

(** Table [operation], without the draft, lease and creator columns no apply-config operation uses. *)
Record operation := Operation {
  op_seq : Z; op_kind_of : op_kind; op_st : op_state; op_epoch : string;
  op_owner : option string; op_gen : Z; op_owner_epoch : option string;
  op_plan : option string; op_machine : option string; op_cluster : option string;
  op_created : Z; op_result : option doc; op_error : option doc }.

(** Table [machine]. *)
Record machine := Machine {
  m_cluster : string; m_scope : string; m_frozen : bool; m_counter : Z;
  m_smbios : option string; m_node : option string; m_endpoint : string }.

(** Table [machine_state]. *)
Record machine_state := MachineState {
  ms_revision : Z; ms_desired : option string; ms_applied : option string;
  ms_digest : option string; ms_source : option string; ms_baseline : option Z }.

(** Table [plan]; intervals in microseconds.  An adopt plan's NULL deadlines, which nothing reads, are 0. *)
Record plan := Plan {
  p_machine : string; p_cluster : string; p_kind : op_kind; p_release : string;
  p_assignment : string; p_desired : option string; p_baseline : option Z; p_drift : option Z;
  p_expected : option string; p_route : string; p_max_age : Z; p_check_validity : Z;
  p_transport : Z; p_verification : Z; p_max_attempts : option Z; p_expires : Z;
  p_created_by : string; p_epoch : string; p_created : Z; p_revision : Z; p_evidence : doc }.

(** The values of [plan_state.state], and the table. *)
Inductive plan_st := Proposed | Approved | PCommitted | Revoked | PCancelled | Expired.
#[export] Instance plan_st_eq : EqDecision plan_st.
Proof. solve_decision. Defined.

Definition plan_text (s : plan_st) : string :=
  match s with
  | Proposed => "proposed" | Approved => "approved" | PCommitted => "committed"
  | Revoked => "revoked" | PCancelled => "cancelled" | Expired => "expired"
  end.

Record plan_state := PlanState {
  ps_state : plan_st; ps_approval : option string; ps_operation : option string;
  ps_revision : Z; ps_updated : Z; ps_reason : option string }.

(** Table [approval]. *)
Record approval := Approval {
  ap_approver : string; ap_epoch : string; ap_revision : Z; ap_plan : string; ap_machine : string;
  ap_role : string; ap_reasons : list string; ap_act : string; ap_at : Z }.

(** Tables [observation_start] and [observation]; [o_unread] holds the keys of [unread]. *)
Inductive purpose := PEvidence | PCompletion | PRecovery | PDrift | PRestoration | PPublication.
#[export] Instance purpose_eq : EqDecision purpose.
Proof. solve_decision. Defined.

Record obs_start := ObsStart {
  s_machine : string; s_revision : Z; s_purpose : purpose;
  s_plan : option string; s_operation : option string; s_controller : string }.

Record observation := Observation {
  o_id : string; o_machine : string; o_basis : Z; o_revision : Z;
  o_access : option (string * Z * string);
  o_smbios : option string; o_node : option string; o_cluster : option string;
  o_assignment : option string; o_running : option string; o_digest : option string;
  o_resource : option string; o_unread : list string; o_at : Z }.

(** [internal/talos/apply.go]'s classes of a node's answer. *)
Inductive class := CAccepted | CRejected | CInvalidArgument | CCode | CTransport | CUnrecognised.
#[export] Instance class_eq : EqDecision class.
Proof. solve_decision. Defined.

(** The values of [operation_classification.outcome]. *)
Inductive outcome := OCompleted | OSafeToRetry | ORejected | OFailed.
#[export] Instance outcome_eq : EqDecision outcome.
Proof. solve_decision. Defined.

(** Tables [attempt], [attempt_response], [attempt_accounting] and [operation_classification]. *)
Record attempt := Attempt {
  at_id : string; at_operation : string; at_plan : string; at_machine : string; at_number : Z;
  at_owner : string; at_gen : Z; at_epoch : string; at_route : string; at_observation : string;
  at_transport : Z; at_verification : Z; at_at : Z; at_revision : Z; at_classification : option Z }.

Record response_row := ResponseRow {
  r_attempt : string; r_machine : string; r_class : class; r_code : Z; r_text : string;
  r_owner : string; r_gen : Z; r_epoch : string; r_at : Z; r_revision : Z }.

(** The facts a decision records: the explanation given, the settle floor, the instant it counts
    from and the machine-configuration resource version at both ends. *)
Record settle_facts := SettleFacts {
  f_explanation : option string; f_floor : Z; f_anchor : Z;
  f_start_version : string; f_end_version : string }.

(** The basis of an accounting: a response from the target, or a recovery-admin's decision under an
    act, with the observations at the settle's ends and its facts. *)
Inductive accounting_basis := ByResponse | ByDecision (by_ act start end_ : string) (facts : settle_facts).

Record accounting_row := AccountingRow {
  k_attempt : string; k_machine : string; k_basis : accounting_basis; k_at : Z; k_revision : Z }.

Record classification_row := ClassificationRow {
  c_operation : string; c_machine : string; c_revision : Z; c_outcome : outcome;
  c_observation : option string; c_owner : string; c_gen : Z; c_epoch : string;
  c_relied : list Z }.

(** Table [drift_record]. *)
Record drift_record := DriftRecord {
  d_machine : string; d_opened : Z; d_observation : string; d_applied : string; d_observed : string;
  d_last : string; d_late : option string; d_closed : option Z; d_resolution : option string }.

(** The entry of a [machine_event], one constructor per kind the core writes or reads; [EvOther]
    stands for the kinds it neither writes nor tests. *)
Inductive entry :=
| EvObservationStarted (p : purpose) (plan op : option string) (endpoint controller : string)
| EvObservation (obs : string) (p : purpose) (basis : Z)
| EvUseTimeCheck (plan : string) (op : option string) (controller : string) (passed : bool)
    (access : option (string * Z * string)) (started : Z)
| EvCommitment (plan op approval obs controller : string)
| EvRefusal (transaction comparison plan : string) (op : option string) (cause controller : string)
    (gen : option Z) (obs : option string)
| EvAttempt (attempt op : string) (number : Z) (controller : string) (gen : Z) (route : string)
    (transport verification : Z) (obs : string) (classification : option Z)
| EvOperationState (op : string) (from to_ : op_state) (controller : string) (gen : Z)
    (decided : option string) (comparison : option string) (cause : string)
| EvResponse (op attempt : string) (number : Z) (c : class) (code : Z) (text controller : string) (gen : Z)
| EvAccounting (op attempt : string) (b : accounting_basis)
| EvClassification (op : string) (o : outcome) (obs : option string) (relied : list Z)
    (controller : string) (gen : Z)
| EvOwnership (op from to_ : string) (gen from_gen : Z) (from_epoch epoch reason : string)
| EvAppliedChange (from : option string) (to_ digest source plan op : string)
| EvDrift (record : Z) (change obs : string) (resolution late : option string)
| EvPlan (plan operation release principal role : string)
| EvApproval (plan approval principal role : string) (self_approval : list string) (unseen : bool)
| EvApprovalRevocation (approval plan principal role reason : string)
| EvPlanCancellation (plan principal role reason : string)
| EvIdentityRevocation (identity : string) (plans : list string) (principal role reason : string)
| EvFreeze (frozen : bool) (principal role reason : string)
| EvEndpointChange (previous new principal role : string)
| EvScopeState (from to_ cause act : string) (release : option string)
| EvAdoption (plan op approval obs controller : string)
| EvOther (kind : string).

(** [machine_event.kind]. *)
Definition entry_kind (e : entry) : string :=
  match e with
  | EvObservationStarted _ _ _ _ _ => "observation-started"
  | EvObservation _ _ _ => "observation"
  | EvUseTimeCheck _ _ _ _ _ _ => "use-time-check"
  | EvCommitment _ _ _ _ _ => "commitment"
  | EvRefusal _ _ _ _ _ _ _ _ => "refusal"
  | EvAttempt _ _ _ _ _ _ _ _ _ _ => "attempt"
  | EvOperationState _ _ _ _ _ _ _ _ => "operation-state"
  | EvResponse _ _ _ _ _ _ _ _ => "response"
  | EvAccounting _ _ _ => "accounting"
  | EvClassification _ _ _ _ _ _ => "classification"
  | EvOwnership _ _ _ _ _ _ _ _ => "ownership-transition"
  | EvAppliedChange _ _ _ _ _ _ => "applied-change"
  | EvDrift _ _ _ _ _ => "drift"
  | EvPlan _ _ _ _ _ => "plan"
  | EvApproval _ _ _ _ _ _ => "approval"
  | EvApprovalRevocation _ _ _ _ _ => "approval-revocation"
  | EvPlanCancellation _ _ _ _ => "plan-cancellation"
  | EvIdentityRevocation _ _ _ _ _ => "identity-revocation"
  | EvFreeze f _ _ _ => if f then "freeze" else "unfreeze"
  | EvEndpointChange _ _ _ _ => "endpoint-change"
  | EvScopeState _ _ _ _ _ => "scope-state"
  | EvAdoption _ _ _ _ _ => "adoption"
  | EvOther k => k
  end.

(** [entry->>'operation'] of an entry that names an operation by its identifier. *)
Definition entry_operation (e : entry) : option string :=
  match e with
  | EvObservationStarted _ _ op _ _ => op
  | EvUseTimeCheck _ op _ _ _ _ => op
  | EvCommitment _ op _ _ _ => Some op
  | EvRefusal _ _ _ op _ _ _ _ => op
  | EvAttempt _ op _ _ _ _ _ _ _ _ => Some op
  | EvOperationState op _ _ _ _ _ _ _ => Some op
  | EvResponse op _ _ _ _ _ _ _ => Some op
  | EvAccounting op _ _ => Some op
  | EvClassification op _ _ _ _ _ => Some op
  | EvOwnership op _ _ _ _ _ _ _ => Some op
  | EvAppliedChange _ _ _ _ _ op => Some op
  | EvAdoption _ op _ _ _ => Some op
  | EvObservation _ _ _ | EvDrift _ _ _ _ _ | EvPlan _ _ _ _ _ | EvApproval _ _ _ _ _ _
  | EvApprovalRevocation _ _ _ _ _ | EvPlanCancellation _ _ _ _ | EvIdentityRevocation _ _ _ _ _
  | EvFreeze _ _ _ _ | EvEndpointChange _ _ _ _ | EvScopeState _ _ _ _ _ | EvOther _ => None
  end.

Record event := Event { e_machine : string; e_revision : Z; e_epoch : string; e_entry : entry; e_at : Z }.

(** ** The store *)

(** Table [release_machine]: the artifact of one machine in a release, the import base and
    assignment revisions it was compiled from, and its redacted form. *)
Record artifact_row := ArtifactRow {
  rm_digest : string; rm_ciphertext : string; rm_key : string; rm_version : Z;
  rm_base : string; rm_assignment : string; rm_redacted : option string }.

(** Tables [act] and [idempotency_record]. *)
Record act_row := ActRow {
  act_id : string; act_principal : string; act_role : string; act_action : string;
  act_subjects : list string; act_key : string; act_request : string; act_epoch : string }.
Record record_row := RecordRow {
  rec_fingerprint : string; rec_fp_key : string; rec_request : string; rec_epoch : string;
  rec_status : Z; rec_location : option string; rec_body : doc; rec_operation : option string }.
Record ledger := Ledger { acts : list act_row; records : gmap (string * string) record_row }.

(** What a plan's approval is judged by: table [release] (its cluster, draft and publisher), the
    authored revisions its sources name, each revision's author, the revisions each draft introduced,
    the import bases' digests, and the human responsible for each service identity. *)
Record release_row := ReleaseRow { rl_cluster : string; rl_draft : string; rl_published_by : string }.
Record provenance := Provenance {
  releases : gmap string release_row; sources : gmap string (list string); authors : gmap string string;
  introduced : gmap string (list string); base_digests : gmap string string; services : gmap string string }.

(** Tables [recovery_epoch], [scope_accounting], [scope_release] and [recovery_exit]; the rows no
    transaction reads back ([machine_freeze], [machine_endpoint_change], [recovery_restore] and the
    details of revocations and cancellations) are one list of facts. *)
Record epoch_row := EpochRow { ep_entered_at : Z; ep_entered_by : option string; ep_stopped : option Z }.
Record scope_accounting := ScopeAccounting {
  sa_by : string; sa_act : string; sa_start : string; sa_end : string; sa_facts : settle_facts;
  sa_at : Z; sa_revision : Z }.
Record scope_release := ScopeRelease {
  sr_by : string; sr_act : string; sr_mark : Z; sr_at : Z; sr_revision : Z }.
Inductive fact :=
| FFreeze (machine : string) (revision : Z) (frozen : bool) (principal act : string)
| FEndpointChange (machine : string) (revision : Z) (previous new act : string)
| FApprovalRevocation (approval plan machine by_ reason act : string) (at_ revision : Z)
| FPlanCancellation (plan machine by_ reason act : string) (at_ revision : Z)
| FIdentityRevocation (identity by_ reason act : string) (at_ : Z)
| FAdoption (plan machine operation approval obs : string) (at_ revision : Z) (baseline : string)
| FRestore (epoch family backup : string) (taken : Z)
| FOperationEvent (operation : string) (number : Z) (epoch kind code : string).
Record recovery_log := RecoveryLog {
  epochs : gmap string epoch_row; scope_accountings : gmap (string * string) scope_accounting;
  scope_releases : gmap (string * string) scope_release; exits : gmap string (string * string * Z);
  claims : gmap string bool; ingests : gmap string string; op_events : gmap string Z; facts : list fact }.

(** The rows the execution core reads and writes.  [principals] maps a principal to its [revoked]
    flag, [contracts] a release to its contract, [clusters] a cluster to its Talos ID, [heads] a
    machine to its assignment's head revision; [clock] is the last time the database clock told. *)
Record Db := MkDb {
  epoch : string; recovery : bool; clock : Z;
  machines : gmap string machine; mstates : gmap string machine_state; heads : gmap string string;
  clusters : gmap string string; contracts : gmap string string;
  artifacts : gmap (string * string) artifact_row;
  plans : gmap string plan; pstates : gmap string plan_state; approvals : gmap string approval;
  principals : gmap string bool; id_revoked : gmap string Z;
  approval_revocations : gset string; cancellations : gset string;
  starts : list obs_start; observations : list observation; events : list event;
  drifts : list drift_record; ops : gmap string operation; attempts : list attempt;
  responses : list response_row; accountings : list accounting_row;
  classifications : list classification_row;
  book : ledger; prov : provenance; rlog : recovery_log }.

(** One table replaced, the others kept. *)
Definition set_epoch x (d : Db) : Db :=
  {| epoch := x; recovery := recovery d; clock := clock d; machines := machines d; mstates := mstates
     d; heads := heads d; clusters := clusters d; contracts := contracts d; artifacts :=
     artifacts d; plans := plans d; pstates := pstates d; approvals := approvals d; principals
     := principals d; id_revoked := id_revoked d; approval_revocations := approval_revocations
     d; cancellations := cancellations d; starts := starts d; observations := observations d;
     events := events d; drifts := drifts d; ops := ops d; attempts := attempts d; responses :=
     responses d; accountings := accountings d; classifications := classifications d; book :=
     book d; prov := prov d; rlog := rlog d |}.
Definition set_recovery x (d : Db) : Db :=
  {| epoch := epoch d; recovery := x; clock := clock d; machines := machines d; mstates := mstates d;
     heads := heads d; clusters := clusters d; contracts := contracts d; artifacts := artifacts
     d; plans := plans d; pstates := pstates d; approvals := approvals d; principals :=
     principals d; id_revoked := id_revoked d; approval_revocations := approval_revocations d;
     cancellations := cancellations d; starts := starts d; observations := observations d;
     events := events d; drifts := drifts d; ops := ops d; attempts := attempts d; responses :=
     responses d; accountings := accountings d; classifications := classifications d; book :=
     book d; prov := prov d; rlog := rlog d |}.
Definition set_clock x (d : Db) : Db :=
  {| epoch := epoch d; recovery := recovery d; clock := x; machines := machines d; mstates := mstates
     d; heads := heads d; clusters := clusters d; contracts := contracts d; artifacts :=
     artifacts d; plans := plans d; pstates := pstates d; approvals := approvals d; principals
     := principals d; id_revoked := id_revoked d; approval_revocations := approval_revocations
     d; cancellations := cancellations d; starts := starts d; observations := observations d;
     events := events d; drifts := drifts d; ops := ops d; attempts := attempts d; responses :=
     responses d; accountings := accountings d; classifications := classifications d; book :=
     book d; prov := prov d; rlog := rlog d |}.
Definition set_machines x (d : Db) : Db :=
  {| epoch := epoch d; recovery := recovery d; clock := clock d; machines := x; mstates := mstates d;
     heads := heads d; clusters := clusters d; contracts := contracts d; artifacts := artifacts
     d; plans := plans d; pstates := pstates d; approvals := approvals d; principals :=
     principals d; id_revoked := id_revoked d; approval_revocations := approval_revocations d;
     cancellations := cancellations d; starts := starts d; observations := observations d;
     events := events d; drifts := drifts d; ops := ops d; attempts := attempts d; responses :=
     responses d; accountings := accountings d; classifications := classifications d; book :=
     book d; prov := prov d; rlog := rlog d |}.
Definition set_mstates x (d : Db) : Db :=
  {| epoch := epoch d; recovery := recovery d; clock := clock d; machines := machines d; mstates :=
     x; heads := heads d; clusters := clusters d; contracts := contracts d; artifacts :=
     artifacts d; plans := plans d; pstates := pstates d; approvals := approvals d; principals
     := principals d; id_revoked := id_revoked d; approval_revocations := approval_revocations
     d; cancellations := cancellations d; starts := starts d; observations := observations d;
     events := events d; drifts := drifts d; ops := ops d; attempts := attempts d; responses :=
     responses d; accountings := accountings d; classifications := classifications d; book :=
     book d; prov := prov d; rlog := rlog d |}.
Definition set_plans x (d : Db) : Db :=
  {| epoch := epoch d; recovery := recovery d; clock := clock d; machines := machines d; mstates :=
     mstates d; heads := heads d; clusters := clusters d; contracts := contracts d; artifacts :=
     artifacts d; plans := x; pstates := pstates d; approvals := approvals d; principals :=
     principals d; id_revoked := id_revoked d; approval_revocations := approval_revocations d;
     cancellations := cancellations d; starts := starts d; observations := observations d;
     events := events d; drifts := drifts d; ops := ops d; attempts := attempts d; responses :=
     responses d; accountings := accountings d; classifications := classifications d; book :=
     book d; prov := prov d; rlog := rlog d |}.
Definition set_pstates x (d : Db) : Db :=
  {| epoch := epoch d; recovery := recovery d; clock := clock d; machines := machines d; mstates :=
     mstates d; heads := heads d; clusters := clusters d; contracts := contracts d; artifacts :=
     artifacts d; plans := plans d; pstates := x; approvals := approvals d; principals :=
     principals d; id_revoked := id_revoked d; approval_revocations := approval_revocations d;
     cancellations := cancellations d; starts := starts d; observations := observations d;
     events := events d; drifts := drifts d; ops := ops d; attempts := attempts d; responses :=
     responses d; accountings := accountings d; classifications := classifications d; book :=
     book d; prov := prov d; rlog := rlog d |}.
Definition set_approvals x (d : Db) : Db :=
  {| epoch := epoch d; recovery := recovery d; clock := clock d; machines := machines d; mstates :=
     mstates d; heads := heads d; clusters := clusters d; contracts := contracts d; artifacts :=
     artifacts d; plans := plans d; pstates := pstates d; approvals := x; principals :=
     principals d; id_revoked := id_revoked d; approval_revocations := approval_revocations d;
     cancellations := cancellations d; starts := starts d; observations := observations d;
     events := events d; drifts := drifts d; ops := ops d; attempts := attempts d; responses :=
     responses d; accountings := accountings d; classifications := classifications d; book :=
     book d; prov := prov d; rlog := rlog d |}.
Definition set_principals x (d : Db) : Db :=
  {| epoch := epoch d; recovery := recovery d; clock := clock d; machines := machines d; mstates :=
     mstates d; heads := heads d; clusters := clusters d; contracts := contracts d; artifacts :=
     artifacts d; plans := plans d; pstates := pstates d; approvals := approvals d; principals
     := x; id_revoked := id_revoked d; approval_revocations := approval_revocations d;
     cancellations := cancellations d; starts := starts d; observations := observations d;
     events := events d; drifts := drifts d; ops := ops d; attempts := attempts d; responses :=
     responses d; accountings := accountings d; classifications := classifications d; book :=
     book d; prov := prov d; rlog := rlog d |}.
Definition set_id_revoked x (d : Db) : Db :=
  {| epoch := epoch d; recovery := recovery d; clock := clock d; machines := machines d; mstates :=
     mstates d; heads := heads d; clusters := clusters d; contracts := contracts d; artifacts :=
     artifacts d; plans := plans d; pstates := pstates d; approvals := approvals d; principals
     := principals d; id_revoked := x; approval_revocations := approval_revocations d;
     cancellations := cancellations d; starts := starts d; observations := observations d;
     events := events d; drifts := drifts d; ops := ops d; attempts := attempts d; responses :=
     responses d; accountings := accountings d; classifications := classifications d; book :=
     book d; prov := prov d; rlog := rlog d |}.
Definition set_approval_revocations x (d : Db) : Db :=
  {| epoch := epoch d; recovery := recovery d; clock := clock d; machines := machines d; mstates :=
     mstates d; heads := heads d; clusters := clusters d; contracts := contracts d; artifacts :=
     artifacts d; plans := plans d; pstates := pstates d; approvals := approvals d; principals
     := principals d; id_revoked := id_revoked d; approval_revocations := x; cancellations :=
     cancellations d; starts := starts d; observations := observations d; events := events d;
     drifts := drifts d; ops := ops d; attempts := attempts d; responses := responses d;
     accountings := accountings d; classifications := classifications d; book := book d; prov :=
     prov d; rlog := rlog d |}.
Definition set_cancellations x (d : Db) : Db :=
  {| epoch := epoch d; recovery := recovery d; clock := clock d; machines := machines d; mstates :=
     mstates d; heads := heads d; clusters := clusters d; contracts := contracts d; artifacts :=
     artifacts d; plans := plans d; pstates := pstates d; approvals := approvals d; principals
     := principals d; id_revoked := id_revoked d; approval_revocations := approval_revocations
     d; cancellations := x; starts := starts d; observations := observations d; events := events
     d; drifts := drifts d; ops := ops d; attempts := attempts d; responses := responses d;
     accountings := accountings d; classifications := classifications d; book := book d; prov :=
     prov d; rlog := rlog d |}.
Definition set_starts x (d : Db) : Db :=
  {| epoch := epoch d; recovery := recovery d; clock := clock d; machines := machines d; mstates :=
     mstates d; heads := heads d; clusters := clusters d; contracts := contracts d; artifacts :=
     artifacts d; plans := plans d; pstates := pstates d; approvals := approvals d; principals
     := principals d; id_revoked := id_revoked d; approval_revocations := approval_revocations
     d; cancellations := cancellations d; starts := x; observations := observations d; events :=
     events d; drifts := drifts d; ops := ops d; attempts := attempts d; responses := responses
     d; accountings := accountings d; classifications := classifications d; book := book d; prov
     := prov d; rlog := rlog d |}.
Definition set_observations x (d : Db) : Db :=
  {| epoch := epoch d; recovery := recovery d; clock := clock d; machines := machines d; mstates :=
     mstates d; heads := heads d; clusters := clusters d; contracts := contracts d; artifacts :=
     artifacts d; plans := plans d; pstates := pstates d; approvals := approvals d; principals
     := principals d; id_revoked := id_revoked d; approval_revocations := approval_revocations
     d; cancellations := cancellations d; starts := starts d; observations := x; events :=
     events d; drifts := drifts d; ops := ops d; attempts := attempts d; responses := responses
     d; accountings := accountings d; classifications := classifications d; book := book d; prov
     := prov d; rlog := rlog d |}.
Definition set_events x (d : Db) : Db :=
  {| epoch := epoch d; recovery := recovery d; clock := clock d; machines := machines d; mstates :=
     mstates d; heads := heads d; clusters := clusters d; contracts := contracts d; artifacts :=
     artifacts d; plans := plans d; pstates := pstates d; approvals := approvals d; principals
     := principals d; id_revoked := id_revoked d; approval_revocations := approval_revocations
     d; cancellations := cancellations d; starts := starts d; observations := observations d;
     events := x; drifts := drifts d; ops := ops d; attempts := attempts d; responses :=
     responses d; accountings := accountings d; classifications := classifications d; book :=
     book d; prov := prov d; rlog := rlog d |}.
Definition set_drifts x (d : Db) : Db :=
  {| epoch := epoch d; recovery := recovery d; clock := clock d; machines := machines d; mstates :=
     mstates d; heads := heads d; clusters := clusters d; contracts := contracts d; artifacts :=
     artifacts d; plans := plans d; pstates := pstates d; approvals := approvals d; principals
     := principals d; id_revoked := id_revoked d; approval_revocations := approval_revocations
     d; cancellations := cancellations d; starts := starts d; observations := observations d;
     events := events d; drifts := x; ops := ops d; attempts := attempts d; responses :=
     responses d; accountings := accountings d; classifications := classifications d; book :=
     book d; prov := prov d; rlog := rlog d |}.
Definition set_ops x (d : Db) : Db :=
  {| epoch := epoch d; recovery := recovery d; clock := clock d; machines := machines d; mstates :=
     mstates d; heads := heads d; clusters := clusters d; contracts := contracts d; artifacts :=
     artifacts d; plans := plans d; pstates := pstates d; approvals := approvals d; principals
     := principals d; id_revoked := id_revoked d; approval_revocations := approval_revocations
     d; cancellations := cancellations d; starts := starts d; observations := observations d;
     events := events d; drifts := drifts d; ops := x; attempts := attempts d; responses :=
     responses d; accountings := accountings d; classifications := classifications d; book :=
     book d; prov := prov d; rlog := rlog d |}.
Definition set_attempts x (d : Db) : Db :=
  {| epoch := epoch d; recovery := recovery d; clock := clock d; machines := machines d; mstates :=
     mstates d; heads := heads d; clusters := clusters d; contracts := contracts d; artifacts :=
     artifacts d; plans := plans d; pstates := pstates d; approvals := approvals d; principals
     := principals d; id_revoked := id_revoked d; approval_revocations := approval_revocations
     d; cancellations := cancellations d; starts := starts d; observations := observations d;
     events := events d; drifts := drifts d; ops := ops d; attempts := x; responses := responses
     d; accountings := accountings d; classifications := classifications d; book := book d; prov
     := prov d; rlog := rlog d |}.
Definition set_responses x (d : Db) : Db :=
  {| epoch := epoch d; recovery := recovery d; clock := clock d; machines := machines d; mstates :=
     mstates d; heads := heads d; clusters := clusters d; contracts := contracts d; artifacts :=
     artifacts d; plans := plans d; pstates := pstates d; approvals := approvals d; principals
     := principals d; id_revoked := id_revoked d; approval_revocations := approval_revocations
     d; cancellations := cancellations d; starts := starts d; observations := observations d;
     events := events d; drifts := drifts d; ops := ops d; attempts := attempts d; responses :=
     x; accountings := accountings d; classifications := classifications d; book := book d; prov
     := prov d; rlog := rlog d |}.
Definition set_accountings x (d : Db) : Db :=
  {| epoch := epoch d; recovery := recovery d; clock := clock d; machines := machines d; mstates :=
     mstates d; heads := heads d; clusters := clusters d; contracts := contracts d; artifacts :=
     artifacts d; plans := plans d; pstates := pstates d; approvals := approvals d; principals
     := principals d; id_revoked := id_revoked d; approval_revocations := approval_revocations
     d; cancellations := cancellations d; starts := starts d; observations := observations d;
     events := events d; drifts := drifts d; ops := ops d; attempts := attempts d; responses :=
     responses d; accountings := x; classifications := classifications d; book := book d; prov
     := prov d; rlog := rlog d |}.
Definition set_classifications x (d : Db) : Db :=
  {| epoch := epoch d; recovery := recovery d; clock := clock d; machines := machines d; mstates :=
     mstates d; heads := heads d; clusters := clusters d; contracts := contracts d; artifacts :=
     artifacts d; plans := plans d; pstates := pstates d; approvals := approvals d; principals
     := principals d; id_revoked := id_revoked d; approval_revocations := approval_revocations
     d; cancellations := cancellations d; starts := starts d; observations := observations d;
     events := events d; drifts := drifts d; ops := ops d; attempts := attempts d; responses :=
     responses d; accountings := accountings d; classifications := x; book := book d; prov :=
     prov d; rlog := rlog d |}.
Definition set_book x (d : Db) : Db :=
  {| epoch := epoch d; recovery := recovery d; clock := clock d; machines := machines d; mstates :=
     mstates d; heads := heads d; clusters := clusters d; contracts := contracts d; artifacts :=
     artifacts d; plans := plans d; pstates := pstates d; approvals := approvals d; principals
     := principals d; id_revoked := id_revoked d; approval_revocations := approval_revocations
     d; cancellations := cancellations d; starts := starts d; observations := observations d;
     events := events d; drifts := drifts d; ops := ops d; attempts := attempts d; responses :=
     responses d; accountings := accountings d; classifications := classifications d; book := x;
     prov := prov d; rlog := rlog d |}.
Definition set_rlog x (d : Db) : Db :=
  {| epoch := epoch d; recovery := recovery d; clock := clock d; machines := machines d; mstates :=
     mstates d; heads := heads d; clusters := clusters d; contracts := contracts d; artifacts :=
     artifacts d; plans := plans d; pstates := pstates d; approvals := approvals d; principals
     := principals d; id_revoked := id_revoked d; approval_revocations := approval_revocations
     d; cancellations := cancellations d; starts := starts d; observations := observations d;
     events := events d; drifts := drifts d; ops := ops d; attempts := attempts d; responses :=
     responses d; accountings := accountings d; classifications := classifications d; book :=
     book d; prov := prov d; rlog := x |}.

(** ** Errors *)

(** What a transaction body or a call answers instead of a value.  A refusal by comparison names the
    machine and plan the caller records it on, the comparison, its cause and the observation that
    showed it ("" for none); [ENoRows] is a single-row query without its row. *)
Inductive err :=
| ENotController
| EAlreadyCommitted
| ENoEvidence (why : string)
| ENoRows (what : string)
| EReadNotDue
| EWrongKind
| ENotCommittedTo
| EDuplicate (what : string)
| ECommitRefused (machine plan comparison cause obs : string) (drift : bool)
| EAttemptRefused (machine plan comparison cause obs : string)
| EOutcomeRefused (transaction cause : string)
| EUseTime
| EAccessMoved
| ECancelled
| EAlreadyAdopted
| EAlreadyRefused
| EAdoptionRefused (machine comparison cause : string)
| ERefused (status : Z) (code detail : string) (members : doc)
| EConstraint (name : string).
#[export] Instance err_eq : EqDecision err.
Proof. solve_decision. Defined.

Notation Tx := (M Db err).

(** ** The process *)

(** The controls of [options] that change what a transaction decides; all off in production. *)
Record options := Options {
  noProcessEpoch : bool; noPlanCheck : bool; noEpochTerm : bool; readThenWrite : bool;
  noScopeGate : bool; recordOrder : bool; dispatchRoute : bool }.
Definition production : options := Options false false false false false false false.

(** The process: its owner identity and epoch, the settle floor (microseconds) and its controls. *)
Record api := Api { owner_id : string; owner_epoch : string; settle_floor : Z; opts : options }.

(** ** Times *)

(** Times are microseconds, PostgreSQL's resolution.  Go's [Duration] is an int64 of nanoseconds:
    [t.Sub(u)] saturates at its ends, and a multiplication wraps. *)
Definition min64 : Z := - 2 ^ 63.
Definition max64 : Z := 2 ^ 63 - 1.
Definition wrap64 (z : Z) : Z := (z + 2 ^ 63) mod 2 ^ 64 - 2 ^ 63.
Definition sat64 (z : Z) : Z := Z.max min64 (Z.min max64 z).
Definition time_sub (t u : Z) : Z := sat64 ((t - u) * 1000).
Definition duration_of_micros (m : Z) : Z := wrap64 (m * 1000).

(** ** Primitive reads and writes *)

(** [sql.NullString.String]: the empty string for NULL. *)
Definition str (o : option string) : string := default "" o.

(** A row by its key, as a single-row query. *)
Definition machine_row (id : string) : Tx machine := getsOr (λ d, machines d !! id) (ENoRows "machine").
Definition mstate_row (id : string) : Tx machine_state := getsOr (λ d, mstates d !! id) (ENoRows "machine_state").
Definition plan_row (id : string) : Tx plan := getsOr (λ d, plans d !! id) (ENoRows "plan").
Definition pstate_row (id : string) : Tx plan_state := getsOr (λ d, pstates d !! id) (ENoRows "plan_state").
Definition op_row (id : string) : Tx operation := getsOr (λ d, ops d !! id) (ENoRows "operation").

(** The operation with another state, and with another outcome. *)
Definition with_state (s : op_state) (o : operation) : operation :=
  Operation (op_seq o) (op_kind_of o) s (op_epoch o) (op_owner o) (op_gen o) (op_owner_epoch o)
    (op_plan o) (op_machine o) (op_cluster o) (op_created o) (op_result o) (op_error o).
Definition with_outcome (result error : option doc) (o : operation) : operation :=
  Operation (op_seq o) (op_kind_of o) (op_st o) (op_epoch o) (op_owner o) (op_gen o) (op_owner_epoch o)
    (op_plan o) (op_machine o) (op_cluster o) (op_created o) result error.
Definition with_owner (id : string) (gen : Z) (ep : string) (o : operation) : operation :=
  Operation (op_seq o) (op_kind_of o) (op_st o) (op_epoch o) (Some id) gen (Some ep)
    (op_plan o) (op_machine o) (op_cluster o) (op_created o) (op_result o) (op_error o).

(** [UPDATE operation ... WHERE id = $1]; no row, no change. *)
Definition update_op (id : string) (f : operation → operation) (d : Db) : Db :=
  set_ops (alter f id (ops d)) d.

Definition counted (m : machine) : machine :=
  Machine (m_cluster m) (m_scope m) (m_frozen m) (m_counter m + 1) (m_smbios m) (m_node m) (m_endpoint m).

(** The operations with attempts, the attempts of one, and its latest classification. *)
Definition attempts_of (op : string) (d : Db) : list attempt :=
  filter (λ a, at_operation a = op) (attempts d).
Definition responded_with (P : class → bool) (a : attempt) (d : Db) : bool :=
  existsb (λ r, bool_decide (r_attempt r = at_id a) && P (r_class r)) (responses d).
Definition accounted_for (a : string) (d : Db) : bool :=
  existsb (λ k, bool_decide (k_attempt k = a)) (accountings d).
Definition classifications_of (op : string) (d : Db) : list classification_row :=
  filter (λ c, c_operation c = op) (classifications d).

(** The start of an observation and the time of its entry. *)
Definition start_of (o : observation) (d : Db) : option obs_start :=
  find (λ s, bool_decide (s_machine s = o_machine o) && bool_decide (s_revision s = o_basis o)) (starts d).
Definition event_of (m : string) (rev : Z) (d : Db) : option event :=
  find (λ e, bool_decide (e_machine e = m) && bool_decide (e_revision e = rev)) (events d).
Definition observation_row (id : string) (d : Db) : option observation :=
  find (λ o, bool_decide (o_id o = id)) (observations d).
Definition attempt_row (id : string) (d : Db) : option attempt :=
  find (λ a, bool_decide (at_id a = id)) (attempts d).
(** [unread->name IS NULL]: the observation read the value. *)
Definition was_read (name : string) (o : observation) : bool := bool_decide (name ∉ o_unread o).

Section Clock.
(** The next time the clock tells. *)
Variable tick : Z → Z.

(** [SELECT clock_timestamp()] *)
Definition clock_timestamp : Tx Z :=
  t ← gets (λ d, tick (clock d)); modify (set_clock t);; mret t.

(** [UPDATE machine SET revision_counter = revision_counter + 1 ... RETURNING revision_counter] *)
Definition next_revision (machine : string) : Tx Z :=
  m ← machine_row machine;
  modify (λ d, set_machines (<[machine := counted m]> (machines d)) d);;
  mret (m_counter m + 1).

(** [INSERT INTO machine_event] *)
Definition insert_event (machine : string) (rev : Z) (ep : string) (e : entry) (at_ : Z) : Tx unit :=
  modify (λ d, set_events (events d ++ [Event machine rev ep e at_]) d).

(** [nextEntry]: the machine's next timeline revision and the entry's time. *)
Definition nextEntry (machine : string) : Tx (Z * Z) :=
  rev ← next_revision machine; at_ ← clock_timestamp; mret (rev, at_).

(** An entry appended at the next revision: [nextEntry] and its insert. *)
Definition append_event (machine ep : string) (e : entry) : Tx (Z * Z) :=
  ra ← nextEntry machine; insert_event machine ra.1 ep e ra.2;; mret ra.
End Clock.

(** ** The steps' equations *)

Lemma clock_timestamp_ok tick d t d' :
  clock_timestamp tick d = Ok (t, d') ↔ t = tick (clock d) ∧ d' = set_clock t d.
Proof.
  unfold clock_timestamp. split.
  - intros H. by m_inv.
  - intros [-> ->]. apply bind_ok. exists (tick (clock d)), d. rewrite gets_ok. split; [done|].
    apply bind_ok. eexists tt, _. by rewrite modify_ok, ret_ok.
Qed.

Lemma next_revision_ok m d r d' :
  next_revision m d = Ok (r, d') ↔
  ∃ x, machines d !! m = Some x ∧ r = m_counter x + 1 ∧ d' = set_machines (<[m := counted x]> (machines d)) d.
Proof.
  unfold next_revision, machine_row. split.
  - intros H. m_inv. eauto.
  - intros (x & Hx & -> & ->). apply bind_ok. exists x, d. rewrite getsOr_ok. split; [done|].
    apply bind_ok. eexists tt, _. by rewrite modify_ok, ret_ok.
Qed.

Lemma insert_event_ok m r ep e t d u d' :
  insert_event m r ep e t d = Ok (u, d') ↔ d' = set_events (events d ++ [Event m r ep e t]) d.
Proof. unfold insert_event. rewrite modify_ok. naive_solver. Qed.

(** Inverts the timeline's steps. *)
Ltac timeline_inv := repeat match goal with
  | H : clock_timestamp _ _ = Ok (_, _) |- _ => apply clock_timestamp_ok in H; destruct H; subst
  | H : next_revision _ _ = Ok (_, _) |- _ =>
      let m := fresh "m" in let Hm := fresh "Hm" in
      apply next_revision_ok in H; destruct H as (m & Hm & ? & ?); subst
  | H : insert_event _ _ _ _ _ _ = Ok (_, _) |- _ => apply insert_event_ok in H; subst
  end.
