(* ===== verification/World.v ===== *)
(** * The world a process runs in: the shared store, the answers of what it calls, and what it sent.

    A call of the API is a procedure over the world.  It reaches the store in turns, each one
    transaction or query; before each turn the other processes have made theirs ([others]).  The
    answers of the secret provider, the node and the process clock are taken from the world in
    order, so a run is determined by them. *)

From S2P Require Import Prelude Store.

(** A Talos access version's identity: its path, version and creation time. *)
Definition access_version : Type := string * Z * string.

(** The executor's answers: a Talos access, or why the read failed; an artifact opened, or why not. *)
Inductive provider_error := PAbsent | PDenied | PProtocol | PUnavailable | POther.
Inductive answer (A : Type) := Answered (x : A) | Failed_ (e : provider_error) | Interrupted.
Arguments Answered {A} x.
Arguments Failed_ {A} e.
Arguments Interrupted {A}.

(** [talos.Identity], and the node's answer to one request: a value, an error, no answer
    ([unanswered]), or the caller's own context ended. *)
Record identity := Identity { i_smbios : string; i_node : string; i_cluster : string }.
Inductive node_answer (A : Type) := NodeSaid (x : A) | NodeError | NodeSilent | NodeInterrupted.
Arguments NodeSaid {A} x.
Arguments NodeError {A}.
Arguments NodeSilent {A}.
Arguments NodeInterrupted {A}.

(** A node as one observation meets it: whether a client could be made, and its answers. *)
Record node_script := NodeScript {
  n_dialled : bool; n_identity : node_answer identity; n_version : node_answer string;
  n_config : node_answer (string * string) }.

(** [talos.Response]: the class, the gRPC code and the fixed notice. *)
Record response := Response { rs_class : class; rs_code : Z; rs_text : string }.

(** One request sent: the attempt it is of, the endpoint, the access it used and its deadline. *)
Record request := Request { q_attempt : string; q_route : string; q_access : access_version;
  q_artifact : string; q_deadline : Z }.

Record world := World {
  w_db : Db; w_turn : nat; w_fresh : nat; w_now : Z; w_access : list (answer access_version);
  w_opened : list (answer string); w_nodes : list node_script; w_answers : list response;
  w_sent : list request }.

Notation Act := (P world err).

Definition set_db (d : Db) (w : world) : world :=
  World d (S (w_turn w)) (w_fresh w) (w_now w) (w_access w) (w_opened w) (w_nodes w) (w_answers w) (w_sent w).

Section World.
(** What the other processes make of the store before this process's next turn, a fresh
    identifier, and the next reading of the process clock. *)
Variable others : nat → Db → Db.
Variable fresh_id : nat → string.
Variable ptick : Z → Z.

(** [inTx]: one transaction; an error rolls it back. *)
Definition inTx {A} (m : Tx A) : Act A := λ w,
  let d := others (w_turn w) (w_db w) in
  match m d with Ok (a, d') => (Ok a, set_db d' w) | Err e => (Err e, set_db d w) end.

(** A query outside a transaction. *)
Definition query {A} (f : Db → A) : Act A := λ w,
  let d := others (w_turn w) (w_db w) in (Ok (f d), set_db d w).

(** [id.New] *)
Definition new_id : Act string := λ w,
  (Ok (fresh_id (w_fresh w)),
   World (w_db w) (w_turn w) (S (w_fresh w)) (w_now w) (w_access w) (w_opened w) (w_nodes w) (w_answers w) (w_sent w)).

(** [time.Now] *)
Definition now : Act Z := λ w,
  let t := ptick (w_now w) in
  (Ok t, World (w_db w) (w_turn w) (w_fresh w) t (w_access w) (w_opened w) (w_nodes w) (w_answers w) (w_sent w)).

(** The executor's [TalosAccess] and [DecryptArtifact]; a run out of answers is interrupted. *)
Definition TalosAccess : Act (answer access_version) := λ w,
  match w_access w with
  | [] => (Ok Interrupted, w)
  | x :: l => (Ok x, World (w_db w) (w_turn w) (w_fresh w) (w_now w) l (w_opened w) (w_nodes w) (w_answers w) (w_sent w))
  end.
Definition DecryptArtifact : Act (answer string) := λ w,
  match w_opened w with
  | [] => (Ok Interrupted, w)
  | x :: l => (Ok x, World (w_db w) (w_turn w) (w_fresh w) (w_now w) (w_access w) l (w_nodes w) (w_answers w) (w_sent w))
  end.

(** The node the observation reads. *)
Definition next_node : Act (option node_script) := λ w,
  match w_nodes w with
  | [] => (Ok None, w)
  | x :: l => (Ok (Some x), World (w_db w) (w_turn w) (w_fresh w) (w_now w) (w_access w) (w_opened w) l (w_answers w) (w_sent w))
  end.

Definition noticeTransport : string := "no answer from the node; the request may or may not have been received".
(** [talos.TransportFailure] *)
Definition TransportFailure : response := Response CTransport 14 noticeTransport.

(** [send]: one request; with no answer it is the transport outcome. *)
Definition send (q : request) : Act response := λ w,
  let '(r, l) := match w_answers w with [] => (TransportFailure, []) | x :: l => (x, l) end in
  (Ok r, World (w_db w) (w_turn w) (w_fresh w) (w_now w) (w_access w) (w_opened w) (w_nodes w) l (w_sent w ++ [q])).
End World.
