(* ===== verification/Evidence.v ===== *)
(** * The comparisons' evidence: what the commitment, the attempt and the settle read.

    The queries and pure decisions that [internal/api/commit.go], [attempt.go] and [dispatch.go]
    share: an observation's match with the plan's bindings, a newer contradicting observation, the
    use-time check's cause, a committed plan's final cause, the scope gate and the open drift
    record.  Each answers a cause, [""] when it passes, as the code does. *)

From S2P Require Import Prelude Store.

(** ** An observation against the bindings *)

(** [identityMatch]: the identity under the machine's identity key and the cluster's Talos ID. *)
Definition identityMatch (m : machine) (talos : string) (o : observation) : bool :=
  match m_smbios m with
  | Some u => bool_decide (o_smbios o = Some u)
  | None => bool_decide (o_node o = m_node m) && bool_decide (o_smbios o = None)
  end && bool_decide (o_cluster o = Some talos).

(** [substring(v FROM '^v[0-9]+\.[0-9]+')]: the longest such prefix. *)
Definition is_digit (c : Ascii.ascii) : bool :=
  let n := Ascii.nat_of_ascii c in (48 <=? n)%nat && (n <=? 57)%nat.

Fixpoint digits (s : string) : string * string :=
  match s with
  | String c r => if is_digit c then let '(a, b) := digits r in (String c a, b) else ("", s)
  | EmptyString => ("", "")
  end.

Definition minor_prefix (v : string) : option string :=
  match v with
  | String "v"%char r =>
      match digits r with
      | (String _ _ as major, String "."%char r') =>
          match digits r' with
          | (String _ _ as minor, _) => Some (String "v"%char (major +:+ String "."%char minor))
          | _ => None
          end
      | _ => None
      end
  | _ => None
  end.

(** [minorMatch]: the running minor against the release's contract. *)
Definition minorMatch (contract : string) (o : observation) : bool :=
  bool_decide ((o_running o ≫= minor_prefix) = Some contract).

(** What the bindings of a plan's machine are read from: the plan, its machine, the cluster's Talos
    ID and the release's contract; [None] when a join has no row. *)
Record bindings := Bindings { b_plan : plan; b_machine : machine; b_talos : string; b_contract : string }.

Definition bindings_of (machine plan : string) (d : Db) : option bindings :=
  m ← machines d !! machine; c ← clusters d !! m_cluster m;
  p ← plans d !! plan; k ← contracts d !! p_release p;
  Some (Bindings p m c k).

Definition digest_matches (b : bindings) (o : observation) : bool :=
  bool_decide (o_digest o = p_expected (b_plan b)).

(** An observation that read the identity, the configuration digest or the running minor otherwise
    than the plan binds. *)
Definition contradicts (b : bindings) (o : observation) : bool :=
  (was_read "identity" o && negb (identityMatch (b_machine b) (b_talos b) o))
  || (was_read "configuration" o && negb (digest_matches b o))
  || (was_read "runningVersion" o && negb (minorMatch (b_contract b) o)).

(** [newerContradiction]: the first observation of the machine after [basis] that contradicts. *)
Definition newerContradiction (machine plan : string) (basis : Z) (d : Db) : option string :=
  b ← bindings_of machine plan d;
  o_id <$> min_by o_basis (filter (λ o, o_machine o = machine ∧ basis < o_basis o
    ∧ contradicts b o = true) (observations d)).

(** ** The use-time check *)

(** The machine's latest event that [P] selects. *)
Definition latest_event (machine : string) (P : entry → bool) (d : Db) : option event :=
  max_by e_revision (filter (λ e, e_machine e = machine ∧ P (e_entry e) = true) (events d)).

Definition is_check (plan controller : string) (e : entry) : bool :=
  match e with
  | EvUseTimeCheck p _ c _ _ _ => bool_decide (p = plan) && bool_decide (c = controller)
  | _ => false
  end.

(** [useTimeCheckCause]: why the latest check this controller recorded for the plan does not hold. *)
Definition useTimeCheckCause (controller machine plan evidence : string) (at_ : Z) (d : Db) : string :=
  match plans d !! plan, latest_event machine (is_check plan controller) d with
  | Some p, Some (Event _ _ _ (EvUseTimeCheck _ _ _ passed access started) eat) =>
      if negb passed then "the use-time check failed"
      else if negb (bool_decide (access = (observation_row evidence d ≫= o_access)))
      then "the use-time check read another Talos access than the evidence"
      else if p_check_validity p <? at_ - Z.min eat started
      then "the use-time check is older than the plan allows"
      else ""
  | _, _ => ""
  end.

(** ** The plan and its approval *)

(** [finalPlanCause]: comparison 1's cause for a committed plan; [None] when a join has no row. *)
Definition finalPlanCause (plan current : string) (at_ : Z) (d : Db) : option string :=
  p ← plans d !! plan; s ← pstates d !! plan; aid ← ps_approval s;
  a ← approvals d !! aid; revoked ← principals d !! ap_approver a;
  Some (
    if p_expires p <=? at_ then "the plan has expired"
    else if bool_decide (plan ∈ cancellations d) then "the plan is cancelled"
    else if bool_decide (aid ∈ approval_revocations d) then "the approval is revoked"
    else if (revoked : bool) then "the approver's identity is revoked"
    else if negb (bool_decide (ap_epoch a = current)) then "the approval is of an earlier epoch"
    else "").

(** ** The scope *)

(** [scopeGate]: comparison 6's cause. *)
Definition scopeGate (frozen : bool) (open_ bound : option Z) (scope : string) (recovery : bool) : string :=
  if frozen then "the machine scope is frozen"
  else if bool_decide (is_Some open_) && negb (bool_decide (open_ = bound))
  then "a drift record is open on the machine"
  else if bool_decide (is_Some bound) && bool_decide (open_ = None)
  then "the drift record the plan binds is closed"
  else if negb (bool_decide (scope = "normal")) && negb (bool_decide (scope = "released"))
  then "the machine scope is " +:+ scope
  else if recovery && negb (bool_decide (scope = "released"))
  then "recovery mode is in effect and the scope is not released"
  else "".

(** [openDrift]: the drift record open on the machine, by its opening revision. *)
Definition openDrift (machine : string) (d : Db) : option Z :=
  d_opened <$> find (λ r, bool_decide (d_machine r = machine) && bool_decide (d_closed r = None)) (drifts d).

(** An active apply-config operation holds the machine's scope, or the cluster's rollout scope. *)
Definition holds_scope (o : operation) : Prop := op_kind_of o = KApplyConfig ∧ active (op_st o) = true.
#[export] Instance holds_scope_dec o : Decision (holds_scope o) := ltac:(unfold holds_scope; apply _).

Definition machine_held (machine : string) (d : Db) : bool :=
  bool_decide (map_Exists (λ _ o, holds_scope o ∧ op_machine o = Some machine) (ops d)).
Definition cluster_held (cluster : string) (d : Db) : bool :=
  bool_decide (map_Exists (λ _ o, holds_scope o ∧ op_cluster o = Some cluster) (ops d)).

(** ** Drift: [internal/api/drift.go], the drift record of a machine and the rules that change it. *)

(** The changes a machine's drift record makes. *)
Definition driftOpened : string := "opened".
Definition driftObserved : string := "observed".
Definition driftReturned : string := "returned".
Definition driftReverted : string := "reverted".

(** What [applyDrift] reads of the observation: its basis and digest and the machine's Applied
    digest; [None] when the configuration was not read or there is no Applied. *)
Definition drift_subject (machine obs : string) (d : Db) : option (Z * string * string) :=
  o ← observation_row obs d; s ← mstates d !! machine;
  if bool_decide (o_machine o = machine) && was_read "configuration" o
  then (dg ← o_digest o; ap ← ms_digest s; Some (o_basis o, dg, ap)) else None.

Definition is_drift_of (obs : string) (e : entry) : bool :=
  match e with EvDrift _ _ o _ _ => bool_decide (o = obs) | _ => false end.

(** Some event of the machine satisfies [P]. *)
Definition has_event (machine : string) (P : Z → entry → bool) (d : Db) : bool :=
  existsb (λ e, bool_decide (e_machine e = machine) && P (e_revision e) (e_entry e)) (events d).

(** The basis rules: an observation Applied, a later read or an operation supersedes. *)
Definition drift_excluded (machine obs : string) (basis : Z) (failing : bool) (d : Db) : bool :=
  has_event machine (λ _ e, is_drift_of obs e) d
  || (negb failing &&
      (has_event machine (λ r e, (basis <? r) && bool_decide (entry_kind e = "applied-change")) d
       || existsb (λ o, bool_decide (o_machine o = machine) && (basis <? o_basis o)
            && was_read "configuration" o && bool_decide (is_Some (o_digest o))) (observations d)
       || has_event machine (λ r e, (basis <=? r)
            && (bool_decide (entry_kind e = "commitment") || bool_decide (entry_kind e = "operation-state"))) d
       || machine_held machine d)).

(** The latest operation whose artifact has the digest and one of whose attempts a decision accounted. *)
Definition accounted_by_decision (a : string) (d : Db) : bool :=
  existsb (λ k, bool_decide (k_attempt k = a)
    && match k_basis k with ByDecision _ _ _ _ _ => true | ByResponse => false end) (accountings d).

Definition landed_late (machine digest : string) (d : Db) (id : string) (o : operation) : bool :=
  bool_decide (op_machine o = Some machine)
  && bool_decide ((p ← op_plan o ≫= λ i, plans d !! i;
                   rm_digest <$> artifacts d !! (p_release p, p_machine p)) = Some digest)
  && existsb (λ a, accounted_by_decision (at_id a) d) (attempts_of id d).

Definition late_landing (machine digest : string) (d : Db) : option string :=
  fst <$> max_by (λ io, op_seq io.2)
    (filter (λ io, landed_late machine digest d io.1 io.2 = true) (map_to_list (ops d))).

(** [UPDATE drift_record ... WHERE machine = $1 AND opened = $2] *)
Definition update_drift (machine : string) (opened : Z) (f : drift_record → drift_record) (d : Db) : Db :=
  set_drifts (map (λ r, if bool_decide (d_machine r = machine) && bool_decide (d_opened r = opened)
                        then f r else r) (drifts d)) d.

Definition drift_seen (digest obs : string) (late : option string) (r : drift_record) : drift_record :=
  DriftRecord (d_machine r) (d_opened r) (d_observation r) (d_applied r) digest obs late (d_closed r)
    (d_resolution r).
Definition drift_closed (rev : Z) (resolution : string) (r : drift_record) : drift_record :=
  DriftRecord (d_machine r) (d_opened r) (d_observation r) (d_applied r) (d_observed r) (d_last r)
    (d_late r) (Some rev) (Some resolution).

Section Drift.
Variable tick : Z → Z.

(** [driftEntry]: one drift entry; [record = 0] opens a record, named by the entry's revision. *)
Definition driftEntry (machine ep : string) (record : Z) (change : string) (resolution : option string)
    (obs : string) (late : option string) : Tx Z :=
  ra ← nextEntry tick machine;
  let record := if record =? 0 then ra.1 else record in
  insert_event machine ra.1 ep (EvDrift record change obs resolution late) ra.2;;
  mret ra.1.

(** [applyDrift]: the change made to the machine's drift record by the observation, or [""]. *)
Definition applyDrift (machine ep obs : string) (failing : bool) : Tx string :=
  subject ← gets (drift_subject machine obs);
  match subject with
  | None => mret ""
  | Some (basis, digest, applied) =>
      excluded ← gets (drift_excluded machine obs basis failing);
      if excluded : bool then mret "" else
      open_ ← gets (openDrift machine);
      let differs := negb (bool_decide (digest = applied)) in
      late ← (if differs then gets (late_landing machine digest) else mret None);
      match differs, open_ with
      | true, None =>
          rev ← driftEntry machine ep 0 driftOpened None obs late;
          modify (λ d, set_drifts (drifts d ++
            [DriftRecord machine rev obs applied digest obs late None None]) d);;
          mret driftOpened
      | true, Some o =>
          driftEntry machine ep o driftObserved None obs late;;
          modify (update_drift machine o (drift_seen digest obs late));;
          mret driftObserved
      | false, Some o =>
          if failing then mret "" else
          rev ← driftEntry machine ep o "closed" (Some driftReturned) obs None;
          modify (update_drift machine o (drift_closed rev driftReturned));;
          mret driftReturned
      | false, None => mret ""
      end
  end.
End Drift.
