(* ===== verification/Commit.v ===== *)
(** * The commitment: [internal/api/commit.go]'s T6 transaction, which turns an approved plan into
    its apply-config operation, and the record of a refused one. *)

From S2P Require Import Prelude Store World Evidence.

(** [superseded]: the installation's epoch is not this process's. *)
Definition superseded (a : api) (current : string) : bool :=
  negb (bool_decide (current = owner_epoch a)) && negb (noProcessEpoch (opts a)).

(** The plan's state as a reader sees it at [t]: an approval whose approver's identity was revoked
    before the expiry reads revoked, and a live plan past its expiry expired. *)
Definition plan_reads (p : plan) (s : plan_st) (revoked : option bool) (rev_at : option Z) (t : Z) : plan_st :=
  if bool_decide (s = Approved) && default false revoked
     && (match rev_at with None => true | Some r => r <? p_expires p end)
  then Revoked
  else if (bool_decide (s = Proposed) || bool_decide (s = Approved)) && (p_expires p <=? t)
  then Expired
  else s.

(** The names of the compared values the observation left unread, as [string_agg] joins them. *)
Definition unread_compared (o : observation) : list string :=
  filter (λ k, k ∈ o_unread o) ["configuration"; "identity"; "runningVersion"].

(** The evidence: the latest observation recorded for the plan's dispatch by this controller, and
    the time of its start entry. *)
Definition evidence_of (controller machine plan : string) (d : Db) : option (observation * Z) :=
  max_by (λ oe, o_basis oe.1) (omap (λ o,
    s ← start_of o d; e ← event_of (o_machine o) (o_basis o) d; _ ← bindings_of machine plan d;
    if bool_decide (o_machine o = machine) && bool_decide (s_purpose s = PEvidence)
       && bool_decide (s_plan s = Some plan) && bool_decide (s_controller s = controller)
    then Some (o, e_at e) else None) (observations d)).

Section Commit.
Variable others : nat → Db → Db.
Variable fresh_id : nat → string.
Variable tick : Z → Z.
Variable a : api.

(** What the commitment read under its locks. *)
Record commit_read := CommitRead {
  cr_current : string; cr_recovery : bool; cr_plan : plan; cr_contract : string;
  cr_machine : machine; cr_drift : option Z; cr_mstate : machine_state; cr_head : option string;
  cr_pstate : plan_state; cr_approval : option approval; cr_revoked : option bool;
  cr_rev_at : option Z }.

(** The reads of [commitTx], in its order, to the plan's state and the rollout lock. *)
Definition commit_locks (plan : string) : Tx commit_read :=
  current ← gets epoch; rec ← gets recovery;
  failIf (superseded a current) ENotController;;
  p ← plan_row plan;
  contract ← getsOr (λ d, contracts d !! p_release p) (ENoRows "release");
  failIf (negb (bool_decide (p_kind p = KApplyConfig))) EWrongKind;;
  m ← machine_row (p_machine p);
  drift ← gets (openDrift (p_machine p));
  ms ← mstate_row (p_machine p);
  head ← gets (λ d, heads d !! p_machine p);
  s ← pstate_row plan;
  ap ← (match ps_approval s with
        | Some i => x ← getsOr (λ d, approvals d !! i) (ENoRows "approval"); mret (Some x)
        | None => mret None end);
  revoked ← gets (λ d, ap ≫= λ x, principals d !! ap_approver x);
  rev_at ← gets (λ d, ap ≫= λ x, id_revoked d !! ap_approver x);
  mret (CommitRead current rec p contract m drift ms head s ap revoked rev_at).

(** Comparisons 0, 1 and 2. *)
Definition commit_plan_check (plan : string) (c : commit_read) (t : Z) : option err :=
  let refuse cmp cause := Some (ECommitRefused (p_machine (cr_plan c)) plan cmp cause "" false) in
  let state := ps_state (cr_pstate c) in
  let reads := plan_reads (cr_plan c) state (cr_revoked c) (cr_rev_at c) t in
  if bool_decide (is_Some (ps_operation (cr_pstate c))) || bool_decide (state = PCommitted)
  then Some EAlreadyCommitted
  else if bool_decide (reads = Expired) then refuse "1" "the plan has expired"
  else if bool_decide (reads = Revoked) && bool_decide (state = Approved)
  then refuse "1" "the approver's identity is revoked"
  else if negb (bool_decide (reads = Approved)) then refuse "1" ("the plan is " +:+ plan_text reads)
  else if negb (bool_decide (default "" (ap_epoch <$> cr_approval c) = cr_current c))
  then refuse "1" "the approval is of an earlier epoch"
  else if negb (bool_decide (cr_head c = Some (p_assignment (cr_plan c))))
  then refuse "2" "the machine's assignment revision changed"
  else if negb (bool_decide (ms_baseline (cr_mstate c) = p_baseline (cr_plan c)))
  then refuse "2" "the machine's baseline revision changed"
  else if negb (bool_decide (ms_desired (cr_mstate c) = p_desired (cr_plan c)))
  then refuse "2" "the machine's Desired release changed"
  else None.

(** The evidence's own admission: present, read, begun after the approval and not too old. *)
Definition evidence_check (c : commit_read) (ev : option (observation * Z)) (t : Z) : option err :=
  match ev with
  | None => Some (ENoEvidence "no evidence is recorded for it")
  | Some (o, started) =>
      if negb (bool_decide (unread_compared o = [])) then Some (ENoEvidence "evidence left a value unread")
      else if o_basis o <=? default 0 (ap_revision <$> cr_approval c)
      then Some (ENoEvidence "evidence began before the approval")
      else if duration_of_micros (p_max_age (cr_plan c)) <? time_sub t started
      then Some (ENoEvidence "evidence is older than the plan allows")
      else None
  end.

(** Comparison 3 on admitted evidence. *)
Definition evidence_compare (plan : string) (b : bindings) (o : observation) (newer : option string) : option err :=
  let refuse cause obs drift := Some (ECommitRefused (p_machine (b_plan b)) plan "3" cause obs drift) in
  if negb (identityMatch (b_machine b) (b_talos b) o)
  then refuse "the evidence shows another machine identity" (o_id o) false
  else if negb (digest_matches b o)
  then refuse "the evidence shows a configuration digest other than the plan's" (o_id o) true
  else if negb (minorMatch (b_contract b) o)
  then refuse "the evidence shows a running Talos minor other than the release's contract" (o_id o) false
  else match newer with
       | Some n => refuse "a newer observation contradicts the evidence" n false
       | None => None
       end.

(** Comparisons 4, 5 and 6. *)
Definition commit_scope_check (plan : string) (c : commit_read) (mheld cheld : bool) : option err :=
  let refuse cmp cause := Some (ECommitRefused (p_machine (cr_plan c)) plan cmp cause "" false) in
  let gate := scopeGate (m_frozen (cr_machine c)) (cr_drift c) (p_drift (cr_plan c))
                (m_scope (cr_machine c)) (cr_recovery c) in
  if mheld then refuse "4" "an operation holds the machine scope"
  else if cheld then refuse "5" "an operation holds the cluster's rollout scope"
  else if negb (bool_decide (gate = "")) && negb (noScopeGate (opts a)) then refuse "6" gate
  else None.

(** The next value of [operation.seq]; the identity's gaps order nothing. *)
Definition next_seq (d : Db) : Z := map_fold (λ _ o n, Z.max (op_seq o) n) 0 (ops d) + 1.

(** The writes of a commitment that passed: the operation, its entry and the plan's state. *)
Definition commit_record (plan op : string) (c : commit_read) (obs : string) (t : Z) : Tx Z :=
  let p := cr_plan c in
  dup ← gets (λ d, bool_decide (is_Some (ops d !! op)));
  failIf dup (EDuplicate "operation");;
  modify (λ d, set_ops (<[op := Operation (next_seq d) KApplyConfig Committed (cr_current c)
    (Some (owner_id a)) 1 (Some (cr_current c)) (Some plan) (Some (p_machine p)) (Some (p_cluster p))
    t None None]> (ops d)) d);;
  rev ← next_revision (p_machine p);
  insert_event (p_machine p) rev (cr_current c)
    (EvCommitment plan op (str (ps_approval (cr_pstate c))) obs (owner_id a)) t;;
  modify (λ d, set_pstates (<[plan := PlanState PCommitted (ps_approval (cr_pstate c)) (Some op)
    (ps_revision (cr_pstate c) + 1) t (ps_reason (cr_pstate c))]> (pstates d)) d);;
  mret rev.

(** [commitTx] with the operation's new id: the operation, its evidence and the entry's revision. *)
Definition commitTx (plan op : string) : Tx (string * string * Z) :=
  c ← commit_locks plan;
  t ← clock_timestamp tick;
  reject (commit_plan_check plan c t);;
  ev ← gets (evidence_of (owner_id a) (p_machine (cr_plan c)) plan);
  reject (evidence_check c ev t);;
  o ← getsOr (λ _, fst <$> ev) (ENoRows "observation");
  check ← gets (useTimeCheckCause (owner_id a) (p_machine (cr_plan c)) plan (o_id o) t);
  reject (if bool_decide (check = "") then None else Some (ENoEvidence check));;
  b ← getsOr (bindings_of (p_machine (cr_plan c)) plan) (ENoRows "bindings");
  newer ← gets (newerContradiction (p_machine (cr_plan c)) plan (o_basis o));
  reject (evidence_compare plan b o newer);;
  mheld ← gets (machine_held (p_machine (cr_plan c)));
  cheld ← gets (cluster_held (p_cluster (cr_plan c)));
  reject (commit_scope_check plan c mheld cheld);;
  rev ← commit_record plan op c (o_id o) t;
  mret (op, o_id o, rev).

(** [recordRefusalEntry]: a refused T6's entry, unless the plan got its operation since or, with
    [once], was refused before; [drift] applies the drift rules to the observation after it. *)
Definition recordRefusalEntry (machine plan comparison cause obs : string) (already : err)
    (once drift : bool) : Tx unit :=
  current ← gets epoch;
  failIf (negb (bool_decide (current = owner_epoch a))) ENotController;;
  since ← gets (λ d, match pstates d !! plan with
    | Some s => bool_decide (is_Some (ps_operation s)) || bool_decide (ps_state s = PCommitted)
    | None => false end);
  refused ← gets (has_event machine (λ _ e, match e with
    | EvRefusal _ _ q _ _ _ _ _ => bool_decide (q = plan) | _ => false end));
  failIf since already;;
  if once && refused then mret tt else
  ra ← nextEntry tick machine;
  insert_event machine ra.1 current (EvRefusal "T6" comparison plan None cause (owner_id a) None
    (if bool_decide (obs = "") then None else Some obs)) ra.2;;
  if drift then (applyDrift tick machine current obs false;; mret tt) else mret tt.

(** [commitPlan]: the transaction and, after a refusal, the refusal's own. *)
Definition commitPlan (plan : string) : Act (string * string * Z) :=
  if bool_decide (owner_id a = "") then fail ENotController else
  op ← new_id fresh_id;
  r ← attempt_of (inTx others (commitTx plan op));
  match r with
  | Ok c => mret c
  | Err (ECommitRefused m pl cmp cause obs dr as e) =>
      inTx others (recordRefusalEntry m pl cmp cause obs EAlreadyCommitted false dr);; fail e
  | Err e => fail e
  end.
End Commit.
