(* ===== verification/Attempt.v ===== *)
(** * The attempt: [internal/api/attempt.go]'s attempt transaction, the settlement of a refused one
    and the cancellation of an operation that can attempt nothing. *)

From S2P Require Import Prelude Store World Evidence Commit.

(** The operation's latest classification. *)
Definition latest_classification (op : string) (d : Db) : option classification_row :=
  max_by c_revision (classifications_of op d).

(** A safe-to-retry classification of the operation under a token. *)
Definition retry_classified (op owner : string) (gen : Z) (ep : string) (d : Db) : bool :=
  existsb (λ c, bool_decide (c_outcome c = OSafeToRetry) && bool_decide (c_owner c = owner)
    && (c_gen c =? gen) && bool_decide (c_epoch c = ep)) (classifications_of op d).

(** The observation the operation's commitment entry names. *)
Definition commitment_observation (machine op : string) (d : Db) : option string :=
  head (omap (λ e, match e_entry e with
    | EvCommitment _ o _ obs _ => if bool_decide (e_machine e = machine) && bool_decide (o = op) then Some obs else None
    | _ => None end) (events d)).

(** The first entry on the operation's timeline after revision [rev] that ends a classification's
    admission: a response, an ownership transition, a classification or an attempt. *)
Definition supersedes_retry (op : string) (e : entry) : bool :=
  bool_decide (entry_operation e = Some op)
  && bool_decide (entry_kind e ∈ ["response"; "ownership-transition"; "classification"; "attempt"]).
Definition later_entry (machine op : string) (rev : Z) (d : Db) : option string :=
  entry_kind ∘ e_entry <$> min_by e_revision (filter (λ e, e_machine e = machine ∧ rev < e_revision e
    ∧ supersedes_retry op (e_entry e) = true) (events d)).

Section Attempt.
Variable others : nat → Db → Db.
Variable fresh_id : nat → string.
Variable tick : Z → Z.
Variable a : api.

(** This process's token is the operation's. *)
Definition token_is (gen : Z) (ep : string) (o : operation) : bool :=
  bool_decide (str (op_owner o) = owner_id a) && (op_gen o =? gen) && bool_decide (str (op_owner_epoch o) = ep).

(** What the attempt read under its locks. *)
Record attempt_read := AttemptRead {
  ar_current : string; ar_recovery : bool; ar_plan_id : string; ar_plan : plan;
  ar_machine : machine; ar_drift : option Z; ar_mstate : machine_state; ar_head : option string }.

(** The reads of [recordAttemptTx], in its order, to the plan's state. *)
Definition attempt_locks (op : string) : Tx attempt_read :=
  current ← gets epoch; rec ← gets recovery;
  failIf (superseded a current) ENotController;;
  o ← op_row op;
  failIf (negb (bool_decide (op_kind_of o = KApplyConfig))) (ENoRows "operation");;
  pid ← getsOr (λ _, op_plan o) (ENoRows "plan");
  p ← plan_row pid;
  m ← machine_row (p_machine p);
  drift ← gets (openDrift (p_machine p));
  ms ← mstate_row (p_machine p);
  head ← gets (λ d, heads d !! p_machine p);
  s ← pstate_row pid;
  failIf (negb (bool_decide (str (ps_operation s) = op))) ENotCommittedTo;;
  mret (AttemptRead current rec pid p m drift ms head).

(** Comparison 7's write: to sending, from committed, or from unresolved when this token
    classified it safe to retry.  [readThenWrite] and [noEpochTerm] are its controls. *)
Definition may_send (op : string) (gen : Z) (o : operation) (d : Db) : bool :=
  if readThenWrite (opts a) then token_is gen (owner_epoch a) o && bool_decide (op_st o = Committed)
  else bool_decide (op_owner o = Some (owner_id a)) && (op_gen o =? gen)
    && (noEpochTerm (opts a) || bool_decide (op_owner_epoch o = Some (owner_epoch a)))
    && (bool_decide (op_st o = Committed)
        || (bool_decide (op_st o = Unresolved) && retry_classified op (owner_id a) gen (owner_epoch a) d)).

Definition send_write (op : string) (gen : Z) : Tx bool :=
  moved ← gets (λ d, match ops d !! op with Some o => may_send op gen o d | None => false end);
  (if moved : bool then modify (update_op op (with_state Sending)) else mret tt);;
  mret moved.

(** Comparisons 1 and 2. *)
Definition attempt_plan_check (r : attempt_read) (cause : string) : option err :=
  let p := ar_plan r in
  let refuse cmp cause := Some (EAttemptRefused (p_machine p) (ar_plan_id r) cmp cause "") in
  if negb (bool_decide (cause = "")) && negb (noPlanCheck (opts a)) then refuse "1" cause
  else if negb (bool_decide (ar_head r = Some (p_assignment p)))
  then refuse "2" "the machine's assignment revision changed"
  else if negb (bool_decide (ms_baseline (ar_mstate r) = p_baseline p))
  then refuse "2" "the machine's baseline revision changed"
  else None.

(** The observation the attempt relies on: its latest classification's, or its commitment's. *)
Definition relied_observation (machine op : string) (cls : option classification_row) (d : Db) : option string :=
  match cls ≫= c_observation with
  | Some o => Some o
  | None => commitment_observation machine op d
  end.

(** Comparison 3. *)
Definition attempt_evidence_check (r : attempt_read) (b : bindings) (o : observation) (started : Z)
    (newer : option string) (check : string) (t : Z) : option err :=
  let refuse cause obs := Some (EAttemptRefused (p_machine (ar_plan r)) (ar_plan_id r) "3" cause obs) in
  if duration_of_micros (p_max_age (ar_plan r)) <? time_sub t started
  then refuse "the evidence is older than the plan allows" (o_id o)
  else if negb (bool_decide (check = "")) then refuse check (o_id o)
  else if negb (identityMatch (b_machine b) (b_talos b) o)
  then refuse "the evidence shows another machine identity" (o_id o)
  else if negb (digest_matches b o)
  then refuse "the evidence shows a configuration digest other than the plan's" (o_id o)
  else if negb (minorMatch (b_contract b) o)
  then refuse "the evidence shows a running Talos minor other than the release's contract" (o_id o)
  else match newer with
       | Some n => refuse "a newer observation contradicts the evidence" n
       | None => None
       end.

(** Comparison 6. *)
Definition attempt_scope_check (r : attempt_read) : option err :=
  let gate := scopeGate (m_frozen (ar_machine r)) (ar_drift r) (p_drift (ar_plan r))
                (m_scope (ar_machine r)) (ar_recovery r) in
  if bool_decide (gate = "") then None
  else Some (EAttemptRefused (p_machine (ar_plan r)) (ar_plan_id r) "6" gate "").

(** Comparison 7's outcome, on the operation as it stands when the write matched no row. *)
Definition attempt_token_check (r : attempt_read) (gen : Z) (moved : bool) (o : operation) : option err :=
  let refuse cause := Some (EAttemptRefused (p_machine (ar_plan r)) (ar_plan_id r) "7" cause "") in
  if moved then None
  else if negb (token_is gen (owner_epoch a) o)
  then refuse "the operation's owner token is not this controller's"
  else refuse ("the operation is " +:+ state_text (op_st o)).

(** Comparison 8: a retry follows its classification, and nothing since. *)
Definition attempt_retry_check (r : attempt_read) (gen : Z) (cls : option classification_row)
    (later : option string) : option err :=
  let refuse cause := Some (EAttemptRefused (p_machine (ar_plan r)) (ar_plan_id r) "8" cause "") in
  match cls with
  | None => None
  | Some c =>
      if negb (bool_decide (c_outcome c = OSafeToRetry) && bool_decide (c_owner c = owner_id a)
               && (c_gen c =? gen) && bool_decide (c_epoch c = owner_epoch a))
      then refuse "the operation's latest classification is not this controller's to retry"
      else match later with
           | Some k => refuse ("a " +:+ k +:+ " entry follows the classification")
           | None => None
           end
  end.

(** Comparison 9: attempts remain. *)
Definition attempt_bound_check (r : attempt_read) (made : Z) : option err :=
  match p_max_attempts (ar_plan r) with
  | Some n => if n <=? made
      then Some (EAttemptRefused (p_machine (ar_plan r)) (ar_plan_id r) "9" "the operation has no attempts left" "")
      else None
  | None => Some (EAttemptRefused (p_machine (ar_plan r)) (ar_plan_id r) "9" "the operation has no attempts left" "")
  end.

(** The attempt's entry and record. *)
Definition attempt_record (op att : string) (gen : Z) (r : attempt_read) (obs : string)
    (cls : option classification_row) (made t : Z) : Tx attempt :=
  dup ← gets (λ d, bool_decide (is_Some (attempt_row att d)));
  failIf dup (EDuplicate "attempt");;
  let p := ar_plan r in
  rev ← next_revision (p_machine p);
  insert_event (p_machine p) rev (ar_current r)
    (EvAttempt att op (made + 1) (owner_id a) gen (p_route p) (t + p_transport p)
       (t + p_verification p) obs (c_revision <$> cls)) t;;
  let row := Attempt att op (ar_plan_id r) (p_machine p) (made + 1) (owner_id a) gen (ar_current r)
    (p_route p) obs (t + p_transport p) (t + p_verification p) t rev (c_revision <$> cls) in
  modify (λ d, set_attempts (attempts d ++ [row]) d);;
  mret row.

(** [recordAttemptTx] with the attempt's new id. *)
Definition recordAttemptTx (op att : string) (gen : Z) : Tx attempt :=
  r ← attempt_locks op;
  let machine := p_machine (ar_plan r) in
  moved ← send_write op gen;
  t ← clock_timestamp tick;
  cause ← getsOr (finalPlanCause (ar_plan_id r) (ar_current r) t) (ENoRows "approval");
  reject (attempt_plan_check r cause);;
  cls ← gets (latest_classification op);
  oid ← getsOr (relied_observation machine op cls) (ENoRows "commitment entry");
  o ← getsOr (observation_row oid) (ENoRows "observation");
  started ← getsOr (λ d, e_at <$> event_of (o_machine o) (o_basis o) d) (ENoRows "observation start");
  b ← getsOr (bindings_of (o_machine o) (ar_plan_id r)) (ENoRows "bindings");
  newer ← gets (newerContradiction machine (ar_plan_id r) (o_basis o));
  check ← gets (useTimeCheckCause (owner_id a) machine (ar_plan_id r) oid t);
  reject (attempt_evidence_check r b o started newer check t);;
  reject (attempt_scope_check r);;
  now ← op_row op;
  reject (attempt_token_check r gen moved now);;
  later ← gets (λ d, cls ≫= λ c, later_entry machine op (c_revision c) d);
  reject (attempt_retry_check r gen cls later);;
  made ← gets (λ d, Z.of_nat (length (attempts_of op d)));
  reject (attempt_bound_check r made);;
  attempt_record op att gen r oid cls made t.

(** One move of [settleAttemptRefusal] and its operation-state entry. *)
Definition settle_move (machine op current : string) (gen : Z) (from to_ : op_state)
    (comparison cause : string) : Tx unit :=
  modify (update_op op (with_state to_));;
  append_event tick machine current
    (EvOperationState op from to_ (owner_id a) gen None (Some comparison) cause);;
  mret tt.

(** Its cancellation of an unresolved operation with no attempt and a plan past use at [t]. *)
Definition settle_dead (machine plan op current : string) (gen t : Z) : Tx unit :=
  some ← gets (λ d, negb (bool_decide (attempts_of op d = [])));
  if some : bool then mret tt else
  final ← getsOr (finalPlanCause plan current t) (ENoRows "approval");
  if bool_decide (final = "") then mret tt else
  settle_move machine op current gen Unresolved Cancelled "1" final.

(** [settleAttemptRefusal]: the refusal's entry and, for an owned committed or unresolved
    operation refused by 1, 2, 3 or 6, its move to unresolved and, with no attempt and a plan that
    fails comparison 1, to cancelled. *)
Definition settleAttemptRefusal (machine plan op : string) (gen : Z) (comparison cause obs : string) : Tx unit :=
  current ← gets epoch;
  failIf (negb (bool_decide (current = owner_epoch a))) ENotController;;
  let settles := bool_decide (comparison ∈ ["1"; "2"; "3"; "6"]) in
  owned ← (if settles then
    o ← op_row op;
    mret (Some (bool_decide (op_owner o = Some (owner_id a)) && (op_gen o =? gen)
      && bool_decide (op_owner_epoch o = Some current), op_st o)) else mret None);
  ra ← append_event tick machine current (EvRefusal "T6" comparison plan (Some op) cause (owner_id a)
    (Some gen) (if bool_decide (obs = "") then None else Some obs));
  match owned with
  | Some (true, (Committed | Unresolved) as st) =>
      (if bool_decide (st = Committed)
       then settle_move machine op current gen Committed Unresolved comparison cause else mret tt);;
      settle_dead machine plan op current gen ra.2
  | _ => mret tt
  end.

(** [recordAttempt]: the transaction and, after a refusal, the refusal's settlement. *)
Definition recordAttempt (op : string) (gen : Z) : Act attempt :=
  if bool_decide (owner_id a = "") then fail ENotController else
  att ← new_id fresh_id;
  r ← attempt_of (inTx others (recordAttemptTx op att gen));
  match r with
  | Ok t => mret t
  | Err (EAttemptRefused m pl cmp cause obs as e) =>
      inTx others (settleAttemptRefusal m pl op gen cmp cause obs);; fail e
  | Err e => fail e
  end.

(** [currentEpoch]: the installation's epoch, which must be this process's. *)
Definition currentEpoch : Act string :=
  current ← query others epoch;
  if negb (bool_decide (current = owner_epoch a)) then fail ENotController else mret current.

(** [cancelUnattempted]: whether the plan was dead; the operation is then settled on it. *)
Definition cancelUnattempted (machine plan op : string) (gen : Z) : Act bool :=
  current ← currentEpoch;
  cause ← inTx others (t ← clock_timestamp tick; getsOr (finalPlanCause plan current t) (ENoRows "approval"));
  if bool_decide (cause = "") then mret false else
  inTx others (settleAttemptRefusal machine plan op gen "1" cause "");;
  mret true.
End Attempt.
