(* ===== verification/Outcome.v ===== *)
(** * After an attempt: [internal/api/outcome.go]'s lock, state move, classification, takeover and
    response transactions. *)

From stdpp Require Import sorting pretty.
From S2P Require Import Prelude Store World Evidence Commit.

(** [Response.Accounts]: only an acceptance or a code the node returned accounts for the attempt. *)
Definition Accounts (r : response) : bool :=
  match rs_class r with
  | CAccepted | CRejected | CInvalidArgument | CCode => true
  | CTransport | CUnrecognised => false
  end.

(** [operationLock]: an apply-config operation as a transaction after its attempt read it. *)
Record operationLock := OperationLock {
  l_id : string; l_machine : string; l_plan : string; l_state : op_state;
  l_owner : option string; l_owner_epoch : option string; l_gen : Z; l_current : string }.

Definition alreadyResponded : string := "the attempt's response is already recorded".

Section Outcome.
Variable others : nat → Db → Db.
Variable tick : Z → Z.
Variable a : api.

(** [lockOperationAs]; [takeover] is the takeover's. *)
Definition lockOperationAs (op : string) (takeover : bool) : Tx operationLock :=
  current ← gets epoch;
  failIf (negb (bool_decide (current = owner_epoch a)) && negb (takeover && noProcessEpoch (opts a)))
    ENotController;;
  o ← op_row op;
  failIf (negb (bool_decide (op_kind_of o = KApplyConfig))) (ENoRows "operation");;
  m ← getsOr (λ _, op_machine o) (ENoRows "machine");
  p ← getsOr (λ _, op_plan o) (ENoRows "plan");
  mret (OperationLock op m p (op_st o) (op_owner o) (op_owner_epoch o) (op_gen o) current).
Definition lockOperation (op : string) : Tx operationLock := lockOperationAs op false.

(** [owns]: this process holds the owner token at [gen]. *)
Definition owns (l : operationLock) (gen : Z) : bool :=
  bool_decide (l_owner l = Some (owner_id a)) && (l_gen l =? gen)
  && bool_decide (str (l_owner_epoch l) = l_current l).

(** [appendEntry]: one entry on the operation's machine at its next revision. *)
Definition appendEntry (l : operationLock) (e : entry) : Tx (Z * Z) :=
  append_event tick (l_machine l) (l_current l) e.

Definition relock (s : op_state) (l : operationLock) : operationLock :=
  OperationLock (l_id l) (l_machine l) (l_plan l) s (l_owner l) (l_owner_epoch l) (l_gen l) (l_current l).

(** [moveOperation]: the state, its result or error, and one operation-state entry under the
    operation's own token; it answers the lock at the new state. *)
Definition moveOperation (l : operationLock) (to_ : op_state) (cause : string)
    (result failure : option doc) : Tx operationLock :=
  modify (update_op (l_id l) (with_outcome result failure ∘ with_state to_));;
  appendEntry l (EvOperationState (l_id l) (l_state l) to_ (str (l_owner l)) (l_gen l)
    (Some (owner_id a)) None cause);;
  mret (relock to_ l).

(** [classify]: one classification entry and its record, under this process's token. *)
Definition classify (l : operationLock) (out : outcome) (obs : option string) (relied : list Z)
    (gen : Z) : Tx Z :=
  ra ← appendEntry l (EvClassification (l_id l) out obs relied (owner_id a) gen);
  modify (λ d, set_classifications (classifications d ++
    [ClassificationRow (l_id l) (l_machine l) ra.1 out obs (owner_id a) gen (l_current l) relied]) d);;
  mret ra.1.

(** [reliedEntries]: the revisions, ascending, of every response and accounting of the operation's
    attempts and of the observation's entry. *)
Definition of_operation (op att : string) (d : Db) : bool :=
  existsb (λ t, bool_decide (at_id t = att)) (attempts_of op d).
Definition reliedEntries (op : string) (obs : option Z) (d : Db) : list Z :=
  merge_sort Z.le (remove_dups (
    omap (λ r, if of_operation op (r_attempt r) d then Some (r_revision r) else None) (responses d)
    ++ omap (λ k, if of_operation op (k_attempt k) d then Some (k_revision k) else None) (accountings d)
    ++ option_list obs)).

(** [classifyObserved]: a classification on a recorded observation, whose entry is at [rev]. *)
Definition classifyObserved (l : operationLock) (out : outcome) (obs : string) (rev gen : Z) : Tx Z :=
  relied ← gets (reliedEntries (l_id l) (Some rev));
  classify l out (Some obs) relied gen.

(** [takeOverTx]: this process becomes the owner at the next generation and epoch; a committed,
    sending or verifying operation moves to unresolved.  It answers the new generation. *)
Definition takeOverTx (op : string) (gen : Z) (reason : string) : Tx Z :=
  failIf (bool_decide (owner_id a = "")) ENotController;;
  l ← lockOperationAs op true;
  failIf (negb (active (l_state l)))
    (EOutcomeRefused "takeover" ("the operation is " +:+ state_text (l_state l)));;
  failIf (negb (l_gen l =? gen))
    (EOutcomeRefused "takeover" ("the operation's owner generation is not " +:+ pretty gen));;
  modify (update_op op (with_state Unresolved ∘ with_owner (owner_id a) (gen + 1) (l_current l)));;
  appendEntry l (EvOwnership op (str (l_owner l)) (owner_id a) (gen + 1) gen (str (l_owner_epoch l))
    (l_current l) reason);;
  (if bool_decide (l_state l = Unresolved) then mret tt else
   appendEntry l (EvOperationState op (l_state l) Unresolved (owner_id a) (gen + 1) None None "takeover");;
   mret tt);;
  mret (gen + 1).

Definition takeOver (op : string) (gen : Z) (reason : string) : Act Z := inTx others (takeOverTx op gen reason).

(** The response's record: its entry, its row and, for an answer from the target, the accounting. *)
Definition response_record (l : operationLock) (t : attempt) (resp : response) : Tx bool :=
  ra ← appendEntry l (EvResponse (l_id l) (at_id t) (at_number t) (rs_class resp) (rs_code resp)
         (rs_text resp) (owner_id a) (at_gen t));
  modify (λ d, set_responses (responses d ++
    [ResponseRow (at_id t) (l_machine l) (rs_class resp) (rs_code resp) (rs_text resp) (at_owner t)
       (at_gen t) (at_epoch t) ra.2 ra.1]) d);;
  if Accounts resp then
    done ← gets (accounted_for (at_id t));
    if done : bool then mret false else
    ka ← appendEntry l (EvAccounting (l_id l) (at_id t) ByResponse);
    modify (λ d, set_accountings (accountings d ++
      [AccountingRow (at_id t) (l_machine l) ByResponse ka.2 ka.1]) d);;
    mret true
  else mret false.

(** Where the response moves the operation: [None] for nowhere. *)
Definition response_move (s : op_state) (latest all_rejected : bool) (c : class) : option (op_state * string) :=
  let sending := bool_decide (s = Sending) && latest in
  if sending && bool_decide (c = CAccepted)
  then Some (Verifying, "the node accepted the configuration")
  else if (sending || bool_decide (s = Unresolved)) && bool_decide (c = CRejected) && all_rejected
  then Some (Rejected, "the node refused every attempt as invalid, which precedes any mutation")
  else if sending then Some (Unresolved, "the response does not settle the outcome")
  else None.

Definition all_rejected (op : string) (d : Db) : bool :=
  forallb (λ t, responded_with (λ c, bool_decide (c = CRejected)) t d) (attempts_of op d).
Definition latest_number (op : string) (d : Db) : option Z :=
  at_number <$> max_by at_number (attempts_of op d).

(** [recordResponse]'s transaction: it answers the operation's state after and whether the response
    accounted for the attempt. *)
Definition recordResponseTx (att : string) (resp : response) : Tx (op_state * bool) :=
  t ← getsOr (attempt_row att) (ENoRows "attempt");
  failIf (negb (bool_decide (at_owner t = owner_id a)))
    (EOutcomeRefused "response" "the attempt was sent by another controller");;
  let op := at_operation t in
  l ← lockOperation op;
  recorded ← gets (λ d, existsb (λ r, bool_decide (r_attempt r = att)) (responses d));
  failIf recorded (EOutcomeRefused "response" alreadyResponded);;
  accounted ← response_record l t resp;
  latest ← gets (λ d, bool_decide (latest_number op d = Some (at_number t)));
  rejected ← gets (all_rejected op);
  match response_move (l_state l) latest rejected (rs_class resp) with
  | None => mret (l_state l, accounted)
  | Some (Rejected, cause) =>
      n ← gets (λ d, Z.of_nat (length (attempts_of op d)));
      relied ← gets (reliedEntries op None);
      classify l ORejected None relied (at_gen t);;
      l' ← moveOperation l Rejected cause None
        (Some [("outcome", JStr "rejected"); ("cause", JStr cause); ("attempts", JInt n)]);
      mret (l_state l', accounted)
  | Some (to_, cause) => l' ← moveOperation l to_ cause None None; mret (l_state l', accounted)
  end.

Definition recordResponse (att : string) (resp : response) : Act (op_state * bool) :=
  if bool_decide (owner_id a = "") then fail ENotController else inTx others (recordResponseTx att resp).
End Outcome.
