(* ===== verification/Settle.v ===== *)
(** * Settling an operation: [internal/api/settle.go], the accounting of an attempt by decision and
    the completion observation's decision. *)

From S2P Require Import Prelude Store World Evidence Commit Outcome.

(** ** [strings.TrimSpace(text) == ""] *)

(** The rest of a text that begins with a Unicode space, in UTF-8. *)
Definition byte_is (n : nat) (c : Ascii.ascii) : bool := Nat.eqb (Ascii.nat_of_ascii c) n.
Definition byte_in (lo hi : nat) (c : Ascii.ascii) : bool :=
  (lo <=? Ascii.nat_of_ascii c)%nat && (Ascii.nat_of_ascii c <=? hi)%nat.

Definition drop_space (s : string) : option string :=
  match s with
  | String c r =>
      if byte_in 9 13 c || byte_is 32 c then Some r else
      match r with
      | String c2 r2 =>
          if byte_is 194 c && (byte_is 133 c2 || byte_is 160 c2) then Some r2 else
          match r2 with
          | String c3 r3 =>
              if (byte_is 225 c && byte_is 154 c2 && byte_is 128 c3)
                 || (byte_is 226 c && byte_is 128 c2 && (byte_in 128 138 c3 || byte_in 168 169 c3 || byte_is 175 c3))
                 || (byte_is 226 c && byte_is 129 c2 && byte_is 159 c3)
                 || (byte_is 227 c && byte_is 128 c2 && byte_is 128 c3)
              then Some r3 else None
          | EmptyString => None
          end
      | EmptyString => None
      end
  | EmptyString => None
  end.

(** Every rune is a space; the fuel is the text's length. *)
Fixpoint blank_fuel (n : nat) (s : string) : bool :=
  match s, n with
  | EmptyString, _ => true
  | _, O => false
  | _, S n => match drop_space s with Some r => blank_fuel n r | None => false end
  end.
Definition blank (s : string) : bool := blank_fuel (String.length s) s.

(** ** The settle's reads *)

Definition read_node (o : observation) : bool :=
  was_read "identity" o || was_read "runningVersion" o || was_read "configuration" o.

(** When the observation's read began. *)
Definition began (o : observation) (d : Db) : option Z := e_at <$> event_of (o_machine o) (o_basis o) d.

(** The first successful read of the machine begun after [deadline]. *)
Definition first_read (machine : string) (deadline : Z) (d : Db) : option observation :=
  min_by o_basis (filter (λ o, o_machine o = machine ∧ read_node o = true
    ∧ default false ((λ t, deadline <? t) <$> began o d) = true) (observations d)).

Definition observation_of (machine id : string) (d : Db) : option observation :=
  o ← observation_row id d; if bool_decide (o_machine o = machine) then Some o else None.

(** The latest ownership transition of the operation on the machine's timeline. *)
Definition last_takeover (machine op : string) (d : Db) : option Z :=
  e_at <$> max_by e_at (filter (λ e, e_machine e = machine ∧
    entry_kind (e_entry e) = "ownership-transition" ∧ entry_operation (e_entry e) = Some op) (events d)).

(** ** What an observation shows of the postconditions *)

(** Each comparison with a bound value, or [None] for a value not read. *)
Record shown := Shown {
  sh_purpose : purpose; sh_operation : option string; sh_basis : Z; sh_revision : Z; sh_at : Z;
  sh_identity : option bool; sh_digest : option bool; sh_assignment : option bool;
  sh_expected : option bool; sh_minor : option bool }.

Definition if_read (name : string) (o : observation) (b : bool) : option bool :=
  if was_read name o then Some b else None.

Definition shown_by (l : operationLock) (obs : string) (d : Db) : option shown :=
  o ← observation_of (l_machine l) obs d;
  s ← start_of o d;
  b ← bindings_of (l_machine l) (l_plan l) d;
  rm ← artifacts d !! (p_release (b_plan b), p_machine (b_plan b));
  Some (Shown (s_purpose s) (s_operation s) (o_basis o) (o_revision o) (o_at o)
    (if_read "identity" o (identityMatch (b_machine b) (b_talos b) o))
    (if_read "configuration" o (bool_decide (o_digest o = Some (rm_digest rm))))
    (if_read "assignmentEvidence" o (bool_decide (o_assignment o = Some (p_assignment (b_plan b)))))
    (if_read "configuration" o (digest_matches b o))
    (if_read "runningVersion" o (minorMatch (b_contract b) o))).

Definition is_true (b : option bool) : bool := bool_decide (b = Some true).
Definition is_false (b : option bool) : bool := bool_decide (b = Some false).
Definition contradicted (s : shown) : bool :=
  is_false (sh_identity s) || is_false (sh_digest s) || is_false (sh_assignment s).
Definition established (s : shown) : bool :=
  is_true (sh_identity s) && is_true (sh_digest s) && is_true (sh_assignment s).

(** Two observations read one of the compared values otherwise. *)
Definition reads_otherwise (m : machine) (c o2 : observation) : bool :=
  (was_read "identity" c && was_read "identity" o2
    && (match m_smbios m with
        | Some _ => negb (bool_decide (o_smbios o2 = o_smbios c))
        | None => negb (bool_decide (o_node o2 = o_node c))
                  || negb (bool_decide (o_smbios o2 = None ↔ o_smbios c = None))
        end || negb (bool_decide (o_cluster o2 = o_cluster c))))
  || (was_read "configuration" c && was_read "configuration" o2
      && negb (bool_decide (o_digest o2 = o_digest c)))
  || (was_read "assignmentEvidence" c && was_read "assignmentEvidence" o2
      && negb (bool_decide (o_assignment o2 = o_assignment c))).

(** The first later observation that reads another value. *)
Definition blocking (obs : string) (d : Db) : option string :=
  c ← observation_row obs d; m ← machines d !! o_machine c;
  o_id <$> min_by o_basis (filter (λ o2, o_machine o2 = o_machine c ∧ o_basis c < o_basis o2
    ∧ reads_otherwise m c o2 = true) (observations d)).

(** The operation's attempts: their number, the unaccounted among them, the latest accounting's
    revision and the latest verification deadline. *)
Definition unaccounted (op : string) (d : Db) : list attempt :=
  filter (λ t, accounted_for (at_id t) d = false) (attempts_of op d).
Definition last_accounting (op : string) (d : Db) : option Z :=
  k_revision <$> max_by k_revision (filter (λ k,
    existsb (λ t, bool_decide (at_id t = k_attempt k)) (attempts_of op d) = true) (accountings d)).
Definition last_deadline (op : string) (d : Db) : option Z :=
  at_verification <$> max_by at_verification (attempts_of op d).

(** ** Transactions *)

Inductive verdict := VUnresolved | VPending | VSafeToRetry | VFailed | VCompleted.
#[export] Instance verdict_eq : EqDecision verdict.
Proof. solve_decision. Defined.

(** [settlement]: the state after, the outcome and why, the revision recorded and the drift change. *)
Record settlement := Settlement {
  st_state : op_state; st_outcome : verdict; st_cause : string; st_revision : Z; st_drift : string }.

Section Settle.
Variable others : nat → Db → Db.
Variable tick : Z → Z.
Variable a : api.

(** [settled]: the settle's conditions on the machine, and the facts to record. *)
Definition settled (machine : string) (deadline anchor : Z) (start end_ : string)
    (explanation : option string) : Tx (settle_facts + string) :=
  first ← gets (first_read machine deadline);
  if match first with Some o => negb (bool_decide (start = o_id o)) | None => false end
  then mret (inr "the start observation is not the first successful read of the machine after the transport deadline")
  else
  let anchor := match first with Some o => Z.max anchor (o_at o) | None => anchor end in
  let floor := settle_floor a in
  s ← getsOr (observation_of machine start) (ENoRows "start observation");
  e ← getsOr (observation_of machine end_) (ENoRows "end observation");
  es ← getsOr (start_of e) (ENoRows "end observation");
  eb ← getsOr (began e) (ENoRows "end observation");
  mret (
    if negb (bool_decide (s_purpose es = PRecovery)) then inr "the end observation is not a recovery observation"
    else match o_resource s, o_resource e with
    | Some sv, Some ev =>
        if bool_decide (start = end_) || negb (o_at s <? eb)
        then inr "the end observation did not begin after the start observation was recorded"
        else if eb <? anchor + floor
        then inr "the end observation began before the settle floor had elapsed"
        else if negb (bool_decide (sv = ev)) && blank (default "" explanation)
        then inr "the machine-configuration resource version changed during the settle and no explanation is recorded"
        else inl (SettleFacts explanation floor anchor sv ev)
    | _, _ => inr "the machine-configuration resource version was not read at both ends of the settle"
    end).

(** [accountByDecision] in the request's transaction: the accounting's revision. *)
Definition accountByDecision (att decidedBy act start end_ : string) (explanation : option string) : Tx Z :=
  let refuse cause := EOutcomeRefused "accounting" cause in
  t ← getsOr (attempt_row att) (ENoRows "attempt");
  l ← lockOperation a (at_operation t);
  already ← gets (accounted_for att);
  failIf already (refuse "the attempt is already accounted for");;
  let stopped := (at_gen t <? l_gen l) || negb (bool_decide (at_epoch t = l_current l))
                 || negb (bool_decide (at_owner t = str (l_owner l))) in
  failIf (negb stopped) (refuse "the attempt's executor is not stopped or taken over");;
  takeover ← gets (last_takeover (l_machine l) (at_operation t));
  let anchor := match takeover with Some x => Z.max (at_transport t) x | None => at_transport t end in
  s ← settled (l_machine l) (at_transport t) anchor start end_ explanation;
  match s with
  | inr cause => throw (refuse cause)
  | inl facts =>
      let b := ByDecision decidedBy act start end_ facts in
      ka ← appendEntry tick l (EvAccounting (at_operation t) att b);
      modify (λ d, set_accountings (accountings d ++ [AccountingRow att (l_machine l) b ka.2 ka.1]) d);;
      mret ka.1
  end.

(** [safeToRetry]: why the operation may not be attempted again, or [None]. *)
Definition safeToRetry (l : operationLock) (n : Z) (s : shown) : Tx (option string) :=
  if negb (is_true (sh_identity s) && is_true (sh_assignment s) && is_true (sh_expected s) && is_true (sh_minor s))
  then mret (Some "the observation does not show the bound identity, assignment and running minor at the pre-dispatch digest")
  else
  answered ← gets (λ d, existsb (λ t, responded_with
    (λ c, bool_decide (c = CAccepted) || bool_decide (c = CRejected)) t d) (attempts_of (l_id l) d));
  if answered : bool then mret (Some "an attempt was accepted or definitively rejected") else
  p ← plan_row (l_plan l);
  m ← machine_row (p_machine p);
  drift ← gets (openDrift (p_machine p));
  rec ← gets recovery;
  t ← clock_timestamp tick;
  if match p_max_attempts p with Some x => x <=? n | None => true end
  then mret (Some "the operation has no attempts left") else
  cause ← getsOr (finalPlanCause (l_plan l) (l_current l) t) (ENoRows "approval");
  if negb (bool_decide (cause = "")) then mret (Some cause) else
  let gate := scopeGate (m_frozen m) drift (p_drift p) (m_scope m) rec in
  mret (if negb (bool_decide (gate = "")) then Some gate else None).

Definition applied (release digest : string) (s : machine_state) : machine_state :=
  MachineState (ms_revision s + 1) (ms_desired s) (Some release) (Some digest) (Some "operation")
    (Some (default 0 (ms_baseline s) + 1)).

Definition drift_is_open (machine : string) (bound : option Z) (d : Db) : bool :=
  existsb (λ r, bool_decide (d_machine r = machine) && bool_decide (bound = Some (d_opened r))
    && bool_decide (d_closed r = None)) (drifts d).

(** [complete]: the classification, the state with its result, [Applied], the Applied change's
    entry, and a bound drift record closed as reverted. *)
Definition complete (l : operationLock) (obs : string) (rev gen : Z) : Tx settlement :=
  p ← plan_row (l_plan l);
  rm ← getsOr (λ d, artifacts d !! (p_release p, p_machine p)) (ENoRows "release_machine");
  ms ← mstate_row (p_machine p);
  let cause := "the observation establishes the bound postconditions" in
  classifyObserved tick a l OCompleted obs rev gen;;
  l' ← moveOperation tick a l Completed cause
    (Some [("appliedRelease", JStr (p_release p)); ("digest", JStr (rm_digest rm)); ("observation", JStr obs)]) None;
  modify (λ d, set_mstates (alter (applied (p_release p) (rm_digest rm)) (l_machine l) (mstates d)) d);;
  ra ← appendEntry tick l' (EvAppliedChange (ms_applied ms) (p_release p) (rm_digest rm) "operation" (l_plan l) (l_id l));
  open_ ← gets (drift_is_open (p_machine p) (p_drift p));
  let done := Settlement Completed VCompleted cause ra.1 in
  match p_drift p with
  | Some bound =>
      if open_ : bool then
        closed ← driftEntry tick (l_machine l) (l_current l) bound "closed" (Some driftReverted) obs None;
        modify (update_drift (l_machine l) bound (drift_closed closed driftReverted));;
        mret (done driftReverted)
      else mret (done "")
  | None => mret (done "")
  end.

Definition stay (s : op_state) (v : verdict) (cause : string) : settlement := Settlement s v cause 0 "".

(** The failure: its classification, the state with its error, and the drift it shows. *)
Definition fail_operation (l : operationLock) (obs : string) (rev gen n : Z) : Tx settlement :=
  let cause := "a completion observation contradicts the postconditions" in
  classifyObserved tick a l OFailed obs rev gen;;
  l' ← moveOperation tick a l Failed cause None
    (Some [("outcome", JStr "failed"); ("cause", JStr cause); ("observation", JStr obs); ("attempts", JInt n)]);
  drift ← applyDrift tick (l_machine l) (l_current l) obs true;
  mret (Settlement (l_state l') VFailed cause 0 drift).

(** The decision on an observation that contradicts the postconditions, or of an operation with no
    attempt: safe to retry, failed, or nothing. *)
Definition settle_contradicted (l : operationLock) (obs : string) (gen n : Z) (s : shown) : Tx settlement :=
  why ← safeToRetry l n s;
  match why with
  | None =>
      rev ← classifyObserved tick a l OSafeToRetry obs (sh_revision s) gen;
      l' ← (if bool_decide (l_state l = Verifying)
            then moveOperation tick a l Unresolved "classified safe to retry" None None else mret l);
      mret (Settlement (l_state l') VSafeToRetry "the observation shows the pre-dispatch configuration" rev "")
  | Some why =>
      if bool_decide (n = 0) || negb (bool_decide (sh_purpose s = PCompletion))
      then mret (stay (l_state l) VPending ("the observation does not fail the operation: " +:+ why))
      else fail_operation l obs (sh_revision s) gen n
  end.

(** The order an observation has against the accountings: when its read began. *)
Definition settle_order (s : shown) : Z := if recordOrder (opts a) then sh_revision s else sh_basis s.

(** The observation is not one that settles the operation: the cause. *)
Definition not_settling (op : string) (s : shown) (last : option Z) (block : option string) : option string :=
  if negb (bool_decide (sh_purpose s = PCompletion)) && negb (bool_decide (sh_purpose s = PRecovery))
  then Some "the observation is not a completion or recovery observation"
  else if bool_decide (sh_purpose s = PCompletion) && negb (bool_decide (str (sh_operation s) = op))
  then Some "the observation is not tied to this operation"
  else if match last with Some r => settle_order s <? r | None => false end
  then Some "the observation is ordered before the last accounting"
  else match block with
       | Some b => Some ("a later recorded observation reports another value: " +:+ b)
       | None => None
       end.

(** An observation that neither establishes nor contradicts: past the verification deadline a
    verifying operation is unresolved. *)
Definition settle_neither (l : operationLock) (s : shown) (deadline : option Z) : Tx settlement :=
  if bool_decide (l_state l = Verifying) && match deadline with Some t => t <? sh_at s | None => false end
  then l' ← moveOperation tick a l Unresolved "no completion observation by the verification deadline" None None;
       mret (stay (l_state l') VUnresolved
         "the postconditions are neither established nor contradicted by the verification deadline")
  else mret (stay (l_state l) VPending "the observation neither establishes nor contradicts the postconditions").

(** [settleOperation]'s transaction. *)
Definition settleOperationTx (op : string) (gen : Z) (obs : string) : Tx settlement :=
  l ← lockOperation a op;
  failIf (negb (owns a l gen)) (EOutcomeRefused "settle" "the operation's owner token is not this controller's");;
  failIf (negb (bool_decide (l_state l = Verifying)) && negb (bool_decide (l_state l = Unresolved)))
    (EOutcomeRefused "settle" ("the operation is " +:+ state_text (l_state l)));;
  n ← gets (λ d, Z.of_nat (length (attempts_of op d)));
  open_ ← gets (λ d, negb (bool_decide (unaccounted op d = [])));
  if open_ : bool then
    l' ← (if bool_decide (l_state l = Verifying)
          then moveOperation tick a l Unresolved "an attempt is not accounted for" None None else mret l);
    mret (stay (l_state l') VUnresolved "an attempt is not accounted for")
  else
  s ← getsOr (shown_by l obs) (EOutcomeRefused "settle" "no such observation of the operation's machine");
  last ← gets (last_accounting op);
  deadline ← gets (last_deadline op);
  block ← gets (blocking obs);
  match not_settling op s last block with
  | Some why => mret (stay (l_state l) VPending why)
  | None =>
      if established s && bool_decide (sh_purpose s = PCompletion) && (0 <? n)
      then complete l obs (sh_revision s) gen
      else if negb (contradicted s) && (0 <? n) then settle_neither l s deadline
      else settle_contradicted l obs gen n s
  end.

Definition settleOperation (op : string) (gen : Z) (obs : string) : Act settlement :=
  if bool_decide (owner_id a = "") then fail ENotController else inTx others (settleOperationTx op gen obs).
End Settle.
