(* ===== verification/Observe.v ===== *)
(** * Observations: [internal/api/observe.go], the start entry, the node's read and the record.

    A publication's observation, which also holds its publish operation's lease, is not modelled. *)

From S2P Require Import Prelude Store World Evidence.

(** ** The forms of a node's report *)

Definition in_range (lo hi : ascii) (c : ascii) : bool :=
  (nat_of_ascii lo <=? nat_of_ascii c)%nat && (nat_of_ascii c <=? nat_of_ascii hi)%nat.
Fixpoint all_in (P : ascii → bool) (s : string) : bool :=
  match s with String c r => P c && all_in P r | EmptyString => true end.
Definition length_in (lo hi : nat) (s : string) : bool :=
  (lo <=? String.length s)%nat && (String.length s <=? hi)%nat.
Definition graphic : ascii → bool := in_range "!" "~".
Definition alphanumeric (c : ascii) : bool := in_range "0" "9" c || in_range "A" "Z" c || in_range "a" "z" c.
Definition one_of (s : string) (c : ascii) : bool := bool_decide (c ∈ String.list_ascii_of_string s).

Definition talosNodeIDForm (s : string) : bool := length_in 1 128 s && all_in graphic s.
Definition resourceVersionFm (s : string) : bool := length_in 1 64 s && all_in graphic s.

(** 42 of the URL-safe alphabet, one whose low bits are zero, and the padding. *)
Fixpoint clusterID_from (n : nat) (s : string) : bool :=
  match n, s with
  | O, String c (String "="%char EmptyString) => one_of "AEIMQUYcgkosw048" c
  | S n, String c r => (alphanumeric c || one_of "_-" c) && clusterID_from n r
  | _, _ => false
  end.
Definition talosClusterIDForm (s : string) : bool := clusterID_from 42 s.

(** [v], three dotted numbers of one to four digits, and an optional suffix. *)
Definition number4 (s : string) : option string :=
  let '(a, r) := digits s in if length_in 1 4 a then Some r else None.
Definition skip (c : ascii) (s : string) : option string :=
  match s with String d r => if bool_decide (c = d) then Some r else None | EmptyString => None end.
Definition version_suffix (s : string) : bool :=
  match s with
  | EmptyString => true
  | String "-"%char r => length_in 1 64 r && all_in (λ c, alphanumeric c || one_of ".-" c) r
  | _ => false
  end.
Definition runningVersionForm (s : string) : bool :=
  match (a ← skip "v" s; b ← number4 a; c ← skip "." b; d ← number4 c; e ← skip "." d; number4 e) : option string with
  | Some rest => version_suffix rest
  | None => false
  end.

(** [uuidShape] on the lower case of a report; ASCII only, as no other letter's lower case is a
    hexadecimal digit or a dash. *)
Definition lower (c : ascii) : ascii := if in_range "A" "Z" c then ascii_of_nat (nat_of_ascii c + 32) else c.
Fixpoint ToLower (s : string) : string :=
  match s with String c r => String (lower c) (ToLower r) | EmptyString => EmptyString end.
Fixpoint hex_groups (n : nat) (gs : list nat) (s : string) : bool :=
  match n, gs, s with
  | O, [], EmptyString => true
  | O, g :: gs, String "-"%char r => hex_groups g gs r
  | S n, _, String c r => (in_range "0" "9" c || in_range "a" "f" c) && hex_groups n gs r
  | _, _, _ => false
  end.
Definition uuidShape (s : string) : bool := hex_groups 8 [4; 4; 4; 12]%nat s.

(** [validIdentity] *)
Definition validIdentity (got : identity) : bool :=
  (bool_decide (i_smbios got = "") || uuidShape (ToLower (i_smbios got)))
  && talosNodeIDForm (i_node got) && talosClusterIDForm (i_cluster got).

(** ** What an observation records *)

(** [observeFor]: the purpose, and the plan, the operation and the access it is taken with. *)
Record observeFor := ObserveFor {
  f_purpose : purpose; f_plan : string; f_operation : string; f_access : option access_version;
  f_paced : bool }.

(** [observed]; a cause per value not read. *)
Record observed := Observed {
  ob_id : string; ob_basis : Z; ob_revision : Z; ob_endpoint : string;
  ob_access : option access_version; ob_identity : option identity; ob_assignment : string;
  ob_running : string; ob_digest : option string; ob_resource : string;
  ob_unread : gmap string string }.

Definition with_unread (u : gmap string string) (o : observed) : observed :=
  Observed (ob_id o) (ob_basis o) (ob_revision o) (ob_endpoint o) (ob_access o) (ob_identity o)
    (ob_assignment o) (ob_running o) (ob_digest o) (ob_resource o) u.
Definition with_revision (r : Z) (o : observed) : observed :=
  Observed (ob_id o) (ob_basis o) r (ob_endpoint o) (ob_access o) (ob_identity o)
    (ob_assignment o) (ob_running o) (ob_digest o) (ob_resource o) (ob_unread o).
Definition with_access (v : access_version) (head : option string) (o : observed) : observed :=
  Observed (ob_id o) (ob_basis o) (ob_revision o) (ob_endpoint o) (Some v) (ob_identity o)
    (str head) (ob_running o) (ob_digest o) (ob_resource o)
    (if head then ob_unread o else <["assignmentEvidence" := "unassigned"]> (ob_unread o)).
Definition with_identity (i : identity) (o : observed) : observed :=
  Observed (ob_id o) (ob_basis o) (ob_revision o) (ob_endpoint o) (ob_access o) (Some i)
    (ob_assignment o) (ob_running o) (ob_digest o) (ob_resource o) (ob_unread o).
Definition with_running (v : string) (o : observed) : observed :=
  Observed (ob_id o) (ob_basis o) (ob_revision o) (ob_endpoint o) (ob_access o) (ob_identity o)
    (ob_assignment o) v (ob_digest o) (ob_resource o) (ob_unread o).
Definition with_config (d r : string) (o : observed) : observed :=
  Observed (ob_id o) (ob_basis o) (ob_revision o) (ob_endpoint o) (ob_access o) (ob_identity o)
    (ob_assignment o) (ob_running o) (Some d) r (ob_unread o).

(** [unreadAll] *)
Definition unreadAll (cause : string) (names : list string) (o : observed) : observed :=
  with_unread (foldr (λ n u, <[n := cause]> u) (ob_unread o) names) o.

(** [accessCause] *)
Definition accessCause (e : provider_error) : string :=
  match e with
  | PAbsent => "absent" | PDenied => "denied" | PProtocol => "malformed"
  | PUnavailable | POther => "provider-unavailable"
  end.

(** [nullable] *)
Definition nullable (s : string) : option string := if bool_decide (s = "") then None else Some s.

(** The row an observation records: a UUID in the database's form, the unread values' names. *)
Definition observation_of_read (machine : string) (o : observed) (rev at_ : Z) : observation :=
  Observation (ob_id o) machine (ob_basis o) rev (ob_access o)
    (ob_identity o ≫= λ i, ToLower <$> nullable (i_smbios i)) (i_node <$> ob_identity o)
    (i_cluster <$> ob_identity o) (nullable (ob_assignment o)) (nullable (ob_running o)) (ob_digest o)
    (nullable (ob_resource o)) (map_to_list (ob_unread o)).*1 at_.

(** ** The node's read *)

(** One of the three requests: the value it stores, in its recorded form, or its failure. *)
Inductive read_outcome := RRead (o : observed) | RFailed | RSilent | RInterrupted.

Definition read_with {A} (x : node_answer A) (ok : A → bool) (store : A → observed → observed) (o : observed) : read_outcome :=
  match x with
  | NodeSaid v => if ok v then RRead (store v o) else RFailed
  | NodeError => RFailed
  | NodeSilent => RSilent
  | NodeInterrupted => RInterrupted
  end.

Definition reads (n : node_script) : list (string * string * (observed → read_outcome)) :=
  [("identity", "identity-read", read_with (n_identity n) validIdentity with_identity);
   ("runningVersion", "version-read", read_with (n_version n) runningVersionForm with_running);
   ("configuration", "machine-config",
      read_with (n_config n) (λ c, resourceVersionFm c.2) (λ c, with_config c.1 c.2))].

(** The requests in turn: a failed one leaves its value unread, a silent node all that remain; [None]
    is the caller's context ended. *)
Fixpoint read_node_all (rs : list (string * string * (observed → read_outcome))) (o : observed) : option observed :=
  match rs with
  | [] => Some o
  | (name, cause, read) :: rest =>
      match read o with
      | RRead o' => read_node_all rest o'
      | RFailed => read_node_all rest (unreadAll cause [name] o)
      | RSilent => Some (unreadAll "node-unreachable" (rs.*1.*1) o)
      | RInterrupted => None
      end
  end.

Section Observe.
Variable others : nat → Db → Db.
Variable fresh_id : nat → string.
Variable tick : Z → Z.
Variable a : api.

(** A recovery read of the machine was recorded, or is in progress, within the settle floor. *)
Definition recent_read (machine : string) (after : option Z) (t : Z) (d : Db) : bool :=
  existsb (λ s, bool_decide (s_machine s = machine) && bool_decide (s_purpose s = PRecovery)
    && match event_of (s_machine s) (s_revision s) d with
       | Some e => match after with Some x => x <? e_at e | None => true end
           && (t - settle_floor a <? default (e_at e) (o_at <$> find (λ o,
                bool_decide (o_machine o = s_machine s) && (o_basis o =? s_revision s)) (observations d)))
       | None => false
       end) (starts d).

(** The endpoint an observation dials: the plan's route, or the machine's current one. *)
Definition dialled (machine : string) (f : observeFor) (m : Store.machine) : Tx string :=
  if negb (bool_decide (f_plan f = "")) && negb (dispatchRoute (opts a))
  then getsOr (λ d, p ← plans d !! f_plan f;
         if bool_decide (p_machine p = machine) then Some (p_route p) else None) (ENoRows "plan")
  else mret (m_endpoint m).

(** [startObservation]: the start entry and its row; the basis, endpoint, cluster and head. *)
Definition startObservation (machine : string) (f : observeFor) : Tx (Z * string * string * option string) :=
  current ← gets epoch;
  failIf (negb (bool_decide (current = owner_epoch a))) ENotController;;
  m ← machine_row machine;
  (if f_paced f then
     t ← clock_timestamp tick;
     recent ← gets (recent_read machine None t);
     failIf recent EReadNotDue
   else mret tt);;
  endpoint ← dialled machine f m;
  head ← gets (λ d, heads d !! machine);
  ra ← nextEntry tick machine;
  insert_event machine ra.1 current (EvObservationStarted (f_purpose f) (nullable (f_plan f))
    (nullable (f_operation f)) endpoint (owner_id a)) ra.2;;
  modify (λ d, set_starts (starts d ++ [ObsStart machine ra.1 (f_purpose f) (nullable (f_plan f))
    (nullable (f_operation f)) (owner_id a)]) d);;
  mret (ra.1, endpoint, m_cluster m, head).

(** [recordObservation]: the observation's entry and row, and the drift rules after a drift or
    restoration observation; the entry's revision. *)
Definition recordObservationTx (machine : string) (f : observeFor) (o : observed) : Tx Z :=
  current ← gets epoch;
  failIf (negb (bool_decide (current = owner_epoch a))) ENotController;;
  ra ← nextEntry tick machine;
  insert_event machine ra.1 current (EvObservation (ob_id o) (f_purpose f) (ob_basis o)) ra.2;;
  dup ← gets (λ d, bool_decide (is_Some (observation_row (ob_id o) d)));
  failIf dup (EDuplicate "observation");;
  modify (λ d, set_observations (observations d ++ [observation_of_read machine o ra.1 ra.2]) d);;
  (if bool_decide (f_purpose f = PDrift) || bool_decide (f_purpose f = PRestoration)
   then applyDrift tick machine current (ob_id o) false;; mret tt else mret tt);;
  mret ra.1.

Definition recordObservation (machine : string) (f : observeFor) (o : observed) : Act observed :=
  rev ← inTx others (recordObservationTx machine f o);
  mret (with_revision rev o).

(** [observe]: one observation of the machine. *)
Definition observe (machine : string) (f : observeFor) : Act observed :=
  if bool_decide (owner_id a = "") then fail ENotController else
  i ← new_id fresh_id;
  s ← inTx others (startObservation machine f);
  let '(basis, endpoint, cluster, head) := s in
  let o := Observed i basis 0 endpoint None None "" "" None "" {["health" := "none-bound"]} in
  acc ← match f_access f with Some v => mret (Answered v) | None => TalosAccess end;
  match acc with
  | Interrupted => fail ECancelled
  | Failed_ e => recordObservation machine f
      (unreadAll (accessCause e) ["identity"; "runningVersion"; "configuration"; "assignmentEvidence"] o)
  | Answered v =>
      let o := with_access v head o in
      n ← next_node;
      match n with
      | None => fail ECancelled
      | Some n =>
          if negb (n_dialled n)
          then recordObservation machine f (unreadAll "talosconfig" ["identity"; "runningVersion"; "configuration"] o)
          else match read_node_all (reads n) o with
               | None => fail ECancelled
               | Some o => recordObservation machine f o
               end
      end
  end.
End Observe.
