(* ===== verification/Executor.v ===== *)
(** * The executor: [internal/api/dispatch.go] and [executor.go], from an approved plan to its sent
    attempt and on to the operation's outcome, and the loop's pass over all of them. *)

From stdpp Require Import sorting pretty.
From S2P Require Import Prelude Store World Evidence Commit Attempt Outcome Settle Observe.

(** [accessKey]: a Talos access version's whole identity as one text. *)
Definition accessKey (v : access_version) : string :=
  v.1.1 +:+ "@" +:+ pretty v.1.2 +:+ "@" +:+ v.2.

(** [dispatchCandidate], [heldOperation]; a retry is its observation's access. *)
Record dispatchCandidate := DispatchCandidate { dc_plan : string; dc_machine : string; dc_cluster : string }.
Record heldOperation := HeldOperation {
  h_id : string; h_machine : string; h_cluster : string; h_plan : string; h_state : op_state;
  h_gen : Z; h_retry : option string; h_sent : bool; h_unaccounted : bool }.

(** ** The loop's reads *)

(** [ORDER BY created_at, id] *)
Definition created_before (x y : string * operation) : Prop :=
  op_created x.2 < op_created y.2 ∨ (op_created x.2 = op_created y.2 ∧ String.leb x.1 y.1 = true).
#[export] Instance created_before_dec : RelDecision created_before.
Proof. intros x y. unfold created_before. apply _. Defined.

Definition ordered_ops (P : string * operation → bool) (d : Db) : list (string * operation) :=
  merge_sort created_before (filter (λ io, P io = true) (map_to_list (ops d))).

Definition foreign (owner : string) (io : string * operation) : bool :=
  bool_decide (op_kind_of io.2 = KApplyConfig) && active (op_st io.2)
  && negb (bool_decide (op_owner io.2 = Some owner)).
Definition foreign_operations (owner : string) (d : Db) : list (string * Z) :=
  (λ io, (io.1, op_gen io.2)) <$> ordered_ops (foreign owner) d.

(** The access the retry's observation read, when the latest classification is this token's to retry. *)
Definition retry_access (id : string) (o : operation) (p : plan) (t : Z) (d : Db) : option string :=
  c ← latest_classification id d;
  oid ← c_observation c;
  ob ← observation_row oid d;
  se ← event_of (o_machine ob) (o_basis ob) d;
  acc ← o_access ob;
  if bool_decide (c_outcome c = OSafeToRetry) && bool_decide (op_owner o = Some (c_owner c))
     && (c_gen c =? op_gen o) && bool_decide (op_owner_epoch o = Some (c_epoch c))
     && (t - e_at se <=? p_max_age p)
     && bool_decide (later_entry (str (op_machine o)) id (c_revision c) d = None)
  then Some (accessKey acc) else None.

Definition held (owner current : string) (io : string * operation) : bool :=
  bool_decide (op_kind_of io.2 = KApplyConfig)
  && bool_decide (op_st io.2 ∈ [Committed; Verifying; Unresolved])
  && bool_decide (op_owner io.2 = Some owner) && bool_decide (op_owner_epoch io.2 = Some current).
Definition held_row (t : Z) (d : Db) (io : string * operation) : option heldOperation :=
  pid ← op_plan io.2; p ← plans d !! pid;
  Some (HeldOperation io.1 (str (op_machine io.2)) (str (op_cluster io.2)) pid (op_st io.2) (op_gen io.2)
    (retry_access io.1 io.2 p t d) (negb (bool_decide (attempts_of io.1 d = [])))
    (negb (bool_decide (unaccounted io.1 d = [])))).
Definition held_operations (owner current : string) (t : Z) (d : Db) : list heldOperation :=
  omap (held_row t d) (ordered_ops (held owner current) d).

(** An approved plan the loop may commit now. *)
Definition dispatchable (current : string) (t : Z) (d : Db) (id : string) (p : plan) : bool :=
  match pstates d !! id with
  | Some s =>
      match (aid ← ps_approval s; ap ← approvals d !! aid; r ← principals d !! ap_approver ap;
             m ← machines d !! p_machine p; Some (aid, ap, r, m)) with
      | Some (aid, ap, revoked, m) =>
          bool_decide (p_kind p = KApplyConfig) && bool_decide (ps_state s = Approved) && (t <? p_expires p)
          && negb revoked && bool_decide (ap_epoch ap = epoch d) && bool_decide (epoch d = current)
          && negb (bool_decide (aid ∈ approval_revocations d))
          && (bool_decide (m_scope m = "normal") || bool_decide (m_scope m = "released"))
          && negb (m_frozen m) && negb (recovery d && negb (bool_decide (m_scope m = "released")))
          && negb (machine_held (p_machine p) d || cluster_held (p_cluster p) d)
      | None => false
      end
  | None => false
  end.
Definition id_before (x y : dispatchCandidate) : Prop := String.leb (dc_plan x) (dc_plan y) = true.
#[export] Instance id_before_dec : RelDecision id_before.
Proof. intros x y. unfold id_before. apply _. Defined.
Definition dispatch_candidates (current only : string) (t : Z) (d : Db) : list dispatchCandidate :=
  merge_sort id_before (omap (λ ip,
    if dispatchable current t d ip.1 ip.2 && (bool_decide (only = "") || bool_decide (ip.1 = only))
    then Some (DispatchCandidate ip.1 (p_machine ip.2) (p_cluster ip.2)) else None) (map_to_list (plans d))).

(** The operation's attempts' latest transport deadline has passed, and no recovery read of the
    machine since it is within the settle floor. *)
Definition recovery_due (a : api) (op : string) (t : Z) (d : Db) : bool :=
  match max_by at_transport (attempts_of op d) with
  | Some x => (at_transport x <? t) && negb (recent_read a (at_machine x) (Some (at_transport x)) t d)
  | None => false
  end.

Section Executor.
Variable others : nat → Db → Db.
Variable fresh_id : nat → string.
Variable tick : Z → Z.
Variable ptick : Z → Z.
Variable a : api.
(** The executor's artifact key and the process's lease. *)
Variable artifact_key : string.
Variable lease : Z.

Definition dbClock : Act Z := inTx others (clock_timestamp tick).

Definition foreignOperations : Act (list (string * Z)) :=
  currentEpoch others a;; query others (foreign_operations (owner_id a)).
Definition heldOperations : Act (list heldOperation) :=
  current ← currentEpoch others a;
  inTx others (t ← clock_timestamp tick; gets (held_operations (owner_id a) current t)).
Definition dispatchCandidates (plan : string) : Act (list dispatchCandidate) :=
  current ← currentEpoch others a;
  inTx others (t ← clock_timestamp tick; gets (dispatch_candidates current plan t)).
Definition recoveryReadDue (op : string) : Act bool :=
  inTx others (t ← clock_timestamp tick; gets (recovery_due a op t)).

(** ** The use-time check *)

(** What a passed check holds: the access read once and the artifact opened. *)
Record useTime := UseTime { u_access : access_version; u_artifact : string }.

(** [boundArtifact] *)
Definition bound_artifact (plan : string) (d : Db) : option artifact_row :=
  p ← plans d !! plan; artifacts d !! (p_release p, p_machine p).

(** [checkDependencies]: the access and the artifact read, each [None] when its dependency failed. *)
Definition checkDependencies (art : artifact_row) (have : option access_version)
    : Act (option access_version * option string) :=
  acc ← match have with Some v => mret (Answered v) | None => TalosAccess end;
  match acc with
  | Interrupted => fail ECancelled
  | Answered _ | Failed_ _ =>
      let v := match acc with Answered v => Some v | _ => None end in
      if negb (bool_decide (rm_key art = artifact_key)) then mret (v, None) else
      plain ← DecryptArtifact;
      match plain with
      | Interrupted => fail ECancelled
      | Answered b => mret (v, Some b)
      | Failed_ _ => mret (v, None)
      end
  end.

(** [recordUseTimeCheck] *)
Definition recordUseTimeCheck (machine : string) (e : entry) : Tx unit :=
  current ← gets epoch;
  failIf (negb (bool_decide (current = owner_epoch a))) ENotController;;
  append_event tick machine current e;;
  mret tt.

(** [useTimeCheck]: the check recorded, and what it holds when it passed. *)
Definition useTimeCheck (machine plan op : string) (have : option access_version)
    (started : option Z) : Act useTime :=
  started ← match started with Some t => mret t | None => dbClock end;
  art ← query others (bound_artifact plan);
  match art with
  | None => fail (ENoRows "release_machine")
  | Some art =>
      deps ← checkDependencies art have;
      let passed := bool_decide (is_Some deps.1) && bool_decide (is_Some deps.2) in
      inTx others (recordUseTimeCheck machine
        (EvUseTimeCheck plan (nullable op) (owner_id a) passed deps.1 started));;
      match deps with
      | (Some v, Some b) => mret (UseTime v b)
      | _ => fail EUseTime
      end
  end.

(** ** Sending *)

(** [verify]: an observation of the operation, and its settle. *)
Definition verify (op : string) (gen : Z) (machine plan : string) (p : purpose) : Act unit :=
  o ← observe others fresh_id tick a machine (ObserveFor p plan op None false);
  settleOperation others tick a op gen (ob_id o);;
  mret tt.

(** [respond]: the response recorded, and an accepted one's completion observation.  The retries of
    a record whose database connection was lost are not modelled. *)
Definition respond (att op : string) (gen : Z) (machine plan : string) (resp : response) : Act unit :=
  r ← recordResponse others tick a att resp;
  if negb (bool_decide (r.1 = Verifying)) then mret tt else verify op gen machine plan PCompletion.

(** [attemptAndSend]: the attempt recorded, then its one request, then its response. *)
Definition attemptAndSend (op : string) (gen : Z) (machine plan : string) (u : useTime) : Act unit :=
  t ← recordAttempt others fresh_id tick a op gen;
  resp ← send (Request (at_id t) (at_route t) (u_access u) (u_artifact u) (at_transport t));
  respond (at_id t) op gen machine plan resp.

(** [dispatchPlan]: an approved plan to its sent attempt. *)
Definition dispatchPlan (c : dispatchCandidate) : Act unit :=
  now_ ← dispatchCandidates (dc_plan c);
  if bool_decide (now_ = []) then mret tt else
  u ← useTimeCheck (dc_machine c) (dc_plan c) "" None None;
  observe others fresh_id tick a (dc_machine c) (ObserveFor PEvidence (dc_plan c) "" (Some (u_access u)) false);;
  cm ← commitPlan others fresh_id tick a (dc_plan c);
  attemptAndSend cm.1.1 1 (dc_machine c) (dc_plan c) u.

(** [advance]'s unresolved operation with an unaccounted attempt: a paced recovery observation. *)
Definition advance_unaccounted (h : heldOperation) : Act unit :=
  due ← recoveryReadDue (h_id h);
  if negb due then mret tt else
  r ← attempt_of (observe others fresh_id tick a (h_machine h)
        (ObserveFor PRecovery (h_plan h) (h_id h) None true));
  match r with
  | Ok _ => mret tt
  | Err EReadNotDue => mret tt
  | Err e => fail e
  end.

(** [advance]'s retry of an operation classified safe to retry on [access]. *)
Definition advance_retry (h : heldOperation) (have : option access_version) (began : Z) (access : string) : Act unit :=
  u ← useTimeCheck (h_machine h) (h_plan h) (h_id h) have (Some began);
  if negb (bool_decide (accessKey (u_access u) = access)) then fail EAccessMoved else
  attemptAndSend (h_id h) (h_gen h) (h_machine h) (h_plan h) u.

(** [advance]'s unresolved operation observed again, and attempted when classified safe to retry. *)
Definition advance_observe (h : heldOperation) (have : option access_version) (began : Z) : Act unit :=
  let p := if h_sent h then PCompletion else PRecovery in
  o ← observe others fresh_id tick a (h_machine h) (ObserveFor p (h_plan h) (h_id h) have false);
  s ← settleOperation others tick a (h_id h) (h_gen h) (ob_id o);
  if negb (bool_decide (st_outcome s = VSafeToRetry)) then mret tt else
  match have with
  | None => mret tt
  | Some _ =>
      u ← useTimeCheck (h_machine h) (h_plan h) (h_id h) have (Some began);
      attemptAndSend (h_id h) (h_gen h) (h_machine h) (h_plan h) u
  end.

Definition advance_unresolved (h : heldOperation) : Act unit :=
  if h_unaccounted h then advance_unaccounted h else
  began ← dbClock;
  acc ← TalosAccess;
  let have := match acc with Answered v => Some v | _ => None end in
  match h_retry h with
  | Some access =>
      if match have with None => true | Some v => bool_decide (accessKey v = access) end
      then advance_retry h have began access else advance_observe h have began
  | None => advance_observe h have began
  end.

(** [advance]: one operation this process owns, a step on. *)
Definition advance (h : heldOperation) : Act unit :=
  done ← (if negb (h_sent h) && negb (bool_decide (h_state h = Verifying))
          then cancelUnattempted others tick a (h_machine h) (h_plan h) (h_id h) (h_gen h) else mret false);
  if done : bool then mret tt else
  match h_state h with
  | Committed =>
      u ← useTimeCheck (h_machine h) (h_plan h) (h_id h) None None;
      attemptAndSend (h_id h) (h_gen h) (h_machine h) (h_plan h) u
  | Verifying => verify (h_id h) (h_gen h) (h_machine h) (h_plan h) PCompletion
  | _ => advance_unresolved h
  end.

(** ** The pass *)

(** [executorState]: the controller-start takeover still owed, the operations read for it, the retry
    times of what failed short of a refusal, and the plans a refusal ended. *)
Record executorState := ExecutorState {
  x_takeover : bool; x_owed : list (string * Z); x_retry : gmap string Z; x_ended : gset string }.

Definition with_retry (r : gmap string Z) (st : executorState) : executorState :=
  ExecutorState (x_takeover st) (x_owed st) r (x_ended st).

(** [executorPass]'s [step]: what the loop keeps of a failure, and whether it goes on. *)
Definition pass_step {A} (key : string) (r : result err A) (st : executorState) : Act (bool * executorState) :=
  match r with
  | Ok _ => mret (true, st)
  | Err ECancelled | Err ENotController => mret (false, st)
  | Err EAlreadyCommitted => mret (true, st)
  | Err (ECommitRefused _ _ cmp _ _ _) =>
      if bool_decide (cmp ∈ ["1"; "2"; "3"])
      then mret (true, ExecutorState (x_takeover st) (x_owed st) (x_retry st) ({[key]} ∪ x_ended st))
      else t ← now ptick; mret (true, with_retry (<[key := t + lease]> (x_retry st)) st)
  | Err _ => t ← now ptick; mret (true, with_retry (<[key := t + lease]> (x_retry st)) st)
  end.

(** [time.Now().Before(st.retry[key])]; a missing time is the zero time, long past. *)
Definition waits (key : string) (st : executorState) : Act bool :=
  t ← now ptick; mret (match x_retry st !! key with Some at_ => t <? at_ | None => false end).
Definition retried (key : string) (st : executorState) : executorState :=
  with_retry (delete key (x_retry st)) st.

(** The loops of a pass: each item not waiting is worked on; [false] ends the pass. *)
Fixpoint pass_owed (owed kept : list (string * Z)) (st : executorState) : Act (bool * executorState) :=
  match owed with
  | [] => mret (true, ExecutorState (x_takeover st) kept (x_retry st) (x_ended st))
  | (op, gen) :: rest =>
      w ← waits op st;
      if w : bool then pass_owed rest (kept ++ [(op, gen)]) st else
      r ← attempt_of (takeOver others tick a op gen "controller-start");
      let st := retried op st in
      match r with
      | Err (EOutcomeRefused _ _) => pass_owed rest kept st
      | _ =>
          go ← pass_step op r st;
          if go.1 : bool
          then pass_owed rest (match r with Ok _ => kept | Err _ => kept ++ [(op, gen)] end) go.2
          else mret go
      end
  end.

Fixpoint pass_held (hs : list heldOperation) (st : executorState) : Act (bool * executorState) :=
  match hs with
  | [] => mret (true, st)
  | h :: rest =>
      w ← waits (h_id h) st;
      if w : bool then pass_held rest st else
      r ← attempt_of (advance h);
      go ← pass_step (h_id h) r (retried (h_id h) st);
      if go.1 : bool then pass_held rest go.2 else mret go
  end.

Fixpoint pass_candidates (cs : list dispatchCandidate) (st : executorState) : Act (bool * executorState) :=
  match cs with
  | [] => mret (true, st)
  | c :: rest =>
      if bool_decide (dc_plan c ∈ x_ended st) then pass_candidates rest st else
      w ← waits (dc_plan c) st;
      if w : bool then pass_candidates rest st else
      r ← attempt_of (dispatchPlan c);
      go ← pass_step (dc_plan c) r (retried (dc_plan c) st);
      if go.1 : bool then pass_candidates rest go.2 else mret go
  end.

(** The retry times that have come are dropped. *)
Definition prune (st : executorState) : Act executorState :=
  t ← now ptick;
  mret (with_retry (filter (λ kt, t < kt.2) (x_retry st)) st).

(** [executorPass] *)
Definition pass_work (st : executorState) : Act (bool * executorState) :=
  go ← pass_owed (x_owed st) [] st;
  if negb go.1 then mret go else
  hs ← attempt_of heldOperations;
  match hs with
  | Err e => pass_step (A:=unit) "operations" (Err e) go.2
  | Ok hs =>
      go ← pass_held hs go.2;
      if negb go.1 then mret go else
      cs ← attempt_of (dispatchCandidates "");
      match cs with
      | Err e => pass_step (A:=unit) "candidates" (Err e) go.2
      | Ok cs =>
          go ← pass_candidates cs go.2;
          if negb go.1 then mret go else
          st ← prune go.2; mret (true, st)
      end
  end.

Definition executorPass (st : executorState) : Act (bool * executorState) :=
  if x_takeover st then
    fs ← attempt_of foreignOperations;
    match fs with
    | Err e => pass_step (A:=unit) "takeover" (Err e) st
    | Ok fs => pass_work (ExecutorState false fs (x_retry st) (x_ended st))
    end
  else pass_work st.

(** [executorLoop]: a pass at its start and after each wake, [wakes] of them, until one ends it. *)
Definition executor_start : executorState := ExecutorState true [] ∅ ∅.
Fixpoint passes (n : nat) (st : executorState) : Act executorState :=
  go ← executorPass st;
  match n with
  | O => mret go.2
  | S n => if go.1 : bool then passes n go.2 else mret go.2
  end.
Definition executorLoop (wakes : nat) : Act executorState := passes wakes executor_start.
End Executor.
