(* ===== verification/CommitSpec.v ===== *)
(** * What an attempt's record rests on: [recordAttemptTx] succeeds exactly when every comparison
    holds of the store it starts from, and then changes the operation, its attempts and its
    machine's timeline and nothing else. *)

From S2P Require Import Prelude Store Evidence Commit Attempt.

Section AttemptSpec.
Variable tick : Z → Z.
Variable a : api.

(** What [attempt_locks] reads, when it reads everything. *)
Definition attempt_reads (op : string) (d : Db) (o : operation) (r : attempt_read) : Prop :=
  superseded a (epoch d) = false ∧ ar_current r = epoch d ∧ ar_recovery r = recovery d ∧
  ops d !! op = Some o ∧ op_kind_of o = KApplyConfig ∧ op_plan o = Some (ar_plan_id r) ∧
  plans d !! ar_plan_id r = Some (ar_plan r) ∧
  machines d !! p_machine (ar_plan r) = Some (ar_machine r) ∧
  mstates d !! p_machine (ar_plan r) = Some (ar_mstate r) ∧
  ar_drift r = openDrift (p_machine (ar_plan r)) d ∧ ar_head r = heads d !! p_machine (ar_plan r) ∧
  ∃ s, pstates d !! ar_plan_id r = Some s ∧ str (ps_operation s) = op.

Lemma attempt_locks_ok op d r d' :
  attempt_locks a op d = Ok (r, d') ↔ d' = d ∧ ∃ o, attempt_reads op d o r.
Proof.
  unfold attempt_locks, attempt_reads, op_row, plan_row, machine_row, mstate_row, pstate_row. split.
  - intros H. m_inv. split; [done|]. eexists. simpl. split_and!; eauto.
  - intros [-> (o & H)]. destruct r; simpl in *. split_hyps; subst. m_run.
Qed.

Definition sent (op : string) (d : Db) : Db := update_op op (with_state Sending) d.

Lemma send_write_ok op gen d b d' o :
  ops d !! op = Some o →
  send_write a op gen d = Ok (b, d') ↔ b = may_send a op gen o d ∧ d' = (if b then sent op d else d).
Proof.
  intros Ho. unfold send_write. split.
  - intros H. m_inv. rewrite Ho in *. destruct (may_send _ _ _ _ _); m_inv; eauto.
  - intros [-> ->]. apply bind_ok. eexists _, _. rewrite gets_ok, Ho. split; [done|].
    destruct (may_send a op gen o d); m_run.
Qed.

(** ** The comparisons *)

(** What a recorded attempt relied on: the reads, its observation and when that began, the bindings
    and the classification it retries on. *)
Record relied_on := ReliedOn {
  ro_reads : attempt_read; ro_cls : option classification_row; ro_id : string;
  ro_obs : observation; ro_started : Z; ro_bindings : bindings }.

(** Every comparison of the attempt holds of the store [d] at the time [t]. *)
Record attempt_admitted (op att : string) (gen t : Z) (d : Db) (o : operation) (x : relied_on) : Prop := {
  adm_reads : attempt_reads op d o (ro_reads x);
  adm_plan : finalPlanCause (ar_plan_id (ro_reads x)) (epoch d) t d = Some "";
  adm_head : heads d !! p_machine (ar_plan (ro_reads x)) = Some (p_assignment (ar_plan (ro_reads x)));
  adm_baseline : ms_baseline (ar_mstate (ro_reads x)) = p_baseline (ar_plan (ro_reads x));
  adm_cls : ro_cls x = latest_classification op d;
  adm_relied : relied_observation (p_machine (ar_plan (ro_reads x))) op (ro_cls x) d = Some (ro_id x);
  adm_obs : observation_row (ro_id x) d = Some (ro_obs x);
  adm_started : e_at <$> event_of (o_machine (ro_obs x)) (o_basis (ro_obs x)) d = Some (ro_started x);
  adm_bindings : bindings_of (o_machine (ro_obs x)) (ar_plan_id (ro_reads x)) d = Some (ro_bindings x);
  adm_age : time_sub t (ro_started x) ≤ duration_of_micros (p_max_age (ar_plan (ro_reads x)));
  adm_check : useTimeCheckCause (owner_id a) (p_machine (ar_plan (ro_reads x)))
                (ar_plan_id (ro_reads x)) (ro_id x) t d = "";
  adm_identity : identityMatch (b_machine (ro_bindings x)) (b_talos (ro_bindings x)) (ro_obs x) = true;
  adm_digest : o_digest (ro_obs x) = p_expected (b_plan (ro_bindings x));
  adm_minor : minorMatch (b_contract (ro_bindings x)) (ro_obs x) = true;
  adm_newer : newerContradiction (p_machine (ar_plan (ro_reads x))) (ar_plan_id (ro_reads x))
                (o_basis (ro_obs x)) d = None;
  adm_scope : scopeGate (m_frozen (ar_machine (ro_reads x))) (ar_drift (ro_reads x))
                (p_drift (ar_plan (ro_reads x))) (m_scope (ar_machine (ro_reads x))) (recovery d) = "";
  adm_owner : op_owner o = Some (owner_id a) ∧ op_gen o = gen ∧ op_owner_epoch o = Some (owner_epoch a);
  adm_state : op_st o = Committed
              ∨ op_st o = Unresolved ∧ retry_classified op (owner_id a) gen (owner_epoch a) d = true;
  adm_retry : ∀ c, ro_cls x = Some c → c_outcome c = OSafeToRetry ∧ c_owner c = owner_id a
                ∧ c_gen c = gen ∧ c_epoch c = owner_epoch a
                ∧ later_entry (p_machine (ar_plan (ro_reads x))) op (c_revision c) d = None;
  adm_bound : ∃ n, p_max_attempts (ar_plan (ro_reads x)) = Some n
                   ∧ Z.of_nat (length (attempts_of op d)) < n;
  adm_fresh : attempt_row att d = None }.

(** The attempt such a record makes, and the store it leaves. *)
Definition attempt_made (op att : string) (gen t : Z) (d : Db) (x : relied_on) : attempt :=
  let p := ar_plan (ro_reads x) in
  Attempt att op (ar_plan_id (ro_reads x)) (p_machine p) (Z.of_nat (length (attempts_of op d)) + 1)
    (owner_id a) gen (epoch d) (p_route p) (ro_id x) (t + p_transport p) (t + p_verification p) t
    (m_counter (ar_machine (ro_reads x)) + 1) (c_revision <$> ro_cls x).

Definition after_attempt (op att : string) (gen t : Z) (d : Db) (x : relied_on) : Db :=
  let p := ar_plan (ro_reads x) in let row := attempt_made op att gen t d x in
  set_attempts (attempts d ++ [row])
    (set_events (events d ++ [Event (p_machine p) (at_revision row) (epoch d)
        (EvAttempt att op (at_number row) (owner_id a) gen (p_route p) (at_transport row)
           (at_verification row) (ro_id x) (at_classification row)) t])
      (set_machines (<[p_machine p := counted (ar_machine (ro_reads x))]> (machines d))
        (set_clock t (sent op d)))).

Lemma may_send_ok op gen o d :
  opts a = production →
  may_send a op gen o d = true ↔
  (op_owner o = Some (owner_id a) ∧ op_gen o = gen ∧ op_owner_epoch o = Some (owner_epoch a))
  ∧ (op_st o = Committed ∨ op_st o = Unresolved ∧ retry_classified op (owner_id a) gen (owner_epoch a) d = true).
Proof.
  unfold may_send. intros ->. simpl.
  rewrite !andb_true_iff, orb_true_iff, andb_true_iff, !bool_decide_eq_true, Z.eqb_eq. tauto.
Qed.

Lemma attempt_retry_check_ok r gen cls later :
  attempt_retry_check a r gen cls later = None ↔
  ∀ c, cls = Some c → (c_outcome c = OSafeToRetry ∧ c_owner c = owner_id a
                ∧ c_gen c = gen ∧ c_epoch c = owner_epoch a) ∧ later = None.
Proof.
  unfold attempt_retry_check. destruct cls as [c|]; [|naive_solver].
  destruct (negb _) eqn:Hb.
  - split; [done|]. intros H. destruct (H c eq_refl) as [(?&?&?&?) _]. apply negb_true_iff in Hb.
    rewrite !bool_decide_true in Hb by done. simpl in Hb. by rewrite andb_true_r, Z.eqb_neq in Hb.
  - apply negb_false_iff in Hb. rewrite !andb_true_iff, !bool_decide_eq_true, Z.eqb_eq in Hb.
    destruct later; naive_solver.
Qed.

Lemma attempt_plan_check_ok r cause :
  opts a = production →
  attempt_plan_check a r cause = None ↔
  cause = "" ∧ ar_head r = Some (p_assignment (ar_plan r))
  ∧ ms_baseline (ar_mstate r) = p_baseline (ar_plan r).
Proof.
  unfold attempt_plan_check. intros ->. simpl. rewrite andb_true_r.
  repeat case_bool_decide; simpl; naive_solver.
Qed.

Lemma attempt_evidence_check_ok r b o started newer check t :
  attempt_evidence_check r b o started newer check t = None ↔
  time_sub t started ≤ duration_of_micros (p_max_age (ar_plan r)) ∧ check = ""
  ∧ identityMatch (b_machine b) (b_talos b) o = true ∧ o_digest o = p_expected (b_plan b)
  ∧ minorMatch (b_contract b) o = true ∧ newer = None.
Proof.
  unfold attempt_evidence_check, digest_matches.
  destruct (Z.ltb_spec (duration_of_micros (p_max_age (ar_plan r))) (time_sub t started)) as [Hlt|Hle];
    [split; [done|lia]|].
  repeat case_bool_decide; destruct (identityMatch _ _ _), (minorMatch _ _), newer; simpl; naive_solver lia.
Qed.

Lemma attempt_bound_check_ok r made :
  attempt_bound_check r made = None ↔ ∃ n, p_max_attempts (ar_plan r) = Some n ∧ made < n.
Proof.
  unfold attempt_bound_check. destruct (p_max_attempts (ar_plan r)) as [n|]; [|naive_solver].
  destruct (Z.leb_spec n made); split; try done; [intros (? & [= <-] & ?); lia|eauto].
Qed.

Lemma attempt_scope_check_ok r :
  attempt_scope_check r = None ↔
  scopeGate (m_frozen (ar_machine r)) (ar_drift r) (p_drift (ar_plan r)) (m_scope (ar_machine r)) (ar_recovery r) = "".
Proof. unfold attempt_scope_check. by case_bool_decide. Qed.

Lemma attempt_token_check_ok r gen moved o : attempt_token_check a r gen moved o = None ↔ moved = true.
Proof. unfold attempt_token_check. by destruct moved, (token_is a gen (owner_epoch a) o). Qed.

Lemma attempt_record_ok op att gen r obs cls made t d row d' :
  attempt_record a op att gen r obs cls made t d = Ok (row, d') ↔
  attempt_row att d = None ∧ ∃ m, machines d !! p_machine (ar_plan r) = Some m ∧
  let p := ar_plan r in
  row = Attempt att op (ar_plan_id r) (p_machine p) (made + 1) (owner_id a) gen (ar_current r)
    (p_route p) obs (t + p_transport p) (t + p_verification p) t (m_counter m + 1) (c_revision <$> cls) ∧
  d' = set_attempts (attempts d ++ [row])
    (set_events (events d ++ [Event (p_machine p) (m_counter m + 1) (ar_current r)
        (EvAttempt att op (made + 1) (owner_id a) gen (p_route p) (t + p_transport p)
           (t + p_verification p) obs (c_revision <$> cls)) t])
      (set_machines (<[p_machine p := counted m]> (machines d)) d)).
Proof.
  unfold attempt_record. split.
  - intros H. m_inv. timeline_inv. split; [|by eauto].
    apply bool_decide_eq_false in H. by destruct (attempt_row att d); [destruct H|].
  - intros (Hn & m & Hm & -> & ->). apply bind_ok. eexists _, _. rewrite gets_ok, Hn. split; [done|].
    m_run. apply bind_ok. eexists _, _. split; [apply next_revision_ok; eauto|]. cbv beta.
    apply bind_ok. eexists tt, _. split; [by apply insert_event_ok|]. m_run.
Qed.

Lemma recordAttemptTx_ok op att gen d row d' :
  opts a = production →
  recordAttemptTx tick a op att gen d = Ok (row, d') →
  ∃ o x, let t := tick (clock d) in attempt_admitted op att gen t d o x
    ∧ row = attempt_made op att gen t d x ∧ d' = after_attempt op att gen t d x.
Proof.
  intros Hprod H. unfold recordAttemptTx in H. m_inv.
  apply attempt_locks_ok in H0 as [-> [o Hr]].
  assert (Ho : ops d !! op = Some o) by apply Hr.
  unfold op_row in *. m_inv. destruct Hr as (Hsup & Hcur & Hrec & Hr).
  apply attempt_token_check_ok in H11 as ->.
  apply (send_write_ok op gen d true _ o Ho) in H as [Hsend ->]. timeline_inv.
  symmetry in Hsend. apply may_send_ok in Hsend as [Hown Hst]; [|done].
  apply attempt_plan_check_ok in H3 as (-> & Hhead & Hbase); [|done].
  apply attempt_evidence_check_ok in H8 as (Hage & Hcheck & Hid & Hdig & Hmin & Hnew).
  apply attempt_scope_check_ok in H9. rewrite attempt_retry_check_ok in H12.
  apply attempt_bound_check_ok in H13.
  apply attempt_record_ok in H14 as (Hfresh & m & Hm & -> & ->).
  exists o, (ReliedOn a0 (latest_classification op d) a5 a6 a7 a8).
  destruct a0 as [cur rec pid p mm dr ms hd]. simpl in *. split_hyps. subst.
  unfold attempt_made, after_attempt. simpl. simplify_eq.
  split; [|by split].
  split; simpl; try done; [by unfold attempt_reads; simpl; eauto 20| |by eauto].
  intros c Hc. destruct (H12 c Hc) as [? Hl]. destruct_and!. split_and!; try done. refine (eq_trans _ Hl).
  change (later_entry (p_machine p) (str (ps_operation x0)) (c_revision c) d =
    latest_classification (str (ps_operation x0)) d ≫= λ c0,
      later_entry (p_machine p) (str (ps_operation x0)) (c_revision c0) d). by rewrite Hc.
Qed.

Lemma recordAttemptTx_succeeds op att gen d o x :
  opts a = production → let t := tick (clock d) in
  attempt_admitted op att gen t d o x →
  recordAttemptTx tick a op att gen d = Ok (attempt_made op att gen t d x, after_attempt op att gen t d x).
Proof.
  intros Hprod t Ha. destruct Ha, x as [r cls oid ob st b]. simpl in *.
  assert (Ho : ops d !! op = Some o) by apply adm_reads0.
  assert (Hcur : ar_current r = epoch d) by apply adm_reads0.
  assert (Hm : machines d !! p_machine (ar_plan r) = Some (ar_machine r)) by apply adm_reads0.
  assert (Hhd : ar_head r = heads d !! p_machine (ar_plan r)) by apply adm_reads0.
  assert (Hrec : ar_recovery r = recovery d) by apply adm_reads0.
  assert (Hsend : may_send a op gen o d = true) by by apply may_send_ok.
  assert (Hops : ops (set_clock t (sent op d)) !! op = Some (with_state Sending o))
    by (simpl; by rewrite lookup_alter_eq, Ho).
  set (d1 := set_clock t (sent op d)) in *.
  assert (Hplan : attempt_plan_check a r "" = None).
  { apply attempt_plan_check_ok; [done|]. by rewrite Hhd. }
  assert (Hev : attempt_evidence_check r b ob st None "" t = None) by by apply attempt_evidence_check_ok.
  assert (Hsc : attempt_scope_check r = None) by (apply attempt_scope_check_ok; by rewrite Hrec).
  assert (Htok : attempt_token_check a r gen true (with_state Sending o) = None) by done.
  assert (Hre : attempt_retry_check a r gen cls (cls ≫= λ c, later_entry (p_machine (ar_plan r)) op (c_revision c) d) = None).
  { apply attempt_retry_check_ok. intros c ->. destruct (adm_retry0 c eq_refl) as (?&?&?&?&?). done. }
  assert (Hb : attempt_bound_check r (Z.of_nat (length (attempts_of op d))) = None) by by apply attempt_bound_check_ok.
  rewrite <- adm_newer0, <- adm_check0 in Hev. rewrite adm_cls0 in *.
  unfold recordAttemptTx, op_row. apply bind_ok. eexists _, _. split; [apply attempt_locks_ok; eauto|].
  cbv beta. apply bind_ok. eexists true, _. split; [apply (send_write_ok _ _ _ _ _ o Ho); by split|].
  cbv beta. apply bind_ok. eexists _, _. split; [by apply clock_timestamp_ok|].
  cbv beta. rewrite Hcur. m_run. apply attempt_record_ok. split; [done|]. eexists. split; [exact Hm|].
  by rewrite Hcur.
Qed.
End AttemptSpec.

(** ** What a commitment rests on: [commitTx] succeeds exactly when every comparison holds of the
    store it starts from, and then creates the operation, marks the plan and appends one entry. *)

Section CommitSpec.
Variable tick : Z → Z.
Variable a : api.

(** What [commit_locks] reads, when it reads everything. *)
Definition commit_reads (plan : string) (d : Db) (c : commit_read) : Prop :=
  superseded a (epoch d) = false ∧ cr_current c = epoch d ∧ cr_recovery c = recovery d ∧
  plans d !! plan = Some (cr_plan c) ∧ contracts d !! p_release (cr_plan c) = Some (cr_contract c) ∧
  p_kind (cr_plan c) = KApplyConfig ∧
  machines d !! p_machine (cr_plan c) = Some (cr_machine c) ∧
  cr_drift c = openDrift (p_machine (cr_plan c)) d ∧
  mstates d !! p_machine (cr_plan c) = Some (cr_mstate c) ∧
  cr_head c = heads d !! p_machine (cr_plan c) ∧ pstates d !! plan = Some (cr_pstate c) ∧
  cr_approval c = (ps_approval (cr_pstate c) ≫= λ i, approvals d !! i) ∧
  (is_Some (ps_approval (cr_pstate c)) → is_Some (cr_approval c)) ∧
  cr_revoked c = (cr_approval c ≫= λ x, principals d !! ap_approver x) ∧
  cr_rev_at c = (cr_approval c ≫= λ x, id_revoked d !! ap_approver x).

Lemma commit_locks_ok plan d c d' :
  commit_locks a plan d = Ok (c, d') ↔ d' = d ∧ commit_reads plan d c.
Proof.
  unfold commit_locks, commit_reads, plan_row, machine_row, mstate_row, pstate_row. split.
  - intros H. m_inv. destruct (ps_approval _) as [i|] eqn:Hap; m_inv; simpl; (split; [done|]);
      rewrite ?Hap; simpl; split_and!; eauto; by intros [? [=]].
  - intros [-> H]. destruct c as [cur rec p k m dr ms hd s ap rv ra]; simpl in *. split_hyps; subst.
    m_run. apply bind_ok. exists (ps_approval s ≫= λ i, approvals d !! i), d. split.
    + destruct (ps_approval s) as [i|]; simpl in *; [|m_run].
      match goal with H : is_Some (Some i) → _ |- _ => destruct H as [x Hx]; [by eexists|] end.
      apply bind_ok. exists x, d. rewrite Hx. split; m_run.
    + m_run.
Qed.

(** ** The comparisons *)

Lemma commit_plan_check_ok plan c t :
  commit_plan_check plan c t = None ↔
  ps_operation (cr_pstate c) = None ∧ ps_state (cr_pstate c) = Approved ∧ t < p_expires (cr_plan c)
  ∧ (default false (cr_revoked c) = true → ∃ r, cr_rev_at c = Some r ∧ p_expires (cr_plan c) ≤ r)
  ∧ default "" (ap_epoch <$> cr_approval c) = cr_current c
  ∧ cr_head c = Some (p_assignment (cr_plan c))
  ∧ ms_baseline (cr_mstate c) = p_baseline (cr_plan c)
  ∧ ms_desired (cr_mstate c) = p_desired (cr_plan c).
Proof.
  unfold commit_plan_check, plan_reads.
  destruct (ps_operation (cr_pstate c)) as [x|]; [rewrite bool_decide_true by eauto; naive_solver|].
  rewrite bool_decide_false by (by intros [? [=]]). simpl.
  destruct (ps_state (cr_pstate c)); simpl; try (repeat case_match; naive_solver).
  destruct (Z.leb_spec (p_expires (cr_plan c)) t).
  { split; [repeat case_match; done|]. intros (_ & _ & ? & _). lia. }
  destruct (default false (cr_revoked c)); simpl; [|repeat case_bool_decide; naive_solver].
  destruct (cr_rev_at c) as [r|]; simpl; [|naive_solver].
  destruct (Z.ltb_spec r (p_expires (cr_plan c))); simpl.
  { split; [done|]. intros (_ & _ & _ & Hr & _). destruct Hr as (? & [= <-] & ?); [done|lia]. }
  repeat case_bool_decide; naive_solver.
Qed.

Lemma evidence_check_ok c ev t :
  evidence_check c ev t = None ↔
  ∃ o started, ev = Some (o, started) ∧ unread_compared o = []
    ∧ default 0 (ap_revision <$> cr_approval c) < o_basis o
    ∧ time_sub t started ≤ duration_of_micros (p_max_age (cr_plan c)).
Proof.
  unfold evidence_check. destruct ev as [[o started]|]; [|naive_solver].
  case_bool_decide; simpl; [|naive_solver].
  destruct (Z.leb_spec (o_basis o) (default 0 (ap_revision <$> cr_approval c)));
    [split; [done|]; intros (? & ? & [= <- <-] & ?); lia|].
  destruct (Z.ltb_spec (duration_of_micros (p_max_age (cr_plan c))) (time_sub t started));
    [split; [done|]; intros (? & ? & [= <- <-] & ?); lia|]. naive_solver.
Qed.

Lemma evidence_compare_ok plan b o newer :
  evidence_compare plan b o newer = None ↔
  identityMatch (b_machine b) (b_talos b) o = true ∧ o_digest o = p_expected (b_plan b)
  ∧ minorMatch (b_contract b) o = true ∧ newer = None.
Proof.
  unfold evidence_compare, digest_matches.
  case_bool_decide; destruct (identityMatch _ _ _), (minorMatch _ _), newer; simpl; naive_solver.
Qed.

Lemma commit_scope_check_ok plan c mheld cheld :
  opts a = production →
  commit_scope_check a plan c mheld cheld = None ↔
  mheld = false ∧ cheld = false
  ∧ scopeGate (m_frozen (cr_machine c)) (cr_drift c) (p_drift (cr_plan c)) (m_scope (cr_machine c))
      (cr_recovery c) = "".
Proof.
  unfold commit_scope_check. intros ->. simpl.
  case_bool_decide; destruct mheld, cheld; simpl; naive_solver.
Qed.

(** What a commitment relied on: the reads, the evidence and when it began, and the bindings. *)
Record commit_relied := CommitRelied {
  cm_reads : commit_read; cm_obs : observation; cm_started : Z; cm_bindings : bindings }.

(** Every comparison of the commitment holds of the store [d] at the time [t]. *)
Record commit_admitted (plan op : string) (t : Z) (d : Db) (x : commit_relied) : Prop := {
  com_reads : commit_reads plan d (cm_reads x);
  com_unused : ps_operation (cr_pstate (cm_reads x)) = None;
  com_approved : ps_state (cr_pstate (cm_reads x)) = Approved;
  com_expires : t < p_expires (cr_plan (cm_reads x));
  com_revoked : default false (cr_revoked (cm_reads x)) = true →
    ∃ r, cr_rev_at (cm_reads x) = Some r ∧ p_expires (cr_plan (cm_reads x)) ≤ r;
  com_epoch : default "" (ap_epoch <$> cr_approval (cm_reads x)) = epoch d;
  com_head : heads d !! p_machine (cr_plan (cm_reads x)) = Some (p_assignment (cr_plan (cm_reads x)));
  com_baseline : ms_baseline (cr_mstate (cm_reads x)) = p_baseline (cr_plan (cm_reads x));
  com_desired : ms_desired (cr_mstate (cm_reads x)) = p_desired (cr_plan (cm_reads x));
  com_evidence : evidence_of (owner_id a) (p_machine (cr_plan (cm_reads x))) plan d
                 = Some (cm_obs x, cm_started x);
  com_read : unread_compared (cm_obs x) = [];
  com_after : default 0 (ap_revision <$> cr_approval (cm_reads x)) < o_basis (cm_obs x);
  com_age : time_sub t (cm_started x) ≤ duration_of_micros (p_max_age (cr_plan (cm_reads x)));
  com_check : useTimeCheckCause (owner_id a) (p_machine (cr_plan (cm_reads x))) plan (o_id (cm_obs x)) t d = "";
  com_bindings : bindings_of (p_machine (cr_plan (cm_reads x))) plan d = Some (cm_bindings x);
  com_identity : identityMatch (b_machine (cm_bindings x)) (b_talos (cm_bindings x)) (cm_obs x) = true;
  com_digest : o_digest (cm_obs x) = p_expected (b_plan (cm_bindings x));
  com_minor : minorMatch (b_contract (cm_bindings x)) (cm_obs x) = true;
  com_newer : newerContradiction (p_machine (cr_plan (cm_reads x))) plan (o_basis (cm_obs x)) d = None;
  com_machine : machine_held (p_machine (cr_plan (cm_reads x))) d = false;
  com_cluster : cluster_held (p_cluster (cr_plan (cm_reads x))) d = false;
  com_scope : scopeGate (m_frozen (cr_machine (cm_reads x))) (cr_drift (cm_reads x))
                (p_drift (cr_plan (cm_reads x))) (m_scope (cr_machine (cm_reads x))) (recovery d) = "";
  com_fresh : ops d !! op = None }.

(** The operation a commitment creates, and the store it leaves. *)
Definition committed_op (plan : string) (t : Z) (d : Db) (c : commit_read) : operation :=
  Operation (next_seq d) KApplyConfig Committed (cr_current c) (Some (owner_id a)) 1 (Some (cr_current c))
    (Some plan) (Some (p_machine (cr_plan c))) (Some (p_cluster (cr_plan c))) t None None.

Definition after_commit (plan op obs : string) (t : Z) (d : Db) (c : commit_read) : Db :=
  set_pstates (<[plan := PlanState PCommitted (ps_approval (cr_pstate c)) (Some op)
                  (ps_revision (cr_pstate c) + 1) t (ps_reason (cr_pstate c))]> (pstates d))
    (set_events (events d ++ [Event (p_machine (cr_plan c)) (m_counter (cr_machine c) + 1) (cr_current c)
        (EvCommitment plan op (str (ps_approval (cr_pstate c))) obs (owner_id a)) t])
      (set_machines (<[p_machine (cr_plan c) := counted (cr_machine c)]> (machines d))
        (set_ops (<[op := committed_op plan t d c]> (ops d)) d))).

Lemma commit_record_ok plan op c obs t d r d' :
  machines d !! p_machine (cr_plan c) = Some (cr_machine c) →
  commit_record a plan op c obs t d = Ok (r, d') ↔
  ops d !! op = None ∧ r = m_counter (cr_machine c) + 1 ∧ d' = after_commit plan op obs t d c.
Proof.
  intros Hm. unfold commit_record. split.
  - intros H. m_inv. timeline_inv. simpl in *. simplify_eq.
    apply bool_decide_eq_false in H. split_and!; [|done..].
    by destruct (ops d !! op); [destruct H|].
  - intros (Hn & -> & ->). apply bind_ok. eexists _, _. rewrite gets_ok, Hn. split; [done|].
    m_run. apply bind_ok. eexists _, _. split; [apply next_revision_ok; eauto|]. cbv beta.
    apply bind_ok. eexists tt, _. split; [by apply insert_event_ok|]. m_run.
Qed.

Lemma commitTx_ok plan op d r d' :
  opts a = production →
  commitTx tick a plan op d = Ok (r, d') →
  ∃ x, let t := tick (clock d) in commit_admitted plan op t d x
    ∧ r = (op, o_id (cm_obs x), m_counter (cr_machine (cm_reads x)) + 1)
    ∧ d' = after_commit plan op (o_id (cm_obs x)) t (set_clock t d) (cm_reads x).
Proof.
  intros Hprod H. unfold commitTx in H. m_inv.
  apply commit_locks_ok in H0 as [-> Hr]. timeline_inv.
  apply commit_plan_check_ok in H1 as (?&?&?&?&?&Hhd&?&?).
  apply evidence_check_ok in H2 as (o & st & Hev & ? & ? & ?).
  rewrite Hev in H3. simpl in H3. simplify_eq. case_bool_decide; [|done].
  apply evidence_compare_ok in H6 as (?&?&?&?). apply commit_scope_check_ok in H7 as (?&?&Hsc); [|done].
  assert (Hm : machines d !! p_machine (cr_plan a0) = Some (cr_machine a0)) by apply Hr.
  apply commit_record_ok in H8 as (?&->&->); [|done].
  exists (CommitRelied a0 a4 st a6). split; [|by split].
  destruct (Hr) as (_&Hcur&Hrec&_&_&_&_&_&_&Hh&_). rewrite Hh in Hhd. rewrite Hrec in Hsc. split; simpl; try done. congruence.
Qed.

Lemma commitTx_succeeds plan op d x :
  opts a = production → let t := tick (clock d) in
  commit_admitted plan op t d x →
  commitTx tick a plan op d =
    Ok ((op, o_id (cm_obs x), m_counter (cr_machine (cm_reads x)) + 1),
        after_commit plan op (o_id (cm_obs x)) t (set_clock t d) (cm_reads x)).
Proof.
  intros Hprod t Ha. destruct Ha, x as [c o st b]. simpl in *.
  destruct (com_reads0) as (_&Hcur&Hrec&_&_&_&Hm&_&_&Hhd&_).
  assert (Hplan : commit_plan_check plan c t = None)
    by (apply commit_plan_check_ok; rewrite Hhd, Hcur; done).
  assert (Hev : evidence_check c (Some (o, st)) t = None) by (apply evidence_check_ok; eauto 10).
  assert (Hcmp : evidence_compare plan b o None = None) by by apply evidence_compare_ok.
  assert (Hsc : commit_scope_check a plan c false false = None)
    by (apply commit_scope_check_ok; [done|]; by rewrite Hrec).
  rewrite <- com_newer0 in Hcmp. rewrite <- com_machine0, <- com_cluster0 in Hsc at 1.
  assert (Hck : (if bool_decide (useTimeCheckCause (owner_id a) (p_machine (cr_plan c)) plan (o_id o) t d = "")
    then None else Some (ENoEvidence (useTimeCheckCause (owner_id a) (p_machine (cr_plan c)) plan (o_id o) t d))) = None)
    by by rewrite com_check0, bool_decide_true.
  assert (Hfst : fst <$> Some (o, st) = Some o) by done.
  rewrite <- com_evidence0 in Hev, Hfst.
  unfold commitTx. apply bind_ok. eexists _, _. split; [by apply commit_locks_ok|].
  cbv beta. apply bind_ok. eexists _, _. split; [by apply clock_timestamp_ok|]. cbv beta. m_run.
  apply bind_ok. eexists _, _. split; [by apply commit_record_ok|]. m_run.
Qed.
End CommitSpec.
