(* ===== verification/Lifecycle.v ===== *)
(** * Frames of the shared writes, and the part of the store the operations' lifecycle is about. *)

From stdpp Require Import relations.
From S2P Require Import Prelude Store Evidence Commit Attempt Outcome Settle.

(** The lifecycle's tables. *)
Record core := Core {
  co_plans : gmap string plan; co_ops : gmap string operation; co_attempts : list attempt; co_responses : list response_row;
  co_accountings : list accounting_row; co_classes : list classification_row }.

Definition core_of (d : Db) : core :=
  Core (plans d) (ops d) (attempts d) (responses d) (accountings d) (classifications d).

#[export] Hint Unfold machine_row mstate_row plan_row pstate_row op_row : keeps.
#[export] Hint Extern 1 (keeps _ (machine_row _)) => unfold machine_row : keeps.
#[export] Hint Extern 1 (keeps _ (mstate_row _)) => unfold mstate_row : keeps.
#[export] Hint Extern 1 (keeps _ (plan_row _)) => unfold plan_row : keeps.
#[export] Hint Extern 1 (keeps _ (pstate_row _)) => unfold pstate_row : keeps.
#[export] Hint Extern 1 (keeps _ (op_row _)) => unfold op_row : keeps.

(** An observer blind to the timeline: the clock, the machines' counters and the events. *)
Class TimelineFree {B} (f : Db → B) : Prop := {
  free_clock : ∀ x d, f (set_clock x d) = f d;
  free_counted : ∀ m x d, machines d !! m = Some x → f (set_machines (<[m := counted x]> (machines d)) d) = f d;
  free_events : ∀ x d, f (set_events x d) = f d }.

(** An observer blind to the drift records too. *)
Class DriftFree {B} (f : Db → B) : Prop := {
  #[global] drift_timeline :: TimelineFree f;
  free_drifts : ∀ x d, f (set_drifts x d) = f d }.

#[export] Instance core_drift_free : DriftFree core_of.
Proof. by repeat split. Qed.
#[export] Instance mstates_drift_free : DriftFree mstates.
Proof. by repeat split. Qed.

Section Frames.
Context {B : Type} (f : Db → B).
Variable tick : Z → Z.

Lemma clock_keeps `{!TimelineFree f} : keeps f (clock_timestamp tick).
Proof. apply keeps_bind; [solve_keeps|]. intros t. apply keeps_bind; [|solve_keeps].
  apply keeps_modify. intros d. apply free_clock. Qed.

Lemma next_revision_keeps `{!TimelineFree f} m : keeps f (next_revision m).
Proof. intros d r d' (x & Hx & _ & ->)%next_revision_ok. by apply free_counted. Qed.

Lemma insert_event_keeps `{!TimelineFree f} m r ep e t : keeps f (insert_event m r ep e t).
Proof. apply keeps_modify. intros d. apply free_events. Qed.
End Frames.
#[export] Hint Resolve clock_keeps next_revision_keeps insert_event_keeps : keeps.

Section Frames2.
Context {B : Type} (f : Db → B).
Variable tick : Z → Z.
Variable a : api.

Lemma nextEntry_keeps `{!TimelineFree f} m : keeps f (nextEntry tick m).
Proof. unfold nextEntry. solve_keeps. Qed.
#[local] Hint Resolve nextEntry_keeps : keeps.

Lemma append_event_keeps `{!TimelineFree f} m ep e : keeps f (append_event tick m ep e).
Proof. unfold append_event. solve_keeps. Qed.
Lemma appendEntry_keeps `{!TimelineFree f} l e : keeps f (appendEntry tick l e).
Proof. apply append_event_keeps. Qed.

Lemma driftEntry_keeps `{!TimelineFree f} m ep r c res o late : keeps f (driftEntry tick m ep r c res o late).
Proof. unfold driftEntry. solve_keeps. Qed.
#[local] Hint Resolve driftEntry_keeps : keeps.

Lemma modify_drift_keeps `{!DriftFree f} g : keeps (E:=err) f (modify (λ d, set_drifts (g d) d)).
Proof. apply keeps_modify. intros d. apply free_drifts. Qed.
Lemma update_drift_keeps `{!DriftFree f} m o g : keeps (E:=err) f (modify (update_drift m o g)).
Proof. apply keeps_modify. intros d. apply free_drifts. Qed.
#[local] Hint Resolve modify_drift_keeps update_drift_keeps : keeps.

Lemma applyDrift_keeps `{!DriftFree f} m ep o b : keeps f (applyDrift tick m ep o b).
Proof. unfold applyDrift. solve_keeps. Qed.
End Frames2.
#[export] Hint Resolve nextEntry_keeps append_event_keeps appendEntry_keeps driftEntry_keeps
  update_drift_keeps applyDrift_keeps : keeps.

(** ** The operation's lifecycle: the abstract machine the transactions implement, and its invariant.

    [astep] says what may happen to an apply-config operation, its attempts, responses, accountings
    and classifications: the transitions of [refuse_operation_transition] in the schema, each with
    the facts execution and recovery demands of it.  [lifecycle_inv] is what every reachable state
    then satisfies. *)

(** [refuse_operation_transition]: the moves the schema's trigger lets pass. *)
Definition allowed (s s' : op_state) : bool :=
  match s, s' with
  | Committed, (Sending | Unresolved)
  | Sending, (Verifying | Rejected | Unresolved)
  | Verifying, (Completed | Failed | Unresolved)
  | Unresolved, (Completed | Failed | Rejected | Sending | Cancelled) => true
  | _, _ => false
  end.

Definition terminal (s : op_state) : bool :=
  match s with Completed | Rejected | Failed | Cancelled => true | _ => false end.

(** The CHECKs of table [operation] on an operation's state: the states of its kind, an owner with its
    epoch and a positive generation, an owner while it holds its scopes, and an outcome that fits. *)
Definition kind_state (k : op_kind) (s : op_state) : bool :=
  match k with
  | KPublish => bool_decide (s ∈ [Queued; Running; Succeeded; Failed])
  | KIngest => bool_decide (s ∈ [Running; Succeeded; Failed])
  | KApplyConfig => active s || terminal s
  | KAdopt => bool_decide (s = Completed)
  end.
Definition outcome_fits (s : op_state) (result error : option doc) : Prop :=
  (is_Some result ↔ s = Completed) ∧ (is_Some error ↔ s = Rejected ∨ s = Failed).
Definition checks_ok (o : operation) : Prop :=
  kind_state (op_kind_of o) (op_st o) = true
  ∧ (is_Some (op_owner o) ↔ is_Some (op_owner_epoch o)) ∧ (is_Some (op_owner o) → 1 ≤ op_gen o)
  ∧ (op_kind_of o = KApplyConfig →
      (active (op_st o) = true → is_Some (op_owner o)) ∧ outcome_fits (op_st o) (op_result o) (op_error o)).

Lemma allowed_active s s' : allowed s s' = true → active s = true.
Proof. by destruct s, s'. Qed.

(** ** Reading the core *)

Definition attempts_in (op : string) (c : core) : list attempt :=
  filter (λ t, at_operation t = op) (co_attempts c).
Definition accounted_in (att : string) (c : core) : Prop := att ∈ k_attempt <$> co_accountings c.
Definition rejected_in (att : string) (c : core) : Prop :=
  ∃ r, r ∈ co_responses c ∧ r_attempt r = att ∧ r_class r = CRejected.

Definition move_op (op : string) (f : operation → operation) (c : core) : core :=
  Core (co_plans c) (alter f op (co_ops c)) (co_attempts c) (co_responses c) (co_accountings c) (co_classes c).

(** What a move to a state rests on. *)
Definition grounds (op : string) (s' : op_state) (c : core) : Prop :=
  match s' with
  | Cancelled => attempts_in op c = []
  | Completed | Failed => attempts_in op c ≠ [] ∧ Forall (λ t, accounted_in (at_id t) c) (attempts_in op c)
  | Rejected => attempts_in op c ≠ [] ∧ Forall (λ t, rejected_in (at_id t) c) (attempts_in op c)
  | Sending => False
  | _ => True
  end.

(** ** The abstract machine *)

Inductive astep : core → core → Prop :=
| a_create c id o :
    co_ops c !! id = None → op_kind_of o = KApplyConfig → op_st o = Committed → op_gen o = 1 → checks_ok o →
    (∀ i o', co_ops c !! i = Some o' → holds_scope o' →
       op_machine o' ≠ op_machine o ∧ op_cluster o' ≠ op_cluster o) →
    astep c (Core (co_plans c) (<[id := o]> (co_ops c)) (co_attempts c) (co_responses c)
               (co_accountings c) (co_classes c))
| a_attempt c id o t p n :
    co_ops c !! id = Some o → op_kind_of o = KApplyConfig →
    op_st o = Committed ∨ (op_st o = Unresolved ∧ is_Some (at_classification t)) →
    at_operation t = id → at_number t = Z.of_nat (length (attempts_in id c)) + 1 →
    op_owner o = Some (at_owner t) → op_gen o = at_gen t → op_owner_epoch o = Some (at_epoch t) →
    (op_plan o ≫= λ i, co_plans c !! i) = Some p → p_max_attempts p = Some n → at_number t ≤ n →
    at_id t ∉ at_id <$> co_attempts c →
    astep c (Core (co_plans c) (alter (with_state Sending) id (co_ops c)) (co_attempts c ++ [t])
               (co_responses c) (co_accountings c) (co_classes c))
| a_move c id o s' f :
    co_ops c !! id = Some o → op_kind_of o = KApplyConfig →
    allowed (op_st o) s' = true → grounds id s' c →
    (∀ x, (f x = with_state s' x ∧ outcome_fits s' None None)
          ∨ ∃ r e, f x = with_outcome r e (with_state s' x) ∧ outcome_fits s' r e) →
    astep c (move_op id f c)
| a_takeover c id o owner ep :
    co_ops c !! id = Some o → op_kind_of o = KApplyConfig → active (op_st o) = true →
    astep c (move_op id (with_state Unresolved ∘ with_owner owner (op_gen o + 1) ep) c)
| a_respond c r t :
    t ∈ co_attempts c → r_attempt r = at_id t → r_attempt r ∉ r_attempt <$> co_responses c →
    astep c (Core (co_plans c) (co_ops c) (co_attempts c) (co_responses c ++ [r])
               (co_accountings c) (co_classes c))
| a_account c k t :
    t ∈ co_attempts c → k_attempt k = at_id t → ¬ accounted_in (k_attempt k) c →
    astep c (Core (co_plans c) (co_ops c) (co_attempts c) (co_responses c)
               (co_accountings c ++ [k]) (co_classes c))
| a_classify c x o :
    co_ops c !! c_operation x = Some o → op_kind_of o = KApplyConfig →
    astep c (Core (co_plans c) (co_ops c) (co_attempts c) (co_responses c)
               (co_accountings c) (co_classes c ++ [x]))
| a_other c ops' plans' :
    co_plans c ⊆ plans' →
    (∀ id o, op_kind_of o = KApplyConfig → co_ops c !! id = Some o ↔ ops' !! id = Some o) →
    (∀ id o, ops' !! id = Some o → op_kind_of o ≠ KApplyConfig → checks_ok o) →
    astep c (Core plans' ops' (co_attempts c) (co_responses c) (co_accountings c) (co_classes c)).

(** ** The invariant *)

(** What an operation's state says of its attempts. *)
Definition state_ok (id : string) (s : op_state) (c : core) : Prop :=
  match s with
  | Committed | Cancelled => attempts_in id c = []
  | Sending | Verifying => attempts_in id c ≠ []
  | Completed | Failed => attempts_in id c ≠ [] ∧ Forall (λ t, accounted_in (at_id t) c) (attempts_in id c)
  | Rejected => attempts_in id c ≠ [] ∧ Forall (λ t, rejected_in (at_id t) c) (attempts_in id c)
  | _ => True
  end.

Record lifecycle_inv (c : core) : Prop := {
  inv_operation : ∀ t, t ∈ co_attempts c →
    ∃ o, co_ops c !! at_operation t = Some o ∧ op_kind_of o = KApplyConfig;
  inv_state : ∀ id o, co_ops c !! id = Some o → op_kind_of o = KApplyConfig → state_ok id (op_st o) c;
  inv_number : ∀ id, at_number <$> attempts_in id c = seqZ 1 (Z.of_nat (length (attempts_in id c)));
  inv_bound : ∀ id o p n, co_ops c !! id = Some o → op_kind_of o = KApplyConfig →
    attempts_in id c ≠ [] → (op_plan o ≫= λ i, co_plans c !! i) = Some p → p_max_attempts p = Some n →
    Z.of_nat (length (attempts_in id c)) ≤ n;
  inv_planned : ∀ id o, co_ops c !! id = Some o → op_kind_of o = KApplyConfig →
    attempts_in id c ≠ [] → is_Some (op_plan o ≫= λ i, co_plans c !! i);
  inv_retry : ∀ t, t ∈ co_attempts c → at_number t = 1 ∨ is_Some (at_classification t);
  inv_scope : ∀ i j o o', i ≠ j → co_ops c !! i = Some o → co_ops c !! j = Some o' →
    holds_scope o → holds_scope o' → op_machine o ≠ op_machine o' ∧ op_cluster o ≠ op_cluster o';
  inv_attempt_ids : NoDup (at_id <$> co_attempts c);
  inv_responses : NoDup (r_attempt <$> co_responses c);
  inv_accountings : NoDup (k_attempt <$> co_accountings c) }.

(** ** Preservation *)

Lemma state_ok_mono id s c c' :
  attempts_in id c' = attempts_in id c →
  (∀ x, accounted_in x c → accounted_in x c') → (∀ x, rejected_in x c → rejected_in x c') →
  state_ok id s c → state_ok id s c'.
Proof.
  intros Ha Hk Hr. unfold state_ok. rewrite Ha.
  destruct s; try done; intros [? HF]; (split; [done|]); eapply Forall_impl; try exact HF; simpl; auto.
Qed.

Lemma attempts_in_snoc id t c ops :
  attempts_in id (Core (co_plans c) ops (co_attempts c ++ [t]) (co_responses c) (co_accountings c) (co_classes c))
  = attempts_in id c ++ (if decide (at_operation t = id) then [t] else []).
Proof. unfold attempts_in. simpl. rewrite list.filter_app, filter_cons, filter_nil. by case_decide. Qed.

(** A move of one operation that keeps its bindings, to a state its attempts agree with. *)
Lemma inv_move c id o f s' :
  lifecycle_inv c → co_ops c !! id = Some o → op_kind_of o = KApplyConfig → active (op_st o) = true →
  op_st (f o) = s' → op_kind_of (f o) = KApplyConfig → op_plan (f o) = op_plan o →
  op_machine (f o) = op_machine o → op_cluster (f o) = op_cluster o →
  state_ok id s' c → lifecycle_inv (move_op id f c).
Proof.
  intros Hi Ho Hk Hact Hs Hfk Hfp Hfm Hfc Hok.
  assert (Hl : ∀ j x, alter f id (co_ops c) !! j = Some x →
            (j = id ∧ x = f o) ∨ (j ≠ id ∧ co_ops c !! j = Some x)).
  { intros j x. rewrite lookup_alter. case_decide; subst; [rewrite Ho; naive_solver | eauto]. }
  assert (Hold : ∀ j x, alter f id (co_ops c) !! j = Some x → ∃ y, co_ops c !! j = Some y
            ∧ op_plan x = op_plan y ∧ op_machine x = op_machine y ∧ op_cluster x = op_cluster y
            ∧ op_kind_of x = op_kind_of y ∧ (holds_scope x → holds_scope y)).
  { intros j x [[-> ->]|[_ Hx]]%Hl; [|by exists x].
    exists o. split_and!; try done. by rewrite Hfk, Hk. }
  split; simpl.
  - intros t Ht. destruct (inv_operation _ Hi t Ht) as (x & Hx & Hxk).
    destruct (decide (id = at_operation t)) as [Heq|Hne]; [|exists x; by rewrite lookup_alter_ne].
    exists (f o). split; [|done]. by rewrite <- Heq, lookup_alter_eq, Ho.
  - intros j x Hj Hjk. destruct (Hl j x Hj) as [[-> ->]|[Hne Hx]]; [by rewrite Hs|]. by apply (inv_state _ Hi).
  - apply (inv_number _ Hi).
  - intros j x p n Hj Hjk Hat. destruct (Hold j x Hj) as (y & Hy & -> & _ & _ & Hyk & _).
    intros. eapply (inv_bound _ Hi); eauto; congruence.
  - intros j x Hj Hjk Hat. destruct (Hold j x Hj) as (y & Hy & -> & _ & _ & Hyk & _).
    eapply (inv_planned _ Hi); eauto; congruence.
  - apply (inv_retry _ Hi).
  - intros i j x y Hne Hx Hy Hsx Hsy.
    destruct (Hold i x Hx) as (x' & Hx' & _ & -> & -> & _ & Hhx).
    destruct (Hold j y Hy) as (y' & Hy' & _ & -> & -> & _ & Hhy).
    eapply (inv_scope _ Hi); eauto.
  - apply (inv_attempt_ids _ Hi).
  - apply (inv_responses _ Hi).
  - apply (inv_accountings _ Hi).
Qed.

Lemma grounds_ok id s s' c :
  lifecycle_inv c → state_ok id s c → allowed s s' = true → grounds id s' c → state_ok id s' c.
Proof. intros _. unfold state_ok, grounds. by destruct s, s'. Qed.

Lemma create_inv c id o :
  lifecycle_inv c → co_ops c !! id = None → op_kind_of o = KApplyConfig → op_st o = Committed →
  (∀ i o', co_ops c !! i = Some o' → holds_scope o' → op_machine o' ≠ op_machine o ∧ op_cluster o' ≠ op_cluster o) →
  lifecycle_inv (Core (co_plans c) (<[id := o]> (co_ops c)) (co_attempts c) (co_responses c)
               (co_accountings c) (co_classes c)).
Proof.
  intros Hi Hn Hk Hs Hfree.
  assert (Hnil : attempts_in id c = []).
  { destruct (attempts_in id c) as [|t l] eqn:E; [done|]. exfalso.
    assert (Ht : t ∈ attempts_in id c) by (rewrite E; left).
    apply list_elem_of_filter in Ht as [<- Ht].
    destruct (inv_operation _ Hi t Ht) as (x & Hx & _). congruence. }
  assert (Hl : ∀ j x, <[id:=o]> (co_ops c) !! j = Some x → (j = id ∧ x = o) ∨ (j ≠ id ∧ co_ops c !! j = Some x)).
  { intros j x. rewrite lookup_insert. case_decide; naive_solver. }
  destruct Hi as [H1 H2 H3 H4 H5 H6 H7 H8 H9 H10].
  split; simpl; auto.
  - intros t Ht. destruct (H1 t Ht) as (x & Hx & Hxk). rewrite lookup_insert_ne by congruence. eauto.
  - intros j x [[-> ->]|[_ Hx]]%Hl Hjk; [by rewrite Hs | by apply H2].
  - intros j x p n [[-> ->]|[_ Hx]]%Hl Hjk Hat; [done | eauto].
  - intros j x [[-> ->]|[_ Hx]]%Hl Hjk Hat; [done | eauto].
  - intros i j x y Hne [[-> ->]|[? Hx]]%Hl [[-> ->]|[? Hy]]%Hl Hsx Hsy; [done| | |eauto].
    + destruct (Hfree _ _ Hy Hsy). split; congruence.
    + destruct (Hfree _ _ Hx Hsx). split; congruence.
Qed.

Lemma NoDup_snoc_fmap {A} (f : A → string) l x :
  NoDup (f <$> l) → f x ∉ f <$> l → NoDup (f <$> l ++ [x]).
Proof.
  intros Hl Hx. rewrite fmap_app. apply NoDup_app. split_and!; [done| |apply NoDup_singleton].
  by intros y Hy ->%list_elem_of_singleton.
Qed.

Lemma attempt_inv c id o t p n :
  lifecycle_inv c → co_ops c !! id = Some o → op_kind_of o = KApplyConfig →
  op_st o = Committed ∨ (op_st o = Unresolved ∧ is_Some (at_classification t)) →
  at_operation t = id → at_number t = Z.of_nat (length (attempts_in id c)) + 1 →
  (op_plan o ≫= λ i, co_plans c !! i) = Some p → p_max_attempts p = Some n → at_number t ≤ n →
  at_id t ∉ at_id <$> co_attempts c →
  lifecycle_inv (Core (co_plans c) (alter (with_state Sending) id (co_ops c)) (co_attempts c ++ [t])
               (co_responses c) (co_accountings c) (co_classes c)).
Proof.
  intros Hi Ho Hk Hst Hto Hnum Hp Hmax Hle Hfresh.
  set (c' := Core _ _ _ _ _ _).
  assert (Hin : ∀ j, attempts_in j c' = attempts_in j c ++ (if decide (id = j) then [t] else [])).
  { intros j. unfold c'. rewrite attempts_in_snoc. by rewrite Hto. }
  assert (Hl : ∀ j x, co_ops c' !! j = Some x →
            ∃ y, co_ops c !! j = Some y ∧ op_plan x = op_plan y ∧ op_machine x = op_machine y
              ∧ op_cluster x = op_cluster y ∧ op_kind_of x = op_kind_of y
              ∧ (j = id ∧ op_st x = Sending ∨ j ≠ id ∧ x = y)).
  { intros j x. simpl. rewrite lookup_alter. case_decide; subst; [rewrite Ho | ]; naive_solver. }
  destruct Hi as [H1 H2 H3 H4 H5 H6 H7 H8 H9 H10]. split.
  - simpl. intros u [Hu|Hu%list_elem_of_singleton]%elem_of_app.
    + destruct (H1 u Hu) as (x & Hx & Hxk).
      destruct (decide (id = at_operation u)) as [Heq|Hne]; [|exists x; by rewrite lookup_alter_ne].
      exists (with_state Sending o). split; [|done]. by rewrite <- Heq, lookup_alter_eq, Ho.
    + subst u. rewrite Hto, lookup_alter_eq, Ho. simpl. eauto.
  - intros j x (y & Hy & _ & _ & _ & Hky & [[-> ->]|[Hne ->]])%Hl Hjk.
    + simpl. rewrite Hin, decide_True by done. by destruct (attempts_in id c).
    + apply (state_ok_mono _ _ c); [|done..|by apply H2]. rewrite Hin, decide_False by congruence.
      apply app_nil_r.
  - intros j. rewrite Hin, fmap_app, H3. case_decide; subst; [|by rewrite !app_nil_r].
    rewrite length_app, Nat2Z.inj_add. simpl. rewrite Hnum.
    rewrite seqZ_app by lia. f_equal. simpl. unfold seqZ. simpl. f_equal. lia.
  - intros j x q m (y & Hy & -> & _ & _ & Hky & Hcase)%Hl Hjk Hat Hq Hm. rewrite Hin in Hat |- *.
    case_decide; subst.
    + rewrite length_app, Nat2Z.inj_add. simpl in *. simplify_eq. lia.
    + rewrite app_nil_r in Hat |- *. eapply H4; eauto; congruence.
  - intros j x (y & Hy & -> & _ & _ & Hky & Hcase)%Hl Hjk Hat. rewrite Hin in Hat.
    case_decide; subst; [simpl; simplify_eq; eauto|].
    rewrite app_nil_r in Hat. eapply H5; eauto; congruence.
  - simpl. intros u [Hu|Hu%list_elem_of_singleton]%elem_of_app; [eauto|subst u].
    destruct Hst as [Hc|[_ ?]]; [left|by right].
    specialize (H2 _ _ Ho Hk). rewrite Hc in H2. simpl in H2. rewrite H2 in Hnum. done.
  - intros i j x y Hne (x' & Hx & _ & -> & -> & Hkx & Hcx)%Hl (y' & Hy & _ & -> & -> & Hky & Hcy)%Hl [? Hsx] [? Hsy].
    assert (Hso : holds_scope o) by (split; [done|]; by destruct Hst as [->|[-> _]]).
    eapply H7; eauto.
    + destruct Hcx as [[-> _]|[_ ->]]; [by simplify_eq | by split].
    + destruct Hcy as [[-> _]|[_ ->]]; [by simplify_eq | by split].
  - by apply NoDup_snoc_fmap.
  - done.
  - done.
Qed.

Lemma tables_inv c rs ks xs :
  lifecycle_inv c →
  (∀ r, r ∈ co_responses c → r ∈ rs) → (∀ k, k ∈ co_accountings c → k ∈ ks) →
  NoDup (r_attempt <$> rs) → NoDup (k_attempt <$> ks) →
  lifecycle_inv (Core (co_plans c) (co_ops c) (co_attempts c) rs ks xs).
Proof.
  intros [H1 H2 H3 H4 H5 H6 H7 H8 H9 H10] Hr Hk Hnr Hnk. split; simpl; auto.
  intros id o Ho Hko. apply (state_ok_mono _ _ c); [done| | |by apply H2].
  - intros x. unfold accounted_in. simpl. rewrite !list_elem_of_fmap. naive_solver.
  - unfold rejected_in. naive_solver.
Qed.

Lemma astep_inv c c' : astep c c' → lifecycle_inv c → lifecycle_inv c'.
Proof.
  intros Hstep Hi. destruct Hstep as
    [c id o Hn Hk Hs _ _ Hfree
    |c id o t p n Ho Hk Hst Hto Hnum _ _ _ Hp Hmax Hle Hfresh
    |c id o s' f Ho Hk Hal Hg Hf
    |c id o owner ep Ho Hk Hact
    |c r t Ht Hr Hfresh|c k t Ht Hk Hfresh|c x o Ho Hk|c ops' plans' Hsub Hsame _].
  - by apply create_inv.
  - by eapply attempt_inv.
  - apply (inv_move c id o f s'); try done; [by eapply allowed_active|..];
      try by (destruct (Hf o) as [[-> _]|(r & e & -> & _)]).
    eapply grounds_ok; [done|by eapply (inv_state _ Hi)|done|done].
  - by apply (inv_move c id o _ Unresolved).
  - apply tables_inv; try done; try by apply Hi.
    + intros. by apply elem_of_app; left.
    + apply NoDup_snoc_fmap; [apply Hi|done].
  - apply tables_inv; try done; try by apply Hi.
    + intros. by apply elem_of_app; left.
    + apply NoDup_snoc_fmap; [apply Hi|done].
  - apply tables_inv; try done; by apply Hi.
  - destruct Hi as [H1 H2 H3 H4 H5 H6 H7 H8 H9 H10]. split; simpl; auto.
    + intros t Ht. destruct (H1 t Ht) as (o & Ho & Hk). exists o. split; [by apply Hsame|done].
    + intros id o Ho Hk. apply Hsame in Ho; [|done]. by apply H2.
    + intros id o p n Ho Hk Hat Hp Hn. apply Hsame in Ho; [|done].
      destruct (H5 id o Ho Hk Hat) as [q Hq]. apply (H4 id o p n Ho Hk Hat); [|done].
      destruct (op_plan o) as [i|]; [|done]. simpl in *.
      assert (plans' !! i = Some q) by (by eapply lookup_weaken). congruence.
    + intros id o Ho Hk Hat. apply Hsame in Ho; [|done]. destruct (H5 id o Ho Hk Hat) as [q Hq].
      exists q. destruct (op_plan o) as [i|]; [|done]. simpl in *. by eapply lookup_weaken.
    + intros i j o o' Hne Ho Ho' Hs Hs'. apply Hsame in Ho; [|apply Hs]. apply Hsame in Ho'; [|apply Hs'].
      eauto.
Qed.

(** ** The schema's checks *)

Definition checks_inv (c : core) : Prop := map_Forall (λ _ o, checks_ok o) (co_ops c).

Lemma checks_alter id f c :
  (∀ o, co_ops c !! id = Some o → checks_ok o → checks_ok (f o)) →
  checks_inv c → map_Forall (λ _ o, checks_ok o) (alter f id (co_ops c)).
Proof.
  intros Hf Hc i o Hi. destruct (decide (id = i)) as [->|Hne].
  - rewrite lookup_alter_eq in Hi. destruct (co_ops c !! i) as [x|] eqn:Hx; [|done].
    injection Hi as <-. apply Hf; [done|]. by eapply Hc.
  - rewrite lookup_alter_ne in Hi by done. by eapply Hc.
Qed.

Lemma outcome_fits_active o : checks_ok o → op_kind_of o = KApplyConfig → active (op_st o) = true →
  op_result o = None ∧ op_error o = None.
Proof.
  intros (_ & _ & _ & H) Hk Ha. destruct (H Hk) as [_ [Hr He]].
  split; apply eq_None_not_Some; [rewrite Hr|rewrite He]; intros Hs;
    repeat match goal with H : _ ∨ _ |- _ => destruct H end; by destruct (op_st o).
Qed.

(** A move between the states of an apply-config operation keeps its checks. *)
Lemma checks_move o s' r e :
  checks_ok o → op_kind_of o = KApplyConfig → active s' || terminal s' = true →
  active (op_st o) = true → outcome_fits s' r e → checks_ok (with_outcome r e (with_state s' o)).
Proof.
  intros (Hks & Hown & Hgen & Hap) Hk Hs' Ha Hfit. destruct (Hap Hk) as [Hacto _].
  split; [|split; [|split]]; simpl; [by rewrite Hk|done|done|intros _; split; [by intros _; apply Hacto|done]].
Qed.

Lemma checks_move_state o s' :
  checks_ok o → op_kind_of o = KApplyConfig → active s' || terminal s' = true →
  active (op_st o) = true → outcome_fits s' None None → checks_ok (with_state s' o).
Proof.
  intros Hc Hk Hs' Ha Hfit. destruct (outcome_fits_active o Hc Hk Ha) as [Hr He].
  replace (with_state s' o) with (with_outcome None None (with_state s' o))
    by (unfold with_outcome, with_state; simpl; by rewrite Hr, He).
  by apply checks_move.
Qed.

Lemma allowed_target s s' : allowed s s' = true → active s' || terminal s' = true.
Proof. by destruct s, s'. Qed.

Lemma fits_none s : active s = true ∨ s = Cancelled → outcome_fits s None None.
Proof.
  intros Hs. split; split; [by intros [? [=]]|intros ->; by destruct Hs|by intros [? [=]]|].
  intros [-> | ->]; by destruct Hs.
Qed.

Lemma astep_checks c c' : astep c c' → checks_inv c → checks_inv c'.
Proof.
  intros Hstep Hi. destruct Hstep as
    [c id o Hn Hk Hs _ Hch _
    |c id o t p n Ho Hk Hst _ _ _ _ _ _ _ _ _
    |c id o s' f Ho Hk Hal _ Hf
    |c id o owner ep Ho Hk Hact
    |c r t _ _ _|c k t _ _ _|c x o _ _|c ops' plans' _ Hsame Hother]; unfold checks_inv; simpl; try done.
  - by apply map_Forall_insert_2.
  - apply checks_alter; [|done]. intros x Hx Hc. simplify_eq. apply checks_move_state; try done.
    + by destruct Hst as [->|[-> _]].
    + apply fits_none. by left.
  - apply checks_alter; [|done]. intros x Hx Hc. simplify_eq.
    pose proof (allowed_active _ _ Hal). pose proof (allowed_target _ _ Hal).
    destruct (Hf o) as [[-> ?]|(r & e & -> & ?)]; [by apply checks_move_state|by apply checks_move].
  - apply checks_alter; [|done]. intros x Hx Hc. simplify_eq. simpl.
    assert (Hu : checks_ok (with_state Unresolved (with_owner owner (op_gen o + 1) ep o))); [|done].
    destruct (outcome_fits_active o Hc Hk Hact) as [Hr He].
    destruct Hc as (_ & _ & Hgen & Hap). destruct (Hap Hk) as [Hown _]. specialize (Hown Hact).
    split; [|split; [|split]]; simpl; [by rewrite Hk|split; eauto|specialize (Hgen Hown); lia|].
    intros _. split; [eauto|]. rewrite Hr, He. apply fits_none. by left.
  - intros id o Ho. destruct (decide (op_kind_of o = KApplyConfig)) as [Hk|Hk].
    + apply Hsame in Ho; [|done]. by eapply Hi.
    + by eapply Hother.
Qed.
