(* ===== verification/Refinement.v ===== *)
(** * The transactions implement the lifecycle: every committed transaction is a run of the abstract
    machine of [Lifecycle], so its invariant holds of every reachable store. *)

From stdpp Require Import relations.
From S2P Require Import Prelude Store Evidence Commit Attempt Outcome Settle CommitSpec.
From S2P Require Import CommitSpec Lifecycle.

(** A transaction body whose success is a run of the abstract machine. *)
Definition simulated {A} (m : Tx A) : Prop :=
  ∀ d x d', m d = Ok (x, d') → rtc astep (core_of d) (core_of d').

(** Turns the success [H] of a body that keeps the core into the equality of its tables. *)
Ltac core_frame H :=
  match type of H with
  | ?m ?s = Ok (_, ?s') =>
      let E := fresh "E" in
      assert (E : core_of s' = core_of s) by
        (refine ((_ : keeps core_of m) _ _ _ H); solve_keeps);
      clear H
  end.

Lemma keeps_simulated {A} (m : Tx A) : keeps core_of m → simulated m.
Proof. intros Hk d x d' H. by rewrite (Hk _ _ _ H). Qed.

Lemma lockOperationAs_ok a op tk d l d' :
  lockOperationAs a op tk d = Ok (l, d') →
  d' = d ∧ ∃ o m p, ops d !! op = Some o ∧ op_kind_of o = KApplyConfig ∧ op_machine o = Some m ∧
    op_plan o = Some p ∧
    l = OperationLock op m p (op_st o) (op_owner o) (op_owner_epoch o) (op_gen o) (epoch d) ∧
    (epoch d = owner_epoch a ∨ tk && noProcessEpoch (opts a) = true).
Proof.
  unfold lockOperationAs, op_row. intros H. m_inv.
  split; [done|]. do 3 eexists. split_and!; eauto.
  - match goal with H : _ && negb (tk && _) = false |- _ =>
      apply andb_false_iff in H as [H%negb_false_iff|H%negb_false_iff] end;
      [left; by eapply bool_decide_eq_true|by right].
Qed.

Lemma core_of_move op f d : core_of (update_op op f d) = move_op op f (core_of d).
Proof. done. Qed.

(** The tables of a store whose core is known. *)
Lemma core_tables d d' : core_of d' = core_of d →
  plans d' = plans d ∧ ops d' = ops d ∧ attempts d' = attempts d ∧ responses d' = responses d
  ∧ accountings d' = accountings d ∧ classifications d' = classifications d.
Proof. intros [=]. done. Qed.

Ltac core_frames := repeat match goal with H : _ _ = Ok (_, _) |- _ => core_frame H end.

(** Rewrites the core of the stores reached with what is known of it. *)
Ltac cores := repeat match goal with
  | E : core_of ?x = _ |- context [core_of ?x] => rewrite E; clear E
  end.

(** The lock a body took, read off its success. *)
Ltac lock_inv o m p Ho Hk :=
  match goal with H : _ = Ok (_ : operationLock, _) |- _ =>
    unfold lockOperation in H;
    apply lockOperationAs_ok in H as (-> & o & m & p & Ho & Hk & _ & _ & -> & _); simpl in * end.

Definition classified (x : classification_row) (c : core) : core :=
  Core (co_plans c) (co_ops c) (co_attempts c) (co_responses c) (co_accountings c) (co_classes c ++ [x]).

Section Effects.
Variable tick : Z → Z.
Variable a : api.

Lemma moveOperation_core l to_ cause r f d l' d' :
  moveOperation tick a l to_ cause r f d = Ok (l', d') →
  l' = relock to_ l ∧ core_of d' = move_op (l_id l) (with_outcome r f ∘ with_state to_) (core_of d).
Proof. unfold moveOperation. intros H. m_inv. core_frames. by cores. Qed.

Lemma classify_core l out obs relied gen d rev d' :
  classify tick a l out obs relied gen d = Ok (rev, d') →
  core_of d' = classified (ClassificationRow (l_id l) (l_machine l) rev out obs (owner_id a) gen
                 (l_current l) relied) (core_of d).
Proof.
  unfold classify. intros H. m_inv. core_frames. apply core_tables in E. destruct_and!.
  unfold core_of, classified. simpl. congruence.
Qed.

Lemma classifyObserved_core l out obs rev gen d r d' :
  classifyObserved tick a l out obs rev gen d = Ok (r, d') →
  ∃ x, c_operation x = l_id l ∧ c_outcome x = out ∧ core_of d' = classified x (core_of d).
Proof.
  unfold classifyObserved. intros H. m_inv.
  match goal with H : classify _ _ _ _ _ _ _ _ = _ |- _ => apply classify_core in H end.
  eexists. split_and!; [..|eassumption]; done.
Qed.

(** A move the abstract machine makes. *)
Lemma move_step id o s' r f c :
  co_ops c !! id = Some o → op_kind_of o = KApplyConfig → allowed (op_st o) s' = true →
  grounds id s' c → outcome_fits s' r f → astep c (move_op id (with_outcome r f ∘ with_state s') c).
Proof. intros. eapply a_move; eauto. Qed.

Lemma state_step id o s' c :
  co_ops c !! id = Some o → op_kind_of o = KApplyConfig → allowed (op_st o) s' = true →
  grounds id s' c → active s' = true ∨ s' = Cancelled → astep c (move_op id (with_state s') c).
Proof. intros Ho Hk Hal Hg Hs. eapply a_move; eauto using fits_none. Qed.

Lemma classify_step x o c :
  co_ops c !! c_operation x = Some o → op_kind_of o = KApplyConfig → astep c (classified x c).
Proof. intros. by eapply a_classify. Qed.

Lemma classify_move_steps id o s' x r f c :
  co_ops c !! id = Some o → op_kind_of o = KApplyConfig → c_operation x = id →
  allowed (op_st o) s' = true → grounds id s' c → outcome_fits s' r f →
  rtc astep c (move_op id (with_outcome r f ∘ with_state s') (classified x c)).
Proof.
  intros Ho Hk Hx Hal Hg Hf. eapply rtc_l; [eapply classify_step; [by rewrite Hx|done]|].
  apply rtc_once. by eapply move_step.
Qed.

(** A move, and a move with its classification, by the code. *)
Lemma move_simulated l to_ cause r f d l' d' o :
  moveOperation tick a l to_ cause r f d = Ok (l', d') →
  ops d !! l_id l = Some o → op_kind_of o = KApplyConfig → allowed (op_st o) to_ = true →
  grounds (l_id l) to_ (core_of d) → outcome_fits to_ r f → rtc astep (core_of d) (core_of d').
Proof. intros [_ ->]%moveOperation_core ?????. apply rtc_once. by eapply move_step. Qed.

Lemma classify_move_simulated l out obs relied gen to_ cause r f d rev d1 l' d' o :
  classify tick a l out obs relied gen d = Ok (rev, d1) →
  moveOperation tick a l to_ cause r f d1 = Ok (l', d') →
  ops d !! l_id l = Some o → op_kind_of o = KApplyConfig → allowed (op_st o) to_ = true →
  grounds (l_id l) to_ (core_of d) → outcome_fits to_ r f → rtc astep (core_of d) (core_of d').
Proof.
  intros Hc [_ ->]%moveOperation_core ?????. apply classify_core in Hc. rewrite Hc.
  by eapply classify_move_steps.
Qed.
End Effects.

(** ** Reading the tables as the abstract machine does *)

Lemma existsb_bool {A} (f : A → bool) l : existsb f l = true ↔ ∃ x, x ∈ l ∧ f x = true.
Proof. rewrite List.existsb_exists. by setoid_rewrite list_elem_of_In. Qed.

Lemma existsb_key {A} (f : A → string) l k :
  existsb (λ x, bool_decide (f x = k)) l = true ↔ k ∈ f <$> l.
Proof.
  rewrite existsb_bool, list_elem_of_fmap. setoid_rewrite bool_decide_eq_true. naive_solver.
Qed.

Lemma existsb_key_false {A} (f : A → string) l k :
  existsb (λ x, bool_decide (f x = k)) l = false → k ∉ f <$> l.
Proof. intros H Hin%existsb_key. congruence. Qed.

Lemma accounted_for_in x d : accounted_for x d = true ↔ accounted_in x (core_of d).
Proof. apply existsb_key. Qed.

Lemma attempt_row_Some att d t : attempt_row att d = Some t → t ∈ attempts d ∧ at_id t = att.
Proof.
  unfold attempt_row. intros [Hin Ht]%List.find_some.
  split; [by apply list_elem_of_In|by eapply bool_decide_eq_true].
Qed.

Lemma attempt_row_None att d : attempt_row att d = None → att ∉ at_id <$> attempts d.
Proof.
  unfold attempt_row. intros Hn (t & -> & Ht)%list_elem_of_fmap.
  apply list_elem_of_In, (List.find_none _ _ Hn) in Ht. by rewrite bool_decide_true in Ht.
Qed.

Lemma attempts_of_in op t d : t ∈ attempts d → at_operation t = op → t ∈ attempts_in op (core_of d).
Proof. intros. by apply list_elem_of_filter. Qed.

Lemma all_rejected_in op d : all_rejected op d = true →
  Forall (λ t, rejected_in (at_id t) (core_of d)) (attempts_in op (core_of d)).
Proof.
  unfold all_rejected. intros Ha. rewrite List.forallb_forall in Ha. apply Forall_forall.
  intros t Ht. specialize (Ha t). rewrite <- list_elem_of_In in Ha. specialize (Ha Ht).
  unfold responded_with in Ha. apply existsb_bool in Ha as (r & Hr & Hb).
  apply andb_true_iff in Hb as [H1%bool_decide_eq_true H2%bool_decide_eq_true]. by exists r.
Qed.

Lemma unaccounted_nil op d : unaccounted op d = [] →
  Forall (λ t, accounted_in (at_id t) (core_of d)) (attempts_in op (core_of d)).
Proof.
  unfold unaccounted. intros Hn. apply Forall_forall. intros t Ht.
  destruct (accounted_for (at_id t) d) eqn:Ha; [by apply accounted_for_in|].
  assert (Hin : t ∈ filter (λ t, accounted_for (at_id t) d = false) (attempts_of op d))
    by (by apply list_elem_of_filter).
  rewrite Hn in Hin. by apply not_elem_of_nil in Hin.
Qed.

Lemma response_move_allowed s latest rej c s' cause :
  response_move s latest rej c = Some (s', cause) →
  allowed s s' = true ∧ (s' = Verifying ∨ s' = Unresolved ∨ (s' = Rejected ∧ rej = true)).
Proof.
  unfold response_move. destruct s, latest, rej, c; simpl; intros [=]; subst; naive_solver.
Qed.

(** The outcomes the moves record. *)
Lemma fits_error e : outcome_fits Rejected None (Some e).
Proof. split; [by split; [intros [? [=]]|]|]. split; [by left|eauto]. Qed.
Lemma fits_failed e : outcome_fits Failed None (Some e).
Proof. split; [by split; [intros [? [=]]|]|]. split; [by right|eauto]. Qed.
Lemma fits_result r : outcome_fits Completed (Some r) None.
Proof. split; [split; eauto|]. split; [by intros [? [=]]|]. by intros [?|?]. Qed.

(** Rewrites the goal's tables along the frames in context. *)
Ltac table_rw := unfold core_of; simpl; repeat match goal with
  | H : plans ?x = _ |- context [plans ?x] => rewrite H
  | H : ops ?x = _ |- context [ops ?x] => rewrite H
  | H : attempts ?x = _ |- context [attempts ?x] => rewrite H
  | H : responses ?x = _ |- context [responses ?x] => rewrite H
  | H : accountings ?x = _ |- context [accountings ?x] => rewrite H
  | H : classifications ?x = _ |- context [classifications ?x] => rewrite H
  end.

Section Simulation.
Variable tick : Z → Z.
Variable a : api.

Lemma takeOverTx_simulated op gen reason : simulated (takeOverTx tick a op gen reason).
Proof.
  intros d g d' H. unfold takeOverTx in H. m_inv. lock_inv o m p Ho Hk. core_frames.
  cores. rewrite core_of_move. apply rtc_once.
  assert (gen = op_gen o) as -> by (by destruct (Z.eqb_spec (op_gen o) gen)).
  apply a_takeover; [done|done|]. by destruct (active (op_st o)).
Qed.

(** A response is recorded, then accounts for its attempt unless a decision did. *)
Lemma response_record_core l t resp d b d' :
  response_record tick a l t resp d = Ok (b, d') → t ∈ attempts d →
  at_id t ∉ r_attempt <$> responses d →
  rtc astep (core_of d) (core_of d') ∧ ops d' = ops d ∧ attempts d' = attempts d
  ∧ (∀ x, rejected_in x (core_of d) → rejected_in x (core_of d')).
Proof.
  unfold response_record. intros H Ht Hfresh. m_inv.
  match goal with H : appendEntry _ _ _ _ = _ |- _ => core_frame H end.
  apply core_tables in E as (Ep & Eo & Ea & Er & Ek & Ec).
  match goal with H : _ (set_responses ?x ?s) = Ok _ |- _ => remember (set_responses x s) as d1 eqn:Ed1 end.
  assert (Hd1 : astep (core_of d) (core_of d1) ∧ ops d1 = ops d ∧ attempts d1 = attempts d
                ∧ ∀ x, rejected_in x (core_of d) → rejected_in x (core_of d1)).
  { subst d1. split_and!; [|done..|].
    - unfold core_of. simpl. rewrite Ep, Eo, Ea, Er, Ek, Ec. by apply (a_respond (core_of d) _ t).
    - intros x (r & Hr & ? & ?). exists r. split; [|done]. simpl. rewrite Er.
      by apply elem_of_app; left. }
  clear Ed1. destruct Hd1 as (Hs1 & Ho1 & Ha1 & Hr1).
  destruct (Accounts resp); [|by m_inv; eauto using rtc_once]. m_inv.
  destruct (accounted_for (at_id t) _) eqn:Hacc; m_inv; [by eauto using rtc_once|].
  core_frames. apply core_tables in E as (Fp & Fo & Fa & Fr & Fk & Fc). simpl.
  split_and!; [|congruence..|intros x (r & ? & ? & ?)%Hr1; exists r; simpl in *; by rewrite Fr].
  eapply rtc_l; [exact Hs1|]. apply rtc_once. unfold core_of at 2. simpl. rewrite Fp, Fo, Fa, Fr, Fk, Fc.
  eapply (a_account (core_of _) _ t); [by simpl; rewrite Ha1|done|].
  intros Hc%accounted_for_in. simpl in Hc. congruence.
Qed.

(** A state move by the response. *)
Lemma recordResponseTx_simulated att resp : simulated (recordResponseTx tick a att resp).
Proof.
  intros d g d' H. unfold recordResponseTx in H. m_inv. lock_inv o m p Ho Hk.
  match goal with H : attempt_row _ _ = Some _ |- _ => apply attempt_row_Some in H as [Ht Hid] end.
  match goal with H : response_record _ _ _ _ _ _ = _ |- _ => apply response_record_core in H as (Hsim & Hops & Hats & _) end;
    [|done|subst; by apply existsb_key_false].
  etrans; [exact Hsim|]. clear Hsim.
  destruct (response_move _ _ _ _) as [[to_ cause]|] eqn:Hmv; [|by m_inv].
  apply response_move_allowed in Hmv as [Hal Hcase].
  rewrite <- Hops in Ho. rewrite <- Hats in Ht.
  assert (Hne : attempts_in (at_operation a0) (core_of s0) ≠ []).
  { intros Hn. eapply (not_elem_of_nil a0). rewrite <- Hn. by apply attempts_of_in. }
  destruct Hcase as [->|[->|[-> Hrej]]]; m_inv;
    [by eapply move_simulated; try done; apply fits_none; left..|].
  eapply classify_move_simulated; try done; [split; [done|by apply all_rejected_in]|apply fits_error].
Qed.

Lemma settle_move_core machine op current gen from to_ comparison cause d u d' :
  settle_move tick a machine op current gen from to_ comparison cause d = Ok (u, d') →
  core_of d' = move_op op (with_state to_) (core_of d).
Proof. unfold settle_move. intros H. m_inv. core_frames. by cores. Qed.

Lemma settle_dead_simulated machine plan op current gen t d u d' o :
  settle_dead tick a machine plan op current gen t d = Ok (u, d') →
  ops d !! op = Some o → op_kind_of o = KApplyConfig → op_st o = Unresolved →
  rtc astep (core_of d) (core_of d').
Proof.
  unfold settle_dead. intros H Ho Hk Hst. m_inv.
  destruct (negb _) eqn:Hnone; [by m_inv|]. m_inv. case_bool_decide; [by m_inv|].
  apply settle_move_core in H0 as ->. apply rtc_once. eapply state_step; eauto. by rewrite Hst.
Qed.

Lemma settleAttemptRefusal_simulated machine plan op gen comparison cause obs d u d' :
  settleAttemptRefusal tick a machine plan op gen comparison cause obs d = Ok (u, d') →
  (∀ o, ops d !! op = Some o → active (op_st o) = true → op_kind_of o = KApplyConfig) →
  rtc astep (core_of d) (core_of d').
Proof.
  unfold settleAttemptRefusal. intros H Hkind. m_inv.
  assert (Hown : s = d ∧ (a1 = None ∨ ∃ o b, ops d !! op = Some o ∧ a1 = Some (b, op_st o))).
  { destruct (bool_decide (comparison ∈ _)); unfold op_row in *; m_inv; eauto 10. }
  destruct Hown as [-> [->|(o & b & Ho & ->)]]; [by m_inv; core_frames; cores|].
  specialize (Hkind o Ho).
  match goal with H : append_event _ _ _ _ _ = _ |- _ => core_frame H end.
  rewrite <- E. apply core_tables in E as (_ & Eo & _). rewrite <- Eo in Ho. clear Eo.
  destruct b; [|by m_inv]. destruct (op_st o) eqn:Hst; try (by m_inv); specialize (Hkind eq_refl).
  - rewrite bool_decide_true in H3 by done. m_inv.
    match goal with H : settle_move _ _ _ _ _ _ _ _ _ _ _ = _ |- _ => apply settle_move_core in H as Hm end.
    assert (Ho1 : ops s !! op = Some (with_state Unresolved o)).
    { apply (f_equal co_ops) in Hm. simpl in Hm. by rewrite Hm, lookup_alter_eq, Ho. }
    eapply rtc_l; [|by eapply settle_dead_simulated]. rewrite Hm.
    eapply state_step; eauto; [by rewrite Hst|done].
  - rewrite bool_decide_false in H3 by done. m_inv. by eapply settle_dead_simulated.
Qed.

Lemma superseded_ok d : opts a = production → superseded a (epoch d) = false → epoch d = owner_epoch a.
Proof. unfold superseded. intros ->. simpl. rewrite andb_true_r. by intros ?%unless_ok. Qed.

Lemma retry_latest op gen d :
  retry_classified op (owner_id a) gen (owner_epoch a) d = true → is_Some (latest_classification op d).
Proof.
  unfold retry_classified, latest_classification. intros (c & Hc & _)%existsb_bool.
  destruct (max_by _ _) eqn:Hm; [eauto|]. apply max_by_None in Hm. rewrite Hm in Hc.
  by apply not_elem_of_nil in Hc.
Qed.

Lemma recordAttemptTx_simulated op att gen :
  opts a = production → simulated (recordAttemptTx tick a op att gen).
Proof.
  intros Hprod d t d' H. apply recordAttemptTx_ok in H as (o & x & Hadm & -> & ->); [|done].
  destruct Hadm, adm_reads as (Hsup & _ & _ & Ho & Hk & Hpl & Hp & _).
  destruct adm_owner as (? & ? & ?), adm_bound as (n & ? & ?). apply superseded_ok in Hsup; [|done].
  apply rtc_once. eapply a_attempt; simpl; try done.
  - destruct adm_state as [?|[? Hr%retry_latest]]; [by left|right]. split; [done|].
    rewrite adm_cls. by apply fmap_is_Some.
  - by rewrite Hsup.
  - rewrite Hpl. exact Hp.
  - simpl in *. change (attempts_of op d) with (attempts_in op (core_of d)) in *. lia.
  - by apply attempt_row_None.
Qed.

Lemma commitTx_simulated plan op : opts a = production → simulated (commitTx tick a plan op).
Proof.
  intros Hprod d t d' H. apply commitTx_ok in H as (x & Hadm & -> & ->); [|done]. destruct Hadm.
  apply rtc_once. apply (a_create (core_of d)); try done.
  { split; [done|]. split; [by split; eauto|]. split; [done|]. intros _. split; [by eauto|]. apply fits_none. by left. }
  intros i o' Hi Hh. simpl.
  apply bool_decide_eq_false in com_machine, com_cluster.
  split; intros Heq; [apply com_machine|apply com_cluster]; exists i, o'; eauto.
Qed.

Lemma settled_reads m deadline anchor start end_ expl : keeps id (settled a m deadline anchor start end_ expl).
Proof. unfold settled. solve_keeps. Qed.

Lemma accountByDecision_simulated att by_ act start end_ expl :
  simulated (accountByDecision tick a att by_ act start end_ expl).
Proof.
  intros d r d' H. unfold accountByDecision in H. m_inv. lock_inv o m p Ho Hk.
  match goal with H : attempt_row _ _ = Some _ |- _ => apply attempt_row_Some in H as [Ht Hid] end.
  match goal with H : settled _ _ _ _ _ _ _ _ = _ |- _ => apply settled_reads in H; simpl in H; subst end.
  destruct a4 as [facts|]; m_inv. core_frames. apply core_tables in E as (Fp & Fo & Fa & Fr & Fk & Fc).
  apply rtc_once. unfold core_of at 2. simpl. rewrite Fp, Fo, Fa, Fr, Fk, Fc.
  eapply (a_account (core_of _) _ a0); [done|done|].
  intros Hc%accounted_for_in. simpl in Hc. congruence.
Qed.

(** ** The completion observation's decision *)

(** The operation a lock was read from. *)
Definition locked (l : operationLock) (d : Db) : Prop :=
  ∃ o, ops d !! l_id l = Some o ∧ op_kind_of o = KApplyConfig ∧ op_st o = l_state l.

Lemma locked_core l d d' : core_of d' = core_of d → locked l d → locked l d'.
Proof. intros (_ & Ho & _)%core_tables. unfold locked. by rewrite Ho. Qed.

Lemma classifyObserved_move l out obs rev gen to_ cause r f d x d1 l' d' :
  classifyObserved tick a l out obs rev gen d = Ok (x, d1) →
  moveOperation tick a l to_ cause r f d1 = Ok (l', d') →
  locked l d → allowed (l_state l) to_ = true → grounds (l_id l) to_ (core_of d) →
  outcome_fits to_ r f → rtc astep (core_of d) (core_of d').
Proof.
  unfold classifyObserved. intros Hc Hm (o & Ho & Hk & Hst) Hal Hg Hf. m_inv.
  eapply classify_move_simulated; eauto. by rewrite Hst.
Qed.

Lemma complete_simulated l obs rev gen d x d' :
  complete tick a l obs rev gen d = Ok (x, d') → locked l d →
  allowed (l_state l) Completed = true → grounds (l_id l) Completed (core_of d) →
  rtc astep (core_of d) (core_of d').
Proof.
  unfold complete, plan_row, mstate_row. intros H Hl Hal Hg. m_inv.
  etrans; [eapply classifyObserved_move; [done..|apply fits_result]|].
  match goal with H : _ _ = Ok (_, d') |- _ => core_frame H end.
  match goal with H : appendEntry _ _ _ _ = _ |- _ => core_frame H end.
  rewrite E, E0. done.
Qed.

Lemma fail_simulated l obs rev gen n d x d' :
  fail_operation tick a l obs rev gen n d = Ok (x, d') → locked l d →
  allowed (l_state l) Failed = true → grounds (l_id l) Failed (core_of d) →
  rtc astep (core_of d) (core_of d').
Proof.
  unfold fail_operation. intros H Hl Hal Hg. m_inv.
  etrans; [eapply classifyObserved_move; [done..|apply fits_failed]|].
  match goal with H : applyDrift _ _ _ _ _ _ = _ |- _ => core_frame H end. by rewrite E.
Qed.

Lemma unresolve_simulated l cause d l' d' :
  moveOperation tick a l Unresolved cause None None d = Ok (l', d') → locked l d →
  l_state l = Verifying → rtc astep (core_of d) (core_of d').
Proof. intros Hm (o & Ho & Hk & Hst) Hv. eapply move_simulated; eauto; [by rewrite Hst, Hv|done|].
  apply fits_none. by left. Qed.

Lemma safeToRetry_keeps l n s : keeps core_of (safeToRetry tick l n s).
Proof. unfold safeToRetry. solve_keeps. Qed.

Lemma settle_neither_simulated l s deadline d x d' :
  settle_neither tick a l s deadline d = Ok (x, d') → locked l d →
  rtc astep (core_of d) (core_of d').
Proof.
  unfold settle_neither. intros H Hl. case_bool_decide; simpl in H; [|by m_inv].
  destruct (match deadline with Some t => t <? sh_at s | None => false end); m_inv; [|done].
  by eapply unresolve_simulated.
Qed.

Lemma settle_contradicted_simulated l obs gen n s d x d' :
  settle_contradicted tick a l obs gen n s d = Ok (x, d') → locked l d →
  n = Z.of_nat (length (attempts_of (l_id l) d)) →
  Forall (λ t, accounted_in (at_id t) (core_of d)) (attempts_in (l_id l) (core_of d)) →
  (l_state l = Verifying ∨ l_state l = Unresolved) →
  rtc astep (core_of d) (core_of d').
Proof.
  unfold settle_contradicted. intros H Hl -> Hacc Hst. m_inv.
  match goal with H : safeToRetry _ _ _ _ _ = _ |- _ => apply safeToRetry_keeps in H as Hc end.
  rewrite <- Hc in *. assert (Hl' : locked l s0) by (by eapply locked_core).
  destruct a0 as [why|]; m_inv.
  - apply if_ok in H1 as [[_ H1]|[Hn H1]]; [by m_inv|].
    apply orb_false_iff in Hn as [Hn%bool_decide_eq_false _].
    eapply fail_simulated; [done..|by destruct Hst as [->| ->]|]. split; [|done].
    intros Hnil. apply Hn. apply core_tables in Hc as (_&_&Ha&_).
    unfold attempts_in in Hnil. simpl in Hnil. unfold attempts_of. by rewrite <- Ha, Hnil.
  - destruct (bool_decide (l_state l = Verifying)) eqn:Hv; m_inv.
    + apply bool_decide_eq_true in Hv. eapply classifyObserved_move; eauto; [by rewrite Hv|done|]. apply fits_none. by left.
    + destruct Hl' as (o & Ho & Hk & _).
      match goal with H : classifyObserved _ _ _ _ _ _ _ _ = _ |- _ => apply classifyObserved_core in H as (y & Hy & _ & ->) end.
      apply rtc_once. eapply classify_step; [by rewrite Hy|done].
Qed.

Lemma settleOperationTx_simulated op gen obs : simulated (settleOperationTx tick a op gen obs).
Proof.
  intros d x d' H. unfold settleOperationTx in H. m_inv. lock_inv o m p Ho Hk.
  assert (Hl : locked (OperationLock op m p (op_st o) (op_owner o) (op_owner_epoch o) (op_gen o) (epoch d)) d)
    by (exists o; eauto).
  match goal with H : negb _ && negb _ = false |- _ => apply andb_false_iff in H;
    rewrite !unless_ok in H; rename H into Hst end.
  destruct (negb (bool_decide (unaccounted op d = []))) eqn:Hun; m_inv.
  - case_bool_decide; m_inv; [by eapply unresolve_simulated|done].
  - apply unaccounted_nil in Hun. case_match; [by m_inv|].
    if_inv.
    { apply andb_true_iff in Hb as [_ Hn%Z.ltb_lt]. eapply complete_simulated; eauto.
      - simpl. by destruct Hst as [->| ->].
      - split; [|done]. intros Hnil. change (attempts_of op d = []) in Hnil. by rewrite Hnil in Hn. }
    if_inv; [by eapply settle_neither_simulated|]. by eapply settle_contradicted_simulated.
Qed.
End Simulation.
