(* ===== verification/System.v ===== *)
(** * The system: any number of processes running the core's transactions against one store, among
    steps of everything else, and what holds of every store they reach. *)

From stdpp Require Import relations.
From S2P Require Import Prelude Store Evidence Commit Attempt Outcome Settle CommitSpec.
From S2P Require Import CommitSpec Lifecycle Refinement.

Section System.
(** The database's clock: what it tells after an instant. *)
Variable tick : Z → Z.

(** What the rest of the program may do between two transactions of the core: anything that keeps
    the apply-config operations, their attempts, responses, accountings and classifications, and
    the plans there are.  Epochs, approvals, revocations, machines, timelines, observations and
    drift change freely. *)
Definition env (d d' : Db) : Prop :=
  plans d ⊆ plans d' ∧
  (∀ id o, op_kind_of o = KApplyConfig → ops d !! id = Some o ↔ ops d' !! id = Some o) ∧
  (∀ id o, ops d' !! id = Some o → op_kind_of o ≠ KApplyConfig → checks_ok o) ∧
  attempts d' = attempts d ∧ responses d' = responses d ∧ accountings d' = accountings d ∧
  classifications d' = classifications d.

(** One committed transaction of a process with production options, or a step of the rest. *)
Inductive step : Db → Db → Prop :=
| s_commit a plan op d r d' :
    opts a = production → commitTx tick a plan op d = Ok (r, d') → step d d'
| s_refusal a machine plan cmp cause obs already once drift d u d' :
    recordRefusalEntry tick a machine plan cmp cause obs already once drift d = Ok (u, d') → step d d'
| s_attempt a op att gen d r d' :
    opts a = production → recordAttemptTx tick a op att gen d = Ok (r, d') → step d d'
| s_attempt_refusal a machine plan op gen cmp cause obs d u d' :
    (∀ o, ops d !! op = Some o → active (op_st o) = true → op_kind_of o = KApplyConfig) →
    settleAttemptRefusal tick a machine plan op gen cmp cause obs d = Ok (u, d') → step d d'
| s_takeover a op gen reason d r d' : takeOverTx tick a op gen reason d = Ok (r, d') → step d d'
| s_respond a att resp d r d' : recordResponseTx tick a att resp d = Ok (r, d') → step d d'
| s_account a att by_ act start end_ expl d r d' :
    accountByDecision tick a att by_ act start end_ expl d = Ok (r, d') → step d d'
| s_settle a op gen obs d r d' : settleOperationTx tick a op gen obs d = Ok (r, d') → step d d'
| s_env d d' : env d d' → step d d'.

Lemma recordRefusalEntry_keeps a machine plan cmp cause obs already once drift :
  keeps core_of (recordRefusalEntry tick a machine plan cmp cause obs already once drift).
Proof. unfold recordRefusalEntry. solve_keeps. Qed.

Lemma simulated_run {A} (m : Tx A) d x d' :
  m d = Ok (x, d') → simulated m → rtc astep (core_of d) (core_of d').
Proof. intros H Hm. by eapply Hm. Qed.

(** The refinement: every step of the system is a run of the abstract machine. *)
Lemma step_simulated d d' : step d d' → rtc astep (core_of d) (core_of d').
Proof.
  intros H. inversion H; subst; clear H.
  - eapply simulated_run; [done|by apply commitTx_simulated].
  - eapply simulated_run; [done|apply keeps_simulated, recordRefusalEntry_keeps].
  - eapply simulated_run; [done|by apply recordAttemptTx_simulated].
  - by eapply settleAttemptRefusal_simulated.
  - eapply simulated_run; [done|apply takeOverTx_simulated].
  - eapply simulated_run; [done|apply recordResponseTx_simulated].
  - eapply simulated_run; [done|apply accountByDecision_simulated].
  - eapply simulated_run; [done|apply settleOperationTx_simulated].
  - match goal with H : env _ _ |- _ => destruct H as (Hp & Ho & Hch & Ha & Hr & Hk & Hc) end.
    apply rtc_once. unfold core_of at 2. rewrite Ha, Hr, Hk, Hc. by apply (a_other (core_of d)).
Qed.

Lemma steps_simulated d d' : rtc step d d' → rtc astep (core_of d) (core_of d').
Proof. induction 1 as [|x y z Hxy _ IH]; [done|]. etrans; [by apply step_simulated|done]. Qed.

Lemma asteps_inv c c' : rtc astep c c' → lifecycle_inv c → lifecycle_inv c'.
Proof. induction 1; eauto using astep_inv. Qed.

Lemma steps_inv d d' : rtc step d d' → lifecycle_inv (core_of d) → lifecycle_inv (core_of d').
Proof. intros H%steps_simulated. by apply asteps_inv. Qed.

Lemma asteps_checks c c' : rtc astep c c' → checks_inv c → checks_inv c'.
Proof. induction 1; eauto using astep_checks. Qed.

Lemma steps_checks d d' : rtc step d d' → checks_inv (core_of d) → checks_inv (core_of d').
Proof. intros H%steps_simulated. by apply asteps_checks. Qed.

(** ** What never goes back *)

(** An operation's later rows: its owner generation grows, and with it only the owner changes; a
    terminal state is kept with everything else. *)
Definition later (o o' : operation) : Prop :=
  op_kind_of o' = op_kind_of o ∧ op_plan o' = op_plan o ∧ op_machine o' = op_machine o
  ∧ op_cluster o' = op_cluster o ∧ op_gen o ≤ op_gen o'
  ∧ (op_gen o' = op_gen o → op_owner o' = op_owner o ∧ op_owner_epoch o' = op_owner_epoch o)
  ∧ (terminal (op_st o) = true → o' = o).

#[export] Instance later_preorder : PreOrder later.
Proof.
  split; [by intros o; split_and!|]. intros x y z (?&?&?&?&?&Hg1&Hx) (?&?&?&?&?&Hg2&Hy).
  split_and!; try congruence; [lia| |].
  - intros Hz. destruct Hg1, Hg2; [lia..|]. split; congruence.
  - intros Ht. specialize (Hx Ht). subst y. by apply Hy.
Qed.

Lemma astep_later c c' id o :
  astep c c' → co_ops c !! id = Some o → op_kind_of o = KApplyConfig →
  ∃ o', co_ops c' !! id = Some o' ∧ later o o'.
Proof.
  intros Hs Ho Hk.
  assert (Halter : ∀ f j, (j = id → later o (f o)) →
    ∃ o', alter f j (co_ops c) !! id = Some o' ∧ later o o').
  { intros f j Hf. destruct (decide (j = id)) as [->|Hne].
    - exists (f o). by rewrite lookup_alter_eq, Ho; auto.
    - exists o. by rewrite lookup_alter_ne. }
  destruct Hs as
    [c i x Hn|c i x t p n Hx _ Hst|c i x s' f Hx _ Hal _ Hf|c i x owner ep Hx _ Hact
    |c r t|c k t|c x y|c ops' plans' _ Hsame _]; simpl; try (by exists o).
  - exists o. split; [|done]. rewrite lookup_insert_ne; [done|]. intros ->. congruence.
  - apply Halter. intros ->. assert (x = o) as -> by congruence. unfold later. simpl. split_and!; try done.
    by destruct Hst as [->|[-> _]].
  - apply Halter. intros ->. assert (x = o) as -> by congruence. apply allowed_active in Hal.
    destruct (Hf o) as [[-> _]|(r & e & -> & _)]; unfold later; simpl; split_and!; try done; by destruct (op_st o).
  - apply Halter. intros ->. assert (x = o) as -> by congruence. unfold later. simpl. split_and!; try done; [lia|lia|].
    by destruct (op_st o).
  - exists o. split; [by apply Hsame|done].
Qed.

Lemma asteps_later c c' id o :
  rtc astep c c' → co_ops c !! id = Some o → op_kind_of o = KApplyConfig →
  ∃ o', co_ops c' !! id = Some o' ∧ later o o'.
Proof.
  intros H. revert o. induction H as [|x y z Hxy _ IH]; intros o Ho Hk; [by exists o|].
  destruct (astep_later _ _ _ _ Hxy Ho Hk) as (o1 & Ho1 & Hl1).
  destruct (IH o1 Ho1) as (o2 & Ho2 & Hl2); [by rewrite (proj1 Hl1)|].
  exists o2. split; [done|]. by etrans.
Qed.

Lemma steps_later d d' id o :
  rtc step d d' → ops d !! id = Some o → op_kind_of o = KApplyConfig →
  ∃ o', ops d' !! id = Some o' ∧ later o o'.
Proof. intros H%steps_simulated. by apply (asteps_later (core_of d) (core_of d')). Qed.

(** The tables of what was sent and answered only grow. *)
Lemma astep_tables c c' :
  astep c c' → co_attempts c `prefix_of` co_attempts c' ∧ co_responses c `prefix_of` co_responses c'
    ∧ co_accountings c `prefix_of` co_accountings c' ∧ co_classes c `prefix_of` co_classes c'.
Proof. destruct 1; simpl; split_and!; try done; by eexists. Qed.

Lemma steps_tables d d' :
  rtc step d d' → attempts d `prefix_of` attempts d' ∧ responses d `prefix_of` responses d'
    ∧ accountings d `prefix_of` accountings d' ∧ classifications d `prefix_of` classifications d'.
Proof.
  intros H%steps_simulated. change (attempts d) with (co_attempts (core_of d)).
  change (attempts d') with (co_attempts (core_of d')).
  change (responses d) with (co_responses (core_of d)). change (responses d') with (co_responses (core_of d')).
  change (accountings d) with (co_accountings (core_of d)).
  change (accountings d') with (co_accountings (core_of d')).
  change (classifications d) with (co_classes (core_of d)).
  change (classifications d') with (co_classes (core_of d')).
  induction H as [|x y z Hxy _ IH]; [by split_and!|]. apply astep_tables in Hxy as (?&?&?&?).
  destruct IH as (?&?&?&?). split_and!; by etrans.
Qed.

(** ** Reachable stores *)

(** A store before any apply-config operation; the others' rows satisfy their checks. *)
Definition initial (d : Db) : Prop :=
  attempts d = [] ∧ responses d = [] ∧ accountings d = [] ∧ classifications d = [] ∧
  map_Forall (λ _ o, op_kind_of o ≠ KApplyConfig ∧ checks_ok o) (ops d).
Definition reachable (d : Db) : Prop := ∃ d0, initial d0 ∧ rtc step d0 d.

Lemma initial_inv d : initial d → lifecycle_inv (core_of d).
Proof.
  intros (Ha & Hr & Hk & Hc & Ho). unfold core_of. rewrite Ha, Hr, Hk, Hc.
  assert (Hn : ∀ id o, ops d !! id = Some o → op_kind_of o ≠ KApplyConfig) by (intros id o H; by apply (Ho id o)).
  split; simpl.
  - intros t Ht. by apply elem_of_nil in Ht.
  - intros id o H Hk'. by destruct (Hn id o H).
  - done.
  - intros id o p n _ _ []. done.
  - intros id o _ _ []. done.
  - intros t Ht. by apply elem_of_nil in Ht.
  - intros i j o o' _ H _ [Hk' _] _. by destruct (Hn i o H).
  - constructor.
  - constructor.
  - constructor.
Qed.
Lemma initial_checks d : initial d → checks_inv (core_of d).
Proof. intros (_ & _ & _ & _ & Ho) id o H. by apply (Ho id o). Qed.

Lemma reachable_inv d : reachable d → lifecycle_inv (core_of d).
Proof. intros (d0 & Hi & Hs). eapply steps_inv; [done|by apply initial_inv]. Qed.
Lemma reachable_checks d : reachable d → checks_inv (core_of d).
Proof. intros (d0 & Hi & Hs). eapply steps_checks; [done|by apply initial_checks]. Qed.
Lemma reachable_steps d d' : reachable d → rtc step d d' → reachable d'.
Proof. intros (d0 & Hi & Hs) H. exists d0. split; [done|by etrans]. Qed.
End System.
