(* ===== verification/Sending.v ===== *)
(** * The executor's runs: every store a pass reaches is reached by the system's steps, and nothing is
    sent that was not recorded first. *)

From stdpp Require Import relations.
From S2P Require Import Prelude Store World Evidence Commit Attempt Outcome Settle Observe.
From S2P Require Import Executor CommitSpec Lifecycle Refinement System.

(** The recorded attempt a request is of. *)
Definition request_of (t : attempt) (q : request) : Prop :=
  q_attempt q = at_id t ∧ q_route q = at_route t ∧ q_deadline q = at_transport t.

(** Every request sent is of a recorded attempt, and no attempt was sent twice. *)
Definition sent_ok (w : world) : Prop :=
  (∀ q, q ∈ w_sent w → ∃ t, t ∈ attempts (w_db w) ∧ request_of t q)
  ∧ NoDup (q_attempt <$> w_sent w).

Section Sending.
Variable others : nat → Db → Db.
Variable fresh_id : nat → string.
Variable tick ptick : Z → Z.
Variable a : api.
Variable artifact_key : string.
Variable lease : Z.

(** The process runs with production options, and the others by the system's steps. *)
Hypothesis Hprod : opts a = production.
Hypothesis Hothers : ∀ n d, rtc (step tick) d (others n d).

Definition good (d : Db) : Prop := checks_inv (core_of d).

(** What a run of a procedure keeps. *)
Definition runs (w w' : world) : Prop :=
  good (w_db w) → rtc (step tick) (w_db w) (w_db w') ∧ good (w_db w') ∧ (sent_ok w → sent_ok w').

#[export] Instance runs_preorder : PreOrder runs.
Proof.
  split; [by intros w ?|]. intros x y z Hxy Hyz Hx. destruct (Hxy Hx) as (? & Hy & ?).
  destruct (Hyz Hy) as (? & ? & ?). split; [by etrans|]. split; [done|]. auto.
Qed.

(** Steps that send nothing keep what was sent recorded. *)
Lemma runs_db w d w' :
  rtc (step tick) (w_db w) d → w_db w' = d → w_sent w' = w_sent w → runs w w'.
Proof.
  intros Hs <- Hsent Hg. split; [done|]. split; [by eapply steps_checks|].
  intros [Hq Hnd]. split; [|by rewrite Hsent]. intros q Hin. rewrite Hsent in Hin.
  destruct (Hq q Hin) as (t & Ht & ?). exists t. split; [|done].
  apply steps_tables in Hs as ([l Hl] & _). rewrite Hl. apply elem_of_app. by left.
Qed.

(** A transaction body whose success is a step. *)
Definition steps_by {A} (m : Tx A) : Prop := ∀ d x d', good d → m d = Ok (x, d') → rtc (step tick) d d'.

Lemma keeps_steps {A} (m : Tx A) : keeps core_of m → steps_by m.
Proof.
  intros Hk d x d' Hg H. apply rtc_once, s_env. apply Hk in H as (Hp & Ho & Ha & Hr & Hac & Hc)%core_tables.
  unfold env. rewrite Hp, Ho. split_and!; try done. intros id o Hid _. by eapply Hg.
Qed.

Lemma inTx_runs {A} (m : Tx A) : steps_by m → always runs (inTx others m).
Proof.
  intros Hm w Hg. unfold inTx. pose proof (Hothers (w_turn w) (w_db w)) as Ho.
  assert (Hg' : good (others (w_turn w) (w_db w))) by (by eapply steps_checks).
  destruct (m _) as [[x d']|e] eqn:H; (eapply runs_db; [|done|done|done]); simpl; [|done].
  etrans; [done|]. by eapply Hm.
Qed.
Lemma query_runs {A} (f : Db → A) : always runs (query others f).
Proof. intros w. by apply (runs_db _ (others (w_turn w) (w_db w))). Qed.

Lemma quiet_runs {A} (m : Act A) :
  (∀ w, w_db (m w).2 = w_db w ∧ w_sent (m w).2 = w_sent w) → always runs m.
Proof. intros Hm w. destruct (Hm w). by eapply runs_db. Qed.
Lemma new_id_runs : always runs (new_id fresh_id).
Proof. by apply quiet_runs. Qed.
Lemma now_runs : always runs (now ptick).
Proof. by apply quiet_runs. Qed.
Lemma TalosAccess_runs : always runs TalosAccess.
Proof. apply quiet_runs. intros w. unfold TalosAccess. by destruct (w_access w). Qed.
Lemma DecryptArtifact_runs : always runs DecryptArtifact.
Proof. apply quiet_runs. intros w. unfold DecryptArtifact. by destruct (w_opened w). Qed.
Lemma next_node_runs : always runs next_node.
Proof. apply quiet_runs. intros w. unfold next_node. by destruct (w_nodes w). Qed.

(** ** The calls *)

#[local] Hint Resolve inTx_runs query_runs new_id_runs now_runs TalosAccess_runs DecryptArtifact_runs
  next_node_runs : always.
#[local] Hint Extern 2 (steps_by _) => apply keeps_steps; solve_keeps : always.

Lemma takeOverTx_steps op gen reason : steps_by (takeOverTx tick a op gen reason).
Proof. intros d x d' _ H. eapply rtc_once, s_takeover, H. Qed.
Lemma recordResponseTx_steps att resp : steps_by (recordResponseTx tick a att resp).
Proof. intros d x d' _ H. eapply rtc_once, s_respond, H. Qed.
Lemma settleOperationTx_steps op gen obs : steps_by (settleOperationTx tick a op gen obs).
Proof. intros d x d' _ H. eapply rtc_once, s_settle, H. Qed.
Lemma commitTx_steps plan op : steps_by (commitTx tick a plan op).
Proof. intros d x d' _ H. by eapply rtc_once, s_commit. Qed.
Lemma recordAttemptTx_steps op att gen : steps_by (recordAttemptTx tick a op att gen).
Proof. intros d x d' _ H. by eapply rtc_once, s_attempt. Qed.

(** The schema's check: only an apply-config operation holds its scopes. *)
Lemma settleAttemptRefusal_steps m p op gen cmp cause obs :
  steps_by (settleAttemptRefusal tick a m p op gen cmp cause obs).
Proof.
  intros d x d' Hg H. eapply rtc_once, s_attempt_refusal; [|exact H].
  intros o Ho Hact. destruct (Hg op o Ho) as [Hks _]. destruct (op_kind_of o), (op_st o); try done.
Qed.
#[local] Hint Resolve takeOverTx_steps recordResponseTx_steps settleOperationTx_steps commitTx_steps
  recordAttemptTx_steps settleAttemptRefusal_steps : always.

Lemma recordRefusalEntry_steps m p cmp cause obs e once drift :
  steps_by (recordRefusalEntry tick a m p cmp cause obs e once drift).
Proof. apply keeps_steps, recordRefusalEntry_keeps. Qed.
Lemma startObservation_steps m f : steps_by (startObservation tick a m f).
Proof. apply keeps_steps. unfold startObservation, dialled. solve_keeps. Qed.
Lemma recordObservationTx_steps m f o : steps_by (recordObservationTx tick a m f o).
Proof. apply keeps_steps. unfold recordObservationTx. solve_keeps. Qed.
Lemma recordUseTimeCheck_steps m e : steps_by (recordUseTimeCheck tick a m e).
Proof. apply keeps_steps. unfold recordUseTimeCheck. solve_keeps. Qed.
#[local] Hint Resolve recordRefusalEntry_steps startObservation_steps recordObservationTx_steps
  recordUseTimeCheck_steps : always.

Lemma takeOver_runs op gen reason : always runs (takeOver others tick a op gen reason).
Proof. unfold takeOver. solve_always. Qed.
Lemma recordResponse_runs att resp : always runs (recordResponse others tick a att resp).
Proof. unfold recordResponse. solve_always. Qed.
Lemma settleOperation_runs op gen obs : always runs (settleOperation others tick a op gen obs).
Proof. unfold settleOperation. solve_always. Qed.
Lemma commitPlan_runs plan : always runs (commitPlan others fresh_id tick a plan).
Proof. unfold commitPlan. solve_always. Qed.
Lemma currentEpoch_runs : always runs (currentEpoch others a).
Proof. unfold currentEpoch. solve_always. Qed.
#[local] Hint Resolve currentEpoch_runs : always.
Lemma cancelUnattempted_runs m p op gen : always runs (cancelUnattempted others tick a m p op gen).
Proof. unfold cancelUnattempted. solve_always. Qed.
Lemma observe_runs m f : always runs (observe others fresh_id tick a m f).
Proof. unfold observe, recordObservation. solve_always. Qed.
#[local] Hint Resolve takeOver_runs recordResponse_runs settleOperation_runs commitPlan_runs
  cancelUnattempted_runs observe_runs : always.

Lemma dbClock_runs : always runs (dbClock others tick).
Proof. unfold dbClock. solve_always. Qed.
Lemma checkDependencies_runs art have : always runs (checkDependencies artifact_key art have).
Proof. unfold checkDependencies. solve_always. Qed.
#[local] Hint Resolve dbClock_runs checkDependencies_runs : always.
Lemma useTimeCheck_runs m p op have started :
  always runs (useTimeCheck others tick a artifact_key m p op have started).
Proof. unfold useTimeCheck. solve_always. Qed.
Lemma verify_runs op gen m p pu : always runs (verify others fresh_id tick a op gen m p pu).
Proof. unfold verify. solve_always. Qed.
#[local] Hint Resolve useTimeCheck_runs verify_runs : always.
Lemma respond_runs att op gen m p resp : always runs (respond others fresh_id tick a att op gen m p resp).
Proof. unfold respond. solve_always. Qed.
#[local] Hint Resolve respond_runs : always.

(** ** The send *)

Lemma recordAttempt_runs op gen : always runs (recordAttempt others fresh_id tick a op gen).
Proof. unfold recordAttempt. solve_always. Qed.

(** A recorded attempt is in the store, under an id no attempt had. *)
Lemma recordAttempt_fresh op gen w t w' :
  recordAttempt others fresh_id tick a op gen w = (Ok t, w') →
  t ∈ attempts (w_db w') ∧ at_id t ∉ at_id <$> attempts (w_db w) ∧ w_sent w' = w_sent w.
Proof.
  unfold recordAttempt. destruct (bool_decide _); [done|].
  unfold mbind, P_bind, attempt_of, new_id, inTx. simpl.
  pose proof (Hothers (w_turn w) (w_db w)) as Ho. set (d := others (w_turn w) (w_db w)) in *.
  destruct (recordAttemptTx _ _ _ _ _ _) as [[t' d']|e] eqn:H; simpl.
  - intros [= <- <-]. simpl. apply recordAttemptTx_ok in H as (o & x & Hadm & -> & ->); [|done]. split.
    + simpl. apply elem_of_app. right. by apply list_elem_of_singleton.
    + destruct Hadm. apply attempt_row_None in adm_fresh. split; [|done]. simpl. intros Hin. apply adm_fresh.
      apply steps_tables in Ho as ([l Hl] & _). fold d in Hl. rewrite Hl, fmap_app. apply elem_of_app. by left.
  - destruct e; try (intros [= ?]; done). simpl. destruct (settleAttemptRefusal _ _ _ _ _ _ _ _ _ _) as [[? ?]|]; done.
Qed.

Lemma send_sent q w : w_db (send q w).2 = w_db w ∧ w_sent (send q w).2 = w_sent w ++ [q].
Proof. unfold send. by destruct (w_answers w). Qed.

Lemma attemptAndSend_runs op gen m p u :
  always runs (attemptAndSend others fresh_id tick a op gen m p u).
Proof.
  intros w. unfold attemptAndSend. unfold mbind at 1, P_bind at 1.
  pose proof (recordAttempt_runs op gen w) as Hr.
  destruct (recordAttempt others fresh_id tick a op gen w) as [[t|e] w1] eqn:Hrec; simpl in Hr; [|exact Hr].
  apply recordAttempt_fresh in Hrec as (Hin & Hfresh & Hquiet).
  unfold mbind, P_bind. set (q := Request _ _ _ _ _).
  pose proof (send_sent q w1) as [Hdb Hsent]. destruct (send q w1) as [[resp|e] w2] eqn:Hs; simpl in *;
    [|unfold send in Hs; by destruct (w_answers w1)].
  assert (H2 : runs w w2).
  { intros Hg. destruct (Hr Hg) as (Hst & Hg1 & Hok). rewrite Hdb. split_and!; [done|done|].
    intros Hw. destruct (Hok Hw) as [Hq Hnd]. split.
    - intros q' Hq'. rewrite Hsent in Hq'. rewrite Hdb.
      apply elem_of_app in Hq' as [Hq'|Hq'%list_elem_of_singleton]; [by apply Hq|]. subst q'. by exists t.
    - rewrite Hsent, Hquiet. apply NoDup_snoc_fmap; [apply Hw|]. intros (q' & Hq' & Hq'in)%list_elem_of_fmap.
      destruct (proj1 Hw q' Hq'in) as (t' & Ht' & Hid & _). apply Hfresh. apply list_elem_of_fmap.
      exists t'. split; [|done]. by rewrite <- Hid, <- Hq'. }
  etrans; [exact H2|apply respond_runs].
Qed.
#[local] Hint Resolve attemptAndSend_runs : always.

(** ** The loop *)

Lemma heldOperations_runs : always runs (heldOperations others tick a).
Proof. unfold heldOperations. solve_always. Qed.
Lemma foreignOperations_runs : always runs (foreignOperations others a).
Proof. unfold foreignOperations. solve_always. Qed.
Lemma dispatchCandidates_runs p : always runs (dispatchCandidates others tick a p).
Proof. unfold dispatchCandidates. solve_always. Qed.
Lemma recoveryReadDue_runs op : always runs (recoveryReadDue others tick a op).
Proof. unfold recoveryReadDue. solve_always. Qed.
#[local] Hint Resolve heldOperations_runs foreignOperations_runs dispatchCandidates_runs
  recoveryReadDue_runs : always.

Lemma dispatchPlan_runs c : always runs (dispatchPlan others fresh_id tick a artifact_key c).
Proof. unfold dispatchPlan. solve_always. Qed.
Lemma advance_retry_runs h have began acc :
  always runs (advance_retry others fresh_id tick a artifact_key h have began acc).
Proof. unfold advance_retry. solve_always. Qed.
Lemma advance_observe_runs h have began :
  always runs (advance_observe others fresh_id tick a artifact_key h have began).
Proof. unfold advance_observe. solve_always. Qed.
Lemma advance_unaccounted_runs h : always runs (advance_unaccounted others fresh_id tick a h).
Proof. unfold advance_unaccounted. solve_always. Qed.
#[local] Hint Resolve dispatchPlan_runs advance_retry_runs advance_observe_runs advance_unaccounted_runs : always.
Lemma advance_runs h : always runs (advance others fresh_id tick a artifact_key h).
Proof. unfold advance, advance_unresolved. solve_always. Qed.
#[local] Hint Resolve advance_runs : always.

Lemma pass_step_runs {A} key (r : result err A) st : always runs (pass_step ptick lease key r st).
Proof. unfold pass_step. solve_always. Qed.
Lemma waits_runs key st : always runs (waits ptick key st).
Proof. unfold waits. solve_always. Qed.
#[local] Hint Resolve pass_step_runs waits_runs : always.
Lemma pass_owed_runs owed kept st : always runs (pass_owed others tick ptick a lease owed kept st).
Proof. revert kept st. induction owed as [|[op gen] l IH]; simpl; solve_always. Qed.
Lemma pass_held_runs hs st : always runs (pass_held others fresh_id tick ptick a artifact_key lease hs st).
Proof. revert st. induction hs as [|h l IH]; simpl; solve_always. Qed.
Lemma pass_candidates_runs cs st :
  always runs (pass_candidates others fresh_id tick ptick a artifact_key lease cs st).
Proof. revert st. induction cs as [|c l IH]; simpl; solve_always. Qed.
#[local] Hint Resolve pass_owed_runs pass_held_runs pass_candidates_runs : always.

Lemma executorPass_runs st : always runs (executorPass others fresh_id tick ptick a artifact_key lease st).
Proof. unfold executorPass, pass_work, prune. solve_always. Qed.

#[local] Hint Resolve executorPass_runs : always.
Lemma passes_runs n st : always runs (passes others fresh_id tick ptick a artifact_key lease n st).
Proof. revert st. induction n as [|n IH]; intros st; simpl; solve_always. Qed.
Lemma executorLoop_runs n : always runs (executorLoop others fresh_id tick ptick a artifact_key lease n).
Proof. apply passes_runs. Qed.
End Sending.

(** The requests of an operation: those of its recorded attempts. *)
Definition requests_of (op : string) (w : world) : list request :=
  filter (λ q, q_attempt q ∈ at_id <$> attempts_of op (w_db w)) (w_sent w).

(** No operation has more requests than its plan allows attempts. *)
Lemma requests_bound w op o p n :
  sent_ok w → lifecycle_inv (core_of (w_db w)) → ops (w_db w) !! op = Some o → op_kind_of o = KApplyConfig →
  (op_plan o ≫= λ i, plans (w_db w) !! i) = Some p → p_max_attempts p = Some n →
  Z.of_nat (length (requests_of op w)) ≤ Z.max 0 n.
Proof.
  intros [_ Hnd] Hi Ho Hk Hp Hn.
  assert (Hle : (length (requests_of op w) ≤ length (attempts_of op (w_db w)))%nat).
  { rewrite <- (length_fmap q_attempt), <- (length_fmap at_id).
    apply submseteq_length, NoDup_submseteq.
    - eapply sublist_NoDup; [exact Hnd|]. apply fmap_sublist, sublist_filter.
    - intros x (q & -> & Hq)%list_elem_of_fmap. by apply list_elem_of_filter in Hq as [? _]. }
  destruct (decide (attempts_of op (w_db w) = [])) as [He|Hne]; [rewrite He in Hle; simpl in Hle; lia|].
  pose proof (inv_bound _ Hi op o p n Ho Hk Hne Hp Hn) as Hb.
  change (attempts_in op (core_of (w_db w))) with (attempts_of op (w_db w)) in Hb. lia.
Qed.
