(* ===== verification/OutcomeSpec.v ===== *)
(** * What a takeover, a response, a decision and a settle do: when each succeeds and what it leaves. *)

From stdpp Require Import relations sorting.
From S2P Require Import Prelude Store Evidence Commit Attempt Outcome Settle World.
From S2P Require Import CommitSpec Lifecycle Refinement System.

(** Runs one step of a body by [t]. *)
Ltac step_by t := apply bind_ok; eexists _, _; split; [t|]; cbv beta.

Section OutcomeSpec.
Variable tick : Z → Z.

(** ** Entries *)

(** The store with one entry appended to a machine's timeline. *)
Definition appended (m : string) (x : machine) (ep : string) (e : entry) (d : Db) : Db :=
  set_events (events d ++ [Event m (m_counter x + 1) ep e (tick (clock d))])
    (set_clock (tick (clock d)) (set_machines (<[m := counted x]> (machines d)) d)).

Lemma append_event_ok m ep e d ra d' :
  append_event tick m ep e d = Ok (ra, d') ↔
  ∃ x, machines d !! m = Some x ∧ ra = (m_counter x + 1, tick (clock d)) ∧ d' = appended m x ep e d.
Proof.
  unfold append_event, nextEntry. split.
  - intros H. m_inv. timeline_inv. by exists m0.
  - intros (x & Hx & -> & ->). apply bind_ok. eexists _, _. split.
    + apply bind_ok. eexists _, _. split; [apply next_revision_ok; eauto|]. cbv beta.
      apply bind_ok. eexists _, _. split; [by apply clock_timestamp_ok|]. m_run.
    + cbv beta. apply bind_ok. eexists tt, _. split; [by apply insert_event_ok|]. m_run.
Qed.

Context (a : api).

(** [lockOperationAs] reads the operation, or refuses. *)
Lemma lockOperationAs_iff op tk d l d' :
  lockOperationAs a op tk d = Ok (l, d') ↔
  d' = d ∧ (epoch d = owner_epoch a ∨ tk && noProcessEpoch (opts a) = true) ∧
  ∃ o m p, ops d !! op = Some o ∧ op_kind_of o = KApplyConfig ∧ op_machine o = Some m ∧ op_plan o = Some p ∧
    l = OperationLock op m p (op_st o) (op_owner o) (op_owner_epoch o) (op_gen o) (epoch d).
Proof.
  split.
  - intros (-> & o & m & p & Ho & Hk & Hm & Hp & -> & He)%lockOperationAs_ok. split; [done|]. split; [done|]. eauto 10.
  - intros (-> & He & o & m & p & Ho & Hk & Hm & Hp & ->). unfold lockOperationAs, op_row.
    apply bind_ok. eexists _, _. split; [m_run_step|]. cbv beta.
    apply bind_ok. eexists tt, _. split.
    { apply failIf_ok. split; [|done]. destruct He as [He|He].
      - by rewrite (bool_decide_true _ He).
      - rewrite He. apply andb_false_r. }
    cbv beta. m_run.
Qed.

(** ** Takeover *)

(** The owner token a takeover leaves: this process's, one generation on, the operation unresolved. *)
Definition taken_over (gen : Z) (ep : string) (o : operation) : operation :=
  with_state Unresolved (with_owner (owner_id a) (gen + 1) ep o).

(** A takeover succeeds exactly of an active operation whose generation is the caller's. *)
Lemma takeOverTx_iff op gen reason d g :
  (∃ d', takeOverTx tick a op gen reason d = Ok (g, d')) ↔
  g = gen + 1 ∧ owner_id a ≠ "" ∧ (epoch d = owner_epoch a ∨ noProcessEpoch (opts a) = true) ∧
  ∃ o m p, ops d !! op = Some o ∧ op_kind_of o = KApplyConfig ∧ op_machine o = Some m ∧ op_plan o = Some p ∧
    active (op_st o) = true ∧ op_gen o = gen ∧ is_Some (machines d !! m).
Proof.
  unfold takeOverTx. split.
  - intros [d' H]. m_inv. match goal with H : lockOperationAs _ _ _ _ = _ |- _ =>
      apply lockOperationAs_iff in H as (-> & He & o & m & p & Ho & Hk & Hm & Hp & ->) end.
    simpl in *. split; [done|]. split; [by apply bool_decide_eq_false in H|]. split; [done|].
    exists o, m, p. split_and!; try done.
    + by destruct (active (op_st o)).
    + by destruct (Z.eqb_spec (op_gen o) gen).
    + match goal with H : appendEntry _ _ _ (update_op _ _ _) = _ |- _ =>
        unfold appendEntry in H; apply append_event_ok in H as (x & Hx & _) end. by exists x.
  - intros (-> & Hne & He & o & m & p & Ho & Hk & Hm & Hp & Hact & <- & x & Hx).
    destruct (bool_decide (op_st o = Unresolved)) eqn:Hun; eexists;
      (step_by ltac:(apply (failIf_ok _ _ _ tt); split; [by apply bool_decide_eq_false|done]);
       step_by ltac:(apply lockOperationAs_iff; split_and!; [done|done|eauto 10]);
       step_by ltac:(apply (failIf_ok _ _ _ tt); simpl; by rewrite Hact);
       step_by ltac:(apply (failIf_ok _ _ _ tt); simpl; by rewrite Z.eqb_refl);
       step_by ltac:(by apply (modify_ok _ _ tt));
       step_by ltac:(apply append_event_ok; by exists x);
       apply bind_ok; eexists tt; cbn [l_state]; rewrite Hun).
    + eexists. split; [by apply ret_ok|]. m_run.
    + eexists. split.
      * apply bind_ok. eexists _, _. split.
        -- apply append_event_ok. exists (counted x). split; [apply lookup_insert_eq|split; reflexivity].
        -- m_run.
      * m_run.
Qed.

(** It changes the operation's owner token and state, and no other operation. *)
Lemma takeOverTx_ops op gen reason d g d' :
  takeOverTx tick a op gen reason d = Ok (g, d') → g = gen + 1 ∧
  ∃ o, ops d !! op = Some o ∧ op_kind_of o = KApplyConfig ∧ op_gen o = gen ∧ active (op_st o) = true
    ∧ ops d' = <[op := taken_over gen (epoch d) o]> (ops d).
Proof.
  intros H. assert (Hx : ∃ d', takeOverTx tick a op gen reason d = Ok (g, d')) by eauto.
  apply takeOverTx_iff in Hx as (-> & _ & _ & o & m & p & Ho & Hk & Hm & Hp & Hact & <- & _).
  split; [done|]. exists o. split_and!; try done.
  unfold takeOverTx in H. m_inv. lock_inv o' m' p' Ho' Hk'. core_frames.
  apply core_tables in E as (_ & E & _). apply core_tables in E0 as (_ & E0 & _). simplify_eq.
  rewrite E, E0. simpl.
  apply map_eq. intros i. destruct (decide (op = i)) as [<-|Hne].
  - by rewrite lookup_alter_eq, lookup_insert_eq, Ho'.
  - by rewrite lookup_alter_ne, lookup_insert_ne by done.
Qed.

(** A settle and a takeover are by the generation the operation has. *)
Lemma settleOperationTx_gen op gen obs d s d' o :
  settleOperationTx tick a op gen obs d = Ok (s, d') → ops d !! op = Some o →
  op_gen o = gen ∧ op_owner o = Some (owner_id a) ∧ str (op_owner_epoch o) = epoch d.
Proof.
  intros H Ho. unfold settleOperationTx in H. apply bind_ok in H as (l & d1 & Hl & H).
  apply lockOperationAs_iff in Hl as (-> & _ & o' & m & p & Ho' & _ & _ & _ & ->). simplify_eq.
  apply bind_ok in H as (u & d2 & Hf & _). apply failIf_ok in Hf as [Hf%negb_false_iff _].
  unfold owns in Hf. simpl in Hf. rewrite !andb_true_iff, !bool_decide_eq_true, Z.eqb_eq in Hf. tauto.
Qed.

(** ** The response *)

Ltac entries_inv := repeat match goal with
  | H : appendEntry _ _ _ _ = Ok (_, _) |- _ => unfold appendEntry in H
  | H : append_event _ _ _ _ _ = Ok (?ra, ?d) |- _ =>
      let x := fresh "x" in let Hx := fresh "Hx" in apply append_event_ok in H as (x & Hx & ? & ?); subst ra d
  end.

(** What the response's record appends: its row and, when it accounts for the attempt first, that. *)
Lemma response_record_ok l t resp d b d' :
  response_record tick a l t resp d = Ok (b, d') →
  b = Accounts resp && negb (accounted_for (at_id t) d) ∧
  (∃ at_ rev, responses d' = responses d ++ [ResponseRow (at_id t) (l_machine l) (rs_class resp) (rs_code resp)
     (rs_text resp) (at_owner t) (at_gen t) (at_epoch t) at_ rev]) ∧
  (∃ at_ rev, accountings d' = accountings d ++
     (if b then [AccountingRow (at_id t) (l_machine l) ByResponse at_ rev] else [])) ∧
  ops d' = ops d ∧ attempts d' = attempts d ∧ classifications d' = classifications d.
Proof.
  assert (Hnil : ∀ x : Db, ∃ at_ rev, accountings x = accountings x ++
    (if false then [AccountingRow (at_id t) (l_machine l) ByResponse at_ rev] else []))
    by (intros x; exists 0, 0; by rewrite app_nil_r).
  unfold response_record. intros H. m_inv. entries_inv.
  destruct (Accounts resp); [|m_inv; split_and!; [done|by eexists _, _|exact (Hnil d)|done..]].
  m_inv. match goal with H : (if accounted_for _ ?x then _ else _) _ = _ |- _ =>
    change (accounted_for (at_id t) x) with (accounted_for (at_id t) d) in H end.
  destruct (accounted_for (at_id t) d); m_inv; entries_inv.
  - split_and!; [done|by eexists _, _|exact (Hnil d)|done..].
  - split_and!; [done|by eexists _, _|by eexists _, _|done..].
Qed.

Lemma moveOperation_ok l to_ cause r e d l' d' :
  moveOperation tick a l to_ cause r e d = Ok (l', d') →
  l' = relock to_ l ∧ ops d' = alter (with_outcome r e ∘ with_state to_) (l_id l) (ops d)
  ∧ responses d' = responses d ∧ accountings d' = accountings d ∧ attempts d' = attempts d
  ∧ classifications d' = classifications d ∧ mstates d' = mstates d.
Proof. unfold moveOperation. intros H. m_inv. by entries_inv. Qed.

Lemma classify_ok l out obs relied gen d r d' :
  classify tick a l out obs relied gen d = Ok (r, d') →
  (∃ rev, classifications d' = classifications d ++
     [ClassificationRow (l_id l) (l_machine l) rev out obs (owner_id a) gen (l_current l) relied])
  ∧ ops d' = ops d ∧ responses d' = responses d ∧ accountings d' = accountings d ∧ attempts d' = attempts d
  ∧ mstates d' = mstates d.
Proof. unfold classify. intros H. m_inv. entries_inv. simpl. eauto 10. Qed.

(** The response's transaction: it records the response of an attempt that has none, accounts for the
    attempt when the target answered, and moves the operation as [response_move] says. *)
Lemma recordResponseTx_ok att resp d s acc d' :
  recordResponseTx tick a att resp d = Ok ((s, acc), d') →
  ∃ t o, attempt_row att d = Some t ∧ ops d !! at_operation t = Some o ∧ op_kind_of o = KApplyConfig ∧
    at_owner t = owner_id a ∧ epoch d = owner_epoch a ∧ Forall (λ r, r_attempt r ≠ att) (responses d) ∧
    acc = Accounts resp && negb (accounted_for att d) ∧
    (∃ m at_ rev, responses d' = responses d ++ [ResponseRow att m (rs_class resp) (rs_code resp)
       (rs_text resp) (at_owner t) (at_gen t) (at_epoch t) at_ rev]) ∧
    (∃ m at_ rev, accountings d' = accountings d ++ if acc then [AccountingRow att m ByResponse at_ rev] else []) ∧
    attempts d' = attempts d ∧
    let latest := bool_decide (latest_number (at_operation t) d = Some (at_number t)) in
    match response_move (op_st o) latest (all_rejected (at_operation t) d') (rs_class resp) with
    | None => s = op_st o ∧ ops d' = ops d
    | Some (to_, _) => s = to_ ∧ op_st <$> ops d' !! at_operation t = Some to_
    end.
Proof.
  unfold recordResponseTx. intros H. apply bind_ok in H as (t & d1 & Ht & H).
  apply getsOr_ok in Ht as [Ht <-].
  assert (Hid : at_id t = att).
  { unfold attempt_row in Ht. apply find_some in Ht as [_ Ht]. by apply bool_decide_eq_true in Ht. }
  apply bind_ok in H as (u0 & d1 & Hw & H). apply failIf_ok in Hw as [Hown%unless_ok <-].
  apply bind_ok in H as (l & d1 & Hl & H).
  apply lockOperationAs_iff in Hl as (-> & He & o & m & p & Ho & Hk & Hm & Hp & ->).
  destruct He as [He|[=]].
  apply bind_ok in H as (rec & d1 & Hr & H). apply gets_ok in Hr as [Hr <-].
  apply bind_ok in H as (u & d1 & Hf & H). apply failIf_ok in Hf as [-> <-].
  apply bind_ok in H as (b & d1 & Hrec & H).
  apply response_record_ok in Hrec as (-> & Hresp & Hacc & Hops & Hat & Hcl). rewrite Hid in *. simpl in Hresp, Hacc.
  apply bind_ok in H as (latest & d2 & Hlat & H). apply gets_ok in Hlat as [<- <-].
  apply bind_ok in H as (rj & d2 & Hrj & H). apply gets_ok in Hrj as [<- <-].
  assert (Hlatest : latest_number (at_operation t) d1 = latest_number (at_operation t) d)
    by (unfold latest_number, attempts_of; by rewrite Hat).
  rewrite Hlatest in H.
  assert (Hnone : Forall (λ r, r_attempt r ≠ att) (responses d)).
  { apply Forall_forall. intros r Hin Hra. apply not_true_iff_false in Hr. apply Hr, existsb_exists.
    exists r. split; [by apply list_elem_of_In|by apply bool_decide_eq_true]. }
  set (latest := bool_decide (latest_number (at_operation t) d = Some (at_number t))) in *.
  assert (Hend : responses d' = responses d1 ∧ accountings d' = accountings d1 ∧ attempts d' = attempts d1 ∧
    acc = Accounts resp && negb (accounted_for att d) ∧
    match response_move (op_st o) latest (all_rejected (at_operation t) d1) (rs_class resp) with
    | None => s = op_st o ∧ ops d' = ops d1
    | Some (to_, _) => s = to_ ∧ ∃ e, ops d' = alter (with_outcome None e ∘ with_state to_) (at_operation t) (ops d1)
    end).
  { cbn [l_state] in H. destruct (response_move _ _ _ _) as [[to_ cause]|]; [|m_inv; by simplify_eq].
    assert (Hmove : ∀ l cause e d2 l' d3, l_id l = at_operation t → ops d2 = ops d1 → responses d2 = responses d1 →
      accountings d2 = accountings d1 → attempts d2 = attempts d1 →
      moveOperation tick a l to_ cause None e d2 = Ok (l', d3) →
      responses d3 = responses d1 ∧ accountings d3 = accountings d1 ∧ attempts d3 = attempts d1 ∧ l_state l' = to_ ∧
      ops d3 = alter (with_outcome None e ∘ with_state to_) (at_operation t) (ops d1)).
    { intros l c e d2 l' d3 El E1 E2 E3 E4 (-> & M1 & M2 & M3 & M4 & _ & _)%moveOperation_ok.
      rewrite M1, M2, M3, M4, El, E1, E2, E3, E4. by split_and!. }
    destruct to_; m_inv; try match goal with H : classify _ _ _ _ _ _ _ _ = _ |- _ =>
      apply classify_ok in H as (_ & C1 & C2 & C3 & C4 & _) end;
      (match goal with H : moveOperation _ _ _ _ _ _ _ _ = _ |- _ =>
         apply Hmove in H as (M1 & M2 & M3 & M4 & M5); [|done..] end);
      simplify_eq; split_and!; eauto. }
  clear H. destruct Hend as (E1 & E2 & E3 & -> & E4).
  assert (Hrej : all_rejected (at_operation t) d' = all_rejected (at_operation t) d1)
    by (unfold all_rejected, attempts_of, responded_with; by rewrite E1, E3).
  destruct Hresp as (? & ? & Hresp). destruct Hacc as (? & ? & Hacc).
  exists t, o. split_and!; try done; [by rewrite E1, Hresp; eauto|by rewrite E2, Hacc; eauto|by rewrite E3|].
  cbv zeta. rewrite Hrej. fold latest.
  destruct (response_move _ _ _ _) as [[to_ cause]|]; [|by rewrite Hops in E4].
  destruct E4 as [-> [e E4]]. split; [done|]. by rewrite E4, Hops, lookup_alter_eq, Ho.
Qed.

(** ** The settle *)

(** The lock of an operation this process owns at a generation and may settle. *)
Definition settles (op : string) (gen : Z) (d : Db) (o : operation) (l : operationLock) : Prop :=
  ops d !! op = Some o ∧ op_kind_of o = KApplyConfig ∧ epoch d = owner_epoch a ∧
  op_owner o = Some (owner_id a) ∧ op_gen o = gen ∧ str (op_owner_epoch o) = epoch d ∧
  (op_st o = Verifying ∨ op_st o = Unresolved) ∧
  ∃ m p, op_machine o = Some m ∧ op_plan o = Some p ∧
    l = OperationLock op m p (op_st o) (op_owner o) (op_owner_epoch o) (op_gen o) (epoch d).

(** A settle that succeeds: what it was decided on, when it was more than waiting. *)
Lemma settleOperationTx_decides op gen obs d s d' :
  settleOperationTx tick a op gen obs d = Ok (s, d') →
  ∃ o l, settles op gen d o l ∧
    (st_outcome s = VUnresolved ∨ st_outcome s = VPending ∨
     unaccounted op d = [] ∧ ∃ sh, shown_by l obs d = Some sh ∧
       not_settling a op sh (last_accounting op d) (blocking obs d) = None ∧
       let n := Z.of_nat (length (attempts_of op d)) in
       (established sh = true ∧ sh_purpose sh = PCompletion ∧ 0 < n
          ∧ complete tick a l obs (sh_revision sh) gen d = Ok (s, d'))
       ∨ settle_contradicted tick a l obs gen n sh d = Ok (s, d')).
Proof.
  unfold settleOperationTx. intros H. apply bind_ok in H as (l & d1 & Hl & H).
  apply lockOperationAs_iff in Hl as (-> & He & o & m & p & Ho & Hk & Hm & Hp & Hl). destruct He as [He|[=]].
  apply bind_ok in H as (u & d1 & Hf & H). apply failIf_ok in Hf as [Hown <-].
  apply bind_ok in H as (u' & d1 & Hf & H). apply failIf_ok in Hf as [Hst <-].
  exists o, l. split.
  { subst l. unfold owns in Hown. simpl in *.
    rewrite negb_false_iff, !andb_true_iff, !bool_decide_eq_true, Z.eqb_eq in Hown. destruct Hown as [[? ?] ?].
    unfold settles. split_and!; try done; [|eauto 10].
    apply andb_false_iff in Hst as [Hst|Hst]; apply unless_ok in Hst; auto. }
  apply bind_ok in H as (n & d1 & Hn & H). apply gets_ok in Hn as [<- <-].
  apply bind_ok in H as (b & d1 & Hb & H). apply gets_ok in Hb as [Hb <-]. destruct b.
  { left. apply bind_ok in H as (l' & d1 & _ & H). by apply ret_ok in H as [<- _]. }
  apply bind_ok in H as (sh & d1 & Hs & H). apply getsOr_ok in Hs as [Hs <-].
  apply bind_ok in H as (last & d1 & E & H). apply gets_ok in E as [<- <-].
  apply bind_ok in H as (dl & d1 & E & H). apply gets_ok in E as [<- <-].
  apply bind_ok in H as (bl & d1 & E & H). apply gets_ok in E as [<- <-].
  destruct (not_settling _ _ _ _ _) eqn:Hns; [apply ret_ok in H as [<- _]; by right; left|].
  apply unless_ok in Hb. apply if_ok in H as [[Hc H]|[_ H]].
  - right; right. split; [done|]. exists sh. split_and!; [done|done|]. left.
    rewrite !andb_true_iff, bool_decide_eq_true, Z.ltb_lt in Hc. tauto.
  - apply if_ok in H as [[_ H]|[_ H]]; [|right; right; split; [done|]; exists sh; by split_and!; [..|right]].
    unfold settle_neither in H. apply if_ok in H as [[_ H]|[_ H]].
    + left. apply bind_ok in H as (l' & d1 & _ & H). by apply ret_ok in H as [<- _].
    + right; left. by apply ret_ok in H as [<- _].
Qed.

(** A completion records Applied and the operation's end. *)
Lemma complete_ok l obs rev gen d s d' o :
  complete tick a l obs rev gen d = Ok (s, d') → ops d !! l_id l = Some o →
  st_outcome s = VCompleted ∧ st_state s = Completed ∧
  ∃ p rm, plans d !! l_plan l = Some p ∧ artifacts d !! (p_release p, p_machine p) = Some rm ∧
    op_st <$> ops d' !! l_id l = Some Completed ∧
    mstates d' = alter (applied (p_release p) (rm_digest rm)) (l_machine l) (mstates d).
Proof.
  unfold complete, plan_row, mstate_row, classifyObserved. intros H Ho. m_inv.
  match goal with H : classify _ _ _ _ _ _ _ _ = _ |- _ => apply classify_ok in H as (_ & C1 & _ & _ & _ & C2) end.
  match goal with H : moveOperation _ _ _ _ _ _ _ _ = _ |- _ => apply moveOperation_ok in H as (-> & M1 & _ & _ & _ & _ & M2) end.
  entries_inv. rewrite C1 in M1. rewrite C2 in M2.
  assert (Hdone : op_st <$> ops s1 !! l_id l = Some Completed) by (by rewrite M1, lookup_alter_eq, Ho).
  destruct (p_drift a0) as [bound|]; [destruct (drift_is_open _ _ _)|];
    unfold driftEntry, nextEntry in *; m_inv; timeline_inv; (split_and!; [done|done|]; exists a0, a1;
    split_and!; [done|done|exact Hdone|simpl; by rewrite M2]).
Qed.

(** What makes an operation with [n] attempts safe to retry on what [sh] shows. *)
Record retry_safe (l : operationLock) (n : Z) (sh : shown) (d : Db) : Prop := {
  safe_shown : sh_identity sh = Some true ∧ sh_assignment sh = Some true ∧ sh_expected sh = Some true
               ∧ sh_minor sh = Some true;
  safe_silent : Forall (λ t, ∀ r, r ∈ responses d → r_attempt r = at_id t →
                  r_class r ≠ CAccepted ∧ r_class r ≠ CRejected) (attempts_of (l_id l) d);
  safe_plan : ∃ p m x, plans d !! l_plan l = Some p ∧ machines d !! p_machine p = Some m ∧
                p_max_attempts p = Some x ∧ n < x ∧
                finalPlanCause (l_plan l) (l_current l) (tick (clock d)) d = Some "" ∧
                scopeGate (m_frozen m) (openDrift (p_machine p) d) (p_drift p) (m_scope m) (recovery d) = "" }.

Lemma not_answered_ok op d :
  existsb (λ t, responded_with (λ c, bool_decide (c = CAccepted) || bool_decide (c = CRejected)) t d)
    (attempts_of op d) = false →
  Forall (λ t, ∀ r, r ∈ responses d → r_attempt r = at_id t → r_class r ≠ CAccepted ∧ r_class r ≠ CRejected)
    (attempts_of op d).
Proof.
  intros H. apply Forall_forall. intros t Ht r Hr Hra.
  destruct (decide (r_class r = CAccepted ∨ r_class r = CRejected)) as [Hc|Hc]; [|tauto].
  exfalso. apply not_true_iff_false in H. apply H. apply existsb_exists. exists t.
  split; [by apply list_elem_of_In|]. apply existsb_exists. exists r. split; [by apply list_elem_of_In|].
  rewrite (bool_decide_true _ Hra). simpl. apply orb_true_iff. rewrite !bool_decide_eq_true. tauto.
Qed.

Lemma safeToRetry_none l n sh d d' :
  safeToRetry tick l n sh d = Ok (None, d') → retry_safe l n sh d ∧ core_of d' = core_of d.
Proof.
  intros H. split; [|by refine ((_ : keeps core_of (safeToRetry tick l n sh)) _ _ _ H); unfold safeToRetry; solve_keeps].
  unfold safeToRetry, plan_row, machine_row in H. if_inv; [by m_inv|].
  apply negb_false_iff in Hb. unfold is_true in Hb. rewrite !andb_true_iff, !bool_decide_eq_true in Hb.
  m_inv. if_inv; [by m_inv|]. m_inv. timeline_inv.
  destruct (p_max_attempts _) as [x|] eqn:Hx; [|by m_inv].
  destruct (Z.leb_spec x n); [by m_inv|]. m_inv.
  if_inv; [by m_inv|]. m_inv.
  destruct (bool_decide (scopeGate _ _ _ _ _ = "")) eqn:Hg; [|done]. apply bool_decide_eq_true in Hg.
  split; [tauto|by apply not_answered_ok|]. eexists _, _, x. split_and!; eauto.
Qed.

(** The rest of a settle: a retry, a failure on a completion observation, or waiting. *)
Lemma settle_contradicted_ok l obs gen n sh d s d' o :
  settle_contradicted tick a l obs gen n sh d = Ok (s, d') → ops d !! l_id l = Some o →
  st_outcome s = VPending
  ∨ (st_outcome s = VSafeToRetry ∧ retry_safe l n sh d ∧
     op_st <$> ops d' !! l_id l = Some (if bool_decide (l_state l = Verifying) then Unresolved else op_st o))
  ∨ (st_outcome s = VFailed ∧ sh_purpose sh = PCompletion ∧ n ≠ 0 ∧ op_st <$> ops d' !! l_id l = Some Failed).
Proof.
  unfold settle_contradicted. intros H Ho. apply bind_ok in H as (why & d1 & Hw & H). destruct why as [why|].
  - assert (E : core_of d1 = core_of d)
      by (refine ((_ : keeps core_of (safeToRetry tick l n sh)) _ _ _ Hw); unfold safeToRetry; solve_keeps).
    apply core_tables in E as (_ & E & _).
    if_inv; [m_inv; by left|]. apply orb_false_iff in Hb as [Hn%bool_decide_eq_false Hp%unless_ok].
    right; right. unfold fail_operation, classifyObserved in H. m_inv.
    match goal with H : classify _ _ _ _ _ _ _ _ = _ |- _ => apply classify_ok in H as (_ & C1 & _) end.
    match goal with H : moveOperation _ _ _ _ _ _ _ _ = _ |- _ => apply moveOperation_ok in H as (-> & M1 & _) end.
    core_frames. apply core_tables in E0 as (_ & E0 & _).
    split_and!; [done|done|done|]. by rewrite E0, M1, C1, E, lookup_alter_eq, Ho.
  - apply safeToRetry_none in Hw as [Hs E]. apply core_tables in E as (_ & E & _). right; left.
    unfold classifyObserved in H. apply bind_ok in H as (rev & d2 & Hc & H).
    apply bind_ok in Hc as (rel & d3 & Hr & Hc). apply gets_ok in Hr as [_ <-].
    apply classify_ok in Hc as (_ & C1 & _). apply bind_ok in H as (l' & d3 & Hm & H). apply ret_ok in H as [<- <-].
    split_and!; [done|done|]. apply if_ok in Hm as [[-> Hm]|[-> Hm]].
    + apply moveOperation_ok in Hm as (_ & M1 & _). by rewrite M1, C1, E, lookup_alter_eq, Ho.
    + apply ret_ok in Hm as [_ <-]. by rewrite C1, E, Ho.
Qed.

(** ** The decision *)

(** What the two ends of a settle show of a machine, counting from [anchor]. *)
Record settle_shown (machine : string) (deadline anchor : Z) (start end_ : string)
    (explanation : option string) (d : Db) : Prop := {
  shown_first : ∀ o, first_read machine deadline d = Some o → start = o_id o;
  shown_ends : ∃ s e es eb sv ev,
    observation_of machine start d = Some s ∧ observation_of machine end_ d = Some e ∧
    start_of e d = Some es ∧ began e d = Some eb ∧ s_purpose es = PRecovery ∧
    o_resource s = Some sv ∧ o_resource e = Some ev ∧ start ≠ end_ ∧ o_at s < eb ∧
    anchor + settle_floor a ≤ eb ∧
    (∀ o, first_read machine deadline d = Some o → o_at o + settle_floor a ≤ eb) ∧
    (sv = ev ∨ blank (default "" explanation) = false) }.

Lemma settled_ok machine deadline anchor start end_ explanation d f d' :
  settled a machine deadline anchor start end_ explanation d = Ok (inl f, d') →
  d' = d ∧ settle_shown machine deadline anchor start end_ explanation d.
Proof.
  unfold settled. intros H. apply bind_ok in H as (first & d1 & Hf & H). apply gets_ok in Hf as [Hf <-].
  apply if_ok in H as [[_ H]|[Hst H]]; [by m_inv|]. m_inv.
  set (anchor' := match first_read machine deadline d with Some o => Z.max anchor (o_at o) | None => anchor end) in *.
  assert (Hanchor : anchor ≤ anchor' ∧ ∀ o, first_read machine deadline d = Some o → o_at o ≤ anchor').
  { unfold anchor'. destruct (first_read _ _ _); split; intros; simplify_eq; lia. }
  destruct (bool_decide (s_purpose _ = PRecovery)) eqn:Hp; [|done]. apply bool_decide_eq_true in Hp.
  simpl in *. destruct (o_resource a0) as [sv|] eqn:Hsv; [|done]. destruct (o_resource a1) as [ev|] eqn:Hev; [|done].
  destruct (bool_decide (start = end_)) eqn:Hne; [done|]. apply bool_decide_eq_false in Hne. simpl in *.
  destruct (Z.ltb_spec (o_at a0) a3); [|done]. simpl in *.
  destruct (Z.ltb_spec a3 (anchor' + settle_floor a)); [done|].
  split; [done|]. split.
  - intros o Ho. rewrite Ho in *. by apply unless_ok in Hst.
  - exists a0, a1, a2, a3, sv, ev. split_and!; try done; [lia| |].
    + intros o Ho. destruct Hanchor as [_ Ha]. specialize (Ha o Ho). lia.
    + destruct (bool_decide (sv = ev)) eqn:Hve; [left; by apply bool_decide_eq_true in Hve|right].
      simpl in *. by destruct (blank _).
Qed.

(** An attempt accounted for by decision: its executor was stopped or taken over, and the settle's
    end was read the floor after its deadline and after the last takeover. *)
Lemma accountByDecision_ok att by_ act start end_ explanation d rev d' :
  accountByDecision tick a att by_ act start end_ explanation d = Ok (rev, d') →
  ∃ t o m, attempt_row att d = Some t ∧ ops d !! at_operation t = Some o ∧ op_machine o = Some m ∧
    epoch d = owner_epoch a ∧ accounted_for att d = false ∧
    (at_gen t < op_gen o ∨ at_epoch t ≠ epoch d ∨ at_owner t ≠ str (op_owner o)) ∧
    settle_shown m (at_transport t) (at_transport t) start end_ explanation d ∧
    (∀ x, last_takeover m (at_operation t) d = Some x → settle_shown m (at_transport t) x start end_ explanation d) ∧
    ∃ k, accountings d' = accountings d ++ [k] ∧ k_attempt k = att ∧ k_revision k = rev ∧ ops d' = ops d.
Proof.
  unfold accountByDecision. intros H. apply bind_ok in H as (t & d1 & Ht & H). apply getsOr_ok in Ht as [Ht <-].
  apply bind_ok in H as (l & d1 & Hl & H).
  apply lockOperationAs_iff in Hl as (-> & He & o & m & p & Ho & Hk & Hm & Hp & ->). destruct He as [He|[=]].
  apply bind_ok in H as (al & d1 & Hal & H). apply gets_ok in Hal as [Hal <-].
  apply bind_ok in H as (u & d1 & Hf & H). apply failIf_ok in Hf as [-> <-].
  apply bind_ok in H as (u' & d1 & Hf & H). apply failIf_ok in Hf as [Hstop%negb_false_iff <-].
  apply bind_ok in H as (tk & d1 & Htk & H). apply gets_ok in Htk as [Htk <-].
  apply bind_ok in H as (s & d1 & Hs & H). destruct s as [f|]; [|by m_inv].
  apply settled_ok in Hs as [-> Hs]. m_inv. entries_inv. simpl in *.
  assert (Hweak : ∀ x y, settle_shown m (at_transport t) y start end_ explanation d → x ≤ y →
    settle_shown m (at_transport t) x start end_ explanation d).
  { intros lo hi [Hfst (s & e & es & eb & sv & ev & ?)] Hle. split; [done|].
    exists s, e, es, eb, sv, ev. destruct_and!. split_and!; try done. lia. }
  exists t, o, m. split_and!; try done.
  - apply orb_true_iff in Hstop as [Hstop|Hstop]; [apply orb_true_iff in Hstop as [Hstop|Hstop]|].
    + left. by apply Z.ltb_lt.
    + right; left. by apply negb_true_iff, bool_decide_eq_false in Hstop.
    + right; right. by apply negb_true_iff, bool_decide_eq_false in Hstop.
  - eapply Hweak; [exact Hs|]. destruct (last_takeover _ _ _); lia.
  - intros tk' Htk'. eapply Hweak; [exact Hs|]. rewrite Htk'. lia.
  - eexists. by split_and!.
Qed.

(** ** What a classification relies on *)

Lemma reliedEntries_elem op obs d x :
  x ∈ reliedEntries op obs d ↔
  (∃ r, r ∈ responses d ∧ r_revision r = x ∧ ∃ t, t ∈ attempts_of op d ∧ at_id t = r_attempt r)
  ∨ (∃ k, k ∈ accountings d ∧ k_revision k = x ∧ ∃ t, t ∈ attempts_of op d ∧ at_id t = k_attempt k)
  ∨ obs = Some x.
Proof using Type.
  clear tick a. assert (Hof : ∀ att, of_operation op att d = true ↔ ∃ t, t ∈ attempts_of op d ∧ at_id t = att).
  { intros att. unfold of_operation. rewrite existsb_exists. apply exist_proper. intros t.
    by rewrite list_elem_of_In, bool_decide_eq_true. }
  unfold reliedEntries.
  rewrite merge_sort_Permutation, elem_of_remove_dups, !elem_of_app, !list_elem_of_omap.
  assert (Hobs : x ∈ option_list obs ↔ obs = Some x).
  { destruct obs as [y|]; simpl; [rewrite list_elem_of_singleton|rewrite elem_of_nil]; naive_solver. }
  rewrite Hobs. clear Hobs.
  apply Morphisms_Prop.or_iff_morphism; [|apply Morphisms_Prop.or_iff_morphism; [|done]];
    (apply exist_proper; intros y);
    match goal with |- context [of_operation op ?i d] => specialize (Hof i); destruct (of_operation op i d) end;
    naive_solver.
Qed.

Lemma sorted_strictly (l : list Z) : NoDup l → StronglySorted Z.le l → StronglySorted Z.lt l.
Proof.
  induction 2 as [|x l Hs IH Hx]; [constructor|]. apply NoDup_cons in H as [Hin Hnd].
  constructor; [by apply IH|]. apply Forall_forall. intros y Hy. rewrite Forall_forall in Hx.
  specialize (Hx y Hy). assert (x ≠ y) by (by intros ->). lia.
Qed.
Lemma reliedEntries_sorted op obs d : StronglySorted Z.lt (reliedEntries op obs d).
Proof.
  unfold reliedEntries. apply sorted_strictly.
  - rewrite merge_sort_Permutation. apply NoDup_remove_dups.
  - apply StronglySorted_merge_sort; apply _.
Qed.
End OutcomeSpec.

Section Fence.
Variable tick : Z → Z.

(** Once an operation was taken over, no earlier generation of its owner attempts, settles or takes
    it over, in any later store and from any process. *)
Lemma takeover_fences b op gen reason d0 g d1 d :
  takeOverTx tick b op gen reason d0 = Ok (g, d1) → rtc (step tick) d1 d →
  ∀ a old, old ≤ gen →
    (opts a = production → ∀ att r d', recordAttemptTx tick a op att old d ≠ Ok (r, d'))
    ∧ (∀ obs r d', settleOperationTx tick a op old obs d ≠ Ok (r, d'))
    ∧ (∀ why r d', takeOverTx tick a op old why d ≠ Ok (r, d')).
Proof.
  intros (-> & o & Ho & Hk & Hg & _ & Hd)%takeOverTx_ops Hs a old Hold.
  destruct (steps_later tick d1 d op (taken_over b gen (epoch d0) o) Hs) as (o' & Ho' & Hl);
    [by rewrite Hd, lookup_insert_eq|done|].
  destruct Hl as (_ & _ & _ & _ & Hgen & _). simpl in Hgen. split_and!.
  - intros Hp att r d' H. apply recordAttemptTx_ok in H as (x & y & [Hr] & _); [|done].
    destruct Hr as (_ & _ & _ & Hx & _). simplify_eq. lia.
  - intros obs r d' H. eapply settleOperationTx_gen in H as [Hx _]; [|exact Ho']. lia.
  - intros why r d' H. apply takeOverTx_ops in H as (_ & x & Hx & _ & Hx' & _). simplify_eq. lia.
Qed.
End Fence.
