(* ===== verification/DecisionSpec.v ===== *)
(** * The pure decisions: exactly when each passes. *)

From S2P Require Import Prelude Store Evidence Commit Attempt Outcome Settle Lifecycle.

(** [scopeGate] passes a machine neither frozen nor out of service, whose open drift record is the one
    the plan binds, and which recovery mode leaves released. *)
Lemma scopeGate_pass frozen open_ bound scope rec :
  scopeGate frozen open_ bound scope rec = "" ↔
  frozen = false ∧ open_ = bound ∧ (scope = "released" ∨ scope = "normal" ∧ rec = false).
Proof.
  unfold scopeGate. destruct frozen; [naive_solver|].
  destruct (bool_decide (is_Some open_) && _) eqn:H1.
  { apply andb_true_iff in H1 as [_ H1%negb_true_iff%bool_decide_eq_false]. naive_solver. }
  destruct (bool_decide (is_Some bound) && _) eqn:H2.
  { rewrite andb_true_iff, !bool_decide_eq_true in H2. destruct H2 as [[x ->] ->]. naive_solver. }
  assert (Hob : open_ = bound).
  { apply andb_false_iff in H1 as [H1|H1]; [|by apply unless_ok in H1].
    apply bool_decide_eq_false in H1. rewrite <- eq_None_not_Some in H1. subst.
    rewrite andb_false_iff, !bool_decide_eq_false in H2. destruct bound; [|done]. destruct H2 as [H2|H2]; [|done].
    by destruct H2. }
  clear H1 H2. subst bound.
  destruct (decide (scope = "normal")) as [->|Hn]; [|destruct (decide (scope = "released")) as [->|Hr]].
  - change (bool_decide ("normal" = "normal")) with true. change (bool_decide ("normal" = "released")) with false.
    destruct rec; simpl; naive_solver.
  - change (bool_decide ("released" = "normal")) with false. change (bool_decide ("released" = "released")) with true.
    destruct rec; (split; [by auto|done]).
  - rewrite !bool_decide_false by done. simpl. split; [done|]. intros (_ & _ & [->|[-> _]]); done.
Qed.

(** A committed plan is of use: unexpired, not cancelled, its approval not revoked, its approver's
    identity in force and its epoch the installation's. *)
Record plan_in_use (plan current : string) (t : Z) (d : Db) : Prop := {
  use_reads : ∃ p s aid ap, plans d !! plan = Some p ∧ pstates d !! plan = Some s ∧
    ps_approval s = Some aid ∧ approvals d !! aid = Some ap ∧ principals d !! ap_approver ap = Some false ∧
    t < p_expires p ∧ aid ∉ approval_revocations d ∧ ap_epoch ap = current;
  use_cancelled : plan ∉ cancellations d }.

Lemma finalPlanCause_pass plan current t d : finalPlanCause plan current t d = Some "" ↔ plan_in_use plan current t d.
Proof.
  unfold finalPlanCause. split.
  - intros (p & Hp & (s & Hs & (aid & Haid & (ap & Hap & (rv & Hrv & H)%bind_Some)%bind_Some)%bind_Some)%bind_Some)%bind_Some.
    injection H as H. destruct (Z.leb_spec (p_expires p) t); [done|].
    do 2 (case_bool_decide; [done|]). destruct rv; [done|]. case_bool_decide; [|done].
    split; [|done]. eexists _, _, _, _. eauto 10.
  - intros [(p & s & aid & ap & Hp & Hs & Haid & Hap & Hrv & Ht & Hr & He) Hc].
    rewrite Hp. simpl. rewrite Hs. simpl. rewrite Haid. simpl. rewrite Hap. simpl. rewrite Hrv. simpl.
    rewrite (proj2 (Z.leb_gt _ _) Ht), !bool_decide_false, bool_decide_true by done. done.
Qed.

(** [useTimeCheckCause] on the latest check this controller recorded for the plan. *)
Lemma useTimeCheckCause_pass controller machine plan evidence t d p m r ep q op c passed acc started eat :
  plans d !! plan = Some p →
  latest_event machine (is_check plan controller) d = Some (Event m r ep (EvUseTimeCheck q op c passed acc started) eat) →
  useTimeCheckCause controller machine plan evidence t d = "" ↔
  passed = true ∧ acc = (observation_row evidence d ≫= o_access) ∧ t - Z.min eat started ≤ p_check_validity p.
Proof.
  intros Hp He. unfold useTimeCheckCause. rewrite Hp, He. destruct passed; simpl; [|naive_solver].
  case_bool_decide; simpl; [|naive_solver].
  destruct (Z.ltb_spec (p_check_validity p) (t - Z.min eat started)); [|naive_solver].
  split; [done|]. intros (_ & _ & ?). lia.
Qed.

(** No later observation of the machine contradicts the plan's bindings. *)
Lemma newerContradiction_none machine plan basis d b :
  bindings_of machine plan d = Some b →
  newerContradiction machine plan basis d = None ↔
  ∀ o, o ∈ observations d → o_machine o = machine → basis < o_basis o → contradicts b o = false.
Proof.
  intros Hb. unfold newerContradiction. rewrite Hb. cbn [mbind option_bind]. rewrite fmap_None, min_by_None. split.
  - intros Hf o Ho Hm Hlt. destruct (contradicts b o) eqn:Hc; [|done]. exfalso.
    assert (Hin : o ∈ filter (λ o, o_machine o = machine ∧ basis < o_basis o ∧ contradicts b o = true) (observations d))
      by (by apply list_elem_of_filter). rewrite Hf in Hin. by apply elem_of_nil in Hin.
  - intros H. apply elem_of_nil_inv. intros o ((Hm & Hlt & Hc) & Ho)%list_elem_of_filter.
    by rewrite (H o Ho Hm Hlt) in Hc.
Qed.

(** Go's durations decide an age exactly, whatever the two instants, while the plan's allowance in
    nanoseconds fits an int64: a difference past its range saturates. *)
Lemma age_exact t u m : 0 ≤ m * 1000 ≤ max64 → (duration_of_micros m <? time_sub t u) = (m <? t - u).
Proof.
  intros Hm. unfold duration_of_micros, time_sub, wrap64, sat64, min64, max64 in *.
  rewrite Z.mod_small by lia. apply eq_true_iff_eq. rewrite !Z.ltb_lt. lia.
Qed.

(** Where a response moves an operation: one of the schema's transitions, to rejected only when the
    node refused every attempt, and away from sending whatever the latest attempt's response. *)
Lemma response_move_by_schema s latest rej c to_ cause :
  response_move s latest rej c = Some (to_, cause) →
  allowed s to_ = true ∧ (to_ = Rejected ↔ c = CRejected ∧ rej = true) ∧ (to_ = Verifying ↔ c = CAccepted).
Proof. unfold response_move. destruct s, latest, rej, c; simpl; intros [= <- <-]; naive_solver. Qed.
Lemma response_move_leaves_sending rej c : is_Some (response_move Sending true rej c).
Proof. destruct rej, c; by eexists. Qed.
Lemma response_move_stays s latest rej c :
  response_move s latest rej c = None ↔
  ¬ (s = Sending ∧ latest = true) ∧ ¬ (s = Unresolved ∧ c = CRejected ∧ rej = true).
Proof. unfold response_move. destruct s, latest, rej, c; simpl; naive_solver. Qed.

(** ** Blank texts *)

(** UTF-8's encodings of the code points with Unicode's White_Space property. *)
Definition utf8 (bs : list nat) : string := String.string_of_list_ascii (ascii_of_nat <$> bs).
Definition white_space : list string :=
  utf8 <$> [[9]; [10]; [11]; [12]; [13]; [32]; [194; 133]; [194; 160]; [225; 154; 128];
    [226; 128; 128]; [226; 128; 129]; [226; 128; 130]; [226; 128; 131]; [226; 128; 132]; [226; 128; 133];
    [226; 128; 134]; [226; 128; 135]; [226; 128; 136]; [226; 128; 137]; [226; 128; 138]; [226; 128; 168];
    [226; 128; 169]; [226; 128; 175]; [226; 129; 159]; [227; 128; 128]]%nat.

Lemma byte_is_true n c : byte_is n c = true → c = ascii_of_nat n.
Proof. unfold byte_is. intros <-%Nat.eqb_eq. by rewrite ascii_nat_embedding. Qed.
Lemma byte_in_true lo hi c : byte_in lo hi c = true → ∃ n, (lo ≤ n ≤ hi)%nat ∧ c = ascii_of_nat n.
Proof.
  unfold byte_in. intros [?%Nat.leb_le ?%Nat.leb_le]%andb_true_iff.
  exists (nat_of_ascii c). by rewrite ascii_nat_embedding.
Qed.

(** Names the bytes the tests found. *)
Ltac bytes := repeat match goal with
  | H : _ && _ = true |- _ => apply andb_true_iff in H as [? ?]
  | H : _ || _ = true |- _ => apply orb_true_iff in H as [?|?]
  | H : byte_is _ ?c = true |- _ => apply byte_is_true in H; subst c
  | H : byte_in _ _ ?c = true |- _ => let n := fresh "n" in apply byte_in_true in H as (n & ? & ->)
  end.

Lemma drop_space_sound s r : drop_space s = Some r → ∃ w, w ∈ white_space ∧ s = w +:+ r.
Proof.
  assert (Hin : ∀ w, bool_decide (w ∈ white_space) = true → w ∈ white_space) by (intros w; apply bool_decide_eq_true).
  destruct s as [|c1 s]; [done|]. simpl. destruct (byte_in 9 13 c1 || byte_is 32 c1) eqn:H1.
  { intros [= <-]. exists (String c1 ""). split; [|done]. apply Hin. bytes; [|by vm_compute].
    do 14 (destruct n as [|n]; [first [lia | by vm_compute]|]). lia. }
  destruct s as [|c2 s]; [done|]. destruct (byte_is 194 c1 && _) eqn:H2.
  { intros [= <-]. exists (String c1 (String c2 "")). split; [|done]. apply Hin. bytes; by vm_compute. }
  destruct s as [|c3 s]; [done|].
  match goal with |- context [if ?b then _ else _] => destruct b eqn:H3 end; [|done].
  intros [= <-]. exists (String c1 (String c2 (String c3 ""))). split; [|done]. apply Hin. bytes; try by vm_compute.
  - assert (∃ k, n = (128 + k)%nat ∧ (k ≤ 10)%nat) as (k & -> & Hk) by (exists (n - 128)%nat; lia).
    do 11 (destruct k as [|k]; [by vm_compute|]). lia.
  - assert (n = 168 ∨ n = 169)%nat as [->| ->] by lia; by vm_compute.
Qed.
Lemma drop_space_complete w r : w ∈ white_space → drop_space (w +:+ r) = Some r.
Proof.
  intros Hw. assert (Hf : Forall (λ w, ∀ r, drop_space (w +:+ r) = Some r) white_space);
     [|by rewrite Forall_forall in Hf; apply Hf].
  unfold white_space. cbn [fmap list_fmap]. repeat (constructor; [intros r'; vm_compute; reflexivity|]). constructor.
Qed.

(** [strings.TrimSpace(s) == ""] of a text of Unicode spaces only. *)
Lemma blank_fuel_sound n s : blank_fuel n s = true →
  ∃ ws, Forall (λ w, w ∈ white_space) ws ∧ s = foldr String.append "" ws.
Proof.
  revert s. induction n as [|n IH]; intros [|c s]; try done; [by exists []..|].
  cbn [blank_fuel]. destruct (drop_space _) as [r|] eqn:Hd; [|done].
  intros (ws & Hws & ->)%IH. apply drop_space_sound in Hd as (w & Hw & ->).
  exists (w :: ws). split; [by constructor|done].
Qed.
Lemma space_length w : w ∈ white_space → (1 ≤ String.length w)%nat.
Proof.
  intros Hw. assert (Hf : Forall (λ w, 1 ≤ String.length w)%nat white_space); [|by rewrite Forall_forall in Hf; apply Hf].
  apply (bool_decide_unpack _). by vm_compute.
Qed.
Lemma append_length s t : String.length (s +:+ t) = (String.length s + String.length t)%nat.
Proof. induction s as [|c s IH]; [done|]. exact (f_equal S IH). Qed.
Lemma blank_fuel_complete ws n :
  Forall (λ w, w ∈ white_space) ws → (String.length (foldr String.append "" ws) ≤ n)%nat →
  blank_fuel n (foldr String.append "" ws) = true.
Proof.
  intros Hws. revert n. induction Hws as [|w ws Hw Hws IH]; intros n; [by destruct n|].
  cbn [foldr]. change (String.append w ?x) with (w +:+ x). rewrite append_length. pose proof (space_length w Hw).
  intros Hn. destruct n as [|n]; [lia|]. pose proof (drop_space_complete w (foldr String.append "" ws) Hw) as Hd.
  destruct (w +:+ _) as [|c s]; [done|]. cbn [blank_fuel]. rewrite Hd. apply IH. lia.
Qed.

Lemma blank_spaces s : blank s = true ↔ ∃ ws, Forall (λ w, w ∈ white_space) ws ∧ s = foldr String.append "" ws.
Proof.
  split; [apply blank_fuel_sound|]. intros (ws & Hws & ->). by apply blank_fuel_complete.
Qed.
