(* ===== verification/Scenario.v ===== *)
(** * A concrete installation: one machine, an approved plan, and the runs the witnesses evaluate. *)

From stdpp Require Import relations pretty.
From S2P Require Import Prelude Store World Evidence Commit Attempt Outcome Settle Observe.
From S2P Require Import Executor Lifecycle System Sending.

Definition sc_tick (t : Z) : Z := t + 10.
Definition sc_others : nat → Db → Db := λ _ d, d.
Definition sc_fresh (n : nat) : string := "id" +:+ pretty n.

(** The process, and another one of the same epoch. *)
Definition sc_api : api := Api "exe_1" "ep_1" 1000 production.
Definition sc_other : api := Api "exe_2" "ep_1" 1000 production.

Definition sc_talos : string := "abcdefghijklmnopqrstuvwxyzABCDEFGHIJKLMNOPA=".
Definition sc_plan (n : string) : plan :=
  Plan ("mch_" +:+ n) ("cl_" +:+ n) KApplyConfig "rel_1" ("asg_" +:+ n) (Some "rel_1") None None (Some "before")
    "10.0.0.1" 1000000 1000000 500 2000 (Some 2) 100000000 "prn_2" "ep_1" 0 0 [].

(** A store with one machine, its cluster and its approved plan per name, and nothing done. *)
Definition sc_map {A} (kind : string) (row : string → A) (ns : list string) : gmap string A :=
  list_to_map ((λ n, (kind +:+ n, row n)) <$> ns).
Definition sc_db_of (ns : list string) : Db :=
  MkDb "ep_1" false 0
    (sc_map "mch_" (λ n, Machine ("cl_" +:+ n) "normal" false 0 None (Some "node_1") "10.0.0.1") ns)
    (sc_map "mch_" (λ _, MachineState 0 (Some "rel_1") None None None None) ns)
    (sc_map "mch_" (λ n, "asg_" +:+ n) ns) (sc_map "cl_" (λ _, sc_talos) ns) {["rel_1" := "v1.9"]}
    (list_to_map ((λ n, (("rel_1", "mch_" +:+ n), ArtifactRow "after" "sealed" "key" 1 "ibr_1" ("asg_" +:+ n) None)) <$> ns))
    (sc_map "pln_" sc_plan ns) (sc_map "pln_" (λ n, PlanState Approved (Some ("apr_" +:+ n)) None 1 0 None) ns)
    (sc_map "apr_" (λ n, Approval "prn_1" "ep_1" 0 ("pln_" +:+ n) ("mch_" +:+ n) "approver" [] "act_0" 0) ns) {["prn_1" := false]} ∅ ∅ ∅ [] [] [] [] ∅ [] [] [] []
    (Ledger [] ∅) (Provenance ∅ ∅ ∅ ∅ ∅ ∅) (RecoveryLog ∅ ∅ ∅ ∅ ∅ ∅ ∅ []).
Definition sc_db : Db := sc_db_of ["1"].

(** A node that answers with the configuration digest [digest]. *)
Definition sc_node (digest : string) : node_script :=
  NodeScript true (NodeSaid (Identity "" "node_1" sc_talos)) (NodeSaid "v1.9.3") (NodeSaid (digest, "7")).

(** A world whose node answers an attempt with [resp], and then reports [digests] in turn. *)
Definition sc_access : access_version := ("talos/cl_1", 3, "t0").
Definition sc_access_id : string * Z * string := sc_access.
Definition sc_world_on (d : Db) (resp : list response) (digests : list string) : world :=
  World d 0 0 0 (replicate 10 (Answered sc_access)) (replicate 10 (Answered "plain"))
    (sc_node <$> digests) resp [].
Definition sc_world : list response → list string → world := sc_world_on sc_db.
Definition sc_loop (n : nat) : Act executorState :=
  executorLoop sc_others sc_fresh sc_tick sc_tick sc_api "key" 50 n.

(** The operations of a world, their states and their attempts. *)
Definition sc_ends (w : world) : list (string * op_state * nat) :=
  (λ io, (io.1, op_st io.2, length (attempts_of io.1 (w_db w)))) <$> map_to_list (ops (w_db w)).

Definition sc_accepted : response := Response CAccepted 0 "".
Definition sc_rejected : response := Response CRejected 3 "".

(** An accepted configuration that the node then shows completes the operation. *)
Definition sc_completed : world := (sc_loop 0 (sc_world [sc_accepted] ["before"; "after"])).2.
Example sc_completes : sc_ends sc_completed = [("id1", Completed, 1%nat)].
Proof. vm_compute. reflexivity. Qed.

(** A rejected one ends it rejected. *)
Definition sc_refused : world := (sc_loop 0 (sc_world [sc_rejected] ["before"])).2.
Example sc_rejects : sc_ends sc_refused = [("id1", Rejected, 1%nat)].
Proof. vm_compute. reflexivity. Qed.

(** Two plans whose attempts were not answered: both operations are unresolved and hold their scopes. *)
Definition sc_two : world := (sc_loop 0 (sc_world_on (sc_db_of ["1"; "2"]) [] ["before"; "before"])).2.
Example sc_waits : sc_ends sc_two = [("id1", Unresolved, 1%nat); ("id4", Unresolved, 1%nat)].
Proof. vm_compute. reflexivity. Qed.

(** ** The loop's stores are reachable *)

Lemma sc_initial ns : initial (sc_db_of ns).
Proof. repeat split; done. Qed.
Lemma sc_loop_reachable n ns resp digests :
  let w := (sc_loop n (sc_world_on (sc_db_of ns) resp digests)).2 in
  reachable sc_tick (w_db w) ∧ sent_ok w.
Proof.
  intros w.
  destruct (executorLoop_runs sc_others sc_fresh sc_tick sc_tick sc_api "key" 50 eq_refl (λ _ _, rtc_refl _ _) n
    (sc_world_on (sc_db_of ns) resp digests)) as (Hs & _ & Hok); [by apply initial_checks, sc_initial|].
  split; [exists (sc_db_of ns); split; [apply sc_initial|exact Hs]|]. apply Hok.
  split; [intros q Hq; by apply elem_of_nil in Hq|constructor].
Qed.

(** ** One transaction at a time *)

Definition sc_run {A} (m : Tx A) (d : Db) : Db := match m d with Ok (_, d') => d' | Err _ => d end.
(** The store after a procedure whose node reports [digest]. *)
Definition sc_act {A} (m : Act A) (digest : string) (d : Db) : Db := w_db (m (sc_world_on d [] [digest])).2.
Definition sc_observe (a : api) (i digest : string) (p : purpose) (op : string) : Db → Db :=
  sc_act (observe sc_others (λ _, i) sc_tick a "mch_1" (ObserveFor p "pln_1" op None false)) digest.

(** The plan's check and evidence are recorded; it is committed, attempted, and not answered. *)
Definition sc_ready : Db :=
  sc_observe sc_api "obs_1" "before" PEvidence ""
    (sc_act (useTimeCheck sc_others sc_tick sc_api "key" "mch_1" "pln_1" "" None None) "" sc_db).
Definition sc_committed : Db := sc_run (commitTx sc_tick sc_api "pln_1" "op_1") sc_ready.
Definition sc_attempted : Db := sc_run (recordAttemptTx sc_tick sc_api "op_1" "att_1" 1) sc_committed.
Definition sc_silent : Db := sc_run (recordResponseTx sc_tick sc_api "att_1" TransportFailure) sc_attempted.
Definition sc_accepts : Db := sc_run (recordResponseTx sc_tick sc_api "att_1" sc_accepted) sc_attempted.
(** The node then shows the plan's configuration, or still the one before. *)
Definition sc_shows : Db := sc_observe sc_api "obs_2" "after" PCompletion "op_1" sc_accepts.
(** Another process takes the unanswered operation over, and reads the node at a settle's two ends. *)
Definition sc_taken : Db := sc_run (takeOverTx sc_tick sc_other "op_1" 1 "controller-start") sc_silent.
Definition sc_later (t : Z) (d : Db) : Db := set_clock (clock d + t) d.
Definition sc_ends_read : Db :=
  sc_observe sc_other "obs_4" "before" PRecovery "op_1" (sc_later 2000
    (sc_observe sc_other "obs_3" "before" PRecovery "op_1" (sc_later 2000 sc_taken))).
Definition sc_accounted : Db :=
  sc_run (accountByDecision sc_tick sc_other "att_1" "prn_1" "act_1" "obs_3" "obs_4" None) sc_ends_read.
(** A completion observation after that shows the configuration before the attempt: safe to retry. *)
Definition sc_unchanged : Db := sc_observe sc_other "obs_5" "before" PCompletion "op_1" sc_accounted.

Definition sc_op_state (d : Db) : option op_state := op_st <$> ops d !! "op_1".
Example sc_states :
  sc_op_state <$> [sc_ready; sc_committed; sc_attempted; sc_silent; sc_accepts; sc_taken; sc_accounted]
  = [None; Some Committed; Some Sending; Some Unresolved; Some Verifying; Some Unresolved; Some Unresolved].
Proof. vm_compute. reflexivity. Qed.
Definition sc_outcome (d : Db) (a : api) (gen : Z) (obs : string) : option verdict :=
  match settleOperationTx sc_tick a "op_1" gen obs d with Ok (s, _) => Some (st_outcome s) | Err _ => None end.
Example sc_outcomes :
  (sc_outcome sc_shows sc_api 1 "obs_2", sc_outcome sc_unchanged sc_other 2 "obs_5",
   length (accountings sc_accounted)) = (Some VCompleted, Some VSafeToRetry, 1%nat).
Proof. vm_compute. reflexivity. Qed.

(** A transaction whose success is computed. *)
Lemma sc_run_ok {A} (m : Tx A) d : match m d with Ok _ => True | Err _ => False end → ∃ x, m d = Ok (x, sc_run m d).
Proof. unfold sc_run. destruct (m d) as [[x d']|]; [by exists x|done]. Qed.
