(* ===== verification/ExecutionProps.v ===== *)
(** * The execution core's properties: what holds of every store its processes reach, what is sent,
    and who may act. *)

From stdpp Require Import relations.
From S2P Require Import Prelude Store World Evidence Commit Attempt Outcome Settle Observe.
From S2P Require Import Executor CommitSpec Lifecycle Refinement System.
From S2P Require Import Sending OutcomeSpec Scenario.

(** ** Every reachable store *)

Section Reachable.
Context (tick : Z → Z) (d : Db) (Hd : reachable tick d).

(** C1: in every store the system reaches, whatever its processes and everything else interleave,
    two operations that hold their scopes share neither machine nor cluster. *)
Theorem scopes_exclusive i j o o' :
  i ≠ j → ops d !! i = Some o → ops d !! j = Some o' → holds_scope o → holds_scope o' →
  op_machine o ≠ op_machine o' ∧ op_cluster o ≠ op_cluster o'.
Proof. apply (inv_scope _ (reachable_inv tick d Hd)). Qed.

(** C2: an operation's attempts are numbered 1, 2, ... in the order they were recorded, never more
    than its plan allows, and each after the first rests on a classification. *)
Theorem attempts_bounded id o :
  ops d !! id = Some o → op_kind_of o = KApplyConfig →
  at_number <$> attempts_of id d = seqZ 1 (Z.of_nat (length (attempts_of id d)))
  ∧ (∀ p n, (op_plan o ≫= λ i, plans d !! i) = Some p → p_max_attempts p = Some n →
      attempts_of id d ≠ [] → Z.of_nat (length (attempts_of id d)) ≤ n)
  ∧ Forall (λ t, at_number t = 1 ∨ is_Some (at_classification t)) (attempts_of id d).
Proof.
  intros Ho Hk. pose proof (reachable_inv tick d Hd) as Hi. split_and!.
  - apply (inv_number _ Hi).
  - intros p n Hp Hn Hne. by apply (inv_bound _ Hi id o p).
  - apply Forall_forall. intros t [_ Ht]%list_elem_of_filter. by apply (inv_retry _ Hi).
Qed.

(** C3: an operation's end is justified by its attempts: none was sent before a cancelled one, every
    attempt of a completed or failed one is accounted for, and the node refused every attempt of a
    rejected one. *)
Theorem ends_justified id o :
  ops d !! id = Some o → op_kind_of o = KApplyConfig →
  match op_st o with
  | Committed | Cancelled => attempts_of id d = []
  | Sending | Verifying => attempts_of id d ≠ []
  | Completed | Failed => attempts_of id d ≠ []
      ∧ Forall (λ t, ∃ k, k ∈ accountings d ∧ k_attempt k = at_id t) (attempts_of id d)
  | Rejected => attempts_of id d ≠ []
      ∧ Forall (λ t, ∃ r, r ∈ responses d ∧ r_attempt r = at_id t ∧ r_class r = CRejected) (attempts_of id d)
  | _ => True
  end.
Proof.
  intros Ho Hk. pose proof (inv_state _ (reachable_inv tick d Hd) id o Ho Hk) as H.
  assert (Hacc : ∀ x, accounted_in x (core_of d) → ∃ k, k ∈ accountings d ∧ k_attempt k = x).
  { intros x (k & -> & Hin)%list_elem_of_fmap. by exists k. }
  destruct (op_st o); try exact H; (destruct H as [? H]; split; [done|]);
    (eapply Forall_impl; [exact H|]); simpl; eauto.
Qed.

(** No transaction is refused by the operation table's checks: every operation's state is one of
    its kind, an owner comes with its epoch and a positive generation, an operation holding its scopes
    has one, and only a completed one has a result and only a rejected or failed one an error. *)
Theorem operation_checks_hold id o : ops d !! id = Some o → checks_ok o.
Proof. apply (reachable_checks tick d Hd). Qed.
End Reachable.

Lemma scopes_exclusive_witness :
  ∃ o o', ops (w_db sc_two) !! "id1" = Some o ∧ ops (w_db sc_two) !! "id4" = Some o'
    ∧ op_machine o ≠ op_machine o' ∧ op_cluster o ≠ op_cluster o'.
Proof.
  eexists _, _. split; [vm_compute; reflexivity|]. split; [vm_compute; reflexivity|].
  refine (scopes_exclusive sc_tick (w_db sc_two) _ "id1" "id4" _ _ _ _ _ _ _).
  - apply (sc_loop_reachable 0 ["1"; "2"] [] ["before"; "before"]).
  - discriminate.
  - vm_compute; reflexivity.
  - vm_compute; reflexivity.
  - by split.
  - by split.
Defined.

Lemma attempts_bounded_witness :
  ∃ o, ops (w_db sc_two) !! "id1" = Some o ∧ at_number <$> attempts_of "id1" (w_db sc_two) = [1].
Proof.
  eexists. split; [vm_compute; reflexivity|].
  refine (eq_trans (proj1 (attempts_bounded sc_tick (w_db sc_two) _ "id1" _ _ _)) _).
  - apply (sc_loop_reachable 0 ["1"; "2"] [] ["before"; "before"]).
  - vm_compute; reflexivity.
  - reflexivity.
  - vm_compute; reflexivity.
Defined.

Lemma ends_justified_witness :
  ∃ o, ops (w_db sc_completed) !! "id1" = Some o ∧ op_st o = Completed ∧
    Forall (λ t, ∃ k, k ∈ accountings (w_db sc_completed) ∧ k_attempt k = at_id t) (attempts_of "id1" (w_db sc_completed)).
Proof.
  assert (∃ o, ops (w_db sc_completed) !! "id1" = Some o ∧ op_kind_of o = KApplyConfig ∧ op_st o = Completed)
    as (o & Ho & Hk & Hs) by (eexists; split_and!; [vm_compute; reflexivity|reflexivity|reflexivity]).
  pose proof (ends_justified sc_tick (w_db sc_completed)
    (proj1 (sc_loop_reachable 0 ["1"] [sc_accepted] ["before"; "after"])) "id1" o Ho Hk) as H.
  rewrite Hs in H. exists o. split_and!; [exact Ho|exact Hs|apply H].
Defined.

Lemma operation_checks_hold_witness : ∃ o, ops (w_db sc_refused) !! "id1" = Some o ∧ checks_ok o.
Proof.
  eexists. split; [vm_compute; reflexivity|].
  refine (operation_checks_hold sc_tick (w_db sc_refused) _ "id1" _ _).
  - apply (sc_loop_reachable 0 ["1"] [sc_rejected] ["before"]).
  - vm_compute; reflexivity.
Defined.

(** ** Transactions *)

(** C4: every committed transaction of the core is a run of the operation lifecycle of [astep], with
    the schema's transitions and what each rests on. *)
Theorem step_refines tick d d' : step tick d d' → rtc astep (core_of d) (core_of d').
Proof. apply step_simulated. Qed.

Lemma step_refines_witness : rtc astep (core_of sc_ready) (core_of sc_committed).
Proof.
  apply (step_refines sc_tick). eapply (s_commit sc_tick sc_api "pln_1" "op_1" _ _ _ eq_refl).
  vm_compute. reflexivity.
Defined.

(** C5: the executor's loop, from a world that sent nothing over a store reached by the system and
    whatever the others do meanwhile: every request sent is of a recorded attempt, with its route and
    deadline; none is of an attempt sent before; and an operation has no more of them than its plan
    allows attempts. *)
Theorem executor_sends others fresh_id tick ptick a key lease wakes w :
  opts a = production → (∀ n d, rtc (step tick) d (others n d)) → reachable tick (w_db w) → w_sent w = [] →
  let w' := (executorLoop others fresh_id tick ptick a key lease wakes w).2 in
  reachable tick (w_db w')
  ∧ (∀ q, q ∈ w_sent w' → ∃ t, t ∈ attempts (w_db w') ∧ request_of t q)
  ∧ NoDup (q_attempt <$> w_sent w')
  ∧ (∀ op o p n, ops (w_db w') !! op = Some o → op_kind_of o = KApplyConfig →
      (op_plan o ≫= λ i, plans (w_db w') !! i) = Some p → p_max_attempts p = Some n →
      Z.of_nat (length (requests_of op w')) ≤ Z.max 0 n).
Proof.
  intros Hp Ho Hr Hs w'.
  destruct (executorLoop_runs others fresh_id tick ptick a key lease Hp Ho wakes w) as (Hst & _ & Hok);
    [by eapply reachable_checks|]. fold w' in Hst, Hok.
  assert (Hsent : sent_ok w') by (apply Hok; split; rewrite Hs; [intros q Hq; by apply elem_of_nil in Hq|constructor]).
  assert (Hr' : reachable tick (w_db w')) by by eapply reachable_steps.
  split; [done|]. split; [apply Hsent|]. split; [apply Hsent|]. intros op o p n Hop Hk Hpl Hn.
  eapply requests_bound; try done. by eapply reachable_inv.
Qed.

Lemma executor_sends_witness :
  length (w_sent sc_completed) = 1%nat ∧ NoDup (q_attempt <$> w_sent sc_completed).
Proof.
  split; [vm_compute; reflexivity|].
  refine (proj1 (proj2 (proj2 (executor_sends sc_others sc_fresh sc_tick sc_tick sc_api "key" 50 0
    (sc_world [sc_accepted] ["before"; "after"]) _ _ _ _)))).
  - reflexivity.
  - intros n d. apply rtc_refl.
  - exists sc_db. split; [apply (sc_initial ["1"])|apply rtc_refl].
  - reflexivity.
Defined.

(** An attempt is recorded exactly when every comparison of the attempt transaction holds of the
    store it starts from, at the time it reads; it then numbers the attempt after those made, moves the
    operation to sending and appends one entry. *)
Theorem attempt_iff_admitted tick a op att gen d row d' :
  opts a = production →
  recordAttemptTx tick a op att gen d = Ok (row, d') ↔
  ∃ o x, let t := tick (clock d) in attempt_admitted a op att gen t d o x
    ∧ row = attempt_made a op att gen t d x ∧ d' = after_attempt a op att gen t d x.
Proof.
  intros Hp. split; [by apply recordAttemptTx_ok|].
  intros (o & x & Hx & -> & ->). by apply (recordAttemptTx_succeeds tick a op att gen d o x Hp).
Qed.

Lemma attempt_iff_admitted_witness :
  ∃ o x, attempt_admitted sc_api "op_1" "att_1" 1 (sc_tick (clock sc_committed)) sc_committed o x.
Proof.
  refine (let '(ex_intro _ o (ex_intro _ x (conj H _))) :=
    proj1 (attempt_iff_admitted sc_tick sc_api "op_1" "att_1" 1 sc_committed _ sc_attempted _) _ in
    ex_intro _ o (ex_intro _ x H)).
  - reflexivity.
  - vm_compute. reflexivity.
Defined.

(** C6: a plan is committed exactly when every comparison of the commitment holds of the store it
    starts from, at the time it reads; it then creates the committed operation with this process as its
    first owner, marks the plan and appends one entry. *)
Theorem commit_iff_admitted tick a plan op d r d' :
  opts a = production →
  commitTx tick a plan op d = Ok (r, d') ↔
  ∃ x, let t := tick (clock d) in commit_admitted a plan op t d x
    ∧ r = (op, o_id (cm_obs x), m_counter (cr_machine (cm_reads x)) + 1) ∧ d' = after_commit a plan op (o_id (cm_obs x)) t (set_clock t d) (cm_reads x).
Proof.
  intros Hp. split; [by apply commitTx_ok|].
  intros (x & Hx & -> & ->). by apply (commitTx_succeeds tick a plan op d x Hp).
Qed.

Lemma commit_iff_admitted_witness :
  ∃ x, commit_admitted sc_api "pln_1" "op_1" (sc_tick (clock sc_ready)) sc_ready x.
Proof.
  refine (let '(ex_intro _ x (conj H _)) :=
    proj1 (commit_iff_admitted sc_tick sc_api "pln_1" "op_1" sc_ready ("op_1", "obs_1", 4) sc_committed _) _ in
    ex_intro _ x H).
  - reflexivity.
  - vm_compute. reflexivity.
Defined.

(** ** Ownership *)

(** A takeover succeeds exactly in a controller of the current epoch, of an operation that holds
    its scopes and whose generation is the caller's; it answers the next generation. *)
Theorem takeover_iff tick a op gen reason d g :
  (∃ d', takeOverTx tick a op gen reason d = Ok (g, d')) ↔
  g = gen + 1 ∧ owner_id a ≠ "" ∧ (epoch d = owner_epoch a ∨ noProcessEpoch (opts a) = true) ∧
  ∃ o m p, ops d !! op = Some o ∧ op_kind_of o = KApplyConfig ∧ op_machine o = Some m ∧ op_plan o = Some p ∧
    active (op_st o) = true ∧ op_gen o = gen ∧ is_Some (machines d !! m).
Proof. apply takeOverTx_iff. Qed.

(** C7: once an operation was taken over at a generation, no process records an attempt, settles it
    or takes it over by that generation or an earlier one, in any store reached later. *)
Theorem takeover_fences_earlier tick b op gen reason d0 g d1 d :
  takeOverTx tick b op gen reason d0 = Ok (g, d1) → rtc (step tick) d1 d →
  ∀ a old, old ≤ gen →
    (opts a = production → ∀ att r d', recordAttemptTx tick a op att old d ≠ Ok (r, d'))
    ∧ (∀ obs r d', settleOperationTx tick a op old obs d ≠ Ok (r, d'))
    ∧ (∀ why r d', takeOverTx tick a op old why d ≠ Ok (r, d')).
Proof. apply takeover_fences. Qed.

Lemma takeover_fences_earlier_witness :
  takeOverTx sc_tick sc_other "op_1" 1 "controller-start" sc_silent = Ok (2, sc_taken)
  ∧ ¬ (∃ r d', settleOperationTx sc_tick sc_api "op_1" 1 "obs_2" sc_taken = Ok (r, d')).
Proof.
  assert (H : takeOverTx sc_tick sc_other "op_1" 1 "controller-start" sc_silent = Ok (2, sc_taken))
    by (vm_compute; reflexivity).
  split; [exact H|]. intros (r & d' & Hs).
  apply (proj1 (proj2 (takeover_fences_earlier sc_tick sc_other "op_1" 1 "controller-start" sc_silent 2 sc_taken
    sc_taken H (rtc_refl _ _) sc_api 1 ltac:(lia))) "obs_2" r d' Hs).
Defined.

(** An operation keeps its plan, machine and cluster; its owner generation never falls, and while
    it stands the owner is the same; a terminal state is final, with everything the row holds. *)
Theorem operations_go_forward tick d d' id o :
  rtc (step tick) d d' → ops d !! id = Some o → op_kind_of o = KApplyConfig →
  ∃ o', ops d' !! id = Some o' ∧ op_plan o' = op_plan o ∧ op_machine o' = op_machine o
    ∧ op_cluster o' = op_cluster o ∧ op_gen o ≤ op_gen o'
    ∧ (op_gen o' = op_gen o → op_owner o' = op_owner o ∧ op_owner_epoch o' = op_owner_epoch o)
    ∧ (terminal (op_st o) = true → o' = o).
Proof.
  intros Hs Ho Hk. destruct (steps_later tick d d' id o Hs Ho Hk) as (o' & Ho' & _ & Hl). by exists o'.
Qed.

Lemma operations_go_forward_witness :
  ∃ o o', ops sc_committed !! "op_1" = Some o ∧ ops sc_attempted !! "op_1" = Some o' ∧ op_gen o ≤ op_gen o'.
Proof.
  assert (∃ o, ops sc_committed !! "op_1" = Some o ∧ op_kind_of o = KApplyConfig) as (o & Ho & Hk)
    by (eexists; split; [vm_compute; reflexivity|reflexivity]).
  destruct (operations_go_forward sc_tick sc_committed sc_attempted "op_1" o) as (o' & Ho' & _ & _ & _ & Hg & _).
  - apply rtc_once. eapply (s_attempt sc_tick sc_api "op_1" "att_1" 1 _ _ _ eq_refl). vm_compute. reflexivity.
  - exact Ho.
  - exact Hk.
  - exists o, o'. split_and!; [exact Ho|exact Ho'|exact Hg].
Defined.

(** Attempts, responses, accountings and classifications are never changed or removed: each table
    only grows at its end. *)
Theorem records_append_only tick d d' :
  rtc (step tick) d d' →
  attempts d `prefix_of` attempts d' ∧ responses d `prefix_of` responses d'
  ∧ accountings d `prefix_of` accountings d' ∧ classifications d `prefix_of` classifications d'.
Proof. apply steps_tables. Qed.

Lemma records_append_only_witness : attempts sc_committed `prefix_of` attempts sc_attempted.
Proof.
  refine (proj1 (records_append_only sc_tick sc_committed sc_attempted _)).
  apply rtc_once. eapply (s_attempt sc_tick sc_api "op_1" "att_1" 1 _ _ _ eq_refl). vm_compute. reflexivity.
Defined.

(** ** Responses and settles *)

(** A response's transaction records it for an attempt of this process's that has none; it accounts for the attempt
    exactly when the target answered and nothing accounted for it before; and it leaves the operation in
    the state [response_move] says, judged on every response then recorded. *)
Theorem response_recorded tick a att resp d s acc d' :
  recordResponseTx tick a att resp d = Ok ((s, acc), d') →
  ∃ t o, attempt_row att d = Some t ∧ ops d !! at_operation t = Some o ∧ op_kind_of o = KApplyConfig ∧
    at_owner t = owner_id a ∧ epoch d = owner_epoch a ∧ Forall (λ r, r_attempt r ≠ att) (responses d) ∧
    acc = Accounts resp && negb (accounted_for att d) ∧
    (∃ m at_ rev, responses d' = responses d ++ [ResponseRow att m (rs_class resp) (rs_code resp)
       (rs_text resp) (at_owner t) (at_gen t) (at_epoch t) at_ rev]) ∧
    (∃ m at_ rev, accountings d' = accountings d ++ if acc then [AccountingRow att m ByResponse at_ rev] else []) ∧
    attempts d' = attempts d ∧
    let latest := bool_decide (latest_number (at_operation t) d = Some (at_number t)) in
    match response_move (op_st o) latest (all_rejected (at_operation t) d') (rs_class resp) with
    | None => s = op_st o ∧ ops d' = ops d
    | Some (to_, _) => s = to_ ∧ op_st <$> ops d' !! at_operation t = Some to_
    end.
Proof. apply recordResponseTx_ok. Qed.

Lemma response_recorded_witness : ∃ t, attempt_row "att_1" sc_attempted = Some t.
Proof.
  refine (let '(ex_intro _ t (ex_intro _ _ (conj H _))) :=
    response_recorded sc_tick sc_api "att_1" sc_accepted sc_attempted Verifying true sc_accepts _ in ex_intro _ t H).
  vm_compute. reflexivity.
Defined.

(** An attempt's response is recorded once: after it was, no process records another in any store
    reached later. *)
Theorem response_once tick a b att resp resp' d x d1 d2 :
  recordResponseTx tick a att resp d = Ok (x, d1) → rtc (step tick) d1 d2 →
  ∀ y d3, recordResponseTx tick b att resp' d2 ≠ Ok (y, d3).
Proof.
  destruct x as [s acc]. intros (t & o & _ & _ & _ & _ & _ & _ & _ & (m & at_ & rev & Hr) & _)%recordResponseTx_ok Hs.
  intros [s' acc'] d3 (t' & o' & _ & _ & _ & _ & _ & Hnone & _)%recordResponseTx_ok.
  apply steps_tables in Hs as (_ & [l Hl] & _). rewrite Hl, Hr, !Forall_app in Hnone.
  destruct Hnone as [[_ Hn] _]. apply Forall_cons in Hn as [Hn _]. by apply Hn.
Qed.

Lemma response_once_witness :
  recordResponseTx sc_tick sc_api "att_1" sc_accepted sc_attempted = Ok (Verifying, true, sc_accepts)
  ∧ ¬ (∃ y d3, recordResponseTx sc_tick sc_api "att_1" sc_rejected sc_accepts = Ok (y, d3)).
Proof.
  assert (H : recordResponseTx sc_tick sc_api "att_1" sc_accepted sc_attempted = Ok (Verifying, true, sc_accepts))
    by (vm_compute; reflexivity).
  split; [exact H|]. intros (y & d3 & Hy).
  apply (response_once sc_tick sc_api sc_api "att_1" sc_accepted sc_rejected sc_attempted (Verifying, true)
    sc_accepts sc_accepts H (rtc_refl _ _) y d3 Hy).
Defined.

(** An attempt is accounted for by decision only when its executor was stopped or taken over, and
    once: the start observation is the first read of the machine after the attempt's transport deadline,
    and the end one, a recovery read begun after the start was recorded, began the settle floor after
    that deadline, after the last takeover and after that first read, with the configuration's version
    unchanged or an explanation. *)
Theorem decision_settled tick a att by_ act start end_ explanation d rev d' :
  accountByDecision tick a att by_ act start end_ explanation d = Ok (rev, d') →
  ∃ t o m, attempt_row att d = Some t ∧ ops d !! at_operation t = Some o ∧ op_machine o = Some m ∧
    epoch d = owner_epoch a ∧ accounted_for att d = false ∧
    (at_gen t < op_gen o ∨ at_epoch t ≠ epoch d ∨ at_owner t ≠ str (op_owner o)) ∧
    settle_shown a m (at_transport t) (at_transport t) start end_ explanation d ∧
    (∀ x, last_takeover m (at_operation t) d = Some x → settle_shown a m (at_transport t) x start end_ explanation d) ∧
    ∃ k, accountings d' = accountings d ++ [k] ∧ k_attempt k = att ∧ k_revision k = rev ∧ ops d' = ops d.
Proof. apply accountByDecision_ok. Qed.

Lemma decision_settled_witness :
  ∃ t o m, attempt_row "att_1" sc_ends_read = Some t ∧ ops sc_ends_read !! at_operation t = Some o ∧
    settle_shown sc_other m (at_transport t) (at_transport t) "obs_3" "obs_4" None sc_ends_read.
Proof.
  refine (let '(ex_intro _ t (ex_intro _ o (ex_intro _ m (conj H1 (conj H2 (conj _ (conj _ (conj _ (conj _ (conj H3 _))))))))))
    := decision_settled sc_tick sc_other "att_1" "prn_1" "act_1" "obs_3" "obs_4" None sc_ends_read 13 sc_accounted _ in
    ex_intro _ t (ex_intro _ o (ex_intro _ m (conj H1 (conj H2 H3))))).
  vm_compute. reflexivity.
Defined.

(** What a settle that ended or re-admitted the operation was decided on. *)
Lemma settle_decided tick a op gen obs d s d' :
  settleOperationTx tick a op gen obs d = Ok (s, d') → st_outcome s ≠ VUnresolved → st_outcome s ≠ VPending →
  ∃ o l sh, settles a op gen d o l ∧ unaccounted op d = [] ∧ shown_by l obs d = Some sh ∧
    not_settling a op sh (last_accounting op d) (blocking obs d) = None ∧
    let n := Z.of_nat (length (attempts_of op d)) in
    (established sh = true ∧ sh_purpose sh = PCompletion ∧ 0 < n
       ∧ complete tick a l obs (sh_revision sh) gen d = Ok (s, d'))
    ∨ settle_contradicted tick a l obs gen n sh d = Ok (s, d').
Proof.
  intros H Hu Hp. apply settleOperationTx_decides in H as (o & l & Hl & [?|[?|(Hun & sh & Hsh & Hns & H)]]); try done.
  by exists o, l, sh.
Qed.
Lemma settles_id a op gen d o l : settles a op gen d o l → l_id l = op ∧ ops d !! op = Some o ∧ l_state l = op_st o.
Proof. by intros (Ho & _ & _ & _ & _ & _ & _ & m & p & _ & _ & ->). Qed.

(** C8: an operation completes only in its owner's hands, verifying or unresolved, with every attempt
    accounted for, on a completion observation of it that shows the bound identity, the artifact's
    digest and the assignment, read in order and read otherwise by no later observation; Applied then
    becomes the plan's release and digest. *)
Theorem completion_established tick a op gen obs d s d' :
  settleOperationTx tick a op gen obs d = Ok (s, d') → st_outcome s = VCompleted →
  ∃ o l sh p rm, settles a op gen d o l ∧ attempts_of op d ≠ [] ∧ unaccounted op d = [] ∧
    shown_by l obs d = Some sh ∧ not_settling a op sh (last_accounting op d) (blocking obs d) = None ∧
    sh_identity sh = Some true ∧ sh_digest sh = Some true ∧ sh_assignment sh = Some true ∧
    sh_purpose sh = PCompletion ∧
    plans d !! l_plan l = Some p ∧ artifacts d !! (p_release p, p_machine p) = Some rm ∧
    op_st <$> ops d' !! op = Some Completed ∧
    mstates d' = alter (applied (p_release p) (rm_digest rm)) (l_machine l) (mstates d).
Proof.
  intros H Hv. destruct (settle_decided _ _ _ _ _ _ _ _ H) as (o & l & sh & Hl & Hun & Hsh & Hns & Hd); [by rewrite Hv..|].
  destruct (settles_id _ _ _ _ _ _ Hl) as (Hid & Ho & _). rewrite <- Hid in Ho.
  destruct Hd as [(He & Hp & Hn & Hc)|Hc].
  - destruct (complete_ok tick a l obs _ gen d s d' o Hc Ho) as (_ & _ & p & rm & Hpl & Hrm & Hst & Hms).
    rewrite Hid in Hst. unfold established, is_true in He. rewrite !andb_true_iff, !bool_decide_eq_true in He.
    exists o, l, sh, p, rm. destruct He as [[? ?] ?]. split_and!; try done. intros Hnil. rewrite Hnil in Hn. simpl in Hn. lia.
  - destruct (settle_contradicted_ok tick a l obs gen _ sh d s d' o Hc Ho) as [?|[[? _]|[? _]]]; congruence.
Qed.

Lemma completion_established_witness : op_st <$> ops (sc_run (settleOperationTx sc_tick sc_api "op_1" 1 "obs_2") sc_shows) !! "op_1" = Some Completed.
Proof.
  assert (∃ s, settleOperationTx sc_tick sc_api "op_1" 1 "obs_2" sc_shows
      = Ok (s, sc_run (settleOperationTx sc_tick sc_api "op_1" 1 "obs_2") sc_shows) ∧ st_outcome s = VCompleted)
    as (s & Hs & Hv) by (eexists; split; vm_compute; reflexivity).
  destruct (completion_established sc_tick sc_api "op_1" 1 "obs_2" sc_shows s _ Hs Hv)
    as (o & l & sh & p & rm & _ & _ & _ & _ & _ & _ & _ & _ & _ & _ & _ & H & _).
  exact H.
Defined.

(** An operation is safe to retry only with every attempt accounted for and none accepted or
    refused, on an observation that shows the bound identity, assignment and minor at the digest before
    dispatch, while attempts remain, the plan is of use and the scope's gate is open; it is then
    unresolved. *)
Theorem retry_is_safe tick a op gen obs d s d' :
  settleOperationTx tick a op gen obs d = Ok (s, d') → st_outcome s = VSafeToRetry →
  ∃ o l sh, settles a op gen d o l ∧ unaccounted op d = [] ∧ shown_by l obs d = Some sh ∧
    not_settling a op sh (last_accounting op d) (blocking obs d) = None ∧
    retry_safe tick l (Z.of_nat (length (attempts_of op d))) sh d ∧ op_st <$> ops d' !! op = Some Unresolved.
Proof.
  intros H Hv. destruct (settle_decided _ _ _ _ _ _ _ _ H) as (o & l & sh & Hl & Hun & Hsh & Hns & Hd); [by rewrite Hv..|].
  destruct (settles_id _ _ _ _ _ _ Hl) as (Hid & Ho & Hlst). rewrite <- Hid in Ho.
  destruct Hd as [(_ & _ & _ & Hc)|Hc].
  - destruct (complete_ok tick a l obs _ gen d s d' o Hc Ho) as (Hx & _). congruence.
  - destruct (settle_contradicted_ok tick a l obs gen _ sh d s d' o Hc Ho) as [?|[(_ & Hsafe & Hst)|[? _]]]; try congruence.
    exists o, l, sh. split_and!; try done. rewrite <- Hid, Hst, Hlst.
    destruct Hl as (_ & _ & _ & _ & _ & _ & [->| ->] & _); done.
Qed.

Lemma retry_is_safe_witness :
  op_st <$> ops (sc_run (settleOperationTx sc_tick sc_other "op_1" 2 "obs_5") sc_unchanged) !! "op_1" = Some Unresolved.
Proof.
  assert (∃ s, settleOperationTx sc_tick sc_other "op_1" 2 "obs_5" sc_unchanged
      = Ok (s, sc_run (settleOperationTx sc_tick sc_other "op_1" 2 "obs_5") sc_unchanged) ∧ st_outcome s = VSafeToRetry)
    as (s & Hs & Hv) by (eexists; split; vm_compute; reflexivity).
  destruct (retry_is_safe sc_tick sc_other "op_1" 2 "obs_5" sc_unchanged s _ Hs Hv)
    as (o & l & sh & _ & _ & _ & _ & _ & H).
  exact H.
Defined.
