(* ===== verification/DecisionProps.v ===== *)
(** * The decisions' properties: exactly when each comparison of the execution core passes. *)

From stdpp Require Import sorting.
From S2P Require Import Prelude Store World Evidence Commit Attempt Outcome Settle Observe Lifecycle OutcomeSpec.
From S2P Require Import DecisionSpec Scenario.

(** Comparison 6 passes exactly a machine that is not frozen, whose open drift record is the one
    the plan binds (or neither is), and whose scope is released, or normal outside recovery mode. *)
Theorem scope_gate_iff frozen open_ bound scope rec :
  scopeGate frozen open_ bound scope rec = "" ↔
  frozen = false ∧ open_ = bound ∧ (scope = "released" ∨ scope = "normal" ∧ rec = false).
Proof. apply scopeGate_pass. Qed.

(** Comparison 1 passes a committed plan exactly while it is of use: unexpired, not cancelled, its
    approval not revoked, its approver's identity in force, and its epoch the installation's. *)
Theorem final_plan_cause_iff plan current t d :
  finalPlanCause plan current t d = Some "" ↔
  (∃ p s aid ap, plans d !! plan = Some p ∧ pstates d !! plan = Some s ∧ ps_approval s = Some aid ∧
     approvals d !! aid = Some ap ∧ principals d !! ap_approver ap = Some false ∧ t < p_expires p ∧
     aid ∉ approval_revocations d ∧ ap_epoch ap = current)
  ∧ plan ∉ cancellations d.
Proof. rewrite finalPlanCause_pass. split; [by intros [? ?]|by intros [? ?]]. Qed.

(** The latest use-time check this controller recorded for the plan holds exactly when it passed,
    read the access the evidence was taken with, and is within the plan's validity from its start. *)
Theorem use_time_check_iff controller machine plan evidence t d p m r ep q op c passed acc started eat :
  plans d !! plan = Some p →
  latest_event machine (is_check plan controller) d = Some (Event m r ep (EvUseTimeCheck q op c passed acc started) eat) →
  useTimeCheckCause controller machine plan evidence t d = "" ↔
  passed = true ∧ acc = (observation_row evidence d ≫= o_access) ∧ t - Z.min eat started ≤ p_check_validity p.
Proof. apply useTimeCheckCause_pass. Qed.

Lemma use_time_check_iff_witness :
  useTimeCheckCause "exe_1" "mch_1" "pln_1" "obs_1" 50 sc_ready = "" ↔
  true = true ∧ Some sc_access_id = (observation_row "obs_1" sc_ready ≫= o_access) ∧ 50 - Z.min 20 10 ≤ 1000000.
Proof.
  refine (use_time_check_iff "exe_1" "mch_1" "pln_1" "obs_1" 50 sc_ready (sc_plan "1") "mch_1" 1 "ep_1" "pln_1" None
    "exe_1" true (Some sc_access_id) 10 20 _ _); vm_compute; reflexivity.
Defined.

(** Comparison 3 finds no newer contradiction exactly when every observation of the machine begun
    after the evidence agrees with the plan's bindings in each value it read. *)
Theorem contradiction_none_iff machine plan basis d b :
  bindings_of machine plan d = Some b →
  newerContradiction machine plan basis d = None ↔
  ∀ o, o ∈ observations d → o_machine o = machine → basis < o_basis o →
    (was_read "identity" o = true → identityMatch (b_machine b) (b_talos b) o = true) ∧
    (was_read "configuration" o = true → o_digest o = p_expected (b_plan b)) ∧
    (was_read "runningVersion" o = true → minorMatch (b_contract b) o = true).
Proof.
  intros Hb. rewrite (newerContradiction_none _ _ _ _ _ Hb). do 4 (apply forall_proper; intros ?).
  unfold contradicts, digest_matches. destruct (was_read "identity" _), (was_read "configuration" _),
    (was_read "runningVersion" _), (identityMatch _ _ _), (minorMatch _ _); case_bool_decide; simpl; naive_solver.
Qed.

Lemma contradiction_none_iff_witness : ∃ b, bindings_of "mch_1" "pln_1" sc_ready = Some b ∧
  (newerContradiction "mch_1" "pln_1" 2 sc_ready = None ↔
   ∀ o, o ∈ observations sc_ready → o_machine o = "mch_1" → 2 < o_basis o →
    (was_read "identity" o = true → identityMatch (b_machine b) (b_talos b) o = true) ∧
    (was_read "configuration" o = true → o_digest o = p_expected (b_plan b)) ∧
    (was_read "runningVersion" o = true → minorMatch (b_contract b) o = true)).
Proof.
  eexists. split; [vm_compute; reflexivity|].
  apply (contradiction_none_iff "mch_1" "pln_1" 2 sc_ready). vm_compute. reflexivity.
Defined.

(** An age is compared exactly in Go's int64 nanoseconds, at any two instants, while the plan's
    allowance fits: the difference saturates rather than wrapping. *)
Theorem age_compared_exactly t u m : 0 ≤ m * 1000 ≤ max64 → (duration_of_micros m <? time_sub t u) = (m <? t - u).
Proof. apply age_exact. Qed.

Lemma age_compared_exactly_witness :
  (duration_of_micros 1000000 <? time_sub (2 ^ 62) 0) = (1000000 <? 2 ^ 62 - 0).
Proof. apply (age_compared_exactly (2 ^ 62) 0 1000000). vm_compute. by split. Defined.

(** A response moves an operation by one of the schema's transitions: to verifying exactly on an
    acceptance and to rejected exactly when the node refused this and every other attempt; it always
    moves one sending its latest attempt, and otherwise only an unresolved one it rejects. *)
Theorem response_moves s latest rej c :
  match response_move s latest rej c with
  | Some (to_, _) => allowed s to_ = true ∧ (to_ = Rejected ↔ c = CRejected ∧ rej = true) ∧ (to_ = Verifying ↔ c = CAccepted)
  | None => ¬ (s = Sending ∧ latest = true) ∧ ¬ (s = Unresolved ∧ c = CRejected ∧ rej = true)
  end.
Proof.
  destruct (response_move s latest rej c) as [[to_ cause]|] eqn:H.
  - by eapply response_move_by_schema.
  - by apply response_move_stays.
Qed.

(** An explanation counts as given exactly when it holds more than Unicode's white space:
    [strings.TrimSpace] leaves nothing of a text exactly when it is a sequence of UTF-8 spaces. *)
Theorem blank_iff s : blank s = true ↔ ∃ ws, Forall (λ w, w ∈ white_space) ws ∧ s = foldr String.append "" ws.
Proof. apply blank_spaces. Qed.

(** A classification relies on exactly the responses and accountings of the operation's attempts
    and its observation's entry, each once, in the timeline's order. *)
Theorem relied_entries_exact op obs d :
  StronglySorted Z.lt (reliedEntries op obs d) ∧
  ∀ x, x ∈ reliedEntries op obs d ↔
    (∃ r, r ∈ responses d ∧ r_revision r = x ∧ ∃ t, t ∈ attempts_of op d ∧ at_id t = r_attempt r)
    ∨ (∃ k, k ∈ accountings d ∧ k_revision k = x ∧ ∃ t, t ∈ attempts_of op d ∧ at_id t = k_attempt k)
    ∨ obs = Some x.
Proof. split; [apply reliedEntries_sorted|intros x; apply reliedEntries_elem]. Qed.

(** ** The observation's property: what a read of a node records. *)

(** Of the three values an observation asks a node for, each is either recorded, being what the
    node answered in its recorded form, or named unread with the cause; a node that falls silent leaves
    that value and every later one unread. *)
Theorem node_read_accounts n o o' :
  read_node_all (reads n) o = Some o' →
  ob_identity o = None → ob_running o = "" → ob_digest o = None →
  ob_unread o !! "identity" = None → ob_unread o !! "runningVersion" = None → ob_unread o !! "configuration" = None →
  match ob_identity o' with
  | Some i => n_identity n = NodeSaid i ∧ validIdentity i = true ∧ ob_unread o' !! "identity" = None
  | None => is_Some (ob_unread o' !! "identity")
  end ∧
  (if bool_decide (ob_running o' = "") then is_Some (ob_unread o' !! "runningVersion")
   else n_version n = NodeSaid (ob_running o') ∧ runningVersionForm (ob_running o') = true
        ∧ ob_unread o' !! "runningVersion" = None) ∧
  match ob_digest o' with
  | Some d => n_config n = NodeSaid (d, ob_resource o') ∧ resourceVersionFm (ob_resource o') = true
              ∧ ob_unread o' !! "configuration" = None
  | None => is_Some (ob_unread o' !! "configuration")
  end.
Proof.
  destruct n as [dl i v c], o as [? ? ? ? ? oi ? orun od ? u]. simpl. intros H -> -> -> Hi Hv Hc.
  revert H. unfold read_with, unreadAll, with_unread. simpl.
  assert (Hlook : ∀ (m : gmap string string) a x, is_Some (<[a := x]> m !! a)) by (intros m a x; rewrite lookup_insert_eq; eauto).
  intros H. destruct i as [id| | |], v as [r| | |], c as [[dg rs]| | |]; simpl in H;
    repeat match type of H with context [if ?b then RRead _ else _] => destruct b eqn:?; simpl in H end;
    try discriminate H; injection H as <-; simpl;
    repeat case_bool_decide; subst; try done;
    split_and!; repeat (rewrite lookup_insert_ne by done); rewrite ?lookup_insert_eq; eauto.
Qed.

(** A node that answers who it is and then fails to tell its version. *)
Definition ob_node : node_script :=
  NodeScript true (NodeSaid (Identity "" "node_1" "abcdefghijklmnopqrstuvwxyzABCDEFGHIJKLMNOPA=")) NodeError NodeSilent.
Definition ob_empty : observed := Observed "obs_1" 1 0 "10.0.0.1" None None "" "" None "" ∅.

Lemma node_read_accounts_witness :
  ∃ o', read_node_all (reads ob_node) ob_empty = Some o' ∧ is_Some (ob_unread o' !! "configuration").
Proof.
  assert (∃ o', read_node_all (reads ob_node) ob_empty = Some o') as [o' Ho] by (eexists; vm_compute; reflexivity).
  pose proof (node_read_accounts ob_node ob_empty o' Ho eq_refl eq_refl eq_refl eq_refl eq_refl eq_refl) as (_ & _ & H).
  exists o'. split; [exact Ho|].
  destruct (ob_digest o'); [|exact H]. destruct H as (H & _). discriminate H.
Defined.
