(* ===== verification/Staging.v ===== *)
(** * Staging claims: [internal/staging], the owner-fenced statements on a claim and its running ingest
    operation, the takeover, the operator's mark and continuation, and the sweep.

    The store holds the installation's epoch, the claims and, by claim, its ingest operation.  A
    statement on one claim reads the clock for each comparison and, later, for the time it sets; a
    claim's being due, which the sweep and the reads ask, is of one reading.  A write that breaks a CHECK of
    table [staging_claim] or its live-key index fails, as the database refuses it.  The controls of
    the fence and of the takeover are not modelled. *)

From stdpp Require Import sorting.
From S2P Require Import Prelude.

Inductive mode := Transient | Encrypted.
Inductive claim_state := Held | Paused | Resumed | Released | Abandoned.
Inductive claim_kind := KImport | KDriftAdoption | KDraftUpdate.
Inductive review := Pending | Continued.
#[export] Instance mode_eq : EqDecision mode. Proof. solve_decision. Defined.
#[export] Instance claim_state_eq : EqDecision claim_state. Proof. solve_decision. Defined.
#[export] Instance claim_kind_eq : EqDecision claim_kind. Proof. solve_decision. Defined.
#[export] Instance review_eq : EqDecision review. Proof. solve_decision. Defined.

(** Table [staging_claim]; the payload with its digest. *)
Record claim := MkClaim {
  c_mode : mode; c_state : claim_state; c_owner : string; c_gen : Z; c_epoch : string;
  c_lease : Z; c_expires : Z; c_payload : option (string * string);
  c_key : option (string * string); c_cluster : string; c_machine : option string;
  c_draft : option string; c_kind : claim_kind; c_review : option review; c_created : Z }.

(** An ingest operation, its claim's one. *)
Inductive job_state := JRunning | JSucceeded | JFailed.
#[export] Instance job_state_eq : EqDecision job_state. Proof. solve_decision. Defined.
Record job := MkJob {
  j_state : job_state; j_owner : option string; j_gen : Z; j_epoch : option string;
  j_lease : option Z; j_last : Z }.

Record stage := Stage {
  s_epoch : string; s_clock : Z; s_claims : gmap string claim; s_jobs : gmap string job;
  s_events : list (string * Z * string) }.

(** [Owner], [Timers] (nanoseconds) and [Claim]. *)
Record owner := Owner { o_who : string; o_epoch : string }.
Record timers := Timers { t_lease : Z; t_expiry : Z }.
Record Claim := AClaim {
  k_id : string; k_kind : claim_kind; k_mode : mode; k_cluster : string; k_machine : option string;
  k_draft : option string; k_review : option review; k_gen : Z }.

Inductive stage_error :=
| ErrFenced | ErrEpochSuperseded | ErrNoClaim | ErrNotEncrypted | ErrEnded | ErrLeaseLive | ErrClaimEpoch
| ErrPaused | ErrNotPaused | ErrArgument | ErrNotAtGeneration | ErrCheck | ErrMarkable.

Notation ST := (M stage stage_error).

(** [Duration.Microseconds] *)
Definition micros (d : Z) : Z := Z.quot d 1000.

Definition live (s : claim_state) : bool := match s with Held | Paused | Resumed => true | _ => false end.

(** The CHECKs of the table that concern its state, mode, payload, review and subject. *)
Definition claim_checks (c : claim) : bool :=
  (bool_decide (c_payload c = None) || (bool_decide (c_mode c = Encrypted) && live (c_state c)))
  && (bool_decide (c_review c = None) || bool_decide (c_mode c = Encrypted))
  && (negb (bool_decide (c_state c = Paused)) || (bool_decide (c_review c = Some Pending) && bool_decide (is_Some (c_payload c))))
  && (negb (bool_decide (c_state c = Resumed)) || bool_decide (c_mode c = Encrypted))
  && (1 <=? c_gen c)
  && bool_decide ((c_kind c = KImport ∨ c_kind c = KDriftAdoption) ↔ is_Some (c_machine c))
  && bool_decide (c_kind c = KDraftUpdate ↔ is_Some (c_draft c))
  && (negb (bool_decide (c_kind c = KDraftUpdate)) || bool_decide (c_mode c = Transient)).

Section Staging.
Variable tick : Z → Z.

Definition clock_now : ST Z :=
  t ← gets (λ s, tick (s_clock s));
  modify (λ s, Stage (s_epoch s) t (s_claims s) (s_jobs s) (s_events s));; mret t.

Definition set_claims (f : gmap string claim → gmap string claim) (s : stage) : stage :=
  Stage (s_epoch s) (s_clock s) (f (s_claims s)) (s_jobs s) (s_events s).
Definition set_jobs (f : gmap string job → gmap string job) (s : stage) : stage :=
  Stage (s_epoch s) (s_clock s) (s_claims s) (f (s_jobs s)) (s_events s).

(** [UPDATE staging_claim SET f WHERE id = $1 AND P]: the row written, if any. *)
Definition update_claim (id : string) (P : claim → bool) (f : claim → claim) : ST (option claim) :=
  row ← gets (λ s, s_claims s !! id);
  match row with
  | Some c =>
      if P c then failIf (negb (claim_checks (f c))) ErrCheck;; modify (set_claims (<[id := f c]>));; mret (Some (f c))
      else mret None
  | None => mret None
  end.

(** [UPDATE operation SET lease_until WHERE ingestion = $1 AND state = 'running' AND P] *)
Definition with_lease (l : Z) (j : job) : job := MkJob (j_state j) (j_owner j) (j_gen j) (j_epoch j) (Some l) (j_last j).
Definition update_job (id : string) (P : job → bool) (f : job → job) : ST bool :=
  row ← gets (λ s, s_jobs s !! id);
  match row with
  | Some j =>
      if bool_decide (j_state j = JRunning) && P j then modify (set_jobs (<[id := f j]>));; mret true else mret false
  | None => mret false
  end.

(** [fence] *)
Definition fence (o : owner) (gen : Z) (current : string) (t t' : Z) (c : claim) : bool :=
  bool_decide (c_owner c = o_who o) && (c_gen c =? gen) && bool_decide (c_epoch c = o_epoch o)
  && bool_decide (o_epoch o = current) && (bool_decide (c_state c = Held) || bool_decide (c_state c = Resumed))
  && (t <? c_lease c) && (t' <? c_expires c).

(** [refused]: why a statement wrote nothing. *)
Definition refused {A} (o : owner) (wrote : option A) : ST unit :=
  match wrote with
  | Some _ => mret tt
  | None => current ← gets s_epoch; if negb (bool_decide (current = o_epoch o)) then throw ErrEpochSuperseded else throw ErrFenced
  end.

Definition with_claim_lease (l : Z) (c : claim) : claim :=
  MkClaim (c_mode c) (c_state c) (c_owner c) (c_gen c) (c_epoch c) l (c_expires c) (c_payload c) (c_key c)
    (c_cluster c) (c_machine c) (c_draft c) (c_kind c) (c_review c) (c_created c).
Definition with_payload (p : option (string * string)) (c : claim) : claim :=
  MkClaim (c_mode c) (c_state c) (c_owner c) (c_gen c) (c_epoch c) (c_lease c) (c_expires c) p (c_key c)
    (c_cluster c) (c_machine c) (c_draft c) (c_kind c) (c_review c) (c_created c).
Definition with_claim_state (st : claim_state) (c : claim) : claim :=
  MkClaim (c_mode c) st (c_owner c) (c_gen c) (c_epoch c) (c_lease c) (c_expires c) (c_payload c) (c_key c)
    (c_cluster c) (c_machine c) (c_draft c) (c_kind c) (c_review c) (c_created c).
Definition taken (o : owner) (st : claim_state) (r : option review) (lease : Z) (c : claim) : claim :=
  MkClaim (c_mode c) st (o_who o) (c_gen c + 1) (o_epoch o) lease (c_expires c) (c_payload c) (c_key c)
    (c_cluster c) (c_machine c) (c_draft c) (c_kind c) r (c_created c).

(** An owner's fenced statement; the last reading is its SET's. *)
Definition fenced_update (o : owner) (c : Claim) (P : claim → bool) (f : Z → claim → claim) : ST claim :=
  current ← gets s_epoch; t ← clock_now; t' ← clock_now; now ← clock_now;
  row ← update_claim (k_id c) (λ r, fence o (k_gen c) current t t' r && P r) (f now);
  refused o row;;
  getsOr (λ _, row) ErrFenced.

(** [Create] *)
Definition Create (o : owner) (tm : timers) (c : Claim) (principal key : string) : ST unit :=
  failIf (bool_decide (o_who o = "") || bool_decide (o_epoch o = "") || negb (k_gen c =? 1)) ErrArgument;;
  failIf ((t_lease tm <=? 0) || (t_expiry tm <=? t_lease tm)) ErrArgument;;
  current ← gets s_epoch; t ← clock_now;
  if negb (bool_decide (o_epoch o = current)) then throw ErrEpochSuperseded else
  let row := MkClaim (k_mode c) Held (o_who o) 1 (o_epoch o) (t + micros (t_lease tm)) (t + micros (t_expiry tm)) None
    (Some (principal, key)) (k_cluster c) (k_machine c) (k_draft c) (k_kind c) (k_review c) t in
  taken_ ← gets (λ s, bool_decide (is_Some (s_claims s !! k_id c))
    || bool_decide (map_Exists (λ _ x, live (c_state x) = true ∧ c_key x = Some (principal, key)) (s_claims s)));
  failIf (taken_ || negb (claim_checks row)) ErrCheck;;
  modify (set_claims (<[k_id c := row]>)).

(** [Heartbeat] *)
Definition owned_by (o : owner) (j : job) : bool := bool_decide (j_owner j = Some (o_who o)).
Definition Heartbeat (o : owner) (c : Claim) (lease : Z) : ST unit :=
  failIf (lease <=? 0) ErrArgument;;
  r ← fenced_update o c (λ _, true) (λ t r, with_claim_lease (Z.min (t + micros lease) (c_expires r)) r);
  update_job (k_id c) (owned_by o) (with_lease (c_lease r));; mret tt.

(** [Restart] *)
Definition Restart (id : string) (tm : timers) (fresh : bool) : ST unit :=
  t ← clock_now;
  row ← (if fresh
         then update_claim id (λ c, bool_decide (c_state c = Held)) (λ c,
           MkClaim (c_mode c) (c_state c) (c_owner c) (c_gen c) (c_epoch c) (t + micros (t_lease tm))
             (t + micros (t_expiry tm)) (c_payload c) (c_key c) (c_cluster c) (c_machine c) (c_draft c) (c_kind c)
             (c_review c) t)
         else update_claim id (λ c, (bool_decide (c_state c = Held) || bool_decide (c_state c = Resumed)) && (t <? c_expires c))
           (λ c, with_claim_lease (Z.min (t + micros (t_lease tm)) (c_expires c)) c));
  match row with
  | None => throw ErrEnded
  | Some c => update_job id (λ _, true) (with_lease (c_lease c));; mret tt
  end.

(** [StorePayload] *)
Definition StorePayload (o : owner) (c : Claim) (ct sum : string) : ST unit :=
  failIf (negb (bool_decide (k_mode c = Encrypted)) || bool_decide (ct = "")) ErrArgument;;
  fenced_update o c (λ _, true) (λ _, with_payload (Some (ct, sum)));; mret tt.

(** [Pause]: the lease ends at a reading of its own, which may be past the expiry the fence tested. *)
Definition Pause (o : owner) (c : Claim) (ct : option (string * string)) : ST unit :=
  failIf (match ct with Some (p, _) => negb (bool_decide (k_mode c = Encrypted)) || bool_decide (p = "") | None => false end)
    ErrArgument;;
  r ← fenced_update o c (λ r, bool_decide (c_review r = Some Pending)) (λ t r,
    with_payload (match ct with Some p => Some p | None => c_payload r end) (with_claim_lease t (with_claim_state Paused r)));
  update_job (k_id c) (owned_by o) (with_lease (c_lease r));; mret tt.

(** [Hold] *)
Definition Hold (o : owner) (c : Claim) : ST unit := fenced_update o c (λ _, true) (λ _ r, r);; mret tt.

(** [end], [Release] and [Abandon] *)
Definition end_claim (st : claim_state) (o : owner) (c : Claim) : ST unit :=
  fenced_update o c (λ _, true) (λ _ r, with_payload None (with_claim_state st r));; mret tt.
Definition Release : owner → Claim → ST unit := end_claim Released.
Definition Abandon : owner → Claim → ST unit := end_claim Abandoned.

(** ** Takeover *)

Definition eligible (current : string) (t t' : Z) (c : claim) : bool :=
  bool_decide (c_mode c = Encrypted) && (bool_decide (c_state c = Held) || bool_decide (c_state c = Resumed))
  && (c_lease c <=? t) && (t' <? c_expires c) && bool_decide (c_epoch c = current).

(** [notEligible]: why not, or [None]. *)
Definition notEligible (o : owner) (id : string) : ST (option stage_error) :=
  current ← gets s_epoch; t ← clock_now; t' ← clock_now; row ← gets (λ s, s_claims s !! id);
  mret match row with
  | None => Some ErrNoClaim
  | Some c =>
      if negb (bool_decide (current = o_epoch o)) then Some ErrEpochSuperseded
      else if negb (bool_decide (c_mode c = Encrypted)) then Some ErrNotEncrypted
      else if bool_decide (c_state c = Paused) && negb (c_expires c <=? t') then Some ErrPaused
      else if (negb (bool_decide (c_state c = Held)) && negb (bool_decide (c_state c = Resumed))) || (c_expires c <=? t')
      then Some ErrEnded
      else if negb (bool_decide (c_epoch c = current)) then Some ErrClaimEpoch
      else if negb (c_lease c <=? t) then Some ErrLeaseLive
      else None
  end.

(** [moveOperation] *)
Definition moveOperation (o : owner) (id : string) (gen until : Z) : ST unit :=
  n ← update_job id (λ j, j_gen j =? gen - 1)
        (λ j, MkJob (j_state j) (Some (o_who o)) gen (Some (o_epoch o)) (Some until) (j_last j));
  failIf (negb n) ErrNotAtGeneration.

(** [TakeOver]: the claim at the taker's generation; a claim with no payload is abandoned. *)
Definition TakeOver (o : owner) (lease : Z) (id : string) : ST claim :=
  failIf (bool_decide (o_who o = "") || bool_decide (o_epoch o = "") || (lease <=? 0)) ErrArgument;;
  current ← gets s_epoch; t ← clock_now; t' ← clock_now; now ← clock_now;
  row ← update_claim id (λ c, bool_decide (o_epoch o = current) && eligible current t t' c)
    (λ c, taken o (if c_payload c then Resumed else Abandoned) (c_review c) (Z.min (now + micros lease) (c_expires c)) c);
  match row with
  | None => why ← notEligible o id; throw (default ErrLeaseLive why)
  | Some c => moveOperation o id (c_gen c) (c_lease c);; mret c
  end.

(** ** Mark and continuation *)

Definition markable (current : string) (gen t : Z) (c : claim) : bool :=
  bool_decide (c_state c = Paused) && (c_gen c =? gen) && (t <? c_expires c) && bool_decide (c_epoch c = current).

(** [notMarkable] *)
Definition notMarkable (o : owner) (id : string) : ST stage_error :=
  current ← gets s_epoch; t ← clock_now; row ← gets (λ s, s_claims s !! id);
  mret match row with
  | None => ErrNoClaim
  | Some c =>
      if negb (bool_decide (current = o_epoch o)) then ErrEpochSuperseded
      else if bool_decide (c_state c = Released) || bool_decide (c_state c = Abandoned)
              || (bool_decide (c_state c = Paused) && (c_expires c <=? t)) then ErrEnded
      else if negb (bool_decide (c_state c = Paused)) then ErrNotPaused
      else if negb (bool_decide (c_epoch c = current)) then ErrClaimEpoch
      else ErrMarkable
  end.

Definition mark (r : review) (o : owner) (lease : Z) (id : string) : ST claim :=
  failIf (bool_decide (o_who o = "") || bool_decide (o_epoch o = "") || (lease <=? 0)) ErrArgument;;
  gen ← getsOr (λ s, c_gen <$> s_claims s !! id) ErrNoClaim;
  current ← gets s_epoch; t ← clock_now; now ← clock_now;
  row ← update_claim id (λ c, bool_decide (o_epoch o = current) && markable current gen t c)
    (λ c, taken o Held (Some r) (Z.min (now + micros lease) (c_expires c)) c);
  match row with
  | None => why ← notMarkable o id; throw why
  | Some c => moveOperation o id (c_gen c) (c_lease c);; mret c
  end.
Definition Mark : owner → Z → string → ST claim := mark Pending.
Definition Continue : owner → Z → string → ST claim := mark Continued.

(** ** The sweep *)

(** [DueSQL] and [EffectiveStateSQL] *)
Definition due (t : Z) (c : claim) : bool :=
  live (c_state c) && ((c_expires c <=? t) || (bool_decide (c_mode c = Transient) && (c_lease c <=? t))).
Definition effective_state (t : Z) (c : claim) : claim_state := if due t c then Abandoned else c_state c.

(** [AbandonDue]: whether it wrote the claim. *)
Definition AbandonDue (id ep : string) : ST bool :=
  t ← clock_now;
  row ← update_claim id (due t) (λ c, with_payload None (with_claim_state Abandoned c));
  match row with
  | None => mret false
  | Some _ =>
      job ← gets (λ s, s_jobs s !! id);
      failed ← update_job id (λ _, true) (λ j, MkJob JFailed None (j_gen j) None None (j_last j + 1));
      (if failed : bool then
         modify (λ s, Stage (s_epoch s) (s_clock s) (s_claims s) (s_jobs s)
           (s_events s ++ [(id, default 0 (j_last <$> job) + 1, ep)]))
       else mret tt);;
      mret true
  end.

(** [candidates] *)
Definition expires_before (x y : string * claim) : Prop :=
  c_expires x.2 < c_expires y.2 ∨ (c_expires x.2 = c_expires y.2 ∧ String.leb x.1 y.1 = true).
#[export] Instance expires_before_dec : RelDecision expires_before.
Proof. intros x y. unfold expires_before. apply _. Defined.
Definition candidates (t : Z) (s : stage) : list string :=
  fst <$> merge_sort expires_before (filter (λ ic, due t ic.2 = true) (map_to_list (s_claims s))).

(** [Sweep]: each candidate in a transaction of its own; how many it abandoned. *)
Definition abandonDue (id : string) : ST bool := ep ← gets s_epoch; AbandonDue id ep.
Fixpoint sweep_all (ids : list string) (n : nat) : P stage stage_error nat := λ s,
  match ids with
  | [] => (Ok n, s)
  | id :: ids =>
      match abandonDue id s with
      | Ok (true, s') => sweep_all ids (S n) s'
      | Ok (false, s') => sweep_all ids n s'
      | Err _ => sweep_all ids n s
      end
  end.
Definition Sweep : P stage stage_error nat := λ s,
  let t := tick (s_clock s) in
  let s := Stage (s_epoch s) t (s_claims s) (s_jobs s) (s_events s) in
  sweep_all (candidates t s) 0 s.
End Staging.
