(* ===== verification/StagingProps.v ===== *)
(** * The staging claims' invariant, its lemmas, and the staging claims' properties. *)

From stdpp Require Import relations sorting.
From S2P Require Import Prelude Staging.


(** ** The invariant *)

(** A claim's row satisfies its table's checks, and the lease of one that an owner holds never passes
    its expiry: that of a paused claim may. *)
Definition owned (c : claim) : Prop := c_state c = Held ∨ c_state c = Resumed.
Definition claim_ok (c : claim) : Prop := claim_checks c = true ∧ (owned c → c_lease c ≤ c_expires c).

(** A running ingest operation is its claim's owner's. *)
Definition job_of (c : claim) (j : job) : Prop :=
  j_state j = JRunning → j_owner j = Some (c_owner c) ∧ j_gen j = c_gen c ∧ j_epoch j = Some (c_epoch c).

Record stage_inv (s : stage) : Prop := {
  inv_claims : ∀ id c, s_claims s !! id = Some c → claim_ok c;
  inv_jobs : ∀ id c j, s_claims s !! id = Some c → s_jobs s !! id = Some j → job_of c j;
  inv_subject : ∀ id j, s_jobs s !! id = Some j → is_Some (s_claims s !! id) }.

(** A claim's later rows. *)
Definition claim_later (c c' : claim) : Prop :=
  c_gen c ≤ c_gen c' ∧ (c_gen c' = c_gen c → c_owner c' = c_owner c ∧ c_epoch c' = c_epoch c)
  ∧ c_mode c' = c_mode c ∧ (live (c_state c) = false → c' = c).
#[export] Instance claim_later_preorder : PreOrder claim_later.
Proof.
  split; [by intros c; split_and!|]. intros x y z (?&Hg1&?&Hx) (?&Hg2&?&Hy). split_and!; [lia| |congruence|].
  - intros Hz. destruct Hg1, Hg2; [lia..|]. split; congruence.
  - intros Ht. specialize (Hx Ht). subst y. by apply Hy.
Qed.
Definition claims_later (s s' : stage) : Prop :=
  ∀ id c, s_claims s !! id = Some c → ∃ c', s_claims s' !! id = Some c' ∧ claim_later c c'.
#[export] Instance claims_later_preorder : PreOrder claims_later.
Proof.
  split; [by intros s id c Hc; exists c|]. intros x y z Hxy Hyz id c Hc.
  destruct (Hxy _ _ Hc) as (c1 & Hc1 & ?). destruct (Hyz _ _ Hc1) as (c2 & ? & ?). exists c2. split; [done|]. by etrans.
Qed.

(** ** The statements' equations *)

Definition clocked (t : Z) (s : stage) : stage := Stage (s_epoch s) t (s_claims s) (s_jobs s) (s_events s).

Section Steps.
Variable tick : Z → Z.

Lemma clock_now_ok s t s' : clock_now tick s = Ok (t, s') → t = tick (s_clock s) ∧ s' = clocked t s.
Proof. unfold clock_now. intros H. by m_inv. Qed.

Ltac clocks := repeat match goal with H : clock_now _ _ = _ |- _ => apply clock_now_ok in H as [-> ->] end.
Lemma update_claim_ok id P f s r s' :
  update_claim id P f s = Ok (r, s') →
  (∃ c, s_claims s !! id = Some c ∧ P c = true ∧ claim_checks (f c) = true ∧ r = Some (f c)
     ∧ s' = set_claims (<[id := f c]>) s)
  ∨ (r = None ∧ s' = s ∧ ∀ c, s_claims s !! id = Some c → P c = false).
Proof.
  unfold update_claim. intros H. m_inv. destruct (s_claims s !! id) as [c|] eqn:Hc; [|m_inv; by right].
  destruct (P c) eqn:HP; m_inv; [left|right; split_and!; [done..|by intros ? [= <-]]].
  exists c. split_and!; try done. by apply negb_false_iff.
Qed.

Lemma update_job_ok id P f s b s' :
  update_job id P f s = Ok (b, s') →
  (∃ j, s_jobs s !! id = Some j ∧ j_state j = JRunning ∧ P j = true ∧ b = true ∧ s' = set_jobs (<[id := f j]>) s)
  ∨ (b = false ∧ s' = s ∧ ∀ j, s_jobs s !! id = Some j → j_state j = JRunning → P j = false).
Proof.
  unfold update_job. intros H. m_inv. destruct (s_jobs s !! id) as [j|] eqn:Hj; [|m_inv; by right].
  destruct (bool_decide (j_state j = JRunning) && P j) eqn:HP; m_inv.
  - apply andb_true_iff in HP as [?%bool_decide_eq_true ?]. left. by exists j.
  - right. split_and!; [done..|]. intros ? [= <-] Hr. by rewrite bool_decide_true in HP.
Qed.

Lemma fenced_update_ok o c P f s r s' :
  fenced_update tick o c P f s = Ok (r, s') →
  ∃ x, let t := tick (s_clock s) in let t' := tick t in let now := tick t' in
    s_claims s !! k_id c = Some x ∧ fence o (k_gen c) (s_epoch s) t t' x = true ∧ P x = true
    ∧ claim_checks (f now x) = true ∧ r = f now x ∧ s' = set_claims (<[k_id c := f now x]>) (clocked now s).
Proof.
  unfold fenced_update. intros H. m_inv. clocks.
  match goal with H : update_claim _ _ _ _ = _ |- _ => apply update_claim_ok in H as [(x & Hx & HP & Hc & Hr & ->)|(Hr & _)] end; [|done].
  unfold refused in *. m_inv. simplify_eq. apply andb_true_iff in HP as [? ?]. by exists x.
Qed.

Lemma fence_true o gen cur t t' c :
  fence o gen cur t t' c = true →
  c_owner c = o_who o ∧ c_gen c = gen ∧ c_epoch c = o_epoch o ∧ o_epoch o = cur
  ∧ owned c ∧ t < c_lease c ∧ t' < c_expires c.
Proof.
  unfold fence, owned. rewrite !andb_true_iff, orb_true_iff, !bool_decide_eq_true, Z.eqb_eq, !Z.ltb_lt. tauto.
Qed.

(** ** What a write keeps *)

Definition set_ok (s : stage) (id : string) (c' : claim) : Prop :=
  ∃ c, s_claims s !! id = Some c ∧ live (c_state c) = true ∧ claim_later c c' ∧ claim_ok c'.

Lemma set_claims_later s id c' : set_ok s id c' → claims_later s (set_claims (<[id := c']>) s).
Proof.
  intros (c & Hc & _ & Hl & _) i x Hx. simpl. destruct (decide (id = i)) as [->|Hne].
  - rewrite lookup_insert_eq. exists c'. split; [done|]. congruence.
  - rewrite lookup_insert_ne by done. by exists x.
Qed.

Lemma set_claims_inv s id c' :
  stage_inv s → set_ok s id c' →
  (∀ c j, s_claims s !! id = Some c → s_jobs s !! id = Some j → job_of c j → job_of c' j) →
  stage_inv (set_claims (<[id := c']>) s).
Proof.
  intros [Hc Hj Hfk] (c & Hid & _ & _ & Hok) Hjob. split; simpl.
  - intros i x Hx. destruct (decide (id = i)) as [->|Hne];
      [rewrite lookup_insert_eq in Hx|rewrite lookup_insert_ne in Hx by done]; [by simplify_eq|by eapply Hc].
  - intros i x j Hx Hi. destruct (decide (id = i)) as [->|Hne];
      [rewrite lookup_insert_eq in Hx|rewrite lookup_insert_ne in Hx by done]; simplify_eq; eauto.
  - intros i j Hi. apply lookup_insert_is_Some'. right. by eapply Hfk.
Qed.

Lemma set_jobs_inv s id f :
  stage_inv s →
  (∀ c j, s_claims s !! id = Some c → s_jobs s !! id = Some j → job_of c j → job_of c (f j)) →
  ∀ j, s_jobs s !! id = Some j → stage_inv (set_jobs (<[id := f j]>) s).
Proof.
  intros [Hc Hj Hfk] Hf j Hid. split; [done|..]; simpl.
  - intros i x y Hx Hy. destruct (decide (id = i)) as [->|Hne];
      [rewrite lookup_insert_eq in Hy|rewrite lookup_insert_ne in Hy by done]; simplify_eq; eauto.
  - intros i y Hy. destruct (decide (id = i)) as [->|Hne]; [by eapply Hfk|].
    rewrite lookup_insert_ne in Hy by done. by eapply Hfk.
Qed.

Lemma clocked_inv t s : stage_inv s → stage_inv (clocked t s).
Proof. by intros [? ? ?]. Qed.

(** ** The statements *)

(** A transaction body that keeps the invariant and only moves claims on. *)
Definition keeps_stage {A} (m : ST A) : Prop :=
  ∀ s x s', stage_inv s → m s = Ok (x, s') → stage_inv s' ∧ claims_later s s'.

(** An owner's write that leaves the claim's owner, generation, epoch and mode. *)
Definition same_owner (c c' : claim) : Prop :=
  c_owner c' = c_owner c ∧ c_gen c' = c_gen c ∧ c_epoch c' = c_epoch c ∧ c_mode c' = c_mode c.
Lemma same_owner_later c c' : same_owner c c' → live (c_state c) = true → claim_later c c'.
Proof. intros (?&?&?&?) Hl. split_and!; try done; [lia|]. by rewrite Hl. Qed.
Lemma same_owner_job c c' j : same_owner c c' → job_of c j → job_of c' j.
Proof. intros (Ho&Hg&He&_) Hj Hr. destruct (Hj Hr) as (?&?&?). rewrite Ho, Hg, He. done. Qed.

Lemma same_owner_keeps s id c c' :
  stage_inv s → s_claims s !! id = Some c → live (c_state c) = true → same_owner c c' →
  claim_checks c' = true → (owned c' → c_lease c' ≤ c_expires c') →
  stage_inv (set_claims (<[id := c']>) s) ∧ claims_later s (set_claims (<[id := c']>) s).
Proof.
  intros Hi Hc Hl Hs Hch Hle. assert (Hok : set_ok s id c').
  { exists c. split_and!; [done..|by apply same_owner_later|by split]. }
  split; [|by apply set_claims_later]. apply set_claims_inv; [done..|].
  intros x j Hx _ Hj. simplify_eq. by eapply same_owner_job.
Qed.

Lemma fenced_keeps o c P f s r s' :
  stage_inv s → fenced_update tick o c P f s = Ok (r, s') →
  (∀ t x, c_lease x ≤ c_expires x → same_owner x (f t x) ∧ (owned (f t x) → c_lease (f t x) ≤ c_expires (f t x))) →
  stage_inv s' ∧ claims_later s s'.
Proof.
  intros Hi H Hf. apply fenced_update_ok in H as (x & Hx & Hfe & _ & Hc & -> & ->).
  apply fence_true in Hfe as (_ & _ & _ & _ & Hst & _ & _).
  destruct (inv_claims _ Hi _ _ Hx) as [_ Hle]. destruct (Hf (tick (tick (tick (s_clock s)))) _ (Hle Hst)).
  eapply (same_owner_keeps (clocked _ s)); eauto using clocked_inv. by destruct Hst as [-> | ->].
Qed.

Lemma lease_job id P l s b s' :
  stage_inv s → update_job id P (with_lease l) s = Ok (b, s') → stage_inv s' ∧ claims_later s s'.
Proof.
  intros Hi H. apply update_job_ok in H as [(j & Hj & _ & _ & _ & ->)|(_ & -> & _)]; [|by split].
  split; [|by intros i c Hc; exists c]. by apply (set_jobs_inv s id (with_lease l)).
Qed.

Lemma Heartbeat_keeps o c lease : keeps_stage (Heartbeat tick o c lease).
Proof.
  intros s x s' Hi H. unfold Heartbeat in H. m_inv.
  match goal with H : fenced_update _ _ _ _ _ _ = _ |- _ => apply fenced_keeps in H as [Hi1 Hl1] end; [|done|].
  - match goal with H : update_job _ _ _ _ = _ |- _ => apply lease_job in H as [? ?] end; [|done].
    split; [done|by etrans].
  - intros t y _. split; [done|]. simpl. lia.
Qed.
Lemma Pause_keeps o c ct : keeps_stage (Pause tick o c ct).
Proof.
  intros s x s' Hi H. unfold Pause in H. m_inv.
  match goal with H : fenced_update _ _ _ _ _ _ = _ |- _ => apply fenced_keeps in H as [Hi1 Hl1] end; [|done|].
  - match goal with H : update_job _ _ _ _ = _ |- _ => apply lease_job in H as [? ?] end; [|done].
    split; [done|by etrans].
  - intros t y _. split; [done|]. by intros [[=]|[=]].
Qed.
Lemma StorePayload_keeps o c ct sum : keeps_stage (StorePayload tick o c ct sum).
Proof. intros s x s' Hi H. unfold StorePayload in H. m_inv. by eapply fenced_keeps. Qed.
Lemma Hold_keeps o c : keeps_stage (Hold tick o c).
Proof. intros s x s' Hi H. unfold Hold in H. m_inv. by eapply fenced_keeps. Qed.
Lemma end_claim_keeps st o c : keeps_stage (end_claim tick st o c).
Proof. intros s x s' Hi H. unfold end_claim in H. m_inv. by eapply fenced_keeps. Qed.

Lemma micros_mono a b : 0 < a → a < b → 0 ≤ micros a ≤ micros b.
Proof. intros. unfold micros. split; [apply Z.quot_pos; lia|apply Z.quot_le_mono; lia]. Qed.

Lemma Create_keeps o tm c p k : keeps_stage (Create tick o tm c p k).
Proof.
  intros s x s' Hi H. unfold Create in H. m_inv.
  clocks.
  match goal with H : _ || _ = false |- _ => apply orb_false_iff in H as [Hlt%Z.leb_gt Hle%Z.leb_gt] end.
  if_inv; [by m_inv|]. m_inv.
  match goal with H : _ || _ = false |- _ => apply orb_false_iff in H as [[Hn _]%orb_false_iff Hc%negb_false_iff] end.
  apply bool_decide_eq_false, eq_None_not_Some in Hn. simpl in Hn. apply clocked_inv with (t := tick (s_clock s)) in Hi.
  pose proof (micros_mono _ _ Hlt Hle). split.
  - destruct Hi as [H1 H2 H3]. split; simpl.
    + intros i y Hy. destruct (decide (k_id c = i)) as [<-|Hne];
        [rewrite lookup_insert_eq in Hy|rewrite lookup_insert_ne in Hy by done; by eapply H1].
      simplify_eq. split; [done|]. simpl. lia.
    + intros i y j Hy Hj. destruct (decide (k_id c = i)) as [<-|Hne].
      * destruct (H3 _ _ Hj) as [z Hz]. simpl in Hz. congruence.
      * rewrite lookup_insert_ne in Hy by done. by eapply H2.
    + intros i j Hj. apply lookup_insert_is_Some'. right. by eapply H3.
  - intros i y Hy. exists y. split; [|done]. simpl. rewrite lookup_insert_ne; [done|]. intros <-. congruence.
Qed.

Lemma Restart_keeps id tm fresh :
  0 < t_lease tm → t_lease tm < t_expiry tm → keeps_stage (Restart tick id tm fresh).
Proof.
  intros Hlt Hle s x s' Hi H. unfold Restart in H. m_inv. pose proof (micros_mono _ _ Hlt Hle).
  clocks.
  apply clocked_inv with (t := tick (s_clock s)) in Hi.
  assert (Hw : ∃ c, match a0 with Some y => y = c | None => False end ∧ stage_inv s1 ∧ claims_later s s1).
  { destruct fresh; match goal with H : update_claim _ _ _ _ = _ |- _ =>
      apply update_claim_ok in H as [(c & Hc & HP & Hch & -> & ->)|(-> & -> & _)] end; try by m_inv.
    - apply bool_decide_eq_true in HP. eexists. split; [done|].
      apply (same_owner_keeps (clocked _ s) id c); [done..|by rewrite HP|done|done|simpl; lia].
    - apply andb_true_iff in HP as [HP _]. eexists. split; [done|].
      apply (same_owner_keeps (clocked _ s) id c); [done..| |done|done|simpl; lia].
      apply orb_true_iff in HP as [->%bool_decide_eq_true| ->%bool_decide_eq_true]; done. }
  destruct Hw as (c & Hc & Hi1 & Hl1). destruct a0 as [y|]; [|done]. subst y. m_inv.
  match goal with H : update_job _ _ _ _ = _ |- _ => apply lease_job in H as [? ?] end; [|done].
  split; [done|by etrans].
Qed.

(** A take: the claim at the next generation, its running job with it. *)
Lemma take_keeps s id c o st r lease s' u :
  stage_inv s → s_claims s !! id = Some c → live (c_state c) = true →
  claim_checks (taken o st r lease c) = true → lease ≤ c_expires c →
  moveOperation o id (c_gen c + 1) lease (set_claims (<[id := taken o st r lease c]>) s) = Ok (u, s') →
  stage_inv s' ∧ claims_later s s'.
Proof.
  intros Hi Hc Hl Hch Hle H. unfold moveOperation in H. m_inv.
  assert (Hok : set_ok s id (taken o st r lease c)).
  { exists c. split; [done|]. split; [done|]. split; [|by split].
    split; [simpl; lia|]. split; [simpl; lia|]. split; [done|]. by rewrite Hl. }
  match goal with H : update_job _ _ _ _ = _ |- _ => apply update_job_ok in H as [(j & Hj & _ & _ & -> & ->)|(-> & _ & _)] end;
    [|done]. split; [|exact (set_claims_later s id _ Hok)].
  destruct Hi as [H1 H2 H3]. split; simpl.
  - intros i x Hx. destruct (decide (id = i)) as [->|Hne];
      [rewrite lookup_insert_eq in Hx|rewrite lookup_insert_ne in Hx by done; by eapply H1]. simplify_eq. by split.
  - intros i x y Hx Hy. destruct (decide (id = i)) as [->|Hne].
    + rewrite lookup_insert_eq in Hx. rewrite lookup_insert_eq in Hy. simplify_eq. by intros _.
    + rewrite lookup_insert_ne in Hx by done. rewrite lookup_insert_ne in Hy by done. by eapply H2.
  - intros i y Hy. apply lookup_insert_is_Some'. destruct (decide (id = i)) as [->|Hne]; [by left|right].
    rewrite lookup_insert_ne in Hy by done. by eapply H3.
Qed.

Lemma TakeOver_keeps o lease id : keeps_stage (TakeOver tick o lease id).
Proof.
  intros s x s' Hi H. unfold TakeOver in H. m_inv.
  clocks.
  match goal with H : update_claim _ _ _ _ = _ |- _ =>
    apply update_claim_ok in H as [(c & Hc & HP & Hch & -> & ->)|(-> & -> & _)] end; m_inv.
  unfold eligible in HP. rewrite !andb_true_iff, orb_true_iff, !bool_decide_eq_true in HP. split_hyps.
  refine (take_keeps _ _ _ _ _ _ _ _ _ _ Hc _ Hch _ _); [by repeat apply clocked_inv|..|eassumption]; [by repeat match goal with H : _ ∨ _ |- _ => destruct H as [-> | ->] end|simpl; lia].
Qed.
Lemma mark_keeps r o lease id : keeps_stage (mark tick r o lease id).
Proof.
  intros s x s' Hi H. unfold mark in H. m_inv.
  clocks.
  match goal with H : update_claim _ _ _ _ = _ |- _ =>
    apply update_claim_ok in H as [(c & Hc & HP & Hch & -> & ->)|(-> & -> & _)] end; m_inv.
  unfold markable in HP. rewrite !andb_true_iff, !bool_decide_eq_true in HP. split_hyps.
  refine (take_keeps _ _ _ _ _ _ _ _ _ _ Hc _ Hch _ _); [by repeat apply clocked_inv|..|eassumption]; [by match goal with H : c_state _ = _ |- _ => rewrite H end|simpl; lia].
Qed.

Lemma AbandonDue_keeps id ep : keeps_stage (AbandonDue tick id ep).
Proof.
  intros s x s' Hi H. unfold AbandonDue in H. m_inv.
  clocks.
  match goal with H : update_claim _ _ _ _ = _ |- _ =>
    apply update_claim_ok in H as [(c & Hc & HP & Hch & -> & ->)|(-> & -> & _)] end; m_inv;
    [|split; [by apply clocked_inv|by intros i c Hc; exists c]].
  apply clocked_inv with (t := tick (s_clock s)) in Hi.
  apply andb_true_iff in HP as [Hlive _].
  destruct (same_owner_keeps (clocked (tick (s_clock s)) s) id c (with_payload None (with_claim_state Abandoned c)))
    as [Hi1 Hl1]; try done; [by intros [[=]|[=]]|].
  assert (Hj : stage_inv s0 ∧ claims_later s s0).
  { match goal with H : update_job _ _ _ _ = _ |- _ => apply update_job_ok in H as [(j & Hj & _ & _ & -> & ->)|(-> & -> & _)] end;
      [|done]. split; [|done]. by apply (set_jobs_inv _ id (λ j, MkJob JFailed None (j_gen j) None None (j_last j + 1))). }
  destruct Hj as [Hi2 Hl2]. destruct a; m_inv; [|done]. split; [|done]. by destruct Hi2.
Qed.

(** ** The system of processes *)

(** One committed statement of any process, or a step of the rest: it may change the epoch, the
    clock and the jobs, which stay their claims'. *)
Inductive sstep : stage → stage → Prop :=
| ss_create o tm c p k s u s' : Create tick o tm c p k s = Ok (u, s') → sstep s s'
| ss_heartbeat o c l s u s' : Heartbeat tick o c l s = Ok (u, s') → sstep s s'
| ss_restart id tm fresh s u s' :
    0 < t_lease tm → t_lease tm < t_expiry tm → Restart tick id tm fresh s = Ok (u, s') → sstep s s'
| ss_store o c ct sum s u s' : StorePayload tick o c ct sum s = Ok (u, s') → sstep s s'
| ss_pause o c ct s u s' : Pause tick o c ct s = Ok (u, s') → sstep s s'
| ss_hold o c s u s' : Hold tick o c s = Ok (u, s') → sstep s s'
| ss_end st o c s u s' : end_claim tick st o c s = Ok (u, s') → sstep s s'
| ss_takeover o l id s u s' : TakeOver tick o l id s = Ok (u, s') → sstep s s'
| ss_mark r o l id s u s' : mark tick r o l id s = Ok (u, s') → sstep s s'
| ss_abandon id ep s u s' : AbandonDue tick id ep s = Ok (u, s') → sstep s s'
| ss_env s s' :
    s_claims s' = s_claims s →
    (∀ id c j, s_claims s !! id = Some c → s_jobs s' !! id = Some j → job_of c j) →
    (∀ id j, s_jobs s' !! id = Some j → is_Some (s_claims s !! id)) → sstep s s'.

Lemma sstep_keeps s s' : sstep s s' → stage_inv s → stage_inv s' ∧ claims_later s s'.
Proof.
  intros H Hi. destruct H;
    try (match goal with H : ?m _ = Ok _ |- _ => refine ((_ : keeps_stage m) _ _ _ Hi H) end;
         auto using Create_keeps, Heartbeat_keeps, Restart_keeps, StorePayload_keeps, Pause_keeps, Hold_keeps,
           end_claim_keeps, TakeOver_keeps, mark_keeps, AbandonDue_keeps; fail).
  destruct Hi as [J1 J2 J3]. split; [split|].
  - intros i c. rewrite H. apply J1.
  - intros i c j. rewrite H. eauto.
  - intros i j. rewrite H. eauto.
  - intros i c Hc. exists c. by rewrite H.
Qed.

Lemma ssteps_keeps s s' : rtc sstep s s' → stage_inv s → stage_inv s' ∧ claims_later s s'.
Proof.
  induction 1 as [|x y z Hxy _ IH]; intros Hi; [by split|]. destruct (sstep_keeps _ _ Hxy Hi) as [Hy Hl].
  destruct (IH Hy). split; [done|by etrans].
Qed.

(** ** The fence *)

(** A statement under a generation the claim has left, or on a claim that ended, writes nothing. *)
Lemma fenced_update_stale o c P f s r s' x :
  s_claims s !! k_id c = Some x → k_gen c < c_gen x ∨ live (c_state x) = false →
  fenced_update tick o c P f s ≠ Ok (r, s').
Proof.
  intros Hx Hst H. apply fenced_update_ok in H as (y & Hy & Hf & _). simplify_eq.
  apply fence_true in Hf as (_ & ? & _ & _ & Hs & _). destruct Hst as [?|Hl]; [lia|]. by destruct Hs as [Hs|Hs]; rewrite Hs in Hl.
Qed.

(** ** The statements keep the checks themselves *)

(** A body that no CHECK refuses at a store. *)
Definition unchecked {A} (m : ST A) (s : stage) : Prop := m s ≠ Err ErrCheck.
Lemma unchecked_bind {A B} (m : ST A) (k : A → ST B) s :
  unchecked m s → (∀ x s', m s = Ok (x, s') → unchecked (k x) s') → unchecked (m ≫= k) s.
Proof. intros Hm Hk [H|(x & s' & H1 & H2)]%bind_err; [done|]. by eapply Hk. Qed.
Lemma unchecked_ret {A} (x : A) s : unchecked (mret x) s.
Proof. apply ret_err. Qed.
Lemma unchecked_gets {A} (f : stage → A) s : unchecked (gets f) s.
Proof. apply gets_err. Qed.
Lemma unchecked_modify f s : unchecked (modify f) s.
Proof. apply modify_err. Qed.
Lemma unchecked_throw {A} e s : e ≠ ErrCheck → unchecked (throw e : ST A) s.
Proof. by intros He ?%throw_err. Qed.
Lemma unchecked_failIf b e s : e ≠ ErrCheck → unchecked (failIf b e) s.
Proof. intros He [_ ?]%failIf_err. done. Qed.
Lemma unchecked_getsOr {A} (f : stage → option A) e s : e ≠ ErrCheck → unchecked (getsOr f e) s.
Proof. intros He [_ ?]%getsOr_err. done. Qed.
Lemma unchecked_clock s : unchecked (clock_now tick) s.
Proof. apply unchecked_bind; [apply unchecked_gets|]. intros t s' _. apply unchecked_bind; [apply unchecked_modify|intros; apply unchecked_ret]. Qed.
Hint Resolve unchecked_ret unchecked_gets unchecked_modify unchecked_throw unchecked_failIf unchecked_getsOr unchecked_clock : unchecked.
Lemma unchecked_job id P f s : unchecked (update_job id P f) s.
Proof.
  unfold update_job. apply unchecked_bind; [auto with unchecked|]. intros [j|] s' _; [|auto with unchecked].
  destruct (_ && _); [apply unchecked_bind|]; auto with unchecked.
Qed.
Lemma unchecked_refused {A} o (r : option A) s : unchecked (refused o r) s.
Proof.
  unfold refused. destruct r; [auto with unchecked|]. apply unchecked_bind; [auto with unchecked|].
  intros x s' _. destruct (negb _); by apply unchecked_throw.
Qed.
Lemma unchecked_move o id gen until s : unchecked (moveOperation o id gen until) s.
Proof. unfold moveOperation. apply unchecked_bind; [apply unchecked_job|]. intros x s' _. by apply unchecked_failIf. Qed.
Lemma unchecked_update id P f s :
  (∀ c, s_claims s !! id = Some c → P c = true → claim_checks (f c) = true) → unchecked (update_claim id P f) s.
Proof.
  intros Hf. unfold update_claim. apply unchecked_bind; [auto with unchecked|]. intros r s' [<- <-]%gets_ok.
  destruct (s_claims s !! id) as [c|] eqn:Hc; [|auto with unchecked]. destruct (P c) eqn:HP; [|auto with unchecked].
  apply unchecked_bind; [|intros; apply unchecked_bind; auto with unchecked].
  intros [Hn _]%failIf_err. by rewrite (Hf c eq_refl HP) in Hn.
Qed.
Hint Resolve unchecked_job unchecked_refused unchecked_move : unchecked.
(** Proves that no CHECK refuses a body, up to its updates of the claim. *)
Ltac unchecked_parts := repeat first
  [ progress (intros; clocks)
  | match goal with H : gets _ _ = Ok _ |- _ => apply gets_ok in H as [<- <-] | H : failIf _ _ _ = Ok _ |- _ => apply failIf_ok in H as [_ <-]
    | H : getsOr _ _ _ = Ok _ |- _ => apply getsOr_ok in H as [? <-] end
  | match goal with |- unchecked (match ?x with _ => _ end) _ => destruct x eqn:? end
  | solve [auto with unchecked]
  | solve [first [apply unchecked_throw | apply unchecked_failIf | apply unchecked_getsOr]; done]
  | lazymatch goal with
    | |- unchecked (update_claim _ _ _) _ => apply unchecked_update
    | |- unchecked (mbind _ _) _ => apply unchecked_bind end ].
Lemma fenced_unchecked o c P f s :
  (∀ x t, s_claims s !! k_id c = Some x → owned x → P x = true → claim_checks (f t x) = true) → unchecked (fenced_update tick o c P f) s.
Proof.
  intros Hf. unfold fenced_update. unchecked_parts. match goal with H : _ && _ = true |- _ => apply andb_true_iff in H as [Hfe HP] end.
  apply fence_true in Hfe as (_ & _ & _ & _ & Ho & _). by eapply Hf.
Qed.
Lemma ended_checks c st : claim_checks c = true → live st = false → claim_checks (with_payload None (with_claim_state st c)) = true.
Proof.
  unfold claim_checks. rewrite !andb_true_iff. simpl. intros H Hst. split_hyps. split_and!; try done; by destruct st.
Qed.
Lemma payload_checks c p : claim_checks c = true → c_mode c = Encrypted → live (c_state c) = true →
  claim_checks (with_payload (Some p) c) = true.
Proof.
  unfold claim_checks. rewrite !andb_true_iff. simpl. intros H Hm Hl. split_hyps. rewrite Hm, Hl in *. split_and!; try done.
  match goal with H : _ || (bool_decide (_ = Some Pending) && _) = true |- _ => apply orb_true_iff in H as [->|Hr]; [done|] end.
  apply andb_true_iff in Hr as [-> _]. by rewrite orb_true_r.
Qed.
Lemma paused_encrypted c : claim_checks c = true → c_state c = Paused → c_mode c = Encrypted.
Proof.
  unfold claim_checks. rewrite !andb_true_iff. intros H Hp. split_hyps. rewrite Hp in *.
  destruct (c_payload c), (c_mode c); try done; simpl in *; by rewrite andb_false_r in *.
Qed.
Lemma paused_checks c p t : claim_checks c = true → c_review c = Some Pending → is_Some p →
  claim_checks (with_payload p (with_claim_lease t (with_claim_state Paused c))) = true.
Proof.
  unfold claim_checks. rewrite !andb_true_iff. simpl. intros H Hr [x ->]. split_hyps. rewrite Hr in *.
  assert (Hm : c_mode c = Encrypted) by (by destruct (c_mode c)). rewrite Hm in *. by split_and!.
Qed.
Lemma taken_checks o c st r l :
  claim_checks c = true → c_mode c = Encrypted → st = Held ∨ st = Resumed ∨ st = Abandoned → (st = Abandoned → c_payload c = None) →
  claim_checks (taken o st r l c) = true.
Proof.
  unfold claim_checks. rewrite !andb_true_iff. simpl. intros H Hm Hst Hp. split_hyps. rewrite Hm in *. split_and!; try done.
  - destruct Hst as [->|[->| ->]]; simpl; [by rewrite orb_true_r..|]. by rewrite (Hp eq_refl).
  - by rewrite orb_true_r.
  - by destruct Hst as [->|[->| ->]].
  - by rewrite orb_true_r.
  - match goal with H : (1 <=? _) = true |- _ => apply Z.leb_le in H end. apply Z.leb_le. lia.
Qed.
Lemma inv_checks s id c : stage_inv s → s_claims s !! id = Some c → claim_checks c = true.
Proof. intros Hi Hc. by destruct (inv_claims _ Hi _ _ Hc). Qed.
Hint Resolve inv_checks : unchecked.
(** An owner's statements other than [StorePayload] and [Pause]. *)
Lemma owner_unchecked o c s : stage_inv s →
  (∀ l, unchecked (Heartbeat tick o c l) s) ∧ unchecked (Hold tick o c) s ∧ (∀ st, live st = false → unchecked (end_claim tick st o c) s).
Proof.
  intros Hi. unfold Heartbeat, Hold, end_claim. split_and!; [intros l| |intros st Hst]; unchecked_parts;
    apply fenced_unchecked; intros y t Hy _ _; [exact (inv_checks _ _ _ Hi Hy)..|].
  by apply ended_checks; [eapply inv_checks|].
Qed.
Lemma Restart_unchecked id tm fresh s : stage_inv s → unchecked (Restart tick id tm fresh) s.
Proof.
  intros Hi. unfold Restart. unchecked_parts; intros; exact (inv_checks _ _ _ Hi ltac:(eassumption)).
Qed.
Lemma AbandonDue_unchecked id ep s : stage_inv s → unchecked (AbandonDue tick id ep) s.
Proof.
  intros Hi. unfold AbandonDue. unchecked_parts. apply ended_checks; [|done]. exact (inv_checks _ _ _ Hi ltac:(eassumption)).
Qed.
(** The refusals' reasons are never a CHECK's. *)
Lemma notEligible_ok o id s e s' : notEligible tick o id s = Ok (Some e, s') → e ≠ ErrCheck.
Proof. unfold notEligible. intros H. m_inv. repeat case_match; naive_solver. Qed.
Lemma notMarkable_ok o id s e s' : notMarkable tick o id s = Ok (e, s') → e ≠ ErrCheck.
Proof. unfold notMarkable. intros H. m_inv. repeat case_match; naive_solver. Qed.
Lemma TakeOver_unchecked o l id s : stage_inv s → unchecked (TakeOver tick o l id) s.
Proof.
  intros Hi. unfold TakeOver. unchecked_parts.
  - match goal with H : _ && eligible _ _ _ _ = true |- _ => apply andb_true_iff in H as [_ He] end.
    unfold eligible in He. rewrite !andb_true_iff, !bool_decide_eq_true in He. split_hyps.
    apply taken_checks; [exact (inv_checks _ _ _ Hi ltac:(eassumption))|done|destruct (c_payload c); auto|by destruct (c_payload c)].
  - unfold notEligible. unchecked_parts.
  - apply unchecked_throw. match goal with H : notEligible _ _ _ _ = Ok (?w, _) |- _ => destruct w; [by apply notEligible_ok in H|done] end.
Qed.
Lemma mark_unchecked r o l id s : stage_inv s → unchecked (mark tick r o l id) s.
Proof.
  intros Hi. unfold mark. unchecked_parts.
  - match goal with H : _ && markable _ _ _ _ = true |- _ => apply andb_true_iff in H as [_ Hm] end.
    unfold markable in Hm. rewrite !andb_true_iff, !bool_decide_eq_true in Hm. split_hyps.
    pose proof (inv_checks _ _ c Hi ltac:(eassumption)) as Hc.
    apply taken_checks; [done|by apply paused_encrypted|by left|done].
  - unfold notMarkable. unchecked_parts.
  - apply unchecked_throw. by eapply notMarkable_ok.
Qed.
(** A payload is refused only of a transient claim, and a pause only where no payload is given or stored. *)
Lemma payload_unchecked o c ct sum s : stage_inv s →
  (∀ x, s_claims s !! k_id c = Some x → c_mode x = Encrypted) → unchecked (StorePayload tick o c ct sum) s.
Proof.
  intros Hi Hm. unfold StorePayload. unchecked_parts. apply fenced_unchecked. intros y t Hy Ho _.
  apply payload_checks; [by eapply inv_checks|by apply Hm|by destruct Ho as [-> | ->]].
Qed.
Lemma pause_unchecked o c ct s : stage_inv s →
  (ct = None → ∀ x, s_claims s !! k_id c = Some x → is_Some (c_payload x)) → unchecked (Pause tick o c ct) s.
Proof.
  intros Hi Hp. unfold Pause. unchecked_parts. apply fenced_unchecked. intros y t Hy Ho Hr%bool_decide_eq_true.
  apply paused_checks; [by eapply inv_checks|done|]. destruct ct; [by eexists|by apply Hp].
Qed.

Lemma payload_refused o c ct sum s : stage_inv s → StorePayload tick o c ct sum s = Err ErrCheck →
  ∃ x, s_claims s !! k_id c = Some x ∧ c_mode x = Transient.
Proof.
  intros Hi H. destruct (s_claims s !! k_id c) as [x|] eqn:Hx; [destruct (c_mode x) eqn:Hm; [by exists x|]|];
    destruct (payload_unchecked o c ct sum s Hi) in H; try done; congruence.
Qed.
Lemma pause_refused o c ct s : stage_inv s → Pause tick o c ct s = Err ErrCheck →
  ct = None ∧ ∃ x, s_claims s !! k_id c = Some x ∧ c_payload x = None.
Proof.
  intros Hi H. destruct ct as [p|]; [by destruct (pause_unchecked o c (Some p) s Hi) in H|].
  split; [done|]. destruct (s_claims s !! k_id c) as [x|] eqn:Hx; [destruct (c_payload x) as [q|] eqn:Hq; [|by exists x]|];
    destruct (pause_unchecked o c None s Hi) in H; try done; intros _ y Hy; simplify_eq; by eexists.
Qed.

(** ** The sweep *)

Hypothesis tick_later : ∀ t, t ≤ tick t.

Definition abandoned (c : claim) : claim := with_payload None (with_claim_state Abandoned c).

Lemma due_later t t' c : due t c = true → t ≤ t' → due t' c = true.
Proof.
  unfold due. rewrite !andb_true_iff, !orb_true_iff, !andb_true_iff, !Z.leb_le. intros [? [?|[? ?]]] ?;
    (split; [done|]); [left|right; split; [done|]]; lia.
Qed.

Lemma abandoned_checks c : claim_checks c = true → claim_checks (abandoned c) = true.
Proof.
  unfold claim_checks. rewrite !andb_true_iff. simpl. intros H. split_hyps. split_and!; try done.
Qed.

Lemma clock_now_run s : clock_now tick s = Ok (tick (s_clock s), clocked (tick (s_clock s)) s).
Proof. unfold clock_now. m_run. Qed.
Lemma update_claim_run id (Q : claim → bool) f s c :
  s_claims s !! id = Some c → (Q c = true → claim_checks (f c) = true) →
  update_claim id Q f s = Ok (if Q c then (Some (f c), set_claims (<[id := f c]>) s) else (None, s)).
Proof.
  intros Hc Hch. unfold update_claim. apply bind_ok. eexists _, _. rewrite gets_ok. split; [done|]. cbv beta iota.
  destruct (Q c); [|m_run]. specialize (Hch eq_refl).
  apply bind_ok. exists tt, s. rewrite failIf_ok, Hch. split; [done|]. m_run.
Qed.
Lemma update_job_run id Q f s : ∃ b s', update_job id Q f s = Ok (b, s') ∧ s_claims s' = s_claims s
  ∧ s_clock s' = s_clock s ∧ s_epoch s' = s_epoch s.
Proof.
  unfold update_job. setoid_rewrite (bind_eq _ _ _ _ _ (proj2 (gets_ok _ _ _ _) (conj eq_refl eq_refl))).
  destruct (s_jobs s !! id) as [j|]; [destruct (_ && _)|]; eexists _, _; (split; [m_run|done]).
Qed.

(** [AbandonDue] on a claim: abandoned when it is due, left when it is not. *)
Lemma AbandonDue_run id ep s c :
  s_claims s !! id = Some c → claim_checks c = true →
  ∃ s', AbandonDue tick id ep s = Ok (due (tick (s_clock s)) c, s')
    ∧ s_claims s' = (if due (tick (s_clock s)) c then <[id := abandoned c]> (s_claims s) else s_claims s)
    ∧ s_clock s' = tick (s_clock s) ∧ s_epoch s' = s_epoch s.
Proof.
  intros Hc Hch. unfold AbandonDue.
  setoid_rewrite (bind_eq _ _ _ _ _ (clock_now_run s)).
  pose proof (update_claim_run id (due (tick (s_clock s))) abandoned (clocked (tick (s_clock s)) s) c Hc
    (λ _, abandoned_checks c Hch)) as Hu.
  destruct (due (tick (s_clock s)) c) eqn:Hd; setoid_rewrite (bind_eq _ _ _ _ _ Hu); [|by eexists; split; [m_run|]].
  set (s1 := set_claims _ _). setoid_rewrite (bind_eq _ _ _ _ _ (proj2 (gets_ok _ _ _ _) (conj eq_refl eq_refl))).
  destruct (update_job_run id (λ _, true) (λ j, MkJob JFailed None (j_gen j) None None (j_last j + 1)) s1)
    as (b & s2 & Hj & Hcl & Hck & Hep). setoid_rewrite (bind_eq _ _ _ _ _ Hj).
  destruct b; (eexists; split; [m_run|]); simpl; rewrite Hcl, ?Hck, ?Hep; done.
Qed.

Lemma candidates_spec t s id : id ∈ candidates t s ↔ ∃ c, s_claims s !! id = Some c ∧ due t c = true.
Proof.
  unfold candidates. rewrite list_elem_of_fmap. setoid_rewrite merge_sort_Permutation.
  setoid_rewrite list_elem_of_filter. split.
  - intros ([i c] & -> & Hd & Hin%elem_of_map_to_list). by exists c.
  - intros (c & Hc & Hd). exists (id, c). split; [done|]. split; [done|]. by apply elem_of_map_to_list.
Qed.
Lemma candidates_NoDup t s : NoDup (candidates t s).
Proof.
  unfold candidates. rewrite merge_sort_Permutation. apply NoDup_fmap_2_strong.
  - intros [i c] [j x] [_ Hi%elem_of_map_to_list]%list_elem_of_filter [_ Hj%elem_of_map_to_list]%list_elem_of_filter.
    simpl. intros ->. congruence.
  - apply NoDup_filter, NoDup_map_to_list.
Qed.

(** Every listed claim is still due when its turn comes, and is abandoned. *)
Lemma sweep_all_spec ids n s :
  (∀ id c, s_claims s !! id = Some c → claim_checks c = true) → NoDup ids →
  (∀ id, id ∈ ids → ∃ c, s_claims s !! id = Some c ∧ due (s_clock s) c = true) →
  ∃ s', sweep_all tick ids n s = (Ok (n + length ids)%nat, s')
    ∧ ∀ id, s_claims s' !! id = if decide (id ∈ ids) then abandoned <$> s_claims s !! id else s_claims s !! id.
Proof.
  revert n s. induction ids as [|i ids IH]; intros n s Hch Hnd Hdue; cbn [sweep_all length].
  { exists s. rewrite Nat.add_0_r. split; [done|]. intros id. rewrite decide_False; [done|apply not_elem_of_nil]. }
  apply NoDup_cons in Hnd as [Hi Hnd]. destruct (Hdue i) as (c & Hc & Hd); [by left|].
  destruct (AbandonDue_run i (s_epoch s) s c Hc) as (s1 & Hrun & Hcl & Hck & _); [by eapply Hch|].
  assert (Hab : abandonDue tick i s = Ok (true, s1)).
  { unfold abandonDue. apply bind_ok. eexists _, _. rewrite gets_ok. split; [done|].
    by rewrite Hrun, (due_later _ _ _ Hd (tick_later _)). }
  rewrite (due_later _ _ _ Hd (tick_later _)) in Hcl. rewrite Hab.
  destruct (IH (S n) s1) as (s' & Hs' & Hspec); [|done| |].
  - intros id x. rewrite Hcl. destruct (decide (i = id)) as [->|Hne];
      [rewrite lookup_insert_eq; intros [= <-]; apply abandoned_checks; eauto|].
    rewrite lookup_insert_ne by done. apply Hch.
  - intros id Hid. destruct (Hdue id) as (x & Hx & Hdx); [by right|]. exists x.
    rewrite Hcl, lookup_insert_ne by congruence. split; [done|]. rewrite Hck. eapply due_later; [done|apply tick_later].
  - exists s'. rewrite Hs'. split; [do 2 f_equal; lia|]. intros id. rewrite Hspec, Hcl.
    destruct (decide (i = id)) as [<-|Hne].
    + rewrite lookup_insert_eq, Hc. destruct (decide (i ∈ ids)); [done|].
      destruct (decide (i ∈ i :: ids)) as [|Hn]; [done|]. destruct Hn. by left.
    + rewrite lookup_insert_ne by done. destruct (decide (id ∈ ids)), (decide (id ∈ i :: ids)) as [Hin|Hn]; try done.
      * destruct Hn. by right.
      * by apply elem_of_cons in Hin as [->|?].
Qed.

Lemma Sweep_spec s :
  (∀ id c, s_claims s !! id = Some c → claim_checks c = true) →
  ∃ n s', Sweep tick s = (Ok n, s') ∧ ∀ id, s_claims s' !! id =
    (λ c, if due (tick (s_clock s)) c then abandoned c else c) <$> s_claims s !! id.
Proof.
  intros Hch. unfold Sweep. set (t := tick (s_clock s)).
  destruct (sweep_all_spec (candidates t (clocked t s)) 0 (clocked t s)) as (s' & Hs' & Hspec); [done|apply candidates_NoDup| |].
  - intros id Hid%candidates_spec. done.
  - eexists _, s'. split; [exact Hs'|]. intros id. rewrite Hspec. simpl.
    destruct (s_claims s !! id) as [c|] eqn:Hc; simpl; [|by case_decide].
    case_decide as Hd.
    + apply candidates_spec in Hd as (x & Hx & Hdx). simpl in Hx. simplify_eq. by rewrite Hdx.
    + destruct (due t c) eqn:Hdc; [|done]. destruct Hd. apply candidates_spec. by exists c.
Qed.
End Steps.

(** ** A concrete stage, for the witnesses *)

Definition sg_tick (t : Z) : Z := t + 10.
Definition sg_owner : owner := Owner "own_1" "ep_1".
Definition sg_taker : owner := Owner "own_2" "ep_1".
Definition sg_timers : timers := Timers 1000000 5000000.
Definition sg_claim : Claim := AClaim "ing_1" KImport Encrypted "cl_1" (Some "mch_1") None None 1.
Definition sg_run {A} (m : M stage stage_error A) (s : stage) : stage :=
  match m s with Ok (_, s') => s' | Err _ => s end.
Definition sg_empty : stage := Stage "ep_1" 0 ∅ ∅ [].
(** A claim created with its running operation, its payload stored, then its lease run out. *)
Definition sg_created : stage :=
  set_jobs (λ _, {["ing_1" := MkJob JRunning (Some "own_1") 1 (Some "ep_1") None 0]})
    (sg_run (Create sg_tick sg_owner sg_timers sg_claim "prn_1" "key_1") sg_empty).
Definition sg_stored : stage := sg_run (StorePayload sg_tick sg_owner sg_claim "ct" "sum") sg_created.
Definition sg_lapsed : stage := Stage "ep_1" 2000 (s_claims sg_stored) (s_jobs sg_stored) (s_events sg_stored).
Definition sg_expired : stage := Stage "ep_1" 6000 (s_claims sg_stored) (s_jobs sg_stored) (s_events sg_stored).
Definition sg_taken_claim : claim := taken sg_taker Resumed None 3030
  (MkClaim Encrypted Held "own_1" 1 "ep_1" 1010 5010 (Some ("ct", "sum")) (Some ("prn_1", "key_1")) "cl_1" (Some "mch_1") None KImport None 10).
Definition sg_taken : stage := sg_run (TakeOver sg_tick sg_taker 1000000 "ing_1") sg_lapsed.

Example sg_states : (λ s, c_state <$> s_claims s !! "ing_1") <$> [sg_created; sg_stored; sg_taken]
  = [Some Held; Some Held; Some Resumed].
Proof. vm_compute. reflexivity. Qed.

(** ** The properties *)

Section Sections.
Context (tick : Z → Z).

(** C38: whatever statements processes run and in whatever order, from a well-formed store: the lease
    of a claim that an owner holds never passes its expiry (a paused one's may, as the pause reads the clock
    again), a running operation is its claim's owner's at its generation and epoch, and the table's CHECKs
    are conditions the statements keep of themselves.  They never refuse a heartbeat, a hold, a release, an
    abandonment, a restart, a takeover, a mark or continuation, nor the sweep's write; a stored payload is
    refused only of a transient claim, a pause only where no payload is given and none is stored. *)
Theorem claims_well_formed s s' :
  rtc (sstep tick) s s' → stage_inv s →
  (∀ id c, s_claims s' !! id = Some c → claim_checks c = true ∧
     (c_state c = Held ∨ c_state c = Resumed → c_lease c ≤ c_expires c)) ∧
  (∀ id c j, s_claims s' !! id = Some c → s_jobs s' !! id = Some j → j_state j = JRunning →
     j_owner j = Some (c_owner c) ∧ j_gen j = c_gen c ∧ j_epoch j = Some (c_epoch c)) ∧
  (∀ o c l id tm fresh ep r,
     Heartbeat tick o c l s' ≠ Err ErrCheck ∧ Hold tick o c s' ≠ Err ErrCheck ∧
     Release tick o c s' ≠ Err ErrCheck ∧ Abandon tick o c s' ≠ Err ErrCheck ∧
     Restart tick id tm fresh s' ≠ Err ErrCheck ∧ TakeOver tick o l id s' ≠ Err ErrCheck ∧
     mark tick r o l id s' ≠ Err ErrCheck ∧ AbandonDue tick id ep s' ≠ Err ErrCheck) ∧
  (∀ o c,
     (∀ ct sum, StorePayload tick o c ct sum s' = Err ErrCheck →
        ∃ x, s_claims s' !! k_id c = Some x ∧ c_mode x = Transient) ∧
     (∀ ct, Pause tick o c ct s' = Err ErrCheck →
        ct = None ∧ ∃ x, s_claims s' !! k_id c = Some x ∧ c_payload x = None)).
Proof.
  intros Hs Hi. destruct (ssteps_keeps tick s s' Hs Hi) as [Hi' _]. split_and!.
  - exact (inv_claims _ Hi').
  - intros id c j H1 H2. exact (inv_jobs _ Hi' id c j H1 H2).
  - intros o c l id tm fresh ep r. destruct (owner_unchecked tick o c s' Hi') as (Hb & Hh & He).
    split_and!; [apply Hb|apply Hh|by apply He..| | | |];
      [by apply Restart_unchecked|by apply TakeOver_unchecked|by apply mark_unchecked|by apply AbandonDue_unchecked].
  - intros o c. split; [intros ct sum; apply payload_refused, Hi'|intros ct; apply pause_refused, Hi'].
Qed.

(** A claim's generation never falls, its owner stands while its generation does, its mode is
    kept, and a released or abandoned claim is never changed. *)
Theorem claims_go_forward s s' id c :
  rtc (sstep tick) s s' → stage_inv s → s_claims s !! id = Some c →
  ∃ c', s_claims s' !! id = Some c' ∧ c_gen c ≤ c_gen c'
    ∧ (c_gen c' = c_gen c → c_owner c' = c_owner c ∧ c_epoch c' = c_epoch c)
    ∧ c_mode c' = c_mode c ∧ (live (c_state c) = false → c' = c).
Proof. intros Hs Hi Hc. by destruct (ssteps_keeps tick s s' Hs Hi) as [_ Hl]; apply Hl. Qed.

(** A stale owner is fenced: once a claim was taken over, or marked or continued, from a
    generation, none of its owner's statements by that generation or an earlier one writes anything, in
    any store reached later. *)
Theorem stale_owner_fenced o c s s' x :
  rtc (sstep tick) s s' → stage_inv s → s_claims s !! k_id c = Some x → k_gen c < c_gen x →
  (∀ l u s'', Heartbeat tick o c l s' ≠ Ok (u, s'')) ∧
  (∀ ct sum u s'', StorePayload tick o c ct sum s' ≠ Ok (u, s'')) ∧
  (∀ ct u s'', Pause tick o c ct s' ≠ Ok (u, s'')) ∧
  (∀ u s'', Hold tick o c s' ≠ Ok (u, s'')) ∧
  (∀ u s'', Release tick o c s' ≠ Ok (u, s'')) ∧
  (∀ u s'', Abandon tick o c s' ≠ Ok (u, s'')).
Proof.
  intros Hs Hi Hx Hg. destruct (ssteps_keeps tick s s' Hs Hi) as [_ Hl].
  destruct (Hl _ _ Hx) as (y & Hy & Hgen & _).
  assert (Hst : ∀ P f r s'', fenced_update tick o c P f s' ≠ Ok (r, s'')).
  { intros P f r s''. apply (fenced_update_stale tick o c P f s' r s'' y Hy). left. lia. }
  unfold Heartbeat, StorePayload, Pause, Hold, Release, Abandon, end_claim.
  split_and!; intros * H; m_inv; by eapply Hst.
Qed.

(** A takeover succeeds only of an encrypted claim whose owner's lease has lapsed before its
    expiry, at this epoch, and whose operation runs at its generation; the claim and the operation are
    then the taker's at the next generation, and a claim with no payload is abandoned. *)
Theorem takeover_of_lapsed o lease id s c' s' :
  TakeOver tick o lease id s = Ok (c', s') →
  ∃ c, let t := tick (s_clock s) in s_claims s !! id = Some c ∧
    c_mode c = Encrypted ∧ (c_state c = Held ∨ c_state c = Resumed) ∧
    c_lease c ≤ t ∧ tick t < c_expires c ∧ c_epoch c = s_epoch s ∧ o_epoch o = s_epoch s ∧
    s_claims s' !! id = Some c' ∧ c_gen c' = c_gen c + 1 ∧ c_owner c' = o_who o ∧
    c_state c' = (if c_payload c then Resumed else Abandoned) ∧ c_lease c' ≤ c_expires c' ∧
    ∃ j j', s_jobs s !! id = Some j ∧ j_state j = JRunning ∧ j_gen j = c_gen c ∧
      s_jobs s' !! id = Some j' ∧ j_owner j' = Some (o_who o) ∧ j_gen j' = c_gen c + 1.
Proof.
  unfold TakeOver. intros H. m_inv.
  repeat match goal with H : clock_now _ _ = _ |- _ => apply clock_now_ok in H as [-> ->] end.
  match goal with H : update_claim _ _ _ _ = _ |- _ =>
    apply update_claim_ok in H as [(c & Hc & HP & Hch & -> & ->)|(-> & -> & _)] end; [|m_inv].
  apply andb_true_iff in HP as [He HP]. unfold eligible in HP.
  rewrite !andb_true_iff, orb_true_iff, !bool_decide_eq_true, Z.leb_le, Z.ltb_lt in *.
  destruct HP as [[[[Hm Hst] Hl] Hx] Hep]. unfold moveOperation in *. m_inv.
  match goal with H : update_job _ _ _ _ = Ok (?b, _) |- _ =>
    apply update_job_ok in H as [(j & Hj & Hjs & Hjg & -> & ->)|(-> & _)]; [|done] end.
  apply Z.eqb_eq in Hjg. simpl in Hj, Hjg.
  exists c. split_and!; try done; [apply lookup_insert_eq|simpl; lia|].
  exists j. eexists. split_and!; [done|done|lia|apply lookup_insert_eq|done|done].
Qed.
End Sections.

(** The sweep always ends, having abandoned exactly the due claims, and emptied their payloads,
    whatever their number: expired ones, and transient ones whose lease lapsed. *)
Theorem sweep_abandons_due tick s :
  (∀ t, t ≤ tick t) → (∀ id c, s_claims s !! id = Some c → claim_checks c = true) →
  ∃ n s', Sweep tick s = (Ok n, s') ∧ ∀ id, s_claims s' !! id =
    (λ c, if due (tick (s_clock s)) c then with_payload None (with_claim_state Abandoned c) else c) <$> s_claims s !! id.
Proof. intros Ht Hc. by apply Sweep_spec. Qed.

(** ** Witnesses *)

Lemma sg_inv : stage_inv sg_empty.
Proof. split; [intros id c H|intros id c j H|intros id j H]; discriminate H. Qed.
Lemma sg_created_step : sstep sg_tick sg_empty (sg_run (Create sg_tick sg_owner sg_timers sg_claim "prn_1" "key_1") sg_empty).
Proof. eapply (ss_create sg_tick sg_owner sg_timers sg_claim "prn_1" "key_1"). vm_compute. reflexivity. Qed.

Lemma claims_well_formed_witness :
  let s := sg_run (Create sg_tick sg_owner sg_timers sg_claim "prn_1" "key_1") sg_empty in
  (∃ c, s_claims s !! "ing_1" = Some c ∧ c_lease c ≤ c_expires c) ∧ Abandon sg_tick sg_owner sg_claim s ≠ Err ErrCheck.
Proof.
  destruct (claims_well_formed sg_tick sg_empty
    (sg_run (Create sg_tick sg_owner sg_timers sg_claim "prn_1" "key_1") sg_empty)) as (Hc & _ & Hu & _).
  - apply rtc_once, sg_created_step.
  - exact sg_inv.
  - split.
    + eexists. split; [vm_compute; reflexivity|]. refine (proj2 (Hc "ing_1" _ _) (or_introl _)); vm_compute; reflexivity.
    + apply (proj1 (proj2 (proj2 (proj2 (Hu sg_owner sg_claim 1 "ing_1" sg_timers false "ep_1" Pending))))).
Defined.

(** The created claim with its operation is well formed. *)
Lemma sg_created_inv : stage_inv sg_created.
Proof.
  assert (Hc : ∀ id c, s_claims sg_created !! id = Some c → id = "ing_1" ∧ s_claims sg_created !! "ing_1" = Some c).
  { intros id c Hc. assert (s_claims sg_created = {["ing_1" := default c (s_claims sg_created !! "ing_1")]}) as He
      by (vm_compute; reflexivity).
    rewrite He in Hc. apply lookup_singleton_Some in Hc as [<- <-]. split; [done|]. rewrite He. by vm_compute. }
  split.
  - intros id c [_ H]%Hc. vm_compute in H. injection H as <-. split; vm_compute; [done|discriminate].
  - intros id c j [-> H]%Hc. vm_compute in H. injection H as <-. intros Hj. vm_compute in Hj. injection Hj as <-. by intros _.
  - intros id j Hj. change (s_jobs sg_created) with ({["ing_1" := MkJob JRunning (Some "own_1") 1 (Some "ep_1") None 0]} : gmap string job) in Hj.
    apply lookup_singleton_Some in Hj as [<- _]. vm_compute. by eexists.
Qed.

Lemma claims_go_forward_witness :
  ∃ c c', s_claims sg_created !! "ing_1" = Some c ∧ s_claims sg_stored !! "ing_1" = Some c' ∧ c_gen c ≤ c_gen c'.
Proof.
  assert (∃ c, s_claims sg_created !! "ing_1" = Some c) as [c Hc] by (eexists; vm_compute; reflexivity).
  destruct (claims_go_forward sg_tick sg_created sg_stored "ing_1" c) as (c' & Hc' & Hg & _).
  - apply rtc_once. eapply (ss_store sg_tick sg_owner sg_claim "ct" "sum"). vm_compute. reflexivity.
  - exact sg_created_inv.
  - exact Hc.
  - exists c, c'. split_and!; [exact Hc|exact Hc'|exact Hg].
Defined.

(** The stored claim, once its lease lapsed, and the taker's. *)
Lemma sg_lapsed_inv : stage_inv sg_lapsed.
Proof.
  assert (H : stage_inv sg_stored).
  { eapply (sstep_keeps sg_tick sg_created); [|exact sg_created_inv].
    eapply (ss_store sg_tick sg_owner sg_claim "ct" "sum"). vm_compute. reflexivity. }
  by destruct H.
Qed.
Lemma sg_taken_inv : stage_inv sg_taken.
Proof.
  eapply (sstep_keeps sg_tick sg_lapsed); [|exact sg_lapsed_inv].
  eapply (ss_takeover sg_tick sg_taker 1000000 "ing_1"). vm_compute. reflexivity.
Qed.

Lemma stale_owner_fenced_witness :
  TakeOver sg_tick sg_taker 1000000 "ing_1" sg_lapsed = Ok (sg_taken_claim, sg_taken)
  ∧ ¬ (∃ u s'', Release sg_tick sg_owner sg_claim sg_taken = Ok (u, s'')).
Proof.
  split; [vm_compute; reflexivity|]. intros (u & s'' & Hr).
  assert (∃ x, s_claims sg_taken !! k_id sg_claim = Some x ∧ k_gen sg_claim < c_gen x) as (x & Hx & Hg)
    by (eexists; split; [vm_compute; reflexivity|reflexivity]).
  apply (proj1 (proj2 (proj2 (proj2 (proj2 (stale_owner_fenced sg_tick sg_owner sg_claim sg_taken sg_taken x
    (rtc_refl _ _) sg_taken_inv Hx Hg))))) u s'' Hr).
Defined.

Lemma takeover_of_lapsed_witness : ∃ c, s_claims sg_lapsed !! "ing_1" = Some c ∧ c_mode c = Encrypted.
Proof.
  assert (∃ c', TakeOver sg_tick sg_taker 1000000 "ing_1" sg_lapsed = Ok (c', sg_taken)) as [c' H]
    by (eexists; vm_compute; reflexivity).
  destruct (takeover_of_lapsed sg_tick sg_taker 1000000 "ing_1" sg_lapsed c' sg_taken H) as (c & Hc & Hm & _).
  exists c. split; [exact Hc|exact Hm].
Defined.

Lemma sweep_abandons_due_witness :
  ∃ n s', Sweep sg_tick sg_expired = (Ok n, s') ∧ c_state <$> s_claims s' !! "ing_1" = Some Abandoned.
Proof.
  destruct (sweep_abandons_due sg_tick sg_expired) as (n & s' & Hs & Hc).
  - intros t. unfold sg_tick. lia.
  - intros id c H. by destruct (inv_claims _ sg_lapsed_inv id c H).
  - exists n, s'. split; [exact Hs|]. rewrite Hc. vm_compute. reflexivity.
Defined.
