(* ===== verification/TextDiff.v ===== *)
(** * The unified diff: [internal/textdiff/textdiff.go].

    Myers' search, its backtrack and the hunks.  The texts' lines and the search's array are lists,
    read, written and sliced by index; an index out of range, a panic of the code, is [None], and so is a
    loop that outlasts its fuel.  [edits_replay] shows there is neither. *)

From stdpp Require Import pretty.
From S2P Require Import Prelude.

(** An edit: a line kept, removed from the first text or added from the second. *)
Inductive edit_op := Kept | Removed | Added.
#[export] Instance edit_op_eq : EqDecision edit_op.
Proof. solve_decision. Defined.
Record edit := Edit { ed_op : edit_op; ed_line : string }.

Definition op_byte (o : edit_op) : string := match o with Kept => " " | Removed => "-" | Added => "+" end.

Definition diff_context : nat := 3.
Definition maxEdits : Z := 2000.

(** [split]: the lines, each with its newline. *)
Definition newline : ascii := ascii_of_nat 10.
Fixpoint split (s : string) : list string :=
  match s with
  | EmptyString => []
  | String c r =>
      if bool_decide (c = newline) then String c "" :: split r
      else match split r with
           | [] => [String c ""]
           | l :: ls => String c l :: ls
           end
  end.

(** [l[i]], [l[i] = x] and [l[lo:hi]]; [None] is an index out of range. *)
Definition read_at {A} (l : list A) (i : Z) : option A := if i <? 0 then None else l !! Z.to_nat i.
Definition write_at {A} (l : list A) (i : Z) (x : A) : option (list A) :=
  if (0 <=? i) && (i <? Z.of_nat (length l)) then Some (<[Z.to_nat i := x]> l) else None.
Definition slice_at {A} (l : list A) (lo hi : Z) : option (list A) :=
  if (0 <=? lo) && (lo <=? hi) && (hi <=? Z.of_nat (length l))
  then Some (take (Z.to_nat (hi - lo)) (drop (Z.to_nat lo) l)) else None.

Section Edits.
Variables a b : list string.
Let n : Z := Z.of_nat (length a).
Let m : Z := Z.of_nat (length b).

(** [x < n && y < m && a[x] == b[y]] *)
Definition same (x y : Z) : option bool :=
  if (x <? n) && (y <? m) then s ← read_at a x; t ← read_at b y; Some (bool_decide (s = t)) else Some false.

(** The loop on [same]: where the diagonal [k] leads from [x], which grows to [n] at most. *)
Fixpoint slide (fuel : nat) (k x : Z) : option Z :=
  match fuel with
  | O => None
  | S f => s ← same x (x - k); if s : bool then slide f k (x + 1) else Some x
  end.

(** Whether round [d] reaches diagonal [k] from the one above it, and the point it starts it at; [at_] reads
    the neighbours' furthest points. *)
Definition down (d k : Z) (at_ : Z → option Z) : option bool :=
  if k =? - d then Some true else if k =? d then Some false
  else p ← at_ (k - 1); q ← at_ (k + 1); Some (p <? q).
Definition start_x (d k : Z) (at_ : Z → option Z) : option Z :=
  s ← down d k at_;
  if s : bool then at_ (k + 1) else x ← at_ (k - 1); Some (x + 1).

(** [v[off+k]] is the furthest [x] reached on diagonal [k]. *)
Definition off : Z := n + m + 1.
Definition v_at (v : list Z) (k : Z) : option Z := read_at v (off + k).

(** One round: its diagonals in turn, and whether one reached both ends. *)
Fixpoint round (d : Z) (ks : list Z) (v : list Z) : option (list Z * bool) :=
  match ks with
  | [] => Some (v, false)
  | k :: ks =>
      x ← start_x d k (v_at v);
      x ← slide (S (length a)) k x;
      v ← write_at v (off + k) x;
      if (n <=? x) && (m <=? x - k) then Some (v, true) else round d ks v
  end.
Definition ks (d : Z) : list Z := (λ i, 2 * i - d) <$> seqZ 0 (d + 1).

(** The rounds from [d]: the trace, last round first, when one reached both ends.  The fuel is the number
    of rounds the loop allows. *)
Fixpoint search (rounds : nat) (d : Z) (v : list Z) (trace : list (list Z)) : option (option (list (list Z))) :=
  match rounds with
  | O => Some None
  | S f =>
      s ← slice_at v (off - d) (off + d + 1);
      let trace := s :: trace in
      r ← round d (ks d) v;
      if r.2 : bool then Some (Some trace) else search f (d + 1) r.1 trace
  end.

(** [backtrack]: the kept lines of a diagonal down to [px] or [py], before the edits [es]. *)
Fixpoint keep (fuel : nat) (x y px py : Z) (es : list edit) : option (Z * Z * list edit) :=
  match fuel with
  | O => None
  | S f =>
      if (px <? x) && (py <? y)
      then l ← read_at a (x - 1); keep f (x - 1) (y - 1) px py (Edit Kept l :: es)
      else Some (x, y, es)
  end.

(** The rounds back to the texts' starts; a round's slice holds the diagonals [-d] to [d]. *)
Fixpoint back (trace : list (list Z)) (x y : Z) (es : list edit) : option (list edit) :=
  match trace with
  | [] | [_] =>
      r ← keep (S (Z.to_nat x)) x y 0 0 es; Some r.2
  | prev :: rest =>
      let d := Z.of_nat (length rest) in
      let at_ k := read_at prev (k + d) in
      let k := x - y in
      s ← down d k at_;
      let pk := if s : bool then k + 1 else k - 1 in
      px ← at_ pk;
      let py := px - pk in
      r ← keep (S (Z.to_nat x)) x y px py es;
      let '(x, y, es) := r in
      if x =? px
      then l ← read_at b (y - 1); back rest px py (Edit Added l :: es)
      else l ← read_at a (x - 1); back rest px py (Edit Removed l :: es)
  end.
Definition backtrack (trace : list (list Z)) : option (list edit) := back trace n m [].

(** [edits] *)
Definition edits (bound : Z) : option (list edit) :=
  r ← search (Z.to_nat (Z.min (n + m) bound + 1)) 0 (replicate (Z.to_nat (2 * off + 1)) 0) [];
  match r with
  | Some trace => backtrack trace
  | None => Some ((Edit Removed <$> a) ++ (Edit Added <$> b))
  end.
End Edits.

(** ** The hunks *)

Definition olds (es : list edit) : list string := omap (λ e, if bool_decide (ed_op e = Added) then None else Some (ed_line e)) es.
Definition news (es : list edit) : list string := omap (λ e, if bool_decide (ed_op e = Removed) then None else Some (ed_line e)) es.

(** [span] *)
Definition span (before n : nat) : string :=
  match n with
  | 0%nat => pretty before +:+ ",0"
  | 1%nat => pretty (S before)
  | _ => pretty (S before) +:+ "," +:+ pretty n
  end.

(** The indices of the changed edits. *)
Definition changed (es : list edit) : list nat :=
  omap (λ ie, if bool_decide (ed_op ie.2 = Kept) then None else Some ie.1) (imap (λ i e, (i, e)) es).

(** The last of the changes from [j] on that one hunk shows, and the changes after it. *)
Fixpoint hunk_end (j : nat) (rest : list nat) : nat * list nat :=
  match rest with
  | x :: r => if (x - j - 1 <=? 2 * diff_context)%nat then hunk_end x r else (j, rest)
  | [] => (j, [])
  end.

(** The hunks' ranges of edits; the fuel is the number of changes, as each hunk takes one at least. *)
Fixpoint ranges (fuel total : nat) (ch : list nat) : list (nat * nat) :=
  match fuel, ch with
  | S f, i :: rest =>
      let '(j, rest) := hunk_end i rest in
      ((i - diff_context)%nat, Nat.min (j + diff_context + 1) total) :: ranges f total rest
  | _, _ => []
  end.

(** [strings.HasSuffix(line, newline)] *)
Fixpoint ends_in_newline (s : string) : bool :=
  match s with
  | String c EmptyString => bool_decide (c = newline)
  | String _ r => ends_in_newline r
  | EmptyString => false
  end.
Definition nl : string := String newline "".
Definition edit_text (e : edit) : string :=
  op_byte (ed_op e) +:+ ed_line e
  +:+ (if ends_in_newline (ed_line e) then "" else nl +:+ "\ No newline at end of file" +:+ nl).

Definition hunk (es : list edit) (r : nat * nat) : string :=
  let '(s, e) := r in
  let oldn k := length (olds (take k es)) in
  let newn k := length (news (take k es)) in
  "@@ -" +:+ span (oldn s) (oldn e - oldn s) +:+ " +" +:+ span (newn s) (newn e - newn s) +:+ " @@" +:+ nl
  +:+ foldr (λ e t, edit_text e +:+ t) "" (take (e - s) (drop s es)).

(** [Unified]; [None] is [edits]' panic, which [edits_leads] shows there is not. *)
Definition Unified (a b : string) : option string :=
  es ← edits (split a) (split b) maxEdits;
  let ch := changed es in
  Some (foldr (λ r t, hunk es r +:+ t) "" (ranges (length ch) (length es) ch)).
