(* ===== verification/Ident.v ===== *)
(** * Identifiers: [internal/id/id.go], a prefix and 128 random bits in lower-case unpadded base32.

    [encoding/base32] reads the bytes as one bit string, padded with zero bits to a multiple of
    five; [encode] and [decode] do so by arithmetic on its value.  The decoder skips newlines, so a
    body with one decodes to fewer bytes and is refused; here a newline is outside the alphabet and
    refused as such. *)

From S2P Require Import Prelude.

(** ** Digits *)

(** The value of digits in base [B], and the [k] digits of a value. *)
Definition of_digits (B : Z) (l : list Z) : Z := foldl (λ n d, n * B + d) 0 l.
Fixpoint to_digits (B : Z) (k : nat) (n : Z) : list Z :=
  match k with O => [] | S k => to_digits B k (n / B) ++ [n mod B] end.

Lemma of_digits_snoc B l d : of_digits B (l ++ [d]) = of_digits B l * B + d.
Proof. unfold of_digits. by rewrite foldl_snoc. Qed.
Lemma to_digits_length B k n : length (to_digits B k n) = k.
Proof. revert n. induction k; intros n; simpl; [done|]. rewrite length_app, IHk. simpl. lia. Qed.
Lemma to_digits_range B k n : 0 < B → Forall (λ d, 0 ≤ d < B) (to_digits B k n).
Proof.
  intros HB. revert n. induction k; intros n; simpl; [constructor|]. apply Forall_app. split; [done|].
  constructor; [by apply Z.mod_pos_bound|constructor].
Qed.
Lemma of_to_digits B k n : 1 < B → 0 ≤ n < B ^ Z.of_nat k → of_digits B (to_digits B k n) = n.
Proof.
  intros HB. revert n. induction k; intros n Hn; simpl; [change (B ^ Z.of_nat 0) with 1 in Hn; unfold of_digits; simpl; lia|].
  rewrite of_digits_snoc, IHk.
  - pose proof (Z.div_mod n B). lia.
  - rewrite Nat2Z.inj_succ, Z.pow_succ_r in Hn by lia. split; [apply Z.div_pos; lia|].
    apply Z.div_lt_upper_bound; lia.
Qed.
Lemma to_of_digits B l : 1 < B → Forall (λ d, 0 ≤ d < B) l → to_digits B (length l) (of_digits B l) = l.
Proof.
  intros HB. induction l as [|d l IH] using rev_ind; [done|]. intros [Hl Hd]%Forall_app.
  apply Forall_cons in Hd as [Hd _]. rewrite length_app, Nat.add_comm. simpl. rewrite of_digits_snoc.
  rewrite Z.div_add_l, (Z.div_small d), Z.add_0_r by lia.
  rewrite (Z.add_comm (_ * B)), Z.mod_add, Z.mod_small by lia. by rewrite IH.
Qed.
Lemma of_digits_range B l : 1 < B → Forall (λ d, 0 ≤ d < B) l → 0 ≤ of_digits B l < B ^ Z.of_nat (length l).
Proof.
  intros HB. induction l as [|d l IH] using rev_ind; [done|]. intros [Hl Hd]%Forall_app.
  apply Forall_cons in Hd as [Hd _]. specialize (IH Hl). rewrite of_digits_snoc, length_app. simpl.
  rewrite Nat2Z.inj_add, Z.pow_add_r, Z.pow_1_r by lia. nia.
Qed.

(** ** The alphabet *)

Definition alphabet : list ascii := String.list_ascii_of_string "abcdefghijklmnopqrstuvwxyz234567".
Definition enc_char (d : Z) : ascii := default "a"%char (alphabet !! Z.to_nat d).
Definition dec_char (c : ascii) : option Z := Z.of_nat ∘ fst <$> list_find (c =.) alphabet.

Lemma dec_enc d : 0 ≤ d < 32 → dec_char (enc_char d) = Some d.
Proof.
  intros Hd. assert (H : Forall (λ d, dec_char (enc_char d) = Some d) (seqZ 0 32)).
  { apply (bool_decide_unpack _). by vm_compute. }
  rewrite Forall_forall in H. apply H, elem_of_seqZ. lia.
Qed.
Lemma enc_dec c d : dec_char c = Some d → enc_char d = c ∧ 0 ≤ d < 32.
Proof.
  unfold dec_char, enc_char. intros ([i x] & Hf & ->)%fmap_Some.
  apply list_find_Some in Hf as (Hi & -> & _). simpl. rewrite Nat2Z.id, Hi. split; [done|].
  apply lookup_lt_Some in Hi. change (length alphabet) with 32%nat in Hi. lia.
Qed.

(** ** Identifiers *)

Definition bodyLen : nat := 26.

(** [enc.EncodeToString] of 16 bytes, and [enc.DecodeString] of 26 characters. *)
Definition encode (b : list Z) : list ascii := enc_char <$> to_digits 32 bodyLen (of_digits 256 b * 4).
Definition decode (s : list ascii) : option (list Z) :=
  ds ← mapM dec_char s; Some (to_digits 256 16 (of_digits 32 ds / 4)).

(** The prefix table. *)
Definition all_prefixes : list string :=
  ["cl"; "mch"; "frg"; "frv"; "prf"; "prv"; "asg"; "asr"; "ibr"; "drf"; "rel"; "ep"; "req"; "pln"; "apr";
   "op"; "att"; "obs"; "idn"; "tok"; "ing"; "act"; "dep"; "dal"].
Definition known (p : string) : bool := bool_decide (p ∈ all_prefixes).

(** [New] with the random bytes; [None] is its panic. *)
Definition New (p : string) (b : list Z) : option string :=
  if known p then Some (p +:+ "_" +:+ String.string_of_list_ascii (encode b)) else None.

(** [strings.Cut(s, "_")] *)
Fixpoint cut (s : string) : option (string * string) :=
  match s with
  | EmptyString => None
  | String c r => if bool_decide (c = "_"%char) then Some ("", r)
                  else match cut r with Some (a, b) => Some (String c a, b) | None => None end
  end.

(** [Parse]; [None] is its error. *)
Definition Parse (s : string) : option string :=
  '(p, body) ← cut s;
  if negb (known p) then None else
  if negb (bool_decide (String.length body = bodyLen)) then None else
  b ← decode (String.list_ascii_of_string body);
  if negb (bool_decide (length b = 16%nat)) || negb (bool_decide (encode b = String.list_ascii_of_string body))
  then None else Some p.

(** [MustHave]: it answers no error. *)
Definition MustHave (s want : string) : bool :=
  match Parse s with Some got => bool_decide (got = want) | None => false end.

(** ** Facts *)

Definition is_bytes (b : list Z) : Prop := length b = 16%nat ∧ Forall (λ x, 0 ≤ x < 256) b.

Lemma mapM_dec ds : Forall (λ d, 0 ≤ d < 32) ds → mapM dec_char (enc_char <$> ds) = Some ds.
Proof.
  intros Hd. apply mapM_Some_2, Forall2_fmap_l, Forall_Forall2_diag.
  eapply Forall_impl; [done|]. intros d. apply dec_enc.
Qed.
Lemma encode_range b : is_bytes b → 0 ≤ of_digits 256 b * 4 < 32 ^ Z.of_nat bodyLen.
Proof.
  intros [Hl Hb]. pose proof (of_digits_range 256 b ltac:(lia) Hb) as H. rewrite Hl in H.
  change (256 ^ Z.of_nat 16) with (2 ^ 128) in H. change (32 ^ Z.of_nat bodyLen) with (2 ^ 128 * 4). lia.
Qed.

Lemma decode_encode b : is_bytes b → decode (encode b) = Some b.
Proof.
  intros Hb. pose proof (encode_range b Hb) as Hr. destruct Hb as [Hl Hb]. unfold decode, encode.
  rewrite mapM_dec by by apply to_digits_range. change (Some (to_digits 256 16 (of_digits 32 (to_digits 32 bodyLen (of_digits 256 b * 4)) / 4)) = Some b).
  rewrite of_to_digits by (done || lia).
  rewrite Z.div_mul by lia. rewrite <- Hl at 1. by rewrite to_of_digits.
Qed.

Lemma cut_app p s : "_"%char ∉ String.list_ascii_of_string p → cut (p +:+ "_" +:+ s) = Some (p, s).
Proof.
  induction p as [|c p IH]; intros Hp; [done|]. change ((String c p +:+ "_" +:+ s)) with (String c (p +:+ "_" +:+ s)).
  simpl in Hp. apply not_elem_of_cons in Hp as [Hc Hp]. cbn [cut]. rewrite bool_decide_false by congruence.
  by rewrite IH.
Qed.
Lemma known_cut p s : known p = true → cut (p +:+ "_" +:+ s) = Some (p, s).
Proof.
  unfold known. rewrite bool_decide_eq_true. intros Hp. apply cut_app.
  assert (H : Forall (λ p, "_"%char ∉ String.list_ascii_of_string p) all_prefixes)
    by (apply (bool_decide_unpack _); by vm_compute).
  rewrite Forall_forall in H. by apply H.
Qed.
Lemma cut_eq s p body : cut s = Some (p, body) → s = p +:+ "_" +:+ body.
Proof.
  revert p. induction s as [|c r IH]; intros p; simpl; [done|]. case_bool_decide as Hc.
  - intros [= <- <-]. by rewrite Hc.
  - destruct (cut r) as [[x y]|] eqn:Hcut; [|done]. intros [= <- <-]. by rewrite (IH x eq_refl) at 1.
Qed.
Lemma string_length_list l : String.length (String.string_of_list_ascii l) = length l.
Proof. induction l; simpl; congruence. Qed.

Lemma encode_length b : length (encode b) = bodyLen.
Proof. unfold encode. by rewrite length_fmap, to_digits_length. Qed.

Lemma decode_bytes s b : decode s = Some b → is_bytes b.
Proof.
  unfold decode. destruct (mapM dec_char s) as [ds|]; [|done].
  intros H. change (Some (to_digits 256 16 (of_digits 32 ds / 4)) = Some b) in H. apply (inj Some) in H as <-.
  split; [apply to_digits_length|by apply to_digits_range].
Qed.

#[local] Opaque encode decode known bodyLen.

Lemma Parse_New_ok p b s : is_bytes b → New p b = Some s → Parse s = Some p.
Proof.
  intros Hb. unfold New. destruct (known p) eqn:Hk; [|done]. intros [= <-]. unfold Parse.
  pose proof (decode_encode b Hb) as Hd. pose proof (encode_length b) as Hl.
  destruct Hb as [Hb _]. remember (encode b) as e eqn:He.
  rewrite known_cut by done. simpl. rewrite Hk. simpl.
  rewrite String.list_ascii_of_string_of_list_ascii, Hd, string_length_list, Hl, bool_decide_true by done.
  simpl. by rewrite Hb, <- He, !bool_decide_true by done.
Qed.

Lemma Parse_only_New s p : Parse s = Some p → ∃ b, is_bytes b ∧ New p b = Some s.
Proof.
  unfold Parse. destruct (cut s) as [[q body]|] eqn:Hc; [|done]. simpl.
  destruct (known q) eqn:Hk; [|done]. simpl.
  destruct (negb _); [done|].
  destruct (decode _) as [b|] eqn:Hd; [|done]. simpl.
  case_bool_decide as Hl; [|done]. case_bool_decide as He; [|done]. simpl. intros [= <-].
  exists b. split; [by eapply decode_bytes|].
  unfold New. rewrite Hk, He, String.string_of_list_ascii_of_string. by rewrite (cut_eq s q body Hc).
Qed.
