(* ===== verification/IngestPath.v ===== *)
(** * Paths into an ingested stream: [internal/ingest/path.go], [walk.go], and the parser's checks on
    mapping keys ([parse.go]).

    A document's nodes are the YAML decoder's ([yaml.Node]): a node's kind, its tag, value and
    content.  An alias holds the node it names, as its pointer does; the parser refuses the cyclic
    ones, so a document is a finite tree.  A node's line only words a refusal and is left out. *)

From Stdlib Require Import NArith DecimalString Decimal DecimalN DecimalFacts.
From S2P Require Import Prelude.

Inductive node :=
| Scalar (tag value : string)
| Mapping (tag : string) (content : list (node * node))
| Sequence (tag : string) (content : list node)
| Alias (target : node).

(** [Path] *)
Record Path := MkPath { p_doc : N; p_pointer : list string; p_format : string; p_inner : list string }.
#[export] Instance Path_eq : EqDecision Path.
Proof. solve_decision. Defined.

Definition maxDoc : N := 1000000.

(** ** Text *)

(** [strconv.Itoa] of a natural number, and [strconv.Atoi] of a text of digits. *)
Definition Itoa (n : N) : string := NilZero.string_of_uint (N.to_uint n).
Definition Atoi (s : string) : option N := N.of_uint <$> NilZero.uint_of_string s.

Definition is_dec (c : ascii) : bool := (48 <=? nat_of_ascii c)%nat && (nat_of_ascii c <=? 57)%nat.
Fixpoint all_dec (s : string) : bool :=
  match s with String c r => is_dec c && all_dec r | EmptyString => true end.
(** [decimal] *)
Definition decimal (s : string) : bool :=
  match s with
  | EmptyString => false
  | String "0"%char (String _ _) => false
  | _ => all_dec s
  end.

(** [strings.Cut] at a byte: before, after and whether it was found; [strings.Split] at one. *)
Fixpoint Cut (c : ascii) (s : string) : string * option string :=
  match s with
  | EmptyString => ("", None)
  | String d r => if bool_decide (d = c) then ("", Some r)
                  else let '(a, b) := Cut c r in (String d a, b)
  end.
Fixpoint Split (c : ascii) (s : string) : list string :=
  match s with
  | EmptyString => [""]
  | String d r => if bool_decide (d = c) then "" :: Split c r
                  else match Split c r with [] => [String d ""] | x :: l => String d x :: l end
  end.
(** [strings.CutPrefix] *)
Fixpoint CutPrefix (p s : string) : option string :=
  match p, s with
  | EmptyString, _ => Some s
  | String c p, String d s => if bool_decide (c = d) then CutPrefix p s else None
  | _, _ => None
  end.

(** ** Pointers *)

(** One token unescaped: [~1] is ["/"], [~0] is ["~"], and any other ["~"] is malformed. *)
Fixpoint unescape (s : string) : option string :=
  match s with
  | EmptyString => Some ""
  | String "~"%char (String "0"%char r) => String "~" <$> unescape r
  | String "~"%char (String "1"%char r) => String "/" <$> unescape r
  | String "~"%char _ => None
  | String c r => String c <$> unescape r
  end.

(** [pointerTokens] *)
Definition pointerTokens (s : string) : option (list string) :=
  match s with
  | EmptyString => Some []
  | String "/"%char r => mapM unescape (Split "/" r)
  | _ => None
  end.

(** [tokenEscaper] and [writePointer] *)
Fixpoint escape (s : string) : string :=
  match s with
  | EmptyString => ""
  | String "~"%char r => "~0" +:+ escape r
  | String "/"%char r => "~1" +:+ escape r
  | String c r => String c (escape r)
  end.
Definition writePointer (tokens : list string) : string := foldr (λ t s, "/" +:+ escape t +:+ s) "" tokens.

(** [Path.String] *)
Definition path_string (p : Path) : string :=
  "doc[" +:+ Itoa (p_doc p) +:+ "]" +:+ writePointer (p_pointer p)
  +:+ (if bool_decide (p_format p = "") then "" else "|" +:+ p_format p +:+ writePointer (p_inner p)).

(** [ParsePath]; [None] is the refusal. *)
Definition ParsePath (s : string) : option Path :=
  rest ← CutPrefix "doc[" s;
  match Cut "]" rest with
  | (num, Some rest) =>
      if negb (decimal num) then None else
      doc ← Atoi num;
      if (maxDoc <? doc)%N then None else
      match Cut "|" rest with
      | (outer, None) => ptr ← pointerTokens outer; Some (MkPath doc ptr "" [])
      | (outer, Some inner) =>
          ptr ← pointerTokens outer;
          let '(format, after) := Cut "/" inner in
          if (negb (bool_decide (format = "yaml")) && negb (bool_decide (format = "json"))) || bool_decide (ptr = [])
          then None else
          ip ← pointerTokens (match after with Some r => "/" +:+ r | None => "" end);
          Some (MkPath doc ptr format ip)
      end
  | (_, None) => None
  end.

(** ** Nodes *)

(** [deref] *)
Fixpoint deref (n : node) : node := match n with Alias t => deref t | _ => n end.

(** [keyToken]: a key's pointer token; a decoder's collection has the empty value. *)
Definition keyToken (k : node) : string := match deref k with Scalar _ v => v | _ => "" end.

(** [mappingValue] *)
Fixpoint mappingValue (m : list (node * node)) (key : string) : option node :=
  match m with
  | [] => None
  | (k, v) :: m =>
      match deref k with
      | Scalar _ t => if bool_decide (t = key) then Some v else mappingValue m key
      | _ => mappingValue m key
      end
  end.

(** [resolveIn], from a document's top node, and [resolve]. *)
Fixpoint resolveIn (n : node) (pointer : list string) : option node :=
  match pointer with
  | [] => Some (deref n)
  | tok :: pointer =>
      match deref n with
      | Mapping _ m => c ← mappingValue m tok; resolveIn c pointer
      | Sequence _ l =>
          if negb (decimal tok) then None else
          i ← Atoi tok; c ← l !! N.to_nat i; resolveIn c pointer
      | _ => None
      end
  end.
Definition resolve (docs : list node) (doc : N) (pointer : list string) : option node :=
  n ← docs !! N.to_nat doc; resolveIn n pointer.

(** [child] *)
Definition child (p : Path) (tok : string) : Path :=
  if bool_decide (p_format p = "") then MkPath (p_doc p) (p_pointer p ++ [tok]) (p_format p) (p_inner p)
  else MkPath (p_doc p) (p_pointer p) (p_format p) (p_inner p ++ [tok]).

(** [walkNode]: the visits in order, each a node, its path and whether it is a mapping key; an alias
    is visited, not followed. *)
Fixpoint walkNode (n : node) (p : Path) (key : bool) : list (node * Path * bool) :=
  (n, p, key) ::
  match n with
  | Mapping _ m =>
      (fix pairs m := match m with
                      | [] => []
                      | (k, v) :: m => walkNode k p true ++ walkNode v (child p (keyToken k)) false ++ pairs m
                      end) m
  | Sequence _ l =>
      (fix items i l := match l with
                        | [] => []
                        | c :: l => walkNode c (child p (Itoa i)) false ++ items (N.succ i) l
                        end) 0%N l
  | _ => []
  end.
(** [walkStream]: every document from its top node. *)
Definition walkStream (docs : list node) : list (node * Path * bool) :=
  mjoin (imap (λ i d, walkNode d (MkPath (N.of_nat i) [] "" []) false) docs).

(** [walkEmbedded]: an embedded document, whose own path is [outer]. *)
Definition walkEmbedded (doc : node) (outer : Path) (format : string) : list (node * Path * bool) :=
  walkNode doc (MkPath (p_doc outer) (p_pointer outer) format []) false.

(** [badKey]: a key that is not a scalar, or whose text an earlier key of its mapping holds. *)
Fixpoint bad_keys (seen : list string) (m : list (node * node)) : bool :=
  match m with
  | [] => false
  | (k, _) :: m =>
      match deref k with
      | Scalar _ t => bool_decide (t ∈ seen) || bad_keys (t :: seen) m
      | _ => true
      end
  end.
Fixpoint badKey (n : node) : bool :=
  match n with
  | Mapping _ m =>
      bad_keys [] m ||
      (fix pairs m := match m with [] => false | (k, v) :: m => badKey k || badKey v || pairs m end) m
  | Sequence _ l => existsb badKey l
  | _ => false
  end.

(** [pipeKey]: a key holding ["|"], or a binary one; a collection's value is empty. *)
Definition pipe_key (k : node) : bool :=
  match deref k with
  | Scalar tag v => bool_decide ("|"%char ∈ String.list_ascii_of_string v) || bool_decide (tag = "!!binary")
  | Mapping tag _ | Sequence tag _ => bool_decide (tag = "!!binary")
  | Alias _ => false
  end.
Fixpoint pipeKey (n : node) : bool :=
  match n with
  | Mapping _ m =>
      existsb (λ kv, pipe_key kv.1) m ||
      (fix pairs m := match m with [] => false | (k, v) :: m => pipeKey k || pipeKey v || pairs m end) m
  | Sequence _ l => existsb pipeKey l
  | _ => false
  end.

(** [parseStream] and [parse], the decoder's documents given: a stream is refused when it holds no
    document, a bad key, or a key no outer path can name. *)
Definition parseStream (docs : list node) : option (list node) :=
  if existsb badKey docs then None else if bool_decide (docs = []) then None else Some docs.
Definition parse (docs : list node) : option (list node) :=
  docs ← parseStream docs; if existsb pipeKey docs then None else Some docs.
