(* ===== verification/IngestSpec.v ===== *)
(** * Paths of an ingested stream: what a path's text and a walk's paths promise

    A path's text and the path name each other ([ParsePath_iff]); every node a walk of an accepted
    stream visits is the one its path resolves to, and its path has a text ([walkStream_resolves],
    [walkStream_printable]). *)

From Stdlib Require Import NArith DecimalString Decimal DecimalN DecimalFacts.
From S2P Require Import Prelude IngestPath.

(** ** Texts *)

Definition has (c : ascii) (s : string) : Prop := c ∈ String.list_ascii_of_string s.

Lemma has_nil c : ¬ has c "".
Proof. apply not_elem_of_nil. Qed.
Lemma has_cons c d s : has c (String d s) ↔ c = d ∨ has c s.
Proof. apply elem_of_cons. Qed.
Lemma has_app c s t : has c (s +:+ t) ↔ has c s ∨ has c t.
Proof.
  induction s as [|d s IH]; [change ("" +:+ t) with t; pose proof (has_nil c); tauto|].
  change (String d s +:+ t) with (String d (s +:+ t)). rewrite !has_cons, IH. tauto.
Qed.

Lemma string_app_nil s : s +:+ "" = s.
Proof. induction s as [|c s IH]; [done|]. change (String c s +:+ "") with (String c (s +:+ "")). by rewrite IH. Qed.

(** [Cut] finds the first byte, or none. *)
Lemma Cut_found c a b : ¬ has c a → Cut c (a +:+ String c b) = (a, Some b).
Proof.
  induction a as [|d a IH]; intros Ha; simpl; [by rewrite bool_decide_true|].
  rewrite has_cons in Ha. rewrite bool_decide_false by (intros ->; tauto).
  change (Cut c _) with (Cut c (a +:+ String c b)). rewrite IH by tauto. done.
Qed.
Lemma Cut_sep c a b : ¬ has c a → Cut c (a +:+ String c "" +:+ b) = (a, Some b).
Proof. apply Cut_found. Qed.
Lemma Cut_none c a : ¬ has c a → Cut c a = (a, None).
Proof.
  induction a as [|d a IH]; intros Ha; simpl; [done|].
  rewrite has_cons in Ha. rewrite bool_decide_false by (intros ->; tauto). by rewrite IH by tauto.
Qed.
Lemma Cut_inv c s a o : Cut c s = (a, o) →
  ¬ has c a ∧ match o with Some b => s = a +:+ String c b | None => s = a end.
Proof.
  revert a o. induction s as [|d s IH]; intros a o; simpl.
  { intros [= <- <-]. split; [apply has_nil|done]. }
  case_bool_decide as Hd; [intros [= <- <-]; subst; split; [apply has_nil|done]|].
  destruct (Cut c s) as [a' o'] eqn:Hs. intros [= <- <-]. destruct (IH _ _ eq_refl) as [Ha Ho].
  rewrite has_cons. split; [intros [->|]; tauto|]. by destruct o'; rewrite Ho.
Qed.

Lemma CutPrefix_iff p s r : CutPrefix p s = Some r ↔ s = p +:+ r.
Proof.
  revert s. induction p as [|c p IH]; intros s; simpl; [naive_solver|].
  change (String.append p r) with (p +:+ r). change (String.append (String c p) r) with (String c (p +:+ r)).
  destruct s as [|d s]; [done|]. case_bool_decide as Hc; [rewrite IH; naive_solver|naive_solver].
Qed.

(** ** Numbers *)

Lemma to_uint_norm n : unorm (N.to_uint n) = N.to_uint n.
Proof. rewrite <- Unsigned.to_of. by rewrite Unsigned.of_to. Qed.

Lemma Atoi_Itoa n : Atoi (Itoa n) = Some n.
Proof.
  unfold Atoi, Itoa. rewrite NilZero.usu; [simpl; by rewrite Unsigned.of_to|].
  rewrite <- to_uint_norm. apply unorm_nonnil.
Qed.

Lemma all_dec_uint d : all_dec (NilEmpty.string_of_uint d) = true.
Proof. by induction d. Qed.
Lemma unorm_D0_nil d d' : unorm d = D0 d' → d' = Nil.
Proof.
  unfold unorm. pose proof (nzhead_nonzero d d') as H. by destruct (nzhead d) eqn:Hd; intros Hx; try discriminate Hx; injection Hx as Hx; subst.
Qed.

Lemma decimal_Itoa n : decimal (Itoa n) = true.
Proof.
  unfold Itoa. pose proof (all_dec_uint (N.to_uint n)) as Ha. pose proof (to_uint_norm n) as Hn.
  destruct (N.to_uint n) eqn:Hd; try done.
  by rewrite (unorm_D0_nil _ _ Hn).
Qed.

Lemma all_dec_read s : all_dec s = true → ∃ d, NilEmpty.uint_of_string s = Some d.
Proof.
  induction s as [|c s IH]; [eauto|]. simpl. intros [Hc Hs]%andb_true_iff. destruct (IH Hs) as [d ->].
  clear -Hc. destruct c as [[] [] [] [] [] [] [] []]; try discriminate Hc; simpl; eauto.
Qed.

Lemma decimal_inv s : decimal s = true → ∃ n, s = Itoa n.
Proof.
  intros Hs. assert (all_dec s = true ∧ s ≠ "") as [Ha He].
  { destruct s as [|[[] [] [] [] [] [] [] []] [|]]; try discriminate Hs; split; done. }
  destruct (all_dec_read s Ha) as [d Hd].
  assert (Hz : NilZero.uint_of_string s = Some d) by (destruct s; done).
  exists (N.of_uint d). unfold Itoa. rewrite Unsigned.to_of. rewrite <- (NilZero.sus s d Hz). f_equal.
  pose proof (NilZero.sus s d Hz) as Hp. clear -Hs Hp Hz.
  destruct d as [|d| | | | | | | | |]; [by destruct (NilZero.uint_of_string_nonnil s)|destruct d; [done|..]; subst s; discriminate Hs|..]; done.
Qed.

Lemma dec_no_bracket s c : all_dec s = true → is_dec c = false → ¬ has c s.
Proof.
  induction s as [|d s IH]; [intros _ _; apply has_nil|]. simpl. intros [Hd Hs]%andb_true_iff Hc.
  rewrite has_cons. intros [->|]; [congruence|]. by apply IH.
Qed.
Lemma Itoa_all_dec n : all_dec (Itoa n) = true.
Proof.
  unfold Itoa. pose proof (all_dec_uint (N.to_uint n)). by destruct (N.to_uint n).
Qed.

(** ** Pointers *)

Lemma escape_cons c r : escape (String c r) =
  if decide (c = "~"%char) then "~0" +:+ escape r else
  if decide (c = "/"%char) then "~1" +:+ escape r else String c (escape r).
Proof. by destruct c as [[] [] [] [] [] [] [] []]. Qed.
Lemma unescape_cons c r : unescape (String c r) =
  if decide (c = "~"%char) then
    match r with
    | String d r => if decide (d = "0"%char) then String "~" <$> unescape r else
                    if decide (d = "1"%char) then String "/" <$> unescape r else None
    | EmptyString => None
    end
  else String c <$> unescape r.
Proof.
  destruct c as [[] [] [] [] [] [] [] []]; try done.
  destruct r as [|d r]; [done|]. by destruct d as [[] [] [] [] [] [] [] []].
Qed.

Lemma unescape_escape t : unescape (escape t) = Some t.
Proof.
  induction t as [|c t IH]; [done|]. rewrite escape_cons.
  destruct (decide (c = "~"%char)) as [->|H1]; [|destruct (decide (c = "/"%char)) as [->|H2]].
  - change ("~0" +:+ escape t) with (String "~" (String "0" (escape t))). cbn [unescape]. by rewrite IH.
  - change ("~1" +:+ escape t) with (String "~" (String "1" (escape t))). cbn [unescape]. by rewrite IH.
  - rewrite unescape_cons, decide_False by done. by rewrite IH.
Qed.

Lemma escape_no_slash t : ¬ has "/" (escape t).
Proof.
  induction t as [|c t IH]; [apply has_nil|]. rewrite escape_cons.
  destruct (decide (c = "~"%char)); [|destruct (decide (c = "/"%char))];
    rewrite ?has_app, ?has_cons; try (pose proof (has_nil "/"); naive_solver).
Qed.
Lemma escape_pipe t : has "|" (escape t) ↔ has "|" t.
Proof.
  induction t as [|c t IH]; [done|]. rewrite escape_cons, has_cons.
  destruct (decide (c = "~"%char)) as [->|]; [|destruct (decide (c = "/"%char)) as [->|]];
    rewrite ?has_app, ?has_cons, IH; pose proof (has_nil "|"); naive_solver.
Qed.

Lemma escape_unescape s t : unescape s = Some t → ¬ has "/" s → s = escape t.
Proof.
  revert t. induction s as [s IH] using (induction_ltof1 _ String.length). unfold ltof in IH.
  destruct s as [|c s]; intros t; [by intros [= <-]|]. rewrite unescape_cons, has_cons.
  destruct (decide (c = "~"%char)) as [->|H1].
  - destruct s as [|d s]; [done|]. rewrite has_cons.
    destruct (decide (d = "0"%char)) as [->|]; [|destruct (decide (d = "1"%char)) as [->|]; [|done]];
      intros (t' & Ht & ->)%fmap_Some Hs; rewrite escape_cons; simpl;
      rewrite (IH s ltac:(simpl; lia) t' Ht) at 1 by tauto; done.
  - intros (t' & Ht & ->)%fmap_Some Hs. rewrite escape_cons, !decide_False by naive_solver.
    f_equal. apply IH; [simpl; lia|done|tauto].
Qed.

(** What [Split] takes apart. *)
Definition joined (parts : list string) : string := foldr (λ p s, String "/" (p +:+ s)) "" parts.

Lemma writePointer_joined ts : writePointer ts = joined (escape <$> ts).
Proof. induction ts as [|t ts IH]; [done|]. exact (f_equal (λ s, String "/" (escape t +:+ s)) IH). Qed.

Lemma Split_inv s : Split "/" s ≠ [] ∧ Forall (λ p, ¬ has "/" p) (Split "/" s) ∧ String "/" s = joined (Split "/" s).
Proof.
  induction s as [|c s (Hne & Hf & Hj)]; simpl.
  { split_and!; [done|by repeat constructor; apply has_nil|done]. }
  case_bool_decide as Hc.
  - subst c. split_and!; [done|constructor; [apply has_nil|done]|]. cbn [joined foldr].
    fold (joined (Split "/" s)). by rewrite <- Hj.
  - destruct (Split "/" s) as [|x l] eqn:Hs; [done|]. apply Forall_cons in Hf as [Hx Hl].
    split_and!; [done|constructor; [|done]|].
    + rewrite has_cons. intros [?|?]; [by subst|done].
    + cbn [joined foldr] in *. injection Hj as ->. done.
Qed.

Lemma Split_joined p parts : ¬ has "/" p → Forall (λ p, ¬ has "/" p) parts →
  Split "/" (p +:+ joined parts) = p :: parts.
Proof.
  revert p. induction parts as [|q parts IH]; intros p Hp Hf.
  - simpl. rewrite string_app_nil. induction p as [|c p IHp]; [done|]. rewrite has_cons in Hp. simpl.
    rewrite bool_decide_false by (intros ->; tauto). by rewrite IHp by tauto.
  - apply Forall_cons in Hf as [Hq Hf]. induction p as [|c p IHp].
    + simpl. by rewrite IH.
    + rewrite has_cons in Hp. change (String c p +:+ ?x) with (String c (p +:+ x)). cbn [Split].
      rewrite bool_decide_false by (intros ->; tauto). by rewrite IHp by tauto.
Qed.

Lemma pointerTokens_write ts : pointerTokens (writePointer ts) = Some ts.
Proof.
  destruct ts as [|t ts]; [done|]. rewrite writePointer_joined. cbn [fmap list_fmap joined foldr pointerTokens].
  fold (joined (escape <$> ts)). rewrite Split_joined; [|apply escape_no_slash|apply Forall_fmap, Forall_true, escape_no_slash].
  change (mapM unescape (escape <$> t :: ts) = Some (t :: ts)).
  apply mapM_Some_2, Forall2_fmap_l, Forall_Forall2_diag, Forall_true, unescape_escape.
Qed.

Lemma pointerTokens_inv s ts : pointerTokens s = Some ts → s = writePointer ts.
Proof.
  destruct s as [|c s]; [by intros [= <-]|]. unfold pointerTokens.
  destruct (decide (c = "/"%char)) as [->|Hc]; [|destruct c as [[] [] [] [] [] [] [] []]; done].
  destruct (Split_inv s) as (_ & Hf & Hj). rewrite Hj. clear Hj. intros Hm%mapM_Some_1.
  rewrite writePointer_joined. f_equal. induction Hm as [|p t ps ts Hp Hm IH]; [done|].
  apply Forall_cons in Hf as [Hp' Hf]. cbn. rewrite <- (escape_unescape p t) by done. f_equal. by apply IH.
Qed.

Lemma write_no_pipe ts : has "|" (writePointer ts) ↔ Exists (has "|") ts.
Proof.
  induction ts as [|t ts IH]; [cbn; rewrite Exists_nil; pose proof (has_nil "|"); tauto|].
  cbn [writePointer foldr]. fold (writePointer ts). rewrite Exists_cons, !has_app, IH, escape_pipe, has_cons.
  pose proof (has_nil "|"). naive_solver.
Qed.

(** ** A path's text *)

(** What a path that has a text is. *)
Record path_valid (p : Path) : Prop := {
  valid_doc : (p_doc p ≤ maxDoc)%N;
  valid_pointer : Forall (λ t, ¬ has "|" t) (p_pointer p);
  valid_format : (p_format p = "" ∧ p_inner p = []) ∨
                 ((p_format p = "yaml" ∨ p_format p = "json") ∧ p_pointer p ≠ []) }.

Lemma pointer_no_pipe ts : Forall (λ t, ¬ has "|" t) ts ↔ ¬ has "|" (writePointer ts).
Proof. rewrite write_no_pipe. rewrite Forall_Exists_neg. done. Qed.

Lemma inner_text (f : string) ts : ¬ has "/" f →
  ∃ after, Cut "/" (f +:+ writePointer ts) = (f, after) ∧
    match after with Some r => "/" +:+ r | None => "" end = writePointer ts.
Proof.
  intros Hf. destruct ts as [|t ts].
  - exists None. cbn. by rewrite string_app_nil, Cut_none.
  - eexists. split; [exact (Cut_found "/" f _ Hf)|done].
Qed.

Theorem ParsePath_iff s p : ParsePath s = Some p ↔ s = path_string p ∧ path_valid p.
Proof.
  unfold ParsePath, path_string. split.
  - intros (rest & ->%CutPrefix_iff & H)%bind_Some.
    destruct (Cut "]" rest) as [num [rest'|]] eqn:Hb; [|done]. apply Cut_inv in Hb as [_ ->].
    destruct (decimal num) eqn:Hn; [|done]. apply decimal_inv in Hn as [n ->]. simpl negb in H. cbv iota in H.
    rewrite Atoi_Itoa in H. cbn [mbind option_bind] in H. destruct (N.ltb_spec maxDoc n) as [|Hmax]; [done|].
    destruct (Cut "|" rest') as [outer [inner|]] eqn:Hp; apply Cut_inv in Hp as [Ho ->].
    + apply bind_Some in H as (ptr & ->%pointerTokens_inv & H).
      destruct (Cut "/" inner) as [format after] eqn:Hi.
      destruct (_ || _) eqn:Hf in H; [done|]. apply bind_Some in H as (ip & Hip%pointerTokens_inv & [= <-]).
      apply Cut_inv in Hi as [_ Hi]. simpl.
      apply orb_false_iff in Hf as [Hf Hptr%bool_decide_eq_false].
      assert (Hfmt : format = "yaml" ∨ format = "json") by (do 2 case_bool_decide; first [tauto | discriminate Hf]).
      rewrite bool_decide_false by (intros ->; destruct Hfmt; done).
      assert (Hin : inner = format +:+ writePointer ip).
      { rewrite <- Hip. destruct after; rewrite Hi; [done|by rewrite string_app_nil]. }
      split; [by rewrite Hin|]. split; simpl; [done|by apply pointer_no_pipe|by right].
    + apply bind_Some in H as (ptr & ->%pointerTokens_inv & [= <-]). simpl. rewrite string_app_nil.
      split; [done|]. split; simpl; [done|by apply pointer_no_pipe|by left].
  - intros [-> [Hdoc Hptr Hf]]. destruct p as [doc ptr format ip]. cbn [p_doc p_pointer p_format p_inner] in *.
    rewrite pointer_no_pipe in Hptr.
    rewrite (proj2 (CutPrefix_iff "doc[" _ _) eq_refl). cbn [mbind option_bind].
    rewrite Cut_sep by (apply dec_no_bracket; [apply Itoa_all_dec|done]).
    rewrite decimal_Itoa, Atoi_Itoa. cbn [negb mbind option_bind]. rewrite (proj2 (N.ltb_ge maxDoc doc)) by done.
    destruct Hf as [[-> ->]|[Hf Hne]].
    + rewrite bool_decide_true by done. rewrite string_app_nil, Cut_none by done.
      by rewrite pointerTokens_write.
    + rewrite (bool_decide_false (format = "")) by (intros ->; destruct Hf; done).
      rewrite Cut_sep by done. rewrite pointerTokens_write. cbn [mbind option_bind].
      destruct (inner_text format ip) as (after & -> & Ha).
      { destruct Hf as [->| ->]; rewrite !has_cons; pose proof (has_nil "/"); naive_solver. }
      rewrite (bool_decide_false (ptr = [])) by done. rewrite orb_false_r, Ha, pointerTokens_write.
      by destruct Hf as [->| ->].
Qed.

(** ** Walks *)

(** Induction on a node, through its content. *)
Section NodeInd.
Context (P : node → Prop).
Context (Hscalar : ∀ tag v, P (Scalar tag v)).
Context (Hmapping : ∀ tag m, Forall (λ kv, P kv.1 ∧ P kv.2) m → P (Mapping tag m)).
Context (Hsequence : ∀ tag l, Forall P l → P (Sequence tag l)).
Context (Halias : ∀ t, P t → P (Alias t)).

Fixpoint node_induction (n : node) : P n :=
  match n with
  | Scalar tag v => Hscalar tag v
  | Mapping tag m =>
      Hmapping tag m ((fix all m : Forall (λ kv, P kv.1 ∧ P kv.2) m :=
        match m with
        | [] => Forall_nil_2 _
        | (k, v) :: m => Forall_cons_2 (λ kv, P kv.1 ∧ P kv.2) (k, v) m
                           (conj (node_induction k) (node_induction v)) (all m)
        end) m)
  | Sequence tag l =>
      Hsequence tag l ((fix all l : Forall P l :=
        match l with [] => Forall_nil_2 _ | c :: l => Forall_cons_2 P c l (node_induction c) (all l) end) l)
  | Alias t => Halias t (node_induction t)
  end.
End NodeInd.

(** A path extended by tokens, as [child] extends it. *)
Definition extend (p : Path) (ts : list string) : Path := foldl child p ts.

Lemma walk_mapping tag m p key x :
  x ∈ walkNode (Mapping tag m) p key ↔ x = (Mapping tag m, p, key) ∨
    ∃ k v, (k, v) ∈ m ∧ (x ∈ walkNode k p true ∨ x ∈ walkNode v (child p (keyToken k)) false).
Proof.
  cbn [walkNode]. rewrite elem_of_cons. apply or_iff_compat_l.
  induction m as [|[k v] m IH]; [rewrite elem_of_nil; set_solver|].
  rewrite !elem_of_app, IH. set_solver.
Qed.
Lemma walk_sequence tag l p key x :
  x ∈ walkNode (Sequence tag l) p key ↔ x = (Sequence tag l, p, key) ∨
    ∃ i c, l !! i = Some c ∧ x ∈ walkNode c (child p (Itoa (N.of_nat i))) false.
Proof.
  cbn [walkNode]. rewrite elem_of_cons. apply or_iff_compat_l.
  assert (∀ j, x ∈ (fix items i l := match l with
    | [] => [] | c :: l => walkNode c (child p (Itoa i)) false ++ items (N.succ i) l end) j l ↔
    ∃ i c, l !! i = Some c ∧ x ∈ walkNode c (child p (Itoa (j + N.of_nat i))) false) as H; [|by rewrite H].
  induction l as [|c l IH]; intros j; [rewrite elem_of_nil; naive_solver|].
  rewrite elem_of_app, IH. split.
  - intros [H|(i & c' & Hi & H)]; [exists 0%nat, c; rewrite N.add_0_r; done|].
    exists (S i), c'. split; [done|]. by replace (j + N.of_nat (S i))%N with (N.succ j + N.of_nat i)%N by lia.
  - intros ([|i] & c' & Hi & H); simpl in Hi.
    + injection Hi as ->. rewrite N.add_0_r in H. by left.
    + right. exists i, c'. split; [done|]. by replace (N.succ j + N.of_nat i)%N with (j + N.of_nat (S i))%N by lia.
Qed.

(** The keys of a checked mapping: each names its value. *)
Lemma bad_keys_elem seen m k v : bad_keys seen m = false → (k, v) ∈ m →
  (∃ tag t, deref k = Scalar tag t ∧ t ∉ seen) ∧ mappingValue m (keyToken k) = Some v.
Proof.
  revert seen. induction m as [|[k' v'] m IH]; intros seen; simpl; [by rewrite elem_of_nil|].
  destruct (deref k') as [tag t|?|?|?] eqn:Hk'; try done.
  intros [Ht%bool_decide_eq_false Hm]%orb_false_iff [[= -> ->]|Hkv]%elem_of_cons.
  - split; [by eexists _, _|]. unfold keyToken. rewrite Hk'. by rewrite bool_decide_true.
  - destruct (IH _ Hm Hkv) as [(tag' & t' & Hk & Hs) Hv]. split; [exists tag', t'; set_solver|].
    unfold keyToken in *. rewrite Hk in *. rewrite bool_decide_false by set_solver. done.
Qed.

Lemma scalar_key_walk k p key tag t : deref k = Scalar tag t → walkNode k p key = [(k, p, key)].
Proof. by destruct k. Qed.

Lemma bad_mapping tag m : badKey (Mapping tag m) = false →
  bad_keys [] m = false ∧ ∀ k v, (k, v) ∈ m → badKey v = false.
Proof.
  cbn [badKey]. intros [? Hp]%orb_false_iff. split; [done|]. clear -Hp.
  induction m as [|[k v] m IH]; intros k' v'; [by rewrite elem_of_nil|].
  apply orb_false_iff in Hp as [[? ?]%orb_false_iff Hp]. rewrite elem_of_cons.
  intros [[= -> ->]|Hkv]; [done|]. by eapply IH.
Qed.
Lemma pipe_mapping tag m : pipeKey (Mapping tag m) = false →
  ∀ k v, (k, v) ∈ m → pipe_key k = false ∧ pipeKey v = false.
Proof.
  cbn [pipeKey]. intros [He Hp]%orb_false_iff.
  induction m as [|[k v] m IH]; intros k' v'; [by rewrite elem_of_nil|].
  cbn [existsb] in He. apply orb_false_iff in He as [? He].
  apply orb_false_iff in Hp as [[? ?]%orb_false_iff Hp]. rewrite elem_of_cons.
  intros [[= -> ->]|Hkv]; [done|]. by eapply IH.
Qed.
Lemma existsb_elem {A} (f : A → bool) l x : existsb f l = false → x ∈ l → f x = false.
Proof.
  intros Hl Hx. destruct (f x) eqn:Hf; [|done]. rewrite <- Hl. symmetry. apply existsb_exists.
  exists x. split; [by apply list_elem_of_In|done].
Qed.

(** What a visit of a walk from [n] is: a node the tokens after [n]'s own path resolve to, or a key
    of the mapping they resolve to; tokens of keys without ["|"] hold none. *)
Definition visited (n : node) (p : Path) (x : node * Path * bool) : Prop :=
  ∃ ts, x.1.2 = extend p ts ∧ (pipeKey n = false → Forall (λ t, ¬ has "|" t) ts) ∧
    if x.2 then ∃ tag m v, resolveIn n ts = Some (Mapping tag m) ∧ (x.1.1, v) ∈ m
    else resolveIn n ts = Some (deref x.1.1).

Lemma visited_child n p c tok x :
  (∀ ts, resolveIn n (tok :: ts) = resolveIn c ts) →
  (pipeKey n = false → ¬ has "|" tok ∧ pipeKey c = false) →
  visited c (child p tok) x → visited n p x.
Proof.
  intros Hr Hp (ts & He & Ht & Hx). exists (tok :: ts). split_and!; [done| |].
  - intros Hn. destruct (Hp Hn). constructor; [done|by apply Ht].
  - rewrite Hr. done.
Qed.

Lemma walkNode_visits n : badKey n = false → ∀ p key x, x ∈ walkNode n p key →
  x = (n, p, key) ∨ visited n p x.
Proof.
  induction n as [tag v|tag m IH|tag l IH|t IH] using node_induction; intros Hb p key x.
  - intros ->%list_elem_of_singleton. by left.
  - destruct (bad_mapping tag m Hb) as [Hk Hv]. rewrite walk_mapping.
    intros [->|(k & v & Hkv & Hx)]; [by left|right].
    destruct (bad_keys_elem [] m k v Hk Hkv) as [(tg & t & Hs & _) Hm].
    destruct Hx as [Hx|Hx].
    + rewrite (scalar_key_walk k p true tg t Hs) in Hx. apply list_elem_of_singleton in Hx as ->.
      exists []. split_and!; [done|by constructor|]. by exists tag, m, v.
    + assert (Hc : visited v (child p (keyToken k)) x).
      { rewrite Forall_forall in IH. destruct (IH _ Hkv) as [_ IHv].
        destruct (IHv (Hv _ _ Hkv) _ _ _ Hx) as [->|]; [|done].
        exists []. split_and!; [done|by constructor|]. by destruct v. }
      eapply visited_child; [| |exact Hc].
      * intros ts. cbn [resolveIn deref]. by rewrite Hm.
      * intros Hp. destruct (pipe_mapping tag m Hp k v Hkv) as [Hpk ?]. split; [|done].
        unfold pipe_key in Hpk. unfold keyToken. rewrite Hs in *. by apply orb_false_iff in Hpk as [?%bool_decide_eq_false _].
  - rewrite walk_sequence. intros [->|(i & c & Hi & Hx)]; [by left|right].
    assert (Hin : c ∈ l) by (by eapply list_elem_of_lookup_2).
    assert (Hc : visited c (child p (Itoa (N.of_nat i))) x).
    { rewrite Forall_forall in IH. destruct (IH _ Hin (existsb_elem _ _ _ Hb Hin) _ _ _ Hx) as [->|]; [|done].
      exists []. split_and!; [done|by constructor|]. by destruct c. }
    eapply visited_child; [| |exact Hc].
    * intros ts. cbn [resolveIn deref]. rewrite decimal_Itoa, Atoi_Itoa. cbn [negb mbind option_bind].
      by rewrite Nat2N.id, Hi.
    * intros Hp. split; [|exact (existsb_elem _ _ _ Hp Hin)].
      apply dec_no_bracket; [apply Itoa_all_dec|done].
  - intros ->%list_elem_of_singleton. by left.
Qed.

Lemma extend_outer doc ptr ts : extend (MkPath doc ptr "" []) ts = MkPath doc (ptr ++ ts) "" [].
Proof.
  revert ptr. induction ts as [|t ts IH]; intros ptr; [by rewrite app_nil_r|].
  cbn [extend foldl]. unfold child at 2. rewrite bool_decide_true by done.
  cbn [p_doc p_pointer p_format p_inner]. fold (extend (MkPath doc (ptr ++ [t]) "" []) ts).
  rewrite IH. by rewrite <- app_assoc.
Qed.
Lemma extend_inner doc ptr f ip ts : f ≠ "" → extend (MkPath doc ptr f ip) ts = MkPath doc ptr f (ip ++ ts).
Proof.
  intros Hf. revert ip. induction ts as [|t ts IH]; intros ip; [by rewrite app_nil_r|].
  cbn [extend foldl]. unfold child at 2. rewrite bool_decide_false by done.
  cbn [p_doc p_pointer p_format p_inner]. fold (extend (MkPath doc ptr f (ip ++ [t])) ts).
  rewrite IH. by rewrite <- app_assoc.
Qed.

Lemma walkStream_elem docs x : x ∈ walkStream docs ↔
  ∃ i d, docs !! i = Some d ∧ x ∈ walkNode d (MkPath (N.of_nat i) [] "" []) false.
Proof.
  unfold walkStream. rewrite (list_elem_of_join x). split.
  - intros (l & Hx & Hl). apply elem_of_lookup_imap in Hl as (i & d & -> & Hd). by exists i, d.
  - intros (i & d & Hd & Hx). eexists. split; [exact Hx|]. apply elem_of_lookup_imap. by exists i, d.
Qed.

Lemma parse_ok docs docs' : parse docs = Some docs' →
  docs' = docs ∧ ∀ d, d ∈ docs → badKey d = false ∧ pipeKey d = false.
Proof.
  unfold parse, parseStream. destruct (existsb badKey docs) eqn:Hb; [done|].
  case_bool_decide; [done|]. cbn [mbind option_bind]. destruct (existsb pipeKey docs) eqn:Hp; [done|].
  intros [= <-]. split; [done|]. intros d Hd. split; by eapply existsb_elem.
Qed.

(** What the visits of an accepted stream are. *)
Lemma walkStream_visits docs docs' (x : node * Path * bool) : parse docs = Some docs' → x ∈ walkStream docs' →
  ∃ i d ts, docs' !! i = Some d ∧ x.1.2 = MkPath (N.of_nat i) ts "" [] ∧ Forall (λ t, ¬ has "|" t) ts ∧
    if x.2 then ∃ tag m v, resolveIn d ts = Some (Mapping tag m) ∧ (x.1.1, v) ∈ m
    else resolveIn d ts = Some (deref x.1.1).
Proof.
  intros [-> Hok]%parse_ok (i & d & Hd & Hx)%walkStream_elem.
  destruct (Hok d) as [Hb Hp]; [by eapply list_elem_of_lookup_2|].
  destruct (walkNode_visits d Hb _ _ _ Hx) as [->|(ts & He & Ht & Hr)].
  - exists i, d, []. split_and!; [done|done|by constructor|]. by destruct d.
  - exists i, d, ts. rewrite He, extend_outer. split_and!; [done|done|by apply Ht|done].
Qed.

Lemma stream_visit_resolves docs docs' n p : parse docs = Some docs' → (n, p, false) ∈ walkStream docs' →
  resolve docs' (p_doc p) (p_pointer p) = Some (deref n).
Proof.
  intros Hp Hx. destruct (walkStream_visits docs docs' _ Hp Hx) as (i & d & ts & Hd & He & _ & Hr).
  simpl in *. subst p. unfold resolve. cbn [p_doc p_pointer]. rewrite Nat2N.id, Hd. done.
Qed.
Lemma stream_visit_key docs docs' n p : parse docs = Some docs' → (n, p, true) ∈ walkStream docs' →
  ∃ tag m v, resolve docs' (p_doc p) (p_pointer p) = Some (Mapping tag m) ∧ (n, v) ∈ m.
Proof.
  intros Hp Hx. destruct (walkStream_visits docs docs' _ Hp Hx) as (i & d & ts & Hd & He & _ & Hr).
  simpl in *. subst p. unfold resolve. cbn [p_doc p_pointer]. rewrite Nat2N.id, Hd. done.
Qed.
Lemma stream_visit_parses docs docs' n p key : parse docs = Some docs' →
  (N.of_nat (length docs) ≤ maxDoc + 1)%N →
  (n, p, key) ∈ walkStream docs' → ParsePath (path_string p) = Some p.
Proof.
  intros Hp Hl Hx. destruct (walkStream_visits docs docs' _ Hp Hx) as (i & d & ts & Hd & He & Ht & _).
  simpl in *. subst p. apply parse_ok in Hp as [-> _]. apply lookup_lt_Some in Hd.
  apply ParsePath_iff. split; [done|]. split; simpl; [lia|done|by left].
Qed.

(** An embedded document's visits. *)
Lemma embedded_visit_resolves doc outer f n p : badKey doc = false → path_valid outer → p_pointer outer ≠ [] →
  f = "yaml" ∨ f = "json" → (n, p, false) ∈ walkEmbedded doc outer f →
  ParsePath (path_string p) = Some p ∧ p_doc p = p_doc outer ∧ p_pointer p = p_pointer outer ∧
  resolveIn doc (p_inner p) = Some (deref n).
Proof.
  intros Hb [Hd Hptr _] Hne Hf Hx. unfold walkEmbedded in Hx.
  assert (f ≠ "") by (by destruct Hf as [->| ->]).
  assert (∃ ts, p = MkPath (p_doc outer) (p_pointer outer) f ts ∧ resolveIn doc ts = Some (deref n)) as (ts & -> & Hr).
  { destruct (walkNode_visits doc Hb _ _ _ Hx) as [[= -> ->]|(ts & He & _ & Hr)].
    - exists []. split; [done|]. by destruct doc.
    - exists ts. simpl in *. rewrite He, extend_inner by done. done. }
  split_and!; [|done..]. apply ParsePath_iff. split; [done|]. split; simpl; [done|done|by right].
Qed.
