(* ===== verification/TextProps.v ===== *)
(** * The properties of the pure components: the unified diff, identifiers, and ingested paths. *)

From stdpp Require Import sorting.
From S2P Require Import Prelude TextDiff.


(** ** Reads in range *)

Lemma read_Some {A} (l : list A) i : 0 ≤ i < Z.of_nat (length l) → is_Some (read_at l i).
Proof. unfold read_at. intros Hi. destruct (Z.ltb_spec i 0); [lia|]. apply lookup_lt_is_Some. lia. Qed.
Lemma read_range {A} (l : list A) i : is_Some (read_at l i) → 0 ≤ i < Z.of_nat (length l).
Proof. unfold read_at. destruct (Z.ltb_spec i 0); [by intros [? ?]|]. intros H1%lookup_lt_is_Some. lia. Qed.
Lemma write_in {A} (l : list A) i x : 0 ≤ i < Z.of_nat (length l) →
  ∃ l', write_at l i x = Some l' ∧ length l' = length l ∧ ∀ j, read_at l' j = if decide (j = i) then Some x else read_at l j.
Proof.
  intros Hi. unfold write_at. destruct (Z.leb_spec 0 i), (Z.ltb_spec i (Z.of_nat (length l))); try lia.
  eexists. split; [done|]. split; [apply length_insert|]. intros j. unfold read_at.
  destruct (Z.ltb_spec j 0); [by case_decide; [lia|]|]. case_decide as Hj.
  - subst. apply list_lookup_insert_eq. lia.
  - apply list_lookup_insert_ne. lia.
Qed.
Lemma slice_in {A} (l : list A) lo hi : 0 ≤ lo ≤ hi → hi ≤ Z.of_nat (length l) →
  ∃ s, slice_at l lo hi = Some s ∧ ∀ j, 0 ≤ j < hi - lo → read_at s j = read_at l (lo + j).
Proof.
  intros Hlo Hhi. unfold slice_at. destruct (Z.leb_spec 0 lo), (Z.leb_spec lo hi), (Z.leb_spec hi (Z.of_nat (length l))); try lia.
  eexists. split; [done|]. intros j Hj. unfold read_at. destruct (Z.ltb_spec j 0), (Z.ltb_spec (lo + j) 0); try lia.
  rewrite lookup_take_lt, lookup_drop by lia. f_equal. lia.
Qed.

Section Spec.
Variables a b : list string.
Let n : Z := Z.of_nat (length a).
Let m : Z := Z.of_nat (length b).

(** ** Slides *)

(** The lines at [x] and [y], both in their texts, are the same. *)
Definition alike (x y : Z) : bool := bool_decide (is_Some (read_at a x)) && bool_decide (read_at a x = read_at b y).
Fixpoint glide (fuel : nat) (k x : Z) : Z :=
  match fuel with
  | O => x
  | S f => if alike x (x - k) then glide f k (x + 1) else x
  end.

Lemma glide_S f k x : glide (S f) k x = if alike x (x - k) then glide f k (x + 1) else x.
Proof. done. Qed.
Arguments glide : simpl never.

Lemma alike_true x y : alike x y = true → x < n ∧ y < m ∧ is_Some (read_at a x) ∧ read_at a x = read_at b y.
Proof.
  unfold alike. rewrite !andb_true_iff, !bool_decide_eq_true. intros [Hx Heq]. pose proof (read_range _ _ Hx).
  rewrite Heq in Hx. pose proof (read_range _ _ Hx). rewrite <- Heq in Hx. unfold n, m. lia || (split_and!; [lia|lia|done|done]).
Qed.
Lemma same_alike x y : 0 ≤ x → 0 ≤ y → same a b x y = Some (alike x y).
Proof.
  intros Hx Hy. unfold same, alike. destruct (Z.ltb_spec x (Z.of_nat (length a))), (Z.ltb_spec y (Z.of_nat (length b))); simpl.
  - destruct (read_Some a x) as [t Ht]; [lia|]. destruct (read_Some b y) as [u Hu]; [lia|]. rewrite Ht, Hu. simpl. f_equal.
    by apply bool_decide_ext; naive_solver.
  - f_equal. symmetry. apply andb_false_iff. rewrite !bool_decide_eq_false. destruct (read_at a x) eqn:Ht; [right|left; by intros []].
    intros Heq. destruct (read_range b y) as [? ?]; [by rewrite <- Heq|lia].
  - f_equal. symmetry. apply andb_false_iff. left. apply bool_decide_eq_false. intros ?%read_range. lia.
  - f_equal. symmetry. apply andb_false_iff. left. apply bool_decide_eq_false. intros ?%read_range. lia.
Qed.
(** A slide from within the quadrant reads the texts in range, and ends by its fuel. *)
Lemma slide_glide fuel k x : 0 ≤ x → 0 ≤ x - k → Z.max 0 (n - x) < Z.of_nat fuel → slide a b fuel k x = Some (glide fuel k x).
Proof.
  revert x. induction fuel as [|f IH]; intros x Hx Hy Hf; [lia|]. cbn [slide]. rewrite glide_S, same_alike by done. simpl.
  destruct (alike x (x - k)) eqn:Ha; [|done]. apply alike_true in Ha. apply IH; lia.
Qed.

(** A slide keeps equal lines. *)
Lemma glide_alike fuel k x i :
  x ≤ i < glide fuel k x → alike i (i - k) = true.
Proof.
  revert x. induction fuel as [|f IH]; intros x; [unfold glide; lia|]. rewrite glide_S.
  destruct (alike x (x - k)) eqn:Hs; [|lia]. intros Hi.
  destruct (decide (i = x)) as [->|]; [done|]. apply (IH (x + 1)). lia.
Qed.
Lemma glide_le fuel k x : x ≤ glide fuel k x.
Proof. revert x. induction fuel; intros x; [unfold glide; lia|]. rewrite glide_S. case_match; [|lia]. specialize (IHfuel (x + 1)). lia. Qed.

(** A slide that moved stays in both texts. *)
Lemma glide_moved k x : x < glide (S (length a)) k x → glide (S (length a)) k x ≤ n ∧ glide (S (length a)) k x - k ≤ m.
Proof.
  intros H. pose proof (glide_alike (S (length a)) k x (glide (S (length a)) k x - 1) ltac:(lia)) as Hs.
  apply alike_true in Hs. lia.
Qed.

(** ** The furthest points *)

(** Where round [d] starts on a diagonal, from the points [v] of the round before. *)
Definition downs (d k : Z) (v : Z → Z) : bool := (k =? - d) || (negb (k =? d) && (v (k - 1) <? v (k + 1))).
Definition starts (d k : Z) (v : Z → Z) : Z := if downs d k v then v (k + 1) else v (k - 1) + 1.

Fixpoint furthest (d : nat) (k : Z) : Z :=
  match d with
  | O => glide (S (length a)) k 0
  | S d' => glide (S (length a)) k (starts (Z.of_nat d) k (furthest d'))
  end.
Definition on_round (d : nat) (k : Z) : Prop := ∃ i, 0 ≤ i ≤ Z.of_nat d ∧ k = 2 * i - Z.of_nat d.

Lemma furthest_S d k :
  furthest (S d) k = glide (S (length a)) k (starts (Z.of_nat (S d)) k (furthest d)).
Proof. done. Qed.

(** A round starts from a neighbour of the round before, at least as far as either neighbour leads. *)
Lemma start_from d k v :
  on_round (S d) k →
  (downs (Z.of_nat (S d)) k v = true ∧ on_round d (k + 1) ∧ starts (Z.of_nat (S d)) k v = v (k + 1)) ∨
  (downs (Z.of_nat (S d)) k v = false ∧ on_round d (k - 1) ∧ starts (Z.of_nat (S d)) k v = v (k - 1) + 1).
Proof.
  intros (i & Hi & ->). unfold starts. destruct (downs _ _ v) eqn:Hd; [left|right]; (split; [done|]); split; try done.
  - exists i. split; [|lia]. split; [lia|].
    unfold downs in Hd. apply orb_true_iff in Hd as [Hd%Z.eqb_eq|[Hd%negb_true_iff%Z.eqb_neq _]%andb_true_iff]; lia.
  - exists (i - 1). unfold downs in Hd. apply orb_false_iff in Hd as [Hd%Z.eqb_neq _]. lia.
Qed.
Lemma start_down d k v :
  on_round (S d) k → on_round d (k + 1) → v (k + 1) ≤ starts (Z.of_nat (S d)) k v.
Proof.
  intros (i & Hi & ->) (j & Hj & Hk). unfold starts, downs.
  destruct (Z.eqb_spec (2 * i - Z.of_nat (S d)) (- Z.of_nat (S d))); [done|].
  destruct (Z.eqb_spec (2 * i - Z.of_nat (S d)) (Z.of_nat (S d))); [lia|]. simpl.
  destruct (Z.ltb_spec (v (2 * i - Z.of_nat (S d) - 1)) (v (2 * i - Z.of_nat (S d) + 1))); lia.
Qed.
Lemma start_right d k v :
  on_round (S d) k → on_round d (k - 1) → v (k - 1) + 1 ≤ starts (Z.of_nat (S d)) k v.
Proof.
  intros (i & Hi & ->) (j & Hj & Hk). unfold starts, downs.
  destruct (Z.eqb_spec (2 * i - Z.of_nat (S d)) (- Z.of_nat (S d))); [lia|].
  destruct (Z.eqb_spec (2 * i - Z.of_nat (S d)) (Z.of_nat (S d))); [simpl; lia|]. simpl.
  destruct (Z.ltb_spec (v (2 * i - Z.of_nat (S d) - 1)) (v (2 * i - Z.of_nat (S d) + 1))); lia.
Qed.
Lemma furthest_down d k : on_round (S d) k → on_round d (k + 1) → furthest d (k + 1) ≤ furthest (S d) k.
Proof. intros. rewrite furthest_S. etrans; [by apply start_down|apply glide_le]. Qed.
Lemma furthest_right d k : on_round (S d) k → on_round d (k - 1) → furthest d (k - 1) + 1 ≤ furthest (S d) k.
Proof. intros. rewrite furthest_S. etrans; [by apply start_right|apply glide_le]. Qed.

Lemma furthest_nonneg d k : on_round d k → 0 ≤ furthest d k ∧ 0 ≤ furthest d k - k.
Proof.
  revert k. induction d as [|d IH]; intros k Hk.
  - destruct Hk as (i & Hi & ->). assert (i = 0) as -> by lia. change (2 * 0 - Z.of_nat 0) with 0 in *. simpl. pose proof (glide_le (S (length a)) 0 0). lia.
  - rewrite furthest_S. pose proof (glide_le (S (length a)) k (starts (Z.of_nat (S d)) k (furthest d))) as Hle.
    destruct (start_from d k (furthest d) Hk) as [(_ & Hr & Heq)|(_ & Hr & Heq)]; rewrite Heq in *;
      apply IH in Hr; lia.
Qed.

(** ** No diagonal leaves the texts first *)

(** Below the second text's end by [s], the diagonal [2 s] above has gone as far as its end; and
    beyond the first's likewise. *)
Definition below (d : nat) (k : Z) : Prop := let x := furthest d k in let s := x - k - m in
  0 < s → on_round d (k + 2 * s) ∧ x + s ≤ furthest d (k + 2 * s).
Definition beyond (d : nat) (k : Z) : Prop := let x := furthest d k in let s := x - n in
  0 < s → on_round d (k - 2 * s) ∧ n ≤ furthest d (k - 2 * s).

(** Past an end there is nothing to slide on. *)
Lemma furthest_stuck d k : n < furthest (S d) k ∨ m < furthest (S d) k - k →
  furthest (S d) k = starts (Z.of_nat (S d)) k (furthest d).
Proof.
  rewrite furthest_S. set (x := starts _ _ _). intros H. pose proof (glide_le (S (length a)) k x).
  destruct (decide (x < glide (S (length a)) k x)) as [Hlt|]; [|lia]. apply glide_moved in Hlt. lia.
Qed.

Lemma on_round_up d k j : on_round d k → j = k + 1 ∨ j = k - 1 → on_round (S d) j.
Proof. intros (i & Hi & ->) [-> | ->]; [exists (i + 1)|exists i]; lia. Qed.

Lemma furthest_below d k : on_round d k → below d k.
Proof.
  unfold below. revert k. induction d as [|d IH]; intros k Hk.
  - destruct Hk as (i & Hi & ->). assert (i = 0) as -> by lia. change (2 * 0 - Z.of_nat 0) with 0 in *. simpl. intros Hs.
    destruct (decide (0 < glide (S (length a)) 0 0)) as [Hlt%glide_moved|]; [lia|].
    pose proof (glide_le (S (length a)) 0 0). lia.
  - intros Hs. set (s := furthest (S d) k - k - m) in *.
    pose proof (furthest_stuck d k ltac:(lia)) as Hx.
    destruct (start_from d k (furthest d) Hk) as [(_ & Hr & Heq)|(_ & Hr & Heq)]; rewrite Heq in Hx.
    + destruct (decide (s = 1)) as [Hs1|].
      * assert (Hk' : on_round (S d) (k + 2)) by (apply (on_round_up d (k + 1)); [done|lia]).
        pose proof (furthest_right d (k + 2) Hk') as Hf. replace (k + 2 - 1) with (k + 1) in Hf by lia.
        rewrite Hs1. split; [done|]. specialize (Hf Hr). replace (k + 2 * 1) with (k + 2) by lia. lia.
      * destruct (IH (k + 1) Hr) as [Hr' Hle]; [lia|].
        replace (k + 1 + 2 * (furthest d (k + 1) - (k + 1) - m)) with (k + 2 * s - 1) in * by lia.
        assert (Hk' : on_round (S d) (k + 2 * s)) by (apply (on_round_up d (k + 2 * s - 1)); [done|lia]).
        split; [done|]. pose proof (furthest_right d _ Hk' Hr'). lia.
    + destruct (IH (k - 1) Hr) as [Hr' Hle]; [lia|].
      replace (k - 1 + 2 * (furthest d (k - 1) - (k - 1) - m)) with (k + 2 * s - 1) in * by lia.
      assert (Hk' : on_round (S d) (k + 2 * s)) by (apply (on_round_up d (k + 2 * s - 1)); [done|lia]).
      split; [done|]. pose proof (furthest_right d _ Hk' Hr'). lia.
Qed.

Lemma furthest_beyond d k : on_round d k → beyond d k.
Proof.
  unfold beyond. revert k. induction d as [|d IH]; intros k Hk.
  - destruct Hk as (i & Hi & ->). assert (i = 0) as -> by lia. change (2 * 0 - Z.of_nat 0) with 0 in *. simpl. intros Hs.
    destruct (decide (0 < glide (S (length a)) 0 0)) as [Hlt%glide_moved|]; [lia|].
    pose proof (glide_le (S (length a)) 0 0). lia.
  - intros Hs. set (s := furthest (S d) k - n) in *.
    pose proof (furthest_stuck d k ltac:(lia)) as Hx.
    destruct (start_from d k (furthest d) Hk) as [(_ & Hr & Heq)|(_ & Hr & Heq)]; rewrite Heq in Hx.
    + destruct (IH (k + 1) Hr) as [Hr' Hle]; [lia|].
      replace (k + 1 - 2 * (furthest d (k + 1) - n)) with (k - 2 * s + 1) in * by lia.
      assert (Hk' : on_round (S d) (k - 2 * s)) by (apply (on_round_up d (k - 2 * s + 1)); [done|lia]).
      split; [done|]. pose proof (furthest_down d _ Hk' Hr'). lia.
    + destruct (decide (s = 1)) as [Hs1|].
      * assert (Hk' : on_round (S d) (k - 2)) by (apply (on_round_up d (k - 1)); [done|lia]).
        pose proof (furthest_down d (k - 2) Hk') as Hf. replace (k - 2 + 1) with (k - 1) in Hf by lia.
        rewrite Hs1. split; [done|]. specialize (Hf Hr). replace (k - 2 * 1) with (k - 2) by lia. lia.
      * destruct (IH (k - 1) Hr) as [Hr' Hle]; [lia|].
        replace (k - 1 - 2 * (furthest d (k - 1) - n)) with (k - 2 * s + 1) in * by lia.
        assert (Hk' : on_round (S d) (k - 2 * s)) by (apply (on_round_up d (k - 2 * s + 1)); [done|lia]).
        split; [done|]. pose proof (furthest_down d _ Hk' Hr'). lia.
Qed.

Definition finished (d : nat) (k : Z) : Prop := n ≤ furthest d k ∧ m ≤ furthest d k - k.

(** The first round that reaches both ends reaches them exactly. *)
Lemma finish_exact d k :
  on_round d k → finished d k → (∀ d' k', (d' < d)%nat → on_round d' k' → ¬ finished d' k') →
  furthest d k = n ∧ k = n - m.
Proof.
  intros Hk [Hx Hy] Hno. destruct d as [|d].
  - destruct Hk as (i & Hi & ->). assert (i = 0) as -> by lia. change (2 * 0 - Z.of_nat 0) with 0 in *. simpl in *.
    destruct (decide (0 < glide (S (length a)) 0 0)) as [Hlt%glide_moved|]; [lia|].
    pose proof (glide_le (S (length a)) 0 0). lia.
  - rewrite furthest_S in *. set (x := starts _ _ _) in *.
    destruct (decide (x < glide (S (length a)) k x)) as [Hlt%glide_moved|Hge]; [lia|].
    pose proof (glide_le (S (length a)) k x). assert (Heq : glide (S (length a)) k x = x) by lia. rewrite Heq in *.
    destruct (start_from d k (furthest d) Hk) as [(_ & Hr & Hst)|(_ & Hr & Hst)]; fold x in Hst;
      pose proof (Hno d _ ltac:(lia) Hr) as Hn; unfold finished in Hn.
    + destruct (decide (n < furthest d (k + 1))) as [Hlt|]; [|lia].
      destruct (furthest_beyond d (k + 1) Hr) as [Hr' Hle]; [lia|].
      exfalso. apply (Hno d _ ltac:(lia) Hr'). unfold finished. lia.
    + destruct (decide (m < furthest d (k - 1) - (k - 1))) as [Hlt|]; [|lia].
      destruct (furthest_below d (k - 1) Hr) as [Hr' Hle]; [lia|].
      exfalso. apply (Hno d _ ltac:(lia) Hr'). unfold finished. lia.
Qed.

(** ** The array holds the furthest points *)

Lemma on_round_range d k : on_round d k → - Z.of_nat d ≤ k ≤ Z.of_nat d.
Proof. intros (i & ? & ?). lia. Qed.
Lemma on_round_parity d k : on_round d k → on_round (S d) k → False.
Proof. intros (i & ? & ?) (j & ? & ?). lia. Qed.

(** Reads that give the round's furthest points. *)
Definition agrees (d : nat) (at_ : Z → option Z) : Prop := ∀ k, on_round d k → at_ k = Some (furthest d k).

Lemma down_downs d k at_ :
  on_round (S d) k → agrees d at_ → down (Z.of_nat (S d)) k at_ = Some (downs (Z.of_nat (S d)) k (furthest d)).
Proof.
  intros (i & Hi & ->) Ha. unfold down, downs.
  destruct (Z.eqb_spec (2 * i - Z.of_nat (S d)) (- Z.of_nat (S d))); [done|].
  destruct (Z.eqb_spec (2 * i - Z.of_nat (S d)) (Z.of_nat (S d))); [done|].
  rewrite (Ha (2 * i - Z.of_nat (S d) - 1)) by (exists (i - 1); lia). simpl.
  by rewrite (Ha (2 * i - Z.of_nat (S d) + 1)) by (exists i; lia).
Qed.
Lemma start_starts d k at_ :
  on_round (S d) k → agrees d at_ → start_x (Z.of_nat (S d)) k at_ = Some (starts (Z.of_nat (S d)) k (furthest d)).
Proof.
  intros Hk Ha. unfold start_x, starts. rewrite (down_downs d k at_ Hk Ha). simpl.
  destruct (start_from d k (furthest d) Hk) as [(-> & Hr & _)|(-> & Hr & _)]; by rewrite (Ha _ Hr).
Qed.
(** The step of a round on its diagonal. *)
Lemma slide_furthest d k : on_round (S d) k →
  slide a b (S (length a)) k (starts (Z.of_nat (S d)) k (furthest d)) = Some (furthest (S d) k).
Proof.
  intros Hk. rewrite furthest_S.
  destruct (start_from d k (furthest d) Hk) as [(_ & Hr & Heq)|(_ & Hr & Heq)]; rewrite Heq;
    pose proof (furthest_nonneg d _ Hr); apply slide_glide; lia.
Qed.

(** The array: as long as made. *)
Definition sized (v : list Z) : Prop := Z.of_nat (length v) = 2 * off a b + 1.
Definition in_array (k : Z) : Prop := - off a b ≤ k ≤ off a b.
Lemma sized_write v k x : sized v → in_array k →
  ∃ w, write_at v (off a b + k) x = Some w ∧ sized w ∧ ∀ j, v_at a b w j = if decide (j = k) then Some x else v_at a b v j.
Proof.
  intros Hv Hk. destruct (write_in v (off a b + k) x) as (w & Hw & Hl & Hr); [unfold sized, in_array in *; lia|].
  exists w. split; [done|]. split; [unfold sized in *; lia|]. intros j. unfold v_at. rewrite Hr.
  by destruct (decide (off a b + j = off a b + k)), (decide (j = k)); try lia.
Qed.

Lemma round_furthest d l v :
  Z.of_nat (S d) ≤ n + m → sized v → agrees d (v_at a b v) → Forall (on_round (S d)) l →
  ∃ v' f, round a b (Z.of_nat (S d)) l v = Some (v', f) ∧ sized v' ∧
  (if f then ∃ k, on_round (S d) k ∧ finished (S d) k
   else (∀ k, k ∈ l → v_at a b v' k = Some (furthest (S d) k) ∧ ¬ finished (S d) k) ∧ ∀ k, k ∉ l → v_at a b v' k = v_at a b v k).
Proof.
  intros Hd. revert v. induction l as [|k l IH]; intros v Hs Hv Hl; cbn [round].
  { exists v, false. split_and!; [done..|by intros k ?%not_elem_of_nil|done]. }
  apply Forall_cons in Hl as [Hk Hl]. rewrite (start_starts d k _ Hk Hv). cbn [mbind option_bind].
  rewrite (slide_furthest d k Hk). cbn [mbind option_bind].
  pose proof (on_round_range _ _ Hk) as Hrange.
  destruct (sized_write v k (furthest (S d) k) Hs) as (w & -> & Hsw & Hw); [unfold in_array, off, n, m in *; lia|].
  cbn [mbind option_bind].
  destruct ((Z.of_nat (length a) <=? furthest (S d) k) && (Z.of_nat (length b) <=? furthest (S d) k - k)) eqn:Hfin.
  { exists w, true. split_and!; [done..|]. exists k. split; [done|].
    apply andb_true_iff in Hfin as [?%Z.leb_le ?%Z.leb_le]. by split. }
  destruct (IH w Hsw) as (v' & f & -> & Hs' & Hf); [|done|].
  { intros j Hj. rewrite Hw. case_decide; [subst; by destruct (on_round_parity d k)|by apply Hv]. }
  exists v', f. split_and!; [done..|]. destruct f; [done|]. destruct Hf as [Hin Hout]. split.
  - intros j [->|Hj]%elem_of_cons; [|by apply Hin]. destruct (decide (k ∈ l)); [by apply Hin|].
    split; [rewrite Hout, Hw by done; by rewrite decide_True|].
    intros [H1 H2]. apply andb_false_iff in Hfin as [?%Z.leb_gt|?%Z.leb_gt]; unfold n, m in *; lia.
  - intros j Hj. rewrite Hout, Hw by set_solver. rewrite decide_False; [done|set_solver].
Qed.

Lemma ks_on_round d k : k ∈ ks (Z.of_nat d) ↔ on_round d k.
Proof.
  unfold ks, on_round. rewrite list_elem_of_fmap. split.
  - intros (i & -> & Hi%elem_of_seqZ). exists i. lia.
  - intros (i & Hi & ->). exists i. split; [done|]. apply elem_of_seqZ. lia.
Qed.

(** The array as a round begins: the points of the round before, all zero before the first. *)
Definition begins (d : nat) (v : list Z) : Prop :=
  sized v ∧ match d with O => v_at a b v 1 = Some 0 | S d => agrees d (v_at a b v) end.
Definition unfinished (d : nat) : Prop := ∀ d' k, (d' < d)%nat → on_round d' k → ¬ finished d' k.

(** One round stays within the array, and has the next begin. *)
Lemma round_step d v :
  Z.of_nat d ≤ n + m → begins d v →
  ∃ v' f, round a b (Z.of_nat d) (ks (Z.of_nat d)) v = Some (v', f) ∧
    if f then ∃ k, on_round d k ∧ finished d k
    else begins (S d) v' ∧ ∀ k, on_round d k → ¬ finished d k.
Proof.
  intros Hd [Hs Hv]. destruct d as [|d].
  - change (ks (Z.of_nat 0)) with [0]. change (Z.of_nat 0) with 0. cbn [round].
    replace (start_x 0 0 (v_at a b v)) with (Some 0) by exact (eq_sym Hv).
    cbn [mbind option_bind]. rewrite slide_glide by lia. cbn [mbind option_bind].
    assert (Hon : ∀ k, on_round 0 k → k = 0) by (intros k (i & ? & ?); lia).
    assert (H00 : on_round 0 0) by (exists 0; lia).
    destruct (sized_write v 0 (furthest 0 0) Hs) as (w & Hw & Hsw & Hr); [unfold in_array, off, n, m in *; lia|].
    change (glide (S (length a)) 0 0) with (furthest 0 0).
    rewrite Hw. cbn [mbind option_bind].
    destruct ((Z.of_nat (length a) <=? furthest 0 0) && (Z.of_nat (length b) <=? furthest 0 0 - 0)) eqn:Hfin.
    + exists w, true. split; [done|]. apply andb_true_iff in Hfin as [?%Z.leb_le ?%Z.leb_le]. exists 0. by split.
    + exists w, false. split; [done|]. split.
      * split; [done|]. intros k ->%Hon. by rewrite Hr.
      * intros k ->%Hon [H1 H2]. apply andb_false_iff in Hfin as [?%Z.leb_gt|?%Z.leb_gt]; unfold n, m in *; lia.
  - destruct (round_furthest d (ks (Z.of_nat (S d))) v Hd Hs Hv) as (v' & f & -> & Hs' & Hf).
    { apply Forall_forall. intros k. apply ks_on_round. }
    exists v', f. split; [done|]. destruct f; [done|]. destruct Hf as [Hin _].
    split; [split; [done|]|]; intros k Hk%ks_on_round; by apply Hin.
Qed.

(** The trace's slices, the last round's first: each of its diagonals as its round began. *)
Fixpoint valid (rt : list (list Z)) : Prop :=
  match rt with
  | [] => True
  | s :: rest =>
      match length rest with O => True | S d => agrees d (λ k, read_at s (k + Z.of_nat (S d))) end ∧ valid rest
  end.
Lemma slice_begins d v :
  Z.of_nat d ≤ n + m → begins d v →
  ∃ s, slice_at v (off a b - Z.of_nat d) (off a b + Z.of_nat d + 1) = Some s ∧
    match d with O => True | S d => agrees d (λ k, read_at s (k + Z.of_nat (S d))) end.
Proof.
  intros Hd [Hs Hv]. unfold sized in Hs.
  destruct (slice_in v (off a b - Z.of_nat d) (off a b + Z.of_nat d + 1)) as (s & Hsl & Hr);
    [unfold off, n, m in *; lia|unfold off, n, m in *; lia|].
  exists s. split; [done|]. destruct d as [|d]; [done|]. intros k Hk. pose proof (on_round_range _ _ Hk).
  rewrite Hr by lia. rewrite <- (Hv k Hk). unfold v_at. f_equal. lia.
Qed.

Lemma search_valid rounds rt v :
  valid rt → begins (length rt) v → unfinished (length rt) → Z.of_nat (length rt) + Z.of_nat rounds ≤ n + m + 1 →
  search a b rounds (Z.of_nat (length rt)) v rt = Some None ∨
  ∃ rt' D, search a b rounds (Z.of_nat (length rt)) v rt = Some (Some rt')
    ∧ length rt' = S D ∧ valid rt' ∧ on_round D (n - m) ∧ furthest D (n - m) = n.
Proof.
  revert rt v. induction rounds as [|f IH]; intros rt v Hrt Hv Hun Hlen; cbn [search]; [by left|].
  destruct (slice_begins (length rt) v) as (s & -> & Hs); [lia|done|]. cbn [mbind option_bind].
  destruct (round_step (length rt) v) as (v' & fin & -> & Hf); [lia|done|]. cbn [mbind option_bind fst snd].
  assert (Hsrt : valid (s :: rt)) by (by split). destruct fin.
  - right. exists (s :: rt), (length rt). split_and!; [done..| |]; destruct Hf as (k & Hk & Hfin);
      (destruct (finish_exact (length rt) k Hk Hfin) as [Hx ->]; [|done]); intros d' k' Hlt; by apply Hun.
  - destruct Hf as [Hb Hno]. replace (Z.of_nat (length rt) + 1) with (Z.of_nat (length (s :: rt))) by (simpl; lia).
    apply IH; [done|done| |simpl length; lia]. intros d' k Hlt Hk. simpl in Hlt.
    destruct (decide (d' = length rt)) as [->|]; [by apply Hno|]. apply Hun; [lia|done].
Qed.
Lemma begins_first : begins 0 (replicate (Z.to_nat (2 * off a b + 1)) 0).
Proof.
  split; [unfold sized; rewrite length_replicate; unfold off; lia|]. unfold v_at, read_at.
  destruct (Z.ltb_spec (off a b + 1) 0); [unfold off in *; lia|]. apply lookup_replicate_2. unfold off. lia.
Qed.

(** ** The way back *)

Lemma take_line (l : list string) x t : 1 ≤ x → read_at l (x - 1) = Some t → take (Z.to_nat x) l = take (Z.to_nat (x - 1)) l ++ [t].
Proof.
  unfold read_at. intros Hx. destruct (Z.ltb_spec (x - 1) 0); [lia|]. intros Hl.
  replace (Z.to_nat x) with (S (Z.to_nat (x - 1))) by lia. by apply take_S_r.
Qed.
Lemma olds_app es es' : olds (es ++ es') = olds es ++ olds es'.
Proof. apply omap_app. Qed.
Lemma news_app es es' : news (es ++ es') = news es ++ news es'.
Proof. apply omap_app. Qed.

(** The edits from a point to the ends, for the texts' first [x] and [y] lines. *)
Definition leads (x y : Z) (es : list edit) : Prop :=
  take (Z.to_nat x) a ++ olds es = a ∧ take (Z.to_nat y) b ++ news es = b.

Lemma keep_leads fuel x y px py es :
  leads x y es → 0 ≤ px ≤ x → 0 ≤ py ≤ y → x - px < Z.of_nat fuel →
  (∀ i, Z.max px (py + (x - y)) ≤ i < x → alike i (i - (x - y)) = true) →
  ∃ x' es', keep a fuel x y px py es = Some (x', x' - (x - y), es') ∧ leads x' (x' - (x - y)) es'
    ∧ px ≤ x' ≤ x ∧ py ≤ x' - (x - y) ∧ (x' = px ∨ x' - (x - y) = py).
Proof.
  revert x y es. induction fuel as [|f IH]; intros x y es Hl Hpx Hpy Hf Hsame; simpl; [lia|].
  destruct (Z.ltb_spec px x), (Z.ltb_spec py y); simpl;
    try (exists x, es; replace (x - (x - y)) with y by lia; split; [done|]; split; [done|]; lia).
  destruct (alike_true (x - 1) (x - 1 - (x - y))) as (_ & _ & [t Ht] & Hy); [apply Hsame; lia|].
  rewrite Ht in Hy. replace (x - 1 - (x - y)) with (y - 1) in Hy by lia. rewrite Ht. simpl.
  destruct (IH (x - 1) (y - 1) (Edit Kept t :: es)) as (x' & es' & Hk & Hl' & ?); try lia.
  - destruct Hl as [Ha Hb]. split; simpl.
    + rewrite <- Ha at 2. rewrite (take_line a x t) by (lia || done). by rewrite <- app_assoc.
    + rewrite <- Hb at 2. rewrite (take_line b y t) by (lia || done). by rewrite <- app_assoc.
  - intros i Hi. replace (x - 1 - (y - 1)) with (x - y) in * by lia. apply Hsame. lia.
  - exists x', es'. replace (x - 1 - (y - 1)) with (x - y) in * by lia. split; [done|]. split; [done|]. lia.
Qed.

Lemma back_leads rt d k es :
  valid rt → length rt = S d → on_round d k → furthest d k ≤ n → furthest d k - k ≤ m →
  leads (furthest d k) (furthest d k - k) es →
  ∃ es', back a b rt (furthest d k) (furthest d k - k) es = Some es' ∧ leads 0 0 es'.
Proof.
  revert d k es. induction rt as [|prev rt IH]; [done|]. intros d k es [Hv Hrt] [= Hlen] Hk Hx Hy Hl.
  pose proof (furthest_nonneg d k Hk) as [H0x H0y]. destruct rt as [|v rt].
  - simpl in Hlen. subst d. destruct Hk as (i & ? & Hki). assert (k = 0) as -> by lia. cbn [back furthest] in *.
    set (x := glide (S (length a)) 0 0) in *.
    destruct (keep_leads (S (Z.to_nat x)) x (x - 0) 0 0 es) as (x' & es' & -> & Hl' & ?); try done; try lia.
    { intros j Hj. apply (glide_alike (S (length a)) _ 0). replace (x - (x - 0)) with 0 by lia. fold x. lia. }
    simpl. exists es'. split; [done|]. assert (x' = 0) as -> by lia.
    by replace (0 - (x - (x - 0))) with 0 in Hl' by lia.
  - destruct d as [|d]; [done|]. simpl length in Hv.
    assert (Hlen' : length (v :: rt) = S d) by done.
    set (tl := v :: rt) in *. cbn [back]. unfold tl at 1. fold tl. rewrite Hlen'.
    set (x := furthest (S d) k) in *. replace (x - (x - k)) with k by lia.
    replace (length rt) with d in Hv by (simpl in Hlen'; lia).
    rewrite (down_downs d k _ Hk Hv). cbn [mbind option_bind].
    assert (Hx' : x = glide (S (length a)) k (starts (Z.of_nat (S d)) k (furthest d))) by done.
    pose proof (glide_le (S (length a)) k (starts (Z.of_nat (S d)) k (furthest d))) as Hsl. rewrite <- Hx' in Hsl.
    destruct (start_from d k (furthest d) Hk) as [(-> & Hr & Hst)|(-> & Hr & Hst)]; cbv zeta;
      rewrite (Hv _ Hr); cbn [mbind option_bind]; pose proof (furthest_nonneg d _ Hr) as [Hp0 Hp1]; rewrite Hst in *.
    + set (px := furthest d (k + 1)) in *.
      destruct (keep_leads (S (Z.to_nat x)) x (x - k) px (px - (k + 1)) es) as (x' & es' & -> & Hl' & ?); try done; try lia.
      { intros j Hj. replace (x - (x - k)) with k in * by lia. apply (glide_alike (S (length a)) _ px). lia. }
      replace (x - (x - k)) with k in * by lia. assert (x' = px) as -> by lia. simpl. rewrite Z.eqb_refl.
      destruct (read_Some b (px - k - 1)) as [t Ht]; [lia|]. rewrite Ht. simpl.
      apply IH; try done; [lia|lia|]. destruct Hl' as [Ha Hb]. split; simpl; [done|].
      rewrite <- Hb at 2. rewrite (take_line b (px - k) t) by (lia || done).
      fold px. replace (px - (k + 1)) with (px - k - 1) by lia. by rewrite <- app_assoc.
    + set (px := furthest d (k - 1)) in *.
      destruct (keep_leads (S (Z.to_nat x)) x (x - k) px (px - (k - 1)) es) as (x' & es' & -> & Hl' & ?); try done; try lia.
      { intros j Hj. replace (x - (x - k)) with k in * by lia. apply (glide_alike (S (length a)) _ (px + 1)). lia. }
      replace (x - (x - k)) with k in * by lia. assert (x' = px + 1) as -> by lia. simpl.
      destruct (Z.eqb_spec (px + 1) px); [lia|].
      destruct (read_Some a (px + 1 - 1)) as [t Ht]; [lia|]. rewrite Ht. simpl.
      apply IH; try done; [lia|lia|]. destruct Hl' as [Ha Hb]. split; simpl.
      * rewrite <- Ha at 2. rewrite (take_line a (px + 1) t) by (lia || done).
        fold px. replace (px + 1 - 1) with px by lia. by rewrite <- app_assoc.
      * fold px. by replace (px - (k - 1)) with (px + 1 - k) by lia.
Qed.

(** Past the bound, one text is replaced by the other. *)
Lemma replaced_leads : let es := (Edit Removed <$> a) ++ (Edit Added <$> b) in olds es = a ∧ news es = b.
Proof.
  assert (H1 : ∀ l, olds (Edit Removed <$> l) = l ∧ news (Edit Removed <$> l) = [])
    by (intros l; unfold olds, news; split; induction l; csimpl; congruence).
  assert (H2 : ∀ l, olds (Edit Added <$> l) = [] ∧ news (Edit Added <$> l) = l)
    by (intros l; unfold olds, news; split; induction l; csimpl; congruence).
  cbv zeta. rewrite olds_app, news_app. destruct (H1 a) as [-> ->], (H2 b) as [-> ->]. by rewrite app_nil_r.
Qed.
Lemma edits_leads bound : ∃ es, edits a b bound = Some es ∧ olds es = a ∧ news es = b.
Proof.
  assert (Hun : unfinished (length ([] : list (list Z)))) by (intros d' k Hd; simpl in Hd; lia).
  destruct (search_valid (Z.to_nat (Z.min (n + m) bound + 1)) [] _ I begins_first Hun) as [Hs|(rt & D & Hs & Hlen & Hv & Hk & Hf)];
    [simpl; lia|..]; unfold edits; change (Z.of_nat (length [])) with 0 in Hs; fold n m; rewrite Hs; cbn [mbind option_bind].
  - eexists. split; [done|]. apply replaced_leads.
  - destruct (back_leads rt D (n - m) [] Hv Hlen Hk) as (es & He & Hl & Hr); rewrite ?Hf; try lia.
    { replace (n - (n - m)) with m by lia. unfold leads, n, m. rewrite !Nat2Z.id, !firstn_all. simpl.
      by rewrite !app_nil_r. }
    rewrite Hf in He. replace (n - (n - m)) with m in He by lia. by exists es.
Qed.

End Spec.

(** ** Unchanged texts *)

Lemma changed_nil es : changed es = [] → news es = olds es.
Proof.
  unfold changed. enough (∀ f : nat → nat, omap (λ ie : nat * edit, if bool_decide (ed_op ie.2 = Kept) then None else Some ie.1)
    (imap (λ i e, (f i, e)) es) = [] → news es = olds es) as H by apply (H id).
  unfold news, olds. induction es as [|[o l] es IH]; intros f; csimpl; [done|].
  destruct o; simpl; try done. intros H. f_equal. by eapply (IH (f ∘ S)).
Qed.

Lemma split_inj s s' : split s = split s' → s = s'.
Proof.
  enough (∀ s, foldr (λ l t, l +:+ t) "" (split s) = s) as H by (intros Heq; by rewrite <- (H s), <- (H s'), Heq).
  clear. induction s as [|c r IH]; simpl; [done|]. case_bool_decide; simpl; [by rewrite IH|].
  destruct (split r) as [|l ls]; simpl in *; by rewrite <- IH.
Qed.

(** Equal texts slide to the end in round 0. *)
Lemma glide_all l fuel x : 0 ≤ x ≤ Z.of_nat (length l) → Z.of_nat (length l) - x < Z.of_nat fuel →
  glide l l fuel 0 x = Z.of_nat (length l).
Proof.
  revert x. induction fuel as [|f IH]; intros x Hx Hf; [lia|]. rewrite glide_S, Z.sub_0_r. unfold alike.
  rewrite (bool_decide_true (read_at l x = _)), andb_true_r by done. case_bool_decide as Hr.
  - apply read_range in Hr. apply IH; lia.
  - destruct (decide (x = Z.of_nat (length l))) as [|Hne]; [done|]. destruct Hr. apply read_Some. lia.
Qed.

Lemma keep_kept a fuel x y px py es x' y' es' :
  keep a fuel x y px py es = Some (x', y', es') →
  Forall (λ e, ed_op e = Kept) es → Forall (λ e, ed_op e = Kept) es'.
Proof.
  revert x y es. induction fuel as [|f IH]; intros x y es; simpl; [done|].
  case_match; [|by intros [= <- <- <-]]. destruct (read_at a (x - 1)); simpl; [|done].
  intros H1 H2. eapply IH; [done|]. by constructor.
Qed.

Lemma kept_unchanged es : Forall (λ e, ed_op e = Kept) es → changed es = [].
Proof.
  unfold changed. enough (∀ f : nat → nat, Forall (λ e, ed_op e = Kept) es →
    omap (λ ie : nat * edit, if bool_decide (ed_op ie.2 = Kept) then None else Some ie.1)
      (imap (λ i e, (f i, e)) es) = []) as H by apply (H id).
  induction es as [|e es IH]; intros f; csimpl; [done|]. intros [-> Hes]%Forall_cons.
  rewrite bool_decide_true by done. by apply (IH (f ∘ S)).
Qed.

Lemma edits_same l bound : 0 ≤ bound → ∃ es, edits l l bound = Some es ∧ changed es = [].
Proof.
  intros Hb. destruct (edits_leads l l bound) as (es & He & _). exists es. split; [done|].
  revert He. unfold edits. replace (Z.to_nat _) with (S (Z.to_nat (Z.min (Z.of_nat (length l) + Z.of_nat (length l)) bound))) by lia.
  destruct (begins_first l l) as [Hsz Hz].
  destruct (slice_begins l l 0 _ ltac:(lia) (begins_first l l)) as (sl & Hsl & _).
  cbn [search]. change (Z.of_nat 0) with 0 in Hsl. rewrite Hsl. cbn [mbind option_bind]. change (ks 0) with [0]. cbn [round].
  replace (start_x 0 0 (v_at l l _)) with (Some 0) by exact (eq_sym Hz). cbn [mbind option_bind].
  rewrite slide_glide, glide_all by lia. cbn [mbind option_bind].
  destruct (sized_write l l _ 0 (Z.of_nat (length l)) Hsz) as (w & -> & _); [unfold in_array, off; lia|].
  rewrite Z.sub_0_r, !Z.leb_refl. simpl.
  unfold backtrack. cbn [back].
  match goal with |- context [keep ?a ?f ?x ?y ?p ?q ?e] => destruct (keep a f x y p q e) as [[[x' y'] es']|] eqn:Hk end; simpl; [|done].
  intros [= <-]. apply kept_unchanged. eapply keep_kept; [done|constructor].
Qed.

Lemma Unified_empty a b : Unified a b = Some "" ↔ a = b.
Proof.
  unfold Unified. split.
  - destruct (edits_leads (split a) (split b) maxEdits) as (es & -> & Ha & Hb). simpl. intros [= H].
    apply split_inj. rewrite <- Ha, <- Hb. symmetry. apply changed_nil. revert H.
    destruct (changed es) as [|i ch]; [done|]. simpl. by destruct (hunk_end i ch).
  - intros ->. destruct (edits_same (split b) maxEdits) as (es & -> & Hc); [done|]. simpl. by rewrite Hc.
Qed.

(** ** The hunks *)

(** The changes one hunk takes, and those left: the hunk's reach to the last it takes, each within twice
    the context of the one before, and the next is farther. *)
Lemma hunk_end_spec j rest j' rest' :
  hunk_end j rest = (j', rest') → StronglySorted lt (j :: rest) →
  ∃ taken, rest = taken ++ rest' ∧ (∀ x, x ∈ j :: taken → (x ≤ j')%nat) ∧ j' ∈ j :: taken
    ∧ (∀ x, x ∈ rest' → (j' + 2 * diff_context + 1 < x)%nat) ∧ StronglySorted lt rest'.
Proof.
  revert j. induction rest as [|x r IH]; intros j; cbn [hunk_end].
  - intros [= <- <-] _. exists []. split_and!; [done|by intros x ->%list_elem_of_singleton|by left|by intros x ?%elem_of_nil|constructor].
  - destruct (Nat.leb_spec (x - j - 1) (2 * diff_context)) as [Hle|Hgt].
    + intros H Hs. inversion Hs as [|? ? Hs' Hf]; subst. destruct (IH x H Hs') as (taken & -> & Hm & Hin & Hn & Hs'').
      exists (x :: taken). split_and!; [done| |by right|done|done].
      apply Forall_cons in Hf as [Hjx _].
      intros y [->|Hy]%elem_of_cons; [|by apply Hm]. assert (x ≤ j')%nat by (apply Hm; by left). lia.
    + intros [= <- <-] Hs. inversion Hs as [|? ? Hs' Hf]; subst. exists [].
      split_and!; [done|by intros y ->%list_elem_of_singleton|by left| |done].
      inversion Hs' as [|? ? _ Hfx]; subst. intros y [->|Hy]%elem_of_cons; [lia|].
      rewrite Forall_forall in Hfx. specialize (Hfx y Hy). lia.
Qed.

(** The hunks show every change, in order and apart, each with its context and no more. *)
Lemma ranges_spec fuel total ch :
  (length ch ≤ fuel)%nat → StronglySorted lt ch → Forall (λ x, x < total)%nat ch →
  (∀ x, x ∈ ch → ∃ r, r ∈ ranges fuel total ch ∧ (r.1 ≤ x < r.2)%nat)
  ∧ StronglySorted (λ r r', (r.2 < r'.1)%nat) (ranges fuel total ch)
  ∧ Forall (λ r, (r.1 < r.2 ≤ total)%nat ∧ (∃ x, x ∈ ch ∧ r.1 = (x - diff_context)%nat)
      ∧ (∃ x, x ∈ ch ∧ r.2 = Nat.min (x + diff_context + 1) total)) (ranges fuel total ch).
Proof.
  revert ch. induction fuel as [|f IH]; intros [|i rest] Hlen Hs Ht; simpl in *; try lia;
    try (split_and!; [by intros x ?%elem_of_nil|constructor|constructor]).
  destruct (hunk_end i rest) as [j rest'] eqn:He.
  destruct (hunk_end_spec i rest j rest' He Hs) as (taken & -> & Hm & Hin & Hn & Hs').
  apply Forall_cons in Ht as [Hi Ht]. apply Forall_app in Ht as [Htk Ht'].
  destruct (IH rest') as (Hc & Hst & Hf); [rewrite length_app in Hlen; lia|done|done|].
  assert (Hjt : (j < total)%nat).
  { apply elem_of_cons in Hin as [->|Hin]; [done|]. rewrite Forall_forall in Htk. by apply Htk. }
  assert (Hij : (i ≤ j)%nat) by (apply Hm; by left).
  assert (Hj : j ∈ i :: taken ++ rest') by (apply elem_of_cons in Hin as [->|]; [by left|right; apply elem_of_app; by left]).
  split_and!.
  - intros x [->|[Hx|Hx]%elem_of_app]%elem_of_cons.
    + eexists. split; [by left|]. simpl. lia.
    + eexists. split; [by left|]. simpl. assert (x ≤ j)%nat by (apply Hm; by right).
      rewrite Forall_forall in Htk. specialize (Htk x Hx). inversion Hs as [|? ? _ Hfi]; subst.
      rewrite Forall_forall in Hfi. assert (i < x)%nat by (apply Hfi, elem_of_app; by left). lia.
    + destruct (Hc x Hx) as (r & Hr & ?). exists r. split; [by right|done].
  - constructor; [done|]. rewrite Forall_forall in Hf. apply Forall_forall. intros r Hr. simpl.
    destruct (Hf r Hr) as (_ & (x & Hx & ->) & _). specialize (Hn x Hx). unfold diff_context in *. lia.
  - constructor.
    + simpl. split; [unfold diff_context; lia|]. split; [exists i; split; [by left|done]|].
      exists j. split; [done|]. lia.
    + eapply Forall_impl; [exact Hf|]. intros r (? & (x & Hx & ?) & y & Hy & ?). split; [done|].
      split; [exists x|exists y]; (split; [right; apply elem_of_app; by right|done]).
Qed.

Lemma changed_elem es x : x ∈ changed es ↔ ∃ e, es !! x = Some e ∧ ed_op e ≠ Kept.
Proof.
  unfold changed. rewrite list_elem_of_omap. split.
  - intros ([i e] & Hin & H). apply elem_of_lookup_imap in Hin as (i' & e' & [= -> ->] & He).
    simpl in H. case_bool_decide; [done|]. injection H as <-. by exists e'.
  - intros (e & He & Hop). exists (x, e). split; [apply elem_of_lookup_imap; by exists x, e|].
    simpl. by rewrite bool_decide_false.
Qed.
Lemma changed_sorted es : StronglySorted lt (changed es) ∧ Forall (λ x, x < length es)%nat (changed es).
Proof.
  split.
  - unfold changed. enough (∀ k, StronglySorted lt (omap (λ ie : nat * edit, if bool_decide (ed_op ie.2 = Kept) then None else Some ie.1)
      (imap (λ i e, (k + i, e)%nat) es)) ∧ ∀ x, x ∈ omap (λ ie : nat * edit, if bool_decide (ed_op ie.2 = Kept) then None else Some ie.1)
      (imap (λ i e, (k + i, e)%nat) es) → (k ≤ x)%nat) as H by apply (H 0%nat).
    induction es as [|e es IH]; intros k; [split; [constructor|by intros x ?%elem_of_nil]|].
    destruct (IH (S k)) as [Hs Hx]. cbn [imap]. csimpl.
    replace (imap ((λ i e0, ((k + i)%nat, e0)) ∘ S) es) with (imap (λ i e0, ((S k + i)%nat, e0)) es)
      by (apply imap_ext; intros; simpl; f_equal; lia).
    case_bool_decide; [split; [done|]; intros x Hin; specialize (Hx x Hin); lia|].
    split; [constructor; [done|]; apply Forall_forall; intros x Hin; specialize (Hx x Hin); lia|].
    intros x [->|Hin]%elem_of_cons; [lia|]. specialize (Hx x Hin). lia.
  - apply Forall_forall. intros x (e & He & _)%changed_elem. by eapply lookup_lt_Some.
Qed.

From S2P Require Import Ident IngestPath IngestSpec.

(** ** The diff *)

(** C39: the edit script ends for any two texts, at any bound on its length, with no read, write or
    slice out of range, of the texts, of the search's array of furthest points or of the trace, and is
    exact: its kept and removed lines are the first text, its kept and added lines the second. *)
Theorem edits_replay a b bound : ∃ es, edits a b bound = Some es ∧ olds es = a ∧ news es = b.
Proof. apply edits_leads. Qed.

(** The diff is empty exactly of equal texts. *)
Theorem unified_empty_iff a b : Unified a b = Some "" ↔ a = b.
Proof. apply Unified_empty. Qed.

(** The hunks show every changed line; they are in order and do not touch, and each begins the
    context before a change and ends the context after one, cut at the texts' ends. *)
Theorem hunks_show_changes es :
  let ch := changed es in let rs := ranges (length ch) (length es) ch in
  (∀ x e, es !! x = Some e → ed_op e ≠ Kept → ∃ r, r ∈ rs ∧ (r.1 ≤ x < r.2)%nat)
  ∧ StronglySorted (λ r r', (r.2 < r'.1)%nat) rs
  ∧ Forall (λ r, (r.1 < r.2 ≤ length es)%nat
      ∧ (∃ x e, es !! x = Some e ∧ ed_op e ≠ Kept ∧ r.1 = (x - diff_context)%nat)
      ∧ (∃ x e, es !! x = Some e ∧ ed_op e ≠ Kept ∧ r.2 = Nat.min (x + diff_context + 1) (length es))) rs.
Proof.
  intros ch rs. destruct (changed_sorted es) as [Hs Ht].
  destruct (ranges_spec (length ch) (length es) ch) as (Hc & Ho & Hf); [done..|]. split_and!.
  - intros x e He Hop. apply Hc, changed_elem. by exists e.
  - exact Ho.
  - eapply Forall_impl; [exact Hf|]. intros r (? & (x & (e & ? & ?)%changed_elem & ?) & (y & (f & ? & ?)%changed_elem & ?)).
    split_and!; [lia|lia|by exists x, e|by exists y, f].
Qed.

(** ** Identifiers *)

(** A text parses to a prefix exactly when it is an identifier made of that prefix and some 16 bytes:
    every identifier parses to its prefix, nothing else parses, and the encoding is unique. *)
Theorem parse_exact s p : Parse s = Some p ↔ ∃ b, is_bytes b ∧ New p b = Some s.
Proof. split; [apply Parse_only_New|]. intros (b & Hb & Hs). by eapply Parse_New_ok. Qed.

(** ** Paths *)

(** C40: a path's text and the path name each other: what parses to a path is exactly its text, and the
    paths that have one are those of a document in range, whose outer tokens hold no ["|"], and whose
    inner pointer is that of a YAML or JSON document below the outer one's top. *)
Theorem path_roundtrip s p :
  ParsePath s = Some p ↔ s = path_string p ∧
    (p_doc p ≤ maxDoc)%N ∧ Forall (λ t, ¬ has "|" t) (p_pointer p) ∧
    (p_format p = "" ∧ p_inner p = [] ∨ (p_format p = "yaml" ∨ p_format p = "json") ∧ p_pointer p ≠ []).
Proof.
  rewrite ParsePath_iff. split; [by intros [? []]|]. intros (? & ? & ? & ?). by repeat split.
Qed.

(** Every node an accepted stream's walk visits is the one its path resolves to, and a key's path
    resolves to the mapping that holds it; aliases are followed by the resolution, not by the walk. *)
Theorem walk_paths_resolve docs docs' n p key :
  parse docs = Some docs' → (n, p, key) ∈ walkStream docs' →
  if key : bool then ∃ tag m v, resolve docs' (p_doc p) (p_pointer p) = Some (Mapping tag m) ∧ (n, v) ∈ m
  else resolve docs' (p_doc p) (p_pointer p) = Some (deref n).
Proof. intros Hp Hx. destruct key; [by eapply stream_visit_key|by eapply stream_visit_resolves]. Qed.

(** Every path such a walk gives has a text that names it back, in a stream of no more documents
    than a path may number. *)
Theorem walk_paths_print docs docs' n p key :
  parse docs = Some docs' → (N.of_nat (length docs) ≤ maxDoc + 1)%N →
  (n, p, key) ∈ walkStream docs' → ParsePath (path_string p) = Some p.
Proof. apply stream_visit_parses. Qed.

(** The walk of an embedded document below a path of the outer stream keeps that path, gives inner
    pointers that resolve in the embedded document, and paths that print and parse back, whatever the
    embedded keys hold. *)
Theorem embedded_paths_resolve doc outer f n p :
  badKey doc = false → path_valid outer → p_pointer outer ≠ [] → f = "yaml" ∨ f = "json" →
  (n, p, false) ∈ walkEmbedded doc outer f →
  ParsePath (path_string p) = Some p ∧ p_doc p = p_doc outer ∧ p_pointer p = p_pointer outer ∧
  resolveIn doc (p_inner p) = Some (deref n).
Proof. apply embedded_visit_resolves. Qed.

(** A stream of one document: a mapping with an escaped key, a sequence, and an alias to a mapping. *)
Definition tx_inner : node := Mapping "!!map" [(Scalar "!!str" "a|b", Scalar "!!int" "1")].
Definition tx_doc : node :=
  Mapping "!!map" [(Scalar "!!str" "x/y~z", Sequence "!!seq" [Scalar "!!str" "v"; Alias (Scalar "!!str" "w")])].
Definition tx_path : Path := MkPath 0 ["x/y~z"; "1"] "" [].

Example tx_text : path_string tx_path = "doc[0]/x~1y~0z/1".
Proof. vm_compute. reflexivity. Qed.
Lemma tx_visit : (Alias (Scalar "!!str" "w"), tx_path, false) ∈ walkStream [tx_doc].
Proof. vm_compute. do 4 right. left. Qed.

Lemma walk_paths_resolve_witness : resolve [tx_doc] 0 ["x/y~z"; "1"] = Some (Scalar "!!str" "w").
Proof. exact (walk_paths_resolve [tx_doc] [tx_doc] _ tx_path false eq_refl tx_visit). Defined.
Lemma walk_paths_print_witness : ParsePath (path_string tx_path) = Some tx_path.
Proof.
  apply (walk_paths_print [tx_doc] [tx_doc] (Alias (Scalar "!!str" "w")) tx_path false).
  - vm_compute. reflexivity.
  - vm_compute. discriminate.
  - exact tx_visit.
Defined.
Lemma embedded_paths_resolve_witness : resolveIn tx_inner ["a|b"] = Some (Scalar "!!int" "1").
Proof.
  refine (proj2 (proj2 (proj2 (embedded_paths_resolve tx_inner (MkPath 0 ["f"] "" []) "yaml" (Scalar "!!int" "1")
    (MkPath 0 ["f"] "yaml" ["a|b"]) _ _ _ _ _)))).
  - vm_compute. reflexivity.
  - split; [by vm_compute|repeat constructor|by left]. rewrite has_cons. intros [?|?]; [discriminate|by eapply has_nil].
  - discriminate.
  - by left.
  - vm_compute. do 2 right. left.
Defined.
