(* ===== verification/Config.v ===== *)
(** * The deployment's configuration: what [internal/config/config.go] checks and defaults of its
    execution, ingestion, provider-key, token-file and denied-subject settings, and the Transit key
    names of [internal/provider/paths.go].  Durations are Go's, in nanoseconds. *)

From S2P Require Import Prelude Settle Ident.

Definition microsecond : Z := 1000.
Definition minute : Z := 60 * second.
Definition hour : Z := 3600 * second.

(** ** [Execution] *)

Definition minSettleFloor : Z := 30 * second.
Definition MaxPlanDuration : Z := 7 * 24 * hour.
Definition MaxPlanAttempts : Z := 10.

Record planDefaults := PlanDefaults {
  pd_expiry : Z; pd_age : Z; pd_check : Z; pd_transport : Z; pd_verification : Z; pd_attempts : Z }.
Record execution := Execution {
  ex_settle : Z; ex_max_transport : Z; ex_drift : Z; ex_defaults : planDefaults }.

(** A setting left out is its default. *)
Definition or_default (v d : Z) : Z := if v =? 0 then d else v.
Definition whole_seconds (v : Z) : bool :=
  negb ((v <? second) || (MaxPlanDuration <? v) || negb (Z.rem v second =? 0)).

(** [PlanDefaults.validate]: the defaults filled in, or why they are refused. *)
Definition defaults_filled (max_transport : Z) (p : planDefaults) : planDefaults :=
  PlanDefaults (or_default (pd_expiry p) (24 * hour)) (or_default (pd_age p) (5 * minute))
    (or_default (pd_check p) (5 * minute)) (or_default (pd_transport p) (Z.min minute max_transport))
    (or_default (pd_verification p) (10 * minute)) (or_default (pd_attempts p) 3).
Definition planDefaults_validate (max_transport : Z) (p : planDefaults) : result string planDefaults :=
  let p := defaults_filled max_transport p in
  match find (λ nv, negb (whole_seconds nv.2)) [("expiry", pd_expiry p); ("maxObservationAge", pd_age p);
          ("checkValidity", pd_check p); ("transportDeadline", pd_transport p);
          ("verificationDeadline", pd_verification p)] with
  | Some nv => Err ("config: execution.planDefaults." +:+ nv.1 +:+ " must be whole seconds from 1s to 168h0m0s")
  | None =>
      if (pd_attempts p <? 1) || (MaxPlanAttempts <? pd_attempts p)
      then Err "config: execution.planDefaults.maxAttempts must be from 1 to 10"
      else if (max_transport <? pd_transport p) || (pd_verification p <? pd_transport p)
      then Err "config: execution.planDefaults.transportDeadline must not exceed maxTransportDeadline or the verification deadline"
      else Ok p
  end.

(** [Execution.validate]. *)
Definition execution_validate (e : execution) : result string execution :=
  if negb (ex_settle e =? 0) && (ex_settle e <? minSettleFloor)
  then Err "config: execution.settleFloor must be at least 30s"
  else if (ex_max_transport e <? second) || negb (Z.rem (ex_max_transport e) second =? 0)
  then Err "config: execution.maxTransportDeadline is required, in whole seconds of at least 1s"
  else if negb (ex_drift e =? 0) && (ex_drift e <? second)
  then Err "config: execution.driftInterval must be at least 1s"
  else match planDefaults_validate (ex_max_transport e) (ex_defaults e) with
       | Err x => Err x
       | Ok p => Ok (Execution (or_default (ex_settle e) minSettleFloor) (ex_max_transport e)
                       (or_default (ex_drift e) (5 * minute)) p)
       end.

(** ** Names *)

Definition lower_digit (c : ascii) : bool := byte_in 97 122 c || byte_in 48 57 c.
Definition alnum (c : ascii) : bool := lower_digit c || byte_in 65 90 c.

(** A label: [ok]'s characters and inner hyphens, 1 to 63 of them. *)
Definition label (ok : ascii → bool) (s : string) : bool :=
  let cs := String.list_ascii_of_string s in
  match head cs, last cs with
  | Some a, Some z => ok a && ok z && forallb (λ c, ok c || byte_is 45 c) cs && (length cs <=? 63)%nat
  | _, _ => false
  end.

(** [instanceName] and [hostName], with [checkHosts]' bound. *)
Definition instanceName : string → bool := label lower_digit.
Fixpoint labels_from (cur : string) (s : string) : list string :=
  match s with
  | EmptyString => [cur]
  | String c r => if byte_is 46 c then cur :: labels_from "" r else labels_from (cur +:+ String c "") r
  end.
Definition hostName (s : string) : bool := forallb (label alnum) (labels_from "" s).
Definition checkHosts (hosts : list string) : bool :=
  forallb (λ h, (String.length h <=? 253)%nat && hostName h) hosts.

(** [keySegment]: a Transit key's name is one literal URL segment that leaves its reference room. *)
Definition maxKeyRef : Z := 256.
Definition maxKeyName : Z := maxKeyRef - Z.of_nat (String.length "transit/@v") - Z.of_nat (String.length "9223372036854775807").
Definition begins_control (s : string) : bool :=
  match s with
  | String c r => byte_in 0 31 c || byte_is 127 c
      || (byte_is 194 c && match r with String c2 _ => byte_in 128 159 c2 | EmptyString => false end)
  | EmptyString => false
  end.
Definition begins_refused (s : string) : bool :=
  match s with
  | String c _ => existsb (λ n, byte_is n c) [47; 35; 63; 37; 92]%nat
  | EmptyString => false
  end || bool_decide (is_Some (drop_space s)) || begins_control s.
Fixpoint none_begins (f : string → bool) (s : string) : bool :=
  negb (f s) && match s with String _ r => none_begins f r | EmptyString => true end.
Definition keySegment (key : string) : bool :=
  negb (bool_decide (key ∈ [""; "."; ".."])) && (Z.of_nat (String.length key) <=? maxKeyName)
  && none_begins begins_refused key.

(** ** [Ingestion.validate] *)

Record ingestion := IngestionConfig {
  ig_instance : string; ig_heartbeat : Z; ig_lease : Z; ig_expiry : Z; ig_sweep : Z }.
Definition ingestion_timers (i : ingestion) : list (string * Z) :=
  [("heartbeat", ig_heartbeat i); ("lease", ig_lease i); ("absoluteExpiry", ig_expiry i); ("sweep", ig_sweep i)].
Fixpoint timers_check (l : list (string * Z)) : option string :=
  match l with
  | [] => None
  | (field, v) :: l =>
      if v <=? 0 then Some ("config: ingestion." +:+ field +:+ " must be positive")
      else if negb (Z.rem v microsecond =? 0)
      then Some ("config: ingestion." +:+ field +:+ " must be a whole number of microseconds")
      else timers_check l
  end.
Definition ingestion_validate (i : ingestion) : option string :=
  if negb (instanceName (ig_instance i))
  then Some "config: ingestion.instance is required: 1 to 63 lower-case letters, digits and inner hyphens"
  else match timers_check (ingestion_timers i) with
       | Some e => Some e
       | None =>
           if ig_lease i <=? ig_heartbeat i then Some "config: ingestion.heartbeat must be shorter than ingestion.lease"
           else if ig_expiry i <=? ig_lease i then Some "config: ingestion.lease must be shorter than ingestion.absoluteExpiry"
           else None
       end.

(** ** [Provider.validate]: its keys and its token files *)

(** The first entry before this one with the same value. *)
Definition same_before (v : string) (seen : list (string * string)) : option string :=
  fst <$> find (λ o, bool_decide (o.2 = v)) seen.
Fixpoint keys_check (seen l : list (string * string)) : option string :=
  match l with
  | [] => None
  | (field, name) :: l =>
      if bool_decide (name = "") then Some ("config: provider.keys." +:+ field +:+ " is required")
      else if negb (keySegment name) then Some ("config: provider.keys." +:+ field +:+ ": not one URL segment")
      else match same_before name seen with
           | Some o => Some ("config: provider.keys." +:+ o +:+ " and provider.keys." +:+ field +:+
                             " name the same key; the four must be distinct")
           | None => keys_check (seen ++ [(field, name)]) l
           end
  end.
Record providerKeys := ProviderKeys { pk_baseline : string; pk_staging : string; pk_digest : string; pk_artifact : string }.
Definition key_fields (k : providerKeys) : list (string * string) :=
  [("baseline", pk_baseline k); ("staging", pk_staging k); ("digest", pk_digest k); ("artifact", pk_artifact k)].
Definition provider_keys_check (k : providerKeys) : option string := keys_check [] (key_fields k).

(** [filepath.Clean] of an absolute path: no empty or [.] element, and [..] takes the one before it. *)
Fixpoint elements_from (cur : string) (s : string) : list string :=
  match s with
  | EmptyString => [cur]
  | String c r => if byte_is 47 c then cur :: elements_from "" r else elements_from (cur +:+ String c "") r
  end.
Definition clean_step (out : list string) (e : string) : list string :=
  if bool_decide (e = "") || bool_decide (e = ".") then out
  else if bool_decide (e = "..") then tail out else e :: out.
Definition clean_abs (p : string) : string :=
  match rev (foldl clean_step [] (elements_from "" p)) with
  | [] => "/"
  | es => foldr (λ e s, "/" +:+ e +:+ s) "" es
  end.
Definition is_abs (p : string) : bool := String.prefix "/" p.

(** The token files: all but the report's required, each an absolute path in clean form, no two the same. *)
Fixpoint files_check (seen l : list (string * string)) : option string :=
  match l with
  | [] => None
  | (field, path) :: l =>
      if bool_decide (path = "") then
        if bool_decide (field = "reportTokenFile") then files_check (seen ++ [(field, path)]) l
        else Some ("config: provider." +:+ field +:+ " is required")
      else if negb (is_abs path) || negb (bool_decide (clean_abs path = path))
      then Some ("config: provider." +:+ field +:+ " must be an absolute path in clean form")
      else match same_before path seen with
           | Some o => Some ("config: provider." +:+ o +:+ " and provider." +:+ field +:+
                             " name the same file; each identity has its own token")
           | None => files_check (seen ++ [(field, path)]) l
           end
  end.
Record tokenFiles := TokenFiles {
  tf_ingestion : string; tf_compiler : string; tf_metadata : string; tf_executor : string; tf_report : string }.
Definition file_fields (f : tokenFiles) : list (string * string) :=
  [("ingestionTokenFile", tf_ingestion f); ("compilerTokenFile", tf_compiler f); ("metadataTokenFile", tf_metadata f);
   ("executorTokenFile", tf_executor f); ("reportTokenFile", tf_report f)].
Definition provider_files_check (f : tokenFiles) : option string := files_check [] (file_fields f).

(** ** [Auth.validate]'s denied subjects *)

Record deniedSubject := DeniedSubject { ds_iss : string; ds_sub : string; ds_identity : string; ds_name : string }.
Definition given (s : string) : bool := negb (bool_decide (s = "")).
Definition denied_check (d : deniedSubject) : option string :=
  let human := given (ds_iss d) || given (ds_sub d) in
  let service := given (ds_identity d) || given (ds_name d) in
  if human && service then Some " names both a human and a service identity"
  else if human && (negb (given (ds_iss d)) || negb (given (ds_sub d))) then Some ": a human needs both iss and sub"
  else if negb human && negb service then Some " is empty"
  else if service && (negb (given (ds_identity d)) || negb (given (ds_name d)))
  then Some ": a service identity needs both identity and name"
  else if service && negb (MustHave (ds_identity d) "idn") then Some ": not an identity's identifier"
  else None.

(** ** What passes *)

Lemma or_default_nonzero v d : d ≠ 0 → or_default v d ≠ 0.
Proof. unfold or_default. destruct (Z.eqb_spec v 0); lia. Qed.
Lemma whole_seconds_ok v : whole_seconds v = true ↔ second ≤ v ≤ MaxPlanDuration ∧ ∃ s, v = s * second ∧ 1 ≤ s ≤ 604800.
Proof.
  unfold whole_seconds, MaxPlanDuration, hour, second. rewrite negb_true_iff, !orb_false_iff, negb_false_iff, Z.eqb_eq.
  rewrite !Z.ltb_ge. split.
  - intros [[H1 H2] H3]. split; [lia|]. exists (Z.quot v 1000000000). pose proof (Z.quot_rem v 1000000000). lia.
  - intros [H (s & -> & Hs)]. split; [lia|]. apply Z.rem_mul. lia.
Qed.

(** What a validated configuration fixes of a plan's defaults. *)
Definition execution_ok (e : execution) : Prop :=
  let p := ex_defaults e in
  minSettleFloor ≤ ex_settle e ∧ second ≤ ex_drift e ∧ 1 ≤ pd_attempts p ≤ MaxPlanAttempts
  ∧ (∃ m, ex_max_transport e = m * second ∧ 1 ≤ m)
  ∧ Forall (λ v, ∃ s, v = s * second ∧ 1 ≤ s ≤ 604800)
      [pd_expiry p; pd_age p; pd_check p; pd_transport p; pd_verification p]
  ∧ pd_transport p ≤ ex_max_transport e ∧ pd_transport p ≤ pd_verification p.
Lemma find_none_all {A} (f : A → bool) l : find f l = None → Forall (λ x, f x = false) l.
Proof. induction l as [|x l IH]; simpl; [by constructor|]. destruct (f x) eqn:H; [done|]. constructor; auto. Qed.
Lemma planDefaults_ok m p p' :
  planDefaults_validate m p = Ok p' → p' = defaults_filled m p ∧ 1 ≤ pd_attempts p' ≤ MaxPlanAttempts
  ∧ Forall (λ v, ∃ s, v = s * second ∧ 1 ≤ s ≤ 604800)
      [pd_expiry p'; pd_age p'; pd_check p'; pd_transport p'; pd_verification p']
  ∧ pd_transport p' ≤ m ∧ pd_transport p' ≤ pd_verification p'.
Proof.
  unfold planDefaults_validate. destruct (find _ _) eqn:Hf; [done|]. apply find_none_all in Hf.
  destruct (_ || _) eqn:Ha; [done|]. destruct ((m <? _) || _) eqn:Ht; [done|]. intros [= <-].
  apply orb_false_iff in Ha as [Ha1%Z.ltb_ge Ha2%Z.ltb_ge]. apply orb_false_iff in Ht as [Ht1%Z.ltb_ge Ht2%Z.ltb_ge].
  split_and!; try done. rewrite !Forall_cons in Hf. rewrite !Forall_cons. simpl in *.
  setoid_rewrite negb_false_iff in Hf. setoid_rewrite whole_seconds_ok in Hf. naive_solver.
Qed.
Lemma execution_validate_ok e e' : execution_validate e = Ok e' → execution_ok e'.
Proof.
  unfold execution_validate. destruct (_ && _) eqn:Hs; [done|]. destruct (_ || _) eqn:Hm; [done|].
  destruct (negb (ex_drift e =? 0) && _) eqn:Hd; [done|]. destruct (planDefaults_validate _ _) as [p|] eqn:Hp; [|done].
  intros [= <-]. apply planDefaults_ok in Hp as (_ & Ha & Hf & Ht1 & Ht2). unfold execution_ok. simpl.
  apply orb_false_iff in Hm as [Hm1%Z.ltb_ge Hm2%negb_false_iff%Z.eqb_eq].
  unfold or_default, minSettleFloor, minute, second in *. split_and!; try done.
  - destruct (Z.eqb_spec (ex_settle e) 0); simpl in Hs; lia.
  - destruct (Z.eqb_spec (ex_drift e) 0); simpl in Hd; lia.
  - lia.
  - lia.
  - exists (Z.quot (ex_max_transport e) 1000000000). pose proof (Z.quot_rem (ex_max_transport e) 1000000000). lia.
Qed.

Lemma same_before_none v seen : same_before v seen = None → v ∉ seen.*2.
Proof.
  unfold same_before. intros H%fmap_None%find_none_all [[f x] [-> Hx]]%list_elem_of_fmap.
  rewrite Forall_forall in H. specialize (H _ Hx). simpl in H. by rewrite bool_decide_eq_true_2 in H.
Qed.
Lemma nodup_snoc {A} (l : list A) x : NoDup (l ++ [x]) ↔ NoDup l ∧ x ∉ l.
Proof. rewrite NoDup_app. split; [intros (? & H & _); split; [done|]|intros [H1 H2]; split_and!; [done| |apply NoDup_singleton]].
  - intros Hx. by eapply H, list_elem_of_singleton.
  - intros y Hy ->%list_elem_of_singleton. done.
Qed.
Lemma keys_check_ok seen l :
  keys_check seen l = None → NoDup seen.*2 →
  NoDup (seen ++ l).*2 ∧ Forall (λ k, keySegment k = true) l.*2.
Proof.
  revert seen. induction l as [|[f k] l IH]; simpl; intros seen H Hs; [by rewrite app_nil_r|].
  case_bool_decide; [done|]. destruct (keySegment k) eqn:Hk; [|done]. simpl in H.
  destruct (same_before k seen) eqn:Hn; [done|]. apply same_before_none in Hn.
  replace (seen ++ (f, k) :: l) with ((seen ++ [(f, k)]) ++ l) by by rewrite <- app_assoc.
  destruct (IH _ H) as [H1 H2]; [|split; [done|by constructor]].
  rewrite fmap_app. by apply nodup_snoc.
Qed.
(** The files given are in clean form and no two are one. *)
Definition file_ok (p : string) : Prop := is_abs p = true ∧ clean_abs p = p.
Lemma files_check_ok seen l :
  files_check seen l = None → NoDup (filter (λ p, p ≠ "") seen.*2) →
  NoDup (filter (λ p, p ≠ "") (seen ++ l).*2) ∧ Forall (λ fp, if decide (fp.2 = "") then fp.1 = "reportTokenFile" else file_ok fp.2) l.
Proof.
  revert seen. induction l as [|[f p] l IH]; simpl; intros seen H Hs; [by rewrite app_nil_r|].
  replace (seen ++ (f, p) :: l) with ((seen ++ [(f, p)]) ++ l) by by rewrite <- app_assoc.
  case_bool_decide as Hp; [case_bool_decide; [|done]|].
  - destruct (IH _ H) as [H1 H2]; [|split; [done|constructor; [by rewrite decide_True|done]]].
    rewrite fmap_app, filter_app. simpl. rewrite filter_cons_False, filter_nil, app_nil_r; [done|]. naive_solver.
  - destruct (is_abs p) eqn:Ha; [|done]. case_bool_decide; [|done]. simpl in H.
    destruct (same_before p seen) eqn:Hn; [done|]. apply same_before_none in Hn.
    destruct (IH _ H) as [H1 H2]; [|split; [done|constructor; [by rewrite decide_False|done]]].
    rewrite fmap_app, filter_app. simpl. rewrite filter_cons_True, filter_nil by done. apply nodup_snoc. split; [done|].
    by intros [_ Hx]%list_elem_of_filter.
Qed.
