(* ===== verification/Request.v ===== *)
(** * Mutating requests: one transaction per request and key ([internal/api/tx.go], [idempotency.go]
    and the checks of [api.go] before them).

    A route is a parameter of this file: its effect is a transaction body over the store, and
    [Governance] and [Recovery] give the effects themselves.  The network's behaviour is an
    argument too: for each attempt, whether its COMMIT was answered, refused, deadlocked or lost. *)

From Stdlib Require Import Decimal DecimalString DecimalN.
From S2P Require Import Prelude Store World.

(** ** Requests and routes *)

Inductive caller := Human | Service.
#[export] Instance caller_eq : EqDecision caller.
Proof. solve_decision. Defined.

(** One request as it passes the checks. *)
Record request := Request {
  q_id : string; q_principal : string; q_kind : caller; q_token_epoch : string; q_roles : list string;
  q_role : string; q_epoch : string; q_recovery : bool; q_key : string; q_expected : string;
  q_fingerprint : string; q_fp_key : string; q_act : string }.

Definition with_state_read (ep : string) (rec : bool) (q : request) : request :=
  Request (q_id q) (q_principal q) (q_kind q) (q_token_epoch q) (q_roles q) (q_role q) ep rec (q_key q)
    (q_expected q) (q_fingerprint q) (q_fp_key q) (q_act q).
Definition with_role (r : string) (q : request) : request :=
  Request (q_id q) (q_principal q) (q_kind q) (q_token_epoch q) (q_roles q) r (q_epoch q) (q_recovery q)
    (q_key q) (q_expected q) (q_fingerprint q) (q_fp_key q) (q_act q).
Definition with_act (i : string) (q : request) : request :=
  Request (q_id q) (q_principal q) (q_kind q) (q_token_epoch q) (q_roles q) (q_role q) (q_epoch q) (q_recovery q)
    (q_key q) (q_expected q) (q_fingerprint q) (q_fp_key q) i.
Definition with_headers (key expected : string) (q : request) : request :=
  Request (q_id q) (q_principal q) (q_kind q) (q_token_epoch q) (q_roles q) (q_role q) (q_epoch q) (q_recovery q)
    key expected (q_fingerprint q) (q_fp_key q) (q_act q).

(** What an effect commits and answers; [ef_write] is [atActOrder], which completes the body. *)
Record effect_result := EffectResult {
  ef_status : Z; ef_location : option string; ef_subjects : list string; ef_operation : option string;
  ef_write : request → Tx (request * doc) }.

(** One row of the route table: its qualifying roles, and its effect on a request. *)
Record route := Route {
  rt_pattern : string; rt_roles : list string; rt_human_only : bool; rt_if_match : bool;
  rt_normal_start_only : bool; rt_keyed : bool; rt_action : string;
  rt_effect : request → Tx (request * effect_result) }.

Definition entryPattern : string := "/recovery/entries".
Definition identityPattern : string := "/identity".

Definition refuse (status : Z) (code detail : string) (members : doc) : err := ERefused status code detail members.
Definition notCommitted : string := "nothing of the request's own transaction was committed".

(** ** Before the transaction *)

(** [authorize]: the first of the route's roles the credential has. *)
Definition authorize (rt : route) (q : request) : result err request :=
  if rt_human_only rt && negb (bool_decide (q_kind q = Human))
  then Err (refuse 403 "forbidden" "this route is for humans only" [("roles", JList (rt_roles rt)); ("humanOnly", JBool true)])
  else match find (λ r, bool_decide (r ∈ q_roles q)) (rt_roles rt) with
       | Some r => Ok (with_role r q)
       | None => Err (refuse 403 "forbidden" "no role of this credential qualifies" [("roles", JList (rt_roles rt))])
       end.

(** [staleToken]: a service's token is of one epoch. *)
Definition staleToken (q : request) : option err :=
  if bool_decide (q_kind q = Service) && negb (bool_decide (q_token_epoch q = q_epoch q))
  then Some (refuse 401 "unauthenticated" "" []) else None.

(** [keyShape]: 16 to 128 characters of [A-Za-z0-9_-]. *)
Definition key_char (c : ascii) : bool :=
  let n := N_of_ascii c in
  ((65 <=? n) && (n <=? 90))%N || ((97 <=? n) && (n <=? 122))%N || ((48 <=? n) && (n <=? 57))%N
  || (n =? 95)%N || (n =? 45)%N.
Definition keyShape (k : string) : bool :=
  (16 <=? Z.of_nat (String.length k)) && (Z.of_nat (String.length k) <=? 128)
  && forallb key_char (String.list_ascii_of_string k).

(** The three headers, every value of each; no modelled effect reads If-Match's. *)
Record headers := Headers { h_key : list string; h_if_match : list string; h_expected : list string }.

Definition preconditions (rt : route) (h : headers) (q : request) : result err request :=
  let invalid d := Err (refuse 400 "invalid-request" d []) in
  match h_key h with
  | [] | [""] => Err (refuse 428 "idempotency-key-required" "" [])
  | [k] =>
      if negb (keyShape k) then invalid "Idempotency-Key must be one header of 16 to 128 characters of [A-Za-z0-9_-]"
      else match rt_if_match rt, h_if_match h with
           | true, ([] | [""]) => Err (refuse 428 "precondition-required" "" [])
           | true, (_ :: _ :: _) => invalid "If-Match must be one header"
           | _, _ =>
               match h_expected h with
               | [] => Ok (with_headers k (q_expected q) q)
               | [""] => invalid "Bronzeward-Expected-Epoch must name an epoch"
               | [e] => Ok (with_headers k e q)
               | _ => invalid "Bronzeward-Expected-Epoch must be one header"
               end
           end
  | _ => invalid "Idempotency-Key must be one header of 16 to 128 characters of [A-Za-z0-9_-]"
  end.

(** The process as the gate before a route sees it: whether it was started for recovery, whether its
    entry has not committed yet, and the epoch that entry minted ("" for none). *)
Record server := Server { sv_recovery_start : bool; sv_pre_entry : bool; sv_minted : string }.

(** [handle]'s checks before a mutating route runs. *)
Definition gate (sv : server) (rt : route) (h : headers) (q : request) : result err request :=
  let refusal := match authorize rt q with
    | Err e => if bool_decide (rt_pattern rt = identityPattern) then None else Some e
    | Ok _ => None end in
  let q := match authorize rt q with Ok q => q | Err _ => q end in
  match refusal with
  | Some e => Err e
  | None =>
      if sv_pre_entry sv && negb (bool_decide (rt_pattern rt = entryPattern))
      then Err (refuse 409 "recovery-mode-active" "this process started with the recovery-start flag serves only the recovery entry until it commits" [])
      else if sv_recovery_start sv && rt_normal_start_only rt
      then Err (refuse 409 "recovery-mode-active" "this process started with the recovery-start flag; restart it without the flag for this act" [])
      else if bool_decide (rt_pattern rt = entryPattern) && negb (sv_recovery_start sv)
      then Err (refuse 409 "conflict" "only a process started with the recovery-start flag serves the recovery entry" [])
      else preconditions rt h q
  end.

(** ** The idempotency record *)

(** [lookup]: the key's record with the installation state, the token rechecked against it, and with
    no record the epoch the request expects. *)
Definition lookup_record (q : request) : Tx (request * option record_row) :=
  ep ← gets epoch; rec ← gets recovery;
  r ← gets (λ d, records (book d) !! (q_principal q, q_key q));
  let q := with_state_read ep rec q in
  reject (staleToken q);;
  failIf (bool_decide (r = None) && negb (bool_decide (q_expected q = "")) && negb (bool_decide (q_expected q = ep)))
    (refuse 412 "epoch-mismatch" ("the expected epoch is not the current one; " +:+ notCommitted) [("epoch", JStr ep)]);;
  mret (q, r).

(** [recordedVersion]: the version N of "transit/<key>@v<N>", in canonical decimal. *)
Fixpoint cut_last_at (s : string) : option (string * string) :=
  match s with
  | EmptyString => None
  | String c r =>
      match cut_last_at r with
      | Some (b, n) => Some (String c b, n)
      | None => if String.prefix "@v" s then Some ("", String.substring 2 (String.length s) s) else None
      end
  end.
Definition itoa (v : N) : string := NilZero.string_of_uint (N.to_uint v).
Definition atoi (s : string) : option N := N.of_uint <$> NilEmpty.uint_of_string s.
Definition recordedVersion (recorded current : string) : option Z :=
  '(rb, n) ← cut_last_at recorded; '(cb, _) ← cut_last_at current;
  if negb (bool_decide (rb = cb)) || negb (String.prefix "transit/" recorded) then None else
  v ← atoi n;
  if bool_decide (1 ≤ v)%N && bool_decide (Z.of_N v ≤ max64) && bool_decide (itoa v = n)
  then Some (Z.of_N v) else None.

(** [Digest.KeyRef]. *)
Definition KeyRef (key : string) (v : N) : string := "transit/" +:+ key +:+ "@v" +:+ itoa v.

(** The provider's answer to a keyed digest under a version: the sum and its key, or why not. *)
Inductive digest_answer := Digested (sum key : string) | DigestRefused (e : err).
Definition code_of (e : err) : string := match e with ERefused _ c _ _ => c | _ => "" end.

Section Requests.
Variable others : nat → Db → Db.
Variable fresh_id : nat → string.
(** [keyedFingerprint] of a request under a recorded version. *)
Variable keyed_digest : request → Z → digest_answer.
Variable sv : server.
Variable rt : route.

(** [same]: the record is this request's. *)
Definition same (q : request) (r : record_row) : option err :=
  let reused := Some (refuse 422 "idempotency-key-reused" "the key was used for another request"
                  [("request", JStr (rec_request r))]) in
  if bool_decide (rec_fp_key r = q_fp_key q)
  then if bool_decide (rec_fingerprint r = q_fingerprint q) then None else reused
  else match recordedVersion (rec_fp_key r) (q_fp_key q) with
       | Some v =>
           if negb (rt_keyed rt) then reused else
           match keyed_digest q v with
           | DigestRefused e => if bool_decide (code_of e = "dependency-unavailable") then Some e else reused
           | Digested sum key =>
               if bool_decide (key = rec_fp_key r) && bool_decide (sum = rec_fingerprint r) then None else reused
           end
       | None => reused
       end.

(** [entryReplay]: a recovery start replays only its own entry. *)
Definition entryReplay (r : record_row) : option err :=
  if negb (bool_decide (rt_pattern rt = entryPattern)) then None
  else if negb (bool_decide (rec_epoch r = sv_minted sv))
  then Some (refuse 409 "conflict" "the key's record is not this process's entry; retry under a new key"
    [("request", JStr (rec_request r)); ("epoch", JStr (rec_epoch r))])
  else None.

(** What the client gets: a stored response, marked replayed or not, or a problem. *)
Inductive reply :=
| Stored (status : Z) (location : option string) (body : doc) (replayed : bool)
| Problem (status : Z) (code detail : string) (members : doc).
Definition problem_of (e : err) : reply :=
  match e with
  | ERefused s c t m => Problem s c t m
  | ENotController => Problem 503 "epoch-superseded"
      ("this server started before the current recovery epoch and may issue no ownership; " +:+ notCommitted) []
  | _ => Problem 500 "internal-error" notCommitted []
  end.

(** [answer]: an earlier epoch's record, another request's, or the stored response. *)
Definition answer (q : request) (r : record_row) (replayed : bool) : reply :=
  match entryReplay r with
  | Some e => problem_of e
  | None =>
      if negb (bool_decide (rec_epoch r = q_epoch q))
      then Problem 409 "conflict" "the key's record is from an earlier recovery epoch; retry under a new key"
             [("request", JStr (rec_request r)); ("epoch", JStr (rec_epoch r))]
      else match same q r with
           | Some e => problem_of e
           | None => Stored (rec_status r) (rec_location r) (rec_body r) replayed
           end
  end.

(** ** The transaction *)

(** The writes after the effect: the act, and the key's record. *)
Definition insert_act (q : request) (subjects : list string) : Tx unit :=
  dup ← gets (λ d, bool_decide (q_act q ∈ act_id <$> acts (book d)));
  failIf dup (EDuplicate "act");;
  modify (λ d, set_book (Ledger (acts (book d) ++
    [ActRow (q_act q) (q_principal q) (q_role q) (rt_action rt) subjects (q_key q) (q_id q) (q_epoch q)])
    (records (book d))) d).
Definition insert_record (q : request) (row : record_row) : Tx unit :=
  dup ← gets (λ d, bool_decide (is_Some (records (book d) !! (q_principal q, q_key q))));
  failIf dup (EDuplicate "idempotency_record");;
  modify (λ d, set_book (Ledger (acts (book d)) (<[(q_principal q, q_key q) := row]> (records (book d)))) d).

(** [attempt]'s transaction: the record under the key's lock, or else the effect, its act and its
    record; whether the record is this attempt's own. *)
Definition attempt_tx (q : request) (act : string) : Tx (request * record_row * bool) :=
  qr ← lookup_record q;
  match qr.2 with
  | Some r => mret (qr.1, r, false)
  | None =>
      qe ← rt_effect rt (with_act act qr.1);
      qb ← ef_write qe.2 qe.1;
      insert_act qb.1 (ef_subjects qe.2);;
      let row := RecordRow (q_fingerprint qb.1) (q_fp_key qb.1) (q_id qb.1) (q_epoch qb.1) (ef_status qe.2)
                   (ef_location qe.2) qb.2 (ef_operation qe.2) in
      insert_record qb.1 row;;
      mret (qb.1, row, true)
  end.

(** What becomes of one attempt: its COMMIT is answered; a deadlock or another definitive answer
    rolled it back; its connection was lost before COMMIT; or COMMIT's reply was lost, the
    transaction committed or not, and the read back then answered or failed. *)
Inductive fate := Delivered | Deadlocked | Aborted | Dropped | ReplyLost (committed readable : bool).

(** Why a run answers no record. *)
Inductive failure := FTx (e : err) | FDeadlock | FTransient | FUnavailable | FUnknown | FAborted.
#[export] Instance failure_eq : EqDecision failure.
Proof. solve_decision. Defined.

Record net := Net { n_db : Db; n_turn : nat; n_fresh : nat; n_fates : list fate }.
Notation Serve := (P net failure).

Definition rows_of_request (q : request) (d : Db) : bool :=
  match records (book d) !! (q_principal q, q_key q) with
  | Some r => bool_decide (rec_request r = q_id q) | None => false end.

(** One attempt with its COMMIT, [resolveCommit] included. *)
Definition attempt_once (q : request) : Serve (request * record_row * bool) := λ w,
  let d := others (n_turn w) (n_db w) in
  let f := default Delivered (head (n_fates w)) in
  let w' d := Net d (S (n_turn w)) (S (n_fresh w)) (tail (n_fates w)) in
  match f, attempt_tx q (fresh_id (n_fresh w)) d with
  | Deadlocked, _ => (Err FDeadlock, w' d)
  | Dropped, _ => (Err FUnavailable, w' d)
  | _, Err e => (Err (FTx e), w' d)
  | _, Ok (q', r, false, _) => (Ok (q', r, false), w' d)
  | Delivered, Ok (q', r, true, d') => (Ok (q', r, true), w' d')
  | Aborted, Ok (_, _, true, _) => (Err FAborted, w' d)
  | ReplyLost c readable, Ok (q', r, true, d') =>
      let d2 := others (S (n_turn w)) (if c then d' else d) in
      let w2 := Net d2 (S (S (n_turn w))) (S (n_fresh w)) (tail (n_fates w)) in
      if negb readable then (Err FUnknown, w2)
      else if rows_of_request q d2 then (Ok (q', r, true), w2) else (Err FUnavailable, w2)
  end.

Definition maxAttempts : nat := 4.

(** [run]: the attempt, retried whole after a deadlock; [n] is the tries left. *)
Fixpoint run_from (n : nat) (q : request) : Serve (request * record_row * bool) := λ w,
  match attempt_once q w with
  | (Err FDeadlock, w') => match n with O => (Err FTransient, w') | S n => run_from n q w' end
  | r => r
  end.
Definition run : request → Serve (request * record_row * bool) := run_from (pred maxAttempts).

(** A read in a turn of its own. *)
Definition ask_tx {A} (m : Tx A) : Serve A := λ w,
  let d := others (n_turn w) (n_db w) in
  let w' := Net d (S (n_turn w)) (n_fresh w) (n_fates w) in
  match m d with Ok (x, _) => (Ok x, w') | Err e => (Err (FTx e), w') end.

(** [fail]'s answers. *)
Definition fail_reply (f : failure) : reply :=
  match f with
  | FTx e => problem_of e
  | FTransient | FDeadlock =>
      Problem 503 "transient-conflict" ("the request deadlocked on every attempt; " +:+ notCommitted) []
  | FUnknown => Problem 500 "internal-error"
      "the outcome is unknown; retrying with the same Idempotency-Key answers it" []
  | FUnavailable => Problem 503 "dependency-unavailable" ("the database failed; " +:+ notCommitted) []
  | FAborted => Problem 500 "internal-error" notCommitted []
  end.

(** [mutate] after the checks that need no transaction: the lookup (again under the key's lock when
    it refuses the epoch), then the run. *)
Definition lookup_twice (q : request) : Serve (request * option record_row) := λ w,
  match ask_tx (lookup_record q) w with
  | (Err (FTx e), w') => if bool_decide (code_of e = "epoch-mismatch") then ask_tx (lookup_record q) w' else (Err (FTx e), w')
  | r => r
  end.
Definition mutate (q : request) (w : net) : reply * net :=
  match lookup_twice q w with
  | (Err f, w1) => (fail_reply f, w1)
  | (Ok (q1, Some r), w1) => (answer q1 r true, w1)
  | (Ok (q1, None), w1) =>
      match run q1 w1 with
      | (Ok (q2, r, fresh), w2) => (answer q2 r (negb fresh), w2)
      | (Err f, w2) => (fail_reply f, w2)
      end
  end.
End Requests.
