(* ===== verification/RequestSpec.v ===== *)
(** * What a mutating request promises: its transaction takes effect at most once per principal and
    key, its answer says whether it did, and every answer of a key is the same. *)

From Stdlib Require Import Decimal DecimalString DecimalN.
From S2P Require Import Prelude Store World Request.

(** ** The contract of a route's effect *)

(** What every effect keeps of its request: who sent it, under which key, as which act. *)
Definition same_caller (q q' : request) : Prop :=
  q_principal q' = q_principal q ∧ q_key q' = q_key q ∧ q_id q' = q_id q ∧ q_act q' = q_act q
  ∧ q_fingerprint q' = q_fingerprint q ∧ q_fp_key q' = q_fp_key q ∧ q_kind q' = q_kind q.
#[export] Instance same_caller_preorder : PreOrder same_caller.
Proof.
  split; [by intros q; split_and!|]. intros x y z Hxy Hyz. unfold same_caller in *. intuition congruence.
Qed.

(** An effect leaves the acts and the idempotency records to the request, and keeps its caller. *)
Class Conforming (rt : route) : Prop := {
  conf_effect : ∀ q d q' res d', rt_effect rt q d = Ok ((q', res), d') → book d' = book d ∧ same_caller q q';
  conf_write : ∀ q d q' res d1 q1 d2 q2 body d3, rt_effect rt q d = Ok ((q', res), d1) →
    ef_write res q1 d2 = Ok ((q2, body), d3) → book d3 = book d2 ∧ same_caller q1 q2 }.

(** ** The transaction *)

Definition key_of (q : request) : string * string := (q_principal q, q_key q).

Section Lookup.
Lemma lookup_record_ok q d q' r d' :
  lookup_record q d = Ok ((q', r), d') →
  d' = d ∧ q' = with_state_read (epoch d) (recovery d) q ∧ r = records (book d) !! key_of q
  ∧ staleToken q' = None ∧ (r = None → q_expected q = "" ∨ q_expected q = epoch d).
Proof.
  unfold lookup_record. intros H. m_inv. simplify_eq. split_and!; try done. intros Hr.
  destruct (decide (q_expected q = "")), (decide (q_expected q = epoch d)); auto.
  rewrite Hr in *. simpl in *. by rewrite !bool_decide_eq_false_2 in * by done.
Qed.
End Lookup.

(** ** A key reference names its version *)

Definition no_at (s : string) : Prop := Forall (λ c, c ≠ "@"%char) (String.list_ascii_of_string s).
Lemma uint_no_at d : no_at (NilEmpty.string_of_uint d).
Proof. unfold no_at. induction d; simpl; [constructor|constructor; [done|exact IHd]..]. Qed.
Lemma itoa_no_at v : no_at (itoa v).
Proof.
  unfold itoa, NilZero.string_of_uint. destruct (N.to_uint v) eqn:Hv; try (rewrite <- Hv; apply uint_no_at).
  by repeat constructor.
Qed.
Lemma cut_none s : no_at s → cut_last_at s = None.
Proof.
  induction s as [|c s IH]; [done|]. intros [Hc Hs]%Forall_cons. cbn [cut_last_at]. rewrite IH by done.
  cbn [String.prefix]. by destruct (ascii_dec "@" c) as [<-|].
Qed.
Lemma substring_long n s : (String.length s ≤ n)%nat → String.substring 0 n s = s.
Proof.
  revert n. induction s as [|c s IH]; intros [|n]; simpl; try done; try lia. intros H. by rewrite IH by lia.
Qed.
Lemma cut_ref b n : no_at n → cut_last_at (b +:+ "@v" +:+ n) = Some (b, n).
Proof.
  intros Hn. induction b as [|c b IH].
  - assert (Hv : cut_last_at (String "v" n) = None) by by apply cut_none; constructor.
    change ("" +:+ "@v" +:+ n) with (String "@" (String "v" n)). cbn [cut_last_at]. cbn [cut_last_at] in Hv. rewrite Hv.
    simpl. destruct n as [|c n]; simpl; [done|]. by rewrite substring_long by lia.
  - change (String c b +:+ "@v" +:+ n) with (String c (b +:+ "@v" +:+ n)). cbn [cut_last_at]. by rewrite IH.
Qed.
Lemma uint_empty d : NilEmpty.uint_of_string (NilEmpty.string_of_uint d) = Some d.
Proof. apply NilEmpty.usu. Qed.
Lemma atoi_itoa v : (v ≠ 0)%N → atoi (itoa v) = Some v.
Proof.
  intros Hv. unfold atoi, itoa, NilZero.string_of_uint. destruct (N.to_uint v) eqn:Hd;
    try (rewrite <- Hd, uint_empty; simpl; f_equal; apply DecimalN.Unsigned.of_to).
  by apply (f_equal N.of_uint) in Hd; rewrite DecimalN.Unsigned.of_to in Hd.
Qed.
Lemma cut_key_ref key v : cut_last_at (KeyRef key v) = Some ("transit/" +:+ key, itoa v).
Proof. exact (cut_ref ("transit/" +:+ key) (itoa v) (itoa_no_at v)). Qed.
Lemma recordedVersion_ref key v w :
  (1 ≤ v)%N → Z.of_N v ≤ max64 → recordedVersion (KeyRef key v) (KeyRef key w) = Some (Z.of_N v).
Proof.
  intros H1 H2. unfold recordedVersion.
  assert (Hc : ∀ x, cut_last_at (KeyRef key x) = Some ("transit/" +:+ key, itoa x)) by (intros x; apply cut_key_ref).
  rewrite !Hc. simpl. rewrite bool_decide_eq_true_2 by done. simpl.
  rewrite atoi_itoa by lia. cbn [mbind option_bind String.prefix negb].
  by destruct key; rewrite !bool_decide_eq_true_2 by (done || lia).
Qed.
Lemma cut_last_sound s b n : cut_last_at s = Some (b, n) → s = b +:+ "@v" +:+ n.
Proof.
  revert b n. induction s as [|c s IH]; intros b n; [done|]. cbn [cut_last_at].
  destruct (cut_last_at s) as [[b' n']|].
  - intros [= <- <-]. by rewrite (IH b' n' eq_refl).
  - destruct (String.prefix "@v" (String c s)) eqn:Hp; [|done]. intros [= <- <-].
    cbn [String.prefix] in Hp. destruct (ascii_dec "@" c) as [<-|]; [|done]. destruct s as [|c' s]; [by cbn in Hp|].
    cbn [String.prefix] in Hp. destruct (ascii_dec "v" c') as [<-|]; [|done]. simpl. by rewrite (substring_long _) by lia.
Qed.
(** Another key's reference, or one that is none, names no version. *)
Lemma recordedVersion_only key v r z :
  recordedVersion r (KeyRef key v) = Some z → ∃ w, r = KeyRef key w ∧ z = Z.of_N w ∧ 1 ≤ z ≤ max64.
Proof.
  unfold recordedVersion.
  rewrite cut_key_ref. intros ([b n] & Hr & H)%bind_Some. simpl in H. case_bool_decide as Hb; [|done].
  apply cut_last_sound in Hr as ->. subst b. destruct (String.prefix _ _); [|done]. simpl in H.
  apply bind_Some in H as (w & Hw & H). destruct (_ && _) eqn:Hx; [|done]. injection H as <-.
  apply andb_true_iff in Hx as [[H1%bool_decide_eq_true H2%bool_decide_eq_true]%andb_true_iff H3%bool_decide_eq_true].
  exists w. unfold KeyRef. rewrite H3. split; [done|]. split; [done|lia].
Qed.

Section Requests.
Variable others : nat → Db → Db.
Variable fresh_id : nat → string.
Variable keyed_digest : request → Z → digest_answer.
Variable sv : server.
Variable rt : route.

Lemma attempt_tx_state q ep rec act : attempt_tx rt (with_state_read ep rec q) act = attempt_tx rt q act.
Proof. done. Qed.

(** A fresh attempt: the effect, the act and the record; a found one changes nothing. *)
Lemma attempt_found q act d q' r d' :
  attempt_tx rt q act d = Ok ((q', r, false), d') →
  d' = d ∧ records (book d) !! key_of q = Some r ∧ q' = with_state_read (epoch d) (recovery d) q.
Proof.
  unfold attempt_tx. intros H. m_inv. destruct a as [q1 [r1|]]; simpl in *; m_inv; simplify_eq.
  by apply lookup_record_ok in H0 as (-> & -> & Hr & _).
Qed.

Lemma insert_act_ok q subjects d u d' :
  insert_act rt q subjects d = Ok (u, d') →
  q_act q ∉ act_id <$> acts (book d) ∧ book d' = Ledger (acts (book d) ++
    [ActRow (q_act q) (q_principal q) (q_role q) (rt_action rt) subjects (q_key q) (q_id q) (q_epoch q)])
    (records (book d)).
Proof. unfold insert_act. intros H. m_inv. by rewrite bool_decide_eq_false in *. Qed.
Lemma insert_record_ok q row d u d' :
  insert_record q row d = Ok (u, d') →
  records (book d) !! key_of q = None
  ∧ book d' = Ledger (acts (book d)) (<[key_of q := row]> (records (book d))).
Proof.
  unfold insert_record. intros H. m_inv. rewrite bool_decide_eq_false in *. split; [|done].
  by apply eq_None_not_Some.
Qed.

(** A fresh attempt's parts: the effect on the request with the state read, its write, and the ledger. *)
Lemma attempt_parts q act d q' r d' :
  attempt_tx rt q act d = Ok ((q', r, true), d') →
  ∃ q0 q1 res d1 body d2, q0 = with_act act (with_state_read (epoch d) (recovery d) q)
    ∧ rt_effect rt q0 d = Ok ((q1, res), d1) ∧ ef_write res q1 d1 = Ok ((q', body), d2)
    ∧ ∃ b, d' = set_book b d2.
Proof.
  unfold attempt_tx, insert_act, insert_record. intros H. m_inv. destruct a as [q1 [r1|]]; simpl in *; m_inv; simplify_eq.
  apply lookup_record_ok in H0 as (-> & -> & Hr & _). destruct a0 as [q3 body], a as [q2 res]. simpl in *.
  eexists _, _, _, _, _, _. split; [done|]. split; [exact H|]. split; [exact H1|]. by eexists.
Qed.

Lemma attempt_fresh `{!Conforming rt} q act d q' r d' :
  attempt_tx rt q act d = Ok ((q', r, true), d') →
  records (book d) !! key_of q = None ∧ act ∉ act_id <$> acts (book d) ∧ same_caller (with_act act q) q'
  ∧ rec_fingerprint r = q_fingerprint q ∧ rec_fp_key r = q_fp_key q ∧ rec_request r = q_id q
  ∧ rec_epoch r = q_epoch q'
  ∧ ∃ subjects, book d' = Ledger (acts (book d) ++
       [ActRow act (q_principal q) (q_role q') (rt_action rt) subjects (q_key q) (q_id q) (q_epoch q')])
       (<[key_of q := r]> (records (book d))).
Proof.
  unfold attempt_tx. intros H. m_inv. destruct a as [q1 [r1|]]; simpl in *; m_inv; simplify_eq.
  apply lookup_record_ok in H0 as (-> & -> & Hr & _). destruct a0 as [q3 body], a as [q2 res]. simpl in *.
  destruct (conf_effect _ _ _ _ _ H) as [Hb1 Hc1]. destruct (conf_write _ _ _ _ _ _ _ _ _ _ H H1) as [Hb2 Hc2].
  assert (Hc : same_caller (with_act act q) q3) by (by transitivity q2).
  destruct (insert_act_ok _ _ _ _ _ H2) as [Ha Hb3]. destruct (insert_record_ok _ _ _ _ _ H3) as [Hn Hb4].
  destruct Hc as (Hp & Hk & Hi & Hac & Hf & Hfk & Hkd). unfold key_of, same_caller in *. simpl in *.
  rewrite Hb3 in Hb4, Hn. rewrite Hb2, Hb1 in *. simpl in *. rewrite Hp, Hk, Hi, Hac in *.
  split_and!; try done. by eexists.
Qed.

(** ** Idle turns *)

(** The store after [k] turns of the others alone. *)
Fixpoint idle (t k : nat) (d : Db) : Db :=
  match k with O => d | S k => idle (S t) k (others t d) end.
Lemma idle_add t k j d : idle t (k + j) d = idle (t + k) j (idle t k d).
Proof. revert t d. induction k as [|k IH]; intros t d; simpl; [by rewrite Nat.add_0_r|]. rewrite IH. f_equal. lia. Qed.

(** The request's own transaction committed nothing; or exactly one attempt of it committed. *)
Definition untouched (w w' : net) : Prop :=
  ∃ k, n_turn w' = (n_turn w + k)%nat ∧ n_db w' = idle (n_turn w) k (n_db w).
Definition committed_once (q : request) (w : net) (q' : request) (r : record_row) (w' : net) : Prop :=
  ∃ k j act d1, attempt_tx rt q act (idle (n_turn w) (S k) (n_db w)) = Ok ((q', r, true), d1)
    ∧ n_turn w' = (n_turn w + S k + j)%nat ∧ n_db w' = idle (n_turn w + S k) j d1.

Lemma untouched_refl w : untouched w w.
Proof. exists 0%nat. split; [lia|done]. Qed.
Lemma untouched_trans w1 w2 w3 : untouched w1 w2 → untouched w2 w3 → untouched w1 w3.
Proof.
  intros (k & Ht & Hd) (j & Ht' & Hd'). exists (k + j)%nat. split; [lia|]. by rewrite Hd', Ht, Hd, idle_add.
Qed.
Lemma untouched_committed q w1 w2 q' r w3 :
  untouched w1 w2 → committed_once q w2 q' r w3 → committed_once q w1 q' r w3.
Proof.
  intros (k & Ht & Hd) (i & j & act & d1 & Ha & Ht' & Hd'). exists (k + i)%nat, j, act, d1.
  rewrite plus_n_Sm, idle_add, <- Hd, <- Ht. split; [done|]. split; [lia|]. rewrite Hd'. f_equal. lia.
Qed.

(** The other requests: records are never changed or removed, and each has its own identifier. *)
Definition foreign (q : request) : Prop := ∀ t d,
  records (book d) ⊆ records (book (others t d)) ∧
  ∀ k r, records (book (others t d)) !! k = Some r → rec_request r = q_id q → records (book d) !! k = Some r.

Lemma foreign_rows q t d : foreign q → rows_of_request q (others t d) = rows_of_request q d.
Proof.
  intros Hf. destruct (Hf t d) as [Hsub Hown]. unfold rows_of_request.
  destruct (records (book d) !! _) as [r|] eqn:Hr; [by rewrite (lookup_weaken _ _ _ _ Hr Hsub)|].
  destruct (records (book (others t d)) !! _) as [r|] eqn:Hr'; [|done].
  apply bool_decide_eq_false. intros He. by rewrite (Hown _ _ Hr' He) in Hr.
Qed.

(** What a run's end says of the transaction. *)
Definition run_end (q : request) (w : net) (r : result failure (request * record_row * bool)) (w' : net) : Prop :=
  match r with
  | Ok (q', rec, true) => committed_once q w q' rec w'
  | Ok (q', rec, false) =>
      untouched w w' ∧ records (book (n_db w')) !! key_of q = Some rec
      ∧ q' = with_state_read (epoch (n_db w')) (recovery (n_db w')) q
  | Err FUnknown => untouched w w' ∨ ∃ q' rec, committed_once q w q' rec w'
  | Err _ => untouched w w'
  end.

Context `{!Conforming rt}.

Lemma attempt_once_spec q w :
  foreign q → run_end q w (attempt_once others fresh_id rt q w).1 (attempt_once others fresh_id rt q w).2.
Proof.
  intros Hf. unfold attempt_once. set (d := others (n_turn w) (n_db w)).
  assert (Hu : ∀ n f, untouched w (Net d (S (n_turn w)) n f)) by (intros n f; exists 1%nat; split; [simpl; lia|done]).
  destruct (attempt_tx rt q (fresh_id (n_fresh w)) d) as [[[[q' rec] []] d']|e] eqn:Ha.
  - destruct (attempt_fresh _ _ _ _ _ _ Ha) as (Hn & _ & _ & _ & _ & Hid & _ & sub & Hb).
    destruct (default Delivered (head (n_fates w))) as [| | | |c readable]; simpl; try apply Hu.
    + exists 0%nat, 0%nat, (fresh_id (n_fresh w)), d'. simpl. split; [done|]. split; [lia|done].
    + rewrite (foreign_rows q _ _ Hf).
      assert (Hd : rows_of_request q d = false) by (unfold rows_of_request, key_of in *; by rewrite Hn).
      assert (Hd' : rows_of_request q d' = true).
      { unfold rows_of_request. rewrite Hb. simpl. unfold key_of. rewrite lookup_insert_eq. by apply bool_decide_eq_true. }
      assert (Hc : ∀ n f, committed_once q w q' rec (Net (others (S (n_turn w)) d') (S (S (n_turn w))) n f)).
      { intros n f. exists 0%nat, 1%nat, (fresh_id (n_fresh w)), d'. simpl.
        replace (n_turn w + 1)%nat with (S (n_turn w)) by lia. split; [done|]. split; [lia|done]. }
      assert (Hu2 : ∀ n f, untouched w (Net (others (S (n_turn w)) d) (S (S (n_turn w))) n f)).
      { intros n f. exists 2%nat. split; [simpl; lia|done]. }
      destruct readable, c; simpl; rewrite ?Hd, ?Hd'; simpl; eauto.
  - destruct (attempt_found _ _ _ _ _ _ Ha) as (-> & Hr & ->).
    destruct (default Delivered (head (n_fates w))) as [| | | |c readable]; simpl; try apply Hu;
      (split; [apply Hu|done]).
  - destruct (default Delivered (head (n_fates w))) as [| | | |c readable]; simpl; apply Hu.
Qed.

Lemma run_end_after q w1 w2 r w3 : untouched w1 w2 → run_end q w2 r w3 → run_end q w1 r w3.
Proof.
  intros Hu. unfold run_end. destruct r as [[[q' rec] []]|[]]; simpl; try (by apply untouched_trans).
  - by apply untouched_committed.
  - intros [H Hk]. split; [by eapply untouched_trans|done].
  - intros [H|(q' & rec & H)]; [left; by eapply untouched_trans|right; exists q', rec; by eapply untouched_committed].
Qed.

Lemma run_from_spec n q w :
  foreign q → run_end q w (run_from others fresh_id rt n q w).1 (run_from others fresh_id rt n q w).2.
Proof.
  intros Hf. revert w. induction n as [|n IH]; intros w; simpl;
    pose proof (attempt_once_spec q w Hf) as H; destruct (attempt_once others fresh_id rt q w) as [r w'] eqn:Hr;
    simpl in H; destruct r as [[[q' rec] []]|[]]; simpl; try done.
  by eapply run_end_after, IH.
Qed.

(** ** Deadlocks are retried *)

(** The transaction's own result on a store, and the store it leaves. *)
Definition delivered (q : request) (act : string) (d : Db) : result failure (request * record_row * bool) * Db :=
  match attempt_tx rt q act d with
  | Ok (x, d') => (Ok x, if x.2 : bool then d' else d)
  | Err e => (Err (FTx e), d)
  end.
Lemma run_after_deadlocks n k q w fs :
  n_fates w = replicate k Deadlocked ++ Delivered :: fs → (k ≤ n)%nat →
  ((run_from others fresh_id rt n q w).1, n_db (run_from others fresh_id rt n q w).2)
  = delivered q (fresh_id (n_fresh w + k)) (idle (n_turn w) (S k) (n_db w)).
Proof.
  revert n w. induction k as [|k IH]; intros n w Hf Hk; destruct n as [|n]; try lia; simpl; unfold attempt_once; rewrite Hf; simpl.
  - rewrite Nat.add_0_r. unfold delivered.
    by destruct (attempt_tx rt q _ _) as [[[[q' r] []] d']|e].
  - rewrite Nat.add_0_r. unfold delivered.
    by destruct (attempt_tx rt q _ _) as [[[[q' r] []] d']|e].
  - rewrite <- (plus_n_Sm (n_fresh w)). set (w' := Net _ _ _ _).
    specialize (IH n w' eq_refl ltac:(lia)). simpl in IH. exact IH.
Qed.
Lemma run_all_deadlocks n q w fs :
  n_fates w = replicate (S n) Deadlocked ++ fs →
  (run_from others fresh_id rt n q w).1 = Err FTransient ∧ untouched w (run_from others fresh_id rt n q w).2.
Proof.
  revert w. induction n as [|n IH]; intros w Hf; simpl; unfold attempt_once; rewrite Hf; simpl.
  - split; [done|]. exists 1%nat. split; [simpl; lia|done].
  - set (w' := Net _ _ _ _). destruct (IH w' eq_refl) as [H1 H2]. split; [exact H1|].
    eapply untouched_trans; [|exact H2]. exists 1%nat. split; [simpl; lia|done].
Qed.

(** ** What the record makes of later requests *)

Definition recs (d : Db) : gmap (string * string) record_row := records (book d).

Lemma idle_recs q t k d : foreign q → recs d ⊆ recs (idle t k d).
Proof.
  intros Hf. revert t d. induction k as [|k IH]; intros t d; simpl; [done|].
  etrans; [apply (Hf t d)|apply IH].
Qed.
Lemma untouched_recs q w w' : foreign q → untouched w w' → recs (n_db w) ⊆ recs (n_db w').
Proof. intros Hf (k & _ & ->). by eapply idle_recs. Qed.
Lemma committed_record q w q' r w' :
  foreign q → committed_once q w q' r w' → recs (n_db w') !! key_of q = Some r.
Proof.
  intros Hf (k & j & act & d1 & Ha & _ & ->). destruct (attempt_fresh _ _ _ _ _ _ Ha) as (_&_&_&_&_&_&_&sub&Hb).
  eapply lookup_weaken; [|by eapply (idle_recs q)]. unfold recs. rewrite Hb. simpl. by rewrite lookup_insert_eq.
Qed.
Lemma committed_no_record q w q' r w' :
  foreign q → committed_once q w q' r w' → recs (n_db w) !! key_of q = None.
Proof.
  intros Hf (k & j & act & d1 & Ha & _). destruct (attempt_fresh _ _ _ _ _ _ Ha) as (Hn & _).
  by eapply lookup_weaken_None; [|by eapply (idle_recs q _ (S k))].
Qed.

(** ** The answer *)

Lemma answer_stored q r b s l body f :
  answer keyed_digest sv rt q r b = Stored s l body f → s = rec_status r ∧ l = rec_location r ∧ body = rec_body r ∧ f = b.
Proof.
  unfold answer, problem_of. destruct (entryReplay sv rt r) as [[]|]; [done..|].
  destruct (negb _); [done|]. destruct (same _ _ _ _) as [[]|]; try done. by intros [= <- <- <- <-].
Qed.
Lemma fail_not_stored f s l b x : fail_reply f ≠ Stored s l b x.
Proof. by destruct f as [[]| | | | |]. Qed.

(** The recovery entry's record is of the epoch that its process minted. *)
Definition minted : Prop := rt_pattern rt = entryPattern → ∀ q act d q' r d',
  attempt_tx rt q act d = Ok ((q', r, true), d') → rec_epoch r = sv_minted sv.
Lemma answer_own q q' r b :
  (rt_pattern rt = entryPattern → rec_epoch r = sv_minted sv) → same_caller q q' → rec_fingerprint r = q_fingerprint q → rec_fp_key r = q_fp_key q →
  rec_epoch r = q_epoch q' →
  answer keyed_digest sv rt q' r b = Stored (rec_status r) (rec_location r) (rec_body r) b.
Proof.
  intros Hp (_&_&_&_&Hf&Hk&_) H1 H2 H3. unfold answer, entryReplay, same.
  assert (He : (if negb (bool_decide (rt_pattern rt = entryPattern)) then None else if negb (bool_decide (rec_epoch r = sv_minted sv))
    then Some (refuse 409 "conflict" "the key's record is not this process's entry; retry under a new key"
      [("request", JStr (rec_request r)); ("epoch", JStr (rec_epoch r))]) else None) = None).
  { destruct (bool_decide_reflect (rt_pattern rt = entryPattern)) as [Hx|]; [|done]. by rewrite (bool_decide_eq_true_2 _ (Hp Hx)). }
  rewrite He, (bool_decide_eq_true_2 _ H3). simpl. rewrite H2, H1, Hf, Hk. by rewrite !bool_decide_eq_true_2 by done.
Qed.

Lemma ask_lookup_spec q w r w' :
  ask_tx others (lookup_record q) w = (r, w') → untouched w w' ∧
  ∀ q1 o, r = Ok (q1, o) → o = recs (n_db w') !! key_of q
    ∧ q1 = with_state_read (epoch (n_db w')) (recovery (n_db w')) q.
Proof.
  unfold ask_tx. destruct (lookup_record q _) as [[[q1 o] d']|e] eqn:Hl; intros [= <- <-];
    (split; [exists 1%nat; split; [simpl; lia|done]|]); [|done].
  intros q2 o' [= <- <-]. by apply lookup_record_ok in Hl as (_ & -> & -> & _).
Qed.
Lemma lookup_twice_spec q w r w' :
  lookup_twice others q w = (r, w') → untouched w w' ∧
  ∀ q1 o, r = Ok (q1, o) → o = recs (n_db w') !! key_of q
    ∧ q1 = with_state_read (epoch (n_db w')) (recovery (n_db w')) q.
Proof.
  unfold lookup_twice. intros H. destruct (ask_tx others (lookup_record q) w) as [r1 w1] eqn:H1.
  destruct (ask_lookup_spec _ _ _ _ H1) as [Hu Hr]. destruct r1 as [x|[e| | | | |]]; simplify_eq; try done.
  case_bool_decide; simplify_eq; [|done]. destruct (ask_lookup_spec _ _ _ _ H) as [Hu' Hr'].
  split; [by eapply untouched_trans|done].
Qed.

Notation mutate := (mutate others fresh_id keyed_digest sv rt).

(** A request's answer and what its transaction did: nothing, or one commit, which the answer is of or
    calls unknown; a replay is of a record found. *)
Definition answered (q : request) (w : net) (a : reply) (w' : net) : Prop :=
  (untouched w w' ∧ (∀ s l b, a ≠ Stored s l b false) ∧
     (∀ s l b, a = Stored s l b true → ∃ r, recs (n_db w') !! key_of q = Some r
        ∧ s = rec_status r ∧ l = rec_location r ∧ b = rec_body r)) ∨
  (∃ q' r, committed_once q w q' r w' ∧
     (a = Stored (rec_status r) (rec_location r) (rec_body r) false ∨ a = fail_reply FUnknown)).

Lemma answered_problem q w a w' :
  untouched w w' → (∀ s l b x, a ≠ Stored s l b x) → answered q w a w'.
Proof. intros Hu Ha. left. split_and!; [done|naive_solver..]. Qed.
Lemma answered_replay q w q1 r w' :
  untouched w w' → recs (n_db w') !! key_of q = Some r → answered q w (answer keyed_digest sv rt q1 r true) w'.
Proof.
  intros Hu Hr. left. split_and!; [done|intros s l b H; by apply answer_stored in H as (_&_&_&H)|].
  intros s l b (-> & -> & -> & _)%answer_stored. by exists r.
Qed.

Lemma mutate_answered q w a w' :
  foreign q → minted → mutate q w = (a, w') → answered q w a w'.
Proof.
  intros Hf Hp. unfold Request.mutate. destruct (lookup_twice others q w) as [rl w1] eqn:Hl.
  destruct (lookup_twice_spec _ _ _ _ Hl) as [Hu Hr]. destruct rl as [[q1 o]|f].
  2: { intros [= <- <-]. apply answered_problem; [done|apply fail_not_stored]. }
  destruct (Hr q1 o eq_refl) as [-> ->].
  destruct (recs (n_db w1) !! key_of q) as [r|] eqn:Hrec; [intros [= <- <-]; by apply answered_replay|].
  set (q1 := with_state_read _ _ q) in *.
  pose proof (run_from_spec (pred maxAttempts) q1 w1 Hf) as He. unfold run.
  destruct (run_from others fresh_id rt _ q1 w1) as [r2 w2]. simpl in He. apply (run_end_after _ _ _ _ _ Hu) in He.
  destruct r2 as [[[q2 r] []]|f]; intros [= <- <-].
  - right. exists q2, r. split; [done|]. left. destruct He as (i & j & act & d1 & Ha & _).
    destruct (attempt_fresh _ _ _ _ _ _ Ha) as (_ & _ & Hc & Hf1 & Hf2 & _ & He & _).
    eapply answer_own; [|done..]. intros Hx. by eapply (Hp Hx).
  - destruct He as (Hu' & Hrec' & _). by apply answered_replay.
  - destruct (decide (f = FUnknown)) as [->|Hne].
    + destruct He as [He|(q' & r & He)]; [by apply answered_problem|right; exists q', r; auto].
    + apply answered_problem; [by destruct f|apply fail_not_stored].
Qed.

(** With a record under its key a request commits nothing, and a stored answer is the record's. *)
Lemma mutate_with_record q w a w' r :
  foreign q → minted → mutate q w = (a, w') → recs (n_db w) !! key_of q = Some r →
  untouched w w' ∧ ∀ s l b f, a = Stored s l b f → s = rec_status r ∧ l = rec_location r ∧ b = rec_body r ∧ f = true.
Proof.
  intros Hf Hp Hm Hr. destruct (mutate_answered _ _ _ _ Hf Hp Hm) as [(Hu & H1 & H2)|(q' & r' & Hc & _)].
  - split; [done|]. intros s l b [] Ha; [|by destruct (H1 s l b)]. destruct (H2 s l b Ha) as (r' & Hr' & -> & -> & ->).
    assert (r' = r) as -> by (pose proof (lookup_weaken _ _ _ _ Hr (untouched_recs _ _ _ Hf Hu)); congruence). done.
  - by rewrite (committed_no_record _ _ _ _ _ Hf Hc) in Hr.
Qed.

(** After a stored answer the record is there. *)
Lemma stored_record q w s l b f w' :
  foreign q → minted → mutate q w = (Stored s l b f, w') →
  ∃ r, recs (n_db w') !! key_of q = Some r ∧ s = rec_status r ∧ l = rec_location r ∧ b = rec_body r.
Proof.
  intros Hf Hp Hm. destruct (mutate_answered _ _ _ _ Hf Hp Hm) as [(Hu & H1 & H2)|(q' & r & Hc & [Ha|Ha])].
  - destruct f; [by apply H2|by destruct (H1 s l b)].
  - injection Ha as -> -> -> ->. exists r. split; [by eapply committed_record|done].
  - done.
Qed.

(** ** Acts *)

Definition act_key_of (a : act_row) : string * string := (act_principal a, act_key a).
Definition acts_for (k : string * string) (d : Db) : list act_row := filter (λ a, act_key_of a = k) (acts (book d)).

(** Every key has one act and one record of it, of one request and epoch, or neither. *)
Definition ledger_ok (d : Db) : Prop := NoDup (act_id <$> acts (book d)) ∧ ∀ k,
  match recs d !! k with
  | None => acts_for k d = []
  | Some r => ∃ a, acts_for k d = [a] ∧ act_request a = rec_request r ∧ act_epoch a = rec_epoch r
  end.

Lemma attempt_ledger q act d q' r d' :
  attempt_tx rt q act d = Ok ((q', r, true), d') → ledger_ok d → ledger_ok d'.
Proof.
  intros Ha [Hids Hk]. destruct (attempt_fresh _ _ _ _ _ _ Ha) as (Hn & Hact & Hc & _ & _ & Hid & Hep & sub & Hb).
  split.
  { rewrite Hb. simpl. rewrite fmap_app. apply NoDup_app. split_and!; [done| |apply NoDup_singleton].
    intros x Hx ->%list_elem_of_singleton. done. }
  intros k. unfold recs, acts_for. rewrite Hb. simpl. rewrite filter_app. specialize (Hk k).
  unfold recs, acts_for in Hk. destruct (decide (k = key_of q)) as [->|Hne].
  - rewrite lookup_insert_eq. rewrite Hn in Hk. rewrite Hk. simpl. rewrite filter_cons_True by done.
    rewrite filter_nil. eexists. split; [done|]. by rewrite Hid, Hep.
  - rewrite lookup_insert_ne by done. rewrite filter_cons_False, filter_nil, app_nil_r; [done|]. naive_solver.
Qed.

Lemma mutate_ledger q w a w' :
  foreign q → minted → (∀ t d, ledger_ok d → ledger_ok (others t d)) →
  mutate q w = (a, w') → ledger_ok (n_db w) → ledger_ok (n_db w').
Proof.
  intros Hf Hp Ho Hm Hok.
  assert (Hidle : ∀ k t d, ledger_ok d → ledger_ok (idle t k d)) by (intros k; induction k; simpl; auto).
  destruct (mutate_answered _ _ _ _ Hf Hp Hm) as [((k & _ & ->) & _)|(q' & r & (k & j & act & d1 & Ha & _ & ->) & _)]; [auto|].
  apply Hidle. eapply attempt_ledger; [exact Ha|auto].
Qed.
End Requests.

(** ** The checks before the transaction *)

Lemma preconditions_ok rt h q q' :
  preconditions rt h q = Ok q' ↔ ∃ k e, h_key h = [k] ∧ keyShape k = true
    ∧ (rt_if_match rt = true → ∃ v, h_if_match h = [v] ∧ v ≠ "")
    ∧ (h_expected h = [] ∧ e = q_expected q ∨ h_expected h = [e] ∧ e ≠ "") ∧ q' = with_headers k e q.
Proof.
  unfold preconditions. destruct h as [ks ms es]. simpl.
  destruct ks as [|k [|k2 ks]]; [split; [done|naive_solver]| |split; [by destruct k|naive_solver]].
  destruct k as [|c k]; [split; [done|naive_solver]|].
  destruct (keyShape (String c k)) eqn:Hk; simpl; [|split; [done|naive_solver congruence]].
  assert (Hexp : match es with [] => Ok (with_headers (String c k) (q_expected q) q)
      | [""] => Err (refuse 400 "invalid-request" "Bronzeward-Expected-Epoch must name an epoch" [])
      | [e] => Ok (with_headers (String c k) e q)
      | _ => Err (refuse 400 "invalid-request" "Bronzeward-Expected-Epoch must be one header" []) end = Ok q' ↔
    ∃ e, (es = [] ∧ e = q_expected q ∨ es = [e] ∧ e ≠ "") ∧ q' = with_headers (String c k) e q).
  { destruct es as [|e [|e2 es]]; [naive_solver| |split; [by destruct e|naive_solver]].
    destruct e; [split; [done|naive_solver]|]. naive_solver. }
  destruct (rt_if_match rt); [destruct ms as [|m [|m2 ms]]|].
  - split; [done|naive_solver].
  - destruct m; [split; [done|naive_solver]|]. rewrite Hexp. naive_solver.
  - split; [by destruct m|naive_solver].
  - rewrite Hexp. naive_solver.
Qed.

(** The gate's own conditions, before the headers. *)
Lemma gate_passes sv rt h q q' :
  gate sv rt h q = Ok q' ↔
  ((∃ q1, authorize rt q = Ok q1) ∨ rt_pattern rt = identityPattern)
  ∧ (sv_pre_entry sv = true → rt_pattern rt = entryPattern)
  ∧ (sv_recovery_start sv = true → rt_normal_start_only rt = false)
  ∧ (rt_pattern rt = entryPattern → sv_recovery_start sv = true)
  ∧ preconditions rt h (match authorize rt q with Ok q1 => q1 | Err _ => q end) = Ok q'.
Proof.
  unfold gate. assert (Hrest : ∀ x,
    (if sv_pre_entry sv && negb (bool_decide (rt_pattern rt = entryPattern))
     then Err (refuse 409 "recovery-mode-active" "this process started with the recovery-start flag serves only the recovery entry until it commits" [])
     else if sv_recovery_start sv && rt_normal_start_only rt
     then Err (refuse 409 "recovery-mode-active" "this process started with the recovery-start flag; restart it without the flag for this act" [])
     else if bool_decide (rt_pattern rt = entryPattern) && negb (sv_recovery_start sv)
     then Err (refuse 409 "conflict" "only a process started with the recovery-start flag serves the recovery entry" [])
     else preconditions rt h x) = Ok q' ↔
    (sv_pre_entry sv = true → rt_pattern rt = entryPattern)
    ∧ (sv_recovery_start sv = true → rt_normal_start_only rt = false)
    ∧ (rt_pattern rt = entryPattern → sv_recovery_start sv = true) ∧ preconditions rt h x = Ok q').
  { intros x. destruct (sv_pre_entry sv), (sv_recovery_start sv), (rt_normal_start_only rt); case_bool_decide as Hpat; simpl;
      (split; [intros Hx; split_and!; congruence|intros (Ha & Hb & Hc & Hd); try specialize (Ha eq_refl); try specialize (Hb eq_refl);
        try specialize (Hc Hpat); congruence]). }
  destruct (authorize rt q) as [q1|e]; [rewrite Hrest; naive_solver|].
  destruct (bool_decide_reflect (rt_pattern rt = identityPattern)); [rewrite Hrest; naive_solver|]. split; [done|]. naive_solver.
Qed.
