(* ===== verification/Redaction.v ===== *)
(** * A plan's diff of redacted configurations: [pairRedacted] and what it walks
    ([internal/api/plans.go]), and what it lets a reader see of the base.

    Documents are the YAML decoder's nodes, as [IngestPath] has them: style, comments and lines are
    left out.  The decoder and the encoder are parameters. *)

From S2P Require Import Prelude Store IngestPath IngestSpec TextDiff.

(** ** Tokens *)

Definition pairedToken : string := "<redacted:paired>".

(** [strings.Contains], [strings.HasSuffix] of one byte, and [strings.Count] of one. *)
Fixpoint contains (p s : string) : bool :=
  String.prefix p s || match s with String _ r => contains p r | EmptyString => false end.
Fixpoint ends_with (c : ascii) (s : string) : bool :=
  match s with
  | EmptyString => false
  | String d EmptyString => bool_decide (d = c)
  | String _ r => ends_with c r
  end.
Fixpoint count_char (c : ascii) (s : string) : nat :=
  match s with
  | EmptyString => 0
  | String d r => (if bool_decide (d = c) then 1 else 0) + count_char c r
  end.

Definition isToken (v : string) : bool :=
  (bool_decide (v = "<redacted>") || String.prefix "<redacted:" v) && ends_with ">" v
  && (count_char "<" v =? 1)%nat && (count_char ">" v =? 1)%nat.
Definition isRedacted (v : string) : bool := contains "<redacted" v || contains "u003credacted" v.

(** ** [walkScalars]: what it calls its functions on *)

(** A key's part of a path; a key that is not a scalar names no path of its own. *)
Definition key_name (k : node) : string := match k with Scalar _ v => escape v | _ => "?" end.
Definition at_key (p : string) (k : node) : string := p +:+ "/" +:+ key_name k.
Definition at_index (p : string) (i : N) : string := p +:+ "/" +:+ Itoa i.

(** The scalar leaves of a node at a path, and its scalar keys with their mapping's paths. *)
Fixpoint leaves (n : node) (p : string) : list (string * string) :=
  match n with
  | Scalar _ v => [(p, v)]
  | Mapping _ m =>
      (fix pairs m := match m with [] => [] | (k, v) :: m => leaves v (at_key p k) ++ pairs m end) m
  | Sequence _ l =>
      (fix items i l := match l with [] => [] | c :: l => leaves c (at_index p i) ++ items (N.succ i) l end) 0%N l
  | Alias _ => []
  end.
Definition own_key (p : string) (k : node) : list (string * string) :=
  match k with Scalar _ v => [(p, v)] | _ => [] end.
Fixpoint keys_in (n : node) (p : string) : list (string * string) :=
  match n with
  | Mapping _ m =>
      (fix pairs m := match m with
                      | [] => [] | (k, v) :: m => own_key p k ++ keys_in v (at_key p k) ++ pairs m end) m
  | Sequence _ l =>
      (fix items i l := match l with [] => [] | c :: l => keys_in c (at_index p i) ++ items (N.succ i) l end) 0%N l
  | _ => []
  end.
Definition doc_name (i : nat) : string := "doc" +:+ Itoa (N.of_nat i).
Definition docs_leaves (docs : list node) : list (string * string) := mjoin (imap (λ i d, leaves d (doc_name i)) docs).
Definition docs_keys (docs : list node) : list (string * string) := mjoin (imap (λ i d, keys_in d (doc_name i)) docs).

(** The values listed at a path. *)
Definition listed (p : string) (l : list (string * string)) : list string :=
  omap (λ pv, if bool_decide (pv.1 = p) then Some pv.2 else None) l.

(** ** [pairRedacted] *)

(** What it knows of both sides when it rewrites the base: whether the target holds a token, how many
    base leaves a path has, the target's leaves and its plaintext keys at each. *)
Record pairing := Pairing {
  pr_secret : bool; pr_count : string → nat; pr_values : string → list string; pr_keys : string → list string }.

Definition pairing_of (base target : list node) : pairing :=
  let tl := docs_leaves target in let tk := docs_keys target in let bl := docs_leaves base in
  Pairing (existsb (λ pv, isRedacted pv.2) tl || existsb (λ pv, isRedacted pv.2) tk)
    (λ p, length (listed p bl)) (λ p, listed p tl)
    (λ p, filter (λ k, isRedacted k = false) (listed p tk)).

Section Pair.
Variable c : pairing.

Definition unchanged (p v : string) : bool :=
  (pr_count c p =? 1)%nat && match pr_values c p with [x] => bool_decide (x = v) | _ => false end.
Definition hidden_leaf (p v : string) : bool := pr_secret c && negb (isToken v) && negb (unchanged p v).
Definition hidden_key (p k : string) : bool :=
  pr_secret c && negb (isToken k) && negb (bool_decide (k ∈ pr_keys c p)).
Definition paired : node := Scalar "!!str" pairedToken.

Definition pair_key (p : string) (k : node) : node :=
  match k with Scalar _ v => if hidden_key p v then paired else k | _ => k end.
Fixpoint pair_node (n : node) (p : string) : node :=
  match n with
  | Scalar _ v => if hidden_leaf p v then paired else n
  | Mapping t m =>
      Mapping t ((fix pairs m := match m with
        | [] => [] | (k, v) :: m => (pair_key p k, pair_node v (at_key p k)) :: pairs m end) m)
  | Sequence t l =>
      Sequence t ((fix items i l := match l with
        | [] => [] | x :: l => pair_node x (at_index p i) :: items (N.succ i) l end) 0%N l)
  | Alias _ => n
  end.
Definition pair_docs (docs : list node) : list node := imap (λ i d, pair_node d (doc_name i)) docs.
End Pair.

(** The base's documents paired with the target's. *)
Definition pairDocs (base target : list node) : list node := pair_docs (pairing_of base target) base.

(** [hasAlias] *)
Fixpoint hasAlias (n : node) : bool :=
  match n with
  | Scalar _ _ => false
  | Mapping _ m => (fix pairs m := match m with [] => false | (k, v) :: m => hasAlias k || hasAlias v || pairs m end) m
  | Sequence _ l => existsb hasAlias l
  | Alias _ => true
  end.

Section Diff.
(** The YAML decoder's documents of a text, and the encoder's text of documents. *)
Variable decode : string → option (list node).
Variable encode : list node → option string.

Definition yamlDocs (s : string) : option (list node) :=
  docs ← decode s; if existsb hasAlias docs then None else Some docs.
Definition pairRedacted (base target : string) : option (string * string) :=
  tdocs ← yamlDocs target; bdocs ← yamlDocs base;
  paired ← encode (pairDocs bdocs tdocs); shown ← encode tdocs; Some (paired, shown).

(** [planDiff], and [planDiffFrom]: the diff of the paired forms, or a withheld one. *)
Record planDiff := PlanDiff { df_from : string; df_to : string; df_withheld : bool; df_unified : string }.
Definition planDiffFrom (machine from to_ : string) (appliedDigest : option string) (target : option string)
    : Tx planDiff :=
  row ← getsOr (λ d, artifacts d !! (from, machine)) (ENoRows "release_machine");
  let withheld := PlanDiff from to_ true "" in
  match rm_redacted row, target with
  | Some base, Some t =>
      if negb (bool_decide (Some (rm_digest row) = appliedDigest)) then mret withheld else
      match pairRedacted base t with
      | Some (x, y) => mret (PlanDiff from to_ false (default "" (Unified x y)))
      | None => mret withheld
      end
  | _, _ => mret withheld
  end.
End Diff.

(** ** What the paired base shows *)

(** The scalars of a node and of its keys, in keys that are not scalars too. *)
Fixpoint texts (n : node) : list string :=
  match n with
  | Scalar _ v => [v]
  | Mapping _ m => (fix pairs m := match m with [] => [] | (k, v) :: m => texts k ++ texts v ++ pairs m end) m
  | Sequence _ l => (fix items l := match l with [] => [] | c :: l => texts c ++ items l end) l
  | Alias t => texts t
  end.
(** Every mapping key of a node is a scalar, and nothing in it is an alias. *)
Definition scalar_key (k : node) : bool := match k with Scalar _ _ => true | _ => false end.
Fixpoint plain (n : node) : bool :=
  match n with
  | Scalar _ _ => true
  | Mapping _ m => (fix pairs m := match m with [] => true | (k, v) :: m => scalar_key k && plain v && pairs m end) m
  | Sequence _ l => forallb plain l
  | Alias _ => false
  end.

Lemma listed_elem p l v : v ∈ listed p l → (p, v) ∈ l.
Proof.
  unfold listed. intros ((q, x) & Hx & Hv)%list_elem_of_omap. simpl in Hv. case_bool_decide; by simplify_eq.
Qed.

Section Shown.
Variable c : pairing.
Hypothesis secret : pr_secret c = true.
(** The texts the target shows. *)
Variable target : list string.
Hypothesis values_shown : ∀ p v, v ∈ pr_values c p → v ∈ target.
Hypothesis keys_shown : ∀ p v, v ∈ pr_keys c p → v ∈ target.

Definition visible (x : string) : Prop := x = pairedToken ∨ isToken x = true ∨ x ∈ target.

Lemma leaf_visible p v : hidden_leaf c p v = false → visible v.
Proof.
  unfold hidden_leaf, unchanged. rewrite secret. intros H. right. destruct (isToken v); [by left|right].
  simpl in H. apply negb_false_iff, andb_true_iff in H as [_ H].
  destruct (pr_values c p) as [|x [|]] eqn:Hv; try done. apply bool_decide_eq_true in H as ->.
  apply (values_shown p). rewrite Hv. by apply list_elem_of_singleton.
Qed.
Lemma key_visible p v : hidden_key c p v = false → visible v.
Proof.
  unfold hidden_key. rewrite secret. intros H. right. destruct (isToken v); [by left|right].
  simpl in H. apply negb_false_iff, bool_decide_eq_true in H. by eapply keys_shown.
Qed.

Lemma pair_node_visible n p x : plain n = true → x ∈ texts (pair_node c n p) → visible x.
Proof.
  revert p. induction n as [tag v|tag m IH|tag l IH|t IH] using node_induction; intros p Hp Hx; simpl in *.
  - destruct (hidden_leaf c p v) eqn:Hh; apply list_elem_of_singleton in Hx as ->; [by left|by eapply leaf_visible].
  - induction m as [|[k v] m IHm]; [by apply elem_of_nil in Hx|].
    apply Forall_cons in IH as [[_ Hv] IH]. simpl in Hp. apply andb_true_iff in Hp as [[Hk Hpv]%andb_true_iff Hm].
    simpl in Hx. rewrite !elem_of_app in Hx. destruct Hx as [Hx|[Hx|Hx]]; [|by eapply Hv|by apply IHm].
    destruct k as [kt kv| | |]; try done. simpl in Hx. destruct (hidden_key c p kv) eqn:Hh;
      apply list_elem_of_singleton in Hx as ->; [by left|by eapply key_visible].
  - assert (Hgen : ∀ i, x ∈ (fix items l := match l with [] => [] | c0 :: l0 => texts c0 ++ items l0 end)
      ((fix items i l := match l with [] => [] | y :: l0 => pair_node c y (at_index p i) :: items (N.succ i) l0 end) i l) → visible x).
    { clear Hx. induction l as [|y l IHl]; intros i Hx; [by apply elem_of_nil in Hx|].
      apply Forall_cons in IH as [Hy IH]. simpl in Hp. apply andb_true_iff in Hp as [Hpy Hl].
      apply elem_of_app in Hx as [Hx|Hx]; [by eapply Hy|by eapply IHl]. }
    by eapply Hgen.
  - done.
Qed.
End Shown.

Lemma leaves_texts n q p v : (p, v) ∈ leaves n q → v ∈ texts n.
Proof.
  revert q. induction n as [tag x|tag m IH|tag l IH|t IH] using node_induction; intros q H; simpl in *.
  - apply list_elem_of_singleton in H. simplify_eq. by apply list_elem_of_singleton.
  - induction m as [|[k y] m IHm]; [by apply elem_of_nil in H|]. apply Forall_cons in IH as [[_ Hy] IH].
    apply elem_of_app in H as [H|H]; rewrite !elem_of_app; [right; left; by eapply Hy|right; right; by apply IHm].
  - revert H. generalize 0%N. induction l as [|y l IHl]; intros i H; [by apply elem_of_nil in H|].
    apply Forall_cons in IH as [Hy IH].
    apply elem_of_app in H as [H|H]; rewrite elem_of_app; [left; by eapply Hy|right; by eapply IHl].
  - by apply elem_of_nil in H.
Qed.
Lemma keys_texts n q p v : (p, v) ∈ keys_in n q → v ∈ texts n.
Proof.
  revert q. induction n as [tag x|tag m IH|tag l IH|t IH] using node_induction; intros q H; simpl in *.
  - by apply elem_of_nil in H.
  - induction m as [|[k y] m IHm]; [by apply elem_of_nil in H|]. apply Forall_cons in IH as [[_ Hy] IH].
    rewrite !elem_of_app in H. rewrite !elem_of_app. destruct H as [H|[H|H]].
    + left. destruct k; simpl in *; try by apply elem_of_nil in H. apply list_elem_of_singleton in H. simplify_eq.
      by apply list_elem_of_singleton.
    + right; left; by eapply Hy.
    + right; right; by apply IHm.
  - revert H. generalize 0%N. induction l as [|y l IHl]; intros i H; [by apply elem_of_nil in H|].
    apply Forall_cons in IH as [Hy IH].
    apply elem_of_app in H as [H|H]; rewrite elem_of_app; [left; by eapply Hy|right; by eapply IHl].
  - by apply elem_of_nil in H.
Qed.

Definition docs_texts (docs : list node) : list string := mjoin (texts <$> docs).
Lemma docs_texts_elem (docs : list node) (f : nat → node → list (string * string)) p v :
  (∀ i d, (p, v) ∈ f i d → v ∈ texts d) → (p, v) ∈ mjoin (imap f docs) → v ∈ docs_texts docs.
Proof.
  intros Hf (l & Hv & Hl)%list_elem_of_join. apply list_elem_of_lookup in Hl as [i Hi].
  rewrite list_lookup_imap in Hi. apply fmap_Some in Hi as (d & Hd & ->).
  apply list_elem_of_join. exists (texts d). split; [by eapply Hf|].
  apply list_elem_of_fmap. exists d. split; [done|]. by eapply list_elem_of_lookup_2.
Qed.

(** The target holds a redaction token, in a value or in a key. *)
Definition holds_token (target : list node) : bool := pr_secret (pairing_of [] target).

(** When the target holds a token, every text of the paired base is the paired token, one whole token,
    or a text of the target. *)
Lemma pairDocs_shown base target x :
  holds_token target = true → forallb plain base = true → x ∈ docs_texts (pairDocs base target) →
  visible (docs_texts target) x.
Proof.
  intros Hs Hp (l & Hx & Hl)%list_elem_of_join. apply list_elem_of_fmap in Hl as (n & -> & Hn).
  unfold pairDocs, pair_docs in Hn. apply list_elem_of_lookup in Hn as [i Hi].
  rewrite list_lookup_imap in Hi. apply fmap_Some in Hi as (d & Hd & ->).
  eapply (pair_node_visible (pairing_of base target)); [exact Hs| | | |exact Hx].
  - intros p v Hv%listed_elem. eapply (docs_texts_elem _ (λ i d, leaves d (doc_name i))); [|exact Hv].
    intros j e. apply leaves_texts.
  - intros p v Hv. apply list_elem_of_filter in Hv as [_ Hv%listed_elem].
    eapply (docs_texts_elem _ (λ i d, keys_in d (doc_name i))); [|exact Hv]. intros j e. apply keys_texts.
  - rewrite forallb_forall in Hp. apply Hp, list_elem_of_In. by eapply list_elem_of_lookup_2.
Qed.

(** ** What the paired base does not depend on *)

Section Alike.
Variable c : pairing.

(** Two bases a reader must not tell apart: of one shape and with the same keys, and two leaves of one
    place are equal or both hidden. *)
Fixpoint alike (n n' : node) (p : string) : Prop :=
  match n, n' with
  | Scalar t v, Scalar t' v' => (t = t' ∧ v = v') ∨ (hidden_leaf c p v = true ∧ hidden_leaf c p v' = true)
  | Mapping t m, Mapping t' m' =>
      t = t' ∧ (fix pairs m m' := match m, m' with
        | [], [] => True
        | (k, v) :: m, (k', v') :: m' => k = k' ∧ alike v v' (at_key p k) ∧ pairs m m'
        | _, _ => False end) m m'
  | Sequence t l, Sequence t' l' =>
      t = t' ∧ (fix items i l l' := match l, l' with
        | [], [] => True
        | x :: l, x' :: l' => alike x x' (at_index p i) ∧ items (N.succ i) l l'
        | _, _ => False end) 0%N l l'
  | Alias t, Alias t' => t = t'
  | _, _ => False
  end.

Lemma alike_pair n n' p : alike n n' p → pair_node c n p = pair_node c n' p.
Proof.
  revert n' p. induction n as [tag v|tag m IH|tag l IH|t IH] using node_induction; intros [tag' v'|tag' m'|tag' l'|t'] p;
    simpl; try done.
  - by intros [[-> ->]|[-> ->]].
  - intros [-> H]. f_equal. revert m' H. induction m as [|[k y] m IHm]; intros [|[k' y'] m'] H; try done.
    apply Forall_cons in IH as [[_ Hy] IH]. destruct H as (-> & H & Hm). f_equal; [f_equal; by apply Hy|by apply IHm].
  - intros [-> H]. f_equal. revert l' H. generalize 0%N. induction l as [|y l IHl]; intros i [|y' l'] H; try done.
    apply Forall_cons in IH as [Hy IH]. destruct H as [H Hl]. f_equal; [by apply Hy|by apply IHl].
  - by intros ->.
Qed.
Lemma alike_paths n n' p : alike n n' p → (leaves n p).*1 = (leaves n' p).*1.
Proof.
  revert n' p. induction n as [tag v|tag m IH|tag l IH|t IH] using node_induction; intros [tag' v'|tag' m'|tag' l'|t'] p;
    simpl; try done.
  - intros [-> H]. revert m' H. induction m as [|[k y] m IHm]; intros [|[k' y'] m'] H; try done.
    apply Forall_cons in IH as [[_ Hy] IH]. destruct H as (-> & H & Hm). rewrite !fmap_app.
    f_equal; [by apply Hy|by apply IHm].
  - intros [-> H]. revert l' H. generalize 0%N. induction l as [|y l IHl]; intros i [|y' l'] H; try done.
    apply Forall_cons in IH as [Hy IH]. destruct H as [H Hl]. rewrite !fmap_app. f_equal; [by apply Hy|by apply IHl].
Qed.
End Alike.

(** Two streams of documents alike at every place of what [pairRedacted] compares. *)
Definition docs_alike (base base' target : list node) : Prop :=
  length base = length base' ∧ ∀ i d d', base !! i = Some d → base' !! i = Some d' →
    alike (pairing_of base target) d d' (doc_name i).

Lemma imap_ext_docs {A} (f g : nat → node → A) (l l' : list node) :
  length l = length l' → (∀ i d d', l !! i = Some d → l' !! i = Some d' → f i d = g i d') → imap f l = imap g l'.
Proof.
  intros Hl H. apply list_eq. intros i. rewrite !list_lookup_imap.
  destruct (l !! i) as [d|] eqn:Hd, (l' !! i) as [d'|] eqn:Hd'; simpl; try done.
  - f_equal. by apply H.
  - apply lookup_lt_Some in Hd. apply lookup_ge_None in Hd'. lia.
  - apply lookup_lt_Some in Hd'. apply lookup_ge_None in Hd. lia.
Qed.
Lemma fmap_join {A B} (f : A → B) (ls : list (list A)) : f <$> mjoin ls = mjoin (fmap f <$> ls).
Proof. induction ls as [|l ls IH]; simpl; [done|]. by rewrite fmap_app, IH. Qed.
Lemma fmap_imap' {A B} (f : A → B) (g : nat → node → A) l : f <$> imap g l = imap (λ i d, f (g i d)) l.
Proof. apply list_eq. intros i. rewrite list_lookup_fmap, !list_lookup_imap. by destruct (l !! i). Qed.

Lemma docs_alike_paths base base' target :
  docs_alike base base' target → (docs_leaves base).*1 = (docs_leaves base').*1.
Proof.
  intros [Hl Ha]. unfold docs_leaves. rewrite !fmap_join. f_equal. rewrite !fmap_imap'.
  apply imap_ext_docs; [done|]. intros i d d' Hd Hd'. by eapply alike_paths, Ha.
Qed.

Lemma listed_length p l : length (listed p l) = length (filter (λ q, q = p) l.*1).
Proof.
  induction l as [|[q v] l IH]; [done|]. unfold listed in *. simpl. rewrite filter_cons.
  case_bool_decide; case_decide; simpl; naive_solver.
Qed.
Lemma docs_alike_count base base' target p :
  docs_alike base base' target → pr_count (pairing_of base target) p = pr_count (pairing_of base' target) p.
Proof. intros H. simpl. by rewrite !listed_length, (docs_alike_paths _ _ _ H). Qed.

Lemma pair_node_count c c' n p :
  pr_secret c = pr_secret c' → pr_values c = pr_values c' → pr_keys c = pr_keys c' →
  (∀ p, pr_count c p = pr_count c' p) → pair_node c n p = pair_node c' n p.
Proof.
  intros Hs Hv Hk Hc.
  assert (Hleaf : ∀ p v, hidden_leaf c p v = hidden_leaf c' p v).
  { intros q v. unfold hidden_leaf, unchanged. by rewrite Hs, Hv, Hc. }
  assert (Hkey : ∀ p k, pair_key c p k = pair_key c' p k).
  { intros q [t k| | |]; simpl; try done. unfold hidden_key. by rewrite Hs, Hk. }
  revert p. induction n as [tag v|tag m IH|tag l IH|t IH] using node_induction; intros p; simpl; [|f_equal|f_equal|done].
  - by rewrite Hleaf.
  - induction m as [|[k y] m IHm]; [done|]. apply Forall_cons in IH as [[_ Hy] IH].
    f_equal; [by rewrite Hkey, Hy|by apply IHm].
  - generalize 0%N. induction l as [|y l IHl]; intros i; [done|]. apply Forall_cons in IH as [Hy IH].
    f_equal; [by apply Hy|by apply IHl].
Qed.

(** The paired base is the same for two bases alike. *)
Lemma pairDocs_alike base base' target :
  docs_alike base base' target → pairDocs base target = pairDocs base' target.
Proof.
  intros H. pose proof H as [Hl Ha]. unfold pairDocs, pair_docs. apply imap_ext_docs; [done|].
  intros i d d' Hd Hd'. rewrite (alike_pair _ _ _ _ (Ha i d d' Hd Hd')). apply pair_node_count; try done.
  intros p. by eapply docs_alike_count.
Qed.

(** A target with no token pairs nothing. *)
Lemma pair_node_open c n p : pr_secret c = false → pair_node c n p = n.
Proof.
  intros Hs. revert p. induction n as [tag v|tag m IH|tag l IH|t IH] using node_induction; intros p; simpl.
  - unfold hidden_leaf. by rewrite Hs.
  - f_equal. induction m as [|[k y] m IHm]; [done|]. apply Forall_cons in IH as [[_ Hy] IH].
    f_equal; [|by apply IHm]. f_equal; [|by apply Hy]. destruct k; simpl; try done. unfold hidden_key. by rewrite Hs.
  - f_equal. generalize 0%N. induction l as [|y l IHl]; intros i; [done|]. apply Forall_cons in IH as [Hy IH].
    f_equal; [by apply Hy|by apply IHl].
  - done.
Qed.
Lemma pairDocs_open base target : holds_token target = false → pairDocs base target = base.
Proof.
  intros Hs. unfold pairDocs, pair_docs.
  transitivity (imap (λ _ d, d) base); [|apply list_eq; intros i; rewrite list_lookup_imap; by destruct (base !! i)].
  apply imap_ext_docs; [done|]. intros i d d' Hd Hd'. simplify_eq. by apply pair_node_open.
Qed.
