(* ===== verification/Governance.v ===== *)
(** * Plans, approvals and revocations: the acts that authorize the execution core's work
    ([internal/api/plans.go], [approvals.go], [approval_revocations.go], [cancellations.go],
    [revocations.go], [freeze.go], [endpoint.go]).

    Each effect is a transaction body on its request, as [Request]'s routes take them: the reads and
    refusals under the locks, and [ef_write], what runs once the act-order lock is held. *)

From stdpp Require Import sorting.
From S2P Require Import Prelude Store Config Request Ident IngestPath Redaction Evidence Commit Settle.

Definition unaccounted_scope : string := "pre-restore-unaccounted".
Definition not_found (detail : string) (members : doc) : err := refuse 404 "not-found" detail members.
Definition conflict (detail : string) (members : doc) : err := refuse 409 "conflict" detail members.
Definition identity_revoked : err := refuse 403 "identity-revoked" "" [].
Definition api_prefix : string := "/api/v1".

(** [reasonInput.check], in bytes. *)
Definition maxReason : Z := 1024.
Definition reason_check (reason : string) : bool :=
  negb (blank reason || (maxReason <? Z.of_nat (String.length reason))).

(** [SELECT revoked FROM principal WHERE id = $1 FOR SHARE], refused when revoked. *)
Definition principal_row (i : string) : Tx bool := getsOr (λ d, principals d !! i) (ENoRows "principal").
Definition unrevoked (i : string) : Tx unit := r ← principal_row i; failIf r identity_revoked.

(** The plan's state as a reader sees it at a time ([projectedState], [selectPlan]). *)
Definition projected (plan : string) (t : Z) (d : Db) : option plan_st :=
  s ← pstates d !! plan; p ← plans d !! plan;
  let approver := ps_approval s ≫= λ i, ap_approver <$> approvals d !! i in
  Some (plan_reads p (ps_state s) (approver ≫= λ x, principals d !! x) (approver ≫= λ x, id_revoked d !! x) t).
Definition projected_state (plan : string) (t : Z) : Tx plan_st := getsOr (projected plan t) (ENoRows "plan_state").

(** [UPDATE plan_state]: the state, its reason and its approval, at the next revision. *)
Definition moved_to (st : plan_st) (reason approval : option string) (t : Z) (s : plan_state) : plan_state :=
  PlanState st approval (ps_operation s) (ps_revision s + 1) t reason.
Definition update_pstate (plan : string) (f : plan_state → plan_state) : Tx unit :=
  modify (λ d, set_pstates (alter f plan (pstates d)) d).

Definition with_fact (f : fact) (r : recovery_log) : recovery_log :=
  RecoveryLog (epochs r) (scope_accountings r) (scope_releases r) (exits r) (claims r) (ingests r) (op_events r)
    (facts r ++ [f]).
Definition insert_fact (f : fact) : Tx unit := modify (λ d, set_rlog (with_fact f (rlog d)) d).

(** ** The plan's request *)

(** [planInput], durations in whole seconds. *)
Record planInput := PlanInput {
  in_release : string; in_machine : string; in_operation : string; in_mode : option string;
  in_expires : option Z; in_age : option Z; in_check : option Z; in_transport : option Z;
  in_verification : option Z; in_attempts : option Z }.

Definition seconds (d : Z) : Z := Z.quot d second.

Definition in_bounds (hi : Z) (v : option Z) : bool :=
  match v with Some v => (1 <=? v) && (v <=? hi) | None => true end.

(** [planInput.check]: what the request alone fixes; [None] when it passes. *)
Definition plan_input_check (i : planInput) : option string :=
  let duration (nv : string * option Z) := negb (in_bounds (seconds MaxPlanDuration) nv.2) in
  if negb (MustHave (in_release i) "rel") then Some "releaseId must be a release id"
  else if negb (MustHave (in_machine i) "mch") then Some "machine must be a machine id"
  else if bool_decide (in_operation i = "apply-config") && negb (bool_decide (in_mode i = Some "no-reboot"))
  then Some "an apply-config plan takes mode no-reboot"
  else if bool_decide (in_operation i = "adopt")
       && negb (bool_decide (in_mode i = None ∧ in_transport i = None ∧ in_verification i = None ∧ in_attempts i = None))
  then Some "an adopt plan takes no mode, deadlines or attempt limit"
  else if negb (bool_decide (in_operation i = "apply-config")) && negb (bool_decide (in_operation i = "adopt"))
  then Some "operation must be apply-config or adopt"
  else match find duration [("expiresInSeconds", in_expires i); ("maxObservationAgeSeconds", in_age i);
         ("checkValiditySeconds", in_check i); ("transportDeadlineSeconds", in_transport i);
         ("verificationDeadlineSeconds", in_verification i)] with
       | Some nv => Some (nv.1 +:+ " must be from 1 to 604800")
       | None =>
           if negb (in_bounds MaxPlanAttempts (in_attempts i)) then Some "maxAttempts must be from 1 to 10"
           else match in_transport i, in_verification i with
                | Some t, Some v => if v <? t then Some "transportDeadlineSeconds must be at most verificationDeadlineSeconds" else None
                | _, _ => None
                end
       end.

(** [planInput.resolve]: the deployment's defaults filled in, its maximum held to. *)
Definition filled (v : option Z) (d : Z) : option Z := Some (default (seconds d) v).
Definition resolve_input (ex : execution) (i : planInput) : result string planInput :=
  let e := filled (in_expires i) (pd_expiry (ex_defaults ex)) in
  let g := filled (in_age i) (pd_age (ex_defaults ex)) in
  let k := filled (in_check i) (pd_check (ex_defaults ex)) in
  if negb (bool_decide (in_operation i = "apply-config"))
  then Ok (PlanInput (in_release i) (in_machine i) (in_operation i) (in_mode i) e g k (in_transport i)
             (in_verification i) (in_attempts i))
  else
  let t := default (seconds (pd_transport (ex_defaults ex))) (in_transport i) in
  let v := default (seconds (pd_verification (ex_defaults ex))) (in_verification i) in
  let n := default (pd_attempts (ex_defaults ex)) (in_attempts i) in
  if seconds (ex_max_transport ex) <? t
  then Err "transportDeadlineSeconds must be at most the deployment's maximum"
  else if v <? t then Err "transportDeadlineSeconds must be at most verificationDeadlineSeconds"
  else Ok (PlanInput (in_release i) (in_machine i) (in_operation i) (in_mode i) e g k (Some t) (Some v) (Some n)).

(** ** Self-approval *)

(** The authored revisions a release contains: its sources' and its machines' import bases'. *)
Definition contained (release : string) (d : Db) : list string :=
  default [] (sources (prov d) !! release)
  ++ omap (λ kr, if bool_decide (kr.1.1 = release) then Some (rm_base kr.2) else None) (map_to_list (artifacts d)).
Definition written_by (who : string) (d : Db) (rev : string) : bool := bool_decide (authors (prov d) !! rev = Some who).
Definition introduced_by (draft : string) (d : Db) (rev : string) : bool :=
  bool_decide (rev ∈ default [] (introduced (prov d) !! draft)).

(** [selfApprovalReasons]: the reasons that hold for the approver, in the table's order. *)
Definition owns_author (who : string) (p : plan) (r : release_row) (d : Db) : bool :=
  bool_decide (map_Exists (λ s human, human = who ∧ (s = p_created_by p ∨ s = rl_published_by r
    ∨ existsb (written_by s d) (contained (p_release p) d) = true)) (services (prov d))).
Definition selfApprovalReasons (plan who : string) (d : Db) : option (list string) :=
  p ← plans d !! plan; r ← releases (prov d) !! p_release p;
  let c := contained (p_release p) d in
  let holds := [bool_decide (p_created_by p = who); bool_decide (rl_published_by r = who);
    existsb (λ v, written_by who d v && introduced_by (rl_draft r) d v) c;
    existsb (λ v, written_by who d v && negb (introduced_by (rl_draft r) d v)) c;
    owns_author who p r d] in
  Some (omap (λ hr, if (hr.1 : bool) then Some hr.2 else None)
    (zip holds ["created-plan"; "published"; "authored-change"; "authored-reused"; "owned-automation"])).

(** [unseenOverwrite]: approving a revert. *)
Definition unseenOverwrite (p : plan) : bool := bool_decide (p_kind p = KApplyConfig) && bool_decide (is_Some (p_drift p)).


Section Governance.
Variable tick : Z → Z.
(** The YAML decoder and encoder a plan's diff uses. *)
Variable decode : string → option (list node).
Variable encode : list node → option string.

(** ** [createPlan] (T4) *)

Definition open_drift (machine : string) (d : Db) : option drift_record :=
  find (λ r, bool_decide (d_machine r = machine) && bool_decide (d_closed r = None)) (drifts d).

(** What an apply-config or an adopt plan binds of the machine: its baseline, the drift record it
    reverts or adopts, the digest it expects before dispatch, and the evidence it is created on. *)
Record plan_basis := PlanBasis {
  pb_baseline : option Z; pb_drift : option Z; pb_expected : option string; pb_evidence : doc }.
Definition diff_doc (f : planDiff) : doc :=
  [("from", JStr (df_from f)); ("to", JStr (df_to f)); ("withheld", JBool (df_withheld f)); ("unified", JStr (df_unified f))].
Definition apply_basis (i : planInput) (row : artifact_row) (ms : machine_state) : Tx plan_basis :=
  failIf (negb (bool_decide (str (ms_desired ms) = in_release i)))
    (conflict "an apply-config plan is for the machine's Desired release" [("desired", JStr (str (ms_desired ms)))]);;
  from ← getsOr (λ _, ms_applied ms)
    (conflict "the machine has no Applied configuration to plan an apply-config from; adopt it first" [("machine", JStr (in_machine i))]);
  drift ← gets (open_drift (in_machine i));
  f ← planDiffFrom decode encode (in_machine i) from (in_release i) (ms_digest ms) (rm_redacted row);
  mret (PlanBasis (Some (default 0 (ms_baseline ms))) (d_opened <$> drift)
    (match drift with Some r => Some (d_observed r) | None => ms_digest ms end) (diff_doc f)).
Definition adopt_basis (i : planInput) (row : artifact_row) (ms : machine_state) : Tx plan_basis :=
  base ← gets (λ d, base_digests (prov d) !! rm_base row);
  let evidence := [("importBaseRevision", JStr (rm_base row));
                   ("pendingConvergence", JBool (negb (bool_decide (base = Some (rm_digest row)))))] in
  if bool_decide (ms_applied ms = None) then mret (PlanBasis None None None evidence) else
  r ← getsOr (open_drift (in_machine i))
    (conflict "the machine has an Applied configuration and no open drift record; adopt only a drifted machine or one with none" [("machine", JStr (in_machine i))]);
  mret (PlanBasis (Some (default 0 (ms_baseline ms))) (Some (d_opened r)) None evidence).

(** [insertPlan]: the plan, its entry on the machine's timeline, and its state, proposed. *)
Definition plan_of (q : request) (i : planInput) (m : machine) (asr : string) (ms : machine_state) (b : plan_basis)
    (t rev : Z) : plan :=
  Plan (in_machine i) (m_cluster m) (if bool_decide (in_operation i = "adopt") then KAdopt else KApplyConfig) (in_release i)
    asr (ms_desired ms) (pb_baseline b) (pb_drift b) (pb_expected b) (m_endpoint m)
    (default 0 (in_age i) * 1000000) (default 0 (in_check i) * 1000000) (default 0 (in_transport i) * 1000000)
    (default 0 (in_verification i) * 1000000) (in_attempts i) (t + default 0 (in_expires i) * 1000000)
    (q_principal q) (q_epoch q) t rev (pb_evidence b).
Definition insertPlan (q : request) (i : planInput) (new : string) (m : machine) (asr : string) (ms : machine_state)
    (b : plan_basis) (t : Z) : Tx plan :=
  rev ← next_revision (in_machine i);
  insert_event (in_machine i) rev (q_epoch q) (EvPlan new (in_operation i) (in_release i) (q_principal q) (q_role q)) t;;
  dup ← gets (λ d, bool_decide (is_Some (plans d !! new)) || bool_decide (is_Some (pstates d !! new)));
  failIf dup (EDuplicate "plan");;
  let p := plan_of q i m asr ms b t rev in
  modify (λ d, set_plans (<[new := p]> (plans d)) d);;
  modify (λ d, set_pstates (<[new := PlanState Proposed None None 1 t None]> (pstates d)) d);;
  mret p.
Definition plan_doc (new : string) (p : plan) : doc :=
  [("id", JStr new); ("state", JStr "proposed"); ("machine", JStr (p_machine p)); ("release", JStr (p_release p));
   ("timelineRevision", JInt (p_revision p)); ("expiresAt", JInt (p_expires p))].

Definition createPlan (ex : execution) (input : planInput) (new : string) (q : request) : Tx (request * effect_result) :=
  match resolve_input ex input with
  | Err e => throw (refuse 400 "invalid-request" e [])
  | Ok i =>
      m ← getsOr (λ d, machines d !! in_machine i) (not_found "no such machine" [("machine", JStr (in_machine i))]);
      failIf (bool_decide (m_scope m = unaccounted_scope))
        (refuse 409 "recovery-mode-active" "the machine's scope is still pre-restore unaccounted"
           [("machine", JStr (in_machine i)); ("scope", JStr (m_scope m))]);;
      _ ← getsOr (λ d, r ← releases (prov d) !! in_release i; if bool_decide (rl_cluster r = m_cluster m) then Some r else None)
        (not_found "no such release in the machine's cluster" [("release", JStr (in_release i))]);
      row ← getsOr (λ d, artifacts d !! (in_release i, in_machine i))
        (refuse 422 "validation-failed" "the release does not cover the machine"
           [("release", JStr (in_release i)); ("machine", JStr (in_machine i))]);
      ms ← mstate_row (in_machine i);
      b ← (if bool_decide (in_operation i = "adopt") then adopt_basis i row ms else apply_basis i row ms);
      head ← gets (λ d, heads d !! in_machine i);
      failIf (negb (bool_decide (head = Some (rm_assignment row))))
        (conflict "the machine's assignment has moved since the release was compiled"
           [("release", JStr (in_release i)); ("machine", JStr (in_machine i))]);;
      mret (q, EffectResult 201 (Some (api_prefix +:+ "/plans/" +:+ new)) [new; in_machine i] None
        (λ q, t ← clock_timestamp tick; p ← insertPlan q i new m (rm_assignment row) ms b t; mret (q, plan_doc new p)))
  end.

(** ** [approvePlan] (T5a) *)

Definition earlier_epoch (s : plan_state) (ep : string) (d : Db) : bool :=
  match ps_approval s ≫= λ i, approvals d !! i with Some a => negb (bool_decide (ap_epoch a = ep)) | None => false end.

Definition approve_write (plan new : string) (p : Store.plan) (reasons : list string) (q : request) : Tx (request * doc) :=
  t ← clock_timestamp tick;
  failIf (p_expires p <=? t) (conflict "the plan has expired" [("plan", JStr plan); ("state", JStr "expired")]);;
  rev ← next_revision (p_machine p);
  insert_event (p_machine p) rev (q_epoch q)
    (EvApproval plan new (q_principal q) (q_role q) reasons (unseenOverwrite p)) t;;
  dup ← gets (λ d, bool_decide (is_Some (approvals d !! new)));
  failIf dup (EDuplicate "approval");;
  again ← gets (λ d, bool_decide (map_Exists (λ _ a, ap_plan a = plan ∧ ap_epoch a = q_epoch q) (approvals d)));
  failIf again (EConstraint "approval_plan_epoch_key");;
  modify (λ d, set_approvals (<[new := Approval (q_principal q) (q_epoch q) rev plan (p_machine p) (q_role q) reasons
    (q_act q) t]> (approvals d)) d);;
  update_pstate plan (λ s, moved_to Approved (ps_reason s) (Some new) t s);;
  mret (q, [("id", JStr new); ("plan", JStr plan); ("epoch", JStr (q_epoch q)); ("selfApproval", JList reasons);
            ("unseenOverwrite", JBool (unseenOverwrite p))]).

Definition approvePlan (plan new : string) (q : request) : Tx (request * effect_result) :=
  failIf (negb (MustHave plan "pln")) (not_found "no such plan" []);;
  p ← getsOr (λ d, plans d !! plan) (not_found "no such plan" [("plan", JStr plan)]);
  m ← machine_row (p_machine p);
  failIf (bool_decide (m_scope m = unaccounted_scope))
    (refuse 409 "recovery-mode-active" "the machine's scope is still pre-restore unaccounted"
       [("machine", JStr (p_machine p)); ("scope", JStr (m_scope m))]);;
  s ← pstate_row plan;
  unrevoked (q_principal q);;
  t ← clock_timestamp tick;
  state ← projected_state plan t;
  earlier ← gets (earlier_epoch s (q_epoch q));
  failIf (negb (bool_decide (state = Proposed)) && negb (bool_decide (state = Approved) && earlier))
    (conflict "the plan is neither proposed nor awaiting approval in the current epoch"
       [("plan", JStr plan); ("state", JStr (plan_text state))]);;
  reasons ← getsOr (selfApprovalReasons plan (q_principal q)) (ENoRows "plan");
  mret (q, EffectResult 201 (Some (api_prefix +:+ "/approvals/" +:+ new)) [new; plan; p_machine p] None
             (approve_write plan new p reasons)).

(** ** [revokeApproval] (T5b) *)

(** How a revocation writes the plan's state: [stored] is the state, [reads] what it reads as, and
    [current] that the revoked approval authorizes it. *)
Definition revocation_move (stored reads : plan_st) (current : bool) : option (plan_st * string) :=
  if bool_decide (reads = stored) then if current then Some (Revoked, "approval-revoked") else None
  else if bool_decide (reads = Revoked) then Some (Revoked, "identity-revoked")
  else Some (reads, plan_text reads).

Definition revoke_write (approval reason : string) (a : Store.approval) (stored : plan_st) (current : bool) (q : request)
    : Tx (request * doc) :=
  t ← clock_timestamp tick;
  reads ← projected_state (ap_plan a) t;
  rev ← next_revision (ap_machine a);
  insert_event (ap_machine a) rev (q_epoch q) (EvApprovalRevocation approval (ap_plan a) (q_principal q) (q_role q) reason) t;;
  modify (λ d, set_approval_revocations ({[approval]} ∪ approval_revocations d) d);;
  insert_fact (FApprovalRevocation approval (ap_plan a) (ap_machine a) (q_principal q) reason (q_act q) t rev);;
  (match revocation_move stored reads current with
   | Some (st, why) => update_pstate (ap_plan a) (λ s, moved_to st (Some why)
       (if bool_decide (st = Revoked) then ps_approval s else None) t s)
   | None => mret tt
   end);;
  mret (q, [("approval", JStr approval); ("plan", JStr (ap_plan a)); ("at", JInt t)]).

Definition revokeApproval (approval reason : string) (q : request) : Tx (request * effect_result) :=
  failIf (negb (MustHave approval "apr")) (not_found "no such approval" []);;
  a ← getsOr (λ d, approvals d !! approval) (not_found "no such approval" [("approval", JStr approval)]);
  unrevoked (q_principal q);;
  again ← gets (λ d, bool_decide (approval ∈ approval_revocations d));
  failIf again (conflict "the approval is already revoked; a revocation is permanent" [("approval", JStr approval)]);;
  s ← pstate_row (ap_plan a);
  mret (q, EffectResult 201 None [approval; ap_plan a; ap_machine a] None
    (revoke_write approval reason a (ps_state s)
       (bool_decide (ps_state s = Approved ∧ ps_approval s = Some approval)))).

(** ** [cancelPlan] (T11) *)

(** A plan that reads proposed, approved or committed, with no cancellation recorded. *)
Definition cancellable (plan : string) : Tx (plan_st * Z) :=
  t ← clock_timestamp tick;
  state ← projected_state plan t;
  failIf (negb (bool_decide (state ∈ [Proposed; Approved; PCommitted])))
    (conflict ("the plan is already " +:+ plan_text state) [("plan", JStr plan); ("state", JStr (plan_text state))]);;
  recorded ← gets (λ d, bool_decide (plan ∈ cancellations d));
  failIf recorded (conflict "the plan's cancellation is already recorded" [("plan", JStr plan); ("state", JStr (plan_text state))]);;
  mret (state, t).

(** The first qualifying role, where publisher qualifies only for the plan's creator. *)
Definition cancel_role (roles : list string) (creator : string) (q : request) : option string :=
  find (λ r, bool_decide (r ∈ q_roles q) && (negb (bool_decide (r = "publisher")) || bool_decide (q_principal q = creator))) roles.

Definition cancel_write (plan reason : string) (p : Store.plan) (q : request) : Tx (request * doc) :=
  st ← cancellable plan;
  rev ← next_revision (p_machine p);
  insert_event (p_machine p) rev (q_epoch q) (EvPlanCancellation plan (q_principal q) (q_role q) reason) st.2;;
  modify (λ d, set_cancellations ({[plan]} ∪ cancellations d) d);;
  insert_fact (FPlanCancellation plan (p_machine p) (q_principal q) reason (q_act q) st.2 rev);;
  (if bool_decide (st.1 = PCommitted) then mret tt
   else update_pstate plan (moved_to PCancelled (Some "cancelled") None st.2));;
  mret (q, [("plan", JStr plan); ("machine", JStr (p_machine p)); ("at", JInt st.2)]).

Definition cancelPlan (roles : list string) (plan reason : string) (q : request) : Tx (request * effect_result) :=
  failIf (negb (MustHave plan "pln")) (not_found "no such plan" []);;
  p ← getsOr (λ d, plans d !! plan) (not_found "no such plan" [("plan", JStr plan)]);
  role ← getsOr (λ _, cancel_role roles (p_created_by p) q)
    (refuse 403 "forbidden" "a publisher cancels only the plans it created" [("plan", JStr plan); ("roles", JList roles)]);
  unrevoked (q_principal q);;
  cancellable plan;;
  mret (with_role role q, EffectResult 200 None [plan; p_machine p] None (cancel_write plan reason p)).

(** ** [revokeIdentity] (T5c) *)

(** A plan the identity approved whose plan or operation is not terminal. *)
Definition affected (identity : string) (t : Z) (d : Db) (plan : string) (s : plan_state) : bool :=
  match (ps_approval s ≫= λ i, approvals d !! i), plans d !! plan with
  | Some a, Some p =>
      bool_decide (ap_approver a = identity)
      && (bool_decide (ps_state s = Approved) && (t <? p_expires p)
          || bool_decide (ps_state s = PCommitted)
             && match ps_operation s ≫= λ o, ops d !! o with Some o => active (op_st o) | None => false end)
  | _, _ => false
  end.
Definition affected_plans (identity : string) (t : Z) (d : Db) : list (string * string) :=
  omap (λ ps, p ← plans d !! ps.1; if affected identity t d ps.1 ps.2 then Some (p_machine p, ps.1) else None)
    (map_to_list (pstates d)).
(** The machines with affected plans, in order, with those plans, in order. *)
Definition identity_groups (identity : string) (t : Z) (d : Db) : list (string * list string) :=
  let l := affected_plans identity t d in
  (λ m, (m, sorted_ids (omap (λ mp, if bool_decide (mp.1 = m) then Some mp.2 else None) l))) <$> sorted_ids l.*1.

(** [identityEntries]: one entry per affected machine. *)
Fixpoint insert_identity_entries (q : request) (identity reason : string) (t : Z) (l : list (string * list string)) : Tx unit :=
  match l with
  | [] => mret tt
  | (m, ps) :: l =>
      rev ← next_revision m;
      insert_event m rev (q_epoch q) (EvIdentityRevocation identity ps (q_principal q) (q_role q) reason) t;;
      insert_identity_entries q identity reason t l
  end.
Definition identityEntries (q : request) (identity reason : string) (t : Z) : Tx unit :=
  l ← gets (identity_groups identity t); insert_identity_entries q identity reason t l.

(** [auth.RevokeIdentity], and the locks of both principals in identifier order. *)
Definition lock_target (target : string) (q : request) : Tx unit :=
  already ← getsOr (λ d, principals d !! target) (not_found ("no identity " +:+ target) []);
  failIf (already && bool_decide (target = q_principal q)) identity_revoked;;
  failIf already (conflict "the identity is already revoked; a revocation is permanent" [("identity", JStr target)]);;
  modify (λ d, set_principals (<[target := true]> (principals d)) d).
Definition lock_identities (target : string) (q : request) : Tx unit :=
  if bool_decide (target = q_principal q) then lock_target target q
  else if String.leb target (q_principal q) then lock_target target q;; unrevoked (q_principal q)
  else unrevoked (q_principal q);; lock_target target q.

Definition revokeIdentity (target reason : string) (q : request) : Tx (request * effect_result) :=
  lock_identities target q;;
  mret (q, EffectResult 201 None [target] None (λ q,
    t ← clock_timestamp tick;
    dup ← gets (λ d, bool_decide (is_Some (id_revoked d !! target)));
    failIf dup (EDuplicate "identity_revocation");;
    modify (λ d, set_id_revoked (<[target := t]> (id_revoked d)) d);;
    insert_fact (FIdentityRevocation target (q_principal q) reason (q_act q) t);;
    identityEntries q target reason t;;
    mret (q, [("identity", JStr target); ("at", JInt t)]))).

(** ** [setFreeze] and [replaceTalosEndpoint] (T11); their time is the transaction's own *)

Definition with_frozen (b : bool) (m : machine) : machine :=
  Machine (m_cluster m) (m_scope m) b (m_counter m + 1) (m_smbios m) (m_node m) (m_endpoint m).
Definition with_endpoint (e : string) (m : machine) : machine :=
  Machine (m_cluster m) (m_scope m) (m_frozen m) (m_counter m + 1) (m_smbios m) (m_node m) e.
Definition update_machine (i : string) (f : machine → machine) : Tx Z :=
  m ← machine_row i; modify (λ d, set_machines (<[i := f m]> (machines d)) d);; mret (m_counter (f m)).

Definition setFreeze (m reason : string) (freeze : bool) (q : request) : Tx (request * effect_result) :=
  t ← clock_timestamp tick;
  failIf (negb (MustHave m "mch")) (not_found "no such machine" []);;
  row ← getsOr (λ d, machines d !! m) (not_found "no such machine" [("machine", JStr m)]);
  unrevoked (q_principal q);;
  failIf (negb freeze && bool_decide (m_scope row = unaccounted_scope))
    (refuse 409 "recovery-mode-active" "the machine's scope is still pre-restore unaccounted"
       [("machine", JStr m); ("scope", JStr (m_scope row))]);;
  failIf (bool_decide (m_frozen row = freeze))
    (conflict (if freeze then "the machine scope is already frozen" else "the machine scope is not frozen") [("machine", JStr m)]);;
  rev ← update_machine m (with_frozen freeze);
  insert_event m rev (q_epoch q) (EvFreeze freeze (q_principal q) (q_role q) reason) t;;
  insert_fact (FFreeze m rev freeze (q_principal q) (q_act q));;
  mret (q, EffectResult 201 (Some (api_prefix +:+ "/machines/" +:+ m)) [m] None
    (λ q, mret (q, [("machine", JStr m); ("revision", JInt rev); ("frozen", JBool freeze); ("at", JInt t)]))).

Definition replaceTalosEndpoint (m endpoint : string) (q : request) : Tx (request * effect_result) :=
  t ← clock_timestamp tick;
  failIf (negb (MustHave m "mch")) (not_found "no such machine" []);;
  row ← getsOr (λ d, machines d !! m) (not_found "no such machine" [("machine", JStr m)]);
  failIf (bool_decide (m_endpoint row = endpoint))
    (conflict "the machine already has this Talos endpoint" [("machine", JStr m)]);;
  rev ← update_machine m (with_endpoint endpoint);
  insert_event m rev (q_epoch q) (EvEndpointChange (m_endpoint row) endpoint (q_principal q) (q_role q)) t;;
  insert_fact (FEndpointChange m rev (m_endpoint row) endpoint (q_act q));;
  mret (q, EffectResult 201 (Some (api_prefix +:+ "/machines/" +:+ m)) [m] None
    (λ q, mret (q, [("machine", JStr m); ("revision", JInt rev); ("talosEndpoint", JStr endpoint); ("at", JInt t)]))).
(** ** Their routes ([routes.go]) *)

Definition planCreation (ex : execution) (i : planInput) (new : string) : route :=
  Route "/plans" ["publisher"] false false true false "plan.create" (createPlan ex i new).
Definition cancel_roles : list string := ["publisher"; "approver"; "recovery-admin"].
Definition planCancellation (plan reason : string) : route :=
  Route "/plans/{id}/cancellations" cancel_roles false false false false "plan.cancel" (cancelPlan cancel_roles plan reason).
Definition planApproval (plan new : string) : route :=
  Route "/plans/{id}/approvals" ["approver"] true false true false "plan.approve" (approvePlan plan new).
Definition approvalRevocation (approval reason : string) : route :=
  Route "/approvals/{id}/revocations" ["approver"; "recovery-admin"] false false false false "approval.revoke"
    (revokeApproval approval reason).
Definition machineFreeze (m reason : string) : route :=
  Route "/machines/{id}/freezes" ["author"; "publisher"; "approver"; "recovery-admin"] false false false false
    "machine.freeze" (setFreeze m reason true).
Definition machineUnfreeze (m reason : string) : route :=
  Route "/machines/{id}/unfreezes" ["approver"] false false true false "machine.unfreeze" (setFreeze m reason false).
Definition endpointReplacement (m endpoint : string) : route :=
  Route "/machines/{id}/talos-endpoints" ["author"] true false false false "machine.talos-endpoint"
    (replaceTalosEndpoint m endpoint).
Definition identityRevocations (target reason : string) : route :=
  Route "/identity-revocations" ["recovery-admin"] true false false false "identity.revoke" (revokeIdentity target reason).
End Governance.
