(* ===== verification/Authority.v ===== *)
(** * Who may execute what: the plans, their states, approvals, cancellations and revocations as an
    abstract machine, and its invariant.

    [gmove] says what may happen to the tables that authorize the execution core, each move with what
    it demands; [authority_inv] is what every reachable state of them satisfies: the CHECKs and
    references of the schema, and that no approval in force is a revoked one.  [trigger_allows] is the
    schema's trigger on [plan_state]; every move passes it. *)

From S2P Require Import Prelude Store Lifecycle Governance.

(** ** The authority: the tables that say what may be executed *)

Record authority := Authority {
  au_plans : gmap string plan; au_states : gmap string plan_state; au_approvals : gmap string approval;
  au_cancelled : gset string; au_withdrawn : gset string; au_principals : gmap string bool;
  au_revoked_at : gmap string Z }.
Definition authority_of (d : Db) : authority :=
  Authority (plans d) (pstates d) (approvals d) (cancellations d) (approval_revocations d) (principals d) (id_revoked d).
#[export] Instance authority_drift_free : DriftFree authority_of.
Proof. by repeat split. Qed.

(** ** The abstract machine of authority *)

(** What a revocation of the approval [a] makes of its plan's state; [None] keeps it. *)
Definition revoked_to (a : string) (s : plan_state) (mv : option (plan_st * string)) : Prop :=
  match mv with
  | None => ¬ (ps_state s = Approved ∧ ps_approval s = Some a)
  | Some (st, why) =>
      (ps_state s = Approved ∧ st = Revoked ∧ why ∈ ["approval-revoked"; "identity-revoked"])
      ∨ (ps_state s ∈ [Proposed; Approved] ∧ st = Expired ∧ why = "expired")
  end.
Definition revoked_row (t : Z) (mv : option (plan_st * string)) (s : plan_state) : plan_state :=
  match mv with
  | None => s
  | Some (st, why) => moved_to st (Some why) (if bool_decide (st = Revoked) then ps_approval s else None) t s
  end.
Definition approved_row (a : string) (t : Z) (s : plan_state) : plan_state :=
  moved_to Approved (ps_reason s) (Some a) t s.
Definition cancelled_row (t : Z) (s : plan_state) : plan_state :=
  if bool_decide (ps_state s = PCommitted) then s else moved_to PCancelled (Some "cancelled") None t s.
Definition committed_row (op : string) (t : Z) (s : plan_state) : plan_state :=
  PlanState PCommitted (ps_approval s) (Some op) (ps_revision s + 1) t (ps_reason s).

(** An approval of the epoch [ep] is in force on the plan. *)
Definition approved_in (ep : string) (s : plan_state) (u : authority) : Prop :=
  ps_state s = Approved ∧ ∃ a r, ps_approval s = Some a ∧ au_approvals u !! a = Some r ∧ ap_epoch r = ep.

Inductive gmove (ep : string) : authority → authority → Prop :=
| gm_create u i p t :
    au_plans u !! i = None → au_states u !! i = None →
    gmove ep u (Authority (<[i := p]> (au_plans u)) (<[i := PlanState Proposed None None 1 t None]> (au_states u))
                  (au_approvals u) (au_cancelled u) (au_withdrawn u) (au_principals u) (au_revoked_at u))
| gm_approve u i s a r t :
    au_states u !! i = Some s →
    (ps_state s = Proposed
     ∨ ps_state s = Approved ∧ ∃ b r', ps_approval s = Some b ∧ au_approvals u !! b = Some r' ∧ ap_epoch r' ≠ ep) →
    au_approvals u !! a = None → ap_plan r = i → ap_epoch r = ep → au_principals u !! ap_approver r = Some false →
    (∀ b r', au_approvals u !! b = Some r' → ¬ (ap_plan r' = i ∧ ap_epoch r' = ep)) →
    gmove ep u (Authority (au_plans u) (alter (approved_row a t) i (au_states u))
                  (<[a := r]> (au_approvals u)) (au_cancelled u) (au_withdrawn u) (au_principals u) (au_revoked_at u))
| gm_revoke u a r s mv t :
    au_approvals u !! a = Some r → a ∉ au_withdrawn u → au_states u !! ap_plan r = Some s → revoked_to a s mv →
    gmove ep u (Authority (au_plans u) (alter (revoked_row t mv) (ap_plan r) (au_states u)) (au_approvals u)
                  (au_cancelled u) ({[a]} ∪ au_withdrawn u) (au_principals u) (au_revoked_at u))
| gm_cancel u i s t :
    au_states u !! i = Some s → ps_state s ∈ [Proposed; Approved; PCommitted] → i ∉ au_cancelled u →
    gmove ep u (Authority (au_plans u) (alter (cancelled_row t) i (au_states u))
                  (au_approvals u) ({[i]} ∪ au_cancelled u) (au_withdrawn u) (au_principals u) (au_revoked_at u))
| gm_identity u w t :
    au_principals u !! w = Some false → au_revoked_at u !! w = None →
    gmove ep u (Authority (au_plans u) (au_states u) (au_approvals u) (au_cancelled u) (au_withdrawn u)
                  (<[w := true]> (au_principals u)) (<[w := t]> (au_revoked_at u)))
| gm_commit u i s op t :
    au_states u !! i = Some s → approved_in ep s u →
    gmove ep u (Authority (au_plans u) (alter (committed_row op t) i (au_states u)) (au_approvals u) (au_cancelled u)
                  (au_withdrawn u) (au_principals u) (au_revoked_at u))
| gm_rest u ps : au_principals u ⊆ ps →
    gmove ep u (Authority (au_plans u) (au_states u) (au_approvals u) (au_cancelled u) (au_withdrawn u) ps (au_revoked_at u)).

(** ** Its invariant *)

(** The CHECKs of [plan_state]. *)
Definition reason_fits (st : plan_st) (reason : option string) : Prop :=
  match st with
  | Revoked => reason = Some "approval-revoked" ∨ reason = Some "identity-revoked"
  | PCancelled => reason = Some "cancelled"
  | Expired => reason = Some "expired"
  | _ => reason = None
  end.
Definition pstate_checks (s : plan_state) : Prop :=
  (is_Some (ps_operation s) ↔ ps_state s = PCommitted)
  ∧ (is_Some (ps_approval s) ↔ ps_state s ∈ [Approved; PCommitted; Revoked])
  ∧ reason_fits (ps_state s) (ps_reason s) ∧ 1 ≤ ps_revision s.

Record authority_inv (u : authority) : Prop := {
  ai_plan : ∀ i, is_Some (au_states u !! i) ↔ is_Some (au_plans u !! i);
  ai_checks : ∀ i s, au_states u !! i = Some s → pstate_checks s;
  ai_approval : ∀ i s a, au_states u !! i = Some s → ps_approval s = Some a →
    ∃ r, au_approvals u !! a = Some r ∧ ap_plan r = i;
  ai_planned : ∀ a r, au_approvals u !! a = Some r → is_Some (au_states u !! ap_plan r);
  ai_once : ∀ a b r r', au_approvals u !! a = Some r → au_approvals u !! b = Some r' →
    ap_plan r = ap_plan r' → ap_epoch r = ap_epoch r' → a = b;
  ai_withdrawn : ∀ a, a ∈ au_withdrawn u → is_Some (au_approvals u !! a) ∧
    ∀ i s, au_states u !! i = Some s → ¬ (ps_state s = Approved ∧ ps_approval s = Some a);
  ai_cancelled : ∀ i, i ∈ au_cancelled u →
    ∃ s, au_states u !! i = Some s ∧ (ps_state s = PCancelled ∨ ps_state s = PCommitted) }.

(** [refuse_plan_state_transition]: the moves the schema's trigger lets pass, where an approved or
    committed state names no approval of another epoch. *)
Definition trigger_allows (ep : string) (approvals : gmap string approval) (s s' : plan_state) : Prop :=
  (ps_state s' ∈ [Approved; PCommitted] → ∀ a r, ps_approval s' = Some a → approvals !! a = Some r → ap_epoch r = ep)
  ∧ match ps_state s, ps_state s' with
    | Proposed, (Approved | PCancelled | Expired) => True
    | Approved, Approved => ps_approval s' ≠ ps_approval s
    | Approved, (PCommitted | Revoked) => ps_approval s' = ps_approval s
    | Approved, (PCancelled | Expired) => True
    | _, _ => False
    end.
Definition final (st : plan_st) : bool := match st with Proposed | Approved => false | _ => true end.

Lemma lookup_alter_cases {A} (f : A → A) i j (m : gmap string A) x :
  alter f i m !! j = Some x → (j = i ∧ ∃ y, m !! i = Some y ∧ x = f y) ∨ (j ≠ i ∧ m !! j = Some x).
Proof.
  destruct (decide (j = i)) as [->|Hne]; [rewrite lookup_alter_eq|rewrite lookup_alter_ne by done; auto].
  intros (y & -> & Hy)%fmap_Some. eauto.
Qed.
Lemma lookup_alter_kept {A} (R : A → A → Prop) (f : A → A) i j (m : gmap string A) x :
  R x x → (i = j → R x (f x)) → m !! j = Some x → ∃ y, alter f i m !! j = Some y ∧ R x y.
Proof.
  intros Hr Hf Hm. destruct (decide (i = j)) as [->|Hne].
  - rewrite lookup_alter_eq, Hm. eexists. split; [done|auto].
  - rewrite lookup_alter_ne by done. eauto.
Qed.

(** Every move keeps each plan's row or takes it along the trigger, and inserts rows proposed. *)
Lemma gmove_states ep u u' i s :
  gmove ep u u' → authority_inv u → au_states u !! i = Some s →
  ∃ s', au_states u' !! i = Some s' ∧ (s' = s ∨ trigger_allows ep (au_approvals u') s s').
Proof.
  intros H Hinv Hi.
  destruct H as [u j p t Hp Hs|u j s1 a r t Hs Hst Ha Hpl Hep _ Hno|u a r s1 mv t Ha Hw Hs Hmv|u j s1 t Hs Hst Hc
    |u w t Hw Hr|u j s1 op t Hs (Hst & a & r & Hap & Ha & Hep)|u ps Hps]; simpl; try (by eauto).
  - rewrite lookup_insert_ne by congruence. eauto.
  - apply (lookup_alter_kept (λ s s', s' = s ∨ trigger_allows ep (<[a:=r]> (au_approvals u)) s s')); [by left| |done].
    intros ->. assert (s1 = s) as -> by congruence. right. split; simpl.
    + intros _ b r' [= <-] Hb. rewrite lookup_insert_eq in Hb. by simplify_eq.
    + destruct Hst as [->|(-> & b & r' & -> & Hb & _)]; [done|]. congruence.
  - apply (lookup_alter_kept (λ s s', s' = s ∨ trigger_allows ep (au_approvals u) s s')); [by left| |done].
    intros Heq. assert (s1 = s) as -> by congruence. destruct mv as [[st why]|]; [|by left]. right. simpl in *.
    destruct Hmv as [(Hst & -> & _)|(Hst & -> & _)]; (split; simpl; [set_solver|]).
    + by rewrite Hst.
    + by destruct (ps_state s); set_solver.
  - apply (lookup_alter_kept (λ s s', s' = s ∨ trigger_allows ep (au_approvals u) s s')); [by left| |done].
    intros ->. assert (s1 = s) as -> by congruence. unfold cancelled_row. case_bool_decide; [by left|right].
    split; simpl; [set_solver|]. destruct (ps_state s); set_solver.
  - apply (lookup_alter_kept (λ s s', s' = s ∨ trigger_allows ep (au_approvals u) s s')); [by left| |done].
    intros ->. assert (s1 = s) as -> by congruence. right. split; simpl; [|by rewrite Hst].
    intros _ b r' Hb Hb'. by simplify_eq.
Qed.
Lemma gmove_new ep u u' i s : gmove ep u u' → au_states u !! i = None → au_states u' !! i = Some s → ps_state s = Proposed.
Proof.
  intros H Hn. destruct H as [u j p t Hp Hs|u j s1 a r t Hs _ _ _ _ _ _|u a r s1 mv t Ha Hw Hs Hmv|u j s1 t Hs Hst Hc
    |u w t Hw Hr|u j s1 op t Hs _|u ps Hps]; simpl; intros Hi; try congruence;
    try (apply lookup_alter_cases in Hi as [(-> & y & Hy & ->)|[_ Hi]]; congruence).
  destruct (decide (i = j)) as [->|]; [rewrite lookup_insert_eq in Hi; by simplify_eq|].
  rewrite lookup_insert_ne in Hi by done. congruence.
Qed.

(** A final row never changes. *)
Lemma trigger_final ep ap s s' : trigger_allows ep ap s s' → final (ps_state s) = false.
Proof. intros [_ H]. by destruct (ps_state s). Qed.

(** ** Preservation *)

Lemma plain_checks s s' :
  pstate_checks s → ps_operation s' = ps_operation s → ps_revision s' = ps_revision s + 1 →
  ps_state s ∈ [Proposed; Approved] → ps_state s' ≠ PCommitted →
  (is_Some (ps_approval s') ↔ ps_state s' ∈ [Approved; PCommitted; Revoked]) → reason_fits (ps_state s') (ps_reason s') →
  pstate_checks s'.
Proof.
  intros (Ho & _ & _ & Hr) Hop Hrev Hst Hne Hap Hre. split_and!; [|done|done|lia].
  rewrite Hop. split; [|done]. intros H. apply Ho in H. rewrite H in Hst. set_solver.
Qed.
Lemma approved_checks a t s : pstate_checks s → ps_state s ∈ [Proposed; Approved] → pstate_checks (approved_row a t s).
Proof.
  intros Hc Hs. apply (plain_checks s); try done; simpl; [split; [set_solver|eauto]|].
  destruct Hc as (_ & _ & Hre & _). destruct (ps_state s); simpl in *; set_solver.
Qed.
Lemma cancelled_checks t s :
  pstate_checks s → ps_state s ∈ [Proposed; Approved; PCommitted] → pstate_checks (cancelled_row t s).
Proof.
  intros Hc Hs. unfold cancelled_row. case_bool_decide; [done|].
  apply (plain_checks s); try done; simpl; [set_solver|]. split; [by intros []|set_solver].
Qed.
Lemma revoked_checks a t mv s : pstate_checks s → revoked_to a s mv → pstate_checks (revoked_row t mv s).
Proof.
  intros Hc. destruct mv as [[st why]|]; [|done]. simpl. intros [(Hs & -> & Hw)|(Hs & -> & ->)].
  - apply (plain_checks s); try done; simpl; [rewrite Hs; set_solver| |set_solver].
    destruct Hc as (_ & Ha & _). rewrite Ha, Hs. set_solver.
  - apply (plain_checks s); try done; simpl. split; [by intros []|set_solver].
Qed.
Lemma committed_checks op t s : pstate_checks s → ps_state s = Approved → pstate_checks (committed_row op t s).
Proof.
  intros (Ho & Ha & Hre & Hr) Hs. split_and!; simpl; [by split; eauto| | |lia].
  - rewrite Ha, Hs. set_solver.
  - by rewrite Hs in Hre.
Qed.

(** The move's rows satisfy their CHECKs. *)
Lemma alter_checks (f : plan_state → plan_state) i (m : gmap string plan_state) :
  (∀ j s, m !! j = Some s → pstate_checks s) → (∀ s, m !! i = Some s → pstate_checks s → pstate_checks (f s)) →
  ∀ j s, alter f i m !! j = Some s → pstate_checks s.
Proof. intros Hm Hf j s [(-> & y & Hy & ->)|[_ Hold]]%lookup_alter_cases; eauto. Qed.
Lemma gmove_checks ep u u' :
  gmove ep u u' → authority_inv u → ∀ i s, au_states u' !! i = Some s → pstate_checks s.
Proof.
  intros H Hinv. pose proof (ai_checks _ Hinv) as Hc.
  destruct H as [u j p t Hp Hs|u j s1 a r t Hs Hst _ _ _ _ _|u a r s1 mv t Ha Hw Hs Hmv|u j s1 t Hs Hst _
    |u w t Hw Hr|u j s1 op t Hs (Hst & _)|u ps Hps]; simpl; try done.
  - intros i s. destruct (decide (i = j)) as [->|]; [|rewrite lookup_insert_ne by done; apply Hc].
    rewrite lookup_insert_eq. intros [= <-]. split_and!; simpl; [by split; [intros []|]|by split; [intros []|set_solver]|done|lia].
  - apply alter_checks; [done|]. intros s Hs' Hcs. apply approved_checks; [done|].
    assert (s1 = s) as -> by congruence. destruct Hst as [->|[-> _]]; set_solver.
  - apply alter_checks; [done|]. intros s Hs' Hcs. assert (s1 = s) as -> by congruence. by eapply revoked_checks.
  - apply alter_checks; [done|]. intros s Hs' Hcs. assert (s1 = s) as -> by congruence. by apply cancelled_checks.
  - apply alter_checks; [done|]. intros s Hs' Hcs. assert (s1 = s) as -> by congruence. by apply committed_checks.
Qed.

(** A move's rows name approvals of their plans. *)
Definition approval_of (ap : gmap string approval) (i : string) (s : plan_state) : Prop :=
  ∀ a, ps_approval s = Some a → ∃ r, ap !! a = Some r ∧ ap_plan r = i.
Lemma approval_of_weaken (ap ap' : gmap string approval) i s :
  ap ⊆ ap' → approval_of ap i s → approval_of ap' i s.
Proof. intros Hsub H a Ha. destruct (H a Ha) as (r & Hr & Hp). exists r. split; [by eapply lookup_weaken|done]. Qed.
Lemma alter_approval (f : plan_state → plan_state) j (m : gmap string plan_state) ap ap' :
  ap ⊆ ap' → (∀ i s, m !! i = Some s → approval_of ap i s) →
  (∀ s, m !! j = Some s → approval_of ap' j s → approval_of ap' j (f s)) →
  ∀ i s, alter f j m !! i = Some s → approval_of ap' i s.
Proof.
  intros Hsub Hm Hf i s [(-> & y & Hy & ->)|[_ Hold]]%lookup_alter_cases; [apply Hf; [done|]|];
    (eapply approval_of_weaken; [exact Hsub|eauto]).
Qed.
Lemma gmove_approval ep u u' :
  gmove ep u u' → authority_inv u → ∀ i s, au_states u' !! i = Some s → approval_of (au_approvals u') i s.
Proof.
  intros H Hinv. assert (Hc : ∀ i s, au_states u !! i = Some s → approval_of (au_approvals u) i s).
  { intros i s Hs a Ha. by eapply (ai_approval _ Hinv). }
  destruct H as [u j p t Hp Hs|u j s1 a r t Hs Hst Ha Hpl _ _ _|u a r s1 mv t Ha Hw Hs Hmv|u j s1 t Hs Hst _
    |u w t Hw Hr|u j s1 op t Hs (Hst & _)|u ps Hps]; simpl; try done.
  - intros i s. destruct (decide (i = j)) as [->|]; [|rewrite lookup_insert_ne by done; apply Hc].
    rewrite lookup_insert_eq. by intros [= <-] a.
  - eapply alter_approval; [by apply insert_subseteq|done|]. intros s _ _ b [= <-]. exists r. by rewrite lookup_insert_eq.
  - eapply alter_approval; [done..|]. intros s Hs' Hap. destruct mv as [[st why]|]; simpl; [|done].
    intros b. simpl. case_bool_decide; [|done]. apply Hap.
  - eapply alter_approval; [done..|]. intros s Hs' Hap. unfold cancelled_row. case_bool_decide; [done|]. by intros b.
  - eapply alter_approval; [done..|]. intros s Hs' Hap. exact Hap.
Qed.

Lemma gmove_withdrawn ep u u' a :
  gmove ep u u' → authority_inv u → a ∈ au_withdrawn u' → is_Some (au_approvals u' !! a) ∧
    ∀ i s, au_states u' !! i = Some s → ¬ (ps_state s = Approved ∧ ps_approval s = Some a).
Proof.
  intros H Hinv. pose proof (ai_withdrawn _ Hinv) as Hc.
  destruct H as [u j p t Hp Hs|u j s1 b r t Hs Hst Hb Hpl _ _ _|u b r s1 mv t Hb Hw Hs Hmv|u j s1 t Hs Hst _
    |u w t Hw Hr|u j s1 op t Hs (Hst & _)|u ps Hps]; simpl; intros Ha; try by apply Hc.
  - destruct (Hc a Ha) as [Hap Hno]. split; [done|]. intros i s.
    destruct (decide (i = j)) as [->|]; [|rewrite lookup_insert_ne by done; apply Hno].
    rewrite lookup_insert_eq. by intros [= <-] [].
  - destruct (Hc a Ha) as [[r' Hap] Hno]. assert (a ≠ b) by congruence. split; [rewrite lookup_insert_ne by done; eauto|].
    intros i s [(-> & y & Hy & ->)|[_ Hold]]%lookup_alter_cases; [|by eapply Hno]. simpl. naive_solver.
  - split; [apply elem_of_union in Ha as [->%elem_of_singleton|Ha]; [by eexists|by apply Hc]|].
    intros i s Hi [Hst Hap]. apply lookup_alter_cases in Hi as [(-> & y & Hy & ->)|[Hne Hi]].
    + assert (s1 = y) as -> by congruence. destruct mv as [[st why]|]; simpl in *.
      * destruct Hmv as [(_ & -> & _)|(_ & -> & _)]; done.
      * apply elem_of_union in Ha as [->%elem_of_singleton|Ha]; [by apply Hmv|]. by eapply (proj2 (Hc a Ha)).
    + apply elem_of_union in Ha as [->%elem_of_singleton|Ha]; [|by eapply (proj2 (Hc a Ha))].
      destruct (ai_approval _ Hinv i s b Hi Hap) as (r' & Hr' & Hp'). congruence.
  - destruct (Hc a Ha) as [Hap Hno]. split; [done|].
    intros i s [(-> & y & Hy & ->)|[_ Hold]]%lookup_alter_cases; [|by eapply Hno]. unfold cancelled_row.
    case_bool_decide; [by eapply Hno|]. by intros [].
  - destruct (Hc a Ha) as [Hap Hno]. split; [done|].
    intros i s [(-> & y & Hy & ->)|[_ Hold]]%lookup_alter_cases; [|by eapply Hno]. by intros [].
Qed.

Lemma gmove_cancelled ep u u' i :
  gmove ep u u' → authority_inv u → i ∈ au_cancelled u' →
  ∃ s, au_states u' !! i = Some s ∧ (ps_state s = PCancelled ∨ ps_state s = PCommitted).
Proof.
  intros H Hinv Hi.
  assert (Hold : i ∈ au_cancelled u → ∃ s, au_states u' !! i = Some s ∧ (ps_state s = PCancelled ∨ ps_state s = PCommitted)).
  { intros Hc. destruct (ai_cancelled _ Hinv i Hc) as (s & Hs & Hst).
    destruct (gmove_states _ _ _ _ _ H Hinv Hs) as (s' & Hs' & [->|Ht%trigger_final]); [eauto|].
    destruct Hst as [Hst|Hst]; by rewrite Hst in Ht. }
  destruct H as [| | |u j s1 t Hs Hst _| | |]; try by apply Hold.
  simpl in Hi. apply elem_of_union in Hi as [->%elem_of_singleton|Hi]; [|by apply Hold].
  simpl. rewrite lookup_alter_eq, Hs. eexists. split; [done|]. unfold cancelled_row. case_bool_decide; [by right|by left].
Qed.

Lemma alter_is_Some {A} (f : A → A) i j (m : gmap string A) : is_Some (alter f i m !! j) ↔ is_Some (m !! j).
Proof.
  destruct (decide (i = j)) as [->|]; [rewrite lookup_alter_eq, fmap_is_Some|rewrite lookup_alter_ne by done]; done.
Qed.
Lemma insert_is_Some_both {A B} i j (m : gmap string A) (n : gmap string B) x y :
  (is_Some (m !! j) ↔ is_Some (n !! j)) → is_Some (<[i := x]> m !! j) ↔ is_Some (<[i := y]> n !! j).
Proof. intros H. destruct (decide (i = j)) as [->|]; [by rewrite !lookup_insert_eq; split; eauto|by rewrite !lookup_insert_ne by done]. Qed.

Lemma gmove_inv ep u u' : gmove ep u u' → authority_inv u → authority_inv u'.
Proof.
  intros H Hinv. split.
  - intros i. pose proof (ai_plan _ Hinv i) as Hp. destruct H; simpl; rewrite ?alter_is_Some; try done.
    by apply insert_is_Some_both.
  - by eapply gmove_checks.
  - intros i s a Hs. by eapply gmove_approval.
  - pose proof (ai_planned _ Hinv) as Hp. intros a r Ha. destruct H; simpl in *; rewrite ?alter_is_Some; eauto.
    + destruct (decide (i = ap_plan r)) as [->|]; [rewrite lookup_insert_eq; eauto|rewrite lookup_insert_ne by done; eauto].
    + destruct (decide (a = a0)) as [->|]; [rewrite lookup_insert_eq in Ha|rewrite lookup_insert_ne in Ha by done; eauto].
      simplify_eq. eauto.
  - pose proof (ai_once _ Hinv) as Ho. intros a b r r' Ha Hb Hp He. destruct H; simpl in *; eauto.
    destruct (decide (a = a0)) as [->|], (decide (b = a0)) as [->|]; try done;
      rewrite ?lookup_insert_eq in *; rewrite ?lookup_insert_ne in * by done; simplify_eq; eauto; exfalso; naive_solver.
  - intros a. by eapply gmove_withdrawn.
  - intros i. by eapply gmove_cancelled.
Qed.

(** ** What never goes back *)

(** Plans, approvals, cancellations and revocations are only added, and a revoked identity stays so. *)
Record grown (u u' : authority) : Prop := {
  gr_plans : au_plans u ⊆ au_plans u'; gr_approvals : au_approvals u ⊆ au_approvals u';
  gr_cancelled : au_cancelled u ⊆ au_cancelled u'; gr_withdrawn : au_withdrawn u ⊆ au_withdrawn u';
  gr_revoked : ∀ w, au_principals u !! w = Some true → au_principals u' !! w = Some true }.
#[export] Instance grown_preorder : PreOrder grown.
Proof.
  split; [by split|]. intros x y z [] []. split; try (by etrans). auto.
Qed.
Lemma gmove_grown ep u u' : gmove ep u u' → grown u u'.
Proof.
  intros H. destruct H; split; simpl; try done; try set_solver; try (by apply insert_subseteq).
  - intros x Hx. by rewrite lookup_insert_ne by congruence.
  - intros x Hx. by eapply lookup_weaken.
Qed.

(** A plan that is cancelled, or committed under an approval that is revoked or whose approver is. *)
Definition withdrawn (i : string) (u : authority) : Prop :=
  i ∈ au_cancelled u ∨ ∃ s a r, au_states u !! i = Some s ∧ final (ps_state s) = true ∧ ps_approval s = Some a
    ∧ au_approvals u !! a = Some r ∧ (a ∈ au_withdrawn u ∨ au_principals u !! ap_approver r = Some true).
Lemma gmove_final ep u u' i s :
  gmove ep u u' → authority_inv u → au_states u !! i = Some s → final (ps_state s) = true → au_states u' !! i = Some s.
Proof.
  intros H Hinv Hs Hf. destruct (gmove_states _ _ _ _ _ H Hinv Hs) as (s' & Hs' & [->|Ht%trigger_final]); [done|congruence].
Qed.
Lemma gmove_stays_withdrawn ep u u' i : gmove ep u u' → authority_inv u → withdrawn i u → withdrawn i u'.
Proof.
  intros H Hinv. pose proof (gmove_grown _ _ _ H) as [Hp Ha Hc Hw Hr]. intros [Hi|(s & a & r & Hs & Hf & Hsa & Har & Hd)].
  - left. set_solver.
  - right. exists s, a, r. split_and!; [by eapply gmove_final|done..|by eapply lookup_weaken|].
    destruct Hd; [left; set_solver|auto].
Qed.
