(* ===== verification/GovernanceSpec.v ===== *)
(** * What the governing acts keep and change: the contract of their routes, and each act as a move of
    the [Authority] machine. *)

From S2P Require Import Prelude Store World Evidence Commit Attempt Outcome Settle Lifecycle.
From S2P Require Import Request RequestSpec Ident IngestPath Redaction Governance Authority.

(** Inverts a governing act that succeeded. *)
Ltac gov_inv := repeat first
  [ progress m_inv
  | progress timeline_inv
  | progress unfold update_pstate, insert_fact, update_machine, unrevoked, principal_row, projected_state, machine_row,
      mstate_row, plan_row, pstate_row in *
  | progress simplify_eq ].

(** ** Frames *)

(** The execution core's tables, and the rest of what the acts leave alone. *)
Definition exec_of (d : Db) :=
  (ops d, attempts d, responses d, accountings d, classifications d).
#[export] Instance exec_drift_free : DriftFree exec_of.
Proof. by repeat split. Qed.
#[export] Instance book_drift_free : DriftFree book.
Proof. by repeat split. Qed.

(** What reads the tables of the acts, the lock of an identity and the timeline apart. *)
Class ActFree {B} (f : Db → B) : Prop := {
  #[global] act_timeline :: TimelineFree f;
  free_plans : ∀ x d, f (set_plans x d) = f d;
  free_pstates : ∀ x d, f (set_pstates x d) = f d;
  free_approvals : ∀ x d, f (set_approvals x d) = f d;
  free_withdrawn : ∀ x d, f (set_approval_revocations x d) = f d;
  free_cancellations : ∀ x d, f (set_cancellations x d) = f d;
  free_principals : ∀ x d, f (set_principals x d) = f d;
  free_id_revoked : ∀ x d, f (set_id_revoked x d) = f d;
  free_facts : ∀ x d, f (set_rlog (with_fact x (rlog d)) d) = f d;
  free_freeze : ∀ i b m d, machines d !! i = Some m → f (set_machines (<[i := with_frozen b m]> (machines d)) d) = f d;
  free_endpoint : ∀ i e m d, machines d !! i = Some m → f (set_machines (<[i := with_endpoint e m]> (machines d)) d) = f d }.
#[export] Instance exec_act_free : ActFree exec_of.
Proof. by repeat split. Qed.
#[export] Instance book_act_free : ActFree book.
Proof. by repeat split. Qed.
#[export] Hint Resolve free_plans free_pstates free_approvals free_withdrawn free_cancellations
  free_principals free_id_revoked free_facts : act_free.
#[export] Hint Extern 2 (keeps _ (modify _)) =>
  apply keeps_modify; intros; solve [eauto with act_free typeclass_instances] : keeps.

Section Frames.
Context {B : Type} (f : Db → B) `{!ActFree f}.
Variable tick : Z → Z.
Variable decode : string → option (list node).
Variable encode : list node → option string.

Lemma insert_fact_keeps x : keeps f (insert_fact x).
Proof. apply keeps_modify. intros d. apply free_facts. Qed.
Lemma update_pstate_keeps i g : keeps f (update_pstate i g).
Proof. unfold update_pstate. solve_keeps. Qed.
Lemma unrevoked_keeps i : keeps f (unrevoked i).
Proof. unfold unrevoked, principal_row. solve_keeps. Qed.
Lemma projected_keeps i t : keeps f (projected_state i t).
Proof. unfold projected_state. solve_keeps. Qed.
Lemma update_machine_keeps i g :
  (∀ m d, machines d !! i = Some m → f (set_machines (<[i := g m]> (machines d)) d) = f d) → keeps f (update_machine i g).
Proof. intros Hg d r d' H. unfold update_machine, machine_row in H. m_inv. by apply Hg. Qed.
Lemma freeze_keeps i b : keeps f (update_machine i (with_frozen b)).
Proof. apply update_machine_keeps. intros. by apply free_freeze. Qed.
Lemma with_endpoint_keeps i e : keeps f (update_machine i (with_endpoint e)).
Proof. apply update_machine_keeps. intros. by apply free_endpoint. Qed.
#[local] Hint Resolve insert_fact_keeps update_pstate_keeps unrevoked_keeps projected_keeps freeze_keeps with_endpoint_keeps : keeps.

Lemma planDiffFrom_keeps m x y g r : keeps f (planDiffFrom decode encode m x y g r).
Proof. unfold planDiffFrom. solve_keeps. Qed.
#[local] Hint Resolve planDiffFrom_keeps : keeps.
Lemma apply_basis_keeps i row ms : keeps f (apply_basis decode encode i row ms).
Proof. unfold apply_basis. solve_keeps. Qed.
Lemma adopt_basis_keeps i row ms : keeps f (adopt_basis i row ms).
Proof. unfold adopt_basis. solve_keeps. Qed.
#[local] Hint Resolve apply_basis_keeps adopt_basis_keeps : keeps.
Lemma createPlan_keeps ex i new q : keeps f (createPlan tick decode encode ex i new q).
Proof. unfold createPlan. solve_keeps. Qed.
Lemma insertPlan_keeps q i new m asr ms b t : keeps f (insertPlan q i new m asr ms b t).
Proof. unfold insertPlan. solve_keeps. Qed.
Lemma approvePlan_keeps plan new q : keeps f (approvePlan tick plan new q).
Proof. unfold approvePlan. solve_keeps. Qed.
Lemma approve_write_keeps plan new p l q : keeps f (approve_write tick plan new p l q).
Proof. unfold approve_write. solve_keeps. Qed.
Lemma revokeApproval_keeps i r q : keeps f (revokeApproval tick i r q).
Proof. unfold revokeApproval. solve_keeps. Qed.
Lemma revoke_write_keeps i r a st c q : keeps f (revoke_write tick i r a st c q).
Proof. unfold revoke_write. solve_keeps. Qed.
Lemma cancellable_keeps plan : keeps f (cancellable tick plan).
Proof. unfold cancellable. solve_keeps. Qed.
#[local] Hint Resolve cancellable_keeps : keeps.
Lemma cancelPlan_keeps l plan r q : keeps f (cancelPlan tick l plan r q).
Proof. unfold cancelPlan. solve_keeps. Qed.
Lemma cancel_write_keeps plan r p q : keeps f (cancel_write tick plan r p q).
Proof. unfold cancel_write. solve_keeps. Qed.
Lemma lock_target_keeps i q : keeps f (lock_target i q).
Proof. unfold lock_target. solve_keeps. Qed.
#[local] Hint Resolve lock_target_keeps : keeps.
Lemma lock_identities_keeps i q : keeps f (lock_identities i q).
Proof. unfold lock_identities. solve_keeps. Qed.
Lemma insert_identity_keeps q i r t l : keeps f (insert_identity_entries q i r t l).
Proof. induction l as [|[m ps] l IH]; simpl; solve_keeps. Qed.
Lemma identityEntries_keeps q i r t : keeps f (identityEntries q i r t).
Proof. unfold identityEntries. pose proof insert_identity_keeps. solve_keeps. Qed.
#[local] Hint Resolve lock_identities_keeps : keeps.
Lemma revokeIdentity_keeps i r q : keeps f (revokeIdentity tick i r q).
Proof. unfold revokeIdentity. solve_keeps. Qed.
Lemma setFreeze_keeps m r b q : keeps f (setFreeze tick m r b q).
Proof. unfold setFreeze. solve_keeps. Qed.
Lemma endpoint_keeps m e q : keeps f (replaceTalosEndpoint tick m e q).
Proof. unfold replaceTalosEndpoint. solve_keeps. Qed.
End Frames.
#[export] Hint Resolve insert_fact_keeps update_pstate_keeps unrevoked_keeps projected_keeps freeze_keeps with_endpoint_keeps
  createPlan_keeps insertPlan_keeps approvePlan_keeps approve_write_keeps revokeApproval_keeps revoke_write_keeps
  cancelPlan_keeps cancel_write_keeps lock_identities_keeps identityEntries_keeps revokeIdentity_keeps setFreeze_keeps endpoint_keeps : keeps.

(** ** The routes of this component *)

Section Acts.
Variable tick : Z → Z.
Variable decode : string → option (list node).
Variable encode : list node → option string.

Inductive governs : route → Prop :=
| gv_create ex i new : governs (planCreation tick decode encode ex i new)
| gv_approve plan new : governs (planApproval tick plan new)
| gv_revoke approval reason : governs (approvalRevocation tick approval reason)
| gv_cancel plan reason : governs (planCancellation tick plan reason)
| gv_identity target reason : governs (identityRevocations tick target reason)
| gv_freeze m reason : governs (machineFreeze tick m reason)
| gv_unfreeze m reason : governs (machineUnfreeze tick m reason)
| gv_endpoint m e : governs (endpointReplacement tick m e).

Ltac finish_effect :=
  split; [done|]; split; [done|]; simpl; intros q1 d1 q2 body d2 Hw;
  split; [by gov_inv|]; intros B f Hf;
  match type of Hw with ?m _ = _ => let Hk := fresh in assert (Hk : keeps f m) by solve_keeps; exact (Hk _ _ _ Hw) end.

(** What each effect returns: its request, its role at most changed, and a write that keeps what the
    acts leave alone. *)
Lemma governs_effect rt q d q' res d' :
  governs rt → rt_effect rt q d = Ok ((q', res), d') →
  (∀ B (f : Db → B), ActFree f → f d' = f d) ∧ same_caller q q' ∧ q_epoch q' = q_epoch q ∧
  ∀ q1 d1 q2 body d2, ef_write res q1 d1 = Ok ((q2, body), d2) →
    q2 = q1 ∧ ∀ B (f : Db → B), ActFree f → f d2 = f d1.
Proof.
  intros Hg H.
  assert (Hk : ∀ B (f : Db → B), ActFree f → keeps f (rt_effect rt q)).
  { intros B f Hf. destruct Hg; simpl; solve_keeps. }
  split; [intros B f Hf; by eapply Hk|]. 
  clear Hk. destruct Hg; simpl in H.
  - unfold createPlan in H. destruct (resolve_input ex i) as [i'|e]; gov_inv. finish_effect.
  - unfold approvePlan in H. gov_inv. unfold approve_write. finish_effect.
  - unfold revokeApproval in H. gov_inv. unfold revoke_write. finish_effect.
  - unfold cancelPlan in H. gov_inv. unfold cancel_write. finish_effect.
  - unfold revokeIdentity in H. gov_inv. finish_effect.
  - unfold setFreeze in H. gov_inv. finish_effect.
  - unfold setFreeze in H. gov_inv. finish_effect.
  - unfold replaceTalosEndpoint in H. gov_inv. finish_effect.
Qed.
Lemma governs_conforming rt : governs rt → Conforming rt.
Proof.
  intros Hg. split.
  - intros q d q' res d' H. destruct (governs_effect _ _ _ _ _ _ Hg H) as (Hf & Hc & _). split; [exact (Hf _ book _)|done].
  - intros q d q' res d1 q1 d2 q2 body d3 H Hw.
    destruct (governs_effect _ _ _ _ _ _ Hg H) as (_ & _ & _ & Hf). destruct (Hf _ _ _ _ _ Hw) as [-> Hk].
    split; [exact (Hk _ book _)|done].
Qed.

(** ** Each act as a move *)

Lemma plan_reads_cases p s rv ra t :
  let r := plan_reads p s rv ra t in
  r = s ∨ (r = Revoked ∧ s = Approved) ∨ (r = Expired ∧ s ∈ [Proposed; Approved]).
Proof.
  unfold plan_reads. simpl. case_match eqn:Hr.
  - right. left. split; [done|]. by apply andb_true_iff in Hr as [[Hs%bool_decide_eq_true _]%andb_true_iff _].
  - clear Hr. case_match eqn:He; [|by left]. right. right. split; [done|].
    apply andb_true_iff in He as [[Hs|Hs]%orb_true_iff _]; apply bool_decide_eq_true in Hs as ->; set_solver.
Qed.
Lemma projected_ok plan t d st :
  projected plan t d = Some st → ∃ s, pstates d !! plan = Some s ∧
    (st = ps_state s ∨ (st = Revoked ∧ ps_state s = Approved) ∨ (st = Expired ∧ ps_state s ∈ [Proposed; Approved])).
Proof.
  unfold projected. intros (s & Hs & (p & Hp & [= <-])%bind_Some)%bind_Some. exists s. split; [done|].
  apply plan_reads_cases.
Qed.

Lemma alter_ext_at {A} (f g : A → A) i (m : gmap string A) :
  (∀ x, m !! i = Some x → f x = g x) → alter f i m = alter g i m.
Proof.
  intros H. apply map_eq. intros j. destruct (decide (i = j)) as [->|]; [|by rewrite !lookup_alter_ne].
  rewrite !lookup_alter_eq. destruct (m !! j) eqn:Hm; [|done]. simpl. f_equal. by apply H.
Qed.
Lemma alter_id_at {A} (f : A → A) i (m : gmap string A) : (∀ x, m !! i = Some x → f x = x) → m = alter f i m.
Proof.
  intros H. apply map_eq. intros j. destruct (decide (i = j)) as [->|]; [|by rewrite lookup_alter_ne].
  rewrite lookup_alter_eq. destruct (m !! j) eqn:Hm; [|done]. simpl. f_equal. symmetry. by apply H.
Qed.

Lemma gmove_to ep u u' v : gmove ep u u' → u' = v → gmove ep u v.
Proof. by intros H <-. Qed.

Definition moves (rt : route) : Prop := ∀ q d q1 res d1 q2 body d2,
  q_epoch q = epoch d → rt_effect rt q d = Ok ((q1, res), d1) → ef_write res q1 d1 = Ok ((q2, body), d2) →
  authority_of d2 = authority_of d ∨ gmove (epoch d) (authority_of d) (authority_of d2).

Lemma create_moves ex i new : moves (planCreation tick decode encode ex i new).
Proof.
  intros q d q1 res d1 q2 body d2 He H Hw. simpl in H. unfold createPlan in H.
  destruct (resolve_input ex i) as [i'|e]; gov_inv. simpl in Hw. unfold insertPlan in Hw. gov_inv.
  assert (Hb : authority_of s0 = authority_of d).
  { match goal with H : (if _ then _ else _) d = Ok (_, s0) |- _ => revert H end.
    assert (Hk : keeps authority_of (if bool_decide (in_operation i' = "adopt") then adopt_basis i' a2 a3
       else apply_basis decode encode i' a2 a3)); [|by intros Hx; apply (Hk _ _ _ Hx)].
    unfold adopt_basis, apply_basis, planDiffFrom. solve_keeps. }
  right. rewrite <- Hb. unfold authority_of. simpl.
  match goal with H : _ || _ = false |- _ => apply orb_false_iff in H as [Hp%bool_decide_eq_false Hs%bool_decide_eq_false] end.
  apply (gm_create _ (authority_of s0)); by apply eq_None_not_Some.
Qed.

Lemma approve_moves plan new : moves (planApproval tick plan new).
Proof.
  intros q d q1 res d1 q2 body d2 He H Hw. simpl in H. unfold approvePlan in H. gov_inv. simpl in Hw.
  unfold approve_write in Hw. gov_inv. right.
  match goal with H : projected _ _ _ = Some _ |- _ => apply projected_ok in H as (s & Hs & Hst) end.
  rewrite !bool_decide_eq_false in *. simpl in *. simplify_eq.
  match goal with H : pstates d !! plan = Some ?x |- _ => rename x into s; apply (gm_approve _ (authority_of d) plan s new) end; simpl; try done.
  - unfold earlier_epoch in *. simpl in *. destruct (ps_approval s ≫= _) as [r|] eqn:Hr.
    + apply bind_Some in Hr as (b & Hb & Hr).
      destruct (ps_state s) eqn:Hps; [by left| |..]; (destruct Hst as [Hst|[[Hst Hst']|[Hst Hst']]]; subst; try done).
      right. split; [done|]. exists b, r. simpl in *. rewrite negb_false_iff, negb_true_iff in *.
      repeat case_bool_decide; try done. by rewrite He in *.
    + destruct (ps_state s) eqn:Hps; [by left| |..]; (destruct Hst as [Hst|[[Hst Hst']|[Hst Hst']]]; subst; try done).
  - by apply eq_None_not_Some.
  - intros b r Hb [Hp Hep]. rewrite He in *. 
    match goal with H : ¬ map_Exists _ _ |- _ => apply H end. by exists b, r.
Qed.
Lemma revocation_move_ok a s st current mv :
  st = ps_state s ∨ (st = Revoked ∧ ps_state s = Approved) ∨ (st = Expired ∧ ps_state s ∈ [Proposed; Approved]) →
  current = bool_decide (ps_state s = Approved ∧ ps_approval s = Some a) →
  revocation_move (ps_state s) st current = mv → revoked_to a s mv.
Proof.
  intros Hst -> <-. unfold revocation_move. destruct (decide (st = ps_state s)) as [->|Hne].
  - rewrite bool_decide_eq_true_2 by done. case_bool_decide as Hc; [|done]. left. split; [apply Hc|]. split; [done|set_solver].
  - rewrite (bool_decide_eq_false_2 _ Hne). destruct Hst as [->|[[-> Hs]|[-> Hs]]]; [done|..]; simpl.
    + left. split; [done|]. split; [done|set_solver].
    + right. done.
Qed.

Lemma revoke_moves approval reason : moves (approvalRevocation tick approval reason).
Proof.
  intros q d q1 res d1 q2 body d2 He H Hw. simpl in H. unfold revokeApproval in H. gov_inv. simpl in Hw.
  unfold revoke_write in Hw. gov_inv. right.
  match goal with H : projected _ _ _ = Some _ |- _ => apply projected_ok in H as (s' & Hs & Hst) end. simpl in *.
  rewrite !bool_decide_eq_false in *. simplify_eq.
  match goal with Hs : pstates d !! _ = Some ?x |- _ => rename x into s end.
  destruct (revocation_move _ _ _) as [[st why]|] eqn:Hmv; gov_inv; simpl in *;
    eapply (revocation_move_ok approval) in Hmv; try done.
  - by apply (gm_revoke _ (authority_of d) approval _ s (Some (st, why))).
  - eapply gmove_to; [by eapply (gm_revoke _ (authority_of d) approval _ s None 0)|].
    unfold authority_of. simpl. f_equal. symmetry. by apply alter_id_at.
Qed.

Lemma cancel_moves plan reason : moves (planCancellation tick plan reason).
Proof.
  intros q d q1 res d1 q2 body d2 He H Hw. simpl in H. unfold cancelPlan in H. gov_inv. simpl in Hw.
  unfold cancel_write in Hw. unfold cancellable in *. gov_inv. right.
  repeat match goal with H : projected _ _ _ = Some _ |- _ =>
    let s := fresh "s" in let Hs := fresh "Hs" in let Hst := fresh "Hst" in
    apply projected_ok in H as (s & Hs & Hst) end.
  simpl in *. rewrite !bool_decide_eq_false in *. simplify_eq.
  match goal with H : (if bool_decide (?st = _) then _ else _) _ = _, Hs : ?st = ps_state ?x ∨ _ |- _ =>
    rename x into s; assert (st = ps_state s) as -> by (destruct Hs as [?|[[-> _]|[-> _]]]; [done|set_solver..]);
    rename H into Hif end.
  eapply gmove_to.
  - eapply (gm_cancel _ (authority_of d) plan s (tick (tick (clock d)))); done.
  - case_bool_decide; gov_inv; unfold authority_of; simpl; f_equal.
    + symmetry. apply alter_id_at. intros x Hx. unfold cancelled_row. simplify_eq. by rewrite bool_decide_eq_true_2.
    + apply alter_ext_at. intros x Hx. unfold cancelled_row. simplify_eq. by rewrite bool_decide_eq_false_2.
Qed.

Lemma insert_identity_authority q i r t l : keeps authority_of (insert_identity_entries q i r t l).
Proof. induction l as [|[m ps] l IH]; simpl; solve_keeps. Qed.
Lemma identityEntries_authority q i r t : keeps authority_of (identityEntries q i r t).
Proof. unfold identityEntries. pose proof insert_identity_authority. solve_keeps. Qed.

(** Both principals' locks revoke the target alone. *)
Lemma lock_identities_ok target q d u d' :
  lock_identities target q d = Ok (u, d') →
  principals d !! target = Some false ∧ d' = set_principals (<[target := true]> (principals d)) d
  ∧ (target ≠ q_principal q → principals d !! q_principal q = Some false).
Proof.
  unfold lock_identities, lock_target. intros H.
  destruct (decide (target = q_principal q)) as [->|Hne]; [rewrite bool_decide_eq_true_2 in H by done|
    rewrite bool_decide_eq_false_2 in H by done; destruct (String.leb _ _)]; gov_inv; split_and!; try done.
  intros _. simpl in *. by rewrite lookup_insert_ne in * by done.
Qed.

Lemma identity_moves target reason : moves (identityRevocations tick target reason).
Proof.
  intros q d q1 res d1 q2 body d2 He H Hw. simpl in H. unfold revokeIdentity in H. gov_inv. simpl in Hw. gov_inv.
  match goal with H : lock_identities _ _ _ = _ |- _ => apply lock_identities_ok in H as (Hp & -> & _) end.
  match goal with H : identityEntries _ _ _ _ _ = _ |- _ => apply identityEntries_authority in H as -> end.
  right. simpl in *. rewrite bool_decide_eq_false in *. apply (gm_identity _ (authority_of d)); [done|].
  by apply eq_None_not_Some.
Qed.

Lemma machine_moves rt :
  (∃ m r b, rt_effect rt = setFreeze tick m r b) ∨ (∃ m e, rt_effect rt = replaceTalosEndpoint tick m e) → moves rt.
Proof.
  intros [(m & r & b & Hr)|(m & e & Hr)] q d q1 res d1 q2 body d2 He H Hw; rewrite Hr in H;
    [unfold setFreeze in H|unfold replaceTalosEndpoint in H]; gov_inv; simpl in Hw; gov_inv; by left.
Qed.

Lemma governs_moves rt : governs rt → moves rt.
Proof.
  intros [ex i new|plan new|approval reason|plan reason|target reason|m reason|m reason|m e].
  - apply create_moves.
  - apply approve_moves.
  - apply revoke_moves.
  - apply cancel_moves.
  - apply identity_moves.
  - apply machine_moves. left. by eexists _, _, _.
  - apply machine_moves. left. by eexists _, _, _.
  - apply machine_moves. right. by eexists _, _.
Qed.
End Acts.
