(* ===== verification/Adoption.v ===== *)
(** * Adoption: an approved adopt plan recorded as the machine's Applied ([internal/api/adoption.go])
    and the loop that records them ([adopter.go]).

    [adoptionTx] is cut as [Commit] is: what it reads under its locks, the requirements 4.1 to 4.5 as
    pure comparisons in the code's order, and the writes. *)

From stdpp Require Import sorting.
From S2P Require Import Prelude Store World Evidence Commit Observe.

(** ** The requirements *)

Record adoption_read := AdoptionRead {
  dr_current : string; dr_recovery : bool; dr_plan : plan; dr_machine : machine; dr_mstate : machine_state;
  dr_open : bool; dr_head : option string; dr_pstate : plan_state; dr_approval : option approval;
  dr_revoked : option bool; dr_rev_at : option Z; dr_holding : bool; dr_refused : bool }.

(** 4.1 to 4.3: no operation yet, the approval in force, and the bound values unmoved. *)
Definition adoption_plan_check (c : adoption_read) (t : Z) : option err :=
  let p := dr_plan c in
  let refuse cmp cause := Some (EAdoptionRefused (p_machine p) cmp cause) in
  let state := ps_state (dr_pstate c) in
  let reads := plan_reads p state (dr_revoked c) (dr_rev_at c) t in
  if bool_decide (is_Some (ps_operation (dr_pstate c))) || bool_decide (state = PCommitted) then Some EAlreadyAdopted
  else if dr_refused c then Some EAlreadyRefused
  else if bool_decide (reads = Expired) then refuse "4.2" "the plan has expired"
  else if bool_decide (reads = Revoked) && bool_decide (state = Approved)
  then refuse "4.2" "the approver's identity is revoked"
  else if negb (bool_decide (reads = Approved)) then refuse "4.2" ("the plan is " +:+ plan_text reads)
  else if negb (bool_decide (default "" (ap_epoch <$> dr_approval c) = dr_current c))
  then refuse "4.2" "the approval is of an earlier epoch"
  else if negb (bool_decide (dr_head c = Some (p_assignment p)))
  then refuse "4.3" "the machine's assignment revision changed"
  else if negb (bool_decide (ms_desired (dr_mstate c) = p_desired p))
  then refuse "4.3" "the machine's Desired release changed"
  else if bool_decide (p_drift p = None) && bool_decide (is_Some (ms_applied (dr_mstate c)))
  then refuse "4.3" "the machine has an Applied release"
  else if bool_decide (is_Some (p_drift p)) && negb (dr_open c)
  then refuse "4.3" "the bound drift record is closed"
  else if negb (bool_decide (ms_baseline (dr_mstate c) = p_baseline p))
  then refuse "4.3" "the machine's baseline revision changed"
  else None.

(** 4.4's evidence: the machine's observation with the highest basis, the time of its start entry, the
    machine and cluster it is of and the baseline's digest. *)
Record adoption_evidence := AdoptionEvidence {
  ae_obs : observation; ae_started : Z; ae_machine : machine; ae_talos : string; ae_baseline : string }.
Definition adoption_evidence_of (machine release : string) (d : Db) : option adoption_evidence :=
  max_by (λ e, o_basis (ae_obs e)) (omap (λ o,
    e ← event_of (o_machine o) (o_basis o) d; m ← machines d !! o_machine o; c ← clusters d !! m_cluster m;
    row ← artifacts d !! (release, o_machine o); b ← base_digests (prov d) !! rm_base row;
    if bool_decide (o_machine o = machine) then Some (AdoptionEvidence o (e_at e) m c b) else None) (observations d)).

Definition unread_adoption (o : observation) : list string :=
  filter (λ k, k ∈ o_unread o) ["assignmentEvidence"; "configuration"; "identity"].

Definition adoption_evidence_check (c : adoption_read) (ev : option adoption_evidence) (t : Z) : option err :=
  let refuse cause := Some (EAdoptionRefused (p_machine (dr_plan c)) "4.4" cause) in
  match ev with
  | None => Some (ENoEvidence "the machine has no recorded observation")
  | Some e =>
      let o := ae_obs e in
      if negb (bool_decide (unread_adoption o = [])) then Some (ENoEvidence "the observation left a value unread")
      else if o_basis o <=? default 0 (ap_revision <$> dr_approval c)
      then Some (ENoEvidence "the observation began before the approval")
      else if duration_of_micros (p_max_age (dr_plan c)) <? time_sub t (ae_started e)
      then Some (ENoEvidence "the observation is older than the plan allows")
      else if negb (identityMatch (ae_machine e) (ae_talos e) o)
      then refuse "the latest observation shows another machine identity"
      else if negb (bool_decide (o_digest o = Some (ae_baseline e)))
      then refuse "the latest observation's configuration digest is not the baseline's"
      else if negb (bool_decide (o_assignment o = Some (p_assignment (dr_plan c))))
      then refuse "the latest observation shows another assignment revision"
      else None
  end.

(** 4.5: nothing holds the scope, and it is open; a freeze does not close it. *)
Definition adoption_scope_check (c : adoption_read) : option err :=
  let refuse cause := Some (EAdoptionRefused (p_machine (dr_plan c)) "4.5" cause) in
  let scope := m_scope (dr_machine c) in
  if dr_holding c then refuse "an operation holds the machine scope"
  else if negb (bool_decide (scope = "normal")) && negb (bool_decide (scope = "released"))
  then refuse ("the machine scope is " +:+ scope)
  else if dr_recovery c && negb (bool_decide (scope = "released"))
  then refuse "recovery mode is in effect and the scope is not released"
  else None.

Section Adoption.
Variable others : nat → Db → Db.
Variable fresh_id : nat → string.
Variable tick : Z → Z.
Variable ptick : Z → Z.
Variable a : api.
Variable lease : Z.

Definition any_active (machine : string) (d : Db) : bool :=
  bool_decide (map_Exists (λ _ o, op_machine o = Some machine ∧ active (op_st o) = true) (ops d)).
Definition refused_before (machine plan : string) (d : Db) : bool :=
  has_event machine (λ _ e, match e with EvRefusal _ _ q _ _ _ _ _ => bool_decide (q = plan) | _ => false end) d.
Definition drift_row (machine : string) (opened : Z) (d : Db) : option drift_record :=
  find (λ r, bool_decide (d_machine r = machine) && bool_decide (d_opened r = opened)) (drifts d).

Definition adoption_locks (plan : string) : Tx adoption_read :=
  current ← gets epoch; rec ← gets recovery;
  failIf (negb (bool_decide (current = owner_epoch a))) ENotController;;
  p ← plan_row plan;
  failIf (negb (bool_decide (p_kind p = KAdopt))) EWrongKind;;
  m ← machine_row (p_machine p);
  ms ← mstate_row (p_machine p);
  open_ ← (match p_drift p with
           | Some r => x ← getsOr (drift_row (p_machine p) r) (ENoRows "drift_record"); mret (bool_decide (d_closed x = None))
           | None => mret false end);
  head ← gets (λ d, heads d !! p_machine p);
  s ← pstate_row plan;
  ap ← (match ps_approval s with
        | Some i => x ← getsOr (λ d, approvals d !! i) (ENoRows "approval"); mret (Some x)
        | None => mret None end);
  revoked ← gets (λ d, ap ≫= λ x, principals d !! ap_approver x);
  rev_at ← gets (λ d, ap ≫= λ x, id_revoked d !! ap_approver x);
  holding ← gets (any_active (p_machine p));
  refused ← gets (refused_before (p_machine p) plan);
  mret (AdoptionRead current rec p m ms open_ head s ap revoked rev_at holding refused).

(** The baseline's digest in force, from the release adopted, at the next baseline revision. *)
Definition adopted_state (release baseline : string) (s : machine_state) : machine_state :=
  MachineState (ms_revision s + 1) (Some release) (Some release) (Some baseline) (Some "adoption")
    (Some (default 0 (ms_baseline s) + 1)).
Definition counted_twice (m : machine) : machine :=
  Machine (m_cluster m) (m_scope m) (m_frozen m) (m_counter m + 2) (m_smbios m) (m_node m) (m_endpoint m).

(** The writes of an adoption that passed: the completed operation, its record, the plan's state,
    Applied and its entry, and a bound drift record closed. *)
Definition adoption_record (plan op : string) (c : adoption_read) (obs baseline : string) (t : Z) : Tx Z :=
  let p := dr_plan c in let m := p_machine p in
  let approval := str (ps_approval (dr_pstate c)) in
  row ← machine_row m;
  modify (λ d, set_machines (<[m := counted_twice row]> (machines d)) d);;
  let rev := m_counter row + 1 in
  insert_event m rev (dr_current c) (EvAdoption plan op approval obs (owner_id a)) t;;
  dup ← gets (λ d, bool_decide (is_Some (ops d !! op)));
  failIf dup (EDuplicate "operation");;
  modify (λ d, set_ops (<[op := Operation (next_seq d) KAdopt Completed (dr_current c) None 0 None (Some plan)
    (Some m) (Some (p_cluster p)) t (Some [("adoptionRecord", JStr plan)]) None]> (ops d)) d);;
  modify (λ d, let r := rlog d in set_rlog (RecoveryLog (epochs r) (scope_accountings r) (scope_releases r) (exits r)
    (claims r) (ingests r) (op_events r) (facts r ++ [FAdoption plan m op approval obs t rev baseline])) d);;
  modify (λ d, set_pstates (alter (λ s, PlanState PCommitted (ps_approval s) (Some op) (ps_revision s + 1) t (ps_reason s))
    plan (pstates d)) d);;
  modify (λ d, set_mstates (alter (adopted_state (p_release p) baseline) m (mstates d)) d);;
  insert_event m (rev + 1) (dr_current c)
    (EvAppliedChange (ms_applied (dr_mstate c)) (p_release p) baseline "adoption" plan op) t;;
  match p_drift p with
  | None => mret rev
  | Some r =>
      closed ← driftEntry tick m (dr_current c) r "closed" (Some "adopted") obs None;
      modify (update_drift m r (drift_closed closed "adopted"));;
      mret rev
  end.

(** [adoptionTx] with the operation's new id: the operation, its evidence and the entry's revision. *)
Definition adoptionTx (plan op : string) : Tx (string * string * Z) :=
  c ← adoption_locks plan;
  t ← clock_timestamp tick;
  reject (adoption_plan_check c t);;
  ev ← gets (adoption_evidence_of (p_machine (dr_plan c)) (p_release (dr_plan c)));
  reject (adoption_evidence_check c ev t);;
  reject (adoption_scope_check c);;
  e ← getsOr (λ _, ev) (ENoRows "observation");
  rev ← adoption_record plan op c (o_id (ae_obs e)) (ae_baseline e) t;
  mret (op, o_id (ae_obs e), rev).

(** [commitAdoption]: the transaction and, after a refusal, the refusal's own, recorded once. *)
Definition commitAdoption (plan : string) : Act (string * string * Z) :=
  if bool_decide (owner_id a = "") then fail ENotController else
  op ← new_id fresh_id;
  r ← attempt_of (inTx others (adoptionTx plan op));
  match r with
  | Ok c => mret c
  | Err (EAdoptionRefused m cmp cause as e) =>
      rr ← attempt_of (inTx others (recordRefusalEntry tick a m plan cmp cause "" EAlreadyAdopted true false));
      match rr with Ok _ => fail e | Err e' => fail e' end
  | Err e => fail e
  end.

(** ** The loop *)

Definition adopt_candidate (current : string) (t : Z) (d : Db) (id : string) (p : plan) : bool :=
  match pstates d !! id, machines d !! p_machine p with
  | Some s, Some m =>
      match ps_approval s ≫= λ i, approvals d !! i with
      | Some ap =>
          bool_decide (p_kind p = KAdopt) && bool_decide (ps_state s = Approved) && (t <? p_expires p)
          && bool_decide (principals d !! ap_approver ap = Some false) && bool_decide (ap_epoch ap = epoch d)
          && bool_decide (epoch d = current) && bool_decide (m_scope m ∈ ["normal"; "released"])
          && negb (recovery d && negb (bool_decide (m_scope m = "released")))
          && negb (any_active (p_machine p) d) && negb (refused_before (p_machine p) id d)
      | None => false
      end
  | _, _ => false
  end.
Definition plan_before (x y : string * string) : Prop := String.leb x.1 y.1 = true.
#[export] Instance plan_before_dec : RelDecision plan_before.
Proof. intros x y. unfold plan_before. apply _. Defined.
Definition adopt_candidates (current : string) (t : Z) (d : Db) : list (string * string) :=
  merge_sort plan_before (omap (λ ip, if adopt_candidate current t d ip.1 ip.2 then Some (ip.1, p_machine ip.2) else None)
    (map_to_list (plans d))).
Definition adoptCandidates : Act (list (string * string)) :=
  current ← query others epoch;
  if negb (bool_decide (current = owner_epoch a)) then fail ENotController else
  inTx others (t ← clock_timestamp tick; gets (adopt_candidates current t)).

(** [adoptOne]: an evidence observation for the plan, then its adoption. *)
Definition adoptOne (plan machine : string) : Act unit :=
  observe others fresh_id tick a machine (ObserveFor PEvidence plan "" None false);;
  commitAdoption plan;; mret tt.

(** [adoptPass]'s candidates: whether the loop goes on, and the retry times. *)
Fixpoint adopt_each (cs : list (string * string)) (retry : gmap string Z) : Act (bool * gmap string Z) :=
  match cs with
  | [] => mret (true, retry)
  | (plan, machine) :: cs =>
      t ← now ptick;
      if match retry !! plan with Some at_ => t <? at_ | None => false end then adopt_each cs retry else
      let retry := delete plan retry in
      r ← attempt_of (adoptOne plan machine);
      match r with
      | Ok _ | Err (EAdoptionRefused _ _ _) | Err EAlreadyAdopted | Err EAlreadyRefused => adopt_each cs retry
      | Err ECancelled | Err ENotController => mret (false, retry)
      | Err _ => t ← now ptick; adopt_each cs (<[plan := t + lease]> retry)
      end
  end.
Definition adoptPass (retry : gmap string Z) : Act (bool * gmap string Z) :=
  cs ← attempt_of adoptCandidates;
  match cs with
  | Err ECancelled | Err ENotController => mret (false, retry)
  | Err _ => mret (true, retry)
  | Ok cs =>
      go ← adopt_each cs retry;
      if negb go.1 then mret go else
      t ← now ptick; mret (true, filter (λ kt, t < kt.2) go.2)
  end.
(** [adoptLoop]: a pass at its start and after each of [wakes] wakes, until one ends it. *)
Fixpoint adopt_passes (wakes : nat) (retry : gmap string Z) : Act (gmap string Z) :=
  go ← adoptPass retry;
  match wakes with
  | O => mret go.2
  | S n => if go.1 : bool then adopt_passes n go.2 else mret go.2
  end.
Definition adoptLoop (wakes : nat) : Act (gmap string Z) := adopt_passes wakes ∅.
End Adoption.
