(* ===== verification/Governed.v ===== *)
(** * The governed system: the execution core's transactions, the governing acts' requests and the
    adoptions against one store, as moves of the [Authority] machine and steps of [System]. *)

From stdpp Require Import relations.
From S2P Require Import Prelude Store World Evidence Commit Attempt Outcome Settle CommitSpec Lifecycle.
From S2P Require Import Lifecycle Refinement System Request RequestSpec IngestPath Governance Authority GovernanceSpec Adoption.

(** ** The core's transactions leave authority alone *)

Section Kept.
Context {B : Type} (f : Db → B).
Variable tick : Z → Z.
Variable a : api.

(** What reads neither the execution core's tables nor the timeline. *)
Class CoreFree : Prop := {
  #[global] core_drift :: DriftFree f;
  free_ops : ∀ x d, f (set_ops x d) = f d;
  free_responses : ∀ x d, f (set_responses x d) = f d;
  free_accountings : ∀ x d, f (set_accountings x d) = f d;
  free_classifications : ∀ x d, f (set_classifications x d) = f d;
  free_mstates : ∀ x d, f (set_mstates x d) = f d }.
Context `{!CoreFree}.
#[local] Hint Resolve free_ops free_responses free_accountings free_classifications free_mstates : act_free.
#[local] Hint Extern 2 (keeps _ (modify (update_op _ _))) =>
  apply keeps_modify; intros; apply free_ops : keeps.

Lemma recordRefusalEntry_kept machine plan cmp cause obs already once drift :
  keeps f (recordRefusalEntry tick a machine plan cmp cause obs already once drift).
Proof. unfold recordRefusalEntry. solve_keeps. Qed.
Lemma lockOperationAs_kept op tk : keeps f (lockOperationAs a op tk).
Proof. unfold lockOperationAs. solve_keeps. Qed.
#[local] Hint Resolve lockOperationAs_kept : keeps.
Lemma lockOperation_kept op : keeps f (lockOperation a op).
Proof. apply lockOperationAs_kept. Qed.
#[local] Hint Resolve lockOperation_kept : keeps.
Lemma moveOperation_kept l to_ cause r x : keeps f (Outcome.moveOperation tick a l to_ cause r x).
Proof. unfold Outcome.moveOperation. solve_keeps. Qed.
Lemma classify_kept l out obs relied gen : keeps f (classify tick a l out obs relied gen).
Proof. unfold classify. solve_keeps. Qed.
#[local] Hint Resolve moveOperation_kept classify_kept : keeps.
Lemma classifyObserved_kept l out obs rev gen : keeps f (classifyObserved tick a l out obs rev gen).
Proof. unfold classifyObserved. solve_keeps. Qed.
#[local] Hint Resolve classifyObserved_kept : keeps.
Lemma takeOverTx_kept op gen reason : keeps f (takeOverTx tick a op gen reason).
Proof. unfold takeOverTx. solve_keeps. Qed.
Lemma response_record_kept l t resp : keeps f (response_record tick a l t resp).
Proof. unfold response_record. solve_keeps. Qed.
#[local] Hint Resolve response_record_kept : keeps.
Lemma recordResponseTx_kept att resp : keeps f (recordResponseTx tick a att resp).
Proof. unfold recordResponseTx. solve_keeps. Qed.
Lemma settled_kept m deadline anchor start end_ expl : keeps f (settled a m deadline anchor start end_ expl).
Proof. unfold settled. solve_keeps. Qed.
#[local] Hint Resolve settled_kept : keeps.
Lemma accountByDecision_kept att by_ act start end_ expl : keeps f (accountByDecision tick a att by_ act start end_ expl).
Proof. unfold accountByDecision. solve_keeps. Qed.
Lemma safeToRetry_kept l n s : keeps f (safeToRetry tick l n s).
Proof. unfold safeToRetry. solve_keeps. Qed.
Lemma complete_kept l obs rev gen : keeps f (complete tick a l obs rev gen).
Proof. unfold complete. solve_keeps. Qed.
Lemma fail_operation_kept l obs rev gen n : keeps f (fail_operation tick a l obs rev gen n).
Proof. unfold fail_operation. solve_keeps. Qed.
#[local] Hint Resolve safeToRetry_kept complete_kept fail_operation_kept : keeps.
Lemma settle_contradicted_kept l obs gen n s : keeps f (settle_contradicted tick a l obs gen n s).
Proof. unfold settle_contradicted. solve_keeps. Qed.
Lemma settle_neither_kept l s deadline : keeps f (settle_neither tick a l s deadline).
Proof. unfold settle_neither. solve_keeps. Qed.
#[local] Hint Resolve settle_contradicted_kept settle_neither_kept : keeps.
Lemma settleOperationTx_kept op gen obs : keeps f (settleOperationTx tick a op gen obs).
Proof. unfold settleOperationTx. solve_keeps. Qed.
Lemma attempt_locks_kept op : keeps f (attempt_locks a op).
Proof. unfold attempt_locks. solve_keeps. Qed.
Lemma send_write_kept op gen : keeps f (send_write a op gen).
Proof. unfold send_write. solve_keeps. Qed.
#[local] Hint Resolve attempt_locks_kept send_write_kept : keeps.
Lemma settle_move_kept machine op current gen from to_ cmp cause :
  keeps f (settle_move tick a machine op current gen from to_ cmp cause).
Proof. unfold settle_move. solve_keeps. Qed.
#[local] Hint Resolve settle_move_kept : keeps.
Lemma settle_dead_kept machine plan op current gen t : keeps f (settle_dead tick a machine plan op current gen t).
Proof. unfold settle_dead. solve_keeps. Qed.
#[local] Hint Resolve settle_dead_kept : keeps.
Lemma settleAttemptRefusal_kept machine plan op gen cmp cause obs :
  keeps f (settleAttemptRefusal tick a machine plan op gen cmp cause obs).
Proof. unfold settleAttemptRefusal. solve_keeps. Qed.
Context (free_attempts : ∀ x d, f (set_attempts x d) = f d).
#[local] Hint Resolve free_attempts : act_free.
Lemma attempt_record_kept op att gen r obs cls made t : keeps f (attempt_record a op att gen r obs cls made t).
Proof. unfold attempt_record. solve_keeps. Qed.
#[local] Hint Resolve attempt_record_kept : keeps.
Lemma recordAttemptTx_kept op att gen : keeps f (recordAttemptTx tick a op att gen).
Proof. unfold recordAttemptTx. solve_keeps. Qed.
End Kept.
#[export] Instance authority_core_free : CoreFree authority_of.
Proof. by repeat split. Qed.
#[export] Instance attempts_core_free : CoreFree attempts.
Proof. by repeat split. Qed.

(** ** A commitment and an adoption as moves *)

Lemma insert_as_alter {A} (f : A → A) i x (m : gmap string A) : m !! i = Some x → <[i := f x]> m = alter f i m.
Proof.
  intros Hx. apply map_eq. intros j. destruct (decide (i = j)) as [->|]; [|by rewrite lookup_insert_ne, lookup_alter_ne].
  by rewrite lookup_insert_eq, lookup_alter_eq, Hx.
Qed.

Section Moves.
Variable tick : Z → Z.
Variable a : api.

(** An approved state whose approval reads as of the current epoch is in force. *)
Lemma in_force u d s i ap :
  u = authority_of d → authority_inv u → pstates d !! i = Some s → ps_state s = Approved →
  ap = (ps_approval s ≫= λ b, approvals d !! b) → default "" (ap_epoch <$> ap) = epoch d → approved_in (epoch d) s u.
Proof.
  intros -> Hinv Hs Hst -> He. split; [done|]. destruct (ai_checks _ Hinv i s Hs) as (_ & Hap & _).
  destruct (proj2 Hap) as [b Hb]; [rewrite Hst; set_solver|].
  destruct (ai_approval _ Hinv i s b Hs Hb) as (r & Hr & _). exists b, r. split; [done|]. split; [done|].
  by rewrite Hb in He; simpl in *; rewrite Hr in He.
Qed.

Lemma commit_moves plan op d r d' :
  opts a = production → authority_inv (authority_of d) → commitTx tick a plan op d = Ok (r, d') →
  gmove (epoch d) (authority_of d) (authority_of d').
Proof.
  intros Hprod Hinv H. apply commitTx_ok in H as (x & Hx & _ & ->); [|done].
  destruct (com_reads _ _ _ _ _ _ Hx) as (_ & _ & _ & _ & _ & _ & _ & _ & _ & _ & Hs & Hap & _).
  eapply gmove_to; [eapply (gm_commit _ (authority_of d) plan _ op (tick (clock d))); [exact Hs|]|].
  - by eapply in_force, Hx; [..|apply Hx|].
  - unfold authority_of. simpl. f_equal. symmetry. by apply (insert_as_alter (committed_row op (tick (clock d)))).
Qed.

Lemma adoption_locks_ok plan d c d' :
  adoption_locks a plan d = Ok (c, d') →
  d' = d ∧ epoch d = owner_epoch a ∧ dr_current c = epoch d ∧ plans d !! plan = Some (dr_plan c) ∧ p_kind (dr_plan c) = KAdopt
  ∧ machines d !! p_machine (dr_plan c) = Some (dr_machine c) ∧ pstates d !! plan = Some (dr_pstate c)
  ∧ dr_approval c = (ps_approval (dr_pstate c) ≫= λ i, approvals d !! i) ∧ dr_head c = heads d !! p_machine (dr_plan c)
  ∧ mstates d !! p_machine (dr_plan c) = Some (dr_mstate c) ∧ dr_recovery c = recovery d
  ∧ dr_revoked c = (dr_approval c ≫= λ x, principals d !! ap_approver x)
  ∧ dr_rev_at c = (dr_approval c ≫= λ x, id_revoked d !! ap_approver x)
  ∧ dr_holding c = any_active (p_machine (dr_plan c)) d ∧ dr_refused c = refused_before (p_machine (dr_plan c)) plan d.
Proof.
  unfold adoption_locks. intros H.
  gov_inv; destruct (p_drift _) as [dr|]; gov_inv; destruct (ps_approval _) as [i|] eqn:Hap; gov_inv; simpl;
    rewrite ?Hap; simpl; split_and!; eauto.
Qed.

Lemma adoption_plan_check_ok c t :
  adoption_plan_check c t = None ↔
  ps_operation (dr_pstate c) = None ∧ ps_state (dr_pstate c) = Approved ∧ dr_refused c = false
  ∧ t < p_expires (dr_plan c) ∧ default "" (ap_epoch <$> dr_approval c) = dr_current c
  ∧ (default false (dr_revoked c) = true → ∃ r, dr_rev_at c = Some r ∧ p_expires (dr_plan c) ≤ r)
  ∧ dr_head c = Some (p_assignment (dr_plan c)) ∧ ms_desired (dr_mstate c) = p_desired (dr_plan c)
  ∧ (p_drift (dr_plan c) = None → ms_applied (dr_mstate c) = None) ∧ (is_Some (p_drift (dr_plan c)) → dr_open c = true)
  ∧ ms_baseline (dr_mstate c) = p_baseline (dr_plan c).
Proof.
  unfold adoption_plan_check, plan_reads.
  destruct (ps_operation (dr_pstate c)) as [x|]; [rewrite bool_decide_true by eauto; naive_solver|].
  rewrite (bool_decide_false (is_Some None)) by (by intros [? [=]]). simpl.
  destruct (ps_state (dr_pstate c)); simpl; try (repeat case_match; naive_solver).
  destruct (dr_refused c); [naive_solver|].
  destruct (Z.leb_spec (p_expires (dr_plan c)) t).
  { split; [repeat case_match; done|]. intros (_ & _ & _ & ? & _). lia. }
  assert (Hrest : ∀ b : bool, (if b then Some (EAdoptionRefused (p_machine (dr_plan c)) "4.2" "the approver's identity is revoked") else
     if negb (bool_decide (default "" (ap_epoch <$> dr_approval c) = dr_current c))
     then Some (EAdoptionRefused (p_machine (dr_plan c)) "4.2" "the approval is of an earlier epoch")
     else if negb (bool_decide (dr_head c = Some (p_assignment (dr_plan c))))
     then Some (EAdoptionRefused (p_machine (dr_plan c)) "4.3" "the machine's assignment revision changed")
     else if negb (bool_decide (ms_desired (dr_mstate c) = p_desired (dr_plan c)))
     then Some (EAdoptionRefused (p_machine (dr_plan c)) "4.3" "the machine's Desired release changed")
     else if bool_decide (p_drift (dr_plan c) = None) && bool_decide (is_Some (ms_applied (dr_mstate c)))
     then Some (EAdoptionRefused (p_machine (dr_plan c)) "4.3" "the machine has an Applied release")
     else if bool_decide (is_Some (p_drift (dr_plan c))) && negb (dr_open c)
     then Some (EAdoptionRefused (p_machine (dr_plan c)) "4.3" "the bound drift record is closed")
     else if negb (bool_decide (ms_baseline (dr_mstate c) = p_baseline (dr_plan c)))
     then Some (EAdoptionRefused (p_machine (dr_plan c)) "4.3" "the machine's baseline revision changed") else None) = None ↔
    b = false ∧ default "" (ap_epoch <$> dr_approval c) = dr_current c ∧ dr_head c = Some (p_assignment (dr_plan c))
    ∧ ms_desired (dr_mstate c) = p_desired (dr_plan c) ∧ (p_drift (dr_plan c) = None → ms_applied (dr_mstate c) = None)
    ∧ (is_Some (p_drift (dr_plan c)) → dr_open c = true) ∧ ms_baseline (dr_mstate c) = p_baseline (dr_plan c)).
  { intros []; [naive_solver|]. rewrite (eq_None_not_Some (ms_applied _)). destruct (dr_open c), (p_drift (dr_plan c));
      repeat case_bool_decide; simpl; naive_solver. }
  destruct (default false (dr_revoked c)); simpl.
  - destruct (dr_rev_at c) as [r|]; simpl; [destruct (Z.ltb_spec r (p_expires (dr_plan c))); simpl|].
    + split; [done|]. intros (_&_&_&_&_&Hr&_). destruct Hr as (? & [= <-] & ?); [done|lia].
    + rewrite (Hrest false). naive_solver.
    + naive_solver.
  - rewrite (Hrest false). naive_solver.
Qed.

(** An adoption's writes: the operation, completed, and the plan's state along the commit. *)
Lemma adoption_record_ok plan op c obs b t d r d' :
  adoption_record tick a plan op c obs b t d = Ok (r, d') →
  ops d !! op = None ∧ (∃ o, ops d' = <[op := o]> (ops d) ∧ op_kind_of o = KAdopt ∧ checks_ok o)
  ∧ plans d' = plans d ∧ attempts d' = attempts d ∧ responses d' = responses d ∧ accountings d' = accountings d
  ∧ classifications d' = classifications d ∧ pstates d' = alter (committed_row op t) plan (pstates d)
  ∧ approvals d' = approvals d ∧ cancellations d' = cancellations d ∧ approval_revocations d' = approval_revocations d
  ∧ principals d' = principals d ∧ id_revoked d' = id_revoked d ∧ epoch d' = epoch d.
Proof.
  unfold adoption_record, driftEntry, nextEntry. intros H. destruct (p_drift _) as [dr|]; gov_inv; simpl;
    rewrite bool_decide_eq_false in *; (split_and!; try done; [by apply eq_None_not_Some|]); (eexists; split; [done|]; split; [done|]);
    (split_and!; simpl; try done; by split; intros [? [=]]).
Qed.
(** What it makes of the machine's state, and of a bound drift record. *)
Lemma adoption_record_state plan op c obs b t d r d' :
  adoption_record tick a plan op c obs b t d = Ok (r, d') →
  mstates d' = alter (adopted_state (p_release (dr_plan c)) b) (p_machine (dr_plan c)) (mstates d)
  ∧ ∃ closed, drifts d' = match p_drift (dr_plan c) with
      | Some o => drifts (update_drift (p_machine (dr_plan c)) o (drift_closed closed "adopted") d)
      | None => drifts d end.
Proof.
  unfold adoption_record, driftEntry, nextEntry. intros H. destruct (p_drift _) as [dr|]; gov_inv; simpl; (split; [done|]).
  - by eexists.
  - by exists 0.
Qed.
Lemma adoption_evidence_ok c ev t :
  adoption_evidence_check c ev t = None ↔ ∃ e, ev = Some e ∧ unread_adoption (ae_obs e) = []
    ∧ default 0 (ap_revision <$> dr_approval c) < o_basis (ae_obs e)
    ∧ time_sub t (ae_started e) ≤ duration_of_micros (p_max_age (dr_plan c))
    ∧ identityMatch (ae_machine e) (ae_talos e) (ae_obs e) = true
    ∧ o_digest (ae_obs e) = Some (ae_baseline e) ∧ o_assignment (ae_obs e) = Some (p_assignment (dr_plan c)).
Proof.
  unfold adoption_evidence_check. destruct ev as [e|]; [|naive_solver].
  case_bool_decide; simpl; [|naive_solver].
  destruct (Z.leb_spec (o_basis (ae_obs e)) (default 0 (ap_revision <$> dr_approval c)));
    [split; [done|]; intros (? & [= <-] & _ & ? & _); lia|].
  destruct (Z.ltb_spec (duration_of_micros (p_max_age (dr_plan c))) (time_sub t (ae_started e)));
    [split; [done|]; intros (? & [= <-] & _ & _ & ? & _); lia|].
  destruct (identityMatch _ _ _) eqn:?; repeat case_bool_decide; simpl; naive_solver congruence.
Qed.
Lemma adoption_scope_ok c :
  adoption_scope_check c = None ↔ dr_holding c = false ∧ (m_scope (dr_machine c) = "released" ∨ m_scope (dr_machine c) = "normal" ∧ dr_recovery c = false).
Proof.
  unfold adoption_scope_check. destruct (dr_holding c), (dr_recovery c); repeat case_bool_decide; simpl; naive_solver congruence.
Qed.
Lemma adoptionTx_ok plan op d r d' :
  adoptionTx tick a plan op d = Ok (r, d') →
  ∃ c e t, adoption_locks a plan d = Ok (c, d) ∧ t = tick (clock d) ∧ adoption_plan_check c t = None
    ∧ adoption_evidence_of (p_machine (dr_plan c)) (p_release (dr_plan c)) (set_clock t d) = Some e
    ∧ adoption_evidence_check c (Some e) t = None ∧ adoption_scope_check c = None
    ∧ adoption_record tick a plan op c (o_id (ae_obs e)) (ae_baseline e) t (set_clock t d) = Ok (r.2, d')
    ∧ r.1 = (op, o_id (ae_obs e)).
Proof.
  unfold adoptionTx. intros H. m_inv.
  match goal with H : adoption_locks _ _ _ = Ok (?c, _) |- _ => pose proof H as Hl; apply adoption_locks_ok in Hl as [-> _] end.
  timeline_inv. eexists _, _, _. split_and!; try done. match goal with H : adoption_evidence_of _ _ _ = Some _ |- _ => by rewrite <- H end.
Qed.

Lemma adoption_moves plan op d r d' :
  authority_inv (authority_of d) → adoptionTx tick a plan op d = Ok (r, d') →
  gmove (epoch d) (authority_of d) (authority_of d').
Proof.
  intros Hinv H. apply adoptionTx_ok in H as (c & e & t & Hl & -> & Hc & _ & _ & _ & Hr & _).
  apply adoption_locks_ok in Hl as (_ & _ & Hcur & _ & _ & _ & Hs & Hap & _).
  apply adoption_plan_check_ok in Hc as (_ & Hst & _ & _ & Hep & _).
  apply adoption_record_ok in Hr as (_ & _ & Hp & _ & _ & _ & _ & Hps & Ha & Hcan & Hw & Hpr & Hid & _). simpl in *.
  rewrite Hcur in Hep. eapply gmove_to.
  - eapply (gm_commit _ (authority_of d) plan _ op (tick (clock d))); [exact Hs|]. by eapply in_force.
  - unfold authority_of. by rewrite Hp, Hps, Ha, Hcan, Hw, Hpr, Hid.
Qed.

(** ** Frames against the core *)

(** What keeps the execution tables and grows the plans is a step of the rest. *)
Lemma exec_env d d' : checks_inv (core_of d) → exec_of d' = exec_of d → plans d ⊆ plans d' → env d d'.
Proof.
  intros Hc He Hp. unfold exec_of in He. injection He as Ho Ha Hr Hk Hcl. split_and!; try done.
  - intros id o _. by rewrite Ho.
  - intros id o Hi _. rewrite Ho in Hi. by apply (Hc id).
Qed.
Lemma adoption_env plan op d r d' :
  checks_inv (core_of d) → adoptionTx tick a plan op d = Ok (r, d') → env d d'.
Proof.
  intros Hc H. apply adoptionTx_ok in H as (c & e & t & _ & _ & _ & _ & _ & _ & Hr & _).
  apply adoption_record_ok in Hr as (Hn & (o & Ho & Hk & Hck) & Hp & Ha & Hrs & Hac & Hcl & _). simpl in *.
  split_and!; try done.
  - by rewrite Hp.
  - intros id x Hx. rewrite Ho. destruct (decide (id = op)) as [->|Hne]; [|by rewrite lookup_insert_ne].
    rewrite lookup_insert_eq, Hn. split; [done|]. intros [= ->]. congruence.
  - intros id x Hx _. rewrite Ho in Hx. destruct (decide (id = op)) as [->|Hne].
    + rewrite lookup_insert_eq in Hx. by injection Hx as <-.
    + rewrite lookup_insert_ne in Hx by done. by apply (Hc id).
Qed.
End Moves.

(** ** The governed system *)

Section Governed.
Variable tick : Z → Z.
Variable decode : string → option (list node).
Variable encode : list node → option string.

(** A committed transaction of a process: a commitment, an adoption, a governing request that took
    effect, or a step of the core or of the rest that leaves the authority alone, new principals apart. *)
Definition with_principals (ps : gmap string bool) (u : authority) : authority :=
  Authority (au_plans u) (au_states u) (au_approvals u) (au_cancelled u) (au_withdrawn u) ps (au_revoked_at u).
Inductive gstep : Db → Db → Prop :=
| gs_commit a plan op d r d' :
    opts a = production → commitTx tick a plan op d = Ok (r, d') → gstep d d'
| gs_adopt a plan op d r d' : adoptionTx tick a plan op d = Ok (r, d') → gstep d d'
| gs_request rt q act d q' r d' :
    governs tick decode encode rt → attempt_tx rt q act d = Ok ((q', r, true), d') → gstep d d'
| gs_quiet d d' ps :
    step tick d d' → principals d ⊆ ps → authority_of d' = with_principals ps (authority_of d) → gstep d d'.

(** Every transaction of the core but the commitment is one of these. *)
Lemma core_quiet {A} (m : Tx A) d x d' :
  m d = Ok (x, d') → (∀ d d' x, m d = Ok (x, d') → step tick d d') → keeps authority_of m → gstep d d'.
Proof. intros H Hs Hk. eapply (gs_quiet _ _ (principals d)); [by eapply Hs|done|by rewrite (Hk _ _ _ H)]. Qed.

(** A governing request's parts: its effect and write, on the store's own epoch. *)
Lemma request_parts rt q act d q' r d' :
  attempt_tx rt q act d = Ok ((q', r, true), d') →
  ∃ q0 q1 res d1 body d2 b, q_epoch q0 = epoch d ∧ rt_effect rt q0 d = Ok ((q1, res), d1)
    ∧ ef_write res q1 d1 = Ok ((q', body), d2) ∧ d' = set_book b d2.
Proof.
  intros H. apply attempt_parts in H as (q0 & q1 & res & d1 & body & d2 & -> & He & Hw & b & ->).
  eexists _, q1, res, d1, body, d2, b. split; [|split; [exact He|done]]. done.
Qed.

Lemma gstep_moves d d' :
  gstep d d' → authority_inv (authority_of d) →
  authority_of d' = authority_of d ∨ gmove (epoch d) (authority_of d) (authority_of d').
Proof.
  intros H Hinv. destruct H as [a plan op d r d' Hp H|a plan op d r d' H|rt q act d q' r d' Hg H|d d' ps Hs Hps He].
  - right. by eapply commit_moves.
  - right. by eapply adoption_moves.
  - apply request_parts in H as (q0 & q1 & res & d1 & body & d2 & b & Hq & He & Hw & ->).
    exact (governs_moves _ _ _ _ Hg _ _ _ _ _ _ _ _ Hq He Hw).
  - right. rewrite He. by apply (gm_rest _ (authority_of d)).
Qed.

Lemma request_env rt q act d q' r d' :
  governs tick decode encode rt → checks_inv (core_of d) → authority_inv (authority_of d) →
  attempt_tx rt q act d = Ok ((q', r, true), d') → env d d'.
Proof.
  intros Hg Hc Hinv H. pose proof (gs_request _ _ _ _ _ _ _ Hg H) as Hs.
  apply request_parts in H as (q0 & q1 & res & d1 & body & d2 & b & Hq & He & Hw & ->).
  destruct (governs_effect _ _ _ _ _ _ _ _ _ Hg He) as (Hk & _ & _ & Hk').
  destruct (Hk' _ _ _ _ _ Hw) as [_ Hk2]. apply exec_env; [done|by rewrite <- (Hk _ exec_of _), <- (Hk2 _ exec_of _)|].
  apply gstep_moves in Hs; [|done]. simpl in *.
  change (au_plans (authority_of d) ⊆ au_plans (authority_of (set_book b d2))).
  destruct Hs as [->|Hm]; [done|by eapply gr_plans, gmove_grown].
Qed.

Lemma gstep_step d d' :
  gstep d d' → checks_inv (core_of d) → authority_inv (authority_of d) → step tick d d'.
Proof.
  intros [a plan op d0 r d0' Hp H|a plan op d0 r d0' H|rt q act d0 q' r d0' Hg H|d0 d0' ps Hs Hps He] Hc Hinv; [|apply s_env..|done].
  - by eapply s_commit.
  - by eapply adoption_env.
  - by eapply request_env.
Qed.

(** ** What it reaches *)

Record governed_inv (d : Db) : Prop := {
  gi_authority : authority_inv (authority_of d); gi_checks : checks_inv (core_of d); gi_core : lifecycle_inv (core_of d) }.
Lemma gstep_inv d d' : gstep d d' → governed_inv d → governed_inv d' ∧ step tick d d'.
Proof.
  intros H [Ha Hc Hl]. pose proof (gstep_step _ _ H Hc Ha) as Hs. split; [split|done].
  - by destruct (gstep_moves _ _ H Ha) as [->|Hm]; [|eapply gmove_inv].
  - eapply (steps_checks tick); [by apply rtc_once|done].
  - eapply (steps_inv tick); [by apply rtc_once|done].
Qed.
Lemma gsteps_inv d d' : rtc gstep d d' → governed_inv d → governed_inv d' ∧ rtc (step tick) d d'.
Proof.
  induction 1 as [d|d1 d2 d3 H _ IH]; [done|]. intros Hi. destruct (gstep_inv _ _ H Hi) as [Hi2 Hs].
  destruct (IH Hi2). split; [done|]. by eapply rtc_l.
Qed.

(** What every move of authority keeps, the governed system keeps. *)
Lemma gsteps_keep (Q : authority → Prop) d d' :
  (∀ ep u u', gmove ep u u' → authority_inv u → Q u → Q u') →
  rtc gstep d d' → governed_inv d → Q (authority_of d) → Q (authority_of d').
Proof.
  intros HQ. induction 1 as [d|d1 d2 d3 H _ IH]; [done|]. intros Hi Hq. destruct (gstep_inv _ _ H Hi) as [Hi2 _].
  apply IH; [done|]. destruct (gstep_moves _ _ H (gi_authority _ Hi)) as [->|Hm]; [done|]. eapply HQ; [exact Hm|apply Hi|exact Hq].
Qed.
Lemma gsteps_final d d' i s :
  rtc gstep d d' → governed_inv d → pstates d !! i = Some s → final (ps_state s) = true → pstates d' !! i = Some s.
Proof.
  intros H Hi Hs Hf. refine (gsteps_keep (λ u, au_states u !! i = Some s) d d' _ H Hi Hs).
  intros ep u u' Hm Hinv Hu. by eapply gmove_final.
Qed.
Lemma gsteps_withdrawn d d' i :
  rtc gstep d d' → governed_inv d → withdrawn i (authority_of d) → withdrawn i (authority_of d').
Proof. apply (gsteps_keep (withdrawn i)). intros ep u u' Hm Hinv. by eapply gmove_stays_withdrawn. Qed.

(** ** Attempts rest on authority *)

Lemma in_use_not_withdrawn i ep t d : finalPlanCause i ep t d = Some "" → ¬ withdrawn i (authority_of d).
Proof.
  unfold finalPlanCause. intros (p & Hp & (s & Hs & (aid & Ha & (a & Har & (b & Hb & H)%bind_Some)%bind_Some)%bind_Some)%bind_Some)%bind_Some.
  intros Hw. injection H as H. destruct (p_expires p <=? t); [done|].
  destruct Hw as [Hi|(s' & a' & r & Hs' & _ & Ha' & Hr & Hd)]; simpl in *; simplify_eq.
  - by rewrite bool_decide_eq_true_2 in H.
  - case_bool_decide; [done|]. case_bool_decide; [done|]. destruct Hd; [done|]. by simplify_eq.
Qed.

(** A step appends attempts of plans in use only. *)
Definition attempts_in_use (d d' : Db) : Prop :=
  ∃ l, attempts d' = attempts d ++ l ∧ ∀ t, t ∈ l → finalPlanCause (at_plan t) (epoch d) (tick (clock d)) d = Some "".
Lemma no_attempt d d' : attempts d' = attempts d → attempts_in_use d d'.
Proof.
  unfold attempts_in_use. intros ->. exists []. split; [by rewrite app_nil_r|]. by intros t ?%elem_of_nil.
Qed.
Lemma step_attempts d d' : step tick d d' → attempts_in_use d d'.
Proof.
  intros H. inversion H; subst; clear H; try (apply no_attempt;
    match goal with H : ?m _ = Ok _ |- _ => let Hk := fresh in
      assert (Hk : keeps attempts m) by auto using recordRefusalEntry_kept, settleAttemptRefusal_kept, takeOverTx_kept,
        recordResponseTx_kept, accountByDecision_kept, settleOperationTx_kept, attempts_core_free; by apply (Hk _ _ _ H) end).
  - apply no_attempt. match goal with H : commitTx _ _ _ _ _ = _ |- _ => apply commitTx_ok in H as (x & Hx & _ & ->) end; done.
  - match goal with H : recordAttemptTx _ _ _ _ _ _ = _ |- _ => apply recordAttemptTx_ok in H as (o & x & Hx & -> & ->) end; [|done].
    eexists. split; [done|]. intros t ->%list_elem_of_singleton. apply Hx.
  - apply no_attempt. match goal with H : env _ _ |- _ => apply H end.
Qed.

Lemma gsteps_attempts d d' :
  rtc gstep d d' → governed_inv d → ∃ l, attempts d' = attempts d ++ l ∧
    ∀ t, t ∈ l → ¬ withdrawn (at_plan t) (authority_of d).
Proof.
  intros H. induction H as [d|d1 d2 d3 H _ IH]; intros Hi.
  { exists []. split; [by rewrite app_nil_r|]. by intros t ?%elem_of_nil. }
  destruct (gstep_inv _ _ H Hi) as [Hi2 Hs]. destruct (step_attempts _ _ Hs) as (l & Hl & Hin).
  destruct (IH Hi2) as (l' & -> & Hin'). exists (l ++ l'). split; [by rewrite Hl, app_assoc|].
  intros t [Ht|Ht]%elem_of_app; [by eapply in_use_not_withdrawn, Hin|].
  intros Hw. apply (Hin' t Ht). eapply gsteps_withdrawn; [by apply rtc_once|done..].
Qed.
End Governed.
