(* ===== verification/ActsSpec.v ===== *)
(** * When the governing acts take effect, and what they then write: approval, revocation of an
    approval, cancellation and revocation of an identity. *)

From stdpp Require Import sorting.
From S2P Require Import Prelude Store World Evidence Commit Attempt Outcome Settle Lifecycle.
From S2P Require Import Config Request RequestSpec Ident IngestPath Redaction Governance Authority GovernanceSpec.

(** Runs a governing act whose conditions are hypotheses. *)
Ltac act_step :=
  lazymatch goal with
  | |- clock_timestamp _ _ = Ok _ => apply clock_timestamp_ok; split; reflexivity
  | |- next_revision _ _ = Ok _ => apply next_revision_ok; eexists; split; [eassumption|split; reflexivity]
  | |- insert_event _ _ _ _ _ _ = Ok _ => apply (insert_event_ok _ _ _ _ _ _ tt); reflexivity
  | |- failIf _ _ _ = Ok _ => apply (failIf_ok _ _ _ tt); split;
        [first [done | by apply unless_ok | by apply bool_decide_eq_false_2 | by apply Z.leb_gt]|reflexivity]
  | |- mbind _ _ _ = Ok _ => apply bind_ok; eexists _, _; split; [act_step|cbv beta; act_step]
  | |- _ => m_run_step
  end.
Ltac act_go := repeat lazymatch goal with
  | |- mbind _ _ _ = Ok _ => apply bind_ok; eexists _, _; split; [solve [act_step]|]; cbv beta
  end; try solve [act_step].

Section ActsSpec.
Variable tick : Z → Z.

(** An act without its ledger: the effect, and its write on the request the effect returns. *)
Definition act_run (rt : route) (q : request) : Tx (request * doc) :=
  qe ← rt_effect rt q; ef_write qe.2 qe.1.

(** ** Approval *)

(** What an approval of [plan] as [new] demands: the plan [p] on the machine [m] in state [s], the
    reasons, at the times of its effect and of its write. *)
Record approvable (plan new : string) (q : request) (d : Db) (p : Store.plan) (m : machine) (s : plan_state)
    (reasons : list string) : Prop := {
  av_id : MustHave plan "pln" = true;
  av_plan : plans d !! plan = Some p;
  av_machine : machines d !! p_machine p = Some m;
  av_scope : m_scope m ≠ unaccounted_scope;
  av_state : pstates d !! plan = Some s;
  av_approver : principals d !! q_principal q = Some false;
  av_reads : projected plan (tick (clock d)) d = Some Proposed
    ∨ projected plan (tick (clock d)) d = Some Approved ∧ earlier_epoch s (q_epoch q) d = true;
  av_reasons : selfApprovalReasons plan (q_principal q) d = Some reasons;
  av_expires : tick (tick (clock d)) < p_expires p;
  av_fresh : approvals d !! new = None;
  av_once : ∀ b r, approvals d !! b = Some r → ap_plan r = plan → ap_epoch r ≠ q_epoch q }.

(** The store it leaves: the approval, its entry on the machine's timeline, and the plan approved by it. *)
Definition approved_db (plan new : string) (q : request) (p : Store.plan) (m : machine) (reasons : list string) (d : Db) : Db :=
  let t := tick (tick (clock d)) in let rev := m_counter m + 1 in
  set_pstates (alter (approved_row new t) plan (pstates d))
    (set_approvals (<[new := Approval (q_principal q) (q_epoch q) rev plan (p_machine p) (q_role q) reasons (q_act q) t]> (approvals d))
      (set_events (events d ++ [Event (p_machine p) rev (q_epoch q)
          (EvApproval plan new (q_principal q) (q_role q) reasons (unseenOverwrite p)) t])
        (set_machines (<[p_machine p := counted m]> (machines d)) (set_clock t d)))).

Lemma approve_write_ok plan new p reasons q d r d' :
  approve_write tick plan new p reasons q d = Ok (r, d') →
  tick (clock d) < p_expires p ∧ approvals d !! new = None
  ∧ (∀ b x, approvals d !! b = Some x → ap_plan x = plan → ap_epoch x ≠ q_epoch q)
  ∧ ∃ m, machines d !! p_machine p = Some m ∧
    let t := tick (clock d) in let rev := m_counter m + 1 in
    d' = set_pstates (alter (approved_row new t) plan (pstates d))
    (set_approvals (<[new := Approval (q_principal q) (q_epoch q) rev plan (p_machine p) (q_role q) reasons (q_act q) t]> (approvals d))
      (set_events (events d ++ [Event (p_machine p) rev (q_epoch q)
          (EvApproval plan new (q_principal q) (q_role q) reasons (unseenOverwrite p)) t])
        (set_machines (<[p_machine p := counted m]> (machines d)) (set_clock t d)))).
Proof.
  unfold approve_write. intros H. gov_inv. simpl in *. rewrite !bool_decide_eq_false in *.
  match goal with H : ¬ map_Exists _ _ |- _ => rename H into Hno end.
  split; [lia|]. split; [by apply eq_None_not_Some|]. split; [|by eauto].
  intros b x Hb Hp He. apply Hno. by exists b, x.
Qed.

Lemma approve_iff plan new q d d' :
  (∃ r, act_run (planApproval tick plan new) q d = Ok (r, d')) ↔
  ∃ p m s reasons, approvable plan new q d p m s reasons ∧ d' = approved_db plan new q p m reasons d.
Proof.
  unfold act_run. simpl. split.
  - intros [r H]. m_inv. unfold approvePlan in H0. gov_inv. simpl in *. rewrite ?bool_decide_eq_false in *.
    match goal with H : approve_write _ _ _ _ _ _ _ = _ |- _ => apply approve_write_ok in H as (Ht & Hn & Ho & m & Hm & ->) end.
    simpl in *. rewrite ?negb_false_iff in *. simplify_eq. eexists _, _, _, _. split; [|done].
    match goal with H : negb _ && negb _ = false |- _ => rename H into Hr end.
    split; try done.
    match goal with H : projected _ _ _ = Some ?st |- _ => change (projected plan (tick (clock d)) d = Some st) in H; rewrite H end.
    apply andb_false_iff in Hr as [Hr|Hr]; apply negb_false_iff in Hr.
    + left. by apply bool_decide_eq_true in Hr as ->.
    + right. apply andb_true_iff in Hr as [->%bool_decide_eq_true Hr]. done.
  - intros (p & m & s & reasons & H & ->). destruct H. eexists.
    assert (Hn : is_Some (approvals d !! new) → False) by (rewrite av_fresh0; by intros []).
    assert (Ho : ¬ map_Exists (λ _ a, ap_plan a = plan ∧ ap_epoch a = q_epoch q) (approvals d)).
    { intros (b & x & Hb & Hp & He). by eapply av_once0. }
    assert (Hr : ∃ st, projected plan (tick (clock d)) (set_clock (tick (clock d)) d) = Some st ∧
      negb (bool_decide (st = Proposed)) && negb (bool_decide (st = Approved) && earlier_epoch s (q_epoch q) d) = false).
    { destruct av_reads0 as [Hr|[Hr He]]; eexists; (split; [exact Hr|]); [done|by rewrite He]. }
    destruct Hr as (st & Hst & Hck).
    apply bind_ok. eexists _, _. split.
    + unfold approvePlan, machine_row, pstate_row, unrevoked, principal_row, projected_state. rewrite av_id0. act_go.
    + cbn [ef_write fst snd]. unfold approve_write, update_pstate. act_go.
Qed.

(** ** Revocation of an identity *)

Definition identity_entry (target reason : string) (q : request) (g : string * list string) : string * entry :=
  (g.1, EvIdentityRevocation target g.2 (q_principal q) (q_role q) reason).
Lemma insert_identity_events q target reason t l d u d' :
  insert_identity_entries q target reason t l d = Ok (u, d') →
  ∃ es, events d' = events d ++ es ∧ (λ e, (e_machine e, e_entry e)) <$> es = identity_entry target reason q <$> l
    ∧ Forall (λ e, e_at e = t ∧ e_epoch e = q_epoch q) es.
Proof.
  revert d. induction l as [|[m ps] l IH]; simpl; intros d H; gov_inv; [by exists []; rewrite app_nil_r|].
  match goal with H : insert_identity_entries _ _ _ _ _ _ = _ |- _ => apply IH in H as (es & -> & He & Hf) end. simpl. rewrite <- app_assoc. eexists. split; [done|].
  rewrite fmap_app, He. split; [done|]. by constructor.
Qed.
Lemma identity_run target reason q d r d' :
  act_run (identityRevocations tick target reason) q d = Ok (r, d') →
  let t := tick (clock d) in
  principals d !! target = Some false ∧ (target ≠ q_principal q → principals d !! q_principal q = Some false)
  ∧ id_revoked d !! target = None
  ∧ principals d' = <[target := true]> (principals d) ∧ id_revoked d' = <[target := t]> (id_revoked d)
  ∧ ∃ es, events d' = events d ++ es
      ∧ (λ e, (e_machine e, e_entry e)) <$> es = identity_entry target reason q <$> identity_groups target t d
      ∧ Forall (λ e, e_at e = t ∧ e_epoch e = q_epoch q) es.
Proof.
  unfold act_run. simpl. intros H. m_inv. unfold revokeIdentity in H0. gov_inv. simpl in H1. gov_inv.
  match goal with H : lock_identities _ _ _ = _ |- _ => apply lock_identities_ok in H as (Hp & -> & Hq) end. simpl in *.
  rewrite bool_decide_eq_false in *. unfold identityEntries in *. m_inv.
  match goal with H : insert_identity_entries _ _ _ _ _ _ = _ |- _ => rename H into Hi end.
  pose proof Hi as (es & He)%insert_identity_events.
  assert (Hk : keeps (λ d, (principals d, id_revoked d)) (insert_identity_entries q target reason (tick (clock d))
    (identity_groups target (tick (clock d)) d))).
  { generalize (identity_groups target (tick (clock d)) d). intros l. induction l as [|[m ps] l IH]; simpl; [solve_keeps|].
    assert (TimelineFree (λ d, (principals d, id_revoked d))) by by split. solve_keeps. }
  pose proof (Hk _ _ _ Hi) as [= Hp1 Hr1]. split_and!; try done; [by apply eq_None_not_Some|by exists es].
Qed.
End ActsSpec.

(** The groups: the machines of affected plans in order, each once, with exactly its affected plans. *)
Definition affects (identity : string) (t : Z) (d : Db) (m plan : string) : Prop :=
  ∃ s p, pstates d !! plan = Some s ∧ plans d !! plan = Some p ∧ p_machine p = m ∧ affected identity t d plan s = true.
Lemma affected_elem i t d m plan : (m, plan) ∈ affected_plans i t d ↔ affects i t d m plan.
Proof.
  unfold affected_plans, affects. rewrite list_elem_of_omap. split.
  - intros ([x s] & Hs%elem_of_map_to_list & (p & Hp & H)%bind_Some). simpl in *.
    destruct (affected i t d x s) eqn:Ha; simplify_eq. by exists s, p.
  - intros (s & p & Hs & Hp & <- & Ha). exists (plan, s). rewrite elem_of_map_to_list. simpl. by rewrite Hp, Ha.
Qed.
Lemma identity_groups_exact i t d :
  NoDup (identity_groups i t d).*1 ∧ (∀ m, m ∈ (identity_groups i t d).*1 ↔ ∃ plan, affects i t d m plan)
  ∧ ∀ m ps, (m, ps) ∈ identity_groups i t d → NoDup ps ∧ ∀ plan, plan ∈ ps ↔ affects i t d m plan.
Proof.
  assert (Hm : (identity_groups i t d).*1 = sorted_ids (affected_plans i t d).*1).
  { unfold identity_groups. rewrite <- list_fmap_compose. by rewrite list_fmap_id. }
  rewrite Hm. split; [apply sorted_nodup|]. split.
  - intros m. rewrite sorted_elem, list_elem_of_fmap. setoid_rewrite <- affected_elem. split.
    + intros ([x plan] & -> & H). eauto.
    + intros [plan H]. by exists (m, plan).
  - intros m ps H. unfold identity_groups in H. apply list_elem_of_fmap in H as (x & [= -> ->] & _).
    split; [apply sorted_nodup|]. intros plan. rewrite sorted_elem, list_elem_of_omap, <- affected_elem. split.
    + intros ([y z] & Hin & H). simpl in H. by case_bool_decide; simplify_eq.
    + intros H. exists (x, plan). simpl. by rewrite bool_decide_true.
Qed.

(** ** Creation of a plan *)

Section CreateSpec.
Variable tick : Z → Z.
Variable decode : string → option (list node).
Variable encode : list node → option string.

(** What resolving a request fixes: the request's own values, its operation's defaults filled in. *)
Lemma resolve_input_ok ex i j :
  resolve_input ex i = Ok j →
  in_release j = in_release i ∧ in_machine j = in_machine i ∧ in_operation j = in_operation i
  ∧ in_expires j = filled (in_expires i) (pd_expiry (ex_defaults ex))
  ∧ in_age j = filled (in_age i) (pd_age (ex_defaults ex)) ∧ in_check j = filled (in_check i) (pd_check (ex_defaults ex))
  ∧ (in_operation i ≠ "apply-config" → in_transport j = in_transport i ∧ in_verification j = in_verification i ∧ in_attempts j = in_attempts i)
  ∧ (in_operation i = "apply-config" → ∃ t v n,
      t = default (seconds (pd_transport (ex_defaults ex))) (in_transport i)
      ∧ v = default (seconds (pd_verification (ex_defaults ex))) (in_verification i)
      ∧ n = default (pd_attempts (ex_defaults ex)) (in_attempts i)
      ∧ in_transport j = Some t ∧ in_verification j = Some v ∧ in_attempts j = Some n
      ∧ t ≤ seconds (ex_max_transport ex) ∧ t ≤ v).
Proof.
  unfold resolve_input. case_bool_decide as Hop; simpl.
  - destruct (_ <? _) eqn:H1; [done|]. destruct (Z.ltb (default (seconds (pd_verification _)) _) _) eqn:H2; [done|].
    intros [= <-]. apply Z.ltb_ge in H1, H2. simpl. split_and!; try done. intros _. by eexists _, _, _.
  - intros [= <-]. simpl. by split_and!.
Qed.

(** What a plan of the input binds of its machine, read from the store. *)
Definition binds (i : planInput) (ms : machine_state) (d : Db) (b : plan_basis) : Prop :=
  if bool_decide (in_operation i = "adopt")
  then (ms_applied ms = None ∧ pb_baseline b = None ∧ pb_drift b = None)
       ∨ ∃ r, is_Some (ms_applied ms) ∧ open_drift (in_machine i) d = Some r ∧ pb_drift b = Some (d_opened r)
              ∧ pb_baseline b = Some (default 0 (ms_baseline ms))
  else str (ms_desired ms) = in_release i ∧ is_Some (ms_applied ms) ∧ pb_baseline b = Some (default 0 (ms_baseline ms))
       ∧ pb_drift b = d_opened <$> open_drift (in_machine i) d
       ∧ pb_expected b = (match open_drift (in_machine i) d with Some r => Some (d_observed r) | None => ms_digest ms end).
Lemma basis_ok i row ms d b d' :
  (if bool_decide (in_operation i = "adopt") then adopt_basis i row ms else apply_basis decode encode i row ms) d = Ok (b, d') →
  d' = d ∧ binds i ms d b.
Proof.
  unfold binds. case_bool_decide.
  - unfold adopt_basis. intros Ha. m_inv. case_bool_decide; gov_inv; simpl; (split; [done|]); [by left|].
    right. match goal with H : open_drift _ _ = Some ?x |- _ => exists x end. split_and!; try done.
    by destruct (ms_applied ms); [eexists|].
  - unfold apply_basis. intros Ha. gov_inv.
    assert (Hk : ∀ from, keeps id (planDiffFrom decode encode (in_machine i) from (in_release i) (ms_digest ms) (rm_redacted row)))
      by (intros from; unfold planDiffFrom; solve_keeps).
    match goal with Hd : planDiffFrom _ _ _ _ _ _ _ _ = Ok (_, ?s) |- _ => apply Hk in Hd; simpl in Hd; subst s end.
    simpl. by split_and!.
Qed.

Lemma create_ok ex i new q d r d' :
  act_run (planCreation tick decode encode ex i new) q d = Ok (r, d') →
  ∃ j m row ms b, resolve_input ex i = Ok j ∧ machines d !! in_machine i = Some m ∧ m_scope m ≠ unaccounted_scope
    ∧ artifacts d !! (in_release i, in_machine i) = Some row ∧ mstates d !! in_machine i = Some ms
    ∧ heads d !! in_machine i = Some (rm_assignment row) ∧ binds j ms d b
    ∧ plans d !! new = None ∧ pstates d !! new = None
    ∧ plans d' = <[new := plan_of q j m (rm_assignment row) ms b (tick (clock d)) (m_counter m + 1)]> (plans d)
    ∧ pstates d' = <[new := PlanState Proposed None None 1 (tick (clock d)) None]> (pstates d).
Proof.
  unfold act_run. simpl. intros H. m_inv. unfold createPlan in H0.
  destruct (resolve_input ex i) as [j|e] eqn:Hr; gov_inv. simpl in H1. unfold insertPlan in H1. gov_inv.
  match goal with H : (if _ then _ else _) _ = Ok _ |- _ => apply basis_ok in H as [-> Hb] end.
  destruct (resolve_input_ok _ _ _ Hr) as (Hrel & Hmach & Hop & _). rewrite Hrel, Hmach in *. simpl in *.
  match goal with H : _ || _ = false |- _ => apply orb_false_iff in H as [Hp%bool_decide_eq_false Hs%bool_decide_eq_false] end.
  simplify_eq. eexists j, _, _, _, _. split_and!; try done; try by apply eq_None_not_Some.
  by intros Hu; rewrite (bool_decide_eq_true_2 _ Hu) in *.
Qed.
End CreateSpec.

(** ** What makes an approval a self-approval *)

(** The approver is, or owns, someone who made the plan, published its release or wrote part of it. *)
Definition took_part (p : Store.plan) (r : release_row) (d : Db) (who : string) : Prop :=
  who = p_created_by p ∨ who = rl_published_by r ∨ ∃ v, v ∈ contained (p_release p) d ∧ authors (prov d) !! v = Some who.
Lemma existsb_false {A} (f : A → bool) l : existsb f l = false ↔ ∀ x, x ∈ l → f x = false.
Proof.
  induction l as [|y l IH]; simpl; [split; [by intros _ x ?%elem_of_nil|done]|].
  rewrite orb_false_iff, IH. setoid_rewrite elem_of_cons. naive_solver.
Qed.
Lemma written_by_false who d v : written_by who d v = false ↔ authors (prov d) !! v ≠ Some who.
Proof. apply bool_decide_eq_false. Qed.
Lemma authored_false who d (f : string → bool) l :
  existsb (λ v, written_by who d v && f v) l = false ∧ existsb (λ v, written_by who d v && negb (f v)) l = false ↔
  ∀ v, v ∈ l → authors (prov d) !! v ≠ Some who.
Proof.
  rewrite !existsb_false. split.
  - intros [H1 H2] v Hv. apply written_by_false. specialize (H1 v Hv). specialize (H2 v Hv). simpl in *.
    destruct (written_by who d v), (f v); done.
  - intros H. split; intros v Hv; apply H, written_by_false in Hv; by rewrite Hv.
Qed.
Lemma owns_author_false who p r d :
  owns_author who p r d = false ↔ ∀ s, services (prov d) !! s = Some who → ¬ took_part p r d s.
Proof.
  unfold owns_author. rewrite bool_decide_eq_false. split.
  - intros H s Hs Hp. apply H. exists s, who. split; [done|]. split; [done|].
    destruct Hp as [->|[->|(v & Hv & Ha)]]; [by left|by right; left|right; right].
    apply existsb_exists. exists v. split; [by apply list_elem_of_In|by apply bool_decide_eq_true].
  - intros H (s & w & Hs & -> & Hp). apply (H s Hs). destruct Hp as [->|[->|(v & Hv & Ha)%existsb_exists]]; [by left|by right; left|].
    right; right. exists v. split; [by apply list_elem_of_In|by apply bool_decide_eq_true in Ha].
Qed.
Lemma self_reasons_nil plan who d p r :
  plans d !! plan = Some p → releases (prov d) !! p_release p = Some r →
  selfApprovalReasons plan who d = Some [] ↔
  ¬ took_part p r d who ∧ ∀ s, services (prov d) !! s = Some who → ¬ took_part p r d s.
Proof.
  intros Hp Hr. unfold selfApprovalReasons. rewrite Hp. simpl. rewrite Hr. simpl.
  rewrite <- owns_author_false.
  pose proof (authored_false who d (introduced_by (rl_draft r) d) (contained (p_release p) d)) as Hau.
  destruct (existsb (λ v, written_by who d v && introduced_by _ d v) _),
    (existsb (λ v, written_by who d v && negb _) _), (owns_author who p r d);
    repeat case_bool_decide; simpl; unfold took_part in *; try (split; [done|]); try naive_solver.
Qed.

(** ** The bounds of a plan's request *)

Definition week : Z := 604800.
Definition opt_within (hi : Z) (v : option Z) : Prop := ∀ x, v = Some x → 1 ≤ x ≤ hi.
Lemma in_bounds_ok hi v : in_bounds hi v = true ↔ opt_within hi v.
Proof.
  unfold in_bounds, opt_within. destruct v as [v|]; [|naive_solver].
  rewrite andb_true_iff, !Z.leb_le. naive_solver.
Qed.
Lemma plan_input_ok i :
  plan_input_check i = None →
  (in_operation i = "apply-config" ∨ in_operation i = "adopt" ∧ in_transport i = None ∧ in_verification i = None ∧ in_attempts i = None)
  ∧ Forall (opt_within week) [in_expires i; in_age i; in_check i; in_transport i; in_verification i]
  ∧ opt_within MaxPlanAttempts (in_attempts i).
Proof.
  unfold plan_input_check. destruct (negb (MustHave _ "rel")); [done|]. destruct (negb (MustHave _ "mch")); [done|].
  destruct (_ && negb (bool_decide (in_mode i = _))); [done|]. destruct (_ && negb (bool_decide (_ ∧ _))) eqn:Ha; [done|].
  destruct (negb (bool_decide (in_operation i = "apply-config")) && _) eqn:Ho; [done|].
  destruct (find _ _) eqn:Hf; [done|]. apply find_none_all in Hf. destruct (negb (in_bounds _ _)) eqn:Hn; [done|]. intros _.
  split; [|split].
  - repeat case_bool_decide; simpl in *; try done; [naive_solver..|]. right. naive_solver.
  - rewrite !Forall_cons in *. simpl in Hf. change (seconds MaxPlanDuration) with week in Hf. rewrite !negb_false_iff in Hf.
    rewrite !in_bounds_ok in Hf. naive_solver.
  - by apply negb_false_iff, in_bounds_ok in Hn.
Qed.
Lemma filled_within v d s : opt_within week v → d = s * second → 1 ≤ s ≤ week → 1 ≤ default (seconds d) v ≤ week.
Proof.
  intros Hv -> Hs. destruct v as [x|]; simpl; [by apply Hv|]. unfold seconds. by rewrite Z.quot_mul by (unfold second; lia).
Qed.
