(* ===== verification/GovernedScenario.v ===== *)
(** * A concrete governed installation: a plan to adopt a machine and one to configure it, each
    created, approved and carried out, and the acts that withdraw them. *)

From stdpp Require Import relations.
From S2P Require Import Prelude Store World Evidence Commit Attempt Outcome Settle Observe Lifecycle.
From S2P Require Import Executor Lifecycle Refinement System Scenario Config Request RequestSpec Ident IngestPath Governance.
From S2P Require Import Authority GovernanceSpec Adoption Governed ActsSpec.

Definition gv_word : string := "aaaaaaaaaaaaaaaaaaaaaaaaaa".
Definition gv_decode (_ : string) : option (list node) := None.
Definition gv_encode (_ : list node) : option string := None.

(** One machine with a release for it, nothing applied to it, and two humans. *)
Definition gv_store (mch rel : string) : Db :=
  MkDb "ep_1" false 0 {[mch := Machine "cl_1" "normal" false 0 None (Some "node_1") "10.0.0.1"]}
    {[mch := MachineState 0 (Some rel) None None None None]} {[mch := "asg_1"]} {["cl_1" := sc_talos]}
    {[rel := "v1.9"]} {[(rel, mch) := ArtifactRow "after" "sealed" "key" 1 "ibr_1" "asg_1" None]}
    ∅ ∅ ∅ {["prn_1" := false; "prn_2" := false; "prn_3" := false]} ∅ ∅ ∅ [] [] [] [] ∅ [] [] [] [] (Ledger [] ∅)
    (Provenance {[rel := ReleaseRow "cl_1" "drf_1" "prn_2"]} {[rel := ["rev_1"]]} {["rev_1" := "prn_2"]}
       {["drf_1" := ["rev_1"]]} {["ibr_1" := "before"]} ∅)
    (RecoveryLog ∅ ∅ ∅ ∅ ∅ ∅ ∅ []).
Definition gv_start : Db := gv_store "mch_1" "rel_1".
(** The same with identifiers a request's check takes. *)
Definition gv_wide : Db := gv_store ("mch_" +:+ gv_word) ("rel_" +:+ gv_word).

Definition gv_execution : execution :=
  Execution (30 * second) (60 * second) (300 * second)
    (PlanDefaults (24 * hour) (300 * second) (300 * second) (60 * second) (600 * second) 3).
Definition gv_request (who role key : string) : request :=
  Request ("req_" +:+ key) who Human "" [role] role "" false key "" "sum" "transit/digest@v1" "".

(** A request's transaction on a store. *)
Definition gv_attempt (rt : route) (q : request) (d : Db) : Db := sc_run (attempt_tx rt q ("act_" +:+ q_key q)) d.
Definition gv_input (operation : string) (mode : option string) : planInput :=
  PlanInput "rel_1" "mch_1" operation mode None None None None None None.
Definition gv_creation (op plan : string) (mode : option string) : Db → Db :=
  gv_attempt (planCreation sc_tick gv_decode gv_encode gv_execution (gv_input op mode) plan)
    (gv_request "prn_2" "publisher" ("create" +:+ plan)).
Definition gv_approval (plan apr : string) : Db → Db :=
  gv_attempt (planApproval sc_tick plan apr) (gv_request "prn_1" "approver" ("approve" +:+ plan)).
Definition gv_observe (i digest plan : string) : Db → Db :=
  sc_act (observe sc_others (λ _, i) sc_tick sc_api "mch_1" (ObserveFor PEvidence plan "" None false)) digest.
Definition gv_check (plan : string) : Db → Db :=
  sc_act (useTimeCheck sc_others sc_tick sc_api "key" "mch_1" plan "" None None) "".

Definition gv_adopt : string := "pln_" +:+ gv_word.
Definition gv_apply : string := "pln_" +:+ "aaaaaaaaaaaaaaaaaaaaaaaaae".
Example gv_ids : MustHave gv_adopt "pln" && MustHave gv_apply "pln" = true.
Proof. vm_compute. reflexivity. Qed.

(** The adoption, and then the configuration up to its first attempt. *)
Definition gv_proposed : Db := gv_creation "adopt" gv_adopt None gv_start.
Definition gv_approved : Db := gv_approval gv_adopt "apr_1" gv_proposed.
Definition gv_seen : Db := gv_observe "obs_1" "before" gv_adopt gv_approved.
Definition gv_adopted : Db := sc_run (adoptionTx sc_tick sc_api gv_adopt "op_0") gv_seen.
Definition gv_planned : Db := gv_creation "apply-config" gv_apply (Some "no-reboot") gv_adopted.
Definition gv_ready : Db :=
  gv_observe "obs_2" "before" gv_apply (gv_check gv_apply (gv_approval gv_apply "apr_2" gv_planned)).
Definition gv_committed : Db := sc_run (commitTx sc_tick sc_api gv_apply "op_1") gv_ready.
Definition gv_attempted : Db := sc_run (recordAttemptTx sc_tick sc_api "op_1" "att_1" 1) gv_committed.
Definition gv_cancelled : Db :=
  gv_attempt (planCancellation sc_tick gv_apply "stop") (gv_request "prn_1" "approver" "cancel") gv_committed.

Definition gv_states (d : Db) : list (string * plan_st) := (λ ps, (ps.1, ps_state ps.2)) <$> map_to_list (pstates d).
Example gv_story : (λ d, (gv_states d).*2) <$> [gv_proposed; gv_approved; gv_adopted; gv_planned; gv_ready; gv_committed]
  = [[Proposed]; [Approved]; [PCommitted]; [Proposed; PCommitted]; [Approved; PCommitted]; [PCommitted; PCommitted]].
Proof. vm_compute. reflexivity. Qed.

(** ** Its stores are reached *)

Notation gv_step := (gstep sc_tick gv_decode gv_encode).
Lemma gv_attempt_step rt q d :
  governs sc_tick gv_decode gv_encode rt →
  match attempt_tx rt q ("act_" +:+ q_key q) d with Ok ((_, _, true), _) => True | _ => False end →
  gv_step d (gv_attempt rt q d).
Proof.
  intros Hg H. unfold gv_attempt, sc_run. destruct (attempt_tx _ _ _ _) as [[[[q' r] []] d']|e] eqn:Ha; try done.
  by eapply gs_request.
Qed.
Lemma gv_env_step d d' :
  exec_of d' = exec_of d → authority_of d' = authority_of d → checks_inv (core_of d) → gv_step d d'.
Proof.
  intros He Ha Hc. apply (gs_quiet _ _ _ _ _ (principals d)); [|done|by rewrite Ha].
  apply s_env, exec_env; [done..|]. unfold authority_of in Ha. injection Ha as -> _. done.
Qed.
Lemma gv_start_inv : governed_inv gv_start.
Proof.
  assert (initial gv_start) by by repeat split.
  split; [|by eapply initial_checks|by eapply initial_inv].
  split; simpl; try (by intros ? ? [=]); try (by intros ? ? ? [=]); try (by intros ? ? ? ? [=]); try set_solver.
  intros i. by split; intros [? [=]].
Qed.

Definition gv_reached (d : Db) : Prop := rtc gv_step gv_start d.
Lemma gv_reached_inv d : gv_reached d → governed_inv d.
Proof. intros H. by apply (gsteps_inv _ _ _ _ _ H gv_start_inv). Qed.
Lemma gv_reach_request d rt q :
  gv_reached d → governs sc_tick gv_decode gv_encode rt →
  match attempt_tx rt q ("act_" +:+ q_key q) d with Ok ((_, _, true), _) => True | _ => False end →
  gv_reached (gv_attempt rt q d).
Proof. intros Hd Hg H. eapply rtc_r; [exact Hd|by apply gv_attempt_step]. Qed.
Lemma gv_reach_env d d' :
  gv_reached d → exec_of d' = exec_of d → authority_of d' = authority_of d → gv_reached d'.
Proof. intros Hd He Ha. eapply rtc_r; [exact Hd|]. apply gv_env_step; [done..|]. by apply gi_checks, gv_reached_inv. Qed.

Lemma gv_proposed_reached : gv_reached gv_proposed.
Proof. apply gv_reach_request; [apply rtc_refl|apply gv_create|by vm_compute]. Qed.
Lemma gv_approved_reached : gv_reached gv_approved.
Proof. apply gv_reach_request; [apply gv_proposed_reached|apply gv_approve|by vm_compute]. Qed.
Lemma gv_seen_reached : gv_reached gv_seen.
Proof. apply (gv_reach_env gv_approved); [apply gv_approved_reached|by vm_compute..]. Qed.
Lemma gv_adopted_reached : gv_reached gv_adopted.
Proof.
  eapply rtc_r; [apply gv_seen_reached|].
  destruct (sc_run_ok (adoptionTx sc_tick sc_api gv_adopt "op_0") gv_seen) as [x Hx]; [by vm_compute|]. by eapply gs_adopt.
Qed.
Lemma gv_planned_reached : gv_reached gv_planned.
Proof. apply gv_reach_request; [apply gv_adopted_reached|apply gv_create|by vm_compute]. Qed.
Lemma gv_ready_reached : gv_reached gv_ready.
Proof.
  apply (gv_reach_env (gv_approval gv_apply "apr_2" gv_planned)); [|by vm_compute..].
  apply gv_reach_request; [apply gv_planned_reached|apply gv_approve|by vm_compute].
Qed.
Lemma gv_committed_reached : gv_reached gv_committed.
Proof.
  eapply rtc_r; [apply gv_ready_reached|].
  destruct (sc_run_ok (commitTx sc_tick sc_api gv_apply "op_1") gv_ready) as [x Hx]; [by vm_compute|].
  by eapply (gs_commit _ _ _ sc_api).
Qed.
Lemma gv_cancelled_reached : gv_reached gv_cancelled.
Proof. apply gv_reach_request; [apply gv_committed_reached|apply gv_cancel|by vm_compute]. Qed.
