(* ===== verification/GovernanceProps.v ===== *)
(** * The properties of the governing acts: who may execute what, on every store the governed system
    reaches, and what each act demands and writes. *)

From stdpp Require Import relations.
From S2P Require Import Prelude Store World Evidence Commit Attempt Outcome Settle Observe Lifecycle.
From S2P Require Import Executor Lifecycle Refinement System Scenario Config Request RequestSpec Ident IngestPath Governance.
From S2P Require Import Authority GovernanceSpec Adoption Governed ActsSpec GovernedScenario.

(** ** The governed system *)

Section System.
Context (tick : Z → Z) (decode : string → option (list node)) (encode : list node → option string).
Notation gstep := (gstep tick decode encode).

(** C29: commitments, adoptions and governing requests of any number of processes, among the core's
    other transactions, keep the schema's checks and references of plans, their states and approvals:
    an approval is of an existing plan, one per plan and epoch; the state that names it is of that
    plan; no approval in force is a revoked one; and a cancelled plan ends cancelled or committed. *)
Theorem authority_kept d d' : rtc gstep d d' → governed_inv d → authority_inv (authority_of d').
Proof. intros H Hi. by apply (gsteps_inv _ _ _ _ _ H Hi). Qed.

(** C30: whatever transaction the governed system commits, each plan's state moves only as the schema's
    trigger on it lets pass, at an approval of the epoch where it authorizes anything, and a new plan
    starts proposed. *)
Theorem plan_states_follow_trigger d d' :
  gstep d d' → governed_inv d →
  (∀ i s, pstates d !! i = Some s →
     ∃ s', pstates d' !! i = Some s' ∧ (s' = s ∨ trigger_allows (epoch d) (approvals d') s s'))
  ∧ ∀ i s, pstates d !! i = None → pstates d' !! i = Some s → ps_state s = Proposed.
Proof.
  intros H Hi. destruct (gstep_moves _ _ _ _ _ H (gi_authority _ Hi)) as [He|Hm].
  - unfold authority_of in He. injection He as _ He _. rewrite He. split; [eauto|congruence].
  - split; intros i s Hs; [exact (gmove_states _ _ _ _ _ Hm (gi_authority _ Hi) Hs)|by apply (gmove_new _ _ _ _ _ Hm Hs)].
Qed.

(** Once a plan is committed, revoked, cancelled or expired its row never changes again: it is not
    committed a second time, and no later approval revives it. *)
Theorem final_plan_kept d d' i s :
  rtc gstep d d' → governed_inv d → pstates d !! i = Some s → final (ps_state s) = true → pstates d' !! i = Some s.
Proof. apply gsteps_final. Qed.

(** C28: whatever happens after, no attempt is recorded of a plan that is cancelled, or committed under
    an approval that was revoked or whose approver's identity was. *)
Theorem withdrawn_plan_unattempted d d' :
  rtc gstep d d' → governed_inv d → ∃ l, attempts d' = attempts d ++ l ∧
    ∀ t, t ∈ l → ¬ withdrawn (at_plan t) (authority_of d).
Proof. apply gsteps_attempts. Qed.
End System.

Lemma authority_kept_witness : authority_inv (authority_of gv_cancelled) ∧ length (gv_states gv_cancelled) = 2%nat.
Proof.
  split; [|vm_compute; reflexivity].
  apply (authority_kept sc_tick gv_decode gv_encode gv_start); [apply gv_cancelled_reached|apply gv_start_inv].
Defined.
Lemma plan_states_follow_trigger_witness :
  ∃ s s', pstates gv_ready !! gv_apply = Some s ∧ pstates gv_committed !! gv_apply = Some s' ∧ ps_state s' = PCommitted
    ∧ trigger_allows (epoch gv_ready) (approvals gv_committed) s s'.
Proof.
  assert (H : gstep sc_tick gv_decode gv_encode gv_ready gv_committed).
  { destruct (sc_run_ok (commitTx sc_tick sc_api gv_apply "op_1") gv_ready) as [x Hx]; [by vm_compute|].
    by eapply (gs_commit _ _ _ sc_api). }
  apply plan_states_follow_trigger in H as [H _]; [|apply gv_reached_inv, gv_ready_reached].
  eexists. destruct (H gv_apply _ ltac:(vm_compute; reflexivity)) as (s' & Hs' & [->|Ht]).
  - exfalso. vm_compute in Hs'. discriminate Hs'.
  - exists s'. split; [vm_compute; reflexivity|]. split; [exact Hs'|]. split; [|exact Ht].
    vm_compute in Hs'. by injection Hs' as <-.
Defined.
Lemma final_plan_kept_witness : pstates gv_cancelled !! gv_apply = pstates gv_committed !! gv_apply ∧ gv_cancelled ≠ gv_committed.
Proof.
  split; [|intros H; apply (f_equal clock) in H; vm_compute in H; discriminate H].
  assert (∃ s, pstates gv_committed !! gv_apply = Some s ∧ final (ps_state s) = true) as (s & Hs & Hf)
    by (eexists; split; [vm_compute; reflexivity|reflexivity]).
  rewrite Hs. refine (final_plan_kept sc_tick gv_decode gv_encode _ _ _ _ _ _ Hs Hf); [|apply gv_reached_inv, gv_committed_reached].
  apply rtc_once, gv_attempt_step; [apply gv_cancel|by vm_compute].
Defined.
Lemma withdrawn_plan_unattempted_witness :
  withdrawn gv_apply (authority_of gv_cancelled)
  ∧ ∃ l, attempts (gv_observe "obs_9" "before" gv_apply gv_cancelled) = attempts gv_cancelled ++ l ∧
    ∀ t, t ∈ l → ¬ withdrawn (at_plan t) (authority_of gv_cancelled).
Proof.
  split; [left; vm_compute; reflexivity|].
  apply (withdrawn_plan_unattempted sc_tick gv_decode gv_encode); [|apply gv_reached_inv, gv_cancelled_reached].
  apply rtc_once, gv_env_step; [by vm_compute..|apply gi_checks, gv_reached_inv, gv_cancelled_reached].
Defined.

(** ** The acts *)

(** An approval takes effect exactly when the plan is one, its machine is not pre-restore
    unaccounted, the approver's identity is in force, the plan reads proposed, or approved by an
    approval of another epoch, it has not expired at the write, and neither the identifier nor the
    plan's approval of this epoch is taken; it then writes the approval with its self-approval reasons,
    one entry on the machine's timeline and the plan's state, approved by it, and nothing else. *)
Theorem approval_iff tick plan new q d d' :
  (∃ r, act_run (planApproval tick plan new) q d = Ok (r, d')) ↔
  ∃ p m s reasons, approvable tick plan new q d p m s reasons ∧ d' = approved_db tick plan new q p m reasons d.
Proof. apply approve_iff. Qed.

(** An approval carries no self-approval reason exactly when neither the approver nor a service
    identity the approver owns made the plan, published its release or authored a revision the release
    contains. *)
Theorem self_approval_free_iff plan who d p r :
  plans d !! plan = Some p → releases (prov d) !! p_release p = Some r →
  selfApprovalReasons plan who d = Some [] ↔
  ¬ took_part p r d who ∧ ∀ s, services (prov d) !! s = Some who → ¬ took_part p r d s.
Proof. apply self_reasons_nil. Qed.
Lemma self_approval_free_iff_witness :
  selfApprovalReasons gv_apply "prn_1" gv_planned = Some []
  ∧ selfApprovalReasons gv_apply "prn_2" gv_planned = Some ["created-plan"; "published"; "authored-change"]
  ∧ ∃ p, plans gv_planned !! gv_apply = Some p ∧ ¬ took_part p (ReleaseRow "cl_1" "drf_1" "prn_2") gv_planned "prn_1".
Proof.
  split; [vm_compute; reflexivity|]. split; [vm_compute; reflexivity|].
  assert (∃ p, plans gv_planned !! gv_apply = Some p ∧ releases (prov gv_planned) !! p_release p = Some (ReleaseRow "cl_1" "drf_1" "prn_2"))
    as (p & Hp & Hr) by (eexists; split; vm_compute; reflexivity).
  exists p. split; [exact Hp|].
  refine (proj1 (proj1 (self_approval_free_iff gv_apply "prn_1" gv_planned p _ Hp Hr) _)). vm_compute. reflexivity.
Defined.

(** An identity's revocation is of an identity in force, by one in force, and permanent; it appends
    one entry to the timeline of each machine that has an unfinished plan the identity approved,
    naming exactly those plans, and none to any other. *)
Theorem identity_revocation_entries tick target reason q d r d' :
  act_run (identityRevocations tick target reason) q d = Ok (r, d') →
  let t := tick (clock d) in
  principals d !! target = Some false ∧ id_revoked d !! target = None
  ∧ principals d' = <[target := true]> (principals d) ∧ id_revoked d' = <[target := t]> (id_revoked d)
  ∧ ∃ es, events d' = events d ++ es ∧ NoDup (e_machine <$> es)
      ∧ (∀ m, m ∈ e_machine <$> es ↔ ∃ plan, affects target t d m plan)
      ∧ ∀ e, e ∈ es → ∃ ps, e_entry e = EvIdentityRevocation target ps (q_principal q) (q_role q) reason
          ∧ NoDup ps ∧ ∀ plan, plan ∈ ps ↔ affects target t d (e_machine e) plan.
Proof.
  intros H. apply identity_run in H as (Hp & _ & Hr & Hp' & Hr' & es & He & Hm & _). split_and!; try done.
  destruct (identity_groups_exact target (tick (clock d)) d) as (Hnd & Hall & Hps).
  set (groups := identity_groups target (tick (clock d)) d) in *.
  assert (Hmach : e_machine <$> es = groups.*1).
  { apply (f_equal (fmap fst)) in Hm. by rewrite <- !list_fmap_compose in Hm. }
  exists es. rewrite Hmach. split_and!; try done. intros e Hein.
  assert (Hg : (e_machine e, e_entry e) ∈ identity_entry target reason q <$> groups).
  { rewrite <- Hm. apply list_elem_of_fmap. by exists e. }
  apply list_elem_of_fmap in Hg as ([m ps] & [= -> ->] & Hin). exists ps. split; [done|]. by apply Hps.
Qed.
Definition gv_revocation : Tx (request * doc) :=
  act_run (identityRevocations sc_tick "prn_1" "left") (gv_request "prn_3" "recovery-admin" "revoke").
Lemma identity_revocation_entries_witness :
  ∃ d', principals d' !! "prn_1" = Some true ∧
    ∃ es, events d' = events gv_committed ++ es ∧ e_machine <$> es = ["mch_1"]
      ∧ ∀ m, m ∈ e_machine <$> es ↔ ∃ plan, affects "prn_1" (sc_tick (clock gv_committed)) gv_committed m plan.
Proof.
  destruct (sc_run_ok gv_revocation gv_committed) as [r Hr]; [by vm_compute|].
  exists (sc_run gv_revocation gv_committed). split; [vm_compute; reflexivity|].
  destruct (identity_revocation_entries _ _ _ _ _ _ _ Hr) as (_ & _ & _ & _ & es & He & _ & Hm & _).
  exists es. split; [exact He|]. split; [|exact Hm].
  assert (Hx : ∃ e1, events (sc_run gv_revocation gv_committed) = events gv_committed ++ [e1] ∧ e_machine e1 = "mch_1")
    by (eexists; split; vm_compute; reflexivity).
  destruct Hx as (e1 & Hx & He1). rewrite He in Hx. apply app_inv_head in Hx as ->. simpl. by rewrite He1.
Defined.

(** Under a validated configuration, a plan that a checked request creates is within the bounds:
    every duration is from a second to a week, its expiry is after its creation, an apply-config plan
    has one to ten attempts and a transport deadline within the deployment's maximum and its own
    verification deadline, and an adopt plan has none of these. *)
Theorem plan_bounds tick decode encode c ex i new q d r d' :
  execution_validate c = Ok ex → plan_input_check i = None →
  act_run (planCreation tick decode encode ex i new) q d = Ok (r, d') →
  ∃ p, plans d' !! new = Some p ∧
    let week := 604800 * 1000000 in let within v := 1000000 ≤ v ≤ week in
    within (p_expires p - p_created p) ∧ within (p_max_age p) ∧ within (p_check_validity p)
    ∧ (p_kind p = KApplyConfig → within (p_transport p) ∧ within (p_verification p) ∧ p_transport p ≤ p_verification p
        ∧ p_transport p * 1000 ≤ ex_max_transport ex ∧ ∃ n, p_max_attempts p = Some n ∧ 1 ≤ n ≤ 10)
    ∧ (p_kind p ≠ KApplyConfig → p_kind p = KAdopt ∧ p_max_attempts p = None ∧ p_transport p = 0 ∧ p_verification p = 0).
Proof.
  intros Hc Hi H. apply execution_validate_ok in Hc as (_ & _ & Hn & (mx & Hmx & Hmx1) & Hf & _). apply plan_input_ok in Hi as (Hop & Hb & Hna).
  apply create_ok in H as (j & m & row & ms & b & Hj & _ & _ & _ & _ & _ & _ & _ & _ & Hp & _).
  apply resolve_input_ok in Hj as (_ & _ & Ho & He & Hg & Hk & Hadopt & Happly). rewrite Hp, lookup_insert_eq.
  rewrite !Forall_cons in Hf. rewrite !Forall_cons in Hb. destruct Hf as ((s1 & Hs1 & ?) & (s2 & Hs2 & ?) & (s3 & Hs3 & ?) & (s4 & Hs4 & ?) & (s5 & Hs5 & ?) & _).
  destruct Hb as (Hb1 & Hb2 & Hb3 & Hb4 & Hb5 & _).
  pose proof (filled_within _ _ _ Hb1 Hs1) as W1. pose proof (filled_within _ _ _ Hb2 Hs2) as W2.
  pose proof (filled_within _ _ _ Hb3 Hs3) as W3. pose proof (filled_within _ _ _ Hb4 Hs4) as W4.
  pose proof (filled_within _ _ _ Hb5 Hs5) as W5. unfold week in *.
  eexists. split; [done|]. simpl. rewrite He, Hg, Hk, Ho. simpl. split_and!; try lia; case_bool_decide as Ha; try done.
  - intros _. destruct Hop as [Hop|[]]; [|done]. destruct (Happly Hop) as (t & v & n & -> & -> & -> & -> & -> & -> & Hmax & Htv). simpl.
    split_and!; try lia.
    + assert (Hq : seconds (ex_max_transport ex) = mx) by (rewrite Hmx; apply Z.quot_mul; unfold second; lia).
      rewrite Hq in Hmax. rewrite Hmx. unfold second. lia.
    + eexists. split; [done|]. destruct (in_attempts i) as [n|]; [by apply Hna|exact Hn].
  - intros _. destruct Hop as [Hop|(_ & Ht & Hv & Hn')]; [congruence|].
    destruct (Hadopt ltac:(congruence)) as (-> & -> & ->). by rewrite Ht, Hv, Hn'.
Qed.
Lemma plan_bounds_witness :
  ∃ p, plans (sc_run (act_run (planCreation sc_tick gv_decode gv_encode gv_execution
         (PlanInput ("rel_" +:+ gv_word) ("mch_" +:+ gv_word) "adopt" None None None None None None None) gv_apply)
         (gv_request "prn_2" "publisher" "k")) gv_wide) !! gv_apply = Some p ∧ p_kind p = KAdopt ∧ p_max_attempts p = None
    ∧ 1000000 ≤ p_max_age p ≤ 604800 * 1000000.
Proof.
  set (i := PlanInput _ _ _ _ _ _ _ _ _ _). set (m := act_run _ _).
  destruct (sc_run_ok m gv_wide) as [r Hr]; [by vm_compute|].
  destruct (plan_bounds sc_tick gv_decode gv_encode (Execution 0 (60 * second) 0 (PlanDefaults 0 0 0 0 0 0)) gv_execution i gv_apply
    (gv_request "prn_2" "publisher" "k") gv_wide r (sc_run m gv_wide)) as (p & Hp & _ & Hage & _ & _ & Hk);
    [vm_compute; reflexivity|vm_compute; reflexivity|exact Hr|].
  exists p. split; [exact Hp|].
  assert (Hka : p_kind p ≠ KApplyConfig).
  { intros Hx. assert (Hy : p_kind <$> plans (sc_run m gv_wide) !! gv_apply = Some KAdopt) by (vm_compute; reflexivity).
    rewrite Hp in Hy. simpl in Hy. congruence. }
  destruct (Hk Hka) as (? & ? & _). auto.
Defined.

(** A created plan binds its machine as it stands: the assignment in force, which is the one its
    release's artifact was compiled from, the machine's Desired release, baseline and open drift record,
    and, for an apply-config plan, which is of the Desired release of a machine that has an Applied one,
    the digest the machine last showed; it is proposed, and no plan had its identifier. *)
Theorem plan_binds_current tick decode encode ex i new q d r d' :
  act_run (planCreation tick decode encode ex i new) q d = Ok (r, d') →
  ∃ p ms row j b, plans d' = <[new := p]> (plans d) ∧ plans d !! new = None
    ∧ pstates d' !! new = Some (PlanState Proposed None None 1 (p_created p) None) ∧ p_created p = tick (clock d)
    ∧ artifacts d !! (in_release i, in_machine i) = Some row ∧ mstates d !! in_machine i = Some ms
    ∧ heads d !! in_machine i = Some (p_assignment p) ∧ p_assignment p = rm_assignment row
    ∧ p_desired p = ms_desired ms ∧ p_drift p = pb_drift b ∧ p_baseline p = pb_baseline b ∧ p_expected p = pb_expected b
    ∧ in_operation j = in_operation i ∧ binds j ms d b
    ∧ p_created_by p = q_principal q ∧ p_release p = in_release i ∧ p_machine p = in_machine i.
Proof.
  intros H. apply create_ok in H as (j & m & row & ms & b & Hj & Hm & _ & Hrow & Hms & Hh & Hb & Hn & _ & Hp & Hps).
  apply resolve_input_ok in Hj as (Hr & Hmc & Ho & _).
  eexists _, ms, row, j, b. rewrite Hp, Hps, lookup_insert_eq. split_and!; simpl; by rewrite ?Hr, ?Hmc.
Qed.
Definition gv_replan : Tx (request * doc) :=
  act_run (planCreation sc_tick gv_decode gv_encode gv_execution (gv_input "apply-config" (Some "no-reboot")) gv_apply)
    (gv_request "prn_2" "publisher" "k").
Lemma plan_binds_current_witness :
  ∃ p, plans (sc_run gv_replan gv_adopted) !! gv_apply = Some p ∧ heads gv_adopted !! "mch_1" = Some (p_assignment p)
    ∧ p_created_by p = "prn_2".
Proof.
  destruct (sc_run_ok gv_replan gv_adopted) as [r Hr]; [by vm_compute|].
  destruct (plan_binds_current _ _ _ _ _ _ _ _ _ _ Hr) as (p & ms & row & j & b & Hp & _ & _ & _ & _ & _ & Hh & _ & _ & _ & _ & _ & _ & _ & Hc & _).
  exists p. rewrite Hp, lookup_insert_eq. split; [reflexivity|]. split; [exact Hh|exact Hc].
Defined.

(** An adoption is recorded only by a controller of the current epoch, of an adopt plan approved in
    that epoch and unexpired, whose bound assignment, Desired release, baseline and drift record still
    hold, on the machine's latest observation, begun after the approval and no older than the plan
    allows, which shows the machine's identity, the import base's digest and the plan's assignment,
    while nothing holds the machine's scope and the scope is released, or normal outside recovery; the
    plan's release is then Applied, at the next baseline. *)
Theorem adoption_rests_on tick a plan op d r d' :
  governed_inv d → adoptionTx tick a plan op d = Ok (r, d') →
  let t := tick (clock d) in ∃ p m s ms e ap,
    epoch d = owner_epoch a ∧ plans d !! plan = Some p ∧ p_kind p = KAdopt ∧ pstates d !! plan = Some s ∧ ps_state s = Approved
    ∧ (ps_approval s ≫= λ i, approvals d !! i) = Some ap ∧ ap_epoch ap = epoch d ∧ t < p_expires p
    ∧ mstates d !! p_machine p = Some ms ∧ heads d !! p_machine p = Some (p_assignment p)
    ∧ ms_desired ms = p_desired p ∧ ms_baseline ms = p_baseline p ∧ (p_drift p = None → ms_applied ms = None)
    ∧ adoption_evidence_of (p_machine p) (p_release p) d = Some e ∧ unread_adoption (ae_obs e) = []
    ∧ ap_revision ap < o_basis (ae_obs e) ∧ time_sub t (ae_started e) ≤ duration_of_micros (p_max_age p)
    ∧ identityMatch (ae_machine e) (ae_talos e) (ae_obs e) = true ∧ o_digest (ae_obs e) = Some (ae_baseline e)
    ∧ o_assignment (ae_obs e) = Some (p_assignment p)
    ∧ machines d !! p_machine p = Some m ∧ any_active (p_machine p) d = false
    ∧ (m_scope m = "released" ∨ m_scope m = "normal" ∧ recovery d = false)
    ∧ mstates d' = alter (adopted_state (p_release p) (ae_baseline e)) (p_machine p) (mstates d).
Proof.
  intros [Hinv _ _] H. apply adoptionTx_ok in H as (c & e & t & Hl & -> & Hc & He & Hev & Hsc & Hr & _).
  apply adoption_locks_ok in Hl as (_ & Hep & Hcur & Hp & Hk & Hm & Hs & Hap & Hh & Hms & Hrec & _ & _ & Hhold & _).
  apply (adoption_plan_check_ok tick) in Hc as (_ & Hst & _ & Hexp & Hae & _ & Hhead & Hdes & Hdr & _ & Hbase).
  apply (adoption_evidence_ok tick) in Hev as (e' & [= <-] & Hun & Hrev & Hage & Hid & Hdig & Has).
  apply adoption_scope_ok in Hsc as [Hh0 Hsc]. apply adoption_record_state in Hr as [Hms' _].
  destruct (in_force _ d _ _ _ eq_refl Hinv Hs Hst Hap) as (_ & i & ap & Hi & Hai & Hape); [by rewrite Hae|].
  simpl in Hai. rewrite Hi in Hap. simpl in Hap. rewrite Hai in Hap. rewrite Hap in Hrev. simpl in Hrev.
  exists (dr_plan c), (dr_machine c), (dr_pstate c), (dr_mstate c), e, ap. rewrite Hi. simpl.
  rewrite Hrec in Hsc. split_and!; try done; congruence.
Qed.
Lemma adoption_rests_on_witness :
  ∃ e, adoption_evidence_of "mch_1" "rel_1" gv_seen = Some e ∧ o_digest (ae_obs e) = Some (ae_baseline e)
    ∧ mstates gv_adopted = alter (adopted_state "rel_1" (ae_baseline e)) "mch_1" (mstates gv_seen).
Proof.
  destruct (sc_run_ok (adoptionTx sc_tick sc_api gv_adopt "op_0") gv_seen) as [r Hr]; [by vm_compute|].
  destruct (adoption_rests_on _ _ _ _ _ _ _ (gv_reached_inv _ gv_seen_reached) Hr)
    as (p & m & s & ms & e & ap & _ & Hp & _ & _ & _ & _ & _ & _ & _ & _ & _ & _ & _ & He & _ & _ & _ & _ & Hd & _ & _ & _ & _ & Hms).
  assert (Hx : ∀ q, plans gv_seen !! gv_adopt = Some q → p_machine q = "mch_1" ∧ p_release q = "rel_1").
  { intros q Hq. vm_compute in Hq. injection Hq as <-. by split. }
  destruct (Hx p Hp) as [Hxm Hxr]. rewrite Hxm, Hxr in He, Hms. exists e. split; [exact He|]. split; [exact Hd|exact Hms].
Defined.
