(* ===== verification/Recovery.v ===== *)
(** * Recovery mode: its entry, the accounting, marking and release of each scope, its exit, and the
    recovery-admin's acts on an operation ([internal/api/recovery_*.go]); and a machine's inventory
    ([inventory.go]), which gives a machine its first scope state. *)

From stdpp Require Import sorting.
From S2P Require Import Prelude Store World Evidence Commit Outcome Settle.
From S2P Require Import Request Ident IngestPath Governance.

(** ** Texts ([inventory.go]) *)

(** [utf8.DecodeRuneInString]'s valid cases: a rune in its shortest form, no surrogate. *)
Definition continuation (b : N) : bool := ((128 <=? b) && (b <=? 191))%N.
Definition next_rune (l : list N) : option (N * list N) :=
  (match l with
   | b :: l =>
       if b <? 128 then Some (b, l) else
       match l with
       | b1 :: l =>
           if (194 <=? b) && (b <=? 223) && continuation b1 then Some ((b - 192) * 64 + (b1 - 128), l) else
           match l with
           | b2 :: l =>
               let r3 := (b - 224) * 4096 + (b1 - 128) * 64 + (b2 - 128) in
               if (224 <=? b) && (b <=? 239) && continuation b1 && continuation b2 && (2048 <=? r3)
                  && negb ((55296 <=? r3) && (r3 <=? 57343)) then Some (r3, l) else
               match l with
               | b3 :: l =>
                   let r4 := (b - 240) * 262144 + (b1 - 128) * 4096 + (b2 - 128) * 64 + (b3 - 128) in
                   if (240 <=? b) && (b <=? 244) && continuation b1 && continuation b2 && continuation b3
                      && (65536 <=? r4) && (r4 <=? 1114111) then Some (r4, l) else None
               | [] => None
               end
           | [] => None
           end
       | [] => None
       end
   | [] => None
   end)%N.
(** A text's runes, none of it invalid; the fuel is its length. *)
Fixpoint runes_fuel (n : nat) (l : list N) : option (list N) :=
  match l, n with
  | [], _ => Some []
  | _, O => None
  | _, S n => '(r, l) ← next_rune l; cons r <$> runes_fuel n l
  end.
Definition runes (s : string) : option (list N) :=
  runes_fuel (String.length s) (N_of_ascii <$> String.list_ascii_of_string s).
Definition isControl (r : N) : bool := ((r <? 32) || ((127 <=? r) && (r <? 160)))%N.

(** [text]: given, not blank, at most [max] bytes, UTF-8 without control characters. *)
Definition text (v : string) (max : Z) : bool :=
  negb (blank v) && (Z.of_nat (String.length v) <=? max)
  && match runes v with Some l => negb (existsb isControl l) | None => false end.

(** ** The requests *)

Definition maxFacts : nat := 16.
Definition maxAccountedScopes : nat := 256.

(** [checkFacts]: whether the facts pass; Go's map order chooses the message of several. *)
Definition checkFacts (facts : gmap string string) : bool :=
  bool_decide (size facts ≤ maxFacts)%nat
  && bool_decide (map_Forall (λ k v, text k 64 = true ∧ text v maxReason = true) facts).

(** [restoredBackup] and [entryRequest]; a time not given is [None]. *)
Record restoredBackup := RestoredBackup { rb_family : string; rb_backup : string; rb_taken : option Z }.
Record entryRequest := EntryRequest { en_restored : list restoredBackup; en_stopped : option Z; en_reason : string }.
Definition backupFamilies : list string := ["database"; "provider"; "credential-store"].

(** A time given, and not in the future. *)
Definition past (now : Z) (t : option Z) : bool := match t with Some t => t <=? now | None => false end.
Fixpoint check_restored (now : Z) (seen : list string) (l : list restoredBackup) : option string :=
  match l with
  | [] => None
  | b :: l =>
      if negb (bool_decide (rb_family b ∈ backupFamilies))
      then Some "a restored family must be database, provider or credential-store"
      else if bool_decide (rb_family b ∈ seen) then Some ("restored names the " +:+ rb_family b +:+ " family twice")
      else if negb (past now (rb_taken b)) then Some "a restored backup's takenAt must be given, and not in the future"
      else if negb (text (rb_backup b) 256) then Some "a restored backup"
      else check_restored now (rb_family b :: seen) l
  end.
Definition entry_check (now : Z) (i : entryRequest) : option string :=
  if bool_decide (en_restored i = []) || bool_decide (length backupFamilies < length (en_restored i))%nat
  then Some "restored must name each restored backup family once, at least one"
  else match check_restored now [] (en_restored i) with
       | Some e => Some e
       | None =>
           if negb (past now (en_stopped i)) then Some "stoppedAt must be given, and not in the future"
           else if negb (text (en_reason i) maxReason) then Some "reason" else None
       end.

(** [scopeSettle], and [scopeAccountingRequest]'s check of its scopes. *)
Record scopeSettle := ScopeSettle { ss_machine : string; ss_start : string; ss_end : string }.
Fixpoint check_scopes (seen : list string) (l : list scopeSettle) : option string :=
  match l with
  | [] => None
  | s :: l =>
      if negb (MustHave (ss_machine s) "mch") then Some "a scope's machine must be a machine identifier"
      else if negb (MustHave (ss_start s) "obs") || negb (MustHave (ss_end s) "obs")
      then Some "a scope's start and end must be observation identifiers"
      else if bool_decide (ss_machine s ∈ seen) then Some ("scopes names machine " +:+ ss_machine s +:+ " twice")
      else check_scopes (ss_machine s :: seen) l
  end.
Definition accounting_check (scopes : list scopeSettle) (facts : gmap string string) : option string :=
  if bool_decide (scopes = []) || bool_decide (maxAccountedScopes < length scopes)%nat
  then Some "scopes must name 1 to 256 scopes"
  else match check_scopes [] scopes with
       | Some e => Some e
       | None => if checkFacts facts then None else Some "facts"
       end.

(** ** The process a recovery start runs ([entryState], and what [entered] changes) *)

Record start_state := StartState { en_minted : string; en_adopted : bool; en_owner_epoch : string; en_pre_entry : bool }.
Definition mint (ep : string) (s : start_state) : start_state :=
  StartState ep (en_adopted s) (en_owner_epoch s) (en_pre_entry s).
Definition entered (ep : string) (s : start_state) : start_state :=
  if en_adopted s || negb (bool_decide (ep = en_minted s)) then s else StartState (en_minted s) true ep false.
(** What answering the entry's record changes: a record of this process's entry, in the current epoch. *)
Definition completed_entry (r : record_row) (current : string) (s : start_state) : start_state :=
  if bool_decide (rec_epoch r = en_minted s) && bool_decide (rec_epoch r = current) then entered (rec_epoch r) s else s.
Definition started (s : start_state) : server := Server true (en_pre_entry s) (en_minted s).

(** ** Rows *)

Definition with_scope (s : string) (m : machine) : machine :=
  Machine (m_cluster m) s (m_frozen m) (m_counter m) (m_smbios m) (m_node m) (m_endpoint m).
(** A job failed at entry: no owner, no lease. *)
Definition with_failure (error : doc) (o : operation) : operation :=
  Operation (op_seq o) (op_kind_of o) Failed (op_epoch o) None (op_gen o) None
    (op_plan o) (op_machine o) (op_cluster o) (op_created o) (op_result o) (Some error).
Definition update_rlog (f : recovery_log → recovery_log) : Tx unit := modify (λ d, set_rlog (f (rlog d)) d).
Definition with_epoch (ep : string) (r : epoch_row) (l : recovery_log) : recovery_log :=
  RecoveryLog (<[ep := r]> (epochs l)) (scope_accountings l) (scope_releases l) (exits l) (claims l) (ingests l)
    (op_events l) (facts l).
Definition with_claims (c : gmap string bool) (l : recovery_log) : recovery_log :=
  RecoveryLog (epochs l) (scope_accountings l) (scope_releases l) (exits l) c (ingests l) (op_events l) (facts l).
Definition with_op_event (op : string) (n : Z) (l : recovery_log) : recovery_log :=
  RecoveryLog (epochs l) (scope_accountings l) (scope_releases l) (exits l) (claims l) (ingests l)
    (<[op := n]> (op_events l)) (facts l).
Definition with_scope_accounting (k : string * string) (x : scope_accounting) (l : recovery_log) : recovery_log :=
  RecoveryLog (epochs l) (<[k := x]> (scope_accountings l)) (scope_releases l) (exits l) (claims l) (ingests l)
    (op_events l) (facts l).
Definition with_scope_release (k : string * string) (x : scope_release) (l : recovery_log) : recovery_log :=
  RecoveryLog (epochs l) (scope_accountings l) (<[k := x]> (scope_releases l)) (exits l) (claims l) (ingests l)
    (op_events l) (facts l).
Definition with_exit (ep : string) (x : string * string * Z) (l : recovery_log) : recovery_log :=
  RecoveryLog (epochs l) (scope_accountings l) (scope_releases l) (<[ep := x]> (exits l)) (claims l) (ingests l)
    (op_events l) (facts l).

Definition set_scope (m s : string) : Tx unit := modify (λ d, set_machines (alter (with_scope s) m (machines d)) d).
(** An INSERT whose primary key is taken. *)
Definition insert_unless {A} (k : Db → option A) (table : string) (f : recovery_log → recovery_log) : Tx unit :=
  dup ← gets (λ d, bool_decide (is_Some (k d))); failIf dup (EDuplicate table);; update_rlog f.

(** [ORDER BY] an identifier. *)
#[export] Instance leb_on_dec {A} (key : A → string) : RelDecision (λ x y, String.leb (key x) (key y) = true).
Proof. intros x y. apply _. Defined.
Definition sort_on {A} (key : A → string) : list A → list A := merge_sort (λ x y, String.leb (key x) (key y) = true).
(** The identifiers of a table's rows, in order. *)
Definition ids_where {A} (P : string → A → bool) (m : gmap string A) : list string :=
  sorted_ids (omap (λ ix, if P ix.1 ix.2 then Some ix.1 else None) (map_to_list m)).
Definition all_machines (d : Db) : list (string * string) :=
  omap (λ i, (λ m, (i, m_scope m)) <$> machines d !! i) (ids_where (λ _ _, true) (machines d)).

(** ** [enterRecovery] (T9) *)

(** The operations entry ends or takes over. *)
Definition ended_by_entry (d : Db) (id : string) (o : operation) : bool :=
  match op_kind_of o with
  | KApplyConfig => active (op_st o)
  | KPublish => bool_decide (op_st o ∈ [Queued; Running])
  | KIngest => bool_decide (op_st o = Running)
      && default false (i ← ingests (rlog d) !! id; claims (rlog d) !! i)
  | KAdopt => false
  end.
Definition entry_operations (d : Db) : list (string * operation) :=
  omap (λ i, pair i <$> ops d !! i) (ids_where (ended_by_entry d) (ops d)).

Definition publish_failed : doc :=
  [("code", JStr "recovery-mode-entered"); ("detail", JStr "recovery-mode entry ended the job before it published")].
Definition ingest_failed : doc :=
  [("code", JStr "ingestion-abandoned");
   ("detail", JStr "recovery-mode entry abandoned the staging claim; ingest the input again")].

Section Recovery.
Variable tick : Z → Z.
(** The process, the epoch it started in, and the deployment's maximum transport deadline. *)
Variable a : api.
Variable start : string.
Variable maxTransport : Z.

(** [failOnEntry] *)
Definition failOnEntry (id : string) (o : operation) (ep : string) : Tx unit :=
  let ingest := bool_decide (op_kind_of o = KIngest) in
  n ← gets (λ d, default 0 (op_events (rlog d) !! id) + 1);
  modify (update_op id (with_failure (if ingest then ingest_failed else publish_failed)));;
  update_rlog (with_op_event id n);;
  insert_fact (FOperationEvent id n ep (if ingest then "ingest" else "publish")
    (if ingest then "ingestion-abandoned" else "recovery-mode-entered")).

(** Entry's takeover of an apply-config operation, as it was read. *)
Definition take_over_on_entry (id : string) (o : operation) (ep : string) : Tx unit :=
  let m := str (op_machine o) in
  modify (update_op id (with_state Unresolved ∘ with_owner (owner_id a) (op_gen o + 1) ep));;
  append_event tick m ep (EvOwnership id (str (op_owner o)) (owner_id a) (op_gen o + 1) (op_gen o)
    (str (op_owner_epoch o)) ep "recovery-entry");;
  if bool_decide (op_st o = Unresolved) then mret tt else
  append_event tick m ep (EvOperationState id (op_st o) Unresolved (owner_id a) (op_gen o + 1) None None "recovery-entry");;
  mret tt.
Definition end_on_entry (ep : string) (io : string * operation) : Tx unit :=
  if bool_decide (op_kind_of io.2 = KApplyConfig) then take_over_on_entry io.1 io.2 ep else failOnEntry io.1 io.2 ep.
Definition close_scope (ep act : string) (ms : string * string) : Tx unit :=
  set_scope ms.1 unaccounted_scope;;
  append_event tick ms.1 ep (EvScopeState ms.2 unaccounted_scope "recovery-entry" act None);;
  mret tt.
Fixpoint each {A} (f : A → Tx unit) (l : list A) : Tx unit :=
  match l with [] => mret tt | x :: l => f x;; each f l end.

Definition entry_write (i : entryRequest) (ep : string) (ms : list (string * string)) (ops : list (string * operation))
    (q : request) : Tx (request * doc) :=
  t ← clock_timestamp tick;
  failIf (negb (past t (en_stopped i))) (EConstraint "recovery_epoch_check");;
  insert_unless (λ d, epochs (rlog d) !! ep) "recovery_epoch"
    (with_epoch ep (EpochRow t (Some (q_principal q)) (en_stopped i)));;
  each (λ r, insert_fact (FRestore ep (rb_family r) (rb_backup r) (default 0 (rb_taken r)))) (en_restored i);;
  modify (set_epoch ep);; modify (set_recovery true);;
  update_rlog (λ l, with_claims (const false <$> claims l) l);;
  each (end_on_entry ep) ops;;
  each (close_scope ep (q_act q)) ms;;
  mret (with_state_read ep true q,
        [("epoch", JStr ep); ("previousEpoch", JStr (q_epoch q)); ("at", JInt t);
         ("machines", JInt (Z.of_nat (length ms)));
         ("operations", JList (omap (λ io, if bool_decide (op_kind_of io.2 = KApplyConfig) then Some io.1 else None) ops))]).

(** The effect, with the epoch it mints. *)
Definition enterRecovery (i : entryRequest) (ep : string) (q : request) : Tx (request * effect_result) :=
  failIf (negb (bool_decide (q_epoch q = start)))
    (refuse 409 "conflict" "a recovery-mode entry has committed since this process started" [("epoch", JStr (q_epoch q))]);;
  failIf (bool_decide (owner_id a = ""))
    (refuse 503 "dependency-unavailable"
       "no provider is configured, so this process has no owner identity to take operations over; nothing was committed" []);;
  ms ← gets all_machines;
  unrevoked (q_principal q);;
  ops ← gets entry_operations;
  mret (q, EffectResult 201 (Some (api_prefix +:+ "/recovery")) [ep] None (entry_write i ep ms ops)).

(** ** The acts on an operation ([recovery_acts.go]) *)

(** [conflictOf]: a transaction's refusal as 409 conflict. *)
Definition conflictOf (e : err) : err :=
  match e with
  | EOutcomeRefused tr cause => refuse 409 "conflict" cause [("transaction", JStr tr)]
  | e => e
  end.
Definition or_conflict {A} (m : Tx A) : Tx A := λ d, match m d with Ok r => Ok r | Err e => Err (conflictOf e) end.

Definition operationMachine (op : string) : Tx string :=
  failIf (negb (MustHave op "op")) (not_found "no such operation" []);;
  o ← getsOr (λ d, o ← ops d !! op; if bool_decide (op_kind_of o = KApplyConfig) then Some o else None)
    (not_found "no such operation" [("operation", JStr op)]);
  getsOr (λ _, op_machine o) (ENoRows "machine").
Definition lockRecoveryAct (op : string) (takeover : bool) (q : request) : Tx operationLock :=
  unrevoked (q_principal q);; lockOperationAs a op takeover.

Definition requestTakeover (op : string) (gen : Z) (reason : string) (q : request) : Tx (request * effect_result) :=
  m ← operationMachine op;
  lockRecoveryAct op true q;;
  mret (q, EffectResult 201 None [op; m] None (λ q,
    g ← or_conflict (takeOverTx tick a op gen reason);
    mret (q, [("operation", JStr op); ("generation", JInt g)]))).

(** The observations of the machine among two identifiers, and how many they must be. *)
Definition observations_among (m s e : string) (d : Db) : nat :=
  length (filter (λ o, o_machine o = m ∧ o_id o ∈ [s; e]) (observations d)).
Definition settle_ends (s e : string) : nat := if bool_decide (s = e) then 1%nat else 2%nat.

Definition decideAccounting (op att s e : string) (given : gmap string string) (q : request) : Tx (request * effect_result) :=
  m ← operationMachine op;
  t ← getsOr (λ d, if MustHave att "att" then attempt_row att d else None)
    (not_found "no such attempt of the operation" [("operation", JStr op); ("attempt", JStr att)]);
  failIf (negb (bool_decide (at_operation t = op)))
    (not_found "no such attempt of the operation" [("operation", JStr op); ("attempt", JStr att)]);;
  found ← gets (observations_among m s e);
  failIf (negb (bool_decide (found = settle_ends s e)))
    (not_found "no such observation of the operation's machine" [("operation", JStr op)]);;
  lockRecoveryAct op false q;;
  mret (q, EffectResult 201 None [op; att; m] None (λ q,
    rev ← or_conflict (accountByDecision tick a att (q_principal q) (q_act q) s e (given !! "explanation"));
    mret (q, [("operation", JStr op); ("attempt", JStr att); ("revision", JInt rev)]))).

(** A resolution's write: an unresolved operation with no attempt is cancelled, under its own token. *)
Definition resolution_write (op : string) (l : operationLock) (q : request) : Tx (request * doc) :=
  failIf (negb (bool_decide (l_state l = Unresolved)))
    (conflictOf (EOutcomeRefused "resolution" ("the operation is " +:+ state_text (l_state l))));;
  attempted ← gets (λ d, negb (bool_decide (attempts_of op d = [])));
  failIf attempted (conflictOf (EOutcomeRefused "resolution" "an attempt is recorded for the operation"));;
  modify (update_op op (with_state Cancelled));;
  ra ← appendEntry tick l (EvOperationState op Unresolved Cancelled (str (l_owner l)) (l_gen l) (Some (owner_id a)) None
         "resolution");
  mret (q, [("operation", JStr op); ("state", JStr "cancelled"); ("revision", JInt ra.1)]).
Definition resolveByDecision (op : string) (q : request) : Tx (request * effect_result) :=
  failIf (bool_decide (owner_id a = "")) ENotController;;
  m ← operationMachine op;
  l ← lockRecoveryAct op false q;
  mret (q, EffectResult 201 None [op; m] None (resolution_write op l)).

(** ** [accountScopes] (step 1) *)

(** The scope's restored attempts not accounted for, in order, and the deadline their settle counts from. *)
Definition restored_attempts (m : string) (d : Db) : list attempt :=
  sort_on at_id
    (filter (λ t, at_machine t = m ∧ accounted_for (at_id t) d = false) (attempts d)).
Definition settle_deadline (floor : Z) (l : list attempt) : Z := foldr Z.max floor (at_transport <$> l).

Definition account_restored (m ep : string) (b : accounting_basis) (t : attempt) : Tx unit :=
  ka ← append_event tick m ep (EvAccounting (at_operation t) (at_id t) b);
  modify (λ d, set_accountings (accountings d ++ [AccountingRow (at_id t) m b ka.2 ka.1]) d).

Definition scope_conflict (m cause : string) : err := conflict cause [("machine", JStr m)].
Definition accountScope (q : request) (given : gmap string string) (floor : Z) (s : scopeSettle) : Tx unit :=
  let m := ss_machine s in
  row ← machine_row m;
  holds ← gets (machine_held m);
  failIf (negb (bool_decide (m_scope row = unaccounted_scope)))
    (scope_conflict m ("the scope is " +:+ m_scope row +:+ ", not pre-restore unaccounted"));;
  l ← gets (restored_attempts m);
  r ← settled a m (settle_deadline floor l) (settle_deadline floor l) (ss_start s) (ss_end s) (given !! "explanation");
  match r with
  | inr cause => throw (scope_conflict m cause)
  | inl facts =>
      each (account_restored m (q_epoch q) (ByDecision (q_principal q) (q_act q) (ss_start s) (ss_end s) facts)) l;;
      let to_ := if (holds : bool) then "unresolved" else "blocked" in
      set_scope m to_;;
      ra ← append_event tick m (q_epoch q) (EvScopeState (m_scope row) to_ "post-restore-accounting" (q_act q) None);
      insert_unless (λ d, scope_accountings (rlog d) !! (m, q_epoch q)) "scope_accounting"
        (with_scope_accounting (m, q_epoch q)
           (ScopeAccounting (q_principal q) (q_act q) (ss_start s) (ss_end s) facts ra.2 ra.1))
  end.

Definition check_observations (s : scopeSettle) : Tx unit :=
  found ← gets (observations_among (ss_machine s) (ss_start s) (ss_end s));
  failIf (negb (bool_decide (found = settle_ends (ss_start s) (ss_end s))))
    (not_found "no such observation of the scope's machine" [("machine", JStr (ss_machine s))]).
Definition accountScopes (scopes : list scopeSettle) (given : gmap string string) (q : request) : Tx (request * effect_result) :=
  failIf (negb (bool_decide (q_epoch q = owner_epoch a))) ENotController;;
  row ← getsOr (λ d, epochs (rlog d) !! q_epoch q) (ENoRows "recovery_epoch");
  stopped ← getsOr (λ _, if q_recovery q then ep_stopped row else None)
    (conflict "recovery mode is not in effect after a restore" []);
  let l := sort_on ss_machine scopes in
  each check_observations l;;
  locked ← gets (λ d, size (filter (λ im, im.1 ∈ ss_machine <$> l) (machines d)));
  failIf (negb (bool_decide (locked = length l))) (not_found "a named scope's machine does not exist" []);;
  unrevoked (q_principal q);;
  mret (q, EffectResult 201 None (ss_machine <$> l) None (λ q,
    each (accountScope q given (stopped + maxTransport)) l;;
    mret (q, [("scopes", JList (ss_machine <$> l)); ("epoch", JStr (q_epoch q))]))).

(** ** [markScope] (step 6) *)

(** [markRefusal]: the states a scope may be marked in. *)
Definition markRefusal (m state : string) : option err :=
  if bool_decide (state ∈ ["blocked"; "unresolved"; "ready"]) then None
  else if bool_decide (state = unaccounted_scope)
  then Some (refuse 409 "recovery-mode-active"
    "the scope is still pre-restore unaccounted: it leaves only by the post-restore accounting decision"
    [("machine", JStr m); ("scope", JStr state)])
  else Some (conflict ("the scope is " +:+ state +:+ " and is not marked") [("machine", JStr m); ("scope", JStr state)]).

(** [markEvidence]: the machine, the restoration observation, the Desired release checked ("" for
    none), the failed dependencies, and whether the observation used another Talos access. *)
Record markEvidence := MarkEvidence {
  mk_machine : string; mk_observation : string; mk_release : string; mk_missing : list string; mk_other_access : bool }.

(** No commitment or operation state change at or after the observation's basis. *)
Definition quiet_since (m : string) (basis : Z) (d : Db) : bool :=
  negb (existsb (λ e, bool_decide (e_machine e = m) && (basis <=? e_revision e)
    && bool_decide (entry_kind (e_entry e) ∈ ["commitment"; "operation-state"])) (events d)).
(** A later observation read another identity than the record's. *)
Definition identity_contradicted (i : string) (m : machine) (talos : string) (basis : Z) (d : Db) : bool :=
  existsb (λ o, bool_decide (o_machine o = i) && (basis <? o_basis o) && was_read "identity" o
    && negb (identityMatch m talos o)) (observations d).
Definition accounted_before (i ep : string) (o : observation) (d : Db) : bool :=
  match scope_accountings (rlog d) !! (i, ep) with Some x => sa_revision x <? o_basis o | None => false end.

(** What is missing, in the order the evidence is checked. *)
Definition mark_missing (ev : markEvidence) (ep : string) (m : machine) (talos : string) (o : observation) (d : Db) : list string :=
  let read := was_read "identity" o in
  (if negb read || negb (accounted_before (mk_machine ev) ep o d) || negb (quiet_since (mk_machine ev) (o_basis o) d)
      || mk_other_access ev then ["observation"] else [])
  ++ (if (read && negb (identityMatch m talos o)) || identity_contradicted (mk_machine ev) m talos (o_basis o) d
      then ["identity"] else [])
  ++ mk_missing ev.
Definition mark_state (held : bool) (missing : list string) : string :=
  if held then "unresolved" else if bool_decide (missing = []) then "ready" else "blocked".

Definition mark_write (ev : markEvidence) (from to_ : string) (missing : list string) (q : request) : Tx (request * doc) :=
  set_scope (mk_machine ev) to_;;
  ra ← append_event tick (mk_machine ev) (q_epoch q) (EvScopeState from to_ "restoration-mark" (q_act q)
         (if bool_decide (mk_release ev = "") then None else Some (mk_release ev)));
  mret (q, [("machine", JStr (mk_machine ev)); ("from", JStr from); ("state", JStr to_); ("missing", JList missing);
            ("revision", JInt ra.1)]).
Definition markScope (ev : markEvidence) (q : request) : Tx (request * effect_result) :=
  failIf (negb (q_recovery q)) (conflict "recovery mode is not in effect" []);;
  failIf (negb (bool_decide (q_epoch q = owner_epoch a))) ENotController;;
  let i := mk_machine ev in
  m ← machine_row i;
  talos ← getsOr (λ d, clusters d !! m_cluster m) (ENoRows "cluster");
  ms ← mstate_row i;
  o ← getsOr (observation_of i (mk_observation ev)) (ENoRows "observation");
  missing ← gets (mark_missing ev (q_epoch q) m talos o);
  unrevoked (q_principal q);;
  reject (markRefusal i (m_scope m));;
  failIf (negb (bool_decide (str (ms_desired ms) = mk_release ev)))
    (scope_conflict i "the Desired release changed while the scope was checked; nothing was marked");;
  held ← gets (machine_held i);
  mret (q, EffectResult 201 (Some (api_prefix +:+ "/machines/" +:+ i)) [i] None
    (mark_write ev (m_scope m) (mark_state held missing) missing)).

(** ** [releaseScope] *)

(** The machine's latest mark that made its scope ready: its revision and the release it checked. *)
Definition is_ready_mark (e : entry) : bool :=
  match e with EvScopeState _ to_ cause _ _ => bool_decide (cause = "restoration-mark") && bool_decide (to_ = "ready") | _ => false end.
Definition entry_release (e : entry) : option string := match e with EvScopeState _ _ _ _ r => r | _ => None end.

Definition release_write (m from : string) (mark : Z) (q : request) : Tx (request * doc) :=
  set_scope m "released";;
  ra ← append_event tick m (q_epoch q) (EvScopeState from "released" "release" (q_act q) None);
  insert_unless (λ d, scope_releases (rlog d) !! (m, q_epoch q)) "scope_release"
    (with_scope_release (m, q_epoch q) (ScopeRelease (q_principal q) (q_act q) mark ra.2 ra.1));;
  mret (q, [("machine", JStr m); ("from", JStr from); ("state", JStr "released"); ("mark", JInt mark); ("revision", JInt ra.1)]).
Definition releaseScope (m : string) (q : request) : Tx (request * effect_result) :=
  failIf (negb (MustHave m "mch")) (not_found "no such machine" []);;
  failIf (negb (q_recovery q)) (conflict "recovery mode is not in effect" []);;
  failIf (negb (bool_decide (q_epoch q = owner_epoch a))) ENotController;;
  row ← getsOr (λ d, machines d !! m) (not_found "no such machine" [("machine", JStr m)]);
  ms ← mstate_row m;
  mark ← gets (latest_event m is_ready_mark);
  unrevoked (q_principal q);;
  let scope := m_scope row in
  failIf (bool_decide (scope = unaccounted_scope))
    (refuse 409 "recovery-mode-active"
       "the scope is still pre-restore unaccounted: it leaves only by the post-restore accounting decision"
       [("machine", JStr m); ("scope", JStr scope)]);;
  failIf (negb (bool_decide (scope = "ready")))
    (conflict ("the scope is " +:+ scope +:+ "; only a ready scope is released") [("machine", JStr m); ("scope", JStr scope)]);;
  e ← getsOr (λ _, mark)
    (conflict ("the scope is " +:+ scope +:+ "; only a ready scope is released") [("machine", JStr m); ("scope", JStr scope)]);
  failIf (negb (bool_decide (ms_desired ms = entry_release (e_entry e))))
    (scope_conflict m "the Desired release changed since the scope was marked; mark it again");;
  mret (q, EffectResult 201 (Some (api_prefix +:+ "/machines/" +:+ m)) [m] None (release_write m scope (e_revision e))).

(** ** [leaveRecovery] *)

Definition open_scope (ep act m : string) : Tx unit :=
  set_scope m "normal";;
  append_event tick m ep (EvScopeState "released" "normal" "exit" act None);;
  mret tt.
Definition exit_write (ms : list string) (q : request) : Tx (request * doc) :=
  modify (set_recovery false);;
  each (open_scope (q_epoch q) (q_act q)) ms;;
  t ← clock_timestamp tick;
  insert_unless (λ d, exits (rlog d) !! q_epoch q) "recovery_exit" (with_exit (q_epoch q) (q_principal q, q_act q, t));;
  mret (with_state_read (q_epoch q) false q, [("epoch", JStr (q_epoch q)); ("at", JInt t); ("scopes", JList ms)]).
Definition leaveRecovery (q : request) : Tx (request * effect_result) :=
  failIf (negb (q_recovery q)) (conflict "recovery mode is not in effect" []);;
  failIf (negb (bool_decide (q_epoch q = owner_epoch a))) ENotController;;
  ms ← gets all_machines;
  unrevoked (q_principal q);;
  reject ((λ ms, conflict ("the scope is " +:+ ms.2 +:+ "; recovery mode is left only once every scope is released")
    [("machine", JStr ms.1); ("scope", JStr ms.2)]) <$> find (λ ms, negb (bool_decide (ms.2 = "released"))) ms);;
  mret (q, EffectResult 201 (Some (api_prefix +:+ "/recovery")) [q_epoch q] None (exit_write ms.*1)).

(** ** [inventoryMachine] *)

(** [machineInput]: its cluster, its one identity key and its endpoint; its serial and platform are
    not read back. *)
Record machineInput := MachineInput {
  mi_cluster : string; mi_smbios : option string; mi_node : option string; mi_endpoint : string }.
Definition clusterExists (c : string) : Tx unit :=
  ok ← gets (λ d, bool_decide (is_Some (clusters d !! c)));
  failIf (negb ok) (not_found "no such cluster" [("cluster", JStr c)]).
(** A machine recorded under one of the input's keys. *)
Definition same_key (i : machineInput) (m : machine) : bool :=
  bool_decide (is_Some (mi_smbios i) ∧ m_smbios m = mi_smbios i) || bool_decide (is_Some (mi_node i) ∧ m_node m = mi_node i).
Definition inventoryMachine (i : machineInput) (new : string) (q : request) : Tx (request * effect_result) :=
  clusterExists (mi_cluster i);;
  found ← gets (λ d, head (ids_where (λ _, same_key i) (machines d)));
  reject ((λ m, conflict "a machine with this identity key is already inventoried" [("machine", JStr m)]) <$> found);;
  taken ← gets (λ d, bool_decide (is_Some (machines d !! new)));
  failIf taken (ENoRows "machine");;
  let scope := if q_recovery q then unaccounted_scope else "normal" in
  modify (λ d, set_machines (<[new := Machine (mi_cluster i) scope false 0 (mi_smbios i) (mi_node i) (mi_endpoint i)]>
    (machines d)) d);;
  dup ← gets (λ d, bool_decide (is_Some (mstates d !! new)));
  failIf dup (EDuplicate "machine_state");;
  modify (λ d, set_mstates (<[new := MachineState 0 None None None None None]> (mstates d)) d);;
  mret (q, EffectResult 201 (Some (api_prefix +:+ "/machines/" +:+ new)) [new] None
    (λ q, mret (q, [("id", JStr new); ("scopeState", JStr scope)]))).

(** ** Their routes ([routes.go]) *)

Definition recovery_route (pattern action : string) (f : request → Tx (request * effect_result)) : route :=
  Route pattern ["recovery-admin"] true false false false action f.
Definition recoveryEntry (i : entryRequest) (ep : string) : route :=
  recovery_route entryPattern "recovery.enter" (enterRecovery i ep).
Definition exitRoute : route := recovery_route "/recovery/exits" "recovery.exit" leaveRecovery.
Definition scopeMarkRoute (ev : markEvidence) : route :=
  recovery_route "/recovery/scopes/{machine}/marks" "recovery.mark" (markScope ev).
Definition scopeReleaseRoute (m : string) : route :=
  recovery_route "/recovery/scopes/{machine}/releases" "recovery.release" (releaseScope m).
Definition scopeAccountingRoute (scopes : list scopeSettle) (given : gmap string string) : route :=
  recovery_route "/recovery/accountings" "recovery.account" (accountScopes scopes given).
Definition accountingDecisionRoute (op att s e : string) (given : gmap string string) : route :=
  recovery_route "/operations/{id}/attempts/{attempt}/accountings" "attempt.account" (decideAccounting op att s e given).
Definition operationTakeover (op : string) (gen : Z) (reason : string) : route :=
  recovery_route "/operations/{id}/takeovers" "operation.takeover" (requestTakeover op gen reason).
Definition operationResolution (op : string) : route :=
  recovery_route "/operations/{id}/resolutions" "operation.resolve" (resolveByDecision op).
Definition machineInventory (i : machineInput) (new : string) : route :=
  Route "/machines" ["author"] true false false false "machine.inventory" (inventoryMachine i new).
End Recovery.
