(* ===== verification/RecoveryGate.v ===== *)
(** * The gates of recovery mode as an abstract machine: the epochs, and each machine's scope between
    an entry and the exit.

    [rmove] says how a scope may move: an entry closes every scope in a new epoch; the accounting,
    marks and release of the epoch open one again, in that order; the exit returns them all to normal.
    [gate_inv] is what every reachable state satisfies. *)

From stdpp Require Import relations.
From S2P Require Import Prelude Store Commit Outcome Settle Lifecycle Governance GovernanceSpec Governed Recovery.

(** ** The gates *)

Record gates := Gate {
  g_epoch : string; g_recovery : bool; g_epochs : gset string; g_scopes : gmap string string;
  g_accounted : gmap (string * string) scope_accounting; g_released : gmap (string * string) scope_release }.
Definition scopes_of (d : Db) : gmap string string := m_scope <$> machines d.
Definition gate_of (d : Db) : gates :=
  Gate (epoch d) (recovery d) (dom (epochs (rlog d))) (scopes_of d) (scope_accountings (rlog d)) (scope_releases (rlog d)).

(** A machine's row replaced by one of the same scope. *)
Lemma scopes_insert_same i x m (ms : gmap string machine) :
  ms !! i = Some m → m_scope x = m_scope m → m_scope <$> <[i := x]> ms = m_scope <$> ms.
Proof. intros Hm Hx. rewrite fmap_insert. apply insert_id. by rewrite lookup_fmap, Hm, Hx. Qed.
Lemma gate_machines i x m d :
  machines d !! i = Some m → m_scope x = m_scope m → gate_of (set_machines (<[i := x]> (machines d)) d) = gate_of d.
Proof. intros Hm Hx. unfold gate_of, scopes_of. simpl. by rewrite (scopes_insert_same _ _ m). Qed.

#[export] Instance gate_timeline_free : TimelineFree gate_of.
Proof. split; [done| |done]. intros. by eapply gate_machines. Qed.
#[export] Instance gate_drift_free : DriftFree gate_of.
Proof. split; [apply _|done]. Qed.
#[export] Instance gate_core_free : CoreFree gate_of.
Proof. split; [apply _|done..]. Qed.
#[export] Instance gate_act_free : ActFree gate_of.
Proof. split; [apply _|done..| |]; intros; by eapply gate_machines. Qed.

(** ** The abstract machine *)

Definition open_scopes : list string := ["blocked"; "unresolved"; "ready"].
Definition all_scopes (s : string) (g : gates) : gmap string string := const s <$> g_scopes g.

Inductive rmove : gates → gates → Prop :=
| rm_enter g ep :
    ep ∉ g_epochs g →
    rmove g (Gate ep true ({[ep]} ∪ g_epochs g) (all_scopes unaccounted_scope g) (g_accounted g) (g_released g))
| rm_account g m to_ x :
    g_recovery g = true → g_scopes g !! m = Some unaccounted_scope → to_ ∈ ["blocked"; "unresolved"] →
    g_accounted g !! (m, g_epoch g) = None →
    rmove g (Gate (g_epoch g) true (g_epochs g) (<[m := to_]> (g_scopes g))
               (<[(m, g_epoch g) := x]> (g_accounted g)) (g_released g))
| rm_mark g m from to_ :
    g_recovery g = true → g_scopes g !! m = Some from → from ∈ open_scopes → to_ ∈ open_scopes →
    rmove g (Gate (g_epoch g) true (g_epochs g) (<[m := to_]> (g_scopes g)) (g_accounted g) (g_released g))
| rm_release g m x :
    g_recovery g = true → g_scopes g !! m = Some "ready" → g_released g !! (m, g_epoch g) = None →
    rmove g (Gate (g_epoch g) true (g_epochs g) (<[m := "released"]> (g_scopes g)) (g_accounted g)
               (<[(m, g_epoch g) := x]> (g_released g)))
| rm_exit g :
    g_recovery g = true → map_Forall (λ _ s, s = "released") (g_scopes g) →
    rmove g (Gate (g_epoch g) false (g_epochs g) (all_scopes "normal" g) (g_accounted g) (g_released g))
| rm_inventory g m :
    g_scopes g !! m = None →
    (g_recovery g = true → g_accounted g !! (m, g_epoch g) = None ∧ g_released g !! (m, g_epoch g) = None) →
    rmove g (Gate (g_epoch g) (g_recovery g) (g_epochs g)
               (<[m := if g_recovery g then unaccounted_scope else "normal"]> (g_scopes g)) (g_accounted g) (g_released g)).

(** ** Its invariant *)

(** What a scope says of its epoch's records while recovery mode is in effect. *)
Definition scope_fits (accounted released : bool) (s : string) : Prop :=
  (s = unaccounted_scope ∧ accounted = false ∧ released = false)
  ∨ (s ∈ open_scopes ∧ accounted = true ∧ released = false)
  ∨ (s = "released" ∧ accounted = true ∧ released = true).
Definition has {A} (m : gmap (string * string) A) (k : string * string) : bool := bool_decide (is_Some (m !! k)).
Record gate_inv (g : gates) : Prop := {
  gt_epoch : g_epoch g ∈ g_epochs g;
  gt_accounted : ∀ m e, is_Some (g_accounted g !! (m, e)) → e ∈ g_epochs g ∧ is_Some (g_scopes g !! m);
  gt_released : ∀ m e, is_Some (g_released g !! (m, e)) → e ∈ g_epochs g ∧ is_Some (g_scopes g !! m);
  gt_normal : g_recovery g = false → map_Forall (λ _ s, s = "normal") (g_scopes g);
  gt_scopes : g_recovery g = true → map_Forall (λ m s,
    scope_fits (has (g_accounted g) (m, g_epoch g)) (has (g_released g) (m, g_epoch g)) s) (g_scopes g) }.

Lemma has_insert {A} (m : gmap (string * string) A) k x j : has (<[k := x]> m) j = bool_decide (j = k) || has m j.
Proof.
  unfold has. destruct (decide (j = k)) as [->|Hne].
  - rewrite lookup_insert_eq, (bool_decide_true (is_Some _)), bool_decide_true by eauto. done.
  - rewrite lookup_insert_ne by done. by rewrite (bool_decide_false (j = k)).
Qed.
Lemma has_none {A} (m : gmap (string * string) A) k : m !! k = None → has m k = false.
Proof. intros H. unfold has. rewrite H. apply bool_decide_false. by intros [? [=]]. Qed.

Lemma insert_scopes_Some (m : gmap string string) i j s : is_Some (m !! j) → is_Some (<[i := s]> m !! j).
Proof. destruct (decide (i = j)) as [->|]; [by rewrite lookup_insert_eq|by rewrite lookup_insert_ne]. Qed.
Lemma all_scopes_Some s g i : is_Some (all_scopes s g !! i) ↔ is_Some (g_scopes g !! i).
Proof. unfold all_scopes. by rewrite lookup_fmap, fmap_is_Some. Qed.
Lemma all_scopes_all s g : map_Forall (λ _ x, x = s) (all_scopes s g).
Proof. intros i x. unfold all_scopes. rewrite lookup_fmap. by intros (y & _ & ->)%fmap_Some. Qed.

(** The scopes' part of the invariant after one scope moved. *)
Lemma fits_insert (P Q : string → string → Prop) (ss : gmap string string) m s :
  map_Forall P ss → Q m s → (∀ i x, i ≠ m → ss !! i = Some x → P i x → Q i x) → map_Forall Q (<[m := s]> ss).
Proof.
  intros Hp Hq Hi i x. destruct (decide (m = i)) as [->|Hne].
  - rewrite lookup_insert_eq. by intros [= <-].
  - rewrite lookup_insert_ne by done. eauto.
Qed.

Lemma rmove_inv g g' : rmove g g' → gate_inv g → gate_inv g'.
Proof.
  intros H Hi. destruct Hi as [He Ha Hr Hn Hs].
  destruct H as [g ep Hep|g m to_ x Hrec Hm Hto Hacc|g m from to_ Hrec Hm Hfrom Hto|g m x Hrec Hm Hrel|g Hrec Hall|g m Hm Hnew];
    split; simpl in *; try done; try specialize (Hs Hrec).
  - set_solver.
  - intros m e [? ?]%Ha. rewrite all_scopes_Some. set_solver.
  - intros m e [? ?]%Hr. rewrite all_scopes_Some. set_solver.
  - intros _ m s Hm. pose proof (all_scopes_all _ _ _ _ Hm) as ->. left. split; [done|].
    split; apply has_none, eq_None_not_Some; [intros [? _]%Ha|intros [? _]%Hr]; done.
  - intros j e [y Hy]. destruct (decide ((m, g_epoch g) = (j, e))) as [[= <- <-]|Hne].
    + split; [done|]. by rewrite lookup_insert_eq.
    + rewrite lookup_insert_ne in Hy by done. destruct (Ha j e) as [? ?]; [by eexists|]. split; [done|].
      by apply insert_scopes_Some.
  - intros j e [? ?]%Hr. split; [done|]. by apply insert_scopes_Some.
  - intros _. eapply fits_insert; [exact Hs| |]; simpl.
    + rewrite has_insert, bool_decide_true by done. destruct (Hs _ _ Hm) as [(_ & _ & Hf)|[(Hf & _)|(Hf & _)]];
        [|unfold open_scopes in Hf; set_solver|done]. right. left. split; [unfold open_scopes; set_solver|done].
    + intros i y Hne _ Hf. rewrite has_insert, bool_decide_false by congruence. done.
  - intros j e [? ?]%Ha. split; [done|]. by apply insert_scopes_Some.
  - intros j e [? ?]%Hr. split; [done|]. by apply insert_scopes_Some.
  - intros _. eapply fits_insert; [exact Hs| |done]; simpl.
    destruct (Hs _ _ Hm) as [(-> & _)|[(_ & Hf)|(-> & _)]];
      [unfold open_scopes, unaccounted_scope in Hfrom; set_solver| |unfold open_scopes in Hfrom; set_solver]. right. by left.
  - intros j e [? ?]%Ha. split; [done|]. by apply insert_scopes_Some.
  - intros j e [y Hy]. destruct (decide ((m, g_epoch g) = (j, e))) as [[= <- <-]|Hne].
    + split; [done|]. by rewrite lookup_insert_eq.
    + rewrite lookup_insert_ne in Hy by done. destruct (Hr j e) as [? ?]; [by eexists|]. split; [done|].
      by apply insert_scopes_Some.
  - intros _. eapply fits_insert; [exact Hs| |]; simpl.
    + rewrite has_insert, bool_decide_true by done. destruct (Hs _ _ Hm) as [(? & _)|[(_ & Hf & _)|(? & _)]]; [done| |done].
      right. right. by rewrite Hf.
    + intros i y Hne _ Hf. rewrite has_insert, bool_decide_false by congruence. done.
  - intros m e [? ?]%Ha. by rewrite all_scopes_Some.
  - intros m e [? ?]%Hr. by rewrite all_scopes_Some.
  - intros _. apply all_scopes_all.
  - intros j e [? ?]%Ha. split; [done|]. by apply insert_scopes_Some.
  - intros j e [? ?]%Hr. split; [done|]. by apply insert_scopes_Some.
  - intros Hrec. rewrite Hrec. eapply fits_insert; [by apply Hn|done|done].
  - intros Hrec. rewrite Hrec. eapply fits_insert; [by apply Hs| |done]. left. split; [done|].
    destruct (Hnew Hrec). split; by apply has_none.
Qed.
Lemma rmoves_inv g g' : rtc rmove g g' → gate_inv g → gate_inv g'.
Proof. induction 1; eauto using rmove_inv. Qed.

(** ** Epochs only pass *)

(** Whichever epoch is current later, it is the same or a new one. *)
Definition passed (g g' : gates) : Prop :=
  g_epochs g ⊆ g_epochs g' ∧ (g_epoch g' = g_epoch g ∨ g_epoch g' ∉ g_epochs g).
Lemma rmove_passed g g' : rmove g g' → passed g g'.
Proof. unfold passed. destruct 1; simpl; set_solver. Qed.
#[export] Instance passed_trans : Transitive passed.
Proof.
  intros x y z [Hs He] [Hs' He']. split; [by etrans|]. destruct He' as [->|Hn]; [done|]. right. intros Hx. by apply Hn, Hs.
Qed.
#[export] Instance passed_refl : Reflexive passed.
Proof. by split; [|left]. Qed.
Lemma rmoves_passed g g' : rtc rmove g g' → passed g g'.
Proof. induction 1; [done|]. etrans; [by apply rmove_passed|done]. Qed.

(** ** One scope's way *)

(** The moves of one machine's scope. *)
Inductive scope_step : string → string → Prop :=
| ss_closed s : scope_step s unaccounted_scope
| ss_accounted s : s ∈ ["blocked"; "unresolved"] → scope_step unaccounted_scope s
| ss_marked s s' : s ∈ open_scopes → s' ∈ open_scopes → scope_step s s'
| ss_released : scope_step "ready" "released"
| ss_exited : scope_step "released" "normal".
Lemma rmove_scope g g' m s :
  rmove g g' → g_scopes g !! m = Some s →
  ∃ s', g_scopes g' !! m = Some s' ∧ (s' = s ∨ scope_step s s').
Proof.
  intros H Hm.
  destruct H as [g ep Hep|g i to_ x Hrec Hi Hto Hacc|g i from to_ Hrec Hi Hfrom Hto|g i x Hrec Hi Hrel|g Hrec Hall|g i Hi Hnew];
    simpl; unfold all_scopes;
    try (destruct (decide (i = m)) as [->|Hne]; [rewrite lookup_insert_eq|rewrite lookup_insert_ne by done; by exists s; auto]).
  - rewrite lookup_fmap, Hm. eexists. split; [done|]. right. constructor.
  - simplify_eq. eexists. split; [done|]. right. by constructor.
  - simplify_eq. eexists. split; [done|]. right. by apply ss_marked.
  - simplify_eq. eexists. split; [done|]. right. apply ss_released.
  - rewrite lookup_fmap, Hm. eexists. split; [done|]. right. rewrite (Hall _ _ Hm). apply ss_exited.
  - congruence.
Qed.
