(* ===== verification/RecoverySpec.v ===== *)
(** * What the acts of recovery mode do: each is a path of the gates' machine and a run of the
    operations' lifecycle, leaves the authority alone, and accounts for what the restore kept. *)

From stdpp Require Import relations sorting.
From S2P Require Import Prelude Store World Evidence Commit Outcome Settle Lifecycle Refinement System Ident.
From S2P Require Import Request RequestSpec Governance Authority GovernanceSpec Governed ActsSpec Recovery RecoveryGate.

(** ** Frames *)

(** What reads neither the recovery tables, the machines, the installation nor the core's tables. *)
Class RecoveryFree {B} (f : Db → B) : Prop := {
  #[global] recovery_core :: CoreFree f;
  free_rlog : ∀ x d, f (set_rlog x d) = f d;
  free_machines : ∀ x d, f (set_machines x d) = f d;
  free_epoch : ∀ x d, f (set_epoch x d) = f d;
  free_recovery : ∀ x d, f (set_recovery x d) = f d }.
#[export] Instance authority_recovery_free : RecoveryFree authority_of.
Proof. by repeat split. Qed.
#[export] Instance attempts_recovery_free : RecoveryFree attempts.
Proof. by repeat split. Qed.
#[export] Instance book_core_free : CoreFree book.
Proof. by repeat split. Qed.
#[export] Instance book_recovery_free : RecoveryFree book.
Proof. by repeat split. Qed.

Lemma unrevoked_reads {B} (f : Db → B) i : keeps f (unrevoked i).
Proof. unfold unrevoked, principal_row. solve_keeps. Qed.
Lemma each_keeps {A B} (f : Db → B) (g : A → Tx unit) l : (∀ x, keeps f (g x)) → keeps f (each g l).
Proof. intros Hg. induction l; simpl; solve_keeps. Qed.
Lemma or_conflict_ok {A} (m : Tx A) d r : or_conflict m d = Ok r ↔ m d = Ok r.
Proof. unfold or_conflict. by destruct (m d). Qed.
Lemma or_conflict_keeps {A B} (f : Db → B) (m : Tx A) : keeps f m → keeps f (or_conflict m).
Proof. intros Hm d x d' H. exact (Hm _ _ _ (proj1 (or_conflict_ok _ _ _) H)). Qed.
#[export] Hint Resolve unrevoked_reads each_keeps or_conflict_keeps : keeps.

Section Frames.
Context {B : Type} (f : Db → B) `{!RecoveryFree f}.
Variable tick : Z → Z.
Variable a : api.
#[local] Instance recovery_timeline : TimelineFree f := drift_timeline.
#[local] Hint Resolve free_rlog free_machines free_epoch free_recovery free_ops free_accountings free_mstates : act_free.
#[local] Hint Extern 2 (keeps _ (modify (update_op _ _))) => apply keeps_modify; intros; apply free_ops : keeps.
#[local] Hint Resolve lockOperationAs_kept takeOverTx_kept accountByDecision_kept settled_kept : keeps.

Lemma fact_kept x : keeps f (insert_fact x).
Proof. unfold insert_fact. solve_keeps. Qed.
Lemma update_rlog_kept g : keeps f (update_rlog g).
Proof. unfold update_rlog. solve_keeps. Qed.
#[local] Hint Resolve fact_kept update_rlog_kept : keeps.
Lemma insert_unless_kept {A} (k : Db → option A) t g : keeps f (insert_unless k t g).
Proof. unfold insert_unless. solve_keeps. Qed.
Lemma set_scope_kept m s : keeps f (set_scope m s).
Proof. unfold set_scope. solve_keeps. Qed.
#[local] Hint Resolve insert_unless_kept set_scope_kept : keeps.
Lemma failOnEntry_kept i o ep : keeps f (failOnEntry i o ep).
Proof. unfold failOnEntry. solve_keeps. Qed.
Lemma take_over_on_entry_kept i o ep : keeps f (take_over_on_entry tick a i o ep).
Proof. unfold take_over_on_entry. solve_keeps. Qed.
#[local] Hint Resolve failOnEntry_kept take_over_on_entry_kept : keeps.
Lemma end_on_entry_kept ep io : keeps f (end_on_entry tick a ep io).
Proof. unfold end_on_entry. solve_keeps. Qed.
Lemma close_scope_kept ep act ms : keeps f (close_scope tick ep act ms).
Proof. unfold close_scope. solve_keeps. Qed.
Lemma open_scope_kept ep act m : keeps f (open_scope tick ep act m).
Proof. unfold open_scope. solve_keeps. Qed.
#[local] Hint Resolve end_on_entry_kept close_scope_kept open_scope_kept : keeps.
Lemma entry_write_kept i ep ms l q : keeps f (entry_write tick a i ep ms l q).
Proof. unfold entry_write. solve_keeps. Qed.
Lemma resolution_write_kept op l q : keeps f (resolution_write tick a op l q).
Proof. unfold resolution_write. solve_keeps. Qed.
Lemma account_restored_kept m ep b t : keeps f (account_restored tick m ep b t).
Proof. unfold account_restored. solve_keeps. Qed.
#[local] Hint Resolve account_restored_kept : keeps.
Lemma accountScope_kept q g fl s : keeps f (accountScope tick a q g fl s).
Proof. unfold accountScope. solve_keeps. Qed.
#[local] Hint Resolve accountScope_kept : keeps.
Lemma mark_write_kept ev x y l q : keeps f (mark_write tick ev x y l q).
Proof. unfold mark_write. solve_keeps. Qed.
Lemma release_write_kept m x k q : keeps f (release_write tick m x k q).
Proof. unfold release_write. solve_keeps. Qed.
Lemma exit_write_kept ms q : keeps f (exit_write tick ms q).
Proof. unfold exit_write. solve_keeps. Qed.
Lemma inventoryMachine_kept i new q : keeps f (inventoryMachine i new q).
Proof. unfold inventoryMachine, clusterExists. solve_keeps. Qed.
Lemma operationMachine_reads op : keeps f (operationMachine op).
Proof. unfold operationMachine. solve_keeps. Qed.
End Frames.
#[export] Hint Resolve fact_kept update_rlog_kept insert_unless_kept set_scope_kept end_on_entry_kept entry_write_kept
  resolution_write_kept accountScope_kept mark_write_kept release_write_kept exit_write_kept inventoryMachine_kept : keeps.

(** ** What the parts do to the gates *)

Section Gates.
Variable tick : Z → Z.
Variable a : api.

Definition with_scopes (s : gmap string string) (g : gates) : gates :=
  Gate (g_epoch g) (g_recovery g) (g_epochs g) s (g_accounted g) (g_released g).

(** A recovery table's row that is no accounting, release or epoch. *)
Lemma gate_fact x : keeps gate_of (insert_fact x).
Proof. by apply keeps_modify. Qed.
Lemma gate_op_event i n : keeps gate_of (update_rlog (with_op_event i n)).
Proof. by apply keeps_modify. Qed.
Lemma gate_claims g : keeps gate_of (update_rlog (λ l, with_claims (g l) l)).
Proof. by apply keeps_modify. Qed.
Lemma gate_ops i g : keeps (E:=err) gate_of (modify (update_op i g)).
Proof. by apply keeps_modify. Qed.
#[local] Hint Resolve gate_fact gate_op_event gate_claims gate_ops : keeps.
#[local] Hint Resolve takeOverTx_kept accountByDecision_kept settled_kept lockOperationAs_kept : keeps.

Lemma failOnEntry_gate i o ep : keeps gate_of (failOnEntry i o ep).
Proof. unfold failOnEntry. solve_keeps. Qed.
#[local] Hint Resolve failOnEntry_gate : keeps.
Lemma end_on_entry_gate ep io : keeps gate_of (end_on_entry tick a ep io).
Proof. unfold end_on_entry, take_over_on_entry. solve_keeps. Qed.
Lemma account_restored_gate m ep b t : keeps gate_of (account_restored tick m ep b t).
Proof. unfold account_restored. solve_keeps. Qed.
Lemma resolution_write_gate op l q : keeps gate_of (resolution_write tick a op l q).
Proof. unfold resolution_write. solve_keeps. Qed.

Lemma set_scope_gate m s d u d' :
  set_scope m s d = Ok (u, d') → gate_of d' = with_scopes (alter (const s) m (scopes_of d)) (gate_of d).
Proof.
  unfold set_scope. intros H. m_inv. unfold gate_of, with_scopes, scopes_of. simpl. f_equal.
  apply map_eq. intros i. rewrite lookup_fmap. destruct (decide (m = i)) as [->|Hne].
  - rewrite !lookup_alter_eq, lookup_fmap. by destruct (machines d !! i).
  - by rewrite !lookup_alter_ne, lookup_fmap.
Qed.

(** A loop that sets each named scope. *)
Definition sets_scope {A} (f : A → Tx unit) (k : A → string) (s : string) : Prop :=
  ∀ x d u d', f x d = Ok (u, d') → gate_of d' = with_scopes (alter (const s) (k x) (scopes_of d)) (gate_of d).
Lemma close_sets ep act : sets_scope (close_scope tick ep act) fst unaccounted_scope.
Proof.
  intros [m s] d u d' H. unfold close_scope in H. m_inv.
  match goal with H : append_event _ _ _ _ _ = Ok _ |- _ => rewrite (append_event_keeps gate_of tick _ _ _ _ _ _ H) end.
  by eapply set_scope_gate.
Qed.
Lemma open_sets ep act : sets_scope (open_scope tick ep act) id "normal".
Proof.
  intros m d u d' H. unfold open_scope in H. m_inv.
  match goal with H : append_event _ _ _ _ _ = Ok _ |- _ => rewrite (append_event_keeps gate_of tick _ _ _ _ _ _ H) end.
  by eapply set_scope_gate.
Qed.
Lemma each_sets {A} (f : A → Tx unit) k s l d u d' :
  sets_scope f k s → each f l d = Ok (u, d') →
  ∃ m, gate_of d' = with_scopes m (gate_of d)
    ∧ ∀ i, (i ∈ k <$> l → m !! i = const s <$> scopes_of d !! i) ∧ (i ∉ k <$> l → m !! i = scopes_of d !! i).
Proof.
  intros Hf. revert d. induction l as [|x l IH]; intros d H; cbn [each] in H; m_inv.
  - exists (scopes_of d). split; [done|]. intros i. split; [|done]. by intros ?%elem_of_nil.
  - match goal with H : f x _ = _ |- _ => apply Hf in H; rename H into Hx end.
    match goal with H : each f l _ = _ |- _ => destruct (IH _ H) as (m & Hg & Hm) end.
    exists m. rewrite Hg, Hx. split; [done|]. intros i. rewrite fmap_cons. destruct (Hm i) as [Hin Hout].
    replace (scopes_of s0) with (alter (const s) (k x) (scopes_of d)) in * by (by injection Hx).
    destruct (decide (i ∈ k <$> l)) as [Hi|Hi].
    + split; [intros _|by rewrite not_elem_of_cons; intros []]. rewrite (Hin Hi).
      destruct (decide (k x = i)) as [->|]; [rewrite lookup_alter_eq; by destruct (scopes_of d !! i)|by rewrite lookup_alter_ne].
    + rewrite (Hout Hi), elem_of_cons. split.
      * intros [->|?]; [|done]. by rewrite lookup_alter_eq.
      * intros Hne. rewrite lookup_alter_ne; [done|]. intros Heq. apply Hne. by left.
Qed.

(** The identifiers and scopes of every machine. *)
Lemma ids_where_elem {A} (P : string → A → bool) (m : gmap string A) i :
  i ∈ ids_where P m ↔ ∃ x, m !! i = Some x ∧ P i x = true.
Proof.
  unfold ids_where. rewrite sorted_elem, list_elem_of_omap. split.
  - intros ([j x] & Hj%elem_of_map_to_list & H). simpl in H. destruct (P j x) eqn:Hp; simplify_eq. eauto.
  - intros (x & Hi & Hp). exists (i, x). rewrite elem_of_map_to_list. simpl. by rewrite Hp.
Qed.
Lemma omap_keys {A} (g : string → option A) (l : list string) (Hl : ∀ i, i ∈ l → is_Some (g i)) :
  (omap (λ i, pair i <$> g i) l).*1 = l.
Proof.
  induction l as [|i l IH]; simpl; [done|]. destruct (Hl i) as [x Hx]; [by left|]. rewrite Hx. simpl. f_equal.
  apply IH. intros j Hj. apply Hl. by right.
Qed.
Lemma all_machines_eq d : all_machines d = omap (λ i, pair i <$> scopes_of d !! i) (ids_where (λ _ _, true) (machines d)).
Proof.
  unfold all_machines, scopes_of. apply list_omap_ext, Forall2_same_length_lookup_2; [done|].
  intros j i i' Hi Hi'. simplify_eq. rewrite lookup_fmap. by destruct (machines d !! i).
Qed.
Lemma scopes_of_Some i d : is_Some (scopes_of d !! i) ↔ is_Some (machines d !! i).
Proof. unfold scopes_of. by rewrite lookup_fmap, fmap_is_Some. Qed.
Lemma all_machines_keys d : (all_machines d).*1 = ids_where (λ _ _, true) (machines d).
Proof.
  rewrite all_machines_eq. apply omap_keys. intros i (x & Hi & _)%ids_where_elem. rewrite scopes_of_Some. eauto.
Qed.
Lemma all_machines_elem d i s : (i, s) ∈ all_machines d ↔ scopes_of d !! i = Some s.
Proof.
  rewrite all_machines_eq, list_elem_of_omap. split.
  - intros (j & _ & (x & Hx & [= -> ->])%fmap_Some). done.
  - intros Hs. exists i. rewrite ids_where_elem, Hs. split; [|done].
    assert (is_Some (machines d !! i)) as [x Hx] by (apply scopes_of_Some; by eexists). eauto.
Qed.
(** So a loop over all of them sets every scope. *)
Lemma each_sets_all {A} (f : A → Tx unit) k s l d0 d u d' :
  sets_scope f k s → k <$> l = (all_machines d0).*1 → scopes_of d = scopes_of d0 → each f l d = Ok (u, d') →
  gate_of d' = with_scopes (const s <$> scopes_of d) (gate_of d).
Proof.
  intros Hf Hk Hd H. destruct (each_sets _ _ _ _ _ _ _ Hf H) as (m & -> & Hm). f_equal. apply map_eq. intros i.
  rewrite lookup_fmap. destruct (Hm i) as [Hin Hout]. rewrite Hk, all_machines_keys in Hin, Hout.
  destruct (decide (i ∈ ids_where (λ _ _, true) (machines d0))) as [Hi|Hi]; [by rewrite Hin|rewrite Hout by done].
  destruct (scopes_of d !! i) as [x|] eqn:Hx; [|done]. destruct Hi. apply ids_where_elem.
  assert (is_Some (machines d0 !! i)) as [y Hy] by (apply scopes_of_Some; rewrite <- Hd; by eexists). eauto.
Qed.
End Gates.

(** ** Every act of recovery mode, and a machine's inventory, as a move: of the gates, of the operations'
    lifecycle, and of what is accounted for. *)

#[export] Instance rlog_timeline_free : TimelineFree rlog.
Proof. by repeat split. Qed.
#[export] Instance epoch_timeline_free : TimelineFree epoch.
Proof. by repeat split. Qed.

(** ** What a move keeps *)

(** Every attempt of an earlier epoch is accounted for, but on a scope still pre-restore unaccounted. *)
Definition restored_ok (d : Db) : Prop := ∀ t, t ∈ attempts d → ∃ s, scopes_of d !! at_machine t = Some s
  ∧ (s = unaccounted_scope ∨ at_epoch t = epoch d ∨ accounted_for (at_id t) d = true).
Record moved (d d' : Db) : Prop := {
  mv_gate : rtc rmove (gate_of d) (gate_of d'); mv_core : rtc astep (core_of d) (core_of d');
  mv_authority : authority_of d' = authority_of d; mv_restored : restored_ok d → restored_ok d' }.
#[export] Instance moved_preorder : PreOrder moved.
Proof. split; [by split|]. intros x y z [] []. split; [by etrans|by etrans|by etrans|auto]. Qed.

Lemma accounted_mono d d' x : accountings d `prefix_of` accountings d' → accounted_for x d = true → accounted_for x d' = true.
Proof. intros [l Hl]. unfold accounted_for. rewrite Hl, existsb_app. by intros ->. Qed.
Lemma restored_mono d d' :
  attempts d' = attempts d → epoch d' = epoch d → accountings d `prefix_of` accountings d' →
  (∀ m s, scopes_of d !! m = Some s → ∃ s', scopes_of d' !! m = Some s' ∧ (s = unaccounted_scope → s' = unaccounted_scope)) →
  restored_ok d → restored_ok d'.
Proof.
  intros Ha He Hp Hs Hr t Ht. rewrite Ha in Ht. destruct (Hr t Ht) as (s & Hm & Hc). destruct (Hs _ _ Hm) as (s' & Hm' & Hu).
  exists s'. split; [done|]. rewrite He. destruct Hc as [Hc|[Hc|Hc]]; [left; auto|by right; left|].
  right. right. by eapply accounted_mono.
Qed.
Lemma core_tables_of d d' : rtc astep (core_of d) (core_of d') → accountings d `prefix_of` accountings d'.
Proof.
  intros H. change (co_accountings (core_of d) `prefix_of` co_accountings (core_of d')).
  induction H as [|x y z Hxy _ IH]; [done|]. etrans; [by apply astep_tables|done].
Qed.

(** A loop whose every body keeps an invariant and moves along a preorder. *)
Lemma each_along {A} (I : Db → Prop) (R : Db → Db → Prop) `{!PreOrder R} (f : A → Tx unit) l :
  (∀ x d u d', I d → f x d = Ok (u, d') → R d d' ∧ I d') →
  ∀ d u d', I d → each f l d = Ok (u, d') → R d d' ∧ I d'.
Proof.
  intros Hf. induction l as [|x l IH]; intros d u d' Hi H; cbn [each] in H; m_inv; [by split|].
  match goal with H : f x _ = _ |- _ => destruct (Hf _ _ _ _ Hi H) as [Hr Hi2] end.
  match goal with H : each f l _ = _ |- _ => destruct (IH _ _ _ Hi2 H) as [Hr2 Hi3] end. split; [by etrans|done].
Qed.

Lemma set_scope_core m s : keeps core_of (set_scope m s).
Proof. by apply keeps_modify. Qed.
Lemma alter_at {A} (f : A → A) i x (m : gmap string A) : m !! i = Some x → alter f i m = <[i := f x]> m.
Proof. intros H. symmetry. by apply insert_as_alter. Qed.

Lemma scope_of_row m r d : machines d !! m = Some r → scopes_of d !! m = Some (m_scope r).
Proof. intros H. unfold scopes_of. by rewrite lookup_fmap, H. Qed.
Lemma scope_row m s d : scopes_of d !! m = Some s → ∃ r, machines d !! m = Some r ∧ m_scope r = s.
Proof. unfold scopes_of. rewrite lookup_fmap. intros (r & Hr & ->)%fmap_Some. eauto. Qed.
(** The recovery tables' rows, on the gates. *)
Lemma gate_accounting_row k x d :
  gate_of (set_rlog (with_scope_accounting k x (rlog d)) d)
  = Gate (g_epoch (gate_of d)) (g_recovery (gate_of d)) (g_epochs (gate_of d)) (g_scopes (gate_of d))
      (<[k := x]> (g_accounted (gate_of d))) (g_released (gate_of d)).
Proof. done. Qed.
Lemma gate_release_row k x d :
  gate_of (set_rlog (with_scope_release k x (rlog d)) d)
  = Gate (g_epoch (gate_of d)) (g_recovery (gate_of d)) (g_epochs (gate_of d)) (g_scopes (gate_of d))
      (g_accounted (gate_of d)) (<[k := x]> (g_released (gate_of d))).
Proof. done. Qed.

(** ** The accountings of restored attempts *)

Definition with_accountings (l : list accounting_row) (c : core) : core :=
  Core (co_plans c) (co_ops c) (co_attempts c) (co_responses c) (co_accountings c ++ l) (co_classes c).
Lemma accountings_path c l :
  (∀ k, k ∈ l → ∃ t, t ∈ co_attempts c ∧ k_attempt k = at_id t ∧ ¬ accounted_in (at_id t) c) → NoDup (k_attempt <$> l) →
  rtc astep c (with_accountings l c).
Proof.
  revert c. induction l as [|k l IH]; intros c Hl Hn.
  - replace (with_accountings [] c) with c; [done|]. destruct c. unfold with_accountings. simpl. by rewrite app_nil_r.
  - apply NoDup_cons in Hn as [Hk Hn]. destruct (Hl k) as (t & Ht & Hkt & Ha); [by left|].
    eapply rtc_l; [apply (a_account c k t); [done|done|by rewrite Hkt]|].
    change (with_accountings (k :: l) c) with (Core (co_plans c) (co_ops c) (co_attempts c) (co_responses c)
      (co_accountings c ++ [k] ++ l) (co_classes c)). rewrite app_assoc. apply (IH (with_accountings [k] c)); [|done].
    intros k' Hk'. destruct (Hl k') as (t' & Ht' & Hkt' & Ha'); [by right|]. exists t'. split_and!; [done..|].
    unfold accounted_in, with_accountings. simpl. rewrite fmap_app, elem_of_app. intros [Hi|Hi]; [done|].
    simpl in Hi. apply list_elem_of_singleton in Hi. apply Hk. rewrite <- Hi, <- Hkt'. by apply list_elem_of_fmap_2.
Qed.

Section Moves.
Variable tick : Z → Z.
Variable a : api.

(** Frames of the appended entries. *)
Ltac entry_frames := repeat match goal with
  | H : append_event tick ?m ?ep ?e ?d = Ok (_, ?d') |- _ =>
      let E := fresh "Ec" in let G := fresh "Eg" in let R := fresh "Er" in let P := fresh "Ep" in
      pose proof (append_event_keeps core_of tick m ep e _ _ _ H) as E;
      pose proof (append_event_keeps gate_of tick m ep e _ _ _ H) as G;
      pose proof (append_event_keeps rlog tick m ep e _ _ _ H) as R;
      pose proof (append_event_keeps epoch tick m ep e _ _ _ H) as P; clear H
  end.

Lemma account_restored_ok m ep b t d u d' :
  account_restored tick m ep b t d = Ok (u, d') →
  ∃ k, k_attempt k = at_id t ∧ core_of d' = with_accountings [k] (core_of d).
Proof.
  unfold account_restored. intros H. m_inv. core_frames. apply core_tables in E as (E1 & E2 & E3 & E4 & E5 & E6).
  eexists. split; [|unfold core_of, with_accountings; simpl; rewrite E1, E2, E3, E4, E5, E6; reflexivity]. done.
Qed.
Lemma each_accounted m ep b l d u d' :
  each (account_restored tick m ep b) l d = Ok (u, d') →
  ∃ ks, k_attempt <$> ks = at_id <$> l ∧ core_of d' = with_accountings ks (core_of d) ∧ gate_of d' = gate_of d.
Proof.
  revert d. induction l as [|t l IH]; intros d H; cbn [each] in H; m_inv.
  - exists []. split_and!; [done| |done]. unfold core_of, with_accountings. simpl. by rewrite app_nil_r.
  - match goal with H : account_restored _ _ _ _ _ _ = _ |- _ =>
      pose proof (account_restored_gate _ _ _ _ _ _ _ _ H) as Hg; apply account_restored_ok in H as (k & Hk & Hc) end.
    match goal with H : each _ _ _ = _ |- _ => destruct (IH _ H) as (ks & Hks & -> & ->) end.
    exists (k :: ks). rewrite !fmap_cons, Hk, Hks, Hc. split_and!; [done| |done].
    unfold with_accountings. simpl. by rewrite <- app_assoc.
Qed.
Lemma restored_elem m d t : t ∈ restored_attempts m d ↔ t ∈ attempts d ∧ at_machine t = m ∧ accounted_for (at_id t) d = false.
Proof. unfold restored_attempts, sort_on. rewrite merge_sort_Permutation, list_elem_of_filter. naive_solver. Qed.
Lemma restored_nodup m d : lifecycle_inv (core_of d) → NoDup (at_id <$> restored_attempts m d).
Proof.
  intros Hi. unfold restored_attempts, sort_on. rewrite merge_sort_Permutation.
  eapply sublist_NoDup; [exact (inv_attempt_ids _ Hi)|]. apply fmap_sublist, sublist_filter.
Qed.

(** ** [accountScope] *)

(** What it demands, and what it makes of the scope. *)
Record accounts_scope (q : request) (given : gmap string string) (floor : Z) (s : scopeSettle) (d d' : Db) : Prop := {
  as_state : scopes_of d !! ss_machine s = Some unaccounted_scope;
  as_settled : let dl := settle_deadline floor (restored_attempts (ss_machine s) d) in
    ∃ facts, settled a (ss_machine s) dl dl (ss_start s) (ss_end s) (given !! "explanation") d = Ok (inl facts, d);
  as_to : scopes_of d' !! ss_machine s = Some (if machine_held (ss_machine s) d then "unresolved" else "blocked");
  as_rest : ∀ m, m ≠ ss_machine s → scopes_of d' !! m = scopes_of d !! m;
  as_accounted : ∀ t, t ∈ attempts d → at_machine t = ss_machine s → accounted_for (at_id t) d' = true;
  as_row : is_Some (scope_accountings (rlog d') !! (ss_machine s, epoch d));
  as_installation : epoch d' = epoch d ∧ recovery d' = recovery d }.

Lemma accountScope_parts q given floor s d u d' :
  q_epoch q = epoch d → accountScope tick a q given floor s d = Ok (u, d') →
  ∃ row facts b ks x to_, machines d !! ss_machine s = Some row ∧ m_scope row = unaccounted_scope
    ∧ (let dl := settle_deadline floor (restored_attempts (ss_machine s) d) in
       settled a (ss_machine s) dl dl (ss_start s) (ss_end s) (given !! "explanation") d = Ok (inl facts, d))
    ∧ to_ = (if machine_held (ss_machine s) d then "unresolved" else "blocked") ∧ b = ByDecision (q_principal q) (q_act q) (ss_start s) (ss_end s) facts
    ∧ k_attempt <$> ks = at_id <$> restored_attempts (ss_machine s) d ∧ core_of d' = with_accountings ks (core_of d)
    ∧ scope_accountings (rlog d) !! (ss_machine s, epoch d) = None
    ∧ gate_of d' = Gate (epoch d) (recovery d) (g_epochs (gate_of d)) (<[ss_machine s := to_]> (scopes_of d))
        (<[(ss_machine s, epoch d) := x]> (g_accounted (gate_of d))) (g_released (gate_of d)).
Proof.
  intros He H. unfold accountScope, machine_row in H. m_inv.
  match goal with H : settled _ _ _ _ _ _ _ ?d0 = Ok (?r, ?d1) |- _ =>
    pose proof (settled_reads _ _ _ _ _ _ _ _ _ _ H) as Hr; unfold id in Hr; subst d1; destruct r as [facts|cause]; m_inv end.
  unfold insert_unless, update_rlog in *. m_inv.
  match goal with H : each _ _ _ = _ |- _ => apply each_accounted in H as (ks & Hks & Hc & Hg) end.
  match goal with H : set_scope _ _ _ = Ok _ |- _ =>
    pose proof (set_scope_gate _ _ _ _ _ H) as Hs; pose proof (set_scope_core _ _ _ _ _ H) as Hsc; clear H end.
  entry_frames. rewrite He in *.
  assert (Hgate : gate_of s2 = with_scopes (alter (const (if machine_held (ss_machine s) d then "unresolved" else "blocked"))
    (ss_machine s) (scopes_of d)) (gate_of d)) by (rewrite Eg, Hs, Hg; by injection Hg as _ _ _ -> _).
  eexists _, facts, _, ks, _, _. split_and!; [eassumption|done|eassumption|reflexivity|reflexivity|exact Hks| | |].
  - change (core_of s2 = with_accountings ks (core_of d)). congruence.
  - match goal with H : bool_decide (is_Some (scope_accountings (rlog ?x) !! ?k)) = false |- _ =>
      change (bool_decide (is_Some (g_accounted (gate_of x) !! k)) = false) in H; rewrite Hgate in H;
      by apply bool_decide_eq_false, eq_None_not_Some in H end.
  - rewrite gate_accounting_row, Hgate. unfold with_scopes. simpl. f_equal. apply (alter_at (const _) _ unaccounted_scope).
    erewrite scope_of_row by eassumption. congruence.
Qed.

Lemma accounted_by_rows ks t c d :
  core_of d = with_accountings ks c → at_id t ∈ k_attempt <$> ks → accounted_for (at_id t) d = true.
Proof.
  intros Hc Hk. apply accounted_for_in. rewrite Hc. unfold accounted_in, with_accountings. simpl.
  rewrite fmap_app, elem_of_app. by right.
Qed.
Lemma accountScope_ok q given floor s d u d' :
  q_epoch q = epoch d → recovery d = true → lifecycle_inv (core_of d) → accountScope tick a q given floor s d = Ok (u, d') →
  accounts_scope q given floor s d d' ∧ moved d d'.
Proof.
  intros He Hrec Hi H. pose proof (accountScope_kept authority_of tick a _ _ _ _ _ _ _ H) as Hau.
  pose proof (accountScope_kept attempts tick a _ _ _ _ _ _ _ H) as Hat.
  destruct (accountScope_parts _ _ _ _ _ _ _ He H) as (row & facts & b & ks & x & to_ & Hm & Hsc & Hset & Hto & Hb & Hks & Hc & Hn & Hg).
  assert (Hacc : ∀ t, t ∈ attempts d → at_machine t = ss_machine s → accounted_for (at_id t) d' = true).
  { intros t Ht Htm. destruct (accounted_for (at_id t) d) eqn:Hold.
    - eapply accounted_mono; [|exact Hold]. change (co_accountings (core_of d) `prefix_of` co_accountings (core_of d')).
      rewrite Hc. by eexists.
    - eapply accounted_by_rows; [exact Hc|]. rewrite Hks. apply list_elem_of_fmap_2. by apply restored_elem. }
  assert (Hscope : scopes_of d !! ss_machine s = Some unaccounted_scope) by (erewrite scope_of_row by eassumption; by rewrite Hsc).
  assert (Hs' : scopes_of d' = <[ss_machine s := to_]> (scopes_of d)) by (change (g_scopes (gate_of d') = <[ss_machine s := to_]> (scopes_of d)); by rewrite Hg).
  split; split; try done.
  - by exists facts.
  - by rewrite Hs', lookup_insert_eq, Hto.
  - intros m Hne. by rewrite Hs', lookup_insert_ne.
  - change (is_Some (g_accounted (gate_of d') !! (ss_machine s, epoch d))). rewrite Hg. simpl. by rewrite lookup_insert_eq.
  - split; [exact (f_equal g_epoch Hg)|exact (f_equal g_recovery Hg)].
  - apply rtc_once. rewrite Hg, Hrec. apply (rm_account (gate_of d)); [done..| |done]. subst to_. destruct (machine_held _ _); set_solver.
  - rewrite Hc. apply accountings_path; [|rewrite Hks; by apply restored_nodup].
    intros k Hk. apply (list_elem_of_fmap_2 k_attempt) in Hk. rewrite Hks in Hk. apply list_elem_of_fmap in Hk as (t & Hkt & Ht).
    apply restored_elem in Ht as (Ht & _ & Ha). exists t. split_and!; [done..|]. rewrite <- accounted_for_in, Ha. done.
  - intros Hr t Ht. rewrite Hat in Ht. destruct (Hr t Ht) as (sc & Hsct & Hd). rewrite Hs'.
    destruct (decide (ss_machine s = at_machine t)) as [Heq|Hne].
    + rewrite Heq, lookup_insert_eq. eexists. split; [done|]. right. right. by apply Hacc.
    + rewrite lookup_insert_ne by done. exists sc. split; [done|].
      assert (epoch d' = epoch d) as -> by (change (g_epoch (gate_of d') = epoch d); by rewrite Hg).
      destruct Hd as [Hd|[Hd|Hd]]; [by left|by right; left|]. right. right. eapply accounted_mono; [|exact Hd].
      change (co_accountings (core_of d) `prefix_of` co_accountings (core_of d')). rewrite Hc. by eexists.
Qed.
End Moves.
