(* ===== verification/RecoveryActs.v ===== *)
(** * The recovery routes: each request that takes effect is a move ([RecoverySpec.moved]), and an
    entry's effect in full. *)

From stdpp Require Import relations sorting.
From S2P Require Import Prelude Store World Evidence Commit Attempt Outcome Settle Lifecycle Refinement.
From S2P Require Import System Ident Request RequestSpec Governance Authority GovernanceSpec Adoption Governed ActsSpec Recovery RecoveryGate.
From S2P Require Import RecoverySpec.

(** What every store the system reaches satisfies. *)
Record recovery_inv (d : Db) : Prop := {
  ri_governed : governed_inv d; ri_gate : gate_inv (gate_of d); ri_restored : restored_ok d }.

(** ** Frames of the core *)

Lemma update_rlog_core g : keeps core_of (update_rlog g).
Proof. by apply keeps_modify. Qed.
Lemma fact_core x : keeps core_of (insert_fact x).
Proof. by apply keeps_modify. Qed.
#[export] Hint Resolve set_scope_core update_rlog_core fact_core : keeps.
Lemma insert_unless_core {A} (k : Db → option A) t g : keeps core_of (insert_unless k t g).
Proof. unfold insert_unless. solve_keeps. Qed.
#[export] Hint Resolve insert_unless_core : keeps.

Section Acts.
Variable tick : Z → Z.
Variable a : api.

Lemma close_scope_core ep act ms : keeps core_of (close_scope tick ep act ms).
Proof. unfold close_scope. solve_keeps. Qed.
Lemma open_scope_core ep act m : keeps core_of (open_scope tick ep act m).
Proof. unfold open_scope. solve_keeps. Qed.
#[local] Hint Resolve close_scope_core open_scope_core : keeps.
Lemma mark_write_core ev x y l q : keeps core_of (mark_write tick ev x y l q).
Proof. unfold mark_write. solve_keeps. Qed.
Lemma release_write_core m x k q : keeps core_of (release_write tick m x k q).
Proof. unfold release_write. solve_keeps. Qed.
Lemma exit_write_core ms q : keeps core_of (exit_write tick ms q).
Proof. unfold exit_write. solve_keeps. Qed.

(** A request of a route that took effect, on the installation it read. *)
Definition moves_recovery (rt : route) : Prop := ∀ q d q1 res d1 q2 body d2,
  q_epoch q = epoch d → q_recovery q = recovery d → recovery_inv d →
  rt_effect rt q d = Ok ((q1, res), d1) → ef_write res q1 d1 = Ok ((q2, body), d2) → moved d d2.

(** A write that keeps the core and the authority and moves the gates by scopes other than closed ones. *)
Lemma moved_by_gate {A} (m : Tx A) d x d' :
  m d = Ok (x, d') → keeps core_of m → keeps authority_of m → rtc rmove (gate_of d) (gate_of d') → epoch d' = epoch d →
  (∀ i s, scopes_of d !! i = Some s → ∃ s', scopes_of d' !! i = Some s' ∧ (s = unaccounted_scope → s' = unaccounted_scope)) →
  moved d d'.
Proof.
  intros H Hc Ha Hg He Hs. pose proof (Hc _ _ _ H) as Hcore. split.
  - exact Hg.
  - by rewrite Hcore.
  - exact (Ha _ _ _ H).
  - apply core_tables in Hcore as (_ & _ & Hat & _ & Hk & _). by apply restored_mono; rewrite ?Hk.
Qed.
(** One that keeps the gates. *)
Lemma moved_by_core {A} (m : Tx A) d x d' :
  m d = Ok (x, d') → rtc astep (core_of d) (core_of d') → keeps authority_of m → keeps gate_of m → keeps attempts m → moved d d'.
Proof.
  intros H Hc Ha Hg Hat. pose proof (Hg _ _ _ H) as Hgate.
  split; [by rewrite Hgate|done|exact (Ha _ _ _ H)|]. apply restored_mono; [exact (Hat _ _ _ H)| |by apply core_tables_of|].
  - change (g_epoch (gate_of d') = g_epoch (gate_of d)). by rewrite Hgate.
  - intros i s Hi. exists s. split; [|done]. change (g_scopes (gate_of d') !! i = Some s). by rewrite Hgate.
Qed.

(** ** The acts on an operation *)

Lemma operationMachine_ok op d m d' :
  operationMachine op d = Ok (m, d') → d' = d ∧ ∃ o, ops d !! op = Some o ∧ op_kind_of o = KApplyConfig ∧ op_machine o = Some m.
Proof.
  unfold operationMachine. intros H. m_inv. split; [done|].
  match goal with H : (ops _ !! _ ≫= _) = Some _ |- _ => apply bind_Some in H as (o & Ho & Hk) end.
  case_bool_decide; simplify_eq. eauto.
Qed.
Lemma lockRecoveryAct_ok op tk q d l d' :
  lockRecoveryAct a op tk q d = Ok (l, d') → d' = d ∧ principals d !! q_principal q = Some false ∧ lockOperationAs a op tk d = Ok (l, d).
Proof.
  unfold lockRecoveryAct, unrevoked, principal_row. intros H. gov_inv.
  match goal with H : lockOperationAs _ _ _ _ = Ok _ |- _ => pose proof H as Hl; apply lockOperationAs_ok in Hl as [-> _] end.
  destruct a0; done.
Qed.

#[local] Hint Resolve takeOverTx_kept accountByDecision_kept lockOperationAs_kept : keeps.
Lemma takeover_moves op gen reason : moves_recovery (operationTakeover tick a op gen reason).
Proof.
  intros q d q1 res d1 q2 body d2 _ _ _ H Hw. simpl in H. unfold requestTakeover in H. m_inv.
  match goal with H : operationMachine _ _ = _ |- _ => apply operationMachine_ok in H as [-> _] end.
  match goal with H : lockRecoveryAct _ _ _ _ _ = _ |- _ => apply lockRecoveryAct_ok in H as [-> _] end.
  simplify_eq. simpl in Hw. m_inv. match goal with H : or_conflict _ _ = _ |- _ => apply (proj1 (or_conflict_ok _ _ _)) in H;
    eapply (moved_by_core (takeOverTx tick a op gen reason)); [exact H|by eapply takeOverTx_simulated|solve_keeps..] end.
Qed.
Lemma decision_moves op att s e given : moves_recovery (accountingDecisionRoute tick a op att s e given).
Proof.
  intros q d q1 res d1 q2 body d2 _ _ _ H Hw. simpl in H. unfold decideAccounting in H. m_inv.
  match goal with H : operationMachine _ _ = _ |- _ => apply operationMachine_ok in H as [-> _] end.
  match goal with H : lockRecoveryAct _ _ _ _ _ = _ |- _ => apply lockRecoveryAct_ok in H as [-> _] end.
  simplify_eq. simpl in Hw. m_inv. match goal with H : or_conflict _ _ = _ |- _ => apply (proj1 (or_conflict_ok _ _ _)) in H;
    eapply (moved_by_core (accountByDecision tick a att _ _ s e _)); [exact H|by eapply accountByDecision_simulated|solve_keeps..] end.
Qed.
Lemma resolution_simulated op l q o d x d' :
  resolution_write tick a op l q d = Ok (x, d') → ops d !! op = Some o → op_kind_of o = KApplyConfig → l_state l = op_st o →
  op_st o = Unresolved ∧ attempts_of op d = [] ∧ core_of d' = move_op op (with_state Cancelled) (core_of d)
  ∧ rtc astep (core_of d) (core_of d').
Proof.
  unfold resolution_write. intros H Ho Hk Hl. m_inv.
  match goal with H : negb (bool_decide (attempts_of _ _ = [])) = false |- _ => apply unless_ok in H as Hn | _ => idtac end.
  core_frames. assert (Hst : op_st o = Unresolved) by congruence. split; [done|]. split; [done|].
  match goal with |- core_of ?x = _ ∧ _ =>
    assert (core_of x = move_op op (with_state Cancelled) (core_of d)) as Hc by (by cores) end. split; [done|].
  rewrite Hc. apply rtc_once. eapply state_step; [exact Ho|done|by rewrite Hst|done|by right].
Qed.
Lemma resolution_moves op : moves_recovery (operationResolution tick a op).
Proof.
  intros q d q1 res d1 q2 body d2 _ _ _ H Hw. simpl in H. unfold resolveByDecision in H. m_inv.
  match goal with H : operationMachine _ _ = _ |- _ => apply operationMachine_ok in H as [-> (o & Ho & Hk & _)] end.
  match goal with H : lockRecoveryAct _ _ _ _ _ = _ |- _ => apply lockRecoveryAct_ok in H as (-> & _ & Hl) end.
  apply lockOperationAs_ok in Hl as (_ & o' & m & p & Ho' & _ & _ & _ & -> & _). simplify_eq. simpl in Hw.
  eapply (moved_by_core (resolution_write tick a op _ q1));
    [exact Hw|by eapply resolution_simulated|solve_keeps|apply resolution_write_gate|solve_keeps].
Qed.

(** ** The scopes' acts *)

Lemma restored_epoch (q : request) d d' : gate_of d' = gate_of d → epoch d' = epoch d.
Proof. intros H. change (g_epoch (gate_of d') = g_epoch (gate_of d)). by rewrite H. Qed.

Lemma mark_gate ev from to_ l q d x d' :
  mark_write tick ev from to_ l q d = Ok (x, d') →
  gate_of d' = with_scopes (alter (const to_) (mk_machine ev) (scopes_of d)) (gate_of d).
Proof.
  unfold mark_write. intros H. m_inv.
  match goal with H : append_event _ _ _ _ _ = Ok _ |- _ => rewrite (append_event_keeps gate_of tick _ _ _ _ _ _ H) end.
  by eapply set_scope_gate.
Qed.
Lemma markRefusal_ok m s : markRefusal m s = None ↔ s ∈ open_scopes.
Proof. unfold markRefusal, open_scopes. by repeat case_bool_decide. Qed.
Lemma mark_state_markable h l : mark_state h l ∈ open_scopes.
Proof. unfold mark_state, open_scopes. destruct h; [set_solver|]. case_bool_decide; set_solver. Qed.

(** A move of one scope, whatever it is, that is not of a closed one. *)
Lemma scopes_moved d d' m s s' :
  scopes_of d !! m = Some s → s ≠ unaccounted_scope → scopes_of d' = <[m := s']> (scopes_of d) →
  ∀ i x, scopes_of d !! i = Some x → ∃ y, scopes_of d' !! i = Some y ∧ (x = unaccounted_scope → y = unaccounted_scope).
Proof.
  intros Hm Hs -> i x Hi. destruct (decide (m = i)) as [->|Hne].
  - rewrite lookup_insert_eq. exists s'. split; [done|]. intros ->. congruence.
  - rewrite lookup_insert_ne by done. eauto.
Qed.
Lemma markable_accounted s : s ∈ open_scopes → s ≠ unaccounted_scope.
Proof. unfold open_scopes, unaccounted_scope. set_solver. Qed.

Lemma mark_moves ev : moves_recovery (scopeMarkRoute tick a ev).
Proof.
  intros q d q1 res d1 q2 body d2 He Hr Hi H Hw. simpl in H. unfold markScope in H. gov_inv. simpl in Hw.
  match goal with H : markRefusal _ _ = None |- _ => apply markRefusal_ok in H end.
  pose proof (mark_gate _ _ _ _ _ _ _ _ Hw) as Hg.
  match goal with H : machines d !! _ = Some ?r |- _ => pose proof (scope_of_row _ _ _ H) as Hs end.
  rewrite (alter_at (const _) _ _ _ Hs) in Hg. set (to_ := mark_state _ _) in *.
  eapply moved_by_gate; [exact Hw|apply mark_write_core|apply mark_write_kept, _| |exact (f_equal g_epoch Hg)|].
  - apply rtc_once. rewrite Hg. apply negb_false_iff in H as Hq. rewrite Hr in Hq.
    change (rmove (gate_of d) (Gate (g_epoch (gate_of d)) (recovery d) (g_epochs (gate_of d))
      (<[mk_machine ev := to_]> (g_scopes (gate_of d))) (g_accounted (gate_of d)) (g_released (gate_of d)))).
    rewrite Hq. eapply (rm_mark (gate_of d)); [done|exact Hs|done|apply mark_state_markable].
  - eapply scopes_moved; [exact Hs|by apply markable_accounted|exact (f_equal g_scopes Hg)].
Qed.

Lemma release_gate m from mark q d x d' :
  release_write tick m from mark q d = Ok (x, d') →
  scope_releases (rlog d) !! (m, q_epoch q) = None ∧
  ∃ r, sr_mark r = mark ∧ gate_of d' = Gate (epoch d) (recovery d) (g_epochs (gate_of d)) (alter (const "released") m (scopes_of d))
        (g_accounted (gate_of d)) (<[(m, q_epoch q) := r]> (g_released (gate_of d))).
Proof.
  unfold release_write, insert_unless, update_rlog. intros H. m_inv.
  match goal with H : set_scope _ _ _ = Ok (_, ?y), H' : append_event _ _ _ _ ?y = Ok (_, ?z) |- _ =>
    pose proof (append_event_keeps gate_of tick _ _ _ _ _ _ H') as Hg; rewrite (set_scope_gate _ _ _ _ _ H) in Hg;
    split; [change (g_released (gate_of d) !! (m, q_epoch q) = None);
      assert (g_released (gate_of z) = g_released (gate_of d)) as Hz by (by rewrite Hg)|] end.
  - rewrite <- Hz. by apply eq_None_not_Some, (bool_decide_eq_false _).
  - eexists. split; [|rewrite gate_release_row, Hg; reflexivity]. done.
Qed.
Lemma release_moves m : moves_recovery (scopeReleaseRoute tick a m).
Proof.
  intros q d q1 res d1 q2 body d2 He Hr Hi H Hw. simpl in H. unfold releaseScope in H. gov_inv. simpl in Hw.
  match goal with H : machines d !! m = Some ?r |- _ => pose proof (scope_of_row _ _ _ H) as Hs end.
  match goal with H : m_scope _ = "ready" |- _ => rewrite H in Hs end.
  apply release_gate in Hw as Hg. destruct Hg as (Hn & r & _ & Hg). rewrite (alter_at (const _) _ _ _ Hs) in Hg.
  assert (Hq : recovery d = true) by (rewrite <- Hr; by apply negb_false_iff).
  eapply moved_by_gate; [exact Hw|apply release_write_core|apply release_write_kept, _| |exact (f_equal g_epoch Hg)|].
  - apply rtc_once. rewrite Hg, He, Hq. rewrite He in Hn. by apply (rm_release (gate_of d)).
  - eapply scopes_moved; [exact Hs|done|exact (f_equal g_scopes Hg)].
Qed.

Section Scopes.
Variable maxTransport : Z.

(** The decision's effect: what it demands before its write, and the stop it counts from. *)
Lemma accountScopes_effect scopes given q d q1 res d1 :
  accountScopes tick a maxTransport scopes given q d = Ok ((q1, res), d1) →
  d1 = d ∧ q1 = q ∧ q_epoch q = owner_epoch a ∧ q_recovery q = true ∧ principals d !! q_principal q = Some false ∧
  ∃ row stopped, epochs (rlog d) !! q_epoch q = Some row ∧ ep_stopped row = Some stopped
    ∧ ef_write res = λ q, (each (accountScope tick a q given (stopped + maxTransport)) (sort_on ss_machine scopes);;
        mret (q, [("scopes", JList (ss_machine <$> sort_on ss_machine scopes)); ("epoch", JStr (q_epoch q))])).
Proof.
  unfold accountScopes. intros H. m_inv.
  match goal with H : each check_observations _ _ = Ok (_, ?x) |- _ =>
    assert (x = d) as -> by (refine (each_keeps id _ _ _ _ _ _ H); intros; unfold check_observations; solve_keeps) end.
  gov_inv. split_and!; try done; destruct (q_recovery q1) eqn:Hr; simplify_eq; try done.
  eexists _, _. split; [eassumption|]. done.
Qed.
Lemma scopes_moves scopes given : moves_recovery (scopeAccountingRoute tick a maxTransport scopes given).
Proof.
  intros q d q1 res d1 q2 body d2 He Hr Hi H Hw. simpl in H.
  apply accountScopes_effect in H as (-> & -> & _ & Hq & _ & row & stopped & _ & _ & Hres). rewrite Hres in Hw. m_inv.
  match goal with H : each _ _ _ = _ |- _ =>
    eapply (each_along (λ d, q_epoch q = epoch d ∧ recovery d = true ∧ lifecycle_inv (core_of d)) moved) in H; [apply H| |] end.
  - intros sc d3 u d4 (He1 & Hr1 & Hl1) Ha. destruct (accountScope_ok tick a q given _ sc d3 u d4 He1 Hr1 Hl1 Ha) as [Has Hm].
    destruct (as_installation _ _ _ _ _ _ _ Has) as [-> ->]. split_and!; [done..|]. eapply asteps_inv; [apply Hm|done].
  - rewrite <- Hr. split_and!; [done..|]. apply Hi.
Qed.

End Scopes.

(** ** The exit *)

Lemma exit_gate ms q d x d' :
  exit_write tick ms q d = Ok (x, d') → ms = (all_machines d).*1 →
  gate_of d' = Gate (epoch d) false (g_epochs (gate_of d)) (const "normal" <$> scopes_of d) (g_accounted (gate_of d)) (g_released (gate_of d)).
Proof.
  unfold exit_write, insert_unless, update_rlog. intros H Hms. m_inv. timeline_inv.
  match goal with H : each _ _ ?y = Ok (_, ?z) |- _ => eapply (each_sets_all _ id "normal" _ d) in H as Hg;
    [|apply open_sets|by rewrite list_fmap_id|done] end.
  match type of Hg with gate_of ?z = _ => change (gate_of z = Gate (epoch d) false (g_epochs (gate_of d)) (const "normal" <$> scopes_of d)
    (g_accounted (gate_of d)) (g_released (gate_of d))) in Hg; exact Hg end.
Qed.
Lemma all_released d :
  find (λ ms, negb (bool_decide (ms.2 = "released"))) (all_machines d) = None ↔ map_Forall (λ _ s, s = "released") (scopes_of d).
Proof.
  split.
  - intros H i s Hi. apply (proj2 (all_machines_elem _ _ _)) in Hi. destruct (decide (s = "released")); [done|].
    exfalso. revert H Hi. generalize (all_machines d). intros l. induction l as [|y l IH]; simpl; [by intros _ ?%elem_of_nil|].
    case_bool_decide; simpl; [|done]. intros Hf [<-|Hi]%elem_of_cons; [done|]. by apply IH.
  - intros Ha. destruct (find _ _) as [[i s]|] eqn:Hf; [|done]. apply find_some in Hf as [Hi Hs]. simpl in Hs.
    apply list_elem_of_In, (proj1 (all_machines_elem _ _ _)) in Hi. by rewrite (Ha i s Hi), bool_decide_true in Hs.
Qed.
Lemma exit_moves : moves_recovery (exitRoute tick a).
Proof.
  intros q d q1 res d1 q2 body d2 He Hr Hi H Hw. simpl in H. unfold leaveRecovery in H. gov_inv. simpl in Hw.
  match goal with H : _ <$> find _ _ = None |- _ => apply fmap_None, all_released in H as Ha end.
  pose proof (exit_gate _ _ _ _ _ Hw eq_refl) as Hg.
  eapply moved_by_gate; [exact Hw|apply exit_write_core|apply exit_write_kept, _| |exact (f_equal g_epoch Hg)|].
  - apply rtc_once. rewrite Hg. apply (rm_exit (gate_of d)); [|done]. simpl. rewrite <- Hr. by apply negb_false_iff.
  - intros i s Hs. exists "normal". split.
    + change (g_scopes (gate_of d2) !! i = Some "normal"). rewrite Hg. simpl. by rewrite lookup_fmap, Hs.
    + intros ->. by pose proof (Ha _ _ Hs).
Qed.

(** ** The inventory *)

Lemma inventory_moves i new : moves_recovery (machineInventory i new).
Proof.
  intros q d q1 res d1 q2 body d2 He Hr Hi H Hw. simpl in H.
  pose proof (inventoryMachine_kept authority_of i new q _ _ _ H) as Ha.
  unfold inventoryMachine, clusterExists in H. gov_inv. simpl in Hw. gov_inv. rewrite bool_decide_eq_false in *.
  assert (Hn : scopes_of d !! new = None).
  { apply eq_None_not_Some. rewrite scopes_of_Some. done. }
  assert (Hs : ∀ sc, scopes_of (set_mstates (<[new := MachineState 0 None None None None None]> (mstates d))
    (set_machines (<[new := Machine (mi_cluster i) sc false 0 (mi_smbios i) (mi_node i) (mi_endpoint i)]> (machines d)) d))
    = <[new := sc]> (scopes_of d)) by (intros sc; unfold scopes_of; simpl; by rewrite fmap_insert).
  split.
  - apply rtc_once. unfold gate_of. rewrite Hs. simpl. rewrite Hr. apply (rm_inventory (gate_of d)); [done|]. intros _. simpl.
    split; apply eq_None_not_Some; intros Hx.
    + apply (gt_accounted _ (ri_gate _ Hi) new) in Hx as [_ [? Hx]]. simpl in Hx. congruence.
    + apply (gt_released _ (ri_gate _ Hi) new) in Hx as [_ [? Hx]]. simpl in Hx. congruence.
  - done.
  - done.
  - intros Hok t Ht. destruct (Hok t Ht) as (s & Hst & Hc). exists s. split; [|done].
    rewrite Hs, lookup_insert_ne; [done|]. intros ->. congruence.
Qed.
End Acts.

(** ** The entry into recovery mode: what it makes of every operation and scope, as a move, and how it
    fences the processes of every earlier epoch. *)

Section Entry.
Variable tick : Z → Z.
Variable a : api.
Variable start : string.

(** ** The operations *)

(** What entry makes of an operation it ends or takes over. *)
Definition ended_row (ep : string) (o : operation) : operation :=
  if bool_decide (op_kind_of o = KApplyConfig) then with_state Unresolved (with_owner (owner_id a) (op_gen o + 1) ep o)
  else with_failure (if bool_decide (op_kind_of o = KIngest) then ingest_failed else publish_failed) o.
Definition with_op (i : string) (o : operation) (c : core) : core :=
  Core (co_plans c) (<[i := o]> (co_ops c)) (co_attempts c) (co_responses c) (co_accountings c) (co_classes c).
Definition endable (o : operation) : Prop :=
  match op_kind_of o with
  | KApplyConfig => active (op_st o) = true
  | KPublish | KIngest => True
  | KAdopt => False
  end.

Lemma failOnEntry_core i o ep d u d' :
  failOnEntry i o ep d = Ok (u, d') →
  core_of d' = move_op i (with_failure (if bool_decide (op_kind_of o = KIngest) then ingest_failed else publish_failed)) (core_of d).
Proof. unfold failOnEntry, insert_fact, update_rlog. intros H. by m_inv. Qed.
Lemma take_over_core i o ep d u d' :
  take_over_on_entry tick a i o ep d = Ok (u, d') →
  core_of d' = move_op i (with_state Unresolved ∘ with_owner (owner_id a) (op_gen o + 1) ep) (core_of d).
Proof.
  unfold take_over_on_entry. intros H. m_inv. case_bool_decide; m_inv; core_frames; by cores.
Qed.
Lemma end_on_entry_core ep i o d u d' :
  end_on_entry tick a ep (i, o) d = Ok (u, d') → ops d !! i = Some o → endable o → checks_inv (core_of d) →
  core_of d' = with_op i (ended_row ep o) (core_of d) ∧ astep (core_of d) (core_of d').
Proof.
  unfold end_on_entry, ended_row, endable. simpl. intros H Ho He Hc. case_bool_decide as Hk.
  - apply take_over_core in H. rewrite Hk in He. split.
    + rewrite H. unfold move_op, with_op. f_equal. by rewrite (alter_at _ _ o).
    + rewrite H. by eapply a_takeover.
  - apply failOnEntry_core in H. unfold move_op in H. rewrite (alter_at _ _ o) in H by done. split; [exact H|]. rewrite H.
    set (o' := with_failure _ o). apply (a_other (core_of d) (<[i := o']> (ops d))); [done| |].
    + intros j x Hx. simpl. destruct (decide (i = j)) as [->|Hne]; [|by rewrite lookup_insert_ne].
      rewrite lookup_insert_eq, Ho. split; intros [= <-]; [congruence|done].
    + intros j x. destruct (decide (i = j)) as [->|Hne]; [|rewrite lookup_insert_ne by done; intros Hj _; by apply (Hc j)].
      rewrite lookup_insert_eq. intros [= <-] _. split_and!; simpl.
      * by destruct (op_kind_of o).
      * by split; intros [? [=]].
      * by intros [? [=]].
      * done.
Qed.

(** The loop over them: each as entry ends it, every other kept. *)
Lemma each_ended ep l d u d' :
  each (end_on_entry tick a ep) l d = Ok (u, d') → NoDup l.*1 → (∀ i o, (i, o) ∈ l → ops d !! i = Some o ∧ endable o) →
  checks_inv (core_of d) →
  rtc astep (core_of d) (core_of d') ∧ (∀ i o, (i, o) ∈ l → ops d' !! i = Some (ended_row ep o))
  ∧ (∀ i, i ∉ l.*1 → ops d' !! i = ops d !! i)
  ∧ core_of d' = Core (plans d) (ops d') (attempts d) (responses d) (accountings d) (classifications d).
Proof.
  revert d. induction l as [|[i o] l IH]; intros d H Hn Hl Hc; cbn [each] in H; m_inv.
  { split_and!; [done|set_solver|done|done]. }
  apply NoDup_cons in Hn as [Hi Hn]. destruct (Hl i o) as [Ho He]; [by left|].
  match goal with H : end_on_entry _ _ _ _ _ = _ |- _ => apply end_on_entry_core in H as [Hop Hs]; [|done..] end.
  match goal with H : each _ _ ?x = _ |- _ => rename x into d2; destruct (IH _ H) as (Hr & Hin & Hout & Hcore) end; [done| | |].
  - intros j x Hj. assert (i ≠ j) by (intros ->; apply Hi; by apply (list_elem_of_fmap_2 fst) in Hj).
    change (ops d2) with (co_ops (core_of d2)). rewrite Hop. simpl. rewrite lookup_insert_ne by done. apply Hl. by right.
  - by eapply astep_checks.
  - assert (Hops : ops d2 = <[i := ended_row ep o]> (ops d)) by exact (f_equal co_ops Hop).
    split_and!; [by eapply rtc_l| | |].
    + intros j x [[= -> ->]|Hj]%elem_of_cons; [|by apply Hin]. rewrite Hout, Hops by done. by rewrite lookup_insert_eq.
    + intros j Hj. rewrite fmap_cons in Hj. simpl in Hj. rewrite not_elem_of_cons in Hj. destruct Hj as [Hne Hj].
      by rewrite Hout, Hops, lookup_insert_ne by done.
    + rewrite Hcore. injection Hop as -> _ -> -> -> ->. done.
Qed.

(** The operations it reads: those to end, each once, as they stand. *)
Lemma entry_operations_elem d i o :
  (i, o) ∈ entry_operations d ↔ ops d !! i = Some o ∧ ended_by_entry d i o = true.
Proof.
  unfold entry_operations. rewrite list_elem_of_omap. split.
  - intros (j & (x & Hx & He)%ids_where_elem & (y & Hy & [= -> ->])%fmap_Some). by simplify_eq.
  - intros [Ho He]. exists i. rewrite ids_where_elem, Ho. eauto.
Qed.
Lemma entry_operations_nodup d : NoDup (entry_operations d).*1.
Proof.
  unfold entry_operations. rewrite omap_keys; [apply sorted_nodup|].
  intros i (x & Hx & _)%ids_where_elem. rewrite Hx. by eexists.
Qed.
Lemma ended_endable d i o : ended_by_entry d i o = true → endable o.
Proof. unfold ended_by_entry, endable. by destruct (op_kind_of o). Qed.

(** ** The whole entry *)

Definition log_of (d : Db) := (claims (rlog d), epochs (rlog d)).
#[local] Instance log_timeline_free : TimelineFree log_of.
Proof. by repeat split. Qed.
Lemma end_on_entry_log ep io : keeps log_of (end_on_entry tick a ep io).
Proof.
  assert (∀ i n, keeps log_of (update_rlog (with_op_event i n))) by (intros; by apply keeps_modify).
  assert (∀ x, keeps log_of (insert_fact x)) by (intros; by apply keeps_modify).
  unfold end_on_entry, take_over_on_entry, failOnEntry. solve_keeps.
Qed.
Lemma close_scope_log ep act ms : keeps log_of (close_scope tick ep act ms).
Proof. assert (∀ m s, keeps log_of (set_scope m s)) by (intros; by apply keeps_modify). unfold close_scope. solve_keeps. Qed.

(** What an entry makes of the store. *)
Record entered_store (i : entryRequest) (ep : string) (q : request) (d d' : Db) : Prop := {
  et_fresh : epochs (rlog d) !! ep = None;
  et_stopped : past (tick (clock d)) (en_stopped i) = true;
  et_gate : gate_of d' = Gate ep true ({[ep]} ∪ g_epochs (gate_of d)) (const unaccounted_scope <$> scopes_of d)
              (g_accounted (gate_of d)) (g_released (gate_of d));
  et_row : epochs (rlog d') !! ep = Some (EpochRow (tick (clock d)) (Some (q_principal q)) (en_stopped i));
  et_claims : claims (rlog d') = const false <$> claims (rlog d);
  et_ended : ∀ j o, ops d !! j = Some o → ops d' !! j = Some (if ended_by_entry d j o then ended_row ep o else o);
  et_no_others : ∀ j, ops d !! j = None → ops d' !! j = None;
  et_core : core_of d' = Core (plans d) (ops d') (attempts d) (responses d) (accountings d) (classifications d);
  et_authority : authority_of d' = authority_of d;
  et_path : rtc astep (core_of d) (core_of d') }.

Lemma enterRecovery_effect i ep q d q1 res d1 :
  enterRecovery tick a start i ep q d = Ok ((q1, res), d1) →
  d1 = d ∧ q1 = q ∧ q_epoch q = start ∧ owner_id a ≠ "" ∧ principals d !! q_principal q = Some false
  ∧ ef_write res = entry_write tick a i ep (all_machines d) (entry_operations d).
Proof.
  unfold enterRecovery. intros H. gov_inv. rewrite bool_decide_eq_false in *. done.
Qed.
Lemma entry_write_ok i ep q d q2 body d2 :
  entry_write tick a i ep (all_machines d) (entry_operations d) q d = Ok ((q2, body), d2) → checks_inv (core_of d) →
  q2 = with_state_read ep true q ∧ entered_store i ep q d d2.
Proof.
  intros H Hc. pose proof (entry_write_kept authority_of tick a _ _ _ _ _ _ _ _ H) as Hau.
  unfold entry_write, insert_unless, update_rlog in H. m_inv. timeline_inv.
  match goal with H : (_, _) = (q2, _) |- _ => injection H as <- _ end. split; [done|].
  match goal with H : each _ (en_restored i) ?x = Ok (_, ?y), H' : each _ (entry_operations d) ?z = Ok (_, ?t),
      H'' : each _ (all_machines d) ?t = Ok (_, ?r) |- _ =>
    assert (Hc0 : core_of y = core_of x) by (refine (each_keeps core_of _ _ _ _ _ _ H); intros; apply fact_core);
    assert (Hg0 : gate_of y = gate_of x) by (refine (each_keeps gate_of _ _ _ _ _ _ H); intros; apply gate_fact);
    assert (Hl0 : log_of y = log_of x) by (refine (each_keeps log_of _ _ _ _ _ _ H); intros; by apply keeps_modify);
    assert (Hg1 : gate_of t = gate_of z) by (refine (each_keeps gate_of _ _ _ _ _ _ H'); intros; apply end_on_entry_gate);
    assert (Hl1 : log_of t = log_of z) by (refine (each_keeps log_of _ _ _ _ _ _ H'); intros; apply end_on_entry_log);
    assert (Hc2 : core_of r = core_of t) by (refine (each_keeps core_of _ _ _ _ _ _ H''); intros; apply close_scope_core);
    assert (Hl2 : log_of r = log_of t) by (refine (each_keeps log_of _ _ _ _ _ _ H''); intros; apply close_scope_log);
    assert (Hcz : core_of z = core_of d) by exact Hc0;
    eapply each_ended in H' as (Hpath & Hin & Hout & Hcore); [|apply entry_operations_nodup| |by rewrite Hcz];
    [eapply (each_sets_all _ fst unaccounted_scope _ d) in H'' as Hg2; [|apply close_sets|done|]|];
    set (r' := r) in *; set (z' := z) in *; set (y' := y) in *
  end.
  - assert (Hops : ops r' = ops s1) by exact (f_equal co_ops Hc2).
    split.
    + by apply eq_None_not_Some, (bool_decide_eq_false _).
    + by apply negb_false_iff.
    + rewrite Hg2. change (scopes_of s1) with (g_scopes (gate_of s1)). rewrite Hg1.
      change (gate_of z') with (Gate ep true (g_epochs (gate_of y')) (g_scopes (gate_of y')) (g_accounted (gate_of y'))
        (g_released (gate_of y'))). rewrite Hg0. unfold with_scopes, gate_of. simpl. by rewrite dom_insert_L.
    + change (snd (log_of r') !! ep = Some (EpochRow (tick (clock d)) (Some (q_principal q)) (en_stopped i))).
      rewrite Hl2, Hl1. change (snd (log_of y') !! ep = Some (EpochRow (tick (clock d)) (Some (q_principal q)) (en_stopped i))).
      rewrite Hl0. apply lookup_insert_eq.
    + change (fst (log_of r') = const false <$> claims (rlog d)). rewrite Hl2, Hl1.
      change (const false <$> fst (log_of y') = const false <$> claims (rlog d)). by rewrite Hl0.
    + intros j o Hj. rewrite Hops. destruct (ended_by_entry d j o) eqn:He; [apply Hin; by apply entry_operations_elem|].
      rewrite Hout; [by rewrite <- Hj; exact (f_equal (λ c, co_ops c !! j) Hcz)|].
      intros ([j' o'] & -> & Hi)%list_elem_of_fmap. destruct (proj1 (entry_operations_elem _ _ _) Hi). simpl in Hj, He. congruence.
    + intros j Hj. rewrite Hops, Hout; [by rewrite <- Hj; exact (f_equal (λ c, co_ops c !! j) Hcz)|].
      intros ([j' o'] & -> & Hi)%list_elem_of_fmap. destruct (proj1 (entry_operations_elem _ _ _) Hi). simpl in Hj. congruence.
    + rewrite Hc2, Hcore, Hops. change (Core (co_plans (core_of z')) (ops s1) (co_attempts (core_of z')) (co_responses (core_of z'))
        (co_accountings (core_of z')) (co_classes (core_of z'))
        = Core (plans d) (ops s1) (attempts d) (responses d) (accountings d) (classifications d)). by rewrite Hcz.
    + exact Hau.
    + rewrite Hc2, <- Hcz. exact Hpath.
  - change (g_scopes (gate_of s1) = g_scopes (gate_of d)). rewrite Hg1. exact (f_equal g_scopes Hg0).
  - intros j o [Ho He]%entry_operations_elem. split; [rewrite <- Ho; exact (f_equal (λ c, co_ops c !! j) Hcz)|by eapply ended_endable].
Qed.
Lemma entry_moves i ep : moves_recovery (recoveryEntry tick a start i ep).
Proof.
  intros q d q1 res d1 q2 body d2 He Hr Hi H Hw. simpl in H. apply enterRecovery_effect in H as (-> & -> & _ & _ & _ & Hres).
  rewrite Hres in Hw. apply entry_write_ok in Hw as [-> Hs]; [|apply Hi]. destruct Hs. split; [|done..|].
  - apply rtc_once. rewrite et_gate0. apply (rm_enter (gate_of d)). simpl. by rewrite not_elem_of_dom.
  - intros Hok t Ht. assert (Hat : attempts d2 = attempts d) by exact (f_equal co_attempts et_core0). rewrite Hat in Ht.
    destruct (Hok t Ht) as (s & Hs & _). exists unaccounted_scope. split; [|by left].
    change (g_scopes (gate_of d2) !! at_machine t = Some unaccounted_scope). rewrite et_gate0. simpl. by rewrite lookup_fmap, Hs.
Qed.
End Entry.
