(* ===== verification/Recovered.v ===== *)
(** * The whole system with recovery mode: the governed system's transactions and the acts of recovery
    mode against one store, and what holds of every store they reach. *)

From stdpp Require Import relations sorting.
From S2P Require Import Prelude Store World Evidence Commit Attempt Outcome Settle CommitSpec Lifecycle.
From S2P Require Import Lifecycle Refinement System DecisionSpec Request RequestSpec IngestPath Governance Authority.
From S2P Require Import GovernanceSpec Adoption Governed ActsSpec Recovery RecoveryGate RecoverySpec.
From S2P Require Import RecoveryActs.

Section Recovered.
Variable tick : Z → Z.
Variable decode : string → option (list node).
Variable encode : list node → option string.

(** ** The routes of this component *)

Inductive recovers : route → Prop :=
| rc_enter a start i ep : recovers (recoveryEntry tick a start i ep)
| rc_exit a : recovers (exitRoute tick a)
| rc_mark a ev : recovers (scopeMarkRoute tick a ev)
| rc_release a m : recovers (scopeReleaseRoute tick a m)
| rc_scopes a mx scopes given : recovers (scopeAccountingRoute tick a mx scopes given)
| rc_decide a op att s e given : recovers (accountingDecisionRoute tick a op att s e given)
| rc_takeover a op gen reason : recovers (operationTakeover tick a op gen reason)
| rc_resolve a op : recovers (operationResolution tick a op)
| rc_inventory i new : recovers (machineInventory i new).
Lemma recovers_moves rt : recovers rt → moves_recovery rt.
Proof.
  intros []; [apply entry_moves|apply exit_moves|apply mark_moves|apply release_moves|apply scopes_moves|apply decision_moves
    |apply takeover_moves|apply resolution_moves|apply inventory_moves].
Qed.

(** Each leaves the acts and the records to the request: its effect only reads, but an inventory's, and
    its write keeps the caller. *)
Ltac finish_route :=
  simplify_eq; split; [done|]; split; [done|]; simpl; intros q1 d1 q2 body d2 Hw; split;
  [match type of Hw with ?m _ = _ => let Hk := fresh in assert (Hk : keeps book m) by solve_keeps; exact (Hk _ _ _ Hw) end
  |unfold entry_write, mark_write, release_write, exit_write, resolution_write in Hw; m_inv; by simplify_eq].
Ltac op_reads := repeat match goal with
  | H : operationMachine _ _ = Ok _ |- _ => apply operationMachine_ok in H as [-> _]
  | H : lockRecoveryAct _ _ _ _ _ = Ok _ |- _ => apply lockRecoveryAct_ok in H as [-> _] end.
#[local] Hint Resolve takeOverTx_kept accountByDecision_kept : keeps.
Lemma recovers_effect rt q d q' res d' :
  recovers rt → rt_effect rt q d = Ok ((q', res), d') →
  book d' = book d ∧ same_caller q q' ∧ ∀ q1 d1 q2 body d2, ef_write res q1 d1 = Ok ((q2, body), d2) → book d2 = book d1 ∧ same_caller q1 q2.
Proof.
  intros Hr H. destruct Hr; simpl in H.
  - apply enterRecovery_effect in H as (-> & -> & _ & _ & _ & ->). finish_route.
  - unfold leaveRecovery in H. gov_inv. finish_route.
  - unfold markScope in H. gov_inv. finish_route.
  - unfold releaseScope in H. gov_inv. finish_route.
  - apply accountScopes_effect in H as (-> & -> & _ & _ & _ & row & stopped & _ & _ & ->). finish_route.
  - unfold decideAccounting in H. m_inv. op_reads. finish_route.
  - unfold requestTakeover in H. m_inv. op_reads. finish_route.
  - unfold resolveByDecision in H. m_inv. op_reads. finish_route.
  - pose proof (inventoryMachine_kept book i new q _ _ _ H). unfold inventoryMachine in H. m_inv. finish_route.
Qed.
Lemma recovers_conforming rt : recovers rt → Conforming rt.
Proof.
  intros Hr. split.
  - intros q d q' res d' H. by destruct (recovers_effect _ _ _ _ _ _ Hr H) as (? & ? & _).
  - intros q d q' res d1 q1 d2 q2 body d3 H Hw. destruct (recovers_effect _ _ _ _ _ _ Hr H) as (_ & _ & Hf). by eapply Hf.
Qed.

(** A request's parts: its effect and write, on the installation it reads. *)
Lemma recovery_parts rt q act d q' r d' :
  attempt_tx rt q act d = Ok ((q', r, true), d') →
  ∃ q0 q1 res d1 body d2 b, q0 = with_act act (with_state_read (epoch d) (recovery d) q)
    ∧ rt_effect rt q0 d = Ok ((q1, res), d1) ∧ ef_write res q1 d1 = Ok ((q', body), d2) ∧ d' = set_book b d2.
Proof.
  intros H. apply attempt_parts in H as (q0 & q1 & res & d1 & body & d2 & -> & He & Hw & b & ->).
  eexists _, q1, res, d1, body, d2, b. done.
Qed.
Lemma moved_book b d d' : moved d d' → moved d (set_book b d').
Proof. intros [Hg Hc Ha Hr]. exact (Build_moved d (set_book b d') Hg Hc Ha Hr). Qed.
Lemma request_moved rt q act d q' r d' :
  recovers rt → recovery_inv d → attempt_tx rt q act d = Ok ((q', r, true), d') → moved d d'.
Proof.
  intros Hr Hi H. apply recovery_parts in H as (q0 & q1 & res & d1 & body & d2 & b & -> & He & Hw & ->).
  apply moved_book. exact (recovers_moves rt Hr (with_act act (with_state_read (epoch d) (recovery d) q)) _ _ _ _ _ _ _ eq_refl eq_refl Hi He Hw).
Qed.

(** ** The gates are the recovery acts' own *)

(** No transaction of the core, adoption or governing act touches them. *)
Lemma step_gate d d' : step tick d d' → gate_of d' = gate_of d ∨ env d d'.
Proof.
  intros H. inversion H; subst; clear H; [left..|by right];
    try (match goal with H : ?m _ = Ok _ |- _ => let Hk := fresh in
      assert (Hk : keeps gate_of m) by auto using recordRefusalEntry_kept, settleAttemptRefusal_kept, takeOverTx_kept,
        recordResponseTx_kept, accountByDecision_kept, settleOperationTx_kept, gate_core_free; by apply (Hk _ _ _ H) end).
  - match goal with H : commitTx _ _ _ _ _ = _ |- _ => apply commitTx_ok in H as (x & Hx & _ & ->) end; [|done].
    destruct (com_reads _ _ _ _ _ _ Hx) as (_ & _ & _ & _ & _ & _ & Hm & _). unfold after_commit.
    exact (gate_machines _ (counted (cr_machine (cm_reads x))) _ (set_clock (tick (clock d)) d) Hm eq_refl).
  - match goal with H : recordAttemptTx _ _ _ _ _ _ = _ |- _ => apply recordAttemptTx_ok in H as (o & x & Hx & _ & ->) end; [|done].
    destruct (adm_reads _ _ _ _ _ _ _ _ Hx) as (_ & _ & _ & _ & _ & _ & _ & Hm & _). unfold after_attempt.
    exact (gate_machines _ (counted (ar_machine (ro_reads x))) _ (set_clock (tick (clock d)) (sent op d)) Hm eq_refl).
Qed.
Lemma row_update_gate {A} m (g : machine → machine) (k : machine → Tx A) :
  (∀ x, m_scope (g x) = m_scope x) → (∀ x, keeps gate_of (k x)) →
  keeps gate_of (row ← machine_row m; modify (λ d, set_machines (<[m := g row]> (machines d)) d);; k row).
Proof.
  intros Hg Hk d x d' H. unfold machine_row in H. m_inv.
  match goal with H : k _ _ = Ok _ |- _ => rewrite (Hk _ _ _ _ H) end. by eapply gate_machines.
Qed.
Lemma adoption_record_gate a plan op c obs b t : keeps gate_of (adoption_record tick a plan op c obs b t).
Proof. unfold adoption_record. apply (row_update_gate _ counted_twice); [done|]. solve_keeps. Qed.
Lemma adoption_gate a plan op : keeps gate_of (adoptionTx tick a plan op).
Proof.
  pose proof adoption_record_gate. unfold adoptionTx, adoption_locks. solve_keeps.
Qed.
Lemma governs_gate rt q act d q' r d' :
  governs tick decode encode rt → attempt_tx rt q act d = Ok ((q', r, true), d') → gate_of d' = gate_of d.
Proof.
  intros Hg H. apply recovery_parts in H as (q0 & q1 & res & d1 & body & d2 & b & _ & He & Hw & ->).
  destruct (governs_effect _ _ _ _ _ _ _ _ _ Hg He) as (Hk & _ & _ & Hk'). destruct (Hk' _ _ _ _ _ Hw) as [_ Hk2].
  change (gate_of d2 = gate_of d). by rewrite (Hk2 _ gate_of _), (Hk _ gate_of _).
Qed.
Lemma gstep_gate d d' : gstep tick decode encode d d' → gate_of d' = gate_of d ∨ env d d'.
Proof.
  intros [a plan op d0 r d0' Hp H|a plan op d0 r d0' H|rt q act d0 q' r d0' Hg H|d0 d0' ps Hs Hps He].
  - by apply step_gate, (s_commit tick a plan op d0 r).
  - left. by eapply adoption_gate.
  - left. by eapply governs_gate.
  - by apply step_gate.
Qed.

(** ** The system *)

(** A step of the governed system, where the rest of the program leaves the gates alone, or a request
    of this component that took effect. *)
Inductive rstep : Db → Db → Prop :=
| rs_governed d d' : gstep tick decode encode d d' → (env d d' → gate_of d' = gate_of d) → rstep d d'
| rs_request rt q act d q' r d' :
    recovers rt → attempt_tx rt q act d = Ok ((q', r, true), d') → rstep d d'.

(** The attempts a step records are of the current epoch, on a machine there is. *)
Lemma step_attempt_rows d d' :
  step tick d d' → ∃ l, attempts d' = attempts d ++ l ∧
    ∀ t, t ∈ l → at_epoch t = epoch d ∧ is_Some (machines d !! at_machine t).
Proof.
  assert (Hno : ∀ d d', attempts d' = attempts d → ∃ l, attempts d' = attempts d ++ l ∧
    ∀ t, t ∈ l → at_epoch t = epoch d ∧ is_Some (machines d !! at_machine t)).
  { intros x y ->. exists []. split; [by rewrite app_nil_r|]. by intros t ?%elem_of_nil. }
  intros H. inversion H; subst; clear H; try (apply Hno;
    match goal with H : ?m _ = Ok _ |- _ => let Hk := fresh in
      assert (Hk : keeps attempts m) by auto using recordRefusalEntry_kept, settleAttemptRefusal_kept, takeOverTx_kept,
        recordResponseTx_kept, accountByDecision_kept, settleOperationTx_kept, attempts_core_free; by apply (Hk _ _ _ H) end).
  - apply Hno. match goal with H : commitTx _ _ _ _ _ = _ |- _ => apply commitTx_ok in H as (x & Hx & _ & ->) end; done.
  - match goal with H : recordAttemptTx _ _ _ _ _ _ = _ |- _ => apply recordAttemptTx_ok in H as (o & x & Hx & -> & ->) end; [|done].
    eexists. split; [done|]. intros t ->%list_elem_of_singleton. split; [done|].
    destruct (adm_reads _ _ _ _ _ _ _ _ Hx) as (_ & _ & _ & _ & _ & _ & _ & Hm & _). by eexists.
  - apply Hno. match goal with H : env _ _ |- _ => apply H end.
Qed.

Lemma governed_restored d d' : step tick d d' → gate_of d' = gate_of d → restored_ok d → restored_ok d'.
Proof.
  intros Hs Hg Hr. assert (He : epoch d' = epoch d) by exact (f_equal g_epoch Hg).
  assert (Hsc : scopes_of d' = scopes_of d) by exact (f_equal g_scopes Hg).
  destruct (step_attempt_rows _ _ Hs) as (l & Ha & Hl). apply (rtc_once (R:=step tick)), steps_tables in Hs as (_ & _ & Hk & _).
  intros t. rewrite Ha, Hsc, He, elem_of_app. intros [Ht|Ht].
  - destruct (Hr t Ht) as (s & Hm & Hc). exists s. split; [done|]. destruct Hc as [?|[?|?]]; [by left|by right; left|].
    right. right. by eapply accounted_mono.
  - destruct (Hl t Ht) as [Hep [m Hm]]. exists (m_scope m). split; [by apply scope_of_row|]. right. by left.
Qed.

(** What a move keeps of the whole invariant. *)
Lemma moved_inv d d' : moved d d' → recovery_inv d → recovery_inv d'.
Proof.
  intros [Hg Hc Ha Hr] [[Hau Hch Hl] Hgi Hri]. split; [split| |auto].
  - by rewrite Ha.
  - by eapply asteps_checks.
  - by eapply asteps_inv.
  - by eapply rmoves_inv.
Qed.
Lemma rstep_gates d d' : rstep d d' → recovery_inv d → rtc rmove (gate_of d) (gate_of d').
Proof.
  intros [d0 d0' H Hq|rt q act d0 q' r d0' Hr H] Hi.
  - by destruct (gstep_gate _ _ H) as [->|He]; [|rewrite Hq].
  - by eapply mv_gate, request_moved.
Qed.
Lemma rstep_inv d d' : rstep d d' → recovery_inv d → recovery_inv d'.
Proof.
  intros [d0 d0' H Hq|rt q act d0 q' r d0' Hr H] Hi; [|by eapply moved_inv; [eapply request_moved|]].
  assert (Hg : gate_of d0' = gate_of d0) by (destruct (gstep_gate _ _ H); auto).
  destruct (gstep_inv _ _ _ _ _ H (ri_governed _ Hi)) as [Hgi Hs]. split; [done|rewrite Hg; apply Hi|].
  eapply governed_restored; [done..|apply Hi].
Qed.
Lemma rsteps_inv d d' : rtc rstep d d' → recovery_inv d → recovery_inv d' ∧ rtc rmove (gate_of d) (gate_of d').
Proof.
  induction 1 as [d|d1 d2 d3 H _ IH]; [done|]. intros Hi. pose proof (rstep_gates _ _ H Hi).
  destruct IH; [by eapply rstep_inv|]. split; [done|]. by etrans.
Qed.

(** ** The fence of an entry *)

Definition refuses {A} (m : Tx A) (d : Db) : Prop := ∀ r, m d ≠ Ok r.
(** The requests of this component a process serves. *)
Inductive serves (b : api) : route → Prop :=
| sv_enter i ep : serves b (recoveryEntry tick b (owner_epoch b) i ep)
| sv_exit : serves b (exitRoute tick b)
| sv_mark ev : serves b (scopeMarkRoute tick b ev)
| sv_release m : serves b (scopeReleaseRoute tick b m)
| sv_scopes mx scopes given : serves b (scopeAccountingRoute tick b mx scopes given)
| sv_decide op att s e given : serves b (accountingDecisionRoute tick b op att s e given)
| sv_takeover op gen reason : serves b (operationTakeover tick b op gen reason)
| sv_resolve op : serves b (operationResolution tick b op).

(** No transaction of the process goes through: it executes, records and decides nothing. *)
Record fenced (b : api) (d : Db) : Prop := {
  fn_commit : ∀ plan op, refuses (commitTx tick b plan op) d;
  fn_refusal : ∀ m plan cmp cause obs already once drift,
    refuses (recordRefusalEntry tick b m plan cmp cause obs already once drift) d;
  fn_adopt : ∀ plan op, refuses (adoptionTx tick b plan op) d;
  fn_attempt : ∀ op att gen, refuses (recordAttemptTx tick b op att gen) d;
  fn_attempt_refusal : ∀ m plan op gen cmp cause obs, refuses (settleAttemptRefusal tick b m plan op gen cmp cause obs) d;
  fn_takeover : ∀ op gen reason, refuses (takeOverTx tick b op gen reason) d;
  fn_respond : ∀ att resp, refuses (recordResponseTx tick b att resp) d;
  fn_account : ∀ att by_ act s e expl, refuses (accountByDecision tick b att by_ act s e expl) d;
  fn_settle : ∀ op gen obs, refuses (settleOperationTx tick b op gen obs) d;
  fn_request : ∀ rt q act q' r d', serves b rt → attempt_tx rt q act d ≠ Ok ((q', r, true), d') }.

Lemma lock_epoch b op tk d l d' : opts b = production → lockOperationAs b op tk d = Ok (l, d') → epoch d = owner_epoch b.
Proof.
  intros Hp H. apply lockOperationAs_ok in H as (_ & o & m & p & _ & _ & _ & _ & _ & [?|H]); [done|].
  rewrite Hp, andb_false_r in H. done.
Qed.
Lemma serves_epoch b rt q d q1 res d1 q2 body d2 :
  opts b = production → serves b rt → q_epoch q = epoch d → rt_effect rt q d = Ok ((q1, res), d1) →
  ef_write res q1 d1 = Ok ((q2, body), d2) → epoch d = owner_epoch b.
Proof.
  intros Hp Hs He H Hw. destruct Hs; simpl in H.
  - apply enterRecovery_effect in H as (_ & _ & Hst & _). congruence.
  - unfold leaveRecovery in H. gov_inv. congruence.
  - unfold markScope in H. gov_inv. congruence.
  - unfold releaseScope in H. gov_inv. congruence.
  - apply accountScopes_effect in H as (_ & _ & Ho & _). congruence.
  - unfold decideAccounting in H. m_inv.
    match goal with H : operationMachine _ _ = _ |- _ => apply operationMachine_ok in H as [-> _] end.
    match goal with H : lockRecoveryAct _ _ _ _ _ = _ |- _ => apply lockRecoveryAct_ok in H as (_ & _ & Hl) end. by eapply lock_epoch.
  - unfold requestTakeover in H. m_inv.
    match goal with H : operationMachine _ _ = _ |- _ => apply operationMachine_ok in H as [-> _] end.
    match goal with H : lockRecoveryAct _ _ _ _ _ = _ |- _ => apply lockRecoveryAct_ok in H as (_ & _ & Hl) end. by eapply lock_epoch.
  - unfold resolveByDecision in H. m_inv.
    match goal with H : operationMachine _ _ = _ |- _ => apply operationMachine_ok in H as [-> _] end.
    match goal with H : lockRecoveryAct _ _ _ _ _ = _ |- _ => apply lockRecoveryAct_ok in H as (_ & _ & Hl) end. by eapply lock_epoch.
Qed.
Lemma other_epoch_fenced b d : opts b = production → owner_epoch b ≠ epoch d → fenced b d.
Proof.
  intros Hp Hne. split.
  - intros plan op [r d'] H. apply commitTx_ok in H as (x & Hx & _); [|done].
    destruct (com_reads _ _ _ _ _ _ Hx) as (Hs & _). apply superseded_ok in Hs; congruence.
  - intros m plan cmp cause obs already once drift [r d'] H. unfold recordRefusalEntry in H. m_inv. congruence.
  - intros plan op [r d'] H. apply adoptionTx_ok in H as (c & e & t & Hl & _). apply adoption_locks_ok in Hl as (_ & He & _). congruence.
  - intros op att gen [r d'] H. apply recordAttemptTx_ok in H as (o & x & Hx & _); [|done].
    destruct (adm_reads _ _ _ _ _ _ _ _ Hx) as (Hs & _). apply superseded_ok in Hs; congruence.
  - intros m plan op gen cmp cause obs [r d'] H. unfold settleAttemptRefusal in H. m_inv. congruence.
  - intros op gen reason [r d'] H. unfold takeOverTx in H. m_inv.
    match goal with H : lockOperationAs _ _ _ _ = _ |- _ => apply lock_epoch in H; [congruence|done] end.
  - intros att resp [r d'] H. unfold recordResponseTx in H. m_inv.
    match goal with H : lockOperation _ _ _ = _ |- _ => apply lock_epoch in H; [congruence|done] end.
  - intros att by_ act s e expl [r d'] H. unfold accountByDecision in H. m_inv.
    match goal with H : lockOperation _ _ _ = _ |- _ => apply lock_epoch in H; [congruence|done] end.
  - intros op gen obs [r d'] H. unfold settleOperationTx in H. m_inv.
    match goal with H : lockOperation _ _ _ = _ |- _ => apply lock_epoch in H; [congruence|done] end.
  - intros rt q act q' r d' Hs H. apply recovery_parts in H as (q0 & q1 & res & d1 & body & d2 & b' & -> & He & Hw & _).
    destruct (Hne). symmetry. exact (serves_epoch _ _ (with_act act (with_state_read (epoch d) (recovery d) q)) _ _ _ _ _ _ _ Hp Hs eq_refl He Hw).
Qed.

(** The entry's own request. *)
Lemma entry_request a start i ep q act d q' r d' :
  recovery_inv d → attempt_tx (recoveryEntry tick a start i ep) q act d = Ok ((q', r, true), d') →
  epoch d = start ∧ owner_id a ≠ "" ∧ principals d !! q_principal q = Some false ∧ ∃ q1 d2 b,
    q_principal q1 = q_principal q ∧ d' = set_book b d2 ∧ entered_store tick a i ep q1 d d2.
Proof.
  intros Hi H. apply recovery_parts in H as (q0 & q1 & res & d1 & body & d2 & b & -> & He & Hw & ->). simpl in He.
  apply enterRecovery_effect in He as (-> & -> & Hst & Ho & Hp & Hres). rewrite Hres in Hw.
  apply entry_write_ok in Hw as [-> Hs]; [|apply Hi]. split_and!; [done..|]. eexists _, d2, b. by split_and!; [|done|exact Hs].
Qed.

(** ** Execution under recovery mode *)

(** A process commits a plan of the machine, records its adoption, or records an attempt on it. *)
Inductive executes (b : api) (m : string) (d : Db) : Prop :=
| ex_commit plan op r d' p : plans d !! plan = Some p → p_machine p = m → commitTx tick b plan op d = Ok (r, d') → executes b m d
| ex_adopt plan op r d' p : plans d !! plan = Some p → p_machine p = m → adoptionTx tick b plan op d = Ok (r, d') → executes b m d
| ex_attempt op att gen t d' : recordAttemptTx tick b op att gen d = Ok (t, d') → at_machine t = m → executes b m d.
Lemma executes_scope b m d : opts b = production → executes b m d →
  ∃ s, scopes_of d !! m = Some s ∧ (s = "released" ∨ s = "normal" ∧ recovery d = false).
Proof.
  intros Hp [plan op r d' p Hpl <- H|plan op r d' p Hpl <- H|op att gen t d' H <-].
  - apply commitTx_ok in H as (x & Hx & _); [|done]. pose proof (com_scope _ _ _ _ _ _ Hx) as Hs.
    destruct (com_reads _ _ _ _ _ _ Hx) as (_ & _ & Hr & Hpl' & _ & _ & Hm & _). simplify_eq.
    eexists. split; [by apply scope_of_row|]. apply scopeGate_pass in Hs as (_ & _ & Hs). by rewrite ?Hr in Hs.
  - apply adoptionTx_ok in H as (c & e & t & Hl & _ & _ & _ & _ & Hs & _).
    apply adoption_locks_ok in Hl as (_ & _ & _ & Hpl' & _ & Hm & _ & _ & _ & _ & Hr & _). simplify_eq.
    apply adoption_scope_ok in Hs as [_ Hs]. rewrite Hr in Hs. eexists. split; [by apply scope_of_row|done].
  - apply recordAttemptTx_ok in H as (o & x & Hx & -> & _); [|done]. pose proof (adm_scope _ _ _ _ _ _ _ _ Hx) as Hs.
    destruct (adm_reads _ _ _ _ _ _ _ _ Hx) as (_ & _ & _ & _ & _ & _ & _ & Hm & _).
    eexists. split; [by apply scope_of_row|]. by apply scopeGate_pass in Hs as (_ & _ & Hs).
Qed.
Lemma rmoves_scope g g' m s :
  rtc rmove g g' → g_scopes g !! m = Some s → ∃ s', g_scopes g' !! m = Some s' ∧ rtc scope_step s s'.
Proof.
  intros H. revert s. induction H as [|x y z Hxy _ IH]; intros s Hm; [by exists s|].
  destruct (rmove_scope _ _ _ _ Hxy Hm) as (s1 & Hm1 & Hs1). destruct (IH _ Hm1) as (s2 & Hm2 & Hs2).
  exists s2. split; [done|]. destruct Hs1 as [->|Hs1]; [done|by eapply rtc_l].
Qed.
End Recovered.
