(* ===== verification/RecoveryScenario.v ===== *)
(** * A concrete restored installation: a configuration sent and not answered, the entry into recovery
    mode, and the way back to a commitment under the new epoch. *)

From stdpp Require Import relations sorting.
From S2P Require Import Prelude Store World Evidence Commit Attempt Outcome Settle Observe Lifecycle.
From S2P Require Import Executor Lifecycle Refinement System Scenario Config Request RequestSpec Ident IngestPath Governance.
From S2P Require Import Authority GovernanceSpec Adoption Governed ActsSpec GovernedScenario.
From S2P Require Import Recovery RecoveryGate RecoverySpec RecoveryActs Recovered.

Definition rv_m : string := "mch_" +:+ gv_word.
Definition rv_rel : string := "rel_" +:+ gv_word.
(** One machine in its first epoch, a live staging claim with its running ingest job, and a queued
    publish job. *)
Definition rv_job (k : op_kind) (s : op_state) : operation :=
  Operation 1 k s "ep_1" (Some "srv_1") 1 (Some "ep_1") None None None 0 None None.
Definition rv_start : Db :=
  set_ops {["op_2" := rv_job KIngest Running; "op_3" := rv_job KPublish Queued; "op_4" := rv_job KIngest Running]}
    (set_rlog (RecoveryLog {["ep_1" := EpochRow 0 None None]} ∅ ∅ ∅ {["ing_1" := true; "ing_2" := false]}
      {["op_2" := "ing_1"; "op_4" := "ing_2"]} ∅ []) gv_wide).

Definition rv_input (operation : string) (mode : option string) : planInput :=
  PlanInput rv_rel rv_m operation mode None None None None None None.
Definition rv_creation (op plan : string) (mode : option string) : Db → Db :=
  gv_attempt (planCreation sc_tick gv_decode gv_encode gv_execution (rv_input op mode) plan)
    (gv_request "prn_2" "publisher" ("create" +:+ plan)).
Definition rv_observe (a : api) (i digest plan op : string) (p : purpose) : Db → Db :=
  sc_act (observe sc_others (λ _, i) sc_tick a rv_m (ObserveFor p plan op None false)) digest.
Definition rv_check (a : api) (plan : string) : Db → Db :=
  sc_act (useTimeCheck sc_others sc_tick a "key" rv_m plan "" None None) "".
Definition rv_again : string := "pln_" +:+ "aaaaaaaaaaaaaaaaaaaaaaaaai".

(** In the first epoch: adopted, then configured up to an attempt no answer came to. *)
Definition rv_proposed : Db := rv_creation "adopt" gv_adopt None rv_start.
Definition rv_approved : Db := gv_approval gv_adopt "apr_1" rv_proposed.
Definition rv_seen : Db := rv_observe sc_api "obs_1" "before" gv_adopt "" PEvidence rv_approved.
Definition rv_adopted : Db := sc_run (adoptionTx sc_tick sc_api gv_adopt "op_0") rv_seen.
Definition rv_planned : Db := rv_creation "apply-config" gv_apply (Some "no-reboot") rv_adopted.
Definition rv_allowed : Db := gv_approval gv_apply "apr_2" rv_planned.
Definition rv_ready : Db := rv_observe sc_api "obs_2" "before" gv_apply "" PEvidence (rv_check sc_api gv_apply rv_allowed).
Definition rv_op : string := "op_" +:+ gv_word.
Definition rv_committed : Db := sc_run (commitTx sc_tick sc_api gv_apply rv_op) rv_ready.
Definition rv_attempted : Db := sc_run (recordAttemptTx sc_tick sc_api rv_op "att_1" 1) rv_committed.

(** The recovery start: the process that started in the first epoch and is the new one's controller. *)
Definition rv_api (ep : string) : api := Api "exe_9" ep 1000 production.
Definition rv_new : api := rv_api "ep_2".
Definition rv_entry : entryRequest := EntryRequest [RestoredBackup "database" "nightly" (Some 0)] (Some 50) "restored".
Definition rv_admin (key : string) : request := gv_request "prn_3" "recovery-admin" key.
Definition rv_enter : route := recoveryEntry sc_tick (rv_api "ep_1") "ep_1" rv_entry "ep_2".
Definition rv_entered : Db := gv_attempt rv_enter (rv_admin "enter") rv_attempted.

(** Both ends of the settle, the scope's accounting, and the operation found done. *)
Definition rv_read : Db :=
  rv_observe rv_new "obs_4" "after" "" "" PRecovery (sc_later 100000000
    (rv_observe rv_new "obs_3" "after" "" "" PRecovery (sc_later 100000000 rv_entered))).
Definition rv_scopes : list scopeSettle := [ScopeSettle rv_m "obs_3" "obs_4"].
Definition rv_account : route := scopeAccountingRoute sc_tick rv_new 60000000 rv_scopes ∅.
Definition rv_accounted : Db := gv_attempt rv_account (rv_admin "account") rv_read.
Definition rv_completion : Db := rv_observe rv_new "obs_5" "after" gv_apply rv_op PCompletion rv_accounted.
Definition rv_settled : Db := sc_run (settleOperationTx sc_tick rv_new rv_op 2 "obs_5") rv_completion.

(** The mark on a restoration observation, the release, and a plan of the new epoch committed. *)
Definition rv_restoration : Db := rv_observe rv_new "obs_6" "after" "" "" PRestoration rv_settled.
Definition rv_evidence : markEvidence := MarkEvidence rv_m "obs_6" rv_rel [] false.
Definition rv_mark : route := scopeMarkRoute sc_tick rv_new rv_evidence.
Definition rv_marked : Db := gv_attempt rv_mark (rv_admin "mark") rv_restoration.
Definition rv_release : route := scopeReleaseRoute sc_tick rv_new rv_m.
Definition rv_released : Db := gv_attempt rv_release (rv_admin "release") rv_marked.
Definition rv_replanned : Db := rv_creation "apply-config" rv_again (Some "no-reboot") rv_released.
Definition rv_reapproved : Db := gv_approval rv_again "apr_3" rv_replanned.
Definition rv_evident : Db := rv_observe rv_new "obs_7" "after" rv_again "" PEvidence (rv_check rv_new rv_again rv_reapproved).
Definition rv_recommitted : Db := sc_run (commitTx sc_tick rv_new rv_again "op_9") rv_evident.
(** And the exit, from the released scope. *)
Definition rv_exit : route := exitRoute sc_tick rv_new.
Definition rv_exited : Db := gv_attempt rv_exit (rv_admin "exit") rv_released.

Definition rv_scope (d : Db) : option string := scopes_of d !! rv_m.
Definition rv_state (d : Db) : option op_state := op_st <$> ops d !! rv_op.
Example rv_story : (λ d, (epoch d, recovery d, rv_scope d, rv_state d)) <$>
    [rv_attempted; rv_entered; rv_accounted; rv_settled; rv_marked; rv_released; rv_recommitted; rv_exited]
  = [("ep_1", false, Some "normal", Some Sending); ("ep_2", true, Some unaccounted_scope, Some Unresolved);
     ("ep_2", true, Some "unresolved", Some Unresolved); ("ep_2", true, Some "unresolved", Some Completed);
     ("ep_2", true, Some "ready", Some Completed); ("ep_2", true, Some "released", Some Completed);
     ("ep_2", true, Some "released", Some Completed); ("ep_2", false, Some "normal", Some Completed)].
Proof. vm_compute. reflexivity. Qed.
Example rv_committed_again : op_st <$> ops rv_recommitted !! "op_9" = Some Committed.
Proof. vm_compute. reflexivity. Qed.

(** ** Its stores are reached *)

Notation rv_step := (rstep sc_tick gv_decode gv_encode).
Definition rv_reached (d : Db) : Prop := rtc rv_step rv_start d.
Lemma rv_job_ok k s : kind_state k s = true → k ≠ KApplyConfig → op_kind_of (rv_job k s) ≠ KApplyConfig ∧ checks_ok (rv_job k s).
Proof. intros Hk Hn. split_and!; try done; simpl; by eexists. Qed.
Lemma rv_initial : initial rv_start.
Proof.
  split; [done|]. split; [done|]. split; [done|]. split; [done|].
  repeat apply map_Forall_insert_2; [by apply rv_job_ok..|]. apply map_Forall_empty.
Qed.
Lemma rv_start_inv : recovery_inv rv_start.
Proof.
  split; [split|split|]; simpl.
  - split; simpl; try (by intros ? ? [=]); try (by intros ? ? ? [=]); try (by intros ? ? ? ? [=]); try set_solver.
    intros i. by split; intros [? [=]].
  - apply initial_checks, rv_initial.
  - apply initial_inv, rv_initial.
  - set_solver.
  - by intros m e [? [=]].
  - by intros m e [? [=]].
  - intros _. apply (map_Forall_lookup_2 _). intros i s Hi. unfold scopes_of in Hi. rewrite lookup_fmap in Hi.
    apply fmap_Some in Hi as (x & Hx & ->).
    by destruct (proj1 (lookup_singleton_Some rv_m i (Machine "cl_1" "normal" false 0 None (Some "node_1") "10.0.0.1") x) Hx) as [_ <-].
  - done.
  - by intros t ?%elem_of_nil.
Qed.

(** From a store of the invariant, a step more. *)
Section From.
Context (d0 : Db) (Hi0 : recovery_inv d0).
Notation reach := (rtc rv_step d0).
Lemma rv_from_inv d : reach d → recovery_inv d.
Proof. intros H. by apply (rsteps_inv _ _ _ _ _ H Hi0). Qed.
Lemma rv_governs d rt q :
  reach d → governs sc_tick gv_decode gv_encode rt →
  match attempt_tx rt q ("act_" +:+ q_key q) d with Ok ((_, _, true), _) => True | _ => False end →
  reach (gv_attempt rt q d).
Proof.
  intros Hd Hg H. eapply rtc_r; [exact Hd|]. unfold gv_attempt, sc_run.
  destruct (attempt_tx _ _ _ _) as [[[[q' r] []] d']|e] eqn:Ha; try done.
  apply rs_governed; [by eapply gs_request|]. intros _. by eapply governs_gate.
Qed.
Lemma rv_recovers d rt q :
  reach d → recovers sc_tick rt →
  match attempt_tx rt q ("act_" +:+ q_key q) d with Ok ((_, _, true), _) => True | _ => False end →
  reach (gv_attempt rt q d).
Proof.
  intros Hd Hg H. eapply rtc_r; [exact Hd|]. unfold gv_attempt, sc_run.
  destruct (attempt_tx _ _ _ _) as [[[[q' r] []] d']|e] eqn:Ha; try done. by eapply rs_request.
Qed.
(** A step of the rest, and one of the core that leaves the authority alone. *)
Lemma rv_env d d' :
  reach d → exec_of d' = exec_of d → authority_of d' = authority_of d → gate_of d' = gate_of d → reach d'.
Proof.
  intros Hd He Ha Hg. eapply rtc_r; [exact Hd|]. apply rs_governed; [|done].
  apply gv_env_step; [done..|]. by apply gi_checks, ri_governed, rv_from_inv.
Qed.
Lemma rv_core {A} (m : Tx A) d :
  reach d → (∀ x d', m d = Ok (x, d') → gstep sc_tick gv_decode gv_encode d d') → gate_of (sc_run m d) = gate_of d →
  match m d with Ok _ => True | Err _ => False end → reach (sc_run m d).
Proof.
  intros Hd Hs Hg H. destruct (sc_run_ok m d H) as [x Hx]. eapply rtc_r; [exact Hd|]. apply rs_governed; [by eapply Hs|].
  by intros _.
Qed.
End From.
Lemma rv_reached_inv d : rv_reached d → recovery_inv d.
Proof. apply rv_from_inv, rv_start_inv. Qed.

Lemma rv_proposed_reached : rv_reached rv_proposed.
Proof. apply rv_governs; [apply rtc_refl|apply gv_create|by vm_compute]. Qed.
Lemma rv_approved_reached : rv_reached rv_approved.
Proof. apply rv_governs; [apply rv_proposed_reached|apply gv_approve|by vm_compute]. Qed.
Lemma rv_seen_reached : rv_reached rv_seen.
Proof. apply (rv_env _ rv_start_inv rv_approved); [apply rv_approved_reached|vm_compute; reflexivity..]. Qed.
Lemma rv_adopted_reached : rv_reached rv_adopted.
Proof.
  apply rv_core; [apply rv_seen_reached| |by vm_compute..]. intros x d' H. by eapply (gs_adopt _ _ _ sc_api).
Qed.
Lemma rv_planned_reached : rv_reached rv_planned.
Proof. apply rv_governs; [apply rv_adopted_reached|apply gv_create|by vm_compute]. Qed.
Lemma rv_allowed_reached : rv_reached rv_allowed.
Proof. apply rv_governs; [apply rv_planned_reached|apply gv_approve|by vm_compute]. Qed.
Lemma rv_ready_reached : rv_reached rv_ready.
Proof. apply (rv_env _ rv_start_inv rv_allowed); [apply rv_allowed_reached|vm_compute; reflexivity..]. Qed.
Lemma rv_committed_reached : rv_reached rv_committed.
Proof.
  apply rv_core; [apply rv_ready_reached| |by vm_compute..]. intros x d' H. by eapply (gs_commit _ _ _ sc_api).
Qed.
Lemma rv_attempted_reached : rv_reached rv_attempted.
Proof.
  apply rv_core; [apply rv_committed_reached| |by vm_compute..]. intros x d' H.
  eapply core_quiet; [exact H| |apply recordAttemptTx_kept; [apply _|done]].
  intros d1 d2 y Hy. by eapply (s_attempt _ sc_api).
Qed.
Lemma rv_entered_reached : rv_reached rv_entered.
Proof. apply rv_recovers; [apply rv_attempted_reached|apply rc_enter|by vm_compute]. Qed.
Lemma rv_entered_inv : recovery_inv rv_entered.
Proof. apply rv_reached_inv, rv_entered_reached. Qed.

(** After the entry. *)
Lemma rv_accounted_after : rtc rv_step rv_entered rv_accounted.
Proof.
  apply rv_recovers; [|apply rc_scopes|by vm_compute]. apply (rv_env _ rv_entered_inv rv_entered); [apply rtc_refl|vm_compute; reflexivity..].
Qed.
Lemma rv_settled_after : rtc rv_step rv_entered rv_settled.
Proof.
  apply rv_core; [apply (rv_env _ rv_entered_inv rv_accounted); [apply rv_accounted_after|vm_compute; reflexivity..]| |by vm_compute..]. intros x d' H.
  eapply core_quiet; [exact H| |apply settleOperationTx_kept, _]. intros d1 d2 y Hy. by eapply (s_settle _ rv_new).
Qed.
Lemma rv_marked_after : rtc rv_step rv_entered rv_marked.
Proof.
  apply rv_recovers; [|apply rc_mark|by vm_compute]. apply (rv_env _ rv_entered_inv rv_settled); [apply rv_settled_after|vm_compute; reflexivity..].
Qed.
Lemma rv_released_after : rtc rv_step rv_entered rv_released.
Proof. apply rv_recovers; [apply rv_marked_after|apply rc_release|by vm_compute]. Qed.
Lemma rv_evident_after : rtc rv_step rv_entered rv_evident.
Proof.
  apply (rv_env _ rv_entered_inv rv_reapproved); [|vm_compute; reflexivity..]. apply rv_governs; [|apply gv_approve|by vm_compute].
  apply rv_governs; [apply rv_released_after|apply gv_create|by vm_compute].
Qed.
Lemma rv_exited_after : rtc rv_step rv_entered rv_exited.
Proof. apply rv_recovers; [apply rv_released_after|apply rc_exit|by vm_compute]. Qed.

Lemma rv_after_reached d : rtc rv_step rv_entered d → rv_reached d.
Proof. intros H. exact (rtc_trans _ _ _ rv_entered_reached H). Qed.
