(* ===== verification/RequestProps.v ===== *)
(** * The properties of mutating requests, of the paired diff a plan shows, and of the deployment's
    keys and tokens. *)

From stdpp Require Import relations.
From S2P Require Import Prelude Store World Scenario Config Request RequestSpec IngestPath Redaction Governance.
From S2P Require Import GovernanceSpec GovernedScenario Recovery RecoveryActs Recovered RecoveryScenario.

(** The routes a process serves, of those modelled: the plans', machines' and identities', the recovery
    acts', and the recovery entry, in the epoch that the process mints for it. *)
Inductive served (tick : Z → Z) decode encode (sv : server) : route → Prop :=
| sd_governs rt : governs tick decode encode rt → served tick decode encode sv rt
| sd_recovers rt : recovers tick rt → rt_pattern rt ≠ entryPattern → served tick decode encode sv rt
| sd_entry a start i : served tick decode encode sv (recoveryEntry tick a start i (sv_minted sv)).
Lemma served_conforming tick decode encode sv rt : served tick decode encode sv rt → Conforming rt.
Proof.
  intros [rt' H|rt' H _|a start i]; [by eapply governs_conforming|by eapply recovers_conforming|eapply recovers_conforming, rc_enter].
Qed.
Lemma served_minted tick decode encode sv rt : served tick decode encode sv rt → minted sv rt.
Proof.
  intros H Hp. pose proof (served_conforming _ _ _ _ _ H) as Hc. destruct H as [rt' []|rt' _ Hne|a start i]; try discriminate; [done|].
  intros q act d q' r d' Ha. pose proof (attempt_fresh _ _ _ _ _ _ _ Ha) as (_ & _ & _ & _ & _ & _ & -> & _).
  apply recovery_parts in Ha as (q0 & q1 & res & d1 & body & d2 & b & -> & He & Hw & _). simpl in He.
  apply enterRecovery_effect in He as (-> & -> & _ & _ & _ & Hres). rewrite Hres in Hw. unfold entry_write in Hw. m_inv. by simplify_eq.
Qed.

Section Requests.
Context (tick : Z → Z) (decode : string → option (list node)) (encode : list node → option string).
Context (others : nat → Db → Db) (fresh_id : nat → string) (keyed_digest : request → Z → digest_answer) (sv : server).
Context (rt : route) (Hs : served tick decode encode sv rt).
Notation mutate := (mutate others fresh_id keyed_digest sv rt).

(** C34: whatever the network does to the attempts of a request to one of the served routes, and whatever
    others commit meanwhile who change no record and sign none as this request: the request's
    transaction takes effect once or not at all, and the answer is true of it: a fresh stored response
    is the committed record's, a replay is the record's under its key and nothing was committed, and
    any other answer says nothing of it was, but the one that calls the outcome unknown. *)
Theorem request_answered_truly q w a w' :
  foreign others q → mutate q w = (a, w') → answered others rt q w a w'.
Proof. intros Hf. pose proof (served_conforming _ _ _ _ _ Hs); pose proof (served_minted _ _ _ _ _ Hs). by eapply mutate_answered. Qed.

(** C35: a key has one answer on a served route: after a stored response, any later request under the same
    key commits nothing, and a stored response to it is the same one, marked replayed, where the others
    change no record and sign none as either request. *)
Theorem one_key_one_answer q w s l b f w1 q2 w2 a2 w3 :
  foreign others q → foreign others q2 → key_of q2 = key_of q →
  mutate q w = (Stored s l b f, w1) → recs (n_db w1) ⊆ recs (n_db w2) → mutate q2 w2 = (a2, w3) →
  untouched others w2 w3 ∧ ∀ s2 l2 b2 f2, a2 = Stored s2 l2 b2 f2 → s2 = s ∧ l2 = l ∧ b2 = b ∧ f2 = true.
Proof.
  intros Hf Hf2 Hk Hm Hsub Hm2. pose proof (served_conforming _ _ _ _ _ Hs); pose proof (served_minted _ _ _ _ _ Hs) as Hp.
  destruct (stored_record _ _ _ _ _ _ _ _ _ _ _ _ Hf Hp Hm) as (r & Hr & -> & -> & ->).
  eapply lookup_weaken in Hr; [|exact Hsub]. rewrite <- Hk in Hr.
  by destruct (mutate_with_record _ _ _ _ _ _ _ _ _ _ Hf2 Hp Hm2 Hr).
Qed.

(** Among any others' requests, every principal and key has one act and one idempotency record,
    of the same request and epoch, or neither, and no two acts share an identifier. *)
Theorem acts_match_records q w a w' :
  foreign others q → (∀ t d, ledger_ok d → ledger_ok (others t d)) →
  mutate q w = (a, w') → ledger_ok (n_db w) → ledger_ok (n_db w').
Proof. intros Hf Ho Hm. pose proof (served_conforming _ _ _ _ _ Hs); pose proof (served_minted _ _ _ _ _ Hs). by eapply mutate_ledger. Qed.
End Requests.

Section Retries.
Context (others : nat → Db → Db) (fresh_id : nat → string) (rt : route).
(** A request deadlocked up to three times is still answered by its transaction, run whole on the
    store of the turn that reached COMMIT; deadlocked a fourth time it is answered so, and committed
    nothing. *)
Theorem deadlocks_retried q w fs :
  (∀ k, (k < maxAttempts)%nat → n_fates w = replicate k Deadlocked ++ Delivered :: fs →
     ((run others fresh_id rt q w).1, n_db (run others fresh_id rt q w).2)
     = delivered rt q (fresh_id (n_fresh w + k)%nat) (idle others (n_turn w) (S k) (n_db w)))
  ∧ (n_fates w = replicate maxAttempts Deadlocked ++ fs →
     (run others fresh_id rt q w).1 = Err FTransient ∧ untouched others w (run others fresh_id rt q w).2).
Proof.
  split; [intros k Hk Hf; eapply run_after_deadlocks; [exact Hf|unfold maxAttempts in *; lia]|].
  by apply run_all_deadlocks.
Qed.
End Retries.

(** ** A request to cancel the committed plan *)

Definition rq_route : route := planCancellation sc_tick gv_apply "stop".
Definition rq_key : string := "cancel-aaaaaaaaa".
Definition rq_cancel (i : string) : request :=
  Request ("req_" +:+ i) "prn_1" Human "" ["approver"] "approver" "" false rq_key "" "sum" "transit/digest@v1" "".
Definition rq_digest (_ : request) (_ : Z) : digest_answer := DigestRefused (EConstraint "none").
Definition rq_server : server := Server false false "".
Definition rq_net (fates : list fate) : net := Net gv_committed 0 0 fates.
Notation rq_mutate := (mutate sc_others sc_fresh rq_digest rq_server rq_route).
Lemma rq_served : served sc_tick gv_decode gv_encode rq_server rq_route.
Proof. apply sd_governs, gv_cancel. Qed.
Lemma rq_foreign q : foreign sc_others q.
Proof. by split. Qed.

Example entry_served : served sc_tick gv_decode gv_encode (Server true true "ep_2") rv_enter.
Proof. exact (sd_entry sc_tick gv_decode gv_encode (Server true true "ep_2") _ _ _). Qed.

(** Its reply lost after COMMIT, it is read back; sent again, it is replayed. *)
Definition rq_first : reply * net := rq_mutate (rq_cancel "1") (rq_net [Deadlocked; ReplyLost true true]).
Definition rq_again : reply * net := rq_mutate (rq_cancel "2") rq_first.2.
Lemma request_answered_truly_witness :
  (∃ b, rq_first.1 = Stored 200 None b false) ∧ answered sc_others rq_route (rq_cancel "1") (rq_net [Deadlocked; ReplyLost true true]) rq_first.1 rq_first.2.
Proof.
  split; [eexists; vm_compute; reflexivity|].
  apply (request_answered_truly sc_tick gv_decode gv_encode sc_others sc_fresh rq_digest rq_server rq_route rq_served); [apply rq_foreign|].
  unfold rq_first. by destruct (rq_mutate _ _).
Defined.
Lemma one_key_one_answer_witness :
  ∃ b, rq_first.1 = Stored 200 None b false ∧ rq_again.1 = Stored 200 None b true
    ∧ untouched sc_others rq_first.2 rq_again.2.
Proof.
  destruct rq_first as [a1 w1] eqn:H1. assert (∃ b, a1 = Stored 200 None b false) as [b ->]
    by (apply (f_equal fst) in H1; simpl in H1; subst a1; eexists; vm_compute; reflexivity).
  exists b. split; [reflexivity|].
  destruct (one_key_one_answer sc_tick gv_decode gv_encode sc_others sc_fresh rq_digest rq_server rq_route rq_served
    (rq_cancel "1") (rq_net [Deadlocked; ReplyLost true true]) 200 None b false w1 (rq_cancel "2") rq_first.2 rq_again.1 rq_again.2)
    as [Hu Ha]; [apply rq_foreign|apply rq_foreign|reflexivity|exact H1|by rewrite H1| |].
  - unfold rq_again. by destruct (rq_mutate _ _).
  - rewrite H1 in Hu. split; [|exact Hu].
    assert (∃ s l b' f, rq_again.1 = Stored s l b' f) as (s & l & b' & f & Hs) by (do 4 eexists; vm_compute; reflexivity).
    destruct (Ha s l b' f Hs) as (-> & -> & -> & ->). exact Hs.
Defined.
(** A plan's creation on a store with no act yet, deadlocked twice. *)
Definition rq_creation : route :=
  planCreation sc_tick gv_decode gv_encode gv_execution (gv_input "adopt" None) gv_adopt.
Definition rq_create : request := gv_request "prn_2" "publisher" rq_key.
Definition rq_fresh : net := Net gv_start 0 0 [Deadlocked; Deadlocked; Delivered].
Definition rq_created : reply * net := mutate sc_others sc_fresh rq_digest rq_server rq_creation rq_create rq_fresh.
Lemma rq_creation_served : served sc_tick gv_decode gv_encode rq_server rq_creation.
Proof. apply sd_governs, gv_create. Qed.
Lemma acts_match_records_witness : ledger_ok (n_db rq_created.2) ∧ length (acts (book (n_db rq_created.2))) = 1%nat.
Proof.
  split; [|vm_compute; reflexivity].
  refine (acts_match_records sc_tick gv_decode gv_encode sc_others sc_fresh rq_digest rq_server rq_creation rq_creation_served
    rq_create rq_fresh rq_created.1 rq_created.2 _ _ _ _); [apply rq_foreign|done|unfold rq_created; by destruct (mutate _ _ _ _ _ _ _)|].
  split; [constructor|]. intros k. reflexivity.
Defined.
Lemma deadlocks_retried_witness :
  ((run sc_others sc_fresh rq_creation rq_create rq_fresh).1, n_db (run sc_others sc_fresh rq_creation rq_create rq_fresh).2)
  = delivered rq_creation rq_create "id2" gv_start
  ∧ ∃ x, (delivered rq_creation rq_create "id2" gv_start).1 = Ok x ∧ x.2 = true.
Proof.
  split; [|eexists; split; vm_compute; reflexivity].
  exact (proj1 (deadlocks_retried sc_others sc_fresh rq_creation rq_create rq_fresh []) 2%nat ltac:(vm_compute; lia) eq_refl).
Defined.

(** ** The gate *)

(** A mutating request passes to its transaction exactly when the caller's kind and one of its roles
    qualify (but on the identity's own route, which answers who asks), the process serves the route at
    this point of a recovery, and the headers are as they must be: one idempotency key of the shape, one
    If-Match where the route takes it, and at most one, named, expected epoch; until a recovery
    start's entry commits it serves that entry alone. *)
Theorem gate_iff sv rt h q q' :
  gate sv rt h q = Ok q' ↔
  ((∃ q1, authorize rt q = Ok q1) ∨ rt_pattern rt = identityPattern)
  ∧ (sv_pre_entry sv = true → rt_pattern rt = entryPattern)
  ∧ (sv_recovery_start sv = true → rt_normal_start_only rt = false)
  ∧ (rt_pattern rt = entryPattern → sv_recovery_start sv = true)
  ∧ ∃ k e, h_key h = [k] ∧ keyShape k = true
    ∧ (rt_if_match rt = true → ∃ v, h_if_match h = [v] ∧ v ≠ "")
    ∧ (h_expected h = [] ∧ e = q_expected q ∨ h_expected h = [e] ∧ e ≠ "")
    ∧ q' = with_headers k e (match authorize rt q with Ok q1 => q1 | Err _ => q end).
Proof.
  rewrite gate_passes, preconditions_ok. destruct (authorize rt q) as [q1|e] eqn:Ha; [|done].
  assert (He : q_expected q1 = q_expected q).
  { unfold authorize in Ha. destruct (_ && _); [done|]. destruct (find _ _); [|done]. by injection Ha as <-. }
  by rewrite He.
Qed.

(** A digest key's reference names the version it was made with, read back under any version of the
    same key, and nothing else does: no other text yields a version. *)
Theorem recorded_version_exact r key v z :
  recordedVersion r (KeyRef key v) = Some z ↔ ∃ w, r = KeyRef key w ∧ z = Z.of_N w ∧ 1 ≤ z ≤ max64.
Proof.
  split; [apply recordedVersion_only|]. intros (w & -> & -> & Hz). apply recordedVersion_ref; lia.
Qed.

(** ** The paired diff *)

(** Where a plan's target holds a redaction token, every text of the base that its diff shows is the
    token that stands for a hidden value, a whole redaction token, or a text of the target: the base's
    own values the target does not show stay hidden. *)
Theorem paired_base_shows_target base target x :
  holds_token target = true → forallb plain base = true → x ∈ docs_texts (pairDocs base target) →
  visible (docs_texts target) x.
Proof. apply pairDocs_shown. Qed.

(** The shown base is the same for any two bases of one shape whose values differ only where they
    are hidden: nothing of a hidden value reaches the diff. *)
Theorem paired_base_blind base base' target :
  docs_alike base base' target → pairDocs base target = pairDocs base' target.
Proof. apply pairDocs_alike. Qed.

(** A base with a value the target redacts at another path, and one it shows. *)
Definition rd_map (l : list (string * string)) : list node :=
  [Mapping "!!map" ((λ kv, (Scalar "!!str" kv.1, Scalar "!!str" kv.2)) <$> l)].
Definition rd_target : list node := rd_map [("token", "<redacted>"); ("name", "node")].
Definition rd_base (secret : string) : list node := rd_map [("secret", secret); ("name", "node")].
Lemma paired_base_shows_target_witness :
  docs_texts (pairDocs (rd_base "hunter2") rd_target) = [pairedToken; pairedToken; "name"; "node"]
  ∧ visible (docs_texts rd_target) "node" ∧ ¬ visible (docs_texts rd_target) "hunter2".
Proof.
  split; [vm_compute; reflexivity|]. split.
  - apply (paired_base_shows_target (rd_base "hunter2")); vm_compute; try reflexivity. set_solver.
  - intros [H|[H|H]]; [discriminate H|discriminate H|]. vm_compute in H. set_solver.
Defined.
Lemma paired_base_blind_witness : pairDocs (rd_base "hunter2") rd_target = pairDocs (rd_base "swordfish") rd_target.
Proof.
  apply paired_base_blind. split; [reflexivity|]. intros [|i] d d' Hd Hd'; [|by destruct i].
  vm_compute in Hd, Hd'. injection Hd as <-. injection Hd' as <-.
  split; [reflexivity|]. split_and!; try reflexivity; [right; vm_compute; by split|left; by split].
Defined.

(** A mapping key that is not a scalar is walked by neither pass: its scalars show as they are. *)
Definition rd_complex : list node :=
  [Mapping "!!map" [(Sequence "!!seq" [Scalar "!!str" "hunter2"], Scalar "!!str" "x")]].
Lemma complex_key_shown :
  holds_token rd_target = true ∧ "hunter2" ∈ docs_texts (pairDocs rd_complex rd_target)
  ∧ ¬ visible (docs_texts rd_target) "hunter2".
Proof.
  split; [vm_compute; reflexivity|]. split; [vm_compute; set_solver|].
  intros [H|[H|H]]; [discriminate H|discriminate H|]. vm_compute in H. set_solver.
Qed.

(** ** The deployment's keys and tokens *)

(** A configuration that passes names four distinct Transit keys, each one literal URL segment that
    leaves its reference room, and gives each identity a token file of its own: clean absolute paths, no
    two the same, all but the report's required. *)
Theorem credentials_distinct k f :
  provider_keys_check k = None → provider_files_check f = None →
  NoDup [pk_baseline k; pk_staging k; pk_digest k; pk_artifact k]
  ∧ Forall (λ n, keySegment n = true) [pk_baseline k; pk_staging k; pk_digest k; pk_artifact k]
  ∧ NoDup (filter (λ p, p ≠ "") [tf_ingestion f; tf_compiler f; tf_metadata f; tf_executor f; tf_report f])
  ∧ Forall file_ok [tf_ingestion f; tf_compiler f; tf_metadata f; tf_executor f]
  ∧ (tf_report f ≠ "" → file_ok (tf_report f)).
Proof.
  intros Hk Hf. apply keys_check_ok in Hk as [Hk1 Hk2]; [|constructor].
  apply files_check_ok in Hf as [Hf1 Hf2]; [|constructor]. simpl in *.
  split; [exact Hk1|]. split; [exact Hk2|]. split; [exact Hf1|].
  unfold file_fields in Hf2. rewrite !Forall_cons in Hf2. simpl in Hf2. destruct Hf2 as (H1 & H2 & H3 & H4 & H5 & _).
  repeat case_decide; try done; (split; [rewrite !Forall_cons, Forall_nil; by split_and!|done]).
Qed.
Lemma credentials_distinct_witness :
  NoDup ["b"; "s"; "d"; "a"] ∧ clean_abs "/run/compiler" = "/run/compiler".
Proof.
  destruct (credentials_distinct (ProviderKeys "b" "s" "d" "a")
    (TokenFiles "/run/ingestion" "/run/compiler" "/run/metadata" "/run/executor" "") ltac:(vm_compute; reflexivity) ltac:(vm_compute; reflexivity))
    as (H & _ & _ & Hf & _). split; [exact H|]. rewrite !Forall_cons in Hf. apply Hf.
Defined.
