(* ===== verification/RecoveryProps.v ===== *)
(** * The properties of recovery mode: what an entry does and fences, the order a scope is opened in, and
    what is executed before the exit. *)

From stdpp Require Import relations sorting.
From S2P Require Import Prelude Store World Evidence Commit Attempt Outcome Settle Lifecycle System Scenario.
From S2P Require Import Request Governance Authority Adoption Governed GovernedScenario.
From S2P Require Import Recovery RecoveryGate RecoverySpec RecoveryActs Recovered RecoveryScenario.

Section Properties.
Context (tick : Z → Z) (decode : string → option (list IngestPath.node)) (encode : list IngestPath.node → option string).
Notation rstep := (rstep tick decode encode).

(** C9: an entry takes effect only for a process that started in the current epoch, under an unrevoked
    identity; it mints an epoch there never was, in recovery mode; takes over every active configuration
    to unresolved at its next generation, fails every queued or running publish job and every running
    ingest job of a live claim, keeps every other operation, abandons every claim, closes every scope,
    and changes no attempt, answer, accounting or classification and nothing of what is authorized. *)
Theorem entry_takes_over a start i ep q act d q' r d' :
  recovery_inv d → attempt_tx (recoveryEntry tick a start i ep) q act d = Ok ((q', r, true), d') →
  epoch d = start ∧ principals d !! q_principal q = Some false
  ∧ epoch d' = ep ∧ epochs (rlog d) !! ep = None ∧ recovery d' = true
  ∧ (∀ j, ops d' !! j = (λ o, if ended_by_entry d j o then ended_row a ep o else o) <$> ops d !! j)
  ∧ claims (rlog d') = const false <$> claims (rlog d)
  ∧ scopes_of d' = const unaccounted_scope <$> scopes_of d
  ∧ attempts d' = attempts d ∧ responses d' = responses d ∧ accountings d' = accountings d
  ∧ classifications d' = classifications d ∧ authority_of d' = authority_of d.
Proof.
  intros Hi H. destruct (entry_request _ _ _ _ _ _ _ _ _ _ _ Hi H) as (Hst & _ & Hp & q1 & d2 & b & _ & -> & [Hf _ Hg _ Hcl Hop Hno Hc Ha _]).
  injection Hc as _ Hat Hre Hk Hcs. injection Hg as He Hr _ Hs _ _.
  split_and!; try done. intros j. simpl. destruct (ops d !! j) as [o|] eqn:Ho; simpl; [by apply Hop|by apply Hno].
Qed.

(** C10: once an entry took effect, a process of any epoch there was commits, adopts, attempts, records,
    accounts, settles, takes over and decides nothing, whatever happens after. *)
Theorem earlier_epochs_fenced a start i ep q act d q' r d1 d2 b :
  recovery_inv d → attempt_tx (recoveryEntry tick a start i ep) q act d = Ok ((q', r, true), d1) → rtc rstep d1 d2 →
  opts b = production → is_Some (epochs (rlog d) !! owner_epoch b) → fenced tick b d2.
Proof.
  intros Hi H Hs Hp Hb. apply other_epoch_fenced; [done|]. intros He.
  assert (Hi1 : recovery_inv d1).
  { refine (rstep_inv tick decode encode d d1 _ Hi). exact (rs_request _ _ _ _ _ _ _ _ _ _ (rc_enter tick a start i ep) H). }
  destruct (rsteps_inv _ _ _ _ _ Hs Hi1) as [_ [Hsub Hep]%rmoves_passed].
  destruct (entry_request _ _ _ _ _ _ _ _ _ _ _ Hi H) as (_ & _ & _ & q1 & d3 & bk & _ & -> & [Hf _ Hg _ _ _ _ _ _ _]).
  change (gate_of (set_book bk d3)) with (gate_of d3) in *. rewrite Hg in *. simpl in *.
  rewrite <- elem_of_dom in Hb. rewrite He in Hb. destruct Hep as [Hep|Hep].
  - rewrite Hep in Hb. by apply elem_of_dom in Hb as [? ?]; congruence.
  - apply Hep. set_solver.
Qed.

(** C11: in any store reached, a scope got where it is along the steps recovery mode allows, closed,
    accounted, marked, released and back to normal, each in turn; out of recovery mode every scope is
    normal, and in it a scope is past its closing just when the epoch has its accounting, and released
    just when the epoch has its release. *)
Theorem scopes_in_order d0 d :
  recovery_inv d0 → rtc rstep d0 d →
  (∀ m s0, scopes_of d0 !! m = Some s0 → ∃ s, scopes_of d !! m = Some s ∧ rtc scope_step s0 s)
  ∧ ∀ m s, scopes_of d !! m = Some s → if recovery d
      then scope_fits (has (scope_accountings (rlog d)) (m, epoch d)) (has (scope_releases (rlog d)) (m, epoch d)) s
      else s = "normal".
Proof.
  intros Hi H. destruct (rsteps_inv _ _ _ _ _ H Hi) as [Hi2 Hg]. split.
  - intros m s0 Hm. exact (rmoves_scope _ _ _ _ Hg Hm).
  - intros m s Hm. destruct (ri_gate _ Hi2) as [_ _ _ Hn Hf]. simpl in *. destruct (recovery d); [by apply Hf|by eapply Hn].
Qed.

(** C12: while recovery mode is in effect nothing is committed, adopted or attempted on a machine unless,
    in this epoch, its scope was accounted and released, and every attempt on it of an earlier epoch, the
    ones the restore brought back included, is accounted for. *)
Theorem executed_when_released d0 d b m :
  recovery_inv d0 → rtc rstep d0 d → opts b = production → recovery d = true → executes tick b m d →
  scopes_of d !! m = Some "released"
  ∧ is_Some (scope_accountings (rlog d) !! (m, epoch d)) ∧ is_Some (scope_releases (rlog d) !! (m, epoch d))
  ∧ ∀ t, t ∈ attempts d → at_machine t = m → at_epoch t ≠ epoch d → accounted_for (at_id t) d = true.
Proof.
  intros Hi H Hp Hr Hx. destruct (rsteps_inv _ _ _ _ _ H Hi) as [[_ Hg Ho] _].
  destruct (executes_scope _ _ _ _ Hp Hx) as (s & Hm & [->|[_ Hf]]); [|congruence].
  destruct (gt_scopes _ Hg Hr _ _ Hm) as [(? & _)|[(Hs & _)|(_ & Ha & Hrel)]]; [done|unfold open_scopes in Hs; set_solver|].
  simpl in *. unfold has in *. rewrite bool_decide_eq_true in Ha, Hrel. split_and!; [done..|].
  intros t Ht <- He. destruct (Ho t Ht) as (s & Hs & [->|[?|?]]); [by rewrite Hm in Hs|done|done].
Qed.
End Properties.

(** ** Witnesses *)

Lemma rv_enter_runs : ∃ q r, attempt_tx rv_enter (rv_admin "enter") "act_enter" rv_attempted = Ok ((q, r, true), rv_entered).
Proof.
  assert (H : match attempt_tx rv_enter (rv_admin "enter") "act_enter" rv_attempted with Ok ((_, _, true), _) => True | _ => False end)
    by (vm_compute; exact I).
  unfold rv_entered, gv_attempt, sc_run. change ("act_" +:+ q_key (rv_admin "enter")) with "act_enter".
  destruct (attempt_tx _ _ _ _) as [[[[q r] []] d]|e]; try done. by exists q, r.
Qed.
Lemma entry_takes_over_witness :
  ops rv_entered !! rv_op = ended_row (rv_api "ep_1") "ep_2" <$> ops rv_attempted !! rv_op
  ∧ (λ i, op_st <$> ops rv_entered !! i) <$> [rv_op; "op_2"; "op_3"; "op_4"]
    = [Some Unresolved; Some Failed; Some Failed; Some Running].
Proof.
  split; [|vm_compute; reflexivity]. destruct rv_enter_runs as (q & r & H).
  destruct (entry_takes_over sc_tick _ _ _ _ _ _ _ _ _ _ (rv_reached_inv _ rv_attempted_reached) H) as (_ & _ & _ & _ & _ & Ho & _).
  rewrite Ho.
  assert (Hx : ∃ o, ops rv_attempted !! rv_op = Some o ∧ ended_by_entry rv_attempted rv_op o = true)
    by (eexists; split; vm_compute; reflexivity).
  destruct Hx as (o & Hx & He). rewrite Hx. simpl. by rewrite He.
Defined.
Lemma earlier_epochs_fenced_witness :
  fenced sc_tick sc_api rv_evident ∧ (∃ r, commitTx sc_tick rv_new rv_again "op_9" rv_evident = Ok r).
Proof.
  split; [|eexists; vm_compute; reflexivity]. destruct rv_enter_runs as (q & r & H).
  refine (earlier_epochs_fenced sc_tick gv_decode gv_encode _ _ _ _ _ _ _ _ _ _ _ sc_api
    (rv_reached_inv _ rv_attempted_reached) H rv_evident_after eq_refl _).
  eexists. vm_compute. reflexivity.
Defined.
Lemma scopes_in_order_witness :
  rtc scope_step "normal" "released"
  ∧ scope_fits (has (scope_accountings (rlog rv_released)) (rv_m, "ep_2")) (has (scope_releases (rlog rv_released)) (rv_m, "ep_2")) "released".
Proof.
  destruct (scopes_in_order sc_tick gv_decode gv_encode rv_start rv_released rv_start_inv (rv_after_reached _ rv_released_after))
    as [Hs Hf]. split.
  - destruct (Hs rv_m "normal") as (s & Hm & H); [vm_compute; reflexivity|]. vm_compute in Hm. by injection Hm as <-.
  - exact (Hf rv_m "released" ltac:(vm_compute; reflexivity)).
Defined.
Lemma executed_when_released_witness :
  is_Some (scope_accountings (rlog rv_evident) !! (rv_m, "ep_2"))
  ∧ ∃ t, t ∈ attempts rv_evident ∧ at_epoch t = "ep_1" ∧ accounted_for (at_id t) rv_evident = true.
Proof.
  assert (Hx : executes sc_tick rv_new rv_m rv_evident).
  { assert (∃ r d' p, plans rv_evident !! rv_again = Some p ∧ p_machine p = rv_m
      ∧ commitTx sc_tick rv_new rv_again "op_9" rv_evident = Ok (r, d')) as (r & d' & p & Hp & Hm & H)
      by (do 3 eexists; split_and!; vm_compute; reflexivity). by eapply ex_commit. }
  destruct (executed_when_released sc_tick gv_decode gv_encode _ _ rv_new rv_m rv_start_inv
    (rv_after_reached _ rv_evident_after) eq_refl ltac:(vm_compute; reflexivity) Hx) as (_ & Ha & _ & Ht).
  split; [exact Ha|].
  assert (∃ t, attempts rv_evident = [t] ∧ at_machine t = rv_m ∧ at_epoch t = "ep_1") as (t & He & Hm & Hep)
    by (eexists; split_and!; vm_compute; reflexivity).
  exists t. split_and!; [rewrite He; by apply list_elem_of_singleton|done|].
  apply Ht; [rewrite He; by apply list_elem_of_singleton|done|]. rewrite Hep. vm_compute. discriminate.
Defined.
