(* ===== verification/Times.v ===== *)
(** * Go's civil times: the parsing and formatting of [time] that the classification uses, and the
    exact reading of a Date header ([internal/classify/classify.go]).

    An instant is a number of nanoseconds since 1970-01-01T00:00:00Z, in UTC; Go's zero time is year
    1's start.  A layout is its list of chunks. *)

From S2P Require Import Prelude.

Definition zero_time : Z := -62135596800 * second.
(** [time.Time.IsZero] *)
Definition IsZero (t : Z) : bool := t =? zero_time.
(** [t.Truncate(time.Second)] *)
Definition truncate_second (t : Z) : Z := t - t mod second.

(** ** The calendar *)

Definition leap (y : Z) : bool := (y mod 4 =? 0) && (negb (y mod 100 =? 0) || (y mod 400 =? 0)).
Definition days_in (m y : Z) : Z :=
  if m =? 2 then (if leap y then 29 else 28)
  else if (m =? 4) || (m =? 6) || (m =? 9) || (m =? 11) then 30 else 31.
(** A year counted from March, its 400 years' era, and the day of the era. *)
Definition day_of_year (m d : Z) : Z := (153 * (m + (if 2 <? m then -3 else 9)) + 2) / 5 + d - 1.
Definition day_of_era (yoe doy : Z) : Z := yoe * 365 + yoe / 4 - yoe / 100 + doy.
Definition days_of (y m d : Z) : Z :=
  let y := if m <=? 2 then y - 1 else y in
  y / 400 * 146097 + day_of_era (y mod 400) (day_of_year m d) - 719468.
Definition year_of_era (doe : Z) : Z := (doe - doe / 1460 + doe / 36524 - doe / 146096) / 365.
(** The year, month and day of a day of an era. *)
Definition civil_of_era (doe : Z) : Z * Z * Z :=
  let yoe := year_of_era doe in
  let doy := doe - (365 * yoe + yoe / 4 - yoe / 100) in
  let mp := (5 * doy + 2) / 153 in
  let m := if mp <? 10 then mp + 3 else mp - 9 in
  (if m <=? 2 then yoe + 1 else yoe, m, doy - (153 * mp + 2) / 5 + 1).
Definition civil (days : Z) : Z * Z * Z :=
  let z := days + 719468 in
  let '(y, m, d) := civil_of_era (z mod 146097) in (y + z / 146097 * 400, m, d).
Definition weekday (days : Z) : Z := (days + 4) mod 7.

Record fields := Fields { f_year : Z; f_month : Z; f_day : Z; f_hour : Z; f_min : Z; f_sec : Z }.
Definition valid_fields (f : fields) : bool :=
  (1 <=? f_month f) && (f_month f <=? 12) && (1 <=? f_day f) && (f_day f <=? days_in (f_month f) (f_year f))
  && (0 <=? f_hour f) && (f_hour f <? 24) && (0 <=? f_min f) && (f_min f <? 60) && (0 <=? f_sec f) && (f_sec f <? 60).
(** [time.Date] in UTC, in seconds. *)
Definition seconds_of (f : fields) : Z :=
  days_of (f_year f) (f_month f) (f_day f) * 86400 + f_hour f * 3600 + f_min f * 60 + f_sec f.
Definition fields_of (s : Z) : fields :=
  let '(y, m, d) := civil (s / 86400) in
  let r := s mod 86400 in Fields y m d (r / 3600) (r / 60 mod 60) (r mod 60).

(** ** Digits *)

Definition digit (c : ascii) : option Z :=
  let n := Z.of_N (N_of_ascii c) in if (48 <=? n) && (n <=? 57) then Some (n - 48) else None.
Definition digit_char (n : Z) : ascii := ascii_of_N (Z.to_N (48 + n mod 10)).
Definition digits2 (n : Z) : string := String (digit_char (n / 10)) (String (digit_char n) "").
Definition digits4 (n : Z) : string := digits2 (n / 100) +:+ digits2 n.
(** Two digits and the rest. *)
Definition take2 (s : string) : option (Z * string) :=
  match s with
  | String a (String b r) => x ← digit a; y ← digit b; Some (10 * x + y, r)
  | _ => None
  end.
Definition take4 (s : string) : option (Z * string) :=
  '(x, r) ← take2 s; '(y, r) ← take2 r; Some (100 * x + y, r).
(** A literal and the rest. *)
Fixpoint take_lit (p s : string) : option string :=
  match p, s with
  | EmptyString, _ => Some s
  | String c p, String d s => if bool_decide (c = d) then take_lit p s else None
  | _, EmptyString => None
  end.

(** ** Layouts *)

Definition short_months : list string :=
  ["Jan"; "Feb"; "Mar"; "Apr"; "May"; "Jun"; "Jul"; "Aug"; "Sep"; "Oct"; "Nov"; "Dec"].
Definition long_days : list string := ["Sunday"; "Monday"; "Tuesday"; "Wednesday"; "Thursday"; "Friday"; "Saturday"].
Definition short_days : list string := ["Sun"; "Mon"; "Tue"; "Wed"; "Thu"; "Fri"; "Sat"].

Inductive chunk :=
| CLit (s : string) | CMon | CMonday | CJan | C02 | C_2 | C2006 | C06 | C15 | C04 | C05.
Definition nth_name (l : list string) (n : Z) : string := default "" (l !! Z.to_nat n).
(** [Time.Format], a chunk at a time. *)
Definition format_chunk (s : Z) (c : chunk) : string :=
  let f := fields_of s in
  match c with
  | CLit x => x
  | CMon => nth_name short_days (weekday (s / 86400))
  | CMonday => nth_name long_days (weekday (s / 86400))
  | CJan => nth_name short_months (f_month f - 1)
  | C02 => digits2 (f_day f)
  | C_2 => if f_day f <? 10 then String " " (String (digit_char (f_day f)) "") else digits2 (f_day f)
  | C2006 => digits4 (f_year f)
  | C06 => digits2 (f_year f mod 100)
  | C15 => digits2 (f_hour f)
  | C04 => digits2 (f_min f)
  | C05 => digits2 (f_sec f)
  end.
Definition format (l : list chunk) (s : Z) : string := foldr String.append "" (format_chunk s <$> l).

(** The first name that starts the text, its index and the rest. *)
Fixpoint take_name (i : Z) (names : list string) (s : string) : option (Z * string) :=
  match names with
  | [] => None
  | n :: l => match take_lit n s with Some r => Some (i, r) | None => take_name (i + 1) l s end
  end.
(** [time.Parse], a chunk at a time; the weekday is read and not used.  A year's two digits are of
    1969 to 2068. *)
Definition parse_chunk (c : chunk) (s : string) (f : fields) : option (fields * string) :=
  let '(Fields y mo d h mi se) := f in
  match c with
  | CLit x => r ← take_lit x s; Some (f, r)
  | CMon => '(_, r) ← take_name 0 short_days s; Some (f, r)
  | CMonday => '(_, r) ← take_name 0 long_days s; Some (f, r)
  | CJan => '(n, r) ← take_name 1 short_months s; Some (Fields y n d h mi se, r)
  | C02 => '(n, r) ← take2 s; Some (Fields y mo n h mi se, r)
  | C_2 => match s with
           | String " " (String b r) => n ← digit b; Some (Fields y mo n h mi se, r)
           | _ => '(n, r) ← take2 s; Some (Fields y mo n h mi se, r)
           end
  | C2006 => '(n, r) ← take4 s; Some (Fields n mo d h mi se, r)
  | C06 => '(n, r) ← take2 s; Some (Fields (if 69 <=? n then 1900 + n else 2000 + n) mo d h mi se, r)
  | C15 => '(n, r) ← take2 s; Some (Fields y mo d n mi se, r)
  | C04 => '(n, r) ← take2 s; Some (Fields y mo d h n se, r)
  | C05 => '(n, r) ← take2 s; Some (Fields y mo d h mi n, r)
  end.
Fixpoint parse_chunks (l : list chunk) (s : string) (f : fields) : option fields :=
  match l with
  | [] => if bool_decide (s = "") then Some f else None
  | c :: l => '(f, r) ← parse_chunk c s f; parse_chunks l r f
  end.
(** The instant, in seconds. *)
Definition parse (l : list chunk) (s : string) : option Z :=
  f ← parse_chunks l s (Fields 0 1 1 0 0 0); if valid_fields f then Some (seconds_of f) else None.

(** ** A Date header ([ParseDate]) *)

Definition clock_chunks : list chunk := [C15; CLit ":"; C04; CLit ":"; C05].
Definition dateLayouts : list (list chunk) :=
  [ [CMon; CLit ", "; C02; CLit " "; CJan; CLit " "; C2006; CLit " "] ++ clock_chunks ++ [CLit " GMT"];
    [CMonday; CLit ", "; C02; CLit "-"; CJan; CLit "-"; C06; CLit " "] ++ clock_chunks ++ [CLit " GMT"];
    [CMon; CLit " "; CJan; CLit " "; C_2; CLit " "] ++ clock_chunks ++ [CLit " "; C2006];
    [CMon; CLit " "; CJan; CLit " "; C02; CLit " "] ++ clock_chunks ++ [CLit " "; C2006] ].
(** The text must be what its form writes for the time it names. *)
Definition reads_exactly (s : string) (l : list chunk) : option Z :=
  t ← parse l s; if bool_decide (format l t = s) then Some t else None.
Definition ParseDate (s : string) : option Z := (λ t, t * second) <$> head (omap (reads_exactly s) dateLayouts).

Example http_date : ParseDate "Sun, 06 Nov 1994 08:49:37 GMT" = Some (784111777 * second).
Proof. vm_compute. reflexivity. Qed.
Example rfc850_date : ParseDate "Sunday, 06-Nov-94 08:49:37 GMT" = Some (784111777 * second).
Proof. vm_compute. reflexivity. Qed.
Example asctime_date : ParseDate "Sun Nov  6 08:49:37 1994" = Some (784111777 * second).
Proof. vm_compute. reflexivity. Qed.
Example wrong_weekday : ParseDate "Mon, 06 Nov 1994 08:49:37 GMT" = None.
Proof. vm_compute. reflexivity. Qed.

(** ** [time.Parse(time.RFC3339Nano, s)] *)

(** An hour may have one digit. *)
Definition take_hour (s : string) : option (Z * string) :=
  match s with
  | String a r => x ← digit a;
      match r with
      | String b r' => match digit b with Some y => Some (10 * x + y, r') | None => Some (x, r) end
      | EmptyString => Some (x, r)
      end
  | EmptyString => None
  end.
(** A fraction's digits, of which the first nine count. *)
Fixpoint take_fraction (unit_ : Z) (acc : Z) (s : string) : Z * string :=
  match s with
  | String a r => match digit a with Some x => take_fraction (unit_ / 10) (acc + x * unit_) r | None => (acc, s) end
  | EmptyString => (acc, s)
  end.
Definition fraction (s : string) : Z * string :=
  match s with
  | String c ((String a _) as r) =>
      if (bool_decide (c = "."%char) || bool_decide (c = ","%char)) && bool_decide (is_Some (digit a))
      then take_fraction 100000000 0 r else (0, s)
  | _ => (0, s)
  end.
(** The zone, in seconds east; [Z07:00]. *)
Definition zone (s : string) : option Z :=
  match s with
  | String "Z" EmptyString => Some 0
  | String sign r =>
      '(h, r) ← take2 r; r ← take_lit ":" r; '(m, r) ← take2 r;
      if negb (bool_decide (r = "")) || (24 <? h) || (60 <? m) then None
      else if bool_decide (sign = "+"%char) then Some ((h * 60 + m) * 60)
      else if bool_decide (sign = "-"%char) then Some (- ((h * 60 + m) * 60)) else None
  | EmptyString => None
  end.
Definition ParseRFC3339 (s : string) : option Z :=
  '(y, r) ← take4 s; r ← take_lit "-" r; '(mo, r) ← take2 r; r ← take_lit "-" r; '(d, r) ← take2 r;
  r ← take_lit "T" r; '(h, r) ← take_hour r; r ← take_lit ":" r; '(mi, r) ← take2 r; r ← take_lit ":" r; '(se, r) ← take2 r;
  let '(ns, r) := fraction r in
  z ← zone r;
  let f := Fields y mo d h mi se in
  if valid_fields f then Some ((seconds_of f - z) * second + ns) else None.
Example rfc3339_nanos : ParseRFC3339 "2024-02-29T23:59:59.123456789Z" = Some (1709251199123456789).
Proof. vm_compute. reflexivity. Qed.
Example rfc3339_offset : ParseRFC3339 "2024-03-01T01:29:59+01:30" = Some (1709251199 * second).
Proof. vm_compute. reflexivity. Qed.
Example rfc3339_day : ParseRFC3339 "2023-02-29T00:00:00Z" = None.
Proof. vm_compute. reflexivity. Qed.
