(* ===== verification/TimesSpec.v ===== *)
(** * The calendar's two directions, and that a Date header is read exactly when a layout writes it. *)

From S2P Require Import Prelude Times.

(** ** The calendar *)

Ltac div_lia := Z.to_euclidean_division_equations; lia.

(** An era's day is of the year [year_of_era] tells, at most its 366th. *)
Definition year_start (y : Z) : Z := 365 * y + y / 4 - y / 100.
Lemma year_of_era_ok doe : 0 ≤ doe < 146097 →
  let y := year_of_era doe in 0 ≤ y < 400 ∧ year_start y ≤ doe ∧ (doe < year_start (y + 1) ∨ doe = 146096 ∧ y = 399).
Proof.
  intros H y. unfold y, year_of_era, year_start. split; [div_lia|]. split; [div_lia|].
  destruct (decide (doe = 146096)) as [->|]; [by right|left; div_lia].
Qed.
Lemma leap_true y : leap y = true ↔ y mod 4 = 0 ∧ (y mod 100 ≠ 0 ∨ y mod 400 = 0).
Proof. unfold leap. rewrite andb_true_iff, orb_true_iff, negb_true_iff, Z.eqb_neq, !Z.eqb_eq. done. Qed.
Lemma days_in_le m y d : 1 ≤ m ≤ 12 → d ≤ days_in m y ↔
  (m = 2 → d ≤ 28 ∨ d = 29 ∧ leap y = true) ∧ (m = 4 ∨ m = 6 ∨ m = 9 ∨ m = 11 → d ≤ 30) ∧ d ≤ 31.
Proof.
  intros Hm. unfold days_in. destruct (Z.eqb_spec m 2); [destruct (leap y); lia|].
  destruct ((m =? 4) || (m =? 6) || (m =? 9) || (m =? 11)) eqn:H; rewrite ?orb_true_iff, ?orb_false_iff, ?Z.eqb_eq, ?Z.eqb_neq in H; lia.
Qed.
Lemma civil_of_era_ok doe : 0 ≤ doe < 146097 → let '(y, m, d) := civil_of_era doe in
  days_of y m d + 719468 = doe ∧ 1 ≤ m ≤ 12 ∧ 1 ≤ d ≤ days_in m y.
Proof.
  intros H. pose proof (year_of_era_ok doe H) as (Hy & Hs & He). unfold civil_of_era. set (y := year_of_era doe) in *. clearbody y.
  fold (year_start y). set (doy := doe - year_start y).
  assert (Hdoy : 0 ≤ doy ≤ 365) by (unfold doy, year_start in *; div_lia).
  assert (Hleap : doy = 365 → leap (y + 1) = true).
  { intros H365. apply leap_true. unfold doy, year_start in *. destruct He as [He|[-> ->]]; [div_lia|div_lia]. }
  assert (Hd0 : doe = year_start y + doy) by (unfold doy; lia). clearbody doy.
  set (mp := (5 * doy + 2) / 153).
  assert (Hmp : 0 ≤ mp ≤ 11) by (unfold mp; div_lia).
  set (m := if mp <? 10 then mp + 3 else mp - 9). set (d := doy - (153 * mp + 2) / 5 + 1).
  assert (Hm : 1 ≤ m ≤ 12 ∧ (m <=? 2) = negb (mp <? 10) ∧ m + (if 2 <? m then -3 else 9) = mp).
  { unfold m. destruct (mp <? 10) eqn:?; [destruct (mp + 3 <=? 2) eqn:?, (2 <? mp + 3) eqn:?|destruct (mp - 9 <=? 2) eqn:?, (2 <? mp - 9) eqn:?];
      simpl; split_and!; lia || done. }
  destruct Hm as (Hm & Hm2 & Hm3). clearbody m. rewrite Hm2. split; [|split; [done|]].
  - unfold days_of, day_of_year. rewrite Hm2, Hm3.
    replace (if negb (mp <? 10) then (if negb (mp <? 10) then y + 1 else y) - 1 else if negb (mp <? 10) then y + 1 else y) with y by (destruct (mp <? 10); simpl; lia).
    rewrite (Z.div_small y 400), (Z.mod_small y 400) by lia. rewrite Hd0. unfold day_of_era, d, year_start. lia.
  - split; [unfold d, mp; div_lia|]. apply days_in_le; [done|].
    assert (Hmm : m = if mp <? 10 then mp + 3 else mp - 9) by (destruct (Z.ltb_spec 2 m), (Z.ltb_spec mp 10); lia).
    destruct (Z.ltb_spec mp 10).
    + simpl. split; [lia|]. unfold d. subst mp. split; intros; div_lia.
    + simpl. split; [|split; [lia|]]. intros H2. assert (Hmp11 : mp = 11) by lia. unfold d. rewrite Hmp11.
      destruct (decide (doy = 365)) as [H365|]; [right; split; [rewrite H365; reflexivity|by apply Hleap]|left]. change ((153 * 11 + 2) / 5) with 337. lia.
      unfold d, mp. div_lia.
Qed.

Lemma leap_era y k : leap (y + k * 400) = leap y.
Proof.
  unfold leap. replace (y + k * 400) with (y + (k * 100) * 4) at 1 by lia. replace (y + k * 400) with (y + (k * 4) * 100) at 1 by lia.
  by rewrite !Z.mod_add.
Qed.
Lemma days_in_era m y k : days_in m (y + k * 400) = days_in m y.
Proof. unfold days_in. by rewrite leap_era. Qed.
Lemma days_of_era y m d k : days_of (y + k * 400) m d = days_of y m d + k * 146097.
Proof.
  unfold days_of. replace (if m <=? 2 then y + k * 400 - 1 else y + k * 400) with ((if m <=? 2 then y - 1 else y) + k * 400) by (destruct (m <=? 2); lia).
  set (z := if m <=? 2 then _ else _). rewrite Z.div_add, Z.mod_add by lia. lia.
Qed.
(** The day of a day's year, month and day is the day. *)
Lemma days_civil days : let '(y, m, d) := civil days in
  days_of y m d = days ∧ 1 ≤ m ≤ 12 ∧ 1 ≤ d ≤ days_in m y.
Proof.
  unfold civil. set (z := days + 719468). pose proof (civil_of_era_ok (z mod 146097) (Z.mod_pos_bound z 146097 eq_refl)) as H.
  destruct (civil_of_era (z mod 146097)) as [[y m] d]. destruct H as (? & ? & ?).
  rewrite days_of_era, days_in_era. pose proof (Z.div_mod z 146097). unfold z in *. split_and!; lia.
Qed.
(** The year, month and day of a date's day are the date. *)
Lemma civil_days y m d : 1 ≤ m ≤ 12 → 1 ≤ d ≤ days_in m y → civil (days_of y m d) = (y, m, d).
Proof.
  intros Hm [Hd1 Hd2]. apply days_in_le in Hd2 as (Hfeb & H30 & H31); [|done]. unfold civil, days_of, day_of_year.
  set (Y := if m <=? 2 then y - 1 else y). set (mp := m + (if 2 <? m then -3 else 9)).
  assert (Hmp : 0 ≤ mp ≤ 11 ∧ m = (if mp <? 10 then mp + 3 else mp - 9) ∧ (m <=? 2) = negb (mp <? 10)).
  { unfold mp. destruct (2 <? m) eqn:?; [destruct (m + -3 <? 10) eqn:?|destruct (m + 9 <? 10) eqn:?]; destruct (m <=? 2) eqn:?; simpl; split_and!; lia || done. }
  destruct Hmp as (Hmp & Hmm & Hm2). set (doy := (153 * mp + 2) / 5 + d - 1).
  assert (Hdoy : 0 ≤ doy ≤ 365 ∧ (doy = 365 → mp = 11 ∧ d = 29)).
  { unfold doy. destruct (decide (mp = 11)) as [E|E]; [rewrite E in *; simpl in Hmm; assert (d ≤ 29) by (destruct Hfeb; lia); div_lia|div_lia]. }
  assert (Hleap : doy = 365 → leap (Y + 1) = true).
  { intros [E1 E2]%Hdoy. rewrite E1 in Hmm. simpl in Hmm. unfold Y. rewrite Hmm. simpl.
    replace (y - 1 + 1) with y by lia. by destruct (Hfeb ltac:(lia)) as [?|[_ ?]]; [lia|]. }
  set (yoe := Y mod 400). set (era := Y / 400).
  assert (Hyoe : 0 ≤ yoe < 400) by (unfold yoe; div_lia).
  assert (Hleap' : doy = 365 → leap (yoe + 1) = true).
  { intros H%Hleap. rewrite <- (leap_era _ era). replace (yoe + 1 + era * 400) with (Y + 1) by (unfold yoe, era; div_lia). done. }
  set (doe := day_of_era yoe doy).
  assert (Hdoe : 0 ≤ doe < 146097).
  { unfold doe, day_of_era. destruct (decide (doy = 365)) as [E|E]; [|div_lia].
    specialize (Hleap' E). apply leap_true in Hleap'. div_lia. }
  replace (era * 146097 + doe - 719468 + 719468) with (doe + era * 146097) by lia.
  rewrite Z.mod_add, Z.div_add, (Z.mod_small doe), (Z.div_small doe) by lia. unfold civil_of_era.
  assert (Hye : year_of_era doe = yoe).
  { unfold doe, day_of_era, year_of_era. destruct (decide (doy = 365)) as [E|E]; [|clear -E Hdoy Hyoe; div_lia].
    specialize (Hleap' E). apply leap_true in Hleap'. clear -E Hleap' Hyoe. div_lia. }
  rewrite Hye. fold (year_start yoe).
  replace (doe - year_start yoe) with doy by (unfold doe, day_of_era, year_start; lia).
  assert (Hmd : (5 * doy + 2) / 153 = mp).
  { unfold doy. destruct (decide (mp = 11)) as [E|E]; [rewrite E in *; simpl in Hmm; assert (d ≤ 29) by (destruct Hfeb; lia); div_lia|].
    assert (Hlim : d ≤ 31 ∧ (mp = 1 ∨ mp = 3 ∨ mp = 6 ∨ mp = 8 → d ≤ 30)) by (destruct (mp <? 10) eqn:?; lia).
    assert (Hall : mp = 0 ∨ mp = 1 ∨ mp = 2 ∨ mp = 3 ∨ mp = 4 ∨ mp = 5 ∨ mp = 6 ∨ mp = 7 ∨ mp = 8 ∨ mp = 9 ∨ mp = 10) by lia.
    destruct_or! Hall; rewrite Hall in *; div_lia. }
  rewrite Hmd. f_equal; [f_equal|].
  - rewrite <- Hmm, Hm2. unfold yoe, era, Y. rewrite Hm2. destruct (mp <? 10); simpl; div_lia.
  - by rewrite <- Hmm.
  - unfold doy. lia.
Qed.

(** ** Fields and seconds *)

Lemma valid_true f : valid_fields f = true ↔ 1 ≤ f_month f ≤ 12 ∧ 1 ≤ f_day f ≤ days_in (f_month f) (f_year f)
  ∧ 0 ≤ f_hour f < 24 ∧ 0 ≤ f_min f < 60 ∧ 0 ≤ f_sec f < 60.
Proof. unfold valid_fields. rewrite !andb_true_iff, !Z.leb_le, !Z.ltb_lt. lia. Qed.
Lemma seconds_fields s : seconds_of (fields_of s) = s ∧ valid_fields (fields_of s) = true.
Proof.
  unfold fields_of. pose proof (days_civil (s / 86400)) as H. destruct (civil (s / 86400)) as [[y m] d]. destruct H as (Hd & Hm & Hd').
  rewrite valid_true. unfold seconds_of. simpl. rewrite Hd. split; [div_lia|]. split_and!; try div_lia.
Qed.
Lemma fields_seconds f : valid_fields f = true → fields_of (seconds_of f) = f.
Proof.
  rewrite valid_true. intros (Hm & Hd & Hh & Hmi & Hs). unfold fields_of, seconds_of. destruct f as [y m d h mi s]. cbn [f_year f_month f_day f_hour f_min f_sec] in *.
  replace ((days_of y m d * 86400 + h * 3600 + mi * 60 + s) / 86400) with (days_of y m d) by div_lia.
  rewrite civil_days by done.
  replace ((days_of y m d * 86400 + h * 3600 + mi * 60 + s) mod 86400) with (h * 3600 + mi * 60 + s) by div_lia.
  f_equal; div_lia.
Qed.

(** ** Chunks *)

Lemma digit_of n : digit (digit_char n) = Some (n mod 10).
Proof.
  unfold digit, digit_char. rewrite N_ascii_embedding by (pose proof (Z.mod_pos_bound n 10); lia).
  rewrite Z2N.id by (pose proof (Z.mod_pos_bound n 10); lia). destruct (_ && _) eqn:H; [f_equal; lia|].
  pose proof (Z.mod_pos_bound n 10). lia.
Qed.
Lemma take2_digits n r : 0 ≤ n < 100 → take2 (digits2 n +:+ r) = Some (n, r).
Proof. intros Hn. unfold digits2. simpl. rewrite !digit_of. simpl. do 2 f_equal. div_lia. Qed.
Lemma append_assoc x y z : (x +:+ y) +:+ z = x +:+ (y +:+ z).
Proof. induction x as [|c x IH]; [done|]. exact (f_equal (String c) IH). Qed.
Lemma take4_digits n r : 0 ≤ n < 10000 → take4 (digits4 n +:+ r) = Some (n, r).
Proof.
  intros Hn. assert (Hd : digits2 n = digits2 (n mod 100)).
  { unfold digits2, digit_char. f_equal; [|f_equal]; do 3 f_equal; div_lia. }
  unfold digits4, take4. rewrite append_assoc, Hd. apply bind_Some. eexists. split; [apply take2_digits; div_lia|].
  apply bind_Some. eexists. split; [apply take2_digits; div_lia|]. do 2 f_equal. div_lia.
Qed.
Lemma take_lit_app p r : take_lit p (p +:+ r) = Some r.
Proof. induction p as [|c p IH]; simpl; [done|]. by rewrite bool_decide_true. Qed.
Lemma take_day_short n r : 0 ≤ n < 7 → take_name 0 short_days (nth_name short_days n +:+ r) = Some (n, r).
Proof.
  intros Hn. assert (n = 0 ∨ n = 1 ∨ n = 2 ∨ n = 3 ∨ n = 4 ∨ n = 5 ∨ n = 6) as Hall by lia. by destruct_or! Hall; rewrite Hall.
Qed.
Lemma take_day_long n r : 0 ≤ n < 7 → take_name 0 long_days (nth_name long_days n +:+ r) = Some (n, r).
Proof.
  intros Hn. assert (n = 0 ∨ n = 1 ∨ n = 2 ∨ n = 3 ∨ n = 4 ∨ n = 5 ∨ n = 6) as Hall by lia. by destruct_or! Hall; rewrite Hall.
Qed.
Lemma take_month n r : 1 ≤ n ≤ 12 → take_name 1 short_months (nth_name short_months (n - 1) +:+ r) = Some (n, r).
Proof.
  intros Hn. assert (n = 1 ∨ n = 2 ∨ n = 3 ∨ n = 4 ∨ n = 5 ∨ n = 6 ∨ n = 7 ∨ n = 8 ∨ n = 9 ∨ n = 10 ∨ n = 11 ∨ n = 12) as Hall by lia.
  by destruct_or! Hall; rewrite Hall.
Qed.

(** What reading a chunk sets, and the years a chunk writes in full. *)
Definition set_chunk (c : chunk) (g f : fields) : fields :=
  let '(Fields y mo d h mi se) := f in
  match c with
  | CLit _ | CMon | CMonday => f
  | CJan => Fields y (f_month g) d h mi se
  | C02 | C_2 => Fields y mo (f_day g) h mi se
  | C2006 | C06 => Fields (f_year g) mo d h mi se
  | C15 => Fields y mo d (f_hour g) mi se
  | C04 => Fields y mo d h (f_min g) se
  | C05 => Fields y mo d h mi (f_sec g)
  end.
Definition year_fits (c : chunk) (y : Z) : Prop :=
  match c with C2006 => 0 ≤ y < 10000 | C06 => 1969 ≤ y < 2069 | _ => True end.
Lemma parse_format_chunk c s f r : year_fits c (f_year (fields_of s)) →
  parse_chunk c (format_chunk s c +:+ r) f = Some (set_chunk c (fields_of s) f, r).
Proof.
  intros Hy. pose proof (proj2 (seconds_fields s)) as Hv. apply valid_true in Hv as (Hm & Hd & Hh & Hmi & Hs).
  assert (Hd31 : f_day (fields_of s) ≤ 31) by (destruct Hd as [_ (_ & _ & ?)%days_in_le]; done).
  pose proof (Z.mod_pos_bound (s / 86400 + 4) 7 eq_refl) as Hw.
  destruct f as [y mo d h mi se]. destruct c; cbn [year_fits format_chunk parse_chunk set_chunk] in *; cbv zeta;
    [apply bind_Some; eexists; (split; [eassumption || apply take_lit_app|done])
    |apply bind_Some; eexists; (split; [by apply take_day_short|done])|apply bind_Some; eexists; (split; [by apply take_day_long|done])
    |apply bind_Some; eexists; (split; [by apply take_month|done])|..];
    try (apply bind_Some; eexists; (split; [(apply take2_digits || apply take4_digits); lia || div_lia|done])).
  - destruct (Z.ltb_spec (f_day (fields_of s)) 10).
    + change (String " " (String (digit_char (f_day (fields_of s))) "") +:+ r) with (String " " (String (digit_char (f_day (fields_of s))) r)).
      apply bind_Some. eexists. split; [apply digit_of|]. by rewrite Z.mod_small by lia.
    + pose proof (take2_digits (f_day (fields_of s)) r ltac:(lia)) as Ht.
      destruct (digits2 (f_day (fields_of s)) +:+ r) as [|a [|b x]] eqn:Hx; [done|done|].
      assert (a ≠ " "%char) as Ha by (intros ->; done).
      apply bind_Some in Ht as (na & Hna & Ht).
      destruct a as [[] [] [] [] [] [] [] []]; try done; apply bind_Some; eexists; (split; [apply bind_Some; eexists; (split; [exact Hna|exact Ht])|done]).
  - apply bind_Some. eexists. split; [apply take2_digits; div_lia|].
    do 3 f_equal. destruct (Z.leb_spec 69 (f_year (fields_of s) mod 100)); div_lia.
Qed.
Lemma parse_format_chunks l s f : Forall (λ c, year_fits c (f_year (fields_of s))) l →
  parse_chunks l (format l s) f = Some (foldl (λ f c, set_chunk c (fields_of s) f) f l).
Proof.
  intros H. revert f. induction H as [|c l Hc _ IH]; intros f; [done|]. unfold format in *. simpl.
  rewrite parse_format_chunk by done. simpl. apply IH.
Qed.

(** ** A Date header *)

(** The instants a layout writes in full. *)
Definition writes (l : list chunk) (s : Z) : Prop := Forall (λ c, year_fits c (f_year (fields_of s))) l.
Lemma layout_fields l f g : l ∈ dateLayouts → foldl (λ f c, set_chunk c g f) f l = g.
Proof.
  unfold dateLayouts. destruct f, g. intros H.
  repeat (apply elem_of_cons in H as [->|H]; [done|]). by apply elem_of_nil in H.
Qed.
Lemma parse_format l s : l ∈ dateLayouts → writes l s → parse l (format l s) = Some s.
Proof.
  intros Hl Hw. unfold parse. rewrite parse_format_chunks by done. simpl. rewrite layout_fields by done.
  destruct (seconds_fields s) as [Hs ->]. by rewrite Hs.
Qed.
(** What a layout reads has a year it writes. *)
Lemma take2_range s n r : take2 s = Some (n, r) → 0 ≤ n < 100.
Proof.
  destruct s as [|a [|b s]]; simpl; try done. unfold digit. intros (x & Hx & (y & Hy & [= <- <-])%bind_Some)%bind_Some.
  repeat case_match; simplify_eq; lia.
Qed.
Lemma take4_range s n r : take4 s = Some (n, r) → 0 ≤ n < 10000.
Proof.
  unfold take4. intros ([x r1] & Hx%take2_range & ([y r2] & Hy%take2_range & [= <- <-])%bind_Some)%bind_Some. lia.
Qed.
Lemma parse_chunk_year c s f g r : parse_chunk c s f = Some (g, r) →
  match c with C2006 | C06 => year_fits c (f_year g) | _ => f_year g = f_year f end.
Proof.
  destruct f as [y mo d h mi se]. destruct c; simpl; intros H;
    try (apply bind_Some in H as ([] & _ & [= <- _]); done); try (apply bind_Some in H as (? & _ & [= <- _]); done).
  - destruct s as [|a s]; [done|]. destruct s as [|b s].
    + destruct a as [[] [] [] [] [] [] [] []]; done.
    + destruct a as [[] [] [] [] [] [] [] []]; apply bind_Some in H as (x & _ & H); by simplify_eq || (destruct x; by simplify_eq).
  - apply bind_Some in H as ([n x] & Hn%take4_range & [= <- _]). done.
  - apply bind_Some in H as ([n x] & Hn%take2_range & [= <- _]). simpl. destruct (Z.leb_spec 69 n); lia.
Qed.
Definition is_year (c : chunk) : bool := match c with C2006 | C06 => true | _ => false end.
Lemma parse_chunks_year l s f g : parse_chunks l s f = Some g →
  (forallb (negb ∘ is_year) l = true → f_year g = f_year f)
  ∧ ((length (List.filter is_year l) ≤ 1)%nat → Forall (λ c, year_fits c (f_year g)) l).
Proof.
  revert s f. induction l as [|c l IH]; intros s f; simpl.
  - case_bool_decide; [|done]. intros [= <-]. split; [done|constructor].
  - intros ([f1 r] & Hc & [IH1 IH2]%IH)%bind_Some. apply parse_chunk_year in Hc. split.
    + intros [Hn Hl]%andb_prop. rewrite IH1 by done. by destruct c.
    + intros Hle. destruct (is_year c) eqn:Hy.
      * assert (Hno : forallb (negb ∘ is_year) l = true).
        { apply forallb_forall. intros x Hx. simpl. destruct (is_year x) eqn:Hx'; [|done]. exfalso.
          assert (Hin : In x (List.filter is_year l)) by by apply filter_In. destruct (List.filter is_year l); [done|simpl in Hle; lia]. }
        constructor; [rewrite IH1 by done; by destruct c|]. apply IH2. destruct (List.filter is_year l) as [|x k] eqn:Hf; simpl in *; lia.
      * constructor; [by destruct c|]. by apply IH2.
Qed.
Lemma parse_writes l s t : l ∈ dateLayouts → parse l s = Some t → writes l t.
Proof.
  unfold parse. intros Hl (g & Hg & H)%bind_Some. destruct (valid_fields g) eqn:Hv; [|done]. injection H as <-.
  unfold writes. rewrite fields_seconds by done. apply parse_chunks_year in Hg as [_ Hw]. apply Hw.
  revert Hl. unfold dateLayouts. intros H. repeat (apply elem_of_cons in H as [->|H]; [simpl; lia|]). by apply elem_of_nil in H.
Qed.
Lemma reads_exactly_iff s l t : l ∈ dateLayouts → reads_exactly s l = Some t ↔ s = format l t ∧ writes l t.
Proof.
  intros Hl. unfold reads_exactly. split.
  - intros (t' & Ht & H)%bind_Some. case_bool_decide; simplify_eq. split; [done|by eapply parse_writes].
  - intros [-> Hw]. apply bind_Some. exists t. rewrite parse_format by done. split; [done|]. by rewrite bool_decide_true.
Qed.

(** Two layouts that both read a text read one instant. *)
Lemma take2_no_space s x : take2 s = Some x → ∀ r, s ≠ String " " r.
Proof. intros H r ->. by destruct r. Qed.
Lemma padded_or_not s f r : parse_chunk C02 s f = Some r → parse_chunk C_2 s f = Some r.
Proof.
  destruct f as [y mo d h mi se]. simpl. intros H. assert (Hs : ∀ r, s ≠ String " " r).
  { apply bind_Some in H as (x & Hx & _). by eapply take2_no_space. }
  destruct s as [|a s]; [done|]. destruct s as [|b s]; [done|].
  destruct a as [[] [] [] [] [] [] [] []]; try exact H. by destruct (Hs (String b s)).
Qed.
Lemma asctime_layouts s t1 t2 : parse (nth 2 dateLayouts []) s = Some t1 → parse (nth 3 dateLayouts []) s = Some t2 → t1 = t2.
Proof.
  unfold parse. intros (g1 & H1 & H1')%bind_Some (g2 & H2 & H2')%bind_Some. enough (g1 = g2) as -> by congruence.
  revert H1 H2. change (nth 2 dateLayouts []) with ([CMon; CLit " "; CJan; CLit " "] ++ C_2 :: [CLit " "] ++ clock_chunks ++ [CLit " "; C2006]).
  change (nth 3 dateLayouts []) with ([CMon; CLit " "; CJan; CLit " "] ++ C02 :: [CLit " "] ++ clock_chunks ++ [CLit " "; C2006]).
  generalize (Fields 0 1 1 0 0 0). generalize ([CLit " "] ++ clock_chunks ++ [CLit " "; C2006]). intros tl f.
  generalize ([CMon; CLit " "; CJan; CLit " "]). intros hd. revert s f. induction hd as [|c hd IH]; intros s f.
  - cbn [app parse_chunks]. intros ([f1 r1] & Hc1 & H1)%bind_Some ([f2 r2] & Hc2 & H2)%bind_Some. apply padded_or_not in Hc2. congruence.
  - cbn [app parse_chunks]. intros ([f1 r1] & Hc1 & H1)%bind_Some ([f2 r2] & Hc2 & H2)%bind_Some. rewrite Hc1 in Hc2. simplify_eq. by eapply IH.
Qed.
(** The fourth character tells the others apart. *)
Definition fourth (s : string) : option ascii := String.get 3 s.
Lemma fourth_short x n r : 0 ≤ n < 7 → fourth (nth_name short_days n +:+ String x r) = Some x.
Proof.
  intros Hn. assert (n = 0 ∨ n = 1 ∨ n = 2 ∨ n = 3 ∨ n = 4 ∨ n = 5 ∨ n = 6) as Hall by lia. by destruct_or! Hall; rewrite Hall.
Qed.
Lemma fourth_long n r : 0 ≤ n < 7 → fourth (nth_name long_days n +:+ r) ∈ Some <$> ["d"; "s"; "n"; "r"; "u"]%char.
Proof.
  intros Hn. assert (n = 0 ∨ n = 1 ∨ n = 2 ∨ n = 3 ∨ n = 4 ∨ n = 5 ∨ n = 6) as Hall by lia.
  destruct_or! Hall; rewrite Hall; simpl; set_solver.
Qed.
Lemma fourth_layout l t : l ∈ dateLayouts →
  (l = nth 0 dateLayouts [] ∧ fourth (format l t) = Some ","%char)
  ∨ (l = nth 1 dateLayouts [] ∧ fourth (format l t) ∈ Some <$> ["d"; "s"; "n"; "r"; "u"]%char)
  ∨ ((l = nth 2 dateLayouts [] ∨ l = nth 3 dateLayouts []) ∧ fourth (format l t) = Some " "%char).
Proof.
  pose proof (Z.mod_pos_bound (t / 86400 + 4) 7 eq_refl) as Hw.
  unfold dateLayouts. intros H.
  apply elem_of_cons in H as [->|H]; [left; split; [done|by apply fourth_short]|].
  apply elem_of_cons in H as [->|H]; [right; left; split; [done|by apply fourth_long]|].
  apply elem_of_cons in H as [->|H]; [right; right; split; [by left|by apply fourth_short]|].
  apply elem_of_cons in H as [->|H]; [right; right; split; [by right|by apply fourth_short]|]. by apply elem_of_nil in H.
Qed.
Lemma reads_one s l1 l2 t1 t2 : l1 ∈ dateLayouts → l2 ∈ dateLayouts →
  reads_exactly s l1 = Some t1 → reads_exactly s l2 = Some t2 → t1 = t2.
Proof.
  intros H1 H2 Hr1 Hr2.
  assert (Hp1 : parse l1 s = Some t1) by (unfold reads_exactly in Hr1; apply bind_Some in Hr1 as (? & ? & ?); case_bool_decide; by simplify_eq).
  assert (Hp2 : parse l2 s = Some t2) by (unfold reads_exactly in Hr2; apply bind_Some in Hr2 as (? & ? & ?); case_bool_decide; by simplify_eq).
  apply reads_exactly_iff in Hr1 as [Hs1 _]; [|done]. apply reads_exactly_iff in Hr2 as [Hs2 _]; [|done].
  pose proof (fourth_layout l1 t1 H1) as F1. pose proof (fourth_layout l2 t2 H2) as F2. rewrite <- Hs1 in F1. rewrite <- Hs2 in F2.
  destruct F1 as [[-> F1]|[[-> F1]|[[-> | ->] F1]]], F2 as [[-> F2]|[[-> F2]|[[-> | ->] F2]]];
    try congruence; try (rewrite F1 in F2; exfalso; set_solver); try (rewrite F2 in F1; exfalso; set_solver).
  - by eapply asctime_layouts.
  - symmetry. by eapply asctime_layouts.
Qed.
Lemma ParseDate_reads s t : ParseDate s = Some t → ∃ l u, l ∈ dateLayouts ∧ reads_exactly s l = Some u ∧ t = u * second.
Proof.
  unfold ParseDate. intros (u & Hu & ->)%fmap_Some. apply head_Some_elem_of in Hu. apply list_elem_of_omap in Hu as (l & Hl & Hu).
  by exists l, u.
Qed.
