(* ===== verification/Json.v ===== *)
(** * Go's decoding of JSON into structs, as [encoding/json] does it: the fields a key meets, nulls,
    repeated members and the types refused.

    A text is given as the one value it holds ([None] when it holds none, or more than one); a number
    is its literal.  A decoder takes a field's value so far, as a member met twice is decoded twice. *)

From S2P Require Import Prelude Times.

Inductive json :=
| VNull | VBool (b : bool) | VNum (lit : string) | VStr (s : string) | VArr (l : list json)
| VObj (members : list (string * json)).

(** ** Keys *)

(** A key's letters folded: ASCII case, the long s and the Kelvin sign. *)
Definition lower (c : ascii) : ascii :=
  let n := N_of_ascii c in if ((65 <=? n) && (n <=? 90))%N then ascii_of_N (n + 32) else c.
Fixpoint fold_name (s : string) : string :=
  match s with
  | String c r =>
      match r with
      | String d r' =>
          if bool_decide (N_of_ascii c = 197%N) && bool_decide (N_of_ascii d = 191%N) then String "s" (fold_name r')
          else match r' with
               | String e r'' =>
                   if bool_decide (N_of_ascii c = 226%N) && bool_decide (N_of_ascii d = 132%N) && bool_decide (N_of_ascii e = 170%N)
                   then String "k" (fold_name r'') else String (lower c) (fold_name r)
               | EmptyString => String (lower c) (fold_name r)
               end
      | EmptyString => String (lower c) EmptyString
      end
  | EmptyString => EmptyString
  end.
(** The values of the members that meet a field, in order. *)
Definition member_values (name : string) (ms : list (string * json)) : list json :=
  (filter (λ kv, fold_name kv.1 = name) ms).*2.

(** ** Types *)

(** A decoder of a field: its value so far and the next member's. *)
Definition decoder (A : Type) : Type := A → json → option A.
Definition decode_field {A} (dec : decoder A) (zero : A) (name : string) (ms : list (string * json)) : option A :=
  foldl (λ acc j, old ← acc; dec old j) (Some zero) (member_values name ms).

(** [strconv.ParseInt(lit, 10, 64)] of a number's literal. *)
Fixpoint digits_value (acc : Z) (s : string) : option Z :=
  match s with EmptyString => Some acc | String c r => x ← digit c; digits_value (10 * acc + x) r end.
Definition ParseInt64 (lit : string) : option Z :=
  n ← match lit with
      | String "-" r => if bool_decide (r = "") then None else Z.opp <$> digits_value 0 r
      | "" => None
      | s => digits_value 0 s
      end;
  if (- 2 ^ 63 <=? n) && (n <? 2 ^ 63) then Some n else None.
(** [*int64], [*string] and [*bool] *)
Definition int64_ptr : decoder (option Z) := λ _ j,
  match j with VNull => Some None | VNum lit => Some <$> ParseInt64 lit | _ => None end.
Definition string_ptr : decoder (option string) := λ _ j,
  match j with VNull => Some None | VStr s => Some (Some s) | _ => None end.
Definition bool_ptr : decoder (option bool) := λ _ j,
  match j with VNull => Some None | VBool b => Some (Some b) | _ => None end.
(** [json.RawMessage], [None] when no member met it. *)
Definition raw_message : decoder (option json) := λ _ j, Some (Some j).
(** [map[string]json.RawMessage], the nil map [None]; an object's members join those of an earlier one. *)
Definition raw_map : decoder (option (gmap string json)) := λ old j,
  match j with
  | VNull => Some None
  | VObj ms => Some (Some (foldl (λ m kv, <[kv.1 := kv.2]> m) (default ∅ old) ms))
  | _ => None
  end.

Example folded : member_values "keys" [("Keys", VNull); ("key", VBool true); ("KEYS", VNum "1")] = [VNull; VNum "1"].
Proof. vm_compute. reflexivity. Qed.
Example ints : ParseInt64 <$> ["0"; "-12"; "1.0"; "9223372036854775808"; "-9223372036854775808"]
  = [Some 0; Some (-12); None; None; Some (- 2 ^ 63)].
Proof. vm_compute. reflexivity. Qed.
