(* ===== verification/Classify.v ===== *)
(** * The dependency monitor's classification ([internal/classify/classify.go]): one provider answer,
    judged against the recorded dependency by the first row of a table that matches.

    An answer's body is the JSON value its text is.  A zero [Created] is Go's zero time. *)

From stdpp Require Import pretty.
From S2P Require Import Prelude Times Json.

Inductive provider := KV | Transit | OtherProvider (s : string).
Inductive dclass := Retained | Blocked | Lost | Unknown.
Inductive reason :=
| RNone | Malformed | Denied | Absent | Unavailable | Unreachable | Unreadable | Destroyed | Pruned
| InsufficientEvidence | IdentityMismatch | DeletionTimeUndecidable | SoftDeleted | DeletionScheduled
| SoftDeleteUnobserved | TrimmedUnverified | BelowDecryptionFloorUnverified | Trimmed | BelowDecryptionFloor.
#[export] Instance provider_eq : EqDecision provider. Proof. solve_decision. Defined.
#[export] Instance dclass_eq : EqDecision dclass. Proof. solve_decision. Defined.
#[export] Instance reason_eq : EqDecision reason. Proof. solve_decision. Defined.

Record Dependency := ADependency { d_provider : provider; d_object : string; d_version : Z; d_created : Z }.
Record Answer := AnAnswer { a_status : Z; a_date : string; a_body : option json; a_unreachable : bool }.
Record Result := AResult { r_class : dclass; r_reason : reason; r_created : Z; r_deletion : Z; r_date : Z }.
(** [Result{Class: c, Reason: r}] *)
Definition judged (c : dclass) (r : reason) : Result := AResult c r zero_time zero_time zero_time.
Definition dated (date : Z) (r : Result) : Result := AResult (r_class r) (r_reason r) (r_created r) (r_deletion r) date.

(** [statusReason] *)
Definition statusReason (a : Answer) : reason :=
  if a_unreachable a then Unreachable
  else if a_status a =? 403 then Denied
  else if a_status a =? 404 then Absent
  else if a_status a =? 503 then Unavailable
  else if negb (a_status a =? 200) then Unreadable else RNone.

(** [decodeData]: the members of the answer's data object. *)
Definition decodeData (body : option json) : option (list (string * json)) :=
  j ← body;
  match j with
  | VObj ms => data ← decode_field raw_message None "data" ms;
      match data with Some (VObj ms) => Some ms | _ => None end
  | _ => None
  end.

(** ** KV v2 metadata *)

Record kvEntry := KvEntry { e_created : option string; e_deletion : option string; e_destroyed : option bool }.
Record kvData := KvData { kv_current : Z; kv_oldest : Z; kv_versions : gmap string json }.
Definition decodeKV (body : option json) : option kvData :=
  ms ← decodeData body;
  current ← decode_field int64_ptr None "current_version" ms;
  oldest ← decode_field int64_ptr None "oldest_version" ms;
  versions ← decode_field raw_map None "versions" ms;
  current ← current; oldest ← oldest; versions ← versions; Some (KvData current oldest versions).
(** [json.Unmarshal] of a version into a [kvEntry]. *)
Definition decode_entry (raw : json) : option kvEntry :=
  match raw with
  | VObj ms =>
      created ← decode_field string_ptr None "created_time" ms;
      deletion ← decode_field string_ptr None "deletion_time" ms;
      destroyed ← decode_field bool_ptr None "destroyed" ms;
      Some (KvEntry created deletion destroyed)
  | VNull => Some (KvEntry None None None)
  | _ => None
  end.
(** The version's entry as the table reads it: whether it is destroyed, its deletion time as text and
    as a time, and its creation time. *)
Definition read_entry (raw : json) : option (bool * string * Z * option string) :=
  e ← decode_entry raw; destroyed ← e_destroyed e; deletion ← e_deletion e;
  t ← (if bool_decide (deletion = "") then Some zero_time else ParseRFC3339 deletion);
  Some (destroyed, deletion, t, e_created e).
(** [kvCreated] *)
Definition kvCreated (s : option string) : option Z := t ← s; ParseRFC3339 t.

(** [strconv.FormatInt(v, 10)] of a positive version. *)
Definition version_key (v : Z) : string := pretty (Z.to_N v).

Definition kv_row (d : Dependency) (current oldest date : Z) (entry : option (bool * string * Z * option string)) : Result :=
  if match entry with Some (destroyed, _, _, _) => destroyed | None => false end then judged Lost Destroyed
  else if (0 <? oldest) && (d_version d <? oldest) then judged Lost Pruned
  else match entry with
       | None => judged Unknown InsufficientEvidence
       | Some (_, text, deletion, created) =>
           if current <? d_version d then judged Unknown InsufficientEvidence
           else match kvCreated created with
                | None => judged Unknown IdentityMismatch
                | Some t =>
                    if negb (IsZero (d_created d)) && negb (t =? d_created d) then judged Unknown IdentityMismatch
                    else
                      let '(c, r) :=
                        if bool_decide (text = "") then (Retained, RNone)
                        else if IsZero date || (truncate_second deletion =? date) then (Unknown, DeletionTimeUndecidable)
                        else if deletion <? date then (Blocked, SoftDeleted) else (Retained, DeletionScheduled) in
                      AResult c r t deletion zero_time
                end
       end.
Definition classifyKV (d : Dependency) (body : option json) (date : Z) : option Result :=
  data ← decodeKV body;
  entry ← match kv_versions data !! version_key (d_version d) with Some raw => Some <$> read_entry raw | None => Some None end;
  Some (kv_row d (kv_current data) (kv_oldest data) date entry).

(** ** Transit key metadata *)

Record transitData := TransitData {
  tr_keys : gmap string json; tr_latest : option Z; tr_available : option Z; tr_decryption : option Z;
  tr_soft : option json }.
Definition decodeTransit (body : option json) : option transitData :=
  ms ← decodeData body;
  keys ← decode_field raw_map None "keys" ms;
  latest ← decode_field int64_ptr None "latest_version" ms;
  available ← decode_field int64_ptr None "min_available_version" ms;
  decryption ← decode_field int64_ptr None "min_decryption_version" ms;
  soft ← decode_field raw_message None "soft_deleted" ms;
  keys ← keys; Some (TransitData keys latest available decryption soft).
(** [json.Unmarshal] of a listed version into an [*int64], not null. *)
Definition listed_at (raw : json) : option Z := s ← int64_ptr None raw; (λ s, s * second) <$> s.
(** The member is the literal [false]. *)
Definition soft_false (j : option json) : bool := match j with Some (VBool false) => true | _ => false end.

Definition transit_row (d : Dependency) (data : transitData) (created : option Z) : Result :=
  if match created with Some t => negb (IsZero (d_created d)) && negb (t =? d_created d) | None => false end
  then judged Unknown IdentityMismatch
  else if negb (soft_false (tr_soft data)) then judged Unknown SoftDeleteUnobserved
  else match tr_available data, tr_decryption data, tr_latest data with
       | Some minAvailable, Some minDecryption, Some latest =>
           if latest <? d_version d then judged Unknown InsufficientEvidence
           else
             let belowAvailable := (0 <? minAvailable) && (d_version d <? minAvailable) in
             let belowDecryption := d_version d <? minDecryption in
             match created with
             | None => if belowAvailable then judged Unknown TrimmedUnverified
                 else if belowDecryption then judged Unknown BelowDecryptionFloorUnverified
                 else judged Unknown InsufficientEvidence
             | Some t =>
                 let '(c, r) := if belowAvailable then (Lost, Trimmed)
                   else if belowDecryption then (Blocked, BelowDecryptionFloor) else (Retained, RNone) in
                 AResult c r t zero_time zero_time
             end
       | _, _, _ => judged Unknown InsufficientEvidence
       end.
Definition classifyTransit (d : Dependency) (body : option json) : option Result :=
  data ← decodeTransit body;
  created ← match tr_keys data !! version_key (d_version d) with Some raw => Some <$> listed_at raw | None => Some None end;
  Some (transit_row d data created).

(** ** The table *)

Definition Classify (d : Dependency) (a : Answer) : Result :=
  let date := default zero_time (ParseDate (a_date a)) in
  if d_version d <? 1 then dated date (judged Unknown Malformed)
  else if negb (bool_decide (statusReason a = RNone)) then dated date (judged Unknown (statusReason a))
  else match match d_provider d with
             | KV => classifyKV d (a_body a) date
             | Transit => classifyTransit d (a_body a)
             | OtherProvider _ => None
             end with
       | Some r => dated date r
       | None => dated date (judged Unknown Unreadable)
       end.

(** The reason an answer fails for every version of the object. *)
Definition AnswerReason (p : provider) (a : Answer) : reason :=
  if negb (bool_decide (statusReason a = RNone)) then statusReason a
  else if match p with
          | KV => bool_decide (is_Some (decodeKV (a_body a)))
          | Transit => bool_decide (is_Some (decodeTransit (a_body a)))
          | OtherProvider _ => false
          end then RNone else Unreadable.
