(* ===== verification/Monitor.v ===== *)
(** * The dependency monitor ([internal/monitor]): a pass's classification of each dependency and its
    record with the alerts it raises, the watchdog, and the logger.

    The store holds the monitor's tables; instants are nanoseconds, and a time a row keeps is cut to
    the microsecond, as the driver sends it.  A pass's and a watchdog's reports of their own failures
    are left out, as are the timeouts that end a stuck holder's session. *)

From stdpp Require Import sorting.
From S2P Require Import Prelude Ident Times Json Classify.

(** ** Tables *)

(** A dependency's identity, with the creation time as text. *)
Record identity := Identity { i_provider : string; i_object : string; i_version : Z; i_created : string }.
#[export] Instance identity_eq : EqDecision identity. Proof. solve_decision. Defined.

(** [status]; a zero time is NULL. *)
Record status := Status {
  st_class : dclass; st_reason : reason; st_first : Z; st_since : Z; st_persistent : Z; st_observed : Z; st_warned : Z }.
(** Table [dependency_status]. *)
Record status_row := StatusRow {
  sr_identity : identity; sr_status : status; sr_from : Z; sr_recorded : Z; sr_answer : Z }.

Inductive kind := KindLost | KindBlocked | KindRegression | KindPersistent | KindDeletion | KindStalled.
#[export] Instance kind_eq : EqDecision kind. Proof. solve_decision. Defined.
(** Table [dependency_alert], in recording order; a monitor-stalled alert is of no dependency. *)
Record alert := Alert {
  al_seq : Z; al_kind : kind; al_dependency : option string; al_class : option dclass; al_reason : reason;
  al_releases : list string; al_deletion : Z; al_from : Z; al_answer : Z; al_epoch : string; al_recorded : Z }.
(** Table [dependency_monitor]. *)
Record monitor_row := MonitorRow { mr_progress : Z; mr_pass : option Z; mr_stalled : option Z; mr_logged : Z }.

(** The dependencies of releases are pairs; [m_seq] is the last recording sequence drawn. *)
Record mdb := Mdb {
  m_epoch : string; m_clock : Z; m_statuses : gmap string status_row; m_deps : list (string * identity);
  m_monitor : monitor_row; m_alerts : list alert; m_seq : Z }.
Inductive monitor_error :=
| MNoStatus | MNoEpoch | MCheck (name : string) | MCreation | MPath | MProvider | MAsk | MSink | MCommit.
Notation MT := (M mdb monitor_error).

Definition set_clock (t : Z) (d : mdb) : mdb :=
  Mdb (m_epoch d) t (m_statuses d) (m_deps d) (m_monitor d) (m_alerts d) (m_seq d).
Definition set_statuses (s : gmap string status_row) (d : mdb) : mdb :=
  Mdb (m_epoch d) (m_clock d) s (m_deps d) (m_monitor d) (m_alerts d) (m_seq d).
Definition set_monitor (r : monitor_row) (d : mdb) : mdb :=
  Mdb (m_epoch d) (m_clock d) (m_statuses d) (m_deps d) r (m_alerts d) (m_seq d).
Definition add_alert (a : alert) (d : mdb) : mdb :=
  Mdb (m_epoch d) (m_clock d) (m_statuses d) (m_deps d) (m_monitor d) (m_alerts d ++ [a]) (al_seq a).

(** [Timings], and the microsecond a time is kept to. *)
Record timings := Timings { t_interval : Z; t_persistent : Z }.
Definition stallIntervals : Z := 3.
Definition Stale (t : timings) : Z := stallIntervals * t_interval t.
(** [next]: the wait before the next pass. *)
Definition next (start end_ interval : Z) : Z :=
  let d := start + interval - end_ in if 0 <? d then d else 0.
Definition kept (t : Z) : Z := t - t mod 1000.
Definition kept_status (s : status) : status :=
  Status (st_class s) (st_reason s) (kept (st_first s)) (kept (st_since s)) (kept (st_persistent s)) (kept (st_observed s))
    (kept (st_warned s)).

(** ** [transition] *)

Definition transition (old : status) (r : Result) (at_ : Z) (t : timings) : status * list kind :=
  let observed := if bool_decide (r_reason r = DeletionScheduled) then r_deletion r else zero_time in
  let unknown := bool_decide (r_class r = Unknown) in
  let entering := unknown && negb (bool_decide (st_class old = Unknown)) in
  let first := if bool_decide (r_class r = Retained) && IsZero (st_first old) then at_ else st_first old in
  let since := if negb unknown then zero_time else if entering then at_ else st_since old in
  let last := if negb unknown || entering then zero_time else st_persistent old in
  let due := unknown && ((if IsZero last then since else last) + t_persistent t <=? at_) in
  let kinds :=
    (if bool_decide (r_class r = Lost) && negb (bool_decide (st_class old = Lost)) then [KindLost] else [])
    ++ (if bool_decide (r_class r = Blocked) && negb (bool_decide (st_class old = Blocked)) then [KindBlocked] else [])
    ++ (if unknown && (bool_decide (st_class old = Retained) || bool_decide (st_class old = Blocked)) then [KindRegression] else [])
    ++ (if due then [KindPersistent] else []) in
  (Status (r_class r) (r_reason r) first since (if due then at_ else last) observed (st_warned old), kinds).

(** [unwarned] *)
Definition unwarned (releases warned : list string) : list string := filter (λ r, r ∉ warned) releases.

(** ** CHECKs *)

(** [dependency_reason] *)
Definition dependency_reason (provider : string) (c : dclass) (r : reason) : bool :=
  let kv := bool_decide (provider = "kv") in
  let transit := bool_decide (provider = "transit") in
  match c with
  | Retained => match r with RNone => true | DeletionScheduled => kv | _ => false end
  | Unknown =>
      match r with
      | Malformed | Denied | Absent | Unavailable | Unreachable | Unreadable | InsufficientEvidence | IdentityMismatch => true
      | DeletionTimeUndecidable => kv
      | SoftDeleteUnobserved | TrimmedUnverified | BelowDecryptionFloorUnverified => transit
      | _ => false
      end
  | Lost => match r with Destroyed | Pruned => kv | Trimmed => transit | _ => false end
  | Blocked => match r with SoftDeleted => kv | BelowDecryptionFloor => transit | _ => false end
  end.
(** A status row's reason, schedule and times; its identity's form is left out. *)
Definition status_checks (x : status_row) : option string :=
  let s := sr_status x in
  if negb (dependency_reason (i_provider (sr_identity x)) (st_class s) (st_reason s)) then Some "dependency_status_reason"
  else if bool_decide (st_reason s = DeletionScheduled) && IsZero (st_observed s) then Some "dependency_status_schedule"
  else if negb (eqb (bool_decide (st_class s = Unknown)) (negb (IsZero (st_since s)))) then Some "dependency_status_unknown_since"
  else if sr_recorded x <? sr_from x then Some "dependency_status_times" else None.
(** An alert's kind and class, its reason, and its shape; that its releases each reference the version once. *)
Definition alert_kind_ok (k : kind) (c : option dclass) (r : reason) : bool :=
  match k, c with
  | KindStalled, None => true
  | KindLost, Some Lost | KindBlocked, Some Blocked | KindRegression, Some Unknown | KindPersistent, Some Unknown => true
  | KindDeletion, Some Retained => bool_decide (r = DeletionScheduled)
  | _, _ => false
  end.
Definition references (d : mdb) (i : identity) : list string :=
  sorted_ids (filter (λ x, x.2 = i) (m_deps d)).*1.
Definition alert_checks (d : mdb) (i : identity) (k : kind) (s : status) (releases : list string) (deletion : Z) : option string :=
  if negb (bool_decide (NoDup releases)) || negb (forallb (λ r, bool_decide (r ∈ references d i)) releases)
  then Some "dependency_alert_releases"
  else if negb (alert_kind_ok k (Some (st_class s)) (st_reason s)) then Some "dependency_alert_kind"
  else if negb (dependency_reason (i_provider i) (st_class s) (st_reason s)) then Some "dependency_alert_reason"
  else if bool_decide (releases = []) || negb (eqb (bool_decide (k = KindDeletion)) (negb (IsZero deletion)))
  then Some "dependency_alert_shape" else None.

(** ** One dependency's record *)

Section Monitor.
Variable tick : Z → Z.
Variable t : timings.

(** [clock_timestamp()], to the microsecond. *)
Definition clock : MT Z := c ← gets (λ d, kept (tick (m_clock d))); modify (set_clock c);; mret c.

(** [GREATEST], which a NULL is left out of. *)
Definition greatest (x : Z) (y : option Z) : Z := match y with Some y => Z.max x y | None => x end.
(** [progress] *)
Definition progress (pass : bool) : MT unit :=
  now ← clock;
  modify (λ d, let r := m_monitor d in
    set_monitor (MonitorRow (Z.max (mr_progress r) now) (if pass then Some (greatest now (mr_pass r)) else mr_pass r)
      (mr_stalled r) (mr_logged r)) d).

(** The releases earlier warnings of this time name. *)
Definition warned_releases (d : mdb) (dep : string) (deletion : Z) : list string :=
  concat (al_releases <$>
    filter (λ a, al_dependency a = Some dep ∧ al_kind a = KindDeletion ∧ al_deletion a = deletion) (m_alerts d)).

Definition check (c : option string) : MT unit := reject (MCheck <$> c).
(** The next recording sequence, an alert's insert. *)
Definition insert_alert (dep : string) (i : identity) (s : status) (from at_ : Z) (answer : Z) (ka : kind * list string) : MT unit :=
  let deletion := if bool_decide (ka.1 = KindDeletion) then kept (st_observed s) else zero_time in
  d ← gets id;
  check (alert_checks d i ka.1 s ka.2 deletion);;
  modify (add_alert (Alert (m_seq d + 1) ka.1 (Some dep) (Some (st_class s)) (st_reason s) ka.2 deletion from answer (m_epoch d) at_)).
Fixpoint insert_alerts (dep : string) (i : identity) (s : status) (from at_ answer : Z) (l : list (kind * list string)) : MT unit :=
  match l with [] => mret tt | a :: l => insert_alert dep i s from at_ answer a;; insert_alerts dep i s from at_ answer l end.

(** The releases a deletion warning names, and the alerts a record raises. *)
Definition deletion_names (dep : string) (i : identity) (s : status) (d : mdb) : list string :=
  if bool_decide (st_reason s = DeletionScheduled)
  then unwarned (references d i) (warned_releases d dep (kept (st_observed s))) else [].
Definition raised (dep : string) (i : identity) (s : status) (kinds : list kind) (d : mdb) : list (kind * list string) :=
  let names := deletion_names dep i s d in
  ((λ k, (k, references d i)) <$> kinds) ++ (if bool_decide (names = []) then [] else [(KindDeletion, names)]).
Definition with_warning (names : list string) (s : status) : status :=
  if bool_decide (names = []) then s
  else Status (st_class s) (st_reason s) (st_first s) (st_since s) (st_persistent s) (st_observed s) (st_observed s).

(** [record]: whether it raised an alert. *)
Definition record (dep : string) (from : Z) (r : Result) : MT bool :=
  row ← getsOr (λ d, m_statuses d !! dep) MNoStatus;
  at_ ← clock;
  let '(s, kinds) := transition (sr_status row) r at_ t in
  let i := sr_identity row in
  names ← gets (deletion_names dep i s);
  alerts ← gets (raised dep i s kinds);
  let new := StatusRow i (kept_status (with_warning names s)) from at_ (r_date r) in
  check (status_checks new);;
  modify (λ d, set_statuses (<[dep := new]> (m_statuses d)) d);;
  insert_alerts dep i s from at_ (r_date r) alerts;;
  progress false;;
  mret (negb (bool_decide (alerts = []))).

(** [completed] *)
Definition completed : MT unit := progress true.

(** ** The watchdog *)

Definition stall : Z := let d := stallIntervals * t_interval t in d - d mod 1000000.
Definition stalled_due (now : Z) (d : mdb) : bool :=
  let r := m_monitor d in stall <=? now - greatest (mr_progress r) (mr_stalled r).
(** The plain read, and the transaction that decides again under the row lock. *)
Definition watchdog_tx : MT bool :=
  at_ ← clock;
  due ← gets (stalled_due at_);
  if negb due then mret false else
  modify (λ d, add_alert (Alert (m_seq d + 1) KindStalled None None RNone [] zero_time zero_time zero_time (m_epoch d) at_) d);;
  modify (λ d, let r := m_monitor d in set_monitor (MonitorRow (mr_progress r) (mr_pass r) (Some at_) (mr_logged r)) d);;
  mret true.
Definition watchdog_read : MT bool := now ← clock; gets (stalled_due now).

(** ** The logger *)

Definition batch : nat := 100.
Definition seq_before (x y : alert) : Prop := al_seq x ≤ al_seq y.
#[export] Instance seq_before_dec : RelDecision seq_before. Proof. intros x y. unfold seq_before. apply _. Defined.
(** [unlogged]: at most one batch of the alerts above the cursor, in recording order. *)
Definition unlogged (after : Z) (d : mdb) : list alert :=
  take batch (merge_sort seq_before (filter (λ a, after < al_seq a) (m_alerts d))).
(** The cursor's update, which moving back is refused. *)
Definition advance_cursor (seq : Z) : MT unit :=
  back ← gets (λ d, seq <? mr_logged (m_monitor d));
  failIf back (MCheck "dependency_monitor_forward");;
  modify (λ d, let r := m_monitor d in set_monitor (MonitorRow (mr_progress r) (mr_pass r) (mr_stalled r) seq) d).

(** ** What publication gives the monitor ([seedStatuses], [insertDependencies] of publish.go) *)

(** A version with no status: none of its identity, and for KV none of its object and version. *)
Definition seeded (i : identity) (d : mdb) : bool :=
  bool_decide (map_Exists (λ _ x, sr_identity x = i ∨ (i_provider i = "kv" ∧ i_provider (sr_identity x) = "kv"
    ∧ i_object (sr_identity x) = i_object i ∧ i_version (sr_identity x) = i_version i)) (m_statuses d)).
Definition seedStatus (id_ : string) (i : identity) (r : Result) (began : Z) : MT unit :=
  failIf (negb (bool_decide (r_class r = Retained))) (MCheck "class");;
  at_ ← clock;
  let observed := if bool_decide (r_reason r = DeletionScheduled) then kept (r_deletion r) else zero_time in
  let row := StatusRow i (Status Retained (r_reason r) (kept began) zero_time zero_time observed zero_time) (kept began) at_ (r_date r) in
  check (status_checks row);;
  conflict ← gets (λ d, seeded i d || bool_decide (is_Some (m_statuses d !! id_)));
  if (conflict : bool) then mret tt else modify (λ d, set_statuses (<[id_ := row]> (m_statuses d)) d).
(** A release's dependency, whose version has a status. *)
Definition insertDependency (release : string) (i : identity) : MT unit :=
  ok ← gets (λ d, bool_decide (map_Exists (λ _ x, sr_identity x = i) (m_statuses d)));
  failIf (negb ok) (MCheck "dependency_fkey");;
  modify (λ d, Mdb (m_epoch d) (m_clock d) (m_statuses d) ((release, i) :: m_deps d) (m_monitor d) (m_alerts d) (m_seq d)).

(** ** The pass, the watchdog and the logger as the process runs them *)

(** The store; the lines written; the answers the provider is going to give ([None]: the client cannot
    ask), whether each advisory lock tried is free, how many lines of a batch the sink takes before it
    fails, and whether the cursor's commit goes through. *)
Record mworld := MWorld {
  w_store : mdb; w_out : list alert; w_asked : list identity; w_answers : list (option Answer); w_free : list bool; w_sink : list nat;
  w_commits : list bool }.
(** What the other processes do between this one's turns. *)
Variable others : mdb → mdb.
Notation MP := (P mworld monitor_error).

Definition with_store (d : mdb) (w : mworld) : mworld :=
  MWorld d (w_out w) (w_asked w) (w_answers w) (w_free w) (w_sink w) (w_commits w).
(** A transaction or query. *)
Definition turn {A} (m : MT A) : MP A := λ w,
  let d := others (w_store w) in
  match m d with Ok (a, d') => (Ok a, with_store d' w) | Err e => (Err e, with_store d w) end.
(** [pg_try_advisory_lock] *)
Definition try_lock : MP bool := λ w,
  (Ok (default true (head (w_free w))), MWorld (w_store w) (w_out w) (w_asked w) (w_answers w) (tail (w_free w)) (w_sink w) (w_commits w)).
(** A metadata request; no answer is one classified unreachable. *)
Definition unreachable : Answer := AnAnswer 0 "" None true.
Definition ask_metadata (i : identity) : MP Answer := λ w,
  let a := default (Some unreachable) (head (w_answers w)) in
  (match a with Some a => Ok a | None => Err MAsk end,
   MWorld (w_store w) (w_out w) (w_asked w ++ [i]) (tail (w_answers w)) (w_free w) (w_sink w) (w_commits w)).

(** [strings.Split(s, "/")] *)
Fixpoint split_slash (s : string) : list string :=
  match s with
  | EmptyString => [""]
  | String c r => if bool_decide (c = "/"%char) then "" :: split_slash r
      else match split_slash r with x :: l => String c x :: l | [] => [String c ""] end
  end.
(** [valueID] *)
Definition value_char (c : ascii) : bool :=
  let n := N_of_ascii c in
  ((65 <=? n) && (n <=? 90) || (97 <=? n) && (n <=? 122) || (48 <=? n) && (n <=? 57) || (n =? 95) || (n =? 45))%N.
Definition valueID (s : string) : bool :=
  (1 <=? String.length s)%nat && (String.length s <=? 128)%nat && forallb value_char (String.list_ascii_of_string s).
Definition NewGenerationPath (cluster claim value : string) : bool :=
  MustHave cluster "cl" && MustHave claim "ing" && valueID value.
(** [generationPath] *)
Definition generationPath (object : string) : bool :=
  match split_slash object with
  | [gen; cluster; claim; value] => bool_decide (gen = "gen") && NewGenerationPath cluster claim value
  | _ => false
  end.

(** [classify] *)
Definition classify (i : identity) : MP Result :=
  match ParseRFC3339 (i_created i) with
  | None => fail MCreation
  | Some created =>
      if bool_decide (i_provider i = "kv") then
        if generationPath (i_object i) then
          a ← ask_metadata i; mret (Classify (ADependency KV (i_object i) (i_version i) created) a)
        else fail MPath
      else if bool_decide (i_provider i = "transit") then
        a ← ask_metadata i; mret (Classify (ADependency Transit (i_object i) (i_version i) created) a)
      else fail MProvider
  end.
(** [classifyOne]: whether it raised an alert; another instance's lock leaves the dependency to it. *)
Definition classifyOne (di : string * identity) : MP bool :=
  free ← try_lock;
  if negb (free : bool) then mret false else
  from ← turn clock;
  r ← classify di.2;
  turn (record di.1 from r).
(** [monitored], [ORDER BY id] *)
Definition monitored (d : mdb) : list (string * identity) :=
  omap (λ i, (λ x, (i, sr_identity x)) <$> m_statuses d !! i) (sorted_ids (map_to_list (m_statuses d)).*1).
(** [Pass], its context not ended; a dependency that fails is left for the next pass. *)
Fixpoint pass_each (l : list (string * identity)) : MP unit :=
  match l with [] => mret tt | di :: l => attempt_of (classifyOne di);; pass_each l end.
Definition Pass : MP unit := deps ← turn (gets monitored); pass_each deps;; turn completed.

(** [watchdog] *)
Definition watchdog : MP bool :=
  due ← turn watchdog_read; if negb (due : bool) then mret false else turn watchdog_tx.

(** [write]: the lines the sink takes, in order. *)
Definition write_lines (lines : list alert) : MP unit := λ w,
  let n := default (length lines) (head (w_sink w)) in
  (if (length lines <=? n)%nat then Ok tt else Err MSink,
   MWorld (w_store w) (w_out w ++ take n lines) (w_asked w) (w_answers w) (w_free w) (tail (w_sink w)) (w_commits w)).
Definition commits : MP unit := λ w,
  (if default true (head (w_commits w)) then Ok tt else Err MCommit,
   MWorld (w_store w) (w_out w) (w_asked w) (w_answers w) (w_free w) (w_sink w) (tail (w_commits w))).
(** [logBatch]: the number of lines logged. *)
Definition logBatch : MP nat :=
  free ← try_lock;
  if negb (free : bool) then mret 0%nat else
  after ← turn (gets (λ d, mr_logged (m_monitor d)));
  lines ← turn (gets (unlogged after));
  match last lines with
  | None => mret 0%nat
  | Some l => write_lines lines;; commits;; turn (advance_cursor (al_seq l));; mret (length lines)
  end.
(** [logAlerts]; the fuel bounds the batches. *)
Fixpoint logAlerts (n : nat) : MP unit :=
  match n with
  | O => mret tt
  | S n => r ← attempt_of logBatch;
      match r with Ok k => if (k <? batch)%nat then mret tt else logAlerts n | Err _ => mret tt end
  end.
End Monitor.
