(* ===== verification/MonitorSpec.v ===== *)
(** * The classification's table: what each class rests on, and the answers that fail for every version. *)

From stdpp Require Import pretty sorting.
From S2P Require Import Prelude Times Json Classify Monitor.

Definition provider_text (p : provider) : string := match p with KV => "kv" | Transit => "transit" | OtherProvider s => s end.
Definition known_provider (p : provider) : Prop := p = KV ∨ p = Transit.
(** The reasons of an answer that fails whatever the version. *)
Definition answer_reasons : list reason := [Denied; Absent; Unavailable; Unreachable; Unreadable].

Lemma status_reason_in a : statusReason a = RNone ∨ statusReason a ∈ answer_reasons.
Proof. unfold statusReason. repeat case_match; try (by left); right; by apply (bool_decide_unpack _). Qed.
Lemma status_reason_none a : statusReason a = RNone → a_unreachable a = false ∧ a_status a = 200.
Proof.
  unfold statusReason. destruct (a_unreachable a); [done|]. repeat case_match; try done.
  match goal with H : negb _ = false |- _ => rewrite negb_false_iff, Z.eqb_eq in H end. done.
Qed.

(** ** Every class and reason is a row of the schema's table *)

Lemma kv_row_fits d current oldest date e :
  let r := kv_row d current oldest date e in dependency_reason "kv" (r_class r) (r_reason r) = true.
Proof. unfold kv_row. repeat case_match; simplify_eq; done. Qed.
Lemma transit_row_fits d data created :
  let r := transit_row d data created in dependency_reason "transit" (r_class r) (r_reason r) = true.
Proof. unfold transit_row. repeat case_match; simplify_eq; done. Qed.
Lemma unknown_fits p r : r ∈ answer_reasons → dependency_reason p Unknown r = true.
Proof. unfold answer_reasons. intros H. repeat (apply elem_of_cons in H as [->|H]; [done|]). by apply elem_of_nil in H. Qed.
Lemma classify_fits d a : known_provider (d_provider d) →
  dependency_reason (provider_text (d_provider d)) (r_class (Classify d a)) (r_reason (Classify d a)) = true.
Proof.
  intros Hp. unfold Classify. destruct (d_version d <? 1); [done|]. case_bool_decide as Hs; simpl.
  - destruct Hp as [-> | ->]; simpl.
    + unfold classifyKV. destruct (decodeKV (a_body a)) as [data|]; simpl; [|done].
      destruct (match kv_versions data !! _ with Some raw => _ | None => _ end) as [e|]; simpl; [apply kv_row_fits|done].
    + unfold classifyTransit. destruct (decodeTransit (a_body a)) as [data|]; simpl; [|done].
      destruct (match tr_keys data !! _ with Some raw => _ | None => _ end) as [e|]; simpl; [apply transit_row_fits|done].
  - destruct (status_reason_in a); [done|]. by apply unknown_fits.
Qed.

(** ** Lost rests on evidence *)

Lemma classify_known d a r : Classify d a = r → r_class r ≠ Unknown →
  1 ≤ d_version d ∧ a_unreachable a = false ∧ a_status a = 200 ∧
  ∃ r0, r = dated (default zero_time (ParseDate (a_date a))) r0 ∧
    match d_provider d with
    | KV => classifyKV d (a_body a) (default zero_time (ParseDate (a_date a))) = Some r0
    | Transit => classifyTransit d (a_body a) = Some r0
    | OtherProvider _ => False
    end.
Proof.
  intros <-. unfold Classify. destruct (Z.ltb_spec (d_version d) 1); [done|]. case_bool_decide as Hs; simpl; [|done].
  apply status_reason_none in Hs as [Hu Hs]. intros Hc. split_and!; [done..|].
  destruct (d_provider d); [destruct (classifyKV _ _ _) as [r0|]|destruct (classifyTransit _ _) as [r0|]|]; try done; by exists r0.
Qed.
Lemma kv_lost d body date r : classifyKV d body date = Some r → r_class r = Lost →
  ∃ data, decodeKV body = Some data ∧
    ((r_reason r = Destroyed ∧ ∃ raw e, kv_versions data !! version_key (d_version d) = Some raw ∧ decode_entry raw = Some e ∧ e_destroyed e = Some true)
     ∨ (r_reason r = Pruned ∧ 0 < kv_oldest data ∧ d_version d < kv_oldest data)).
Proof.
  unfold classifyKV. intros (data & Hdata & (e & He & [= <-])%bind_Some)%bind_Some Hl. exists data. split; [done|].
  unfold kv_row in *. destruct e as [[[[destroyed text] deletion] created]|].
  - destruct (kv_versions data !! _) as [raw|] eqn:Hraw; [|done]. apply fmap_Some in He as (? & He & [= <-]).
    unfold read_entry in He. apply bind_Some in He as (e & He & Hx). apply bind_Some in Hx as (de & Hde & Hx).
    apply bind_Some in Hx as (? & _ & Hx). apply bind_Some in Hx as (? & _ & [= <- <- <- <-]).
    destruct de; [left; split; [done|by exists raw, e]|].
    destruct ((0 <? kv_oldest data) && (d_version d <? kv_oldest data)) eqn:Ho; [|by repeat case_match; simplify_eq].
    right. apply andb_prop in Ho as [?%Z.ltb_lt ?%Z.ltb_lt]. done.
  - destruct ((0 <? kv_oldest data) && (d_version d <? kv_oldest data)) eqn:Ho; [|done].
    right. apply andb_prop in Ho as [?%Z.ltb_lt ?%Z.ltb_lt]. done.
Qed.
Lemma transit_lost d body r : classifyTransit d body = Some r → r_class r = Lost →
  ∃ data raw secs available, decodeTransit body = Some data ∧ tr_keys data !! version_key (d_version d) = Some raw
    ∧ listed_at raw = Some secs ∧ (IsZero (d_created d) = false → secs = d_created d) ∧ tr_soft data = Some (VBool false)
    ∧ tr_available data = Some available ∧ d_version d < available ∧ r_reason r = Trimmed.
Proof.
  unfold classifyTransit. intros (data & Hdata & (e & He & [= <-])%bind_Some)%bind_Some Hl.
  unfold transit_row in *. destruct e as [secs|]; [|repeat case_match; simplify_eq; done].
  destruct (tr_keys data !! _) as [raw|] eqn:Hraw; [|done]. apply fmap_Some in He as (? & He & [= <-]).
  destruct (negb (IsZero (d_created d)) && negb (secs =? d_created d)) eqn:Hid; [done|].
  destruct (soft_false (tr_soft data)) eqn:Hsoft; [|done]. simpl in *.
  destruct (tr_available data) as [av|] eqn:Hav; [|done]. destruct (tr_decryption data) as [de|]; [|done].
  destruct (tr_latest data) as [la|]; [|done]. destruct (la <? d_version d); [done|].
  destruct ((0 <? av) && (d_version d <? av)) eqn:Hb; [|by destruct (d_version d <? de)].
  apply andb_prop in Hb as [_ ?%Z.ltb_lt]. exists data, raw, secs, av. split_and!; try done.
  - intros Hz. rewrite Hz in Hid. simpl in Hid. apply negb_false_iff, Z.eqb_eq in Hid. done.
  - destruct (tr_soft data) as [[]|]; try done. by destruct b.
Qed.

(** ** An answer that fails for every version *)

Lemma version_key_inj x y : 0 ≤ x → 0 ≤ y → version_key x = version_key y → x = y.
Proof. unfold version_key. intros ? ? H%(inj pretty). lia. Qed.
(** A version from [from] on that a metadata map does not list. *)
Lemma unlisted_version {A} (m : gmap string A) from : 0 ≤ from → ∃ v, from ≤ v ∧ m !! version_key v = None.
Proof.
  intros Hf. destruct (decide (Forall (λ n, is_Some (m !! version_key (from + Z.of_nat n))) (seq 0 (S (size m))))) as [Hall|Hnot].
  - exfalso. set (keys := (λ n, version_key (from + Z.of_nat n)) <$> seq 0 (S (size m))).
    assert (Hnd : NoDup keys).
    { apply NoDup_fmap_2_strong; [|apply NoDup_seq]. intros x y _ _ H. apply version_key_inj in H; lia. }
    assert (Hsub : list_to_set keys ⊆ (dom m : gset string)).
    { intros k. rewrite elem_of_list_to_set. intros (n & -> & Hn)%list_elem_of_fmap. rewrite Forall_forall in Hall. apply elem_of_dom, Hall, Hn. }
    apply subseteq_size in Hsub. rewrite size_list_to_set, size_dom in Hsub by done. unfold keys in Hsub. rewrite length_fmap, length_seq in Hsub. lia.
  - apply not_Forall_Exists in Hnot; [|apply _]. apply Exists_exists in Hnot as (n & _ & Hn). exists (from + Z.of_nat n).
    split; [lia|by apply eq_None_not_Some].
Qed.
Lemma answer_fails d a : known_provider (d_provider d) → 1 ≤ d_version d → AnswerReason (d_provider d) a ≠ RNone →
  r_class (Classify d a) = Unknown ∧ r_reason (Classify d a) = AnswerReason (d_provider d) a.
Proof.
  intros Hp Hv. unfold AnswerReason, Classify. destruct (Z.ltb_spec (d_version d) 1); [lia|].
  case_bool_decide as Hs; simpl; [|done]. destruct Hp as [-> | ->].
  - unfold classifyKV. by destruct (decodeKV (a_body a)); simpl.
  - unfold classifyTransit. by destruct (decodeTransit (a_body a)); simpl.
Qed.
Lemma answer_passes p a : known_provider p → AnswerReason p a = RNone →
  ∃ v, 1 ≤ v ∧ r_reason (Classify (ADependency p "" v zero_time) a) ∉ answer_reasons.
Proof.
  intros Hp. unfold AnswerReason. case_bool_decide as Hs; simpl; [|done]. destruct Hp as [-> | ->]; case_bool_decide as Hd; try done; intros _.
  - destruct Hd as [data Hdata]. destruct (unlisted_version (kv_versions data) (Z.max 1 (kv_oldest data))) as (v & Hv & Hl); [lia|].
    exists v. split; [lia|]. unfold Classify. simpl. destruct (Z.ltb_spec v 1); [lia|]. rewrite bool_decide_true by done. simpl.
    unfold classifyKV. rewrite Hdata. simpl. rewrite Hl. simpl. unfold kv_row. simpl. destruct (Z.ltb_spec v (kv_oldest data)); [lia|].
    rewrite andb_false_r. simpl. by apply (bool_decide_unpack _).
  - destruct Hd as [data Hdata]. destruct (unlisted_version (tr_keys data) 1) as (v & Hv & Hl); [lia|].
    exists v. split; [lia|]. unfold Classify. simpl. destruct (Z.ltb_spec v 1); [lia|]. rewrite bool_decide_true by done. simpl.
    unfold classifyTransit. rewrite Hdata. simpl. rewrite Hl. simpl. unfold transit_row. simpl.
    repeat case_match; simplify_eq; by apply (bool_decide_unpack _).
Qed.

(** ** The monitor's records: what each transaction leaves, and the invariant of its tables. *)

(** ** Alerts, numbered from a sequence *)

Fixpoint numbered (f : Z → kind * list string → alert) (seq : Z) (l : list (kind * list string)) : list alert :=
  match l with [] => [] | a :: l => f (seq + 1) a :: numbered f (seq + 1) l end.
Definition alert_of (dep : string) (s : status) (from at_ answer : Z) (ep : string) (seq : Z) (ka : kind * list string) : alert :=
  Alert seq ka.1 (Some dep) (Some (st_class s)) (st_reason s) ka.2
    (if bool_decide (ka.1 = KindDeletion) then kept (st_observed s) else zero_time) from answer ep at_.
Lemma numbered_length f seq l : length (numbered f seq l) = length l.
Proof. revert seq. induction l; intros; simpl; auto. Qed.
Lemma numbered_elem f seq l a : a ∈ numbered f seq l → ∃ n ka, seq < n ∧ n ≤ seq + Z.of_nat (length l) ∧ ka ∈ l ∧ a = f n ka.
Proof.
  revert seq. induction l as [|x l IH]; intros seq; simpl; [by intros ?%elem_of_nil|].
  intros [->|H]%elem_of_cons; [exists (seq + 1), x; split_and!; [lia..|by left|done]|].
  apply IH in H as (n & ka & ? & ? & ? & ->). exists n, ka. split_and!; [lia..|by right|done].
Qed.
Lemma numbered_concat {B} f seq l (g : alert → list B) (h : kind * list string → list B) :
  (∀ n ka, g (f n ka) = h ka) → concat (g <$> numbered f seq l) = concat (h <$> l).
Proof. intros Hg. revert seq. induction l as [|x l IH]; intros seq; simpl; [done|]. by rewrite Hg, IH. Qed.
Lemma numbered_filter f seq l (P : alert → Prop) `{!∀ x, Decision (P x)} (Q : kind * list string → Prop) `{!∀ x, Decision (Q x)} :
  (∀ n ka, P (f n ka) ↔ Q ka) → ∀ B (g : alert → B) (h : kind * list string → B), (∀ n ka, g (f n ka) = h ka) →
  g <$> filter P (numbered f seq l) = h <$> filter Q l.
Proof.
  intros HPQ B g h Hg. revert seq. induction l as [|x l IH]; intros seq; simpl; [done|].
  rewrite !filter_cons. destruct (decide (Q x)) as [Hq|Hq].
  - rewrite (decide_True (P:=P _)) by by apply HPQ. simpl. by rewrite Hg, IH.
  - rewrite (decide_False (P:=P _)) by by rewrite HPQ. done.
Qed.

Section MonitorSpec.
Variable tick : Z → Z.
Variable t : timings.

Definition now_of (d : mdb) : Z := kept (tick (m_clock d)).
Lemma clock_ok d c d' : clock tick d = Ok (c, d') ↔ c = now_of d ∧ d' = set_clock c d.
Proof.
  unfold clock. split; [intros H; m_inv; done|]. intros [-> ->].
  apply bind_ok. eexists _, _. rewrite gets_ok. split; [done|]. apply bind_ok. eexists tt, _. rewrite modify_ok. split; [done|].
  by apply ret_ok.
Qed.
Lemma progress_ok pass d u d' : progress tick pass d = Ok (u, d') ↔
  d' = set_monitor (let r := m_monitor d in MonitorRow (Z.max (mr_progress r) (now_of d))
         (if pass then Some (greatest (now_of d) (mr_pass r)) else mr_pass r) (mr_stalled r) (mr_logged r)) (set_clock (now_of d) d).
Proof.
  unfold progress. rewrite bind_ok. setoid_rewrite clock_ok. split.
  - intros (? & ? & [-> ->] & <-%modify_ok). done.
  - intros ->. eexists _, _. split; [done|]. by apply modify_ok.
Qed.
Lemma check_ok c d u d' : check c d = Ok (u, d') ↔ c = None ∧ d = d'.
Proof. unfold check. rewrite reject_ok. destruct c; simpl; naive_solver. Qed.

Definition with_alerts (l : list alert) (d : mdb) : mdb :=
  Mdb (m_epoch d) (m_clock d) (m_statuses d) (m_deps d) (m_monitor d) (m_alerts d ++ l) (m_seq d + Z.of_nat (length l)).
Lemma insert_alerts_ok dep i s from at_ answer l d u d' :
  insert_alerts dep i s from at_ answer l d = Ok (u, d') ↔
  d' = with_alerts (numbered (alert_of dep s from at_ answer (m_epoch d)) (m_seq d) l) d
  ∧ Forall (λ ka, alert_checks d i ka.1 s ka.2 (if bool_decide (ka.1 = KindDeletion) then kept (st_observed s) else zero_time) = None) l.
Proof.
  revert d. induction l as [|ka l IH]; intros d; simpl.
  - rewrite ret_ok. unfold with_alerts. simpl. rewrite app_nil_r, Z.add_0_r. destruct d, u; simpl.
    split; [intros [_ <-]; split; [done|constructor]|by intros [-> _]].
  - rewrite bind_ok. unfold insert_alert. setoid_rewrite bind_ok. setoid_rewrite bind_ok. setoid_rewrite gets_ok. setoid_rewrite check_ok.
    setoid_rewrite modify_ok. rewrite Forall_cons. split.
    + intros (? & ? & (? & ? & [<- <-] & ? & ? & [Hc <-] & <-) & [-> Hl]%IH). split; [|split; [done|exact Hl]].
      unfold with_alerts. simpl. rewrite numbered_length. f_equal; [by rewrite <- (assoc_L (++))|lia].
    + intros [-> [Hc Hl]]. eexists tt, _. split; [eexists _, _; split; [done|]; eexists tt, _; split; [by split|done]|].
      apply IH. split; [|exact Hl]. unfold with_alerts. simpl. rewrite numbered_length. f_equal; [by rewrite <- (assoc_L (++))|lia].
Qed.

(** A record, in full. *)
Record recorded (dep : string) (from : Z) (r : Result) (d : mdb) (b : bool) (d' : mdb) (row : status_row) (s : status)
    (l : list (kind * list string)) : Prop := {
  rd_row : m_statuses d !! dep = Some row;
  rd_moves : ∃ kinds, transition (sr_status row) r (now_of d) t = (s, kinds) ∧ l = raised dep (sr_identity row) s kinds d;
  rd_checks : status_checks (StatusRow (sr_identity row) (kept_status (with_warning (deletion_names dep (sr_identity row) s d) s)) from
    (now_of d) (r_date r)) = None;
  rd_alerts : Forall (λ ka, alert_checks d (sr_identity row) ka.1 s ka.2
    (if bool_decide (ka.1 = KindDeletion) then kept (st_observed s) else zero_time) = None) l;
  rd_raised : b = negb (bool_decide (l = []));
  rd_store : d' =
    let at_ := now_of d in
    let end_ := kept (tick at_) in
    let r0 := m_monitor d in
    Mdb (m_epoch d) end_
      (<[dep := StatusRow (sr_identity row) (kept_status (with_warning (deletion_names dep (sr_identity row) s d) s)) from at_ (r_date r)]> (m_statuses d))
      (m_deps d) (MonitorRow (Z.max (mr_progress r0) end_) (mr_pass r0) (mr_stalled r0) (mr_logged r0))
      (m_alerts d ++ numbered (alert_of dep s from at_ (r_date r) (m_epoch d)) (m_seq d) l) (m_seq d + Z.of_nat (length l)) }.
Lemma record_ok dep from r d b d' :
  record tick t dep from r d = Ok (b, d') ↔ ∃ row s l, recorded dep from r d b d' row s l.
Proof.
  unfold record. split.
  - intros H. apply bind_ok in H as (row & d1 & [Hrow <-]%getsOr_ok & H). apply bind_ok in H as (at_ & d2 & [-> ->]%clock_ok & H).
    destruct (transition _ _ _ _) as [s kinds] eqn:Ht.
    apply bind_ok in H as (names & d3 & [<- <-]%gets_ok & H). apply bind_ok in H as (l & d4 & [<- <-]%gets_ok & H).
    apply bind_ok in H as (? & d5 & [Hc <-]%check_ok & H). apply bind_ok in H as (? & d6 & <-%modify_ok & H).
    apply bind_ok in H as (? & d7 & [-> Hl]%insert_alerts_ok & H). apply bind_ok in H as (? & d8 & ->%progress_ok & [<- <-]%ret_ok).
    exists row, s, (raised dep (sr_identity row) s kinds d). split; [done|by exists kinds|exact Hc|exact Hl|done|].
    unfold with_alerts, set_monitor, set_clock, now_of. simpl. by rewrite numbered_length.
  - intros (row & s & l & [Hrow (kinds & Ht & ->) Hc Hl -> ->]).
    apply bind_ok. eexists _, _. rewrite getsOr_ok. split; [done|]. apply bind_ok. eexists _, _. rewrite clock_ok. split; [done|].
    rewrite Ht. apply bind_ok. eexists _, _. rewrite gets_ok. split; [done|]. apply bind_ok. eexists _, _. rewrite gets_ok. split; [done|].
    apply bind_ok. eexists tt, _. rewrite check_ok. split; [by split|]. apply bind_ok. eexists tt, _. rewrite modify_ok. split; [done|].
    apply bind_ok. eexists tt, _. rewrite insert_alerts_ok. split; [by split|]. apply bind_ok. eexists tt, _. rewrite progress_ok. split; [done|].
    apply ret_ok. split; [done|]. unfold with_alerts, set_monitor, set_clock, now_of. simpl. by rewrite numbered_length.
Qed.

(** ** [transition], by the class it records *)

Definition anchor (s : status) : Z := if IsZero (st_persistent s) then st_since s else st_persistent s.
Definition unknown (s : status) : bool := bool_decide (st_class s = Unknown).
Definition persistent_of (l : list kind) : list kind := filter (λ k, k = KindPersistent) l.
Lemma transition_fields old r at_ s kinds : transition old r at_ t = (s, kinds) →
  st_class s = r_class r ∧ st_reason s = r_reason r ∧ st_warned s = st_warned old
  ∧ st_observed s = (if bool_decide (r_reason r = DeletionScheduled) then r_deletion r else zero_time)
  ∧ KindDeletion ∉ kinds ∧ KindStalled ∉ kinds ∧ NoDup kinds.
Proof.
  unfold transition. intros [= <- <-]. simpl. split_and!; try done;
    repeat case_match; simpl; by apply (bool_decide_unpack _).
Qed.
Lemma transition_unknown old r at_ s kinds before : transition old r at_ t = (s, kinds) → r_class r = Unknown →
  before = (if unknown old then anchor old else at_) →
  st_since s = (if unknown old then st_since old else at_)
  ∧ st_persistent s = (if before + t_persistent t <=? at_ then at_ else if unknown old then st_persistent old else zero_time)
  ∧ persistent_of kinds = if before + t_persistent t <=? at_ then [KindPersistent] else [].
Proof.
  unfold transition, unknown, anchor, persistent_of. intros [= <- <-] Hc ->. rewrite Hc. simpl.
  destruct (decide (st_class old = Unknown)) as [Ho|Ho];
    [rewrite !(bool_decide_true (st_class old = Unknown)) by done|rewrite !(bool_decide_false (st_class old = Unknown)) by done]; simpl;
    split_and!; try done; by repeat case_match.
Qed.
Lemma transition_known old r at_ s kinds : transition old r at_ t = (s, kinds) → r_class r ≠ Unknown →
  st_since s = zero_time ∧ st_persistent s = zero_time ∧ persistent_of kinds = [].
Proof.
  unfold transition, persistent_of. intros [= <- <-] Hc. simpl. rewrite !(bool_decide_false (r_class r = Unknown)) by done. simpl.
  split_and!; try done. by repeat case_match.
Qed.
End MonitorSpec.
