(* ===== verification/MonitorInv.v ===== *)
(** * The monitor's tables under every transaction of every instance: the steps and their invariant. *)

From stdpp Require Import sorting relations.
From S2P Require Import Prelude Times TimesSpec Json Classify Monitor MonitorSpec.

Lemma kept_idem x : kept (kept x) = kept x.
Proof. unfold kept. Z.to_euclidean_division_equations. lia. Qed.
Lemma kept_le x y : kept x = x → x ≤ y → x ≤ kept y.
Proof. unfold kept. Z.to_euclidean_division_equations. lia. Qed.

Section Spaced.
Variable gap : Z.
Definition spaced : list Z → Prop := StronglySorted (λ x y, x + gap ≤ y).
Lemma spaced_snoc l x : spaced l → Forall (λ y, y + gap ≤ x) l → spaced (l ++ [x]).
Proof.
  unfold spaced. induction 1 as [|y l H IH Hy]; intros Hx; simpl; [repeat constructor|].
  apply Forall_cons in Hx as [Hyx Hx]. constructor; [by apply IH|]. apply Forall_app. split; [done|by repeat constructor].
Qed.
End Spaced.

Section Steps.
Variable tick : Z → Z.
Variable t : timings.
Notation now_of := (now_of tick).

(** One transaction of an instance, publication's writes, and what else changes: the time, the epoch,
    a sequence drawn by a transaction that failed. *)
Inductive mstep : mdb → mdb → Prop :=
| ms_record dep from r b d d' : record tick t dep from r d = Ok (b, d') → mstep d d'
| ms_completed u d d' : completed tick d = Ok (u, d') → mstep d d'
| ms_watchdog b d d' : watchdog_tx tick t d = Ok (b, d') → mstep d d'
| ms_cursor seq u d d' : seq ≤ m_seq d → advance_cursor seq d = Ok (u, d') → mstep d d'
| ms_seed id_ i r began u d d' : seedStatus tick id_ i r began d = Ok (u, d') → mstep d d'
| ms_depend release i u d d' : insertDependency release i d = Ok (u, d') → mstep d d'
| ms_rest ep c n d : c = kept c → m_clock d ≤ c → m_seq d ≤ n →
    mstep d (Mdb ep c (m_statuses d) (m_deps d) (m_monitor d) (m_alerts d) n).

(** The times a dependency's persistent alerts, and the monitor's stalled ones, were recorded at. *)
Definition persistent_times (dep : string) (d : mdb) : list Z :=
  al_recorded <$> filter (λ a, al_dependency a = Some dep ∧ al_kind a = KindPersistent) (m_alerts d).
Definition stalled_times (d : mdb) : list Z := al_recorded <$> filter (λ a, al_kind a = KindStalled) (m_alerts d).

(** An unknown dependency alerted within the time persistence takes, counted from when it became unknown. *)
Definition status_ok (dep : string) (d : mdb) (x : status_row) : Prop :=
  let s := sr_status x in
  sr_recorded x ≤ m_clock d ∧ kept (st_since s) = st_since s ∧ kept (st_persistent s) = st_persistent s ∧
  if unknown s then
    zero_time < st_since s ∧ zero_time < anchor s ∧ anchor s ≤ sr_recorded x ∧ sr_recorded x < anchor s + t_persistent t
    ∧ (st_persistent s = zero_time ∨ st_persistent s ∈ persistent_times dep d) ∧ Forall (λ p, p ≤ anchor s) (persistent_times dep d)
  else True.
Record minv (d : mdb) : Prop := {
  mi_clock : zero_time < m_clock d ∧ kept (m_clock d) = m_clock d;
  mi_seq : StronglySorted Z.lt (al_seq <$> m_alerts d) ∧ Forall (λ a, al_seq a ≤ m_seq d) (m_alerts d);
  mi_logged : mr_logged (m_monitor d) ≤ m_seq d;
  mi_times : Forall (λ a, al_recorded a ≤ m_clock d) (m_alerts d);
  mi_persistent : ∀ dep, spaced (t_persistent t) (persistent_times dep d);
  mi_status : map_Forall (λ dep x, status_ok dep d x) (m_statuses d);
  mi_warned : ∀ dep deletion, NoDup (warned_releases d dep deletion);
  mi_stalled : spaced (stall t) (stalled_times d)
    ∧ ∀ p, p ∈ stalled_times d → ∃ z, mr_stalled (m_monitor d) = Some z ∧ p ≤ z }.

Lemma list_filter_false {A} (l : list A) : filter (λ _, False) l = [].
Proof. induction l as [|x l IH]; [done|]. rewrite filter_cons_False by tauto. exact IH. Qed.
Lemma list_filter_none {A} (l : list A) (P : A → Prop) `{!∀ x, Decision (P x)} : (∀ x, x ∈ l → ¬ P x) → filter P l = [].
Proof.
  induction l as [|x l IH]; intros Hl; [done|].
  rewrite filter_cons_False by (apply Hl; by left). apply IH. intros y Hy. apply Hl. by right.
Qed.
Lemma sequenced f seq l : (∀ n ka, al_seq (f n ka) = n) → StronglySorted Z.lt (al_seq <$> numbered f seq l)
  ∧ Forall (λ a, seq < al_seq a ∧ al_seq a ≤ seq + Z.of_nat (length l)) (numbered f seq l).
Proof.
  intros Hf. revert seq. induction l as [|x l IH]; intros seq; simpl; [repeat constructor|].
  destruct (IH (seq + 1)) as [Hs Hl]. split.
  - constructor; [done|]. rewrite Forall_fmap. eapply Forall_impl; [exact Hl|]. intros a Ha. simpl in *. rewrite Hf. lia.
  - constructor; [rewrite Hf; lia|]. eapply Forall_impl; [exact Hl|]. intros a Ha. simpl in *. lia.
Qed.
Lemma strongly_app {A} (R : A → A → Prop) l k :
  StronglySorted R l → StronglySorted R k → (∀ x y, x ∈ l → y ∈ k → R x y) → StronglySorted R (l ++ k).
Proof.
  induction 1 as [|x l H IH Hx]; simpl; [done|]. intros Hk Hlk. constructor; [apply IH; [done|]; intros; apply Hlk; [by right|done]|].
  rewrite Forall_app. split; [done|]. apply Forall_forall. intros y Hy. apply Hlk; [by left|done].
Qed.

(** ** A record *)

Section Record.
Context (dep : string) (from : Z) (r : Result) (d : mdb) (b : bool) (d' : mdb) (row : status_row) (s : status) (l : list (kind * list string)).
Hypothesis Htick : ∀ x, x ≤ tick x.
Hypothesis Hrd : recorded tick t dep from r d b d' row s l.
Hypothesis Hi : minv d.
Let new_alerts := numbered (alert_of dep s from (now_of d) (r_date r) (m_epoch d)) (m_seq d) l.

Lemma now_later : m_clock d ≤ now_of d ∧ kept (now_of d) = now_of d.
Proof.
  unfold now_of. split; [|apply kept_idem]. apply kept_le; [apply (mi_clock d Hi)|apply Htick].
Qed.
Lemma end_later : now_of d ≤ m_clock d' ∧ kept (m_clock d') = m_clock d'.
Proof. rewrite (rd_store _ _ _ _ _ _ _ _ _ _ _ Hrd). simpl. split; [apply kept_le; [apply now_later|apply Htick]|apply kept_idem]. Qed.
Lemma record_alerts : m_alerts d' = m_alerts d ++ new_alerts.
Proof. by rewrite (rd_store _ _ _ _ _ _ _ _ _ _ _ Hrd). Qed.

Lemma record_persistent dep' : persistent_times dep' d' = persistent_times dep' d ++
  if bool_decide (dep' = dep) then (λ _, now_of d) <$> filter (λ ka, ka.1 = KindPersistent) l else [].
Proof.
  unfold persistent_times. rewrite record_alerts, filter_app, fmap_app. f_equal. unfold new_alerts.
  case_bool_decide as Hd.
  - subst. apply (numbered_filter _ _ _ _ (λ ka, ka.1 = KindPersistent)); [|done].
    intros n ka. simpl. split; [by intros [_ ?]|by intros ?].
  - rewrite (numbered_filter _ _ _ _ (λ ka, False)) with (h:=λ _, now_of d); [by rewrite list_filter_false| |done].
    intros n ka. simpl. split; [by intros [[= <-] _]|done].
Qed.
Lemma record_stalled : stalled_times d' = stalled_times d.
Proof.
  unfold stalled_times. rewrite record_alerts, filter_app, fmap_app. unfold new_alerts.
  destruct (rd_moves _ _ _ _ _ _ _ _ _ _ _ Hrd) as (kinds & Ht & Hl).
  apply transition_fields in Ht as (_ & _ & _ & _ & _ & Hk & _).
  rewrite (numbered_filter _ _ _ _ (λ ka, ka.1 = KindStalled)) with (h:=λ _, now_of d); [|done..].
  rewrite (list_filter_none l); [by rewrite app_nil_r|]. intros [k rs] Hin Heq. simpl in Heq. subst k l.
  unfold raised in Hin. apply elem_of_app in Hin as [(k & [= <- _] & Hk')%list_elem_of_fmap|Hin]; [done|].
  case_bool_decide; [by apply elem_of_nil in Hin|]. by apply list_elem_of_singleton in Hin.
Qed.
Lemma record_warned dep' deletion : warned_releases d' dep' deletion = warned_releases d dep' deletion ++
  if bool_decide (dep' = dep ∧ deletion = kept (st_observed s)) then deletion_names dep (sr_identity row) s d else [].
Proof.
  unfold warned_releases. rewrite record_alerts, filter_app, fmap_app, concat_app. f_equal. unfold new_alerts.
  destruct (rd_moves _ _ _ _ _ _ _ _ _ _ _ Hrd) as (kinds & Ht & Hl).
  apply transition_fields in Ht as (_ & _ & _ & _ & Hk & _).
  case_bool_decide as Hd.
  - destruct Hd as [-> ->]. rewrite (numbered_filter _ _ _ _ (λ ka, ka.1 = KindDeletion)) with (h:=snd); [| |done].
    + rewrite Hl. unfold raised. rewrite filter_app, fmap_app, concat_app, (list_filter_none (_ <$> kinds)).
      * case_bool_decide as Hn; [by rewrite Hn|]. rewrite filter_cons_True by done. simpl. by rewrite app_nil_r.
      * intros ka (k & -> & Hk')%list_elem_of_fmap. simpl. by intros ->.
    + intros n ka. simpl. split; [by intros (_ & ? & _)|intros Hka]. by rewrite (bool_decide_true (ka.1 = KindDeletion)).
  - rewrite (numbered_filter _ _ _ _ (λ _, False)) with (h:=snd); [by rewrite list_filter_false| |done].
    intros n ka. simpl. split; [|done]. intros ([= <-] & Hka & Hdel). rewrite bool_decide_true in Hdel by done. by apply Hd.
Qed.

Lemma persistent_raised kinds dep' i x : (λ _, now_of d) <$> filter (λ ka, ka.1 = KindPersistent) (raised dep' i x kinds d)
  = (λ _, now_of d) <$> persistent_of kinds.
Proof.
  unfold raised, persistent_of. rewrite filter_app, fmap_app, (list_filter_none (if bool_decide (deletion_names dep' i x d = []) then [] else _)), app_nil_r.
  - induction kinds as [|k kinds IH]; [done|]. rewrite fmap_cons, !filter_cons. simpl.
    destruct (decide (k = KindPersistent)); [rewrite !fmap_cons; f_equal|]; exact IH.
  - intros ka Hin. case_bool_decide; [by apply elem_of_nil in Hin|]. by apply list_elem_of_singleton in Hin as ->.
Qed.
Hypothesis Hlong : 0 < t_persistent t.
Let at_ := now_of d.
Let before := if unknown (sr_status row) then anchor (sr_status row) else at_.
Lemma before_ok : zero_time < before ∧ before ≤ at_ ∧ kept (st_since (sr_status row)) = st_since (sr_status row)
  ∧ kept (st_persistent (sr_status row)) = st_persistent (sr_status row)
  ∧ (unknown (sr_status row) = true → zero_time < st_since (sr_status row)
     ∧ (st_persistent (sr_status row) = zero_time ∨ st_persistent (sr_status row) ∈ persistent_times dep d))
  ∧ Forall (λ p, p ≤ before) (persistent_times dep d).
Proof.
  pose proof (mi_status _ Hi _ _ (rd_row _ _ _ _ _ _ _ _ _ _ _ Hrd)) as (Hr & Hs & Hp & Hu).
  pose proof now_later as [Hn _]. pose proof (mi_clock _ Hi) as [Hz _]. unfold before, at_.
  destruct (unknown (sr_status row)).
  - destruct Hu as (? & ? & ? & ? & ? & ?). split_and!; try done; lia.
  - split_and!; try done; [lia..|]. apply Forall_forall. intros p (a & -> & [_ Ha]%list_elem_of_filter)%list_elem_of_fmap.
    pose proof (mi_times _ Hi) as Ht. rewrite Forall_forall in Ht. specialize (Ht _ Ha). simpl in Ht. lia.
Qed.
(** The new alert of persistence, and the row it leaves. *)
Lemma record_spell :
  (λ _, at_) <$> filter (λ ka, ka.1 = KindPersistent) l = (if unknown s && (before + t_persistent t <=? at_) then [at_] else [])
  ∧ kept (st_since s) = st_since s ∧ kept (st_persistent s) = st_persistent s
  ∧ (unknown s = true → zero_time < st_since s
     ∧ st_persistent s = (if before + t_persistent t <=? at_ then at_ else if unknown (sr_status row) then st_persistent (sr_status row) else zero_time)
     ∧ anchor s = if before + t_persistent t <=? at_ then at_ else before).
Proof.
  destruct (rd_moves _ _ _ _ _ _ _ _ _ _ _ Hrd) as (kinds & Ht & Hl). unfold at_. rewrite Hl, persistent_raised. clear Hl.
  pose proof before_ok as (Hz & Hb & Hs & Hp & Hsi0 & _). pose proof now_later as [_ Hk].
  pose proof (transition_fields _ _ _ _ _ _ Ht) as (Hc & _). assert (Hu' : unknown s = bool_decide (r_class r = Unknown)) by (unfold unknown; by rewrite Hc). rewrite !Hu'.
  case_bool_decide as Hu; simpl.
  - apply (transition_unknown _ _ _ _ _ _ before) in Ht as (Hsi & Hpe & Hke); [|done..].
    split_and!.
    + rewrite Hke. by destruct (before + t_persistent t <=? now_of d).
    + rewrite Hsi. by destruct (unknown (sr_status row)).
    + rewrite Hpe. destruct (before + t_persistent t <=? now_of d); [done|]. by destruct (unknown (sr_status row)).
    + intros _. split; [|split; [exact Hpe|]].
      { rewrite Hsi. destruct (unknown (sr_status row)); [by apply Hsi0|]. unfold at_ in *. lia. }
      unfold anchor. rewrite Hpe, Hsi. destruct (before + t_persistent t <=? now_of d).
      * unfold IsZero. destruct (Z.eqb_spec (now_of d) zero_time); [unfold at_ in *; lia|done].
      * unfold before, anchor. by destruct (unknown (sr_status row)).
  - apply transition_known in Ht as (-> & -> & ->); [|done]. done.
Qed.
Lemma record_status : status_ok dep d' (StatusRow (sr_identity row) (kept_status (with_warning (deletion_names dep (sr_identity row) s d) s)) from at_ (r_date r)).
Proof.
  pose proof record_spell as (Hnew & Hs & Hp & Ha). pose proof before_ok as (Hz & Hb & _ & _ & Hold & Hall). pose proof end_later as [He _].
  set (s' := kept_status _).
  assert (Hs' : st_class s' = st_class s ∧ st_since s' = st_since s ∧ st_persistent s' = st_persistent s).
  { unfold s', with_warning. by case_bool_decide; simpl; rewrite Hs, Hp. }
  destruct Hs' as (Hc' & Hsi' & Hpe'). clearbody s'. split; [exact He|]. simpl. rewrite Hsi', Hpe'. split; [done|]. split; [done|].
  unfold unknown in *. rewrite Hc'. destruct (bool_decide (st_class s = Unknown)) eqn:Hu; [|done].
  assert (Han : anchor s' = anchor s) by (unfold anchor; by rewrite Hsi', Hpe'). destruct (Ha eq_refl) as (Hsp & Hpe & Hanc). rewrite Han, Hanc, Hpe.
  rewrite record_persistent, (bool_decide_true (dep = dep)) by done. fold at_. rewrite Hnew. simpl.
  destruct (Z.leb_spec (before + t_persistent t) at_); (split_and!; [lia..| |]); try (rewrite Forall_app; (split; [|by repeat constructor]);
    eapply Forall_impl; try exact Hall; intros p ?; simpl in *; lia); rewrite elem_of_app.
  - right. right. by left.
  - destruct (bool_decide (st_class (sr_status row) = Unknown)); [|by left]. destruct (Hold eq_refl) as (_ & [?|?]); [by left|by right; left].
Qed.
Lemma record_inv : minv d'.
Proof.
  pose proof record_spell as (Hnew & _). pose proof before_ok as (Hz & Hb & _ & _ & _ & Hall). pose proof end_later as [He Hke].
  pose proof now_later as [Hn _]. pose proof (sequenced (alert_of dep s from (now_of d) (r_date r) (m_epoch d)) (m_seq d) l ltac:(done)) as [Hsq Hrg].
  assert (Hseq : m_seq d' = m_seq d + Z.of_nat (length l)) by by rewrite (rd_store _ _ _ _ _ _ _ _ _ _ _ Hrd).
  assert (Hmon : mr_logged (m_monitor d') = mr_logged (m_monitor d) ∧ mr_stalled (m_monitor d') = mr_stalled (m_monitor d))
    by by rewrite (rd_store _ _ _ _ _ _ _ _ _ _ _ Hrd).
  destruct Hi as [Hc [Hs1 Hs2] Hl Ht Hp Hst Hw [Hd1 Hd2]]. destruct Hmon as [Hm1 Hm2]. split.
  - split; [lia|exact Hke].
  - rewrite record_alerts, fmap_app, Forall_app, Hseq. split; [|split].
    + apply strongly_app; [done..|]. intros x y (a & -> & Ha)%list_elem_of_fmap (a' & -> & Ha')%list_elem_of_fmap.
      rewrite Forall_forall in Hs2, Hrg. specialize (Hs2 _ Ha). specialize (Hrg _ Ha'). simpl in *. lia.
    + eapply Forall_impl; [exact Hs2|]. intros; simpl in *; lia.
    + eapply Forall_impl; [exact Hrg|]. intros; simpl in *; lia.
  - rewrite Hm1, Hseq. lia.
  - rewrite record_alerts, Forall_app. split; [eapply Forall_impl; [exact Ht|]; intros; simpl in *; lia|].
    apply Forall_forall. intros a (n & ka & _ & _ & _ & ->)%numbered_elem. simpl. lia.
  - intros dep'. rewrite record_persistent. case_bool_decide as Hd; [subst|by rewrite app_nil_r].
    fold at_. rewrite Hnew. destruct (_ && _) eqn:Hdue; [|by rewrite app_nil_r].
    apply andb_prop in Hdue as [_ Hdue]. apply spaced_snoc; [done|]. eapply Forall_impl; [exact Hall|]. intros; simpl in *; lia.
  - assert (Hss : m_statuses d' = <[dep := StatusRow (sr_identity row)
        (kept_status (with_warning (deletion_names dep (sr_identity row) s d) s)) from at_ (r_date r)]> (m_statuses d))
      by by rewrite (rd_store _ _ _ _ _ _ _ _ _ _ _ Hrd).
    rewrite Hss. intros dep' x. rewrite lookup_insert_Some. intros [[<- <-]|[Hne Hx]].
    + apply record_status.
    + destruct (Hst _ _ Hx) as (? & ? & ? & Hu). split; [lia|]. split; [done|]. split; [done|].
      rewrite record_persistent, bool_decide_false, app_nil_r by done. exact Hu.
  - intros dep' deletion. rewrite record_warned. case_bool_decide as Hd; [|by rewrite app_nil_r]. destruct Hd as [-> ->].
    apply NoDup_app. split_and!; [done| |].
    + intros x Hx. unfold deletion_names. case_bool_decide; [|by intros ?%elem_of_nil]. unfold unwarned. rewrite list_elem_of_filter. naive_solver.
    + unfold deletion_names. case_bool_decide; [|constructor]. unfold unwarned. apply NoDup_filter, sorted_nodup.
  - rewrite record_stalled, Hm2. done.
Qed.
End Record.

(** ** The other steps *)

Definition later (d d' : mdb) : Prop :=
  m_clock d ≤ m_clock d' ∧ kept (m_clock d') = m_clock d' ∧ m_seq d ≤ m_seq d' ∧ mr_logged (m_monitor d') ≤ m_seq d'.
Lemma same_alerts d d' dep deletion : m_alerts d' = m_alerts d →
  persistent_times dep d' = persistent_times dep d ∧ stalled_times d' = stalled_times d
  ∧ warned_releases d' dep deletion = warned_releases d dep deletion.
Proof. unfold persistent_times, stalled_times, warned_releases. by intros ->. Qed.
(** A step that raises nothing, adding only rows that fit. *)
Lemma quiet_inv d d' :
  minv d → later d d' → m_alerts d' = m_alerts d → mr_stalled (m_monitor d') = mr_stalled (m_monitor d) →
  (∀ dep x, m_statuses d' !! dep = Some x → m_statuses d !! dep = Some x ∨ status_ok dep d' x) → minv d'.
Proof.
  intros [[Hz Hk] [Hs1 Hs2] Hl Ht Hp Hst Hw Hd] (Hc & Hk' & Hq & Hl') Ha Hm Hrows. split.
  - split; [lia|done].
  - rewrite Ha. split; [done|]. eapply Forall_impl; [exact Hs2|]. intros; simpl in *; lia.
  - done.
  - rewrite Ha. eapply Forall_impl; [exact Ht|]. intros; simpl in *; lia.
  - intros dep. by destruct (same_alerts d d' dep 0 Ha) as (-> & _).
  - intros dep x Hx. destruct (Hrows _ _ Hx) as [Hx'|Hx']; [|done]. destruct (Hst _ _ Hx') as (? & ? & ? & Hu).
    split; [lia|]. split; [done|]. split; [done|]. destruct (same_alerts d d' dep 0 Ha) as (-> & _). exact Hu.
  - intros dep deletion. by destruct (same_alerts d d' dep deletion Ha) as (_ & _ & ->).
  - rewrite Hm. by destruct (same_alerts d d' "" 0 Ha) as (_ & -> & _).
Qed.

Hypothesis Htick : ∀ x, x ≤ tick x.
Hypothesis Hlong : 0 < t_persistent t.
Lemma now_of_later d : minv d → m_clock d ≤ now_of d ∧ kept (now_of d) = now_of d.
Proof. intros Hi. by apply now_later. Qed.

Lemma watchdog_ok b d d' : watchdog_tx tick t d = Ok (b, d') ↔
  b = stalled_due t (now_of d) d ∧
  d' = if stalled_due t (now_of d) d then
         Mdb (m_epoch d) (now_of d) (m_statuses d) (m_deps d)
           (MonitorRow (mr_progress (m_monitor d)) (mr_pass (m_monitor d)) (Some (now_of d)) (mr_logged (m_monitor d)))
           (m_alerts d ++ [Alert (m_seq d + 1) KindStalled None None RNone [] zero_time zero_time zero_time (m_epoch d) (now_of d)])
           (m_seq d + 1)
       else set_clock (now_of d) d.
Proof.
  unfold watchdog_tx. rewrite bind_ok. setoid_rewrite clock_ok. setoid_rewrite bind_ok. setoid_rewrite gets_ok. split.
  - intros (? & ? & [-> ->] & due & ? & [Hdue <-] & H). change (stalled_due t (now_of d) (set_clock (now_of d) d)) with (stalled_due t (now_of d) d) in Hdue.
    rewrite Hdue. destruct due; simpl in H; [|by apply ret_ok in H as [<- <-]]. m_inv. done.
  - intros [-> ->]. eexists _, _. split; [done|]. eexists _, _. split; [done|].
    change (stalled_due t (now_of d) (set_clock (now_of d) d)) with (stalled_due t (now_of d) d).
    destruct (stalled_due t (now_of d) d); simpl; [|by apply ret_ok]. m_run.
Qed.
Lemma stalled_inv b d d' : watchdog_tx tick t d = Ok (b, d') → minv d → minv d'.
Proof.
  intros [-> ->]%watchdog_ok Hi. pose proof (now_of_later _ Hi) as [Hn Hk]. destruct (stalled_due _ _ _) eqn:Hdue.
  - destruct Hi as [[Hz _] [Hs1 Hs2] Hl Ht Hp Hst Hw [Hd1 Hd2]]. split; simpl.
    + split; [lia|done].
    + rewrite fmap_app, Forall_app. split; [apply strongly_app; [done|repeat constructor|]|split; [|repeat constructor; simpl; lia]].
      * intros x y (a & -> & Ha)%list_elem_of_fmap ->%list_elem_of_singleton. rewrite Forall_forall in Hs2. specialize (Hs2 _ Ha). simpl in *. lia.
      * eapply Forall_impl; [exact Hs2|]. intros; simpl in *; lia.
    + lia.
    + rewrite Forall_app. split; [|repeat constructor; simpl; lia]. eapply Forall_impl; [exact Ht|]. intros; simpl in *; lia.
    + intros dep. unfold persistent_times. simpl. rewrite filter_app, filter_cons_False by by intros [? ?]. rewrite filter_nil, app_nil_r. apply Hp.
    + intros dep x Hx. destruct (Hst _ _ Hx) as (? & ? & ? & Hu). split; [simpl; lia|]. split; [done|]. split; [done|].
      unfold persistent_times. simpl. rewrite filter_app, filter_cons_False by by intros [? ?]. rewrite filter_nil, app_nil_r. exact Hu.
    + intros dep deletion. unfold warned_releases. simpl. rewrite filter_app, filter_cons_False by by intros [? ?]. rewrite filter_nil, app_nil_r. apply Hw.
    + unfold stalled_times. simpl. rewrite filter_app, fmap_app, filter_cons_True by done. rewrite filter_nil. simpl.
      apply Z.leb_le in Hdue. split.
      * apply spaced_snoc; [done|]. apply Forall_forall. intros p (z & Hz' & ?)%Hd2. rewrite Hz' in Hdue. simpl in Hdue. lia.
      * intros p [(a & -> & [_ Ha]%list_elem_of_filter)%list_elem_of_fmap| ->%list_elem_of_singleton]%elem_of_app;
          eexists; (split; [done|]); [|lia]. rewrite Forall_forall in Ht. specialize (Ht _ Ha). simpl in Ht. lia.
  - eapply quiet_inv; [exact Hi| |done..|by left]. split_and!; [done..|simpl; lia|apply Hi].
Qed.

Lemma mstep_inv d d' : mstep d d' → minv d → minv d'.
Proof.
  intros H Hi. pose proof (mi_logged _ Hi) as Hl.
  assert (Hnow : ∀ d1, m_clock d1 = now_of d → m_seq d1 = m_seq d → mr_logged (m_monitor d1) = mr_logged (m_monitor d) → later d d1).
  { intros d1 Hc Hq Hm. pose proof (now_of_later _ Hi) as [? ?]. unfold later. rewrite Hc, Hq, Hm. done. }
  destruct H as [dep from r b d d' H|u d d' H|b d d' H|seq u d d' Hle H|id_ i r began u d d' H|release i u d d' H|ep c n d Hk Hc Hn].
  - apply record_ok in H as (row & s & l & H). by eapply record_inv.
  - apply progress_ok in H as ->. eapply quiet_inv; [exact Hi|by apply Hnow|done|done|by left].
  - by eapply stalled_inv.
  - unfold advance_cursor in H. m_inv. eapply quiet_inv; [exact Hi| |done|done|by left]. split_and!; simpl; [lia|apply Hi|lia|lia].
  - unfold seedStatus in H. m_inv. match goal with H : clock _ _ = _ |- _ => apply clock_ok in H as [-> ->] end.
    match goal with H : check _ _ = _ |- _ => apply check_ok in H as [_ <-] end.
    if_inv; m_inv; [eapply quiet_inv; [exact Hi|by apply Hnow|done|done|by left]|].
    eapply quiet_inv; [exact Hi|by apply Hnow|done|done|]. intros dep x. simpl. rewrite lookup_insert_Some. intros [[<- <-]|[_ ?]]; [right|by left].
    split; [done|]. split; [done|]. split; [done|]. simpl. done.
  - unfold insertDependency in H. m_inv. eapply quiet_inv; [exact Hi| |done|done|by left]. split_and!; simpl; [lia|apply Hi|lia|lia].
  - eapply quiet_inv; [exact Hi| |done|done|by left]. split_and!; simpl; [lia|done|lia|lia].
Qed.
Lemma msteps_inv d d' : rtc mstep d d' → minv d → minv d'.
Proof. induction 1; eauto using mstep_inv. Qed.
End Steps.

(** ** A classification is always recorded: no check of the monitor's tables refuses its record. *)

Definition answer_date (a : Answer) : Z := default zero_time (ParseDate (a_date a)).
Lemma scheduled_deletion d a : r_reason (Classify d a) = DeletionScheduled →
  r_class (Classify d a) = Retained ∧ answer_date a ≠ zero_time ∧ answer_date a ≤ r_deletion (Classify d a).
Proof.
  intros Hr. destruct (decide (r_class (Classify d a) = Unknown)) as [Hu|Hu].
  { exfalso. destruct (d_provider d) eqn:Hp.
    - pose proof (classify_fits d a) as Hf. rewrite Hr, Hu in Hf. by ospecialize (Hf _); [left|].
    - pose proof (classify_fits d a) as Hf. rewrite Hr, Hu in Hf. by ospecialize (Hf _); [right|].
    - unfold Classify in Hr. rewrite Hp in Hr. destruct (_ <? 1); [done|]. case_bool_decide as Hs; simpl in Hr; [done|].
      destruct (status_reason_in a) as [?|Hin]; [done|]. rewrite Hr in Hin. by apply (bool_decide_pack _) in Hin. }
  destruct (classify_known d a _ eq_refl Hu) as (_ & _ & _ & r0 & He & Hcase). rewrite He in Hr |- *. simpl in *. unfold answer_date in *.
  set (date := default zero_time _) in *. clearbody date. clear Hu. destruct (d_provider d); [| |done].
  - unfold classifyKV in Hcase. apply bind_Some in Hcase as (data & _ & Hcase). apply bind_Some in Hcase as (e & _ & [= <-]).
    unfold kv_row in *. repeat case_match; simplify_eq/=.
    repeat match goal with H : _ || _ = false |- _ => apply orb_false_elim in H as [? ?] end.
    unfold IsZero in *. split; [done|]. split; [by apply Z.eqb_neq|by apply Z.ltb_ge].
  - unfold classifyTransit in Hcase. apply bind_Some in Hcase as (data & _ & Hcase). apply bind_Some in Hcase as (e & _ & [= <-]).
    unfold transit_row in *. repeat case_match; simplify_eq/=.
Qed.

Lemma kinds_fit t old r at_ s kinds k : transition old r at_ t = (s, kinds) → k ∈ kinds → alert_kind_ok k (Some (st_class s)) (st_reason s) = true.
Proof.
  unfold transition. intros [= <- <-]. simpl. rewrite !elem_of_app.
  intros [Hk|[Hk|[Hk|Hk]]]; repeat case_match; try (by apply elem_of_nil in Hk); apply list_elem_of_singleton in Hk as ->;
    repeat match goal with H : _ && _ = true |- _ => apply andb_prop in H as [? ?] end;
    repeat match goal with H : bool_decide _ = true |- _ => apply bool_decide_eq_true in H end; simpl;
    repeat match goal with H : r_class r = _ |- _ => rewrite H end; done.
Qed.

Section Records.
Variable tick : Z → Z.
Variable t : timings.
Hypothesis Htick : ∀ x, x ≤ tick x.
Notation now_of := (now_of tick).

Lemma kept_late x y : zero_time < y → y ≤ x → (second | y) → kept x ≠ zero_time.
Proof. intros Hy Hx [k ->]. unfold kept, zero_time, second in *. Z.to_euclidean_division_equations. lia. Qed.
Lemma answer_date_second a : (second | answer_date a).
Proof.
  unfold answer_date. destruct (ParseDate (a_date a)) as [x|] eqn:H; simpl; [|by exists (-62135596800)].
  apply ParseDate_reads in H as (l & u & _ & _ & ->). by exists u.
Qed.
(** The checks of a row and of the alerts the transition to a classification leaves. *)
Lemma record_runs dep from x a d row :
  minv t d → m_statuses d !! dep = Some row → references d (sr_identity row) ≠ [] → from ≤ now_of d →
  known_provider (d_provider x) → i_provider (sr_identity row) = provider_text (d_provider x) →
  zero_time ≤ answer_date a → ∃ b d', record tick t dep from (Classify x a) d = Ok (b, d').
Proof.
  intros Hi Hrow Href Hfrom Hp Hip Hdate. set (r := Classify x a). destruct (transition (sr_status row) r (now_of d) t) as [s kinds] eqn:Ht.
  pose proof (transition_fields _ _ _ _ _ _ Ht) as (Hc & Hr & _ & Hobs & Hkd & _).
  pose proof (classify_fits x a Hp) as Hfit. fold r in Hfit. rewrite <- Hc, <- Hr, <- Hip in Hfit.
  set (i := sr_identity row) in *. set (names := deletion_names dep i s d).
  pose proof (mi_status _ _ Hi _ _ Hrow) as (Hrec & Hks & Hkp & Hold). pose proof (now_later tick t d Htick Hi) as [Hnow Hkn].
  pose proof (mi_clock _ _ Hi) as [Hz _].
  assert (Hsch : st_reason s = DeletionScheduled → kept (st_observed s) ≠ zero_time ∧ st_class s = Retained).
  { rewrite Hr, Hobs, Hc. intros Hd. rewrite bool_decide_true by done. destruct (scheduled_deletion _ _ Hd) as (Hret & Hne & Hle).
    split; [|exact Hret]. eapply kept_late; [|exact Hle|apply answer_date_second]. unfold r in *. lia. }
  eexists _, _. apply record_ok. exists row, s, (raised dep i s kinds d). split; [done|by exists kinds| | |done|done].
  - fold i names. assert (Hsame : ∀ y, y = kept_status (with_warning names s) →
      st_class y = st_class s ∧ st_reason y = st_reason s ∧ st_since y = kept (st_since s) ∧ st_observed y = kept (st_observed s)).
    { intros y ->. unfold with_warning. destruct (bool_decide (names = [])); done. }
    destruct (Hsame _ eq_refl) as (H1 & H2 & H3 & H4). set (y := kept_status _) in *. clearbody y. unfold status_checks. simpl.
    rewrite H1, H2, Hfit. simpl. rewrite H3, H4.
    destruct (bool_decide (st_reason s = DeletionScheduled) && IsZero (kept (st_observed s))) eqn:Hd.
    { apply andb_prop in Hd as [Hd%bool_decide_eq_true Hd']. unfold IsZero in Hd'. apply Z.eqb_eq in Hd'. by apply Hsch in Hd as [? _]. }
    assert (Hsince : bool_decide (st_class s = Unknown) = negb (IsZero (kept (st_since s)))).
    { unfold IsZero. destruct (decide (st_class s = Unknown)) as [Hu|Hu]; [rewrite bool_decide_true by done|rewrite bool_decide_false by done]; symmetry.
      - rewrite Hc in Hu. destruct (transition_unknown _ _ _ _ _ _ _ Ht Hu eq_refl) as (-> & _).
        apply negb_true_iff, Z.eqb_neq. destruct (unknown (sr_status row)); [destruct Hold as (? & _); rewrite Hks; lia|]. rewrite Hkn. lia.
      - rewrite Hc in Hu. destruct (transition_known _ _ _ _ _ _ Ht Hu) as (-> & _). done. }
    rewrite Hsince, eqb_reflx. simpl. destruct (Z.ltb_spec (now_of d) from); [lia|done].
  - assert (Hclear : ∀ k rel del, alert_kind_ok k (Some (st_class s)) (st_reason s) = true → NoDup rel → (∀ z, z ∈ rel → z ∈ references d i) → rel ≠ [] →
      (bool_decide (k = KindDeletion) = negb (IsZero del)) → alert_checks d i k s rel del = None).
    { intros k rel del Hk Hnd Hsub Hne Hdel. unfold alert_checks. rewrite (bool_decide_true (NoDup rel)) by done.
      assert (Hall : forallb (λ z, bool_decide (z ∈ references d i)) rel = true).
      { apply forallb_forall. intros z Hz'%list_elem_of_In. by apply bool_decide_eq_true, Hsub. }
      rewrite Hall, Hk, Hfit. simpl. rewrite bool_decide_false, Hdel, eqb_reflx by done. done. }
    unfold raised. rewrite Forall_app. split.
    + apply Forall_fmap, Forall_forall. intros k Hk. simpl. assert (Hnd : k ≠ KindDeletion) by (intros ->; done).
      rewrite (bool_decide_false (k = KindDeletion)) by done. apply Hclear; [by eapply kinds_fit|apply sorted_nodup|done|done|].
      by rewrite bool_decide_false.
    + fold names. destruct (decide (names = [])) as [Hn|Hn]; [rewrite bool_decide_true by done; constructor|rewrite bool_decide_false by done].
      apply Forall_singleton. simpl.
      assert (Hd : st_reason s = DeletionScheduled) by (destruct (decide (st_reason s = DeletionScheduled)) as [|Hnd]; [done|]; exfalso; apply Hn; unfold names, deletion_names; by rewrite bool_decide_false).
      destruct (Hsch Hd) as [Hk Hret]. apply Hclear; [| | |done|].
      * rewrite Hret, Hd. done.
      * unfold names, deletion_names, unwarned. rewrite bool_decide_true by done. apply NoDup_filter, sorted_nodup.
      * intros z. unfold names, deletion_names, unwarned. rewrite bool_decide_true by done. by intros [_ ?]%list_elem_of_filter.
      * rewrite (bool_decide_true (KindDeletion = KindDeletion)) by done. simpl. symmetry. apply negb_true_iff. by apply Z.eqb_neq.
Qed.
End Records.
