(* ===== verification/MonitorRuns.v ===== *)
(** * The logger's batches between other processes' transactions: the lines written and the cursor. *)

From stdpp Require Import sorting relations.
From S2P Require Import Prelude Times Json Classify Monitor MonitorSpec MonitorInv.

(** ** Sorted lists cut at a key *)

Section Cut.
Context {A : Type} (key : A → Z).
Implicit Types l k : list A.
Definition by_key : list A → Prop := StronglySorted (λ x y, key x < key y).
Lemma by_key_fmap l : StronglySorted Z.lt (key <$> l) ↔ by_key l.
Proof.
  unfold by_key. induction l as [|x l IH]; simpl; [split; constructor|].
  split; intros H; inversion_clear H; constructor; try (by apply IH); rewrite Forall_fmap in *; done.
Qed.
Lemma by_key_filter (P : A → Prop) `{!∀ x, Decision (P x)} l : by_key l → by_key (filter P l).
Proof.
  unfold by_key. induction 1 as [|x l Hl IH Hx]; [constructor|]. rewrite filter_cons. destruct (decide (P x)); [|done].
  constructor; [done|]. apply Forall_forall. intros y [_ Hy]%list_elem_of_filter. rewrite Forall_forall in Hx. by apply Hx.
Qed.
Lemma by_key_app l k : by_key (l ++ k) → by_key k ∧ ∀ x y, x ∈ l → y ∈ k → key x < key y.
Proof.
  unfold by_key. induction l as [|z l IH]; simpl; [intros H; split; [done|by intros ? ? ?%elem_of_nil]|].
  intros [Hs Hz]%StronglySorted_inv. destruct (IH Hs) as [Hk Hlt]. split; [done|].
  intros x y [->|Hx]%elem_of_cons Hy; [|by apply Hlt]. rewrite Forall_forall in Hz. apply Hz, elem_of_app. by right.
Qed.
Lemma by_key_join l k : by_key l → by_key k → (∀ x y, x ∈ l → y ∈ k → key x < key y) → by_key (l ++ k).
Proof.
  unfold by_key. intros Hl Hk. induction Hl as [|x l Hl IH Hx]; intros Hlt; simpl; [done|]. constructor.
  - apply IH. intros y z Hy Hz. apply Hlt; [by right|done].
  - apply Forall_app. split; [done|]. apply Forall_forall. intros y Hy. apply Hlt; [by left|done].
Qed.
Lemma by_key_take l n : by_key l → by_key (take n l).
Proof.
  unfold by_key. intros Hl. revert n. induction Hl as [|x l Hl IH Hx]; intros [|n]; simpl; try constructor; [done|].
  apply Forall_forall. intros y (i & Hy%list_elem_of_lookup_2 & _)%elem_of_take. rewrite Forall_forall in Hx. by apply Hx.
Qed.
Lemma by_key_last l x z : by_key l → last l = Some z → x ∈ l → key x ≤ key z.
Proof.
  intros Hl [l' ->]%last_Some [Hx| ->%list_elem_of_singleton]%elem_of_app; [|done].
  apply by_key_app in Hl as [_ Hl]. specialize (Hl x z Hx). ospecialize (Hl _); [by left|]. lia.
Qed.
Lemma by_key_inj l x y : by_key l → x ∈ l → y ∈ l → key x = key y → x = y.
Proof.
  unfold by_key. induction 1 as [|z l Hl IH Hz]; [by intros ?%elem_of_nil|]. rewrite Forall_forall in Hz.
  intros [->|Hx]%elem_of_cons [->|Hy]%elem_of_cons He; [done| | |by apply IH].
  - specialize (Hz y Hy). lia.
  - specialize (Hz x Hx). lia.
Qed.
Lemma list_filter_all (P : A → Prop) `{!∀ x, Decision (P x)} l : (∀ x, x ∈ l → P x) → filter P l = l.
Proof. induction l as [|x l IH]; intros Hl; [done|]. rewrite filter_cons_True by (apply Hl; by left). f_equal. apply IH. intros; apply Hl; by right. Qed.
(** Cutting a sorted list after the last of its first [n] elements. *)
Lemma by_key_cut l n z : by_key l → last (take n l) = Some z → filter (λ x, key z < key x) l = drop n l.
Proof.
  intros Hl Hz. apply last_Some in Hz as [l' Hz]. rewrite <- (take_drop n l) in Hl. rewrite <- (take_drop n l) at 1.
  destruct (by_key_app _ _ Hl) as [_ Hlt]. rewrite filter_app, (list_filter_none (take n l)), list_filter_all.
  - done.
  - intros x Hx. apply Hlt; [rewrite Hz, elem_of_app; right; by left|done].
  - intros x Hx. rewrite Hz in Hl, Hx. rewrite <- (assoc_L (++)) in Hl. apply by_key_app in Hl as [Hzl Hlt'].
    apply elem_of_app in Hx as [Hx|Hx%list_elem_of_singleton]; [|subst; lia].
    specialize (Hlt' x z Hx). ospecialize (Hlt' _); [by left|]. lia.
Qed.
End Cut.

Lemma above_above (l : list alert) x y : x ≤ y → filter (λ a, y < al_seq a) (filter (λ a, x < al_seq a) l) = filter (λ a, y < al_seq a) l.
Proof.
  intros Hxy. apply list_filter_filter_l. lia.
Qed.

Section Runs.
Variable tick : Z → Z.
Variable t : timings.
Hypothesis Htick : ∀ x, x ≤ tick x.
Hypothesis Hlong : 0 < t_persistent t.

(** ** Alerts are only added, above every sequence drawn *)

Definition grows (d d' : mdb) : Prop :=
  ∃ l, m_alerts d' = m_alerts d ++ l ∧ Forall (λ a, m_seq d < al_seq a) l.
Lemma grows_refl d d' : m_alerts d' = m_alerts d → grows d d'.
Proof. intros H. exists []. by rewrite app_nil_r. Qed.
Lemma mstep_grows d d' : mstep tick t d d' → grows d d'.
Proof.
  intros H. destruct H as [dep from r b d d' H|u d d' H|b d d' H|seq u d d' Hle H|id_ i r began u d d' H|release i u d d' H|ep c n d Hk Hc Hn].
  - apply record_ok in H as (row & s & l & H). rewrite (rd_store _ _ _ _ _ _ _ _ _ _ _ H). eexists. split; [done|].
    apply Forall_forall. intros a (n & ka & ? & _ & _ & ->)%numbered_elem. simpl. lia.
  - apply progress_ok in H as ->. by apply grows_refl.
  - apply watchdog_ok in H as [_ ->]. destruct (stalled_due _ _ _); [|by apply grows_refl].
    eexists. split; [done|]. repeat constructor. simpl. lia.
  - unfold advance_cursor in H. m_inv. by apply grows_refl.
  - unfold seedStatus in H. m_inv. match goal with H : clock _ _ = _ |- _ => apply clock_ok in H as [-> ->] end.
    match goal with H : check _ _ = _ |- _ => apply check_ok in H as [_ <-] end. if_inv; m_inv; by apply grows_refl.
  - unfold insertDependency in H. m_inv. by apply grows_refl.
  - by apply grows_refl.
Qed.
Lemma mstep_seq d d' : mstep tick t d d' → m_seq d ≤ m_seq d'.
Proof.
  intros H. destruct H as [dep from r b d d' H|u d d' H|b d d' H|seq u d d' Hle H|id_ i r began u d d' H|release i u d d' H|ep c n d Hk Hc Hn].
  - apply record_ok in H as (row & s & l & H). rewrite (rd_store _ _ _ _ _ _ _ _ _ _ _ H). simpl. lia.
  - by apply progress_ok in H as ->.
  - apply watchdog_ok in H as [_ ->]. destruct (stalled_due _ _ _); simpl; lia.
  - unfold advance_cursor in H. by m_inv.
  - unfold seedStatus in H. m_inv. match goal with H : clock _ _ = _ |- _ => apply clock_ok in H as [-> ->] end.
    match goal with H : check _ _ = _ |- _ => apply check_ok in H as [_ <-] end. by if_inv; m_inv.
  - unfold insertDependency in H. by m_inv.
  - done.
Qed.
Lemma msteps_grow d d' : rtc (mstep tick t) d d' → grows d d' ∧ m_seq d ≤ m_seq d'.
Proof.
  induction 1 as [d|d1 d2 d3 H _ [(l & Hl & Hf) IH]]; [by split; [apply grows_refl|]|].
  pose proof (mstep_seq _ _ H) as Hq. destruct (mstep_grows _ _ H) as (k & Hk & Hg). split; [|lia]. exists (k ++ l). split.
  - by rewrite Hl, Hk, (assoc_L (++)).
  - apply Forall_app. split; [done|]. eapply Forall_impl; [exact Hf|]. intros; simpl in *; lia.
Qed.

(** ** A batch *)

Lemma alerts_by_key d : minv t d → by_key al_seq (m_alerts d).
Proof. intros Hi. apply by_key_fmap, Hi. Qed.
Definition above (after : Z) (d : mdb) : list alert := filter (λ a, after < al_seq a) (m_alerts d).
Lemma unlogged_take after d : minv t d → unlogged after d = take batch (above after d).
Proof.
  intros Hi. unfold unlogged. f_equal. pose proof (by_key_filter al_seq (λ a, after < al_seq a) _ (alerts_by_key _ Hi)) as Hk.
  assert (Hle : StronglySorted seq_before (above after d)).
  { clear -Hk. unfold by_key, above in *. induction Hk as [|x l Hl IH Hx]; [constructor|]. constructor; [done|].
    eapply Forall_impl; [exact Hx|]. unfold seq_before. intros; simpl in *; lia. }
  apply (StronglySorted_unique_strong seq_before); [|apply StronglySorted_merge_sort; unfold seq_before; [intros ???; lia|intros ??; lia]|exact Hle|apply merge_sort_Permutation].
  intros x y Hx Hy Hxy Hyx. rewrite merge_sort_Permutation in Hx. unfold seq_before in *. apply (by_key_inj al_seq _ _ _ Hk); [done..|lia].
Qed.

(** Between this process's turns the others run; while it holds the loggers' lock none moves the cursor. *)
Variable others : mdb → mdb.
Definition logged (d : mdb) : Z := mr_logged (m_monitor d).
Hypothesis Hothers : ∀ d, minv t d → rtc (mstep tick t) d (others d) ∧ logged (others d) = logged d.
Notation steps := (rtc (mstep tick t)).

(** What a batch wrote: the lines of the alerts above the cursor, the cursor moved only past those written. *)
Definition batch_ran (d : mdb) (out : list alert) (d' : mdb) : Prop :=
  ∃ d1 k, steps d d1 ∧ logged d1 = logged d ∧ steps d1 d' ∧ out = take k (take batch (above (logged d) d1)) ∧
    (logged d' = logged d ∨ ∃ z, last (take batch (above (logged d) d1)) = Some z ∧ logged d' = al_seq z
       ∧ out = take batch (above (logged d) d1)).
Lemma others_steps d : minv t d → steps d (others d) ∧ logged (others d) = logged d ∧ minv t (others d).
Proof. intros Hi. destruct (Hothers d Hi) as [Hs Hl]. split_and!; [done..|]. by eapply msteps_inv. Qed.
Lemma batch_nothing d d' : minv t d → steps d d' → logged d' = logged d → batch_ran d [] d'.
Proof. intros Hi Hs Hl. exists d, 0%nat. split_and!; [constructor|done|done|done|by left]. Qed.
Lemma turn_gets {A} (f : mdb → A) w : turn others (gets f) w = (Ok (f (others (w_store w))), with_store (others (w_store w)) w).
Proof. unfold turn. assert (H : gets (E:=monitor_error) f (others (w_store w)) = Ok (f (others (w_store w)), others (w_store w))) by by apply gets_ok. by rewrite H. Qed.
Lemma logBatch_ran w r w' : logBatch others w = (r, w') → minv t (w_store w) →
  ∃ new, w_out w' = w_out w ++ new ∧ batch_ran (w_store w) new (w_store w')
    ∧ match r with Ok _ => new = [] ∨ ∃ z, last new = Some z ∧ logged (w_store w') = al_seq z | Err _ => True end.
Proof.
  intros H Hi. destruct (others_steps _ Hi) as (H1 & Hl1 & Hi1). destruct (others_steps _ Hi1) as (H2 & Hl2 & Hi2).
  destruct (others_steps _ Hi2) as (H3 & Hl3 & Hi3). set (d1 := others (w_store w)) in *. set (d2 := others d1) in *. set (d3 := others d2) in *.
  assert (Hs2 : steps (w_store w) d2) by by etransitivity. assert (Hs3 : steps (w_store w) d3) by by etransitivity.
  unfold logBatch, try_lock, mbind, P_bind in H. simpl in H. destruct (default true (head (w_free w))); simpl in H.
  2:{ injection H as <- <-. exists []. rewrite app_nil_r. split; [done|]. split; [|by left]. apply batch_nothing; [done|constructor|done]. }
  rewrite turn_gets in H. simpl in H. rewrite turn_gets in H. simpl in H. fold d1 d2 in H. change (mr_logged (m_monitor d1)) with (logged d1) in H. rewrite Hl1, unlogged_take in H by done.
  destruct (last (take batch _)) as [z|] eqn:Hz; simpl in H.
  2:{ injection H as <- <-. exists []. rewrite app_nil_r. split; [done|]. split; [|by left]. apply batch_nothing; simpl; congruence. }
  unfold write_lines in H. simpl in H. set (lines := take batch (above (logged (w_store w)) d2)) in *.
  set (k := default (length lines) (head (w_sink w))) in *. exists (take k lines).
  assert (Hstay : ∀ d, steps d2 d → logged d = logged (w_store w) → batch_ran (w_store w) (take k lines) d).
  { intros d Hd Hl. exists d2, k. split_and!; [done|congruence|done|done|by left]. }
  destruct (length lines <=? k)%nat eqn:Hk; simpl in H; [|injection H as <- <-; split; [done|]; split; [|done]; apply Hstay; [apply rtc_refl|simpl; congruence]].
  unfold commits in H. simpl in H. destruct (default true (head (w_commits w))); simpl in H; [|injection H as <- <-; split; [done|]; split; [|done]; apply Hstay; [apply rtc_refl|simpl; congruence]].
  unfold turn in H. simpl in H. fold d3 in H. destruct (advance_cursor (al_seq z) d3) as [[u d4]|e] eqn:Ha; injection H as <- <-; (split; [done|]); simpl; [|split; [|done]; apply Hstay; [exact H3|congruence]].
  apply Nat.leb_le in Hk. split; [|right; exists z; rewrite take_ge by done; split; [done|]; unfold advance_cursor in Ha; by m_inv]. exists d2, k. split_and!; [done|congruence| |done|].
  - eapply rtc_r; [exact H3|]. eapply ms_cursor; [|exact Ha]. pose proof (msteps_grow _ _ H3) as [_ Hq].
    apply last_Some in Hz as [l Hz]. assert (Hin : z ∈ above (logged (w_store w)) d2).
    { assert (Hin : z ∈ lines) by (rewrite Hz, elem_of_app; right; by left).
      unfold lines in Hin. by apply elem_of_take in Hin as (i & ?%list_elem_of_lookup_2 & _). }
    apply list_elem_of_filter in Hin as [_ Hin]. destruct (mi_seq _ _ Hi2) as [_ Hb]. rewrite Forall_forall in Hb. specialize (Hb _ Hin). simpl in Hb. lia.
  - right. exists z. fold lines. split_and!; [done| |by apply take_ge]. unfold advance_cursor in Ha. by m_inv.
Qed.

(** ** Every alert at or under the cursor is written *)

Definition all_logged (out : list alert) (d : mdb) : Prop := ∀ a, a ∈ m_alerts d → al_seq a ≤ logged d → a ∈ out.
Lemma old_alerts d d' a : minv t d → steps d d' → a ∈ m_alerts d' → al_seq a ≤ logged d → a ∈ m_alerts d.
Proof.
  intros Hi Hs Ha Hle. destruct (msteps_grow _ _ Hs) as [(l & Hl & Hf) _]. rewrite Hl in Ha. apply elem_of_app in Ha as [?|Ha]; [done|].
  rewrite Forall_forall in Hf. specialize (Hf _ Ha). pose proof (mi_logged _ _ Hi) as Hlog. unfold logged in *. simpl in *. lia.
Qed.
Lemma batch_logged d out new d' : minv t d → batch_ran d new d' → all_logged out d →
  minv t d' ∧ all_logged (out ++ new) d' ∧ ∀ a, a ∈ new → a ∈ m_alerts d'.
Proof.
  intros Hi (d1 & k & H1 & Hl1 & H2 & Hnew & Hcur) Hout. assert (Hi1 : minv t d1) by by eapply msteps_inv.
  assert (Hs : steps d d') by by etransitivity. split_and!; [by eapply msteps_inv| |].
  - intros a Ha Hle. apply elem_of_app. destruct Hcur as [Hcur|(z & Hz & Hcur & Hall)].
    + left. rewrite Hcur in Hle. apply Hout; [|done]. by eapply old_alerts.
    + destruct (Z.le_gt_cases (al_seq a) (logged d)) as [Hold|Hnewer]; [left; apply Hout; [by eapply old_alerts|done]|right].
      assert (Hz1 : z ∈ above (logged d) d1).
      { assert (Hin : z ∈ take batch (above (logged d) d1)) by (apply last_Some in Hz as [l ->]; rewrite elem_of_app; right; by left).
        by apply elem_of_take in Hin as (i & ?%list_elem_of_lookup_2 & _). }
      assert (Ha1 : a ∈ above (logged d) d1).
      { apply list_elem_of_filter. split; [done|]. destruct (msteps_grow _ _ H2) as [(l & Hl & Hf) _]. rewrite Hl in Ha.
        apply elem_of_app in Ha as [?|Ha]; [done|]. rewrite Forall_forall in Hf. specialize (Hf _ Ha).
        apply list_elem_of_filter in Hz1 as [_ Hz1]. destruct (mi_seq _ _ Hi1) as [_ Hb]. rewrite Forall_forall in Hb. specialize (Hb _ Hz1). simpl in *. lia. }
      pose proof (by_key_cut al_seq _ batch z (by_key_filter al_seq (λ a, logged d < al_seq a) _ (alerts_by_key _ Hi1)) Hz) as Hcut.
      fold (above (logged d) d1) in Hcut. rewrite Hall. rewrite <- (take_drop batch (above (logged d) d1)), elem_of_app in Ha1. destruct Ha1 as [?|Ha1]; [done|].
      rewrite <- Hcut in Ha1. apply list_elem_of_filter in Ha1 as [? _]. lia.
  - intros a Ha. rewrite Hnew in Ha. apply elem_of_take in Ha as (i & Ha%list_elem_of_lookup_2 & _).
    apply elem_of_take in Ha as (j & Ha%list_elem_of_lookup_2 & _). apply list_elem_of_filter in Ha as [_ Ha].
    destruct (msteps_grow _ _ H2) as [(l & -> & _) _]. apply elem_of_app. by left.
Qed.
Lemma logAlerts_logged n w r w' : logAlerts others n w = (r, w') → minv t (w_store w) → all_logged (w_out w) (w_store w) →
  minv t (w_store w') ∧ all_logged (w_out w') (w_store w').
Proof.
  revert w. induction n as [|n IH]; intros w H Hi Hout; simpl in H; [by injection H as <- <-|].
  unfold mbind, P_bind, attempt_of in H. destruct (logBatch others w) as [r1 w1] eqn:Hb. simpl in H.
  destruct (logBatch_ran _ _ _ Hb Hi) as (new & Hnew & Hran & _). destruct (batch_logged _ _ _ _ Hi Hran Hout) as (Hi1 & Hout1 & _).
  rewrite <- Hnew in Hout1. destruct r1 as [k|e]; [|by injection H as <- <-]. destruct (k <? batch)%nat; [by injection H as <- <-|]. by eapply IH.
Qed.
(** A run's lines are recorded alerts above the cursor it found, in recording order, each once; one that
    moved the cursor past what it wrote never writes those again. *)
Definition written_in_order (d : mdb) (new : list alert) (d' : mdb) : Prop :=
  by_key al_seq new ∧ ∀ a, a ∈ new → a ∈ m_alerts d' ∧ logged d < al_seq a.
Lemma batch_in_order d new d' : minv t d → batch_ran d new d' → steps d d' ∧ logged d ≤ logged d' ∧ written_in_order d new d'.
Proof.
  intros Hi (d1 & k & H1 & Hl1 & H2 & Hnew & Hcur). assert (Hi1 : minv t d1) by by eapply msteps_inv.
  assert (Hin : ∀ a, a ∈ take batch (above (logged d) d1) → a ∈ m_alerts d1 ∧ logged d < al_seq a).
  { intros a (i & Ha%list_elem_of_lookup_2 & _)%elem_of_take. apply list_elem_of_filter in Ha as [? ?]. done. }
  split; [by etransitivity|]. split.
  - destruct Hcur as [->|(z & Hz & -> & _)]; [done|]. apply last_Some in Hz as [l Hz]. destruct (Hin z); [|lia]. rewrite Hz, elem_of_app. right. by left.
  - split.
    + rewrite Hnew. do 2 apply by_key_take. apply by_key_filter, alerts_by_key, Hi1.
    + intros a Ha. rewrite Hnew in Ha. apply elem_of_take in Ha as (i & Ha%list_elem_of_lookup_2 & _). destruct (Hin a Ha) as [Hm Hlt].
      split; [|done]. destruct (msteps_grow _ _ H2) as [(l & -> & _) _]. apply elem_of_app. by left.
Qed.
Lemma logAlerts_in_order n w r w' : logAlerts others n w = (r, w') → minv t (w_store w) →
  ∃ new, w_out w' = w_out w ++ new ∧ steps (w_store w) (w_store w') ∧ logged (w_store w) ≤ logged (w_store w')
    ∧ written_in_order (w_store w) new (w_store w').
Proof.
  revert w. induction n as [|n IH]; intros w H Hi; simpl in H.
  - injection H as <- <-. exists []. rewrite app_nil_r. split_and!; [done|constructor|lia|]. split; [constructor|by intros a ?%elem_of_nil].
  - unfold mbind, P_bind, attempt_of in H. destruct (logBatch others w) as [r1 w1] eqn:Hb. simpl in H.
    destruct (logBatch_ran _ _ _ Hb Hi) as (new & Hnew & Hran & Hmoved). destruct (batch_in_order _ _ _ Hi Hran) as (Hs1 & Hle1 & Hk1 & Hw1).
    destruct r1 as [k|e]; [|injection H as <- <-; by exists new]. destruct (k <? batch)%nat; [injection H as <- <-; by exists new|].
    destruct (IH w1 H) as (more & Hmore & Hs2 & Hle2 & Hk2 & Hw2); [by eapply msteps_inv|]. exists (new ++ more).
    rewrite Hmore, Hnew, (assoc_L (++)). split_and!; [done|by etransitivity|lia|]. split.
    + apply by_key_join; [done..|]. intros x y Hx Hy. destruct (Hw2 y Hy) as [_ Hy']. destruct Hmoved as [->|(z & Hz & Hl)]; [by apply elem_of_nil in Hx|].
      pose proof (by_key_last al_seq _ _ _ Hk1 Hz Hx). lia.
    + intros a [Ha|Ha]%elem_of_app; [destruct (Hw1 a Ha) as [Ha' ?]|destruct (Hw2 a Ha) as [Ha' ?]; split; [done|lia]]. split; [|done].
      destruct (msteps_grow _ _ Hs2) as [(l & -> & _) _]. apply elem_of_app. by left.
Qed.

(** ** A logger left alone drains the backlog *)

(** Every lock free, a sink that takes every line, and no commit that fails. *)
Definition unhindered (w : mworld) : Prop := Forall (eq true) (w_free w) ∧ w_sink w = [] ∧ Forall (eq true) (w_commits w).
Lemma head_true l : Forall (eq true) l → default true (head l) = true ∧ Forall (eq true) (tail l).
Proof. intros [|x k <- H]; done. Qed.
Definition backlog (d : mdb) : list alert := above (logged d) d.
Lemma last_nil {A} (l : list A) : last l = None → l = [].
Proof. by rewrite last_None. Qed.
Hypothesis Hquiet : ∀ d, m_alerts (others d) = m_alerts d.
Lemma batch_drains w : minv t (w_store w) → unhindered w → ∃ w',
  logBatch others w = (Ok (length (take batch (backlog (w_store w)))), w') ∧ unhindered w'
  ∧ backlog (w_store w') = drop batch (backlog (w_store w)).
Proof.
  intros Hi (Hfree & Hsink & Hcom). destruct (others_steps _ Hi) as (H1 & Hl1 & Hi1). destruct (others_steps _ Hi1) as (H2 & Hl2 & Hi2).
  destruct (others_steps _ Hi2) as (H3 & Hl3 & Hi3). destruct (head_true _ Hfree) as [Hf1 Hf2]. destruct (head_true _ Hcom) as [Hc1 Hc2].
  unfold logBatch, try_lock, mbind, P_bind. simpl. rewrite Hf1. simpl. rewrite turn_gets. simpl. rewrite turn_gets. simpl.
  set (d0 := w_store w) in *. set (d1 := others d0) in *. set (d2 := others d1) in *. set (d3 := others d2) in *.
  assert (Hab : above (mr_logged (m_monitor d1)) d2 = backlog d0).
  { unfold backlog, above. change (mr_logged (m_monitor d1)) with (logged d1). rewrite Hl1. unfold d2, d1. by rewrite !Hquiet. }
  rewrite unlogged_take, Hab by done. destruct (last (take batch (backlog d0))) as [z|] eqn:Hz; simpl.
  - unfold write_lines. simpl. rewrite Hsink. simpl. rewrite Nat.leb_refl. simpl. unfold commits. simpl. rewrite Hc1. simpl.
    unfold turn. simpl. fold d3.
    assert (Hin : z ∈ take batch (backlog d0)) by (apply last_Some in Hz as [l ->]; rewrite elem_of_app; right; by left).
    apply elem_of_take in Hin as (i & Hin%list_elem_of_lookup_2 & _). apply list_elem_of_filter in Hin as [Hin _].
    assert (Ha : advance_cursor (al_seq z) d3 = Ok (tt, set_monitor (let r := m_monitor d3 in MonitorRow (mr_progress r) (mr_pass r) (mr_stalled r) (al_seq z)) d3)).
    { unfold advance_cursor. apply bind_ok. eexists _, _. rewrite gets_ok. split; [done|]. apply bind_ok. eexists tt, _. rewrite failIf_ok.
      split; [split; [|done]|by apply modify_ok]. apply Z.ltb_ge. change (logged d3 ≤ al_seq z). rewrite Hl3, Hl2, Hl1. lia. }
    rewrite Ha. eexists. split; [done|]. split; [done|]. simpl. unfold backlog at 1, above, logged at 1. simpl.
    change (filter (λ x, al_seq z < al_seq x) (m_alerts d3) = drop batch (backlog d0)).
    rewrite <- (by_key_cut al_seq (backlog d0) batch z (by_key_filter al_seq _ _ (alerts_by_key _ Hi)) Hz). unfold backlog, above. symmetry.
    unfold d3, d2, d1. rewrite !Hquiet. apply list_filter_filter_l. lia.
  - eexists. apply last_nil in Hz. rewrite Hz. split; [done|]. split; [done|]. simpl. unfold backlog at 1. fold (above (logged d2) d2).
    change (above (logged d2) d2) with (backlog d2). assert (Hbk : backlog d2 = backlog d0).
    { unfold backlog, above. rewrite Hl2, Hl1. unfold d2, d1. by rewrite !Hquiet. }
    rewrite Hbk. destruct (backlog d0); done.
Qed.
Lemma logAlerts_drains n w r w' : logAlerts others n w = (r, w') → minv t (w_store w) → unhindered w →
  (length (backlog (w_store w)) < batch * n)%nat → backlog (w_store w') = [].
Proof.
  revert w. induction n as [|n IH]; intros w H Hi Hw Hn; simpl in H; [lia|].
  unfold mbind, P_bind, attempt_of in H. destruct (batch_drains _ Hi Hw) as (w1 & Hb & Hw1 & Hbk). rewrite Hb in H. simpl in H.
  destruct (logBatch_ran _ _ _ Hb Hi) as (new & _ & (d1 & k & Hs1 & _ & Hs2 & _) & _). rewrite length_take in H.
  destruct (_ <? batch)%nat eqn:Hlt; [apply Nat.ltb_lt in Hlt; injection H as <- <-; rewrite Hbk; apply drop_ge; lia|].
  apply Nat.ltb_ge in Hlt. eapply (IH w1); [done| |done|rewrite Hbk, length_drop; lia]. eapply msteps_inv; [done|done| |exact Hi]. by etransitivity.
Qed.
End Runs.
