(* ===== verification/MonitorScenario.v ===== *)
(** * A concrete monitor: a KV version two releases depend on, whose deletion is scheduled, which then
    cannot be read for hours. *)

From stdpp Require Import relations.
From S2P Require Import Prelude Ident Times Json Classify Monitor MonitorSpec MonitorInv.

Definition mn_tick (x : Z) : Z := x + 1000000.
Lemma mn_ticks x : x ≤ mn_tick x. Proof. unfold mn_tick. lia. Qed.
Definition mn_t : timings := Timings (300 * second) (3600 * second).
Definition mn_start : Z := 1767225600 * second.
Definition mn_word : string := "aaaaaaaaaaaaaaaaaaaaaaaaaa".
Definition mn_object : string := "gen/cl_" +:+ mn_word +:+ "/ing_" +:+ mn_word +:+ "/v1".
Definition mn_id : identity := Identity "kv" mn_object 1 "2026-01-01T00:00:00Z".
Definition mn_dependency : Dependency := ADependency KV mn_object 1 mn_start.
Example mn_path : generationPath mn_object && bool_decide (ParseRFC3339 (i_created mn_id) = Some mn_start) = true.
Proof. vm_compute. reflexivity. Qed.

(** The version's metadata, with its deletion time. *)
Definition mn_metadata (deletion : string) : json :=
  VObj [("data", VObj [("current_version", VNum "1"); ("oldest_version", VNum "0");
    ("versions", VObj [("1", VObj [("created_time", VStr "2026-01-01T00:00:00Z"); ("deletion_time", VStr deletion); ("destroyed", VBool false)])])])].
Definition mn_answer (deletion : string) : Answer :=
  AnAnswer 200 "Thu, 01 Jan 2026 01:00:00 GMT" (Some (mn_metadata deletion)) false.
Definition mn_scheduled : Result := Classify mn_dependency (mn_answer "2026-02-01T00:00:00Z").
Definition mn_unread : Result := Classify mn_dependency unreachable.
Definition mn_due : Z := (1767225600 + 31 * 86400) * second.
Example mn_results : (r_class mn_scheduled, r_reason mn_scheduled, r_deletion mn_scheduled) = (Retained, DeletionScheduled, mn_due)
  ∧ (r_class mn_unread, r_reason mn_unread) = (Unknown, Unreachable).
Proof. vm_compute. done. Qed.

Definition mn_empty : mdb := Mdb "ep_1" mn_start ∅ [] (MonitorRow mn_start None None 0) [] 0.
(** A transaction that goes through. *)
Definition mn_run {A} (m : M mdb monitor_error A) (d : mdb) : mdb := match m d with Ok (_, d') => d' | Err _ => d end.
Definition mn_ok {A} (m : M mdb monitor_error A) (d : mdb) : bool := match m d with Ok _ => true | Err _ => false end.
Lemma mn_run_ok {A} (m : M mdb monitor_error A) d : mn_ok m d = true → ∃ b, m d = Ok (b, mn_run m d).
Proof. unfold mn_ok, mn_run. destruct (m d) as [[b d']|]; [by exists b|done]. Qed.
Definition mn_wait (x : Z) (d : mdb) : mdb :=
  Mdb (m_epoch d) (m_clock d + x) (m_statuses d) (m_deps d) (m_monitor d) (m_alerts d) (m_seq d).
Definition mn_record (r : Result) : M mdb monitor_error bool := record mn_tick mn_t "dep_1" mn_start r.
Definition mn_depend (rel : string) : M mdb monitor_error unit := insertDependency rel mn_id.

Definition mn_seeded : mdb := mn_run (mn_depend "rel_1") (mn_run (seedStatus mn_tick "dep_1" mn_id (judged Retained RNone) mn_start) mn_empty).
Definition mn_warned : mdb := mn_run (mn_record mn_scheduled) mn_seeded.
Definition mn_second : mdb := mn_run (mn_depend "rel_2") mn_warned.
Definition mn_again : mdb := mn_run (mn_record mn_scheduled) mn_second.
Definition mn_lost_sight : mdb := mn_run (mn_record mn_unread) mn_again.
Definition mn_persists : mdb := mn_run (mn_record mn_unread) (mn_wait (3600 * second) mn_lost_sight).
Definition mn_stalled : mdb := mn_run (watchdog_tx mn_tick mn_t) (mn_wait (1000 * second) mn_persists).

Example mn_alerts : (λ a, (al_seq a, al_kind a, al_releases a, al_deletion a)) <$> m_alerts mn_stalled =
  [(1, KindDeletion, ["rel_1"], mn_due); (2, KindDeletion, ["rel_2"], mn_due); (3, KindRegression, ["rel_1"; "rel_2"], zero_time);
   (4, KindPersistent, ["rel_1"; "rel_2"], zero_time); (5, KindStalled, [], zero_time)].
Proof. vm_compute. reflexivity. Qed.

Lemma mn_empty_inv : minv mn_t mn_empty.
Proof.
  split; try by repeat constructor.
  split; [constructor|]. by intros p ?%elem_of_nil.
Qed.
Notation mn_steps := (rtc (mstep mn_tick mn_t)).
Lemma mn_seeded_steps : mn_steps mn_empty mn_seeded.
Proof.
  eapply rtc_l; [|eapply rtc_once].
  - destruct (mn_run_ok (seedStatus mn_tick "dep_1" mn_id (judged Retained RNone) mn_start) mn_empty) as [b H]; [by vm_compute|].
    by eapply ms_seed.
  - destruct (mn_run_ok (mn_depend "rel_1") (mn_run (seedStatus mn_tick "dep_1" mn_id (judged Retained RNone) mn_start) mn_empty)) as [b H]; [by vm_compute|].
    by eapply ms_depend.
Qed.
Lemma mn_records r d : mn_ok (mn_record r) d = true → mn_steps d (mn_run (mn_record r) d).
Proof. intros [b H]%mn_run_ok. eapply rtc_once, ms_record, H. Qed.
Lemma mn_waits x d : m_clock d + x = kept (m_clock d + x) → 0 ≤ x → mn_steps d (mn_wait x d).
Proof. intros Hk Hx. apply rtc_once, ms_rest; [done|lia..]. Qed.
Lemma mn_second_steps : mn_steps mn_empty mn_second.
Proof.
  etransitivity; [apply mn_seeded_steps|]. etransitivity; [apply (mn_records mn_scheduled); by vm_compute|].
  destruct (mn_run_ok (mn_depend "rel_2") mn_warned) as [b H]; [by vm_compute|]. eapply rtc_once, ms_depend, H.
Qed.
Lemma mn_persists_steps : mn_steps mn_empty mn_persists.
Proof.
  etransitivity; [apply mn_second_steps|]. etransitivity; [apply (mn_records mn_scheduled); by vm_compute|].
  etransitivity; [apply (mn_records mn_unread); by vm_compute|].
  etransitivity; [apply (mn_waits (3600 * second)); by vm_compute|]. apply (mn_records mn_unread). by vm_compute.
Qed.
Lemma mn_stalled_steps : mn_steps mn_empty mn_stalled.
Proof.
  etransitivity; [apply mn_persists_steps|]. etransitivity; [apply (mn_waits (1000 * second)); by vm_compute|].
  destruct (mn_run_ok (watchdog_tx mn_tick mn_t) (mn_wait (1000 * second) mn_persists)) as [b H]; [by vm_compute|].
  eapply rtc_once, ms_watchdog, H.
Qed.
Lemma mn_inv d : mn_steps mn_empty d → minv mn_t d.
Proof. intros H. eapply msteps_inv; [exact mn_ticks|done|exact H|exact mn_empty_inv]. Qed.

(** The logger's world over a store no one else changes. *)
Definition mn_world (d : mdb) : mworld := MWorld d [] [] [Some (mn_answer "")] [] [] [].
(** An answer that shows the version destroyed. *)
Definition mn_destroyed : Answer := AnAnswer 200 "" (Some (VObj [("data", VObj [("current_version", VNum "1"); ("oldest_version", VNum "0");
  ("versions", VObj [("1", VObj [("deletion_time", VStr ""); ("destroyed", VBool true)])])])])) false.
