(* ===== verification/MonitorProps.v ===== *)
(** * The properties of the dependency monitor: what is warned and alerted of, and when; what is logged;
    what a class rests on. *)

From stdpp Require Import relations sorting.
From S2P Require Import Prelude Ident Times TimesSpec Json Classify Monitor MonitorSpec MonitorInv MonitorRuns.
From S2P Require Import MonitorScenario.

Section Properties.
Context (tick : Z → Z) (t : timings).
Notation steps := (rtc (mstep tick t)).

(** C31: whatever the instances run, a release is warned at most once of a version's deletion at one time;
    and a record that finds the deletion scheduled leaves every release that references the version
    warned of it. *)
Theorem deletion_warned_once d d' :
  (∀ x, x ≤ tick x) → 0 < t_persistent t → minv t d → steps d d' →
  (∀ dep deletion, NoDup (warned_releases d' dep deletion))
  ∧ ∀ dep from r b d'' row, record tick t dep from r d' = Ok (b, d'') → m_statuses d' !! dep = Some row →
      r_reason r = DeletionScheduled → ∀ rel, rel ∈ references d' (sr_identity row) →
      rel ∈ warned_releases d'' dep (kept (r_deletion r)).
Proof.
  intros Htick Hlong Hi Hs. assert (Hi' : minv t d') by by eapply msteps_inv.
  split; [apply Hi'|]. intros dep from r b d'' row H Hrow Hr rel Hrel.
  apply record_ok in H as (row' & s & l & H). destruct (rd_moves _ _ _ _ _ _ _ _ _ _ _ H) as (kinds & Ht & _).
  pose proof (rd_row _ _ _ _ _ _ _ _ _ _ _ H) as Hrow'. assert (row' = row) as -> by congruence.
  apply transition_fields in Ht as (_ & Hre & _ & Hob & _). rewrite bool_decide_true in Hob by done. rewrite Hr in Hre.
  rewrite (record_warned tick t _ _ _ _ _ _ _ _ _ H), Hob, bool_decide_true by done.
  unfold deletion_names, unwarned. rewrite bool_decide_true, Hob, elem_of_app, list_elem_of_filter by done.
  destruct (decide (rel ∈ warned_releases d' dep (kept (r_deletion r)))); naive_solver.
Qed.

(** C32: a dependency's persistent alerts are at least the persistence time apart; one found unknown was
    last alerted of less than that time before, counted from when it became unknown; and a record alerts
    of persistence exactly when the time is up. *)
Theorem unknown_alerted_on_time d d' :
  (∀ x, x ≤ tick x) → 0 < t_persistent t → minv t d → steps d d' →
  (∀ dep, spaced (t_persistent t) (persistent_times dep d'))
  ∧ (∀ dep x, m_statuses d' !! dep = Some x → unknown (sr_status x) = true →
       anchor (sr_status x) ≤ sr_recorded x < anchor (sr_status x) + t_persistent t
       ∧ (st_persistent (sr_status x) = zero_time ∨ st_persistent (sr_status x) ∈ persistent_times dep d'))
  ∧ (∀ dep from r b d'' x, record tick t dep from r d' = Ok (b, d'') → m_statuses d' !! dep = Some x →
       let before := if unknown (sr_status x) then anchor (sr_status x) else now_of tick d' in
       persistent_times dep d'' = persistent_times dep d' ++
         if bool_decide (r_class r = Unknown) && (before + t_persistent t <=? now_of tick d') then [now_of tick d'] else []).
Proof.
  intros Htick Hlong Hi Hs. assert (Hi' : minv t d') by by eapply msteps_inv.
  split; [apply Hi'|]. split.
  - intros dep x Hx Hu. destruct (mi_status _ _ Hi' _ _ Hx) as (_ & _ & _ & H). rewrite Hu in H. naive_solver lia.
  - intros dep from r b d'' x H Hx. apply record_ok in H as (row & s & l & H).
    pose proof (rd_row _ _ _ _ _ _ _ _ _ _ _ H) as Hrow. assert (row = x) as -> by congruence.
    rewrite (record_persistent tick t _ _ _ _ _ _ _ _ _ H), (bool_decide_true (dep = dep)) by done.
    destruct (record_spell tick t _ _ _ _ _ _ _ _ _ Htick H Hi') as (Hn & _). rewrite Hn.
    destruct (rd_moves _ _ _ _ _ _ _ _ _ _ _ H) as (kinds & Ht & _). apply transition_fields in Ht as (Hc & _).
    assert (Hu : unknown s = bool_decide (r_class r = Unknown)) by (unfold unknown; by rewrite Hc). by rewrite Hu.
Qed.

(** The watchdog never fails, and alerts exactly when neither a record nor a completed pass, nor an
    alert of its own, was in the last three intervals; so its alerts are that far apart, whichever
    instances raise them. *)
Theorem stalls_alerted d d' :
  (∀ x, x ≤ tick x) → 0 < t_persistent t → minv t d → steps d d' →
  spaced (stall t) (stalled_times d')
  ∧ ∃ b d'', watchdog_tx tick t d' = Ok (b, d'')
      ∧ (b = true ↔ stall t ≤ now_of tick d' - greatest (mr_progress (m_monitor d')) (mr_stalled (m_monitor d')))
      ∧ stalled_times d'' = stalled_times d' ++ (if b then [now_of tick d'] else [])
      ∧ (b = true → mr_stalled (m_monitor d'') = Some (now_of tick d')).
Proof.
  intros Htick Hlong Hi Hs. assert (Hi' : minv t d') by by eapply msteps_inv. split; [apply Hi'|].
  eexists _, _. rewrite watchdog_ok. split; [done|]. unfold stalled_due. split; [by rewrite Z.leb_le|].
  destruct (stall t <=? _); [|by rewrite app_nil_r]. split; [|done]. unfold stalled_times. simpl.
  by rewrite filter_app, fmap_app, filter_cons_True.
Qed.

(** C33: a logger's batches, between any transactions of the others and whatever fails, write only recorded
    alerts above the cursor they found, in recording order and each once, and never move the cursor back or
    past an alert that is not written; one that nothing hinders and that no new alert meets writes every alert
    there is, with one batch more than the alerts above the cursor fill.  The others, as the loggers' lock
    makes them while this one holds it, move no cursor. *)
Theorem alerts_logged others n w r w' :
  (∀ x, x ≤ tick x) → 0 < t_persistent t →
  (∀ d, minv t d → steps d (others d) ∧ logged (others d) = logged d) →
  minv t (w_store w) → all_logged (w_out w) (w_store w) → logAlerts others n w = (r, w') →
  minv t (w_store w') ∧ all_logged (w_out w') (w_store w')
  ∧ (∃ new, w_out w' = w_out w ++ new ∧ StronglySorted (λ x y, al_seq x < al_seq y) new ∧ logged (w_store w) ≤ logged (w_store w')
      ∧ ∀ a, a ∈ new → a ∈ m_alerts (w_store w') ∧ logged (w_store w) < al_seq a)
  ∧ ((∀ d, m_alerts (others d) = m_alerts d) → unhindered w → (length (backlog (w_store w)) < batch * n)%nat →
     ∀ a, a ∈ m_alerts (w_store w') → a ∈ w_out w').
Proof.
  intros Htick Hlong Hothers Hi Hout H. destruct (logAlerts_logged _ _ Htick Hlong _ Hothers _ _ _ _ H Hi Hout) as [Hi' Hout'].
  destruct (logAlerts_in_order _ _ Htick Hlong _ Hothers _ _ _ _ H Hi) as (new & Hnew & _ & Hle & Hk & Hrec).
  split_and!; [done..|by exists new|]. intros Hquiet Hw Hn a Ha. pose proof (logAlerts_drains _ _ Htick Hlong _ Hothers Hquiet _ _ _ _ H Hi Hw Hn) as Hb.
  apply Hout'; [done|]. destruct (Z.le_gt_cases (al_seq a) (logged (w_store w'))) as [|Hgt]; [done|].
  exfalso. assert (Hin : a ∈ backlog (w_store w')) by by apply list_elem_of_filter. rewrite Hb in Hin. by apply elem_of_nil in Hin.
Qed.

(** What the classification answers of a dependency that releases reference is always recorded: no
    check of the tables refuses it or an alert it raises. *)
Theorem classification_recorded d d' dep from x a row :
  (∀ x, x ≤ tick x) → 0 < t_persistent t → minv t d → steps d d' →
  m_statuses d' !! dep = Some row → references d' (sr_identity row) ≠ [] → from ≤ m_clock d' →
  known_provider (d_provider x) → i_provider (sr_identity row) = provider_text (d_provider x) →
  zero_time ≤ answer_date a →
  ∃ b d'', record tick t dep from (Classify x a) d' = Ok (b, d'')
    ∧ ∃ y, m_statuses d'' !! dep = Some y ∧ sr_identity y = sr_identity row
        ∧ st_class (sr_status y) = r_class (Classify x a) ∧ st_reason (sr_status y) = r_reason (Classify x a).
Proof.
  intros Htick Hlong Hi Hs Hrow Href Hfrom Hp Hip Hdate. assert (Hi' : minv t d') by by eapply msteps_inv.
  destruct (record_runs tick t Htick dep from x a d' row) as (b & d'' & H); try done.
  { pose proof (now_later tick t d' Htick Hi') as [? _]. lia. }
  exists b, d''. split; [done|]. apply record_ok in H as (row' & s & l & H).
  destruct (rd_moves _ _ _ _ _ _ _ _ _ _ _ H) as (kinds & Ht & _). apply transition_fields in Ht as (Hc & Hr & _).
  pose proof (rd_row _ _ _ _ _ _ _ _ _ _ _ H) as Hrow'. assert (row' = row) as -> by congruence.
  rewrite (rd_store _ _ _ _ _ _ _ _ _ _ _ H). simpl. eexists. split; [apply lookup_insert_eq|]. split; [done|].
  rewrite <- Hc, <- Hr. unfold with_warning. by case_bool_decide.
Qed.
End Properties.

(** A dependency is found lost only on a readable answer's evidence of it: a KV version destroyed or
    under the oldest kept; a Transit version still listed with the recorded creation time, under the
    versions available, of a key that is not soft deleted. *)
Theorem lost_needs_evidence d a :
  r_class (Classify d a) = Lost →
  1 ≤ d_version d ∧ a_unreachable a = false ∧ a_status a = 200 ∧
  match d_provider d with
  | KV => ∃ data, decodeKV (a_body a) = Some data ∧
      ((∃ raw e, kv_versions data !! version_key (d_version d) = Some raw ∧ decode_entry raw = Some e ∧ e_destroyed e = Some true)
       ∨ (0 < kv_oldest data ∧ d_version d < kv_oldest data))
  | Transit => ∃ data raw available, decodeTransit (a_body a) = Some data ∧ tr_keys data !! version_key (d_version d) = Some raw
      ∧ (∃ made, listed_at raw = Some made ∧ (IsZero (d_created d) = false → made = d_created d))
      ∧ tr_soft data = Some (VBool false) ∧ tr_available data = Some available ∧ d_version d < available
  | OtherProvider _ => False
  end.
Proof.
  intros Hl. destruct (classify_known d a _ eq_refl) as (Hv & Hu & Hs & r0 & He & Hcase); [by rewrite Hl|]. rewrite He in Hl. simpl in Hl.
  split_and!; [done..|]. destruct (d_provider d); [| |done].
  - destruct (kv_lost _ _ _ _ Hcase Hl) as (data & Hdata & [(_ & raw & e & ?)|(_ & ?)]); exists data; split; [done| |done|];
      [left; naive_solver|by right].
  - destruct (transit_lost _ _ _ Hcase Hl) as (data & raw & made & av & ? & ? & ? & ? & ? & ? & ? & _).
    exists data, raw, av. split_and!; [done..|by exists made|done|done|done].
Qed.

(** The reason an answer fails for every version of its object is the reason each of its versions is
    unknown by: an answer has one exactly when every version is classified unknown by it. *)
Theorem answer_reason_exact p a r :
  known_provider p → r ∈ answer_reasons →
  AnswerReason p a = r ↔ ∀ o v created, 1 ≤ v →
    r_class (Classify (ADependency p o v created) a) = Unknown ∧ r_reason (Classify (ADependency p o v created) a) = r.
Proof.
  intros Hp Hr. split.
  - intros <- o v created Hv. apply (answer_fails (ADependency p o v created) a); [done..|]. simpl. intros Hn. rewrite Hn in Hr.
    by apply (bool_decide_pack _) in Hr.
  - intros Hall. destruct (decide (AnswerReason p a = RNone)) as [Hn|Hn].
    + destruct (answer_passes p a Hp Hn) as (v & Hv & Hno). exfalso. apply Hno. by destruct (Hall "" v zero_time Hv) as [_ ->].
    + destruct (Hall "" 1 zero_time) as [_ <-]; [lia|]. symmetry. by apply (answer_fails (ADependency p "" 1 zero_time) a).
Qed.

(** A Date header is read exactly when it is some time's text in one of the layouts, a time the
    layout writes in full, and as that time. *)
Theorem date_read_exactly s u :
  ParseDate s = Some u ↔ ∃ l v, l ∈ dateLayouts ∧ s = format l v ∧ writes l v ∧ u = v * second.
Proof.
  split.
  - intros (l & v & Hl & Hr & ->)%ParseDate_reads. exists l, v. by apply reads_exactly_iff in Hr as [-> Hw].
  - intros (l & v & Hl & Hs & Hw & ->). assert (Hr : reads_exactly s l = Some v) by by apply reads_exactly_iff.
    unfold ParseDate. destruct (omap (reads_exactly s) dateLayouts) as [|v' k] eqn:Hk; simpl;
      [assert (Hin : v ∈ omap (reads_exactly s) dateLayouts) by (apply list_elem_of_omap; by exists l)
      |assert (Hin : v' ∈ omap (reads_exactly s) dateLayouts) by (rewrite Hk; by left)].
    + rewrite Hk in Hin. by apply elem_of_nil in Hin.
    + apply list_elem_of_omap in Hin as (l' & Hl' & Hr'). by rewrite (reads_one s l' l v' v).
Qed.

(** ** At the scenario's stores *)

Lemma deletion_warned_once_witness :
  (∀ dep deletion, NoDup (warned_releases mn_second dep deletion))
  ∧ (["rel_1"] = warned_releases mn_second "dep_1" mn_due ∧ references mn_second mn_id = ["rel_1"; "rel_2"])
  ∧ ∀ rel, rel ∈ references mn_second mn_id → rel ∈ warned_releases mn_again "dep_1" (kept (r_deletion mn_scheduled)).
Proof.
  destruct (deletion_warned_once mn_tick mn_t mn_empty mn_second mn_ticks ltac:(done) mn_empty_inv mn_second_steps) as [Hn Hr].
  split; [exact Hn|]. split; [vm_compute; done|]. destruct (mn_run_ok (mn_record mn_scheduled) mn_second) as [b H]; [by vm_compute|]. unfold mn_record in H at 1.
  destruct (m_statuses mn_second !! "dep_1") as [row|] eqn:Hrow; [|by vm_compute in Hrow].
  assert (Hid : sr_identity row = mn_id) by (vm_compute in Hrow; by injection Hrow as <-).
  intros rel Hrel. rewrite <- Hid in Hrel. exact (Hr "dep_1" mn_start mn_scheduled b mn_again row H Hrow ltac:(vm_compute; reflexivity) rel Hrel).
Defined.
Lemma unknown_alerted_on_time_witness :
  spaced (t_persistent mn_t) (persistent_times "dep_1" mn_persists) ∧ length (persistent_times "dep_1" mn_persists) = 1%nat.
Proof.
  split; [|vm_compute; reflexivity].
  exact (proj1 (unknown_alerted_on_time mn_tick mn_t mn_empty mn_persists mn_ticks ltac:(done) mn_empty_inv mn_persists_steps) "dep_1").
Defined.
Lemma stalls_alerted_witness : spaced (stall mn_t) (stalled_times mn_stalled) ∧ length (stalled_times mn_stalled) = 1%nat.
Proof.
  split; [|vm_compute; reflexivity].
  exact (proj1 (stalls_alerted mn_tick mn_t mn_empty mn_stalled mn_ticks ltac:(done) mn_empty_inv mn_stalled_steps)).
Defined.
Lemma alerts_logged_witness :
  Forall (λ a, a ∈ w_out (logAlerts id 1 (mn_world mn_stalled)).2) (m_alerts (w_store (logAlerts id 1 (mn_world mn_stalled)).2)).
Proof.
  destruct (alerts_logged mn_tick mn_t id 1 (mn_world mn_stalled) (logAlerts id 1 (mn_world mn_stalled)).1
    (logAlerts id 1 (mn_world mn_stalled)).2 mn_ticks ltac:(done) ltac:(done)
    (mn_inv _ mn_stalled_steps)) as (_ & _ & _ & H); [|apply surjective_pairing|].
  - assert (Hall : Forall (λ a, 0 < al_seq a) (m_alerts mn_stalled)) by (vm_compute; repeat constructor). rewrite Forall_forall in Hall.
    assert (Hz : logged (w_store (mn_world mn_stalled)) = 0) by (vm_compute; reflexivity).
    intros a Ha Hle. specialize (Hall a Ha). rewrite Hz in Hle. lia.
  - apply Forall_forall. apply H; [done|by repeat constructor|vm_compute; lia].
Defined.
Lemma classification_recorded_witness : ∃ b d'', record mn_tick mn_t "dep_1" mn_start mn_unread mn_second = Ok (b, d'').
Proof.
  destruct (m_statuses mn_second !! "dep_1") as [row|] eqn:Hrow; [|by vm_compute in Hrow].
  assert (Hid : sr_identity row = mn_id) by (vm_compute in Hrow; by injection Hrow as <-).
  destruct (classification_recorded mn_tick mn_t mn_empty mn_second "dep_1" mn_start mn_dependency unreachable row mn_ticks ltac:(done)
    mn_empty_inv mn_second_steps Hrow) as (b & d'' & H & _).
  - rewrite Hid. by vm_compute.
  - by vm_compute.
  - by left.
  - by rewrite Hid.
  - by vm_compute.
  - by exists b, d''.
Defined.
Lemma lost_needs_evidence_witness :
  ∃ data, decodeKV (a_body mn_destroyed) = Some data ∧
    ((∃ raw e, kv_versions data !! version_key 1 = Some raw ∧ decode_entry raw = Some e ∧ e_destroyed e = Some true)
     ∨ (0 < kv_oldest data ∧ 1 < kv_oldest data)).
Proof. exact (proj2 (proj2 (proj2 (lost_needs_evidence mn_dependency mn_destroyed ltac:(by vm_compute))))). Defined.
Lemma answer_reason_exact_witness :
  r_class (Classify mn_dependency unreachable) = Unknown ∧ r_reason (Classify mn_dependency unreachable) = Unreachable.
Proof.
  apply (answer_reason_exact KV unreachable Unreachable); [by left|by apply (bool_decide_unpack _)|by vm_compute|by vm_compute].
Defined.
