(* ===== verification/Drafts.v ===== *)
(** * Drafts ([internal/api/drafts.go], with the transactions of [fragments.go] and [runner.go] that
    set a draft's entries): the tables of sources and their heads, and the acts on a draft.

    The store of a publication holds the core's store, the monitor's, the staging claims and the
    tables of this file.  What the core keeps of a draft and a release ([prov], [heads]) is a view of
    these rows, written with them.  An act that reads heads before it locks the draft is two
    turns.  Identifiers and tokens are given. *)

From stdpp Require Import pretty.
From S2P Require Import Prelude Ident Store.
From S2P Require Import Request.
From S2P Require Staging.
From S2P Require Monitor.

(** ** Tables *)

Inductive skind := SFragment | SProfile | SAssignment.
#[export] Instance skind_eq : EqDecision skind. Proof. solve_decision. Defined.
#[export] Instance skind_countable : Countable skind.
Proof.
  refine (inj_countable' (λ k, match k with SFragment => 0%nat | SProfile => 1%nat | SAssignment => 2%nat end)
    (λ n, match n with 0%nat => SFragment | 1%nat => SProfile | _ => SAssignment end) _); by intros [].
Defined.
Definition skind_text (k : skind) : string :=
  match k with SFragment => "fragment" | SProfile => "profile" | SAssignment => "assignment" end.
(** [sourceKey]: a fragment or profile by name, an assignment by machine. *)
Record source_key := SourceKey { k_kind : skind; k_name : string }.
#[export] Instance source_key_eq : EqDecision source_key. Proof. solve_decision. Defined.
#[export] Instance source_key_countable : Countable source_key.
Proof. refine (inj_countable' (λ k, (k_kind k, k_name k)) (λ x, SourceKey x.1 x.2) _); by intros []. Defined.

(** Tables [fragment], [profile] and [assignment]; a removed head's pointer is NULL, and only a fragment has a layer. *)
Record head_row := HeadRow { hd_cluster : string; hd_key : source_key; hd_layer : string; hd_current : option string; hd_revision : Z }.
(** A reference row of a source revision. *)
Record declaration := Declaration { dc_kind : string; dc_encoding : string; dc_generation : string; dc_version : Z }.
#[export] Instance declaration_eq : EqDecision declaration. Proof. solve_decision. Defined.
Record fragment_rev := FragmentRev {
  fv_cluster : string; fv_name : string; fv_layer : string; fv_document : string; fv_declared : gmap string declaration }.
Record profile_rev := ProfileRev { pv_cluster : string; pv_name : string; pv_pins : list string }.
Record assignment_rev := AssignmentRev {
  av_cluster : string; av_machine : string; av_profiles : list string; av_fragments : list (string * string) }.
Record import_rev := ImportRev {
  ib_machine : string; ib_document : string; ib_declared : gmap string declaration; ib_configuration : string }.

Inductive draft_state := DOpen | DPublished | DDiscarded.
#[export] Instance draft_state_eq : EqDecision draft_state. Proof. solve_decision. Defined.
Definition draft_text (s : draft_state) : string :=
  match s with DOpen => "open" | DPublished => "published" | DDiscarded => "discarded" end.
Record draft_row := DraftRow {
  df_cluster : string; df_state : draft_state; df_revision : Z; df_token : string; df_release : option string }.
(** Table [draft_source_entry]; no revision is a removal, no base an absent head. *)
Record entry_row := EntryRow { en_revision : option string; en_base : option Z }.

(** What a publish operation has besides its row of the core. *)
Record job_row := JobRow { jb_draft : string; jb_revision : Z; jb_by : string; jb_role : string; jb_lease : option Z }.
Record renderer := Renderer { rn_contract : string; rn_machinery : string; rn_checksum : string; rn_kubernetes : string }.
Record released := Released {
  re_cluster : string; re_draft : string; re_revision : Z; re_digest : string; re_renderer : renderer;
  re_operation : string; re_by : string; re_role : string; re_epoch : string }.
Record source_row := SourceRow { so_head : string; so_current : option string; so_revision : Z }.
Record machine_row := MachineRow {
  mc_base : string; mc_assignment : string; mc_mode : string; mc_configuration : string; mc_observation : string }.

(** Draft tables; source tables; publication tables.  [pt_starts] holds the endpoint and the
    publication generation of an observation's start. *)
Record draft_tables := DraftTables {
  dt_drafts : gmap string draft_row; dt_entries : gmap (string * source_key) entry_row; dt_imports : gmap (string * string) string }.
Record source_tables := SourceTables {
  st_heads : gmap string head_row; st_fragments : gmap string fragment_rev; st_profiles : gmap string profile_rev;
  st_assignments : gmap string assignment_rev; st_bases : gmap string import_rev }.
Record publish_tables := PublishTables {
  pt_jobs : gmap string job_row; pt_releases : gmap string released; pt_sources : gmap (string * source_key) source_row;
  pt_machines : gmap (string * string) machine_row; pt_starts : gmap (string * Z) (string * Z); pt_platforms : gmap string string }.
Record pdb := Pdb {
  core : Db; monitored : Monitor.mdb; staged : Staging.stage;
  tdrafts : draft_tables; tsources : source_tables; tpublish : publish_tables }.

Notation PT := (M pdb err).

Definition set_core (x : Db) (s : pdb) : pdb := Pdb x (monitored s) (staged s) (tdrafts s) (tsources s) (tpublish s).
Definition set_monitored (x : Monitor.mdb) (s : pdb) : pdb := Pdb (core s) x (staged s) (tdrafts s) (tsources s) (tpublish s).
Definition set_staged (x : Staging.stage) (s : pdb) : pdb := Pdb (core s) (monitored s) x (tdrafts s) (tsources s) (tpublish s).
Definition set_tdrafts (x : draft_tables) (s : pdb) : pdb := Pdb (core s) (monitored s) (staged s) x (tsources s) (tpublish s).
Definition set_tsources (x : source_tables) (s : pdb) : pdb := Pdb (core s) (monitored s) (staged s) (tdrafts s) x (tpublish s).
Definition set_tpublish (x : publish_tables) (s : pdb) : pdb := Pdb (core s) (monitored s) (staged s) (tdrafts s) (tsources s) x.
Definition update_draft (i : string) (f : draft_row → draft_row) (s : pdb) : pdb :=
  let t := tdrafts s in set_tdrafts (DraftTables (alter f i (dt_drafts t)) (dt_entries t) (dt_imports t)) s.
Definition set_heads (h : gmap string head_row) (s : pdb) : pdb :=
  let t := tsources s in set_tsources (SourceTables h (st_fragments t) (st_profiles t) (st_assignments t) (st_bases t)) s.

(** A statement of the core's, the monitor's and the claims' transactions inside one of these. *)
Definition in_core {A} (m : M Db err A) : PT A := λ s,
  match m (core s) with Ok (x, d) => Ok (x, set_core d s) | Err e => Err e end.
Definition in_monitor {A} (m : M Monitor.mdb Monitor.monitor_error A) : PT A := λ s,
  match m (monitored s) with
  | Ok (x, d) => Ok (x, set_monitored d s)
  | Err (Monitor.MCheck n) => Err (EConstraint n)
  | Err _ => Err (ENoRows "dependency_status")
  end.
Definition in_staging {A} (m : M Staging.stage Staging.stage_error A) : PT A := λ s,
  match m (staged s) with
  | Ok (x, d) => Ok (x, set_staged d s)
  | Err (Staging.ErrFenced | Staging.ErrEpochSuperseded) => Err ENotController
  | Err _ => Err (ENoRows "staging_claim")
  end.

(** The revisions a draft's entries propose, which the core's approvals read. *)
Definition proposed (draft : string) (t : draft_tables) : list string :=
  omap (λ x, if bool_decide (x.1.1 = draft) then en_revision x.2 else None) (map_to_list (dt_entries t))
  ++ omap (λ x, if bool_decide (x.1.1 = draft) then Some x.2 else None) (map_to_list (dt_imports t)).
(** The core's tables that a publication writes whole: heads, contracts, artifacts and provenance. *)
Definition set_views (h : gmap string string) (c : gmap string string) (r : gmap (string * string) artifact_row) (v : provenance) (d : Db) : Db :=
  {| epoch := epoch d; recovery := recovery d; clock := clock d; machines := machines d; mstates := mstates d;
     heads := h; clusters := clusters d; contracts := c; artifacts := r; plans := plans d; pstates := pstates d;
     approvals := approvals d; principals := principals d; id_revoked := id_revoked d; approval_revocations := approval_revocations d;
     cancellations := cancellations d; starts := starts d; observations := observations d; events := events d; drifts := drifts d;
     ops := ops d; attempts := attempts d; responses := responses d; accountings := accountings d;
     classifications := classifications d; book := book d; prov := v; rlog := rlog d |}.
Definition set_prov (v : provenance) (d : Db) : Db := set_views (Store.heads d) (contracts d) (artifacts d) v d.
Definition view_prov (f : provenance → provenance) (s : pdb) : pdb := set_core (set_prov (f (prov (core s))) (core s)) s.
Definition view_introduced (draft : string) (s : pdb) : pdb :=
  view_prov (λ v, Provenance (releases v) (sources v) (authors v) (<[draft := proposed draft (tdrafts s)]> (introduced v))
    (base_digests v) (services v)) s.
Definition set_author (rev who : string) : pdb → pdb :=
  view_prov (λ v, Provenance (releases v) (sources v) (<[rev := who]> (authors v)) (introduced v) (base_digests v) (services v)).
Definition put_entry (draft : string) (k : source_key) (e : entry_row) (s : pdb) : pdb :=
  let t := tdrafts s in
  view_introduced draft (set_tdrafts (DraftTables (dt_drafts t) (<[(draft, k) := e]> (dt_entries t)) (dt_imports t)) s).

(** ** The draft's check *)

(** A request's path, condition and principal. *)
Record draft_request := DraftRequest {
  dq_draft : string; dq_name : string; dq_if_match : string; dq_principal : string; dq_role : string; dq_epoch : string }.
Record lockedDraft := LockedDraft { ld_id : string; ld_cluster : string; ld_revision : Z }.

Definition quote : string := String (ascii_of_nat 34) EmptyString.
Definition etag (revision : Z) (token : string) : string := quote +:+ pretty revision +:+ "-" +:+ token +:+ quote.

(** [state IN ('queued', 'running')] of a publish operation of the draft. *)
Definition publishing (draft : string) (s : pdb) (op : string) : bool :=
  match ops (core s) !! op, pt_jobs (tpublish s) !! op with
  | Some o, Some j => bool_decide (op_kind_of o = KPublish) && bool_decide (jb_draft j = draft)
      && (bool_decide (op_st o = Queued) || bool_decide (op_st o = Running))
  | _, _ => false
  end.
Definition active_publication (draft : string) (s : pdb) : option string :=
  head (sorted_ids (filter (λ op, publishing draft s op = true) (map_to_list (pt_jobs (tpublish s))).*1)).

Definition no_draft (i : string) : err := refuse 404 "not-found" "no such draft" [("draft", JStr i)].
Definition lockDraft (q : draft_request) : PT lockedDraft :=
  let i := dq_draft q in
  failIf (negb (MustHave i "drf")) (refuse 404 "not-found" "no such draft" []);;
  d ← getsOr (λ s, dt_drafts (tdrafts s) !! i) (no_draft i);
  failIf (negb (bool_decide (df_state d = DOpen)))
    (refuse 409 "conflict" ("the draft is " +:+ draft_text (df_state d)) [("draft", JStr i)]);;
  failIf (negb (bool_decide (etag (df_revision d) (df_token d) = dq_if_match q)))
    (refuse 412 "precondition-failed" "the draft has moved" [("draft", JStr i)]);;
  pub ← gets (active_publication i);
  match pub with
  | Some op => throw (refuse 409 "conflict" "a publication of the draft is active" [("draft", JStr i); ("operation", JStr op)])
  | None => mret (LockedDraft i (df_cluster d) (df_revision d))
  end.

(** [lockHeads]: the fragment and profile heads a later check may read, held from here on. *)
Definition lockHeads (draft : string) (pins fragments profiles : list string) (s : pdb) : gset string :=
  match (if MustHave draft "drf" then dt_drafts (tdrafts s) !! draft else None) with
  | None => ∅
  | Some d =>
      let c := df_cluster d in
      let pinned := omap (λ p, v ← st_fragments (tsources s) !! p; if bool_decide (fv_cluster v = c) then Some (fv_name v) else None) pins in
      dom (filter (λ x : string * head_row, hd_cluster x.2 = c ∧
        (k_kind (hd_key x.2) = SFragment ∧ k_name (hd_key x.2) ∈ fragments ++ pinned
         ∨ k_kind (hd_key x.2) = SProfile ∧ k_name (hd_key x.2) ∈ profiles)) (st_heads (tsources s)))
  end.

(** [headOf] *)
Definition headOf (d : lockedDraft) (k : source_key) (s : pdb) : option (string * head_row) :=
  find (λ x, bool_decide (hd_cluster x.2 = ld_cluster d) && bool_decide (hd_key x.2 = k)) (map_to_list (st_heads (tsources s))).
(** [heldHead] *)
Definition heldHead (d : lockedDraft) (k : source_key) (held : gset string) (s : pdb) : option string :=
  h ← headOf d k s; if bool_decide (h.1 ∈ held) then hd_current h.2 else None.
(** [entryOf] *)
Definition entryOf (d : lockedDraft) (k : source_key) (s : pdb) : option entry_row := dt_entries (tdrafts s) !! (ld_id d, k).

(** [advance] *)
Definition advance (token : string) (d : lockedDraft) : PT string :=
  modify (update_draft (ld_id d) (λ r, DraftRow (df_cluster r) (df_state r) (df_revision r + 1) token (df_release r)));;
  mret (etag (ld_revision d + 1) token).

(** [validName] *)
Definition name_char (c : ascii) : bool :=
  let n := N_of_ascii c in ((97 <=? n) && (n <=? 122) || (48 <=? n) && (n <=? 57) || (n =? 45))%N.
Definition validName (s : string) : bool :=
  let l := String.list_ascii_of_string s in
  (1 <=? length l)%nat && (length l <=? 63)%nat && forallb name_char l
  && negb (bool_decide (head l = Some "-"%char)) && negb (bool_decide (last l = Some "-"%char)).

(** [keyOf] *)
Definition no_machine (members : doc) : err := refuse 404 "not-found" "no such machine in the draft's cluster" members.
Definition keyOf (q : draft_request) (d : lockedDraft) (kind : skind) : PT source_key :=
  let n := dq_name q in
  match kind with
  | SAssignment =>
      failIf (negb (MustHave n "mch")) (no_machine []);;
      ok ← gets (λ s, bool_decide (m_cluster <$> machines (core s) !! n = Some (ld_cluster d)));
      failIf (negb ok) (no_machine [("machine", JStr n)]);;
      mret (SourceKey SAssignment n)
  | _ =>
      failIf (negb (validName n)) (refuse 400 "invalid-request" "the name must be 1 to 63 lowercase letters, digits and inner hyphens" []);;
      mret (SourceKey kind n)
  end.

(** ** Entries *)

Record sourceEntry := SourceEntry { se_key : source_key; se_head : option string; se_base : option Z; se_revision : option string }.
(** [setEntry]: an entry keeps the base it was first edited from. *)
Definition setEntry (d : lockedDraft) (k : source_key) (rev : option string) : PT sourceEntry :=
  head ← gets (headOf d k);
  found ← gets (entryOf d k);
  let base := match found with Some e => en_base e | None => hd_revision ∘ snd <$> head end in
  modify (put_entry (ld_id d) k (EntryRow rev base));;
  mret (SourceEntry k (fst <$> head) base rev).
Definition answer (token : string) (d : lockedDraft) (e : sourceEntry) : PT (string * sourceEntry) :=
  tag ← advance token d; mret (tag, e).

(** [removeSource] *)
Definition removeSource (token : string) (q : draft_request) (kind : skind) : PT (string * sourceEntry) :=
  d ← lockDraft q; k ← keyOf q d kind;
  found ← gets (entryOf d k); head ← gets (headOf d k);
  failIf (bool_decide (found = None) && bool_decide (head = None))
    (refuse 404 "not-found" ("no such " +:+ skind_text kind +:+ " in the draft or its cluster")
      [(match kind with SAssignment => "machine" | _ => "name" end, JStr (k_name k))]);;
  e ← setEntry d k None; answer token d e.

(** [profileInput.check]; [names] *)
Definition first_bad {A B} (bad : nat → A → option B) (l : list A) : option B :=
  head (omap (λ ix : nat * A, bad ix.1 ix.2) (imap pair l)).
Definition at_index (path : string) (i : nat) : string := path +:+ "[" +:+ pretty i +:+ "]".
Definition profile_check (pins : list string) : option string :=
  if (length pins =? 0)%nat || (256 <? length pins)%nat then Some "fragments must list 1 to 256 fragment revisions"
  else first_bad (λ i f,
    if negb (MustHave f "frv") then Some (at_index "fragments" i +:+ " must be an frv identifier")
    else if bool_decide (f ∈ take i pins) then Some (at_index "fragments" i +:+ " repeats a revision") else None) pins.
Definition names_check (path : string) (seen l : list string) : option string :=
  first_bad (λ i s,
    if negb (validName s) then Some (at_index path i +:+ " must be 1 to 63 lowercase letters, digits and inner hyphens")
    else if bool_decide (s ∈ seen ++ take i l) then Some (at_index path i +:+ " repeats a name") else None) l.

(** [pinnable] *)
Definition pinnable (d : lockedDraft) (held : gset string) (frv : string) (s : pdb) : bool :=
  match st_fragments (tsources s) !! frv with
  | Some v =>
      if bool_decide (fv_cluster v = ld_cluster d) then
        let k := SourceKey SFragment (fv_name v) in
        match entryOf d k s with
        | Some e => bool_decide (en_revision e = Some frv)
        | None => bool_decide (heldHead d k held s = Some frv)
        end
      else false
  | None => false
  end.
Definition fresh_revision (taken : bool) (table : string) : PT unit := failIf taken (EDuplicate table).

(** [updateProfile]. Its first statements hold the heads of [s0]: until the draft's lock is given, other
    transactions commit. *)
Definition updateProfile (token prv : string) (q : draft_request) (pins : list string) (s0 : pdb) : PT (string * sourceEntry) :=
  let held := lockHeads (dq_draft q) pins [] [] s0 in
  d ← lockDraft q; k ← keyOf q d SProfile;
  bad ← gets (λ s, first_bad (λ i f, if pinnable d held f s then None else Some (at_index "fragments" i, f)) pins);
  reject ((λ x, refuse 422 "validation-failed"
    "a pin must be the revision this draft proposes for its fragment or, with no entry for it, the fragment's head revision"
    [("path", JStr x.1); ("revision", JStr x.2)]) <$> bad);;
  taken ← gets (λ s, bool_decide (is_Some (st_profiles (tsources s) !! prv)));
  fresh_revision taken "profile_revision";;
  modify (λ s, let t := tsources s in
    set_tsources (SourceTables (st_heads t) (st_fragments t) (<[prv := ProfileRev (ld_cluster d) (k_name k) pins]> (st_profiles t))
      (st_assignments t) (st_bases t)) s);;
  modify (set_author prv (dq_principal q));;
  e ← setEntry d k (Some prv); answer token d e.

(** [discardDraft] *)
Definition discardDraft (token : string) (q : draft_request) : PT unit :=
  d ← lockDraft q;
  modify (update_draft (ld_id d) (λ r, DraftRow (df_cluster r) DDiscarded (df_revision r + 1) token (df_release r))).

Definition fragmentLayers : list string := ["global"; "site"; "cluster"; "role"; "workload"; "override"].
(** [assignmentInput]: the fragments by layer. *)
Record assignmentInput := AssignmentInput { ai_profiles : list string; ai_fragments : list (string * list string) }.
Definition layer_list (in_ : assignmentInput) (layer : string) : list string :=
  default [] (snd <$> find (λ x, bool_decide (x.1 = layer)) (ai_fragments in_)).
(** [assignmentInput.check], its layers in the order given. *)
Fixpoint layers_check (seen : list string) (l : list (string * list string)) : option string :=
  match l with
  | [] => None
  | (layer, list) :: l =>
      if negb (bool_decide (layer ∈ fragmentLayers))
      then Some "fragments has a member that is not a layer: global, site, cluster, role, workload or override"
      else if bool_decide (list = []) then Some ("fragments." +:+ layer +:+ " must list a fragment")
      else match names_check ("fragments." +:+ layer) seen list with
           | Some e => Some e
           | None => layers_check (seen ++ list) l
           end
  end.
Definition assignment_check (in_ : assignmentInput) : option string :=
  let n := (length (ai_profiles in_) + sum_list (length ∘ snd <$> ai_fragments in_))%nat in
  match names_check "profiles" [] (ai_profiles in_) with
  | Some e => Some e
  | None => match layers_check [] (ai_fragments in_) with
      | Some e => Some e
      | None => if (n =? 0)%nat || (256 <? n)%nat then Some "an assignment must select 1 to 256 profiles and fragments" else None
      end
  end.

(** [selectable]: the revision the draft may select a name at, with a fragment's layer. *)
Definition selectable (d : lockedDraft) (held : gset string) (k : source_key) (s : pdb) : option string :=
  match entryOf d k s with Some e => en_revision e | None => heldHead d k held s end.
Definition select_layer (rev : string) (s : pdb) : option string := fv_layer <$> st_fragments (tsources s) !! rev.
Definition assignment_selects (d : lockedDraft) (held : gset string) (in_ : assignmentInput) (s : pdb) : option string :=
  match first_bad (λ i p, if bool_decide (selectable d held (SourceKey SProfile p) s = None) then Some (at_index "profiles" i) else None)
          (ai_profiles in_) with
  | Some e => Some e
  | None => head (omap (λ layer, first_bad (λ i f,
        if bool_decide ((selectable d held (SourceKey SFragment f) s ≫= λ r, select_layer r s) = Some layer) then None
        else Some (at_index ("fragments." +:+ layer) i)) (layer_list in_ layer)) fragmentLayers)
  end.
Definition selected_fragments (in_ : assignmentInput) : list (string * string) :=
  layer ← fragmentLayers; pair layer <$> layer_list in_ layer.
(** [updateAssignment], with the heads held as they were in [s0]. *)
Definition updateAssignment (token asr : string) (q : draft_request) (in_ : assignmentInput) (s0 : pdb) : PT (string * sourceEntry) :=
  let held := lockHeads (dq_draft q) [] (ai_fragments in_ ≫= snd) (ai_profiles in_) s0 in
  d ← lockDraft q; k ← keyOf q d SAssignment;
  bad ← gets (assignment_selects d held in_);
  reject ((λ path, refuse 422 "validation-failed"
    "a name must have a head or be proposed by this draft, not removed by it, and a fragment must carry its layer"
    [("path", JStr path)]) <$> bad);;
  taken ← gets (λ s, bool_decide (is_Some (st_assignments (tsources s) !! asr)));
  fresh_revision taken "assignment_revision";;
  modify (λ s, let t := tsources s in
    set_tsources (SourceTables (st_heads t) (st_fragments t) (st_profiles t)
      (<[asr := AssignmentRev (ld_cluster d) (k_name k) (ai_profiles in_) (selected_fragments in_)]> (st_assignments t)) (st_bases t)) s);;
  modify (set_author asr (dq_principal q));;
  e ← setEntry d k (Some asr); answer token d e.

(** [createDraft] *)
Definition createDraft (token i cluster : string) : PT string :=
  ok ← gets (λ s, bool_decide (is_Some (clusters (core s) !! cluster)));
  failIf (negb ok) (refuse 404 "not-found" "no such cluster" [("cluster", JStr cluster)]);;
  taken ← gets (λ s, bool_decide (is_Some (dt_drafts (tdrafts s) !! i)));
  fresh_revision taken "draft";;
  modify (λ s, let t := tdrafts s in
    set_tdrafts (DraftTables (<[i := DraftRow cluster DOpen 1 token None]> (dt_drafts t)) (dt_entries t) (dt_imports t)) s);;
  mret (etag 1 token).
