(* ===== verification/Ingested.v ===== *)
(** * The transactions that end an ingestion ([internal/api/fragments.go], [runner.go]): a fragment
    update's and an import's, each with its staging claim, its draft entry and its operation.

    What the ingestion of a document gave is an argument: the sanitized text, its references and the
    generations it minted, or the refusal it ended with. *)

From S2P Require Import Prelude Ident Store.
From S2P Require Import Request Governance Recovery.
From S2P Require Import Drafts.
From S2P Require Staging.

Section Ingested.
Variable tick : Z → Z.
(** The process: its staging owner. *)
Variable o : Staging.owner.

(** ** A fragment update *)

Record reference := Reference { rf_kind : string; rf_encoding : string; rf_version : Z }.
(** [draftIngest] *)
Record draftIngest := DraftIngest {
  gp_claim : Staging.Claim; gp_document : string; gp_references : gmap string reference; gp_minted : gmap string string;
  gp_refusal : option err }.

(** [carriedReference]: the generations that the reference rows of a cluster hold. *)
Definition holds_reference (name : string) (r : reference) (l : gmap string declaration) : option string :=
  c ← l !! name; if bool_decide (dc_kind c = rf_kind r) && bool_decide (dc_version c = rf_version r) then Some (dc_generation c) else None.
Definition carriedReference (cluster name : string) (r : reference) (s : pdb) : list string :=
  sorted_ids (omap (λ x : string * import_rev, if bool_decide (m_cluster <$> machines (core s) !! ib_machine x.2 = Some cluster)
                     then holds_reference name r (ib_declared x.2) else None) (map_to_list (st_bases (tsources s)))
    ++ omap (λ x : string * fragment_rev, if bool_decide (fv_cluster x.2 = cluster)
                     then holds_reference name r (fv_declared x.2) else None) (map_to_list (st_fragments (tsources s)))).
Definition resolve_reference (cluster : string) (minted : gmap string string) (s : pdb) (nr : string * reference) : result err (string * declaration) :=
  let declared g := Ok (nr.1, Declaration (rf_kind nr.2) (rf_encoding nr.2) g (rf_version nr.2)) in
  match minted !! nr.1 with
  | Some g => declared g
  | None => match carriedReference cluster nr.1 nr.2 s with
      | [g] => declared g
      | _ => Err (refuse 422 "validation-failed"
          "a carried reference must name one generation of the draft's cluster with its declared kind and version"
          [("rule", JStr "unknown-reference"); ("reference", JStr nr.1)])
      end
  end.
Fixpoint resolve_each (cluster : string) (minted : gmap string string) (s : pdb) (l : list (string * reference)) : result err (gmap string declaration) :=
  match l with
  | [] => Ok ∅
  | x :: l => match resolve_reference cluster minted s x with
      | Ok d => match resolve_each cluster minted s l with Ok m => Ok (<[d.1 := d.2]> m) | Err e => Err e end
      | Err e => Err e
      end
  end.
(** [resolveReferences], in the names' order. *)
Definition resolveReferences (cluster : string) (refs : gmap string reference) (minted : gmap string string) (s : pdb) : result err (gmap string declaration) :=
  resolve_each cluster minted s (omap (λ n, pair n <$> refs !! n) (sorted_ids (map_to_list refs).*1)).

(** A refusal kept as a value, as nothing was written before it. *)
Definition refusal_of {A} (m : PT A) : PT (result err A) := λ s,
  match m s with
  | Ok (x, s') => Ok (Ok x, s')
  | Err (ERefused st c t ms) => Ok (Err (ERefused st c t ms), s)
  | Err e => Err e
  end.
(** [refused]: the claim abandoned, the refusal recorded as the answer. *)
Definition ingest_refused {A} (c : Staging.Claim) (e : err) : PT (result err A) :=
  in_staging (Staging.Abandon tick o c);; mret (Err e).

(** [updateFragment] *)
Definition updateFragment (token frv : string) (q : draft_request) (layer : string) (g : draftIngest)
    : PT (result err (string * sourceEntry)) :=
  in_staging (Staging.Hold tick o (gp_claim g));;
  match gp_refusal g with
  | Some e => ingest_refused (gp_claim g) e
  | None =>
      dk ← refusal_of (d ← lockDraft q; k ← keyOf q d SFragment; mret (d, k));
      match dk with
      | Err e => ingest_refused (gp_claim g) e
      | Ok (d, k) =>
          refs ← gets (resolveReferences (ld_cluster d) (gp_references g) (gp_minted g));
          match refs with
          | Err e => ingest_refused (gp_claim g) e
          | Ok refs =>
              taken ← gets (λ s, bool_decide (is_Some (st_fragments (tsources s) !! frv)));
              fresh_revision taken "fragment_revision";;
              modify (λ s, let t := tsources s in
                set_tsources (SourceTables (st_heads t)
                  (<[frv := FragmentRev (ld_cluster d) (k_name k) layer (gp_document g) refs]> (st_fragments t))
                  (st_profiles t) (st_assignments t) (st_bases t)) s);;
              modify (set_author frv (dq_principal q));;
              e ← setEntry d k (Some frv);
              in_staging (Staging.Release tick o (gp_claim g));;
              r ← answer token d e; mret (Ok r)
          end
      end
  end.

(** ** An import *)

(** [job] and [imported]: the operation with what T11 bound; the stream, its references and baseline. *)
Record ingest_job := IngestJob { ij_op : string; ij_claim : Staging.Claim; ij_draft : string; ij_revision : Z; ij_author : string }.
Record imported := Imported {
  im_document : string; im_references : gmap string reference; im_generations : gmap string string;
  im_configuration : string; im_baseline : string }.

(** The running operation's end: its state, outcome and cleared owner, under the claim's generation. *)
Definition ended (st : op_state) (res error : option doc) (x : operation) : operation :=
  Operation (op_seq x) (op_kind_of x) st (op_epoch x) None (op_gen x) None (op_plan x) (op_machine x) (op_cluster x)
    (op_created x) res error.
Definition end_job (st : Staging.job_state) (c : Staging.Claim) : M Staging.stage Staging.stage_error unit :=
  job ← gets (λ s, Staging.s_jobs s !! Staging.k_id c);
  done ← Staging.update_job (Staging.k_id c)
    (λ j, bool_decide (Staging.j_owner j = Some (Staging.o_who o)) && (Staging.j_gen j =? Staging.k_gen c))
    (λ j, Staging.MkJob st None (Staging.j_gen j) None None (Staging.j_last j + 1));
  failIf (negb done) Staging.ErrFenced;;
  modify (λ s, Staging.Stage (Staging.s_epoch s) (Staging.s_clock s) (Staging.s_claims s) (Staging.s_jobs s)
    (Staging.s_events s ++ [(Staging.k_id c, default 0 (Staging.j_last <$> job) + 1, Staging.o_epoch o)])).
(** [finish] *)
Definition finish (j : ingest_job) (st : Staging.job_state) (core_st : op_state) (res error : option doc) : PT unit :=
  in_staging (end_job st (ij_claim j));;
  x ← getsOr (λ s, ops (core s) !! ij_op j) ENotController;
  failIf (negb (bool_decide (op_kind_of x = KIngest) && bool_decide (op_st x = Running))) ENotController;;
  in_core (modify (update_op (ij_op j) (ended core_st res error))).

(** Each reference at the generation this run created. *)
Definition minted_references (i : imported) : option (gmap string declaration) :=
  let l := map_to_list (im_references i) in
  ds ← mapM (λ nr : string * reference, g ← im_generations i !! nr.1;
    Some (nr.1, Declaration (rf_kind nr.2) (rf_encoding nr.2) g (rf_version nr.2))) l;
  Some (list_to_map ds).
(** [commitImport]; its refusal rolls it back. *)
Definition commitImport (token ibr : string) (j : ingest_job) (i : imported) : PT unit :=
  let dr := ij_draft j in
  in_staging (Staging.Release tick o (ij_claim j));;
  d ← getsOr (λ s, dt_drafts (tdrafts s) !! dr) (ENoRows "draft");
  failIf (negb (bool_decide (df_state d = DOpen)))
    (refuse 409 "conflict" "the draft closed while the import ran; the claim is abandoned" [("draft", JStr dr)]);;
  failIf (negb (df_revision d =? ij_revision j))
    (refuse 412 "precondition-failed" "the draft moved while the import ran; the claim is abandoned" [("draft", JStr dr)]);;
  pub ← gets (active_publication dr);
  reject ((λ op, refuse 409 "conflict" "a publication of the draft is active; the claim is abandoned"
    [("draft", JStr dr); ("operation", JStr op)]) <$> pub);;
  refs ← getsOr (λ _, minted_references i) (ENoRows "generation");
  machine ← getsOr (λ _, Staging.k_machine (ij_claim j)) (ENoRows "machine");
  taken ← gets (λ s, bool_decide (is_Some (st_bases (tsources s) !! ibr)));
  fresh_revision taken "import_base_revision";;
  modify (λ s, let t := tsources s in
    set_tsources (SourceTables (st_heads t) (st_fragments t) (st_profiles t) (st_assignments t)
      (<[ibr := ImportRev machine (im_document i) refs (im_configuration i)]> (st_bases t))) s);;
  modify (set_author ibr (ij_author j));;
  modify (view_prov (λ v, Provenance (releases v) (sources v) (authors v) (introduced v)
    (<[ibr := im_baseline i]> (base_digests v)) (services v)));;
  modify (λ s, let t := tdrafts s in
    view_introduced dr (set_tdrafts (DraftTables (dt_drafts t) (dt_entries t) (<[(dr, machine) := ibr]> (dt_imports t))) s));;
  modify (update_draft dr (λ r, DraftRow (df_cluster r) (df_state r) (df_revision r + 1) token (df_release r)));;
  finish j Staging.JSucceeded Succeeded
    (Some [("draft", JStr dr); ("draftRevision", JInt (ij_revision j + 1)); ("importBaseRevision", JStr ibr)]) None.
(** [abandon]: the owner's own refusal. *)
Definition abandon (j : ingest_job) (code : string) : PT unit :=
  in_staging (Staging.Abandon tick o (ij_claim j));;
  finish j Staging.JFailed Failed None (Some [("code", JStr code)]).
End Ingested.
