(* ===== verification/Declared.v ===== *)
(** * What a release's records must agree with ([internal/api/publish_declarations.go]): each covered
    machine's reproduction dependencies and provenance records, held to the declarations and texts of
    the sources its composition names. *)

From stdpp Require Import sorting.
From S2P Require Import Prelude IngestPath Store.
From S2P Require Import Drafts.

(** [unitDependency], [compile.Record] and its origins; a digest in hexadecimal is a text. *)
Record unitDependency := UnitDependency {
  ud_reference : string; ud_object : string; ud_version : Z; ud_created : Z; ud_source : string; ud_digest : string;
  ud_path : string; ud_occurrence : Z }.
Record origin := Origin { or_revision : string; or_digest : string }.
Record provenance_record := ProvenanceRecord {
  vr_reference : string; vr_version : Z; vr_kind : string; vr_encoding : string; vr_member : Z; vr_members : Z;
  vr_source : origin; vr_path : string; vr_occurrence : Z; vr_output : string; vr_overridden : option origin }.

(** [declaredSource] *)
Record declaredSource := DeclaredSource { ds_digest : string; ds_declared : gmap string declaration }.

(** [occurrence]; an occurrence's member is its [outcome]. *)
Record occurrence := Occurrence { oc_source : string; oc_reference : string; oc_path : string; oc_n : Z }.
#[export] Instance occurrence_eq : EqDecision occurrence. Proof. solve_decision. Defined.
#[export] Instance occurrence_countable : Countable occurrence.
Proof.
  refine (inj_countable' (λ o, (oc_source o, oc_reference o, oc_path o, oc_n o))
    (λ x, Occurrence x.1.1.1 x.1.1.2 x.1.2 x.2) _); by intros [].
Defined.
Definition occurrence_of (d : unitDependency) : occurrence := Occurrence (ud_source d) (ud_reference d) (ud_path d) (ud_occurrence d).
Definition recorded_at (r : provenance_record) : occurrence :=
  Occurrence (or_revision (vr_source r)) (vr_reference r) (vr_path r) (vr_occurrence r).
Definition outcome_at (r : provenance_record) : occurrence * Z := (recorded_at r, vr_member r).

(** [storedPath] *)
Definition storedPath (s : string) : bool :=
  bool_decide (s = "<redacted>") || match ParsePath s with Some _ => true | None => false end.

(** A clause, with the source and the reference it names. *)
Definition clause : Type := string * string * string.

Section Declared.
(** The 64 digits of a digest. *)
Variable hex : string → string.
(** A machine's composition: each source revision, and whether it is the import base; and the sources. *)
Variable composition : gmap string bool.
Variable composed : gmap string declaredSource.
Definition source_at (rev : string) : declaredSource := default (DeclaredSource "" ∅) (composed !! rev).

Definition reproduction_clause (d : unitDependency) : option clause :=
  let clause t := Some (t, ud_source d, ud_reference d) in
  if bool_decide (composition !! ud_source d = None) then clause "reproduction source outside the composition"
  else let s := source_at (ud_source d) in
  match ds_declared s !! ud_reference d with
  | None => clause "reproduction names no declaration"
  | Some c =>
      if negb (ud_version d =? dc_version c) then clause "reproduction version differs from the declaration"
      else if negb (bool_decide (ud_object d = dc_generation c)) then clause "reproduction object differs from the declared generation"
      else if negb (bool_decide (ud_digest d = ds_digest s)) then clause "reproduction source digest differs" else None
  end.
Definition first_clause {A} (f : A → option clause) (l : list A) : option clause := head (omap f l).

(** The sources in the order met, each with its occurrences numbered from 0. *)
Definition occurrences_from (l : list unitDependency) (source : string) : list Z :=
  ud_occurrence <$> filter (λ d, ud_source d = source) l.
Definition numbered_from_0 (l : list Z) : bool := bool_decide (merge_sort Z.le l = Z.of_nat <$> seq 0 (length l)).
Definition numbering_clause (l : list unitDependency) : option clause :=
  first_clause (λ s, if numbered_from_0 (occurrences_from l s) then None else Some ("reproduction occurrences are not numbered from 0", s, ""))
    (reverse (remove_dups (reverse (ud_source <$> l)))).

(** What the records met so far say. *)
Record met := Met {
  mt_overridden : gset (occurrence * Z); mt_output : gset (occurrence * Z);
  mt_members : gmap occurrence Z; mt_covered : gmap occurrence Z }.
Definition member_count (r : provenance_record) : Z := Z.max (vr_members r) 1.
Definition fits_kind (c : declaration) (r : provenance_record) : bool :=
  if bool_decide (dc_kind c = "mapping") then (0 <=? vr_member r) && (vr_member r <? vr_members r)
  else (vr_member r =? -1) && (vr_members r =? 0).
Definition overridden (r : provenance_record) : bool := bool_decide (is_Some (vr_overridden r)).
(** A record by itself. *)
Definition record_clause (r : provenance_record) : option string :=
  let rev := or_revision (vr_source r) in
  if bool_decide (composition !! rev = None) then Some "provenance source outside the composition"
  else let s := source_at rev in
  if negb (bool_decide (or_digest (vr_source r) = hex (ds_digest s))) then Some "provenance source digest differs"
  else match ds_declared s !! vr_reference r with
  | None => Some "provenance names no declaration"
  | Some c =>
      if negb (vr_version r =? dc_version c) then Some "provenance version differs from the declaration"
      else if negb (bool_decide (vr_encoding r = dc_encoding c)) then Some "provenance encoding differs from the declaration"
      else if negb (fits_kind c r) then Some "provenance member does not fit the declared kind"
      else if negb (bool_decide (vr_kind r = dc_kind c)) then Some "provenance kind differs from the declaration"
      else if eqb (bool_decide (vr_output r = "")) (negb (overridden r)) then Some "provenance record without exactly one outcome"
      else if negb (storedPath (vr_path r)) || negb (bool_decide (vr_output r = "")) && negb (storedPath (vr_output r))
      then Some "provenance path is not a stored path"
      else match vr_overridden r with
           | Some by_ =>
               if negb (bool_decide (composition !! or_revision by_ = Some false)) then Some "provenance override is not a fragment of the composition"
               else if negb (bool_decide (or_digest by_ = hex (ds_digest (source_at (or_revision by_))))) then Some "provenance override digest differs"
               else None
           | None => None
           end
  end.
(** A record after those met. *)
Definition repeats_clause (m : met) (r : provenance_record) : option string :=
  let k := outcome_at r in
  if bool_decide (k ∈ mt_overridden m) || overridden r && bool_decide (k ∈ mt_output m) then Some "provenance outcome repeated"
  else match mt_members m !! recorded_at r with
       | Some n => if negb (n =? member_count r) then Some "provenance member count differs within an occurrence" else None
       | None => None
       end.
Definition meet (m : met) (r : provenance_record) : met :=
  let o := recorded_at r in
  let k := outcome_at r in
  Met (if overridden r then {[k]} ∪ mt_overridden m else mt_overridden m)
    (if overridden r then mt_output m else {[k]} ∪ mt_output m)
    (<[o := member_count r]> (mt_members m))
    (if bool_decide (k ∈ mt_output m) then mt_covered m else <[o := default 0 (mt_covered m !! o) + 1]> (mt_covered m)).
Definition of_record (r : provenance_record) (t : string) : clause := (t, or_revision (vr_source r), vr_reference r).
Fixpoint records_clause (m : met) (l : list provenance_record) : met + clause :=
  match l with
  | [] => inl m
  | r :: l => match record_clause r with
      | Some t => inr (of_record r t)
      | None => match repeats_clause m r with Some t => inr (of_record r t) | None => records_clause (meet m r) l end
      end
  end.

(** Every declaration, the sources and their names in order. *)
Definition declared_names : list (string * string) :=
  s ← sorted_ids (map_to_list composition).*1; n ← sorted_ids (map_to_list (ds_declared (source_at s))).*1; [(s, n)].
Definition unused_clause (reproduced recorded : list (string * string)) : option clause :=
  first_clause (λ x, if negb (bool_decide (x ∈ reproduced)) then Some ("declaration without a reproduction dependency", x.1, x.2)
    else if negb (bool_decide (x ∈ recorded)) then Some ("declaration without a provenance record", x.1, x.2) else None) declared_names.

(** [disagreement]: the first clause, if any. *)
Definition disagreement (reproduction : list unitDependency) (records : list provenance_record) : option clause :=
  match first_clause reproduction_clause reproduction with
  | Some c => Some c
  | None => match numbering_clause reproduction with
  | Some c => Some c
  | None => match records_clause (Met ∅ ∅ ∅ ∅) records with
  | inr c => Some c
  | inl m => match unused_clause ((λ d, (ud_source d, ud_reference d)) <$> reproduction)
               ((λ r, (or_revision (vr_source r), vr_reference r)) <$> records) with
  | Some c => Some c
  | None => match first_clause (λ r, if bool_decide (mt_covered m !! recorded_at r = mt_members m !! recorded_at r) then None
                 else Some (of_record r "provenance occurrence without an outcome for every member")) records with
  | Some c => Some c
  | None => match first_clause (λ r, if bool_decide (recorded_at r ∈ occurrence_of <$> reproduction) then None
                 else Some (of_record r "provenance occurrence without a reproduction dependency")) records with
  | Some c => Some c
  | None => first_clause (λ d, if bool_decide (occurrence_of d ∈ recorded_at <$> records) then None
                 else Some ("reproduction dependency without a provenance record", ud_source d, ud_reference d)) reproduction
  end end end end end end.
End Declared.
