(* ===== verification/Values.v ===== *)
(** * Secret values and their texts: a generation's value ([internal/provider/value.go]), standard base64
    ([encoding/base64]) and the searches of texts ([strings]) that compilation uses.

    A value's JSON text is given as the one value it holds, if any, and whether it is UTF-8. *)

From S2P Require Import Prelude IngestPath Times Json.

(** ** Results, one after another *)

#[export] Instance result_ret E : MRet (result E) := λ A a, Ok a.
#[export] Instance result_bind E : MBind (result E) := λ A B f m, match m with Ok a => f a | Err e => Err e end.
Fixpoint all_ok {E A B} (f : A → result E B) (l : list A) : result E (list B) :=
  match l with [] => Ok [] | x :: l => y ← f x; ys ← all_ok f l; Ok (y :: ys) end.
Definition ok_of {E A} (r : result E A) : option A := match r with Ok a => Some a | Err _ => None end.
Definition or_else {E A} (e : E) (o : option A) : result E A := match o with Some a => Ok a | None => Err e end.

(** ** Searches *)

(** [strings.HasPrefix]; [strings.Index]; [strings.Contains]. *)
Fixpoint Index (p s : string) : option nat :=
  if String.prefix p s then Some 0%nat
  else match s with String _ r => S <$> Index p r | EmptyString => None end.
Definition Contains (s p : string) : bool := bool_decide (is_Some (Index p s)).
(** [s[n:]] and [s[:n]] *)
Fixpoint from (n : nat) (s : string) : string :=
  match n, s with S n, String _ r => from n r | _, _ => s end.
Fixpoint upto (n : nat) (s : string) : string :=
  match n, s with S n, String c r => String c (upto n r) | _, _ => EmptyString end.
Definition Join (sep : string) (l : list string) : string :=
  match l with [] => EmptyString | x :: l => foldl (λ acc y, acc +:+ sep +:+ y) x l end.

(** ** Base64 *)

Local Open Scope N_scope.
Definition b64_char (n : N) : ascii :=
  ascii_of_N (if n <? 26 then 65 + n else if n <? 52 then 71 + n else if n <? 62 then n - 4 else if n =? 62 then 43 else 47).
Definition b64_value (c : ascii) : option N :=
  let n := N_of_ascii c in
  if (65 <=? n) && (n <=? 90) then Some (n - 65)
  else if (97 <=? n) && (n <=? 122) then Some (n - 71)
  else if (48 <=? n) && (n <=? 57) then Some (n + 4)
  else if n =? 43 then Some 62 else if n =? 47 then Some 63 else None.
Definition pad : ascii := "="%char.
Fixpoint encode_bytes (l : list N) : list ascii :=
  match l with
  | a :: b :: c :: l =>
      b64_char (a / 4) :: b64_char (a mod 4 * 16 + b / 16) :: b64_char (b mod 16 * 4 + c / 64) :: b64_char (c mod 64) :: encode_bytes l
  | [a; b] => [b64_char (a / 4); b64_char (a mod 4 * 16 + b / 16); b64_char (b mod 16 * 4); pad]
  | [a] => [b64_char (a / 4); b64_char (a mod 4 * 16); pad; pad]
  | [] => []
  end.
(** Four characters at a time; the padded ones are the last, and their spare bits are not looked at. *)
Fixpoint decode_chars (l : list ascii) : option (list N) :=
  match l with
  | [] => Some []
  | a :: b :: c :: d :: l =>
      x ← b64_value a; y ← b64_value b;
      if bool_decide (c = pad) then if bool_decide (d = pad) && bool_decide (l = []) then Some [x * 4 + y / 16] else None
      else z ← b64_value c;
        if bool_decide (d = pad) then if bool_decide (l = []) then Some [x * 4 + y / 16; y mod 16 * 16 + z / 4] else None
        else w ← b64_value d; r ← decode_chars l; Some (x * 4 + y / 16 :: y mod 16 * 16 + z / 4 :: z mod 4 * 64 + w :: r)
  | _ => None
  end.
Close Scope N_scope.
Definition bytes_of (s : string) : list N := N_of_ascii <$> String.list_ascii_of_string s.
Definition of_bytes (l : list N) : string := String.string_of_list_ascii (ascii_of_N <$> l).
Definition EncodeToString (s : string) : string := String.string_of_list_ascii (encode_bytes (bytes_of s)).
(** [DecodeString]: line breaks are skipped. *)
Definition line_break (c : ascii) : bool := bool_decide (N_of_ascii c = 10%N) || bool_decide (N_of_ascii c = 13%N).
Definition DecodeString (s : string) : option string :=
  of_bytes <$> decode_chars (filter (λ c, line_break c = false) (String.list_ascii_of_string s)).

(** ** [Value] *)

Record Value := MkValue { v_kind : string; v_utf8 : bool; v_json : option json }.

(** [integerNumber] *)
Definition integer_digits (s : string) : bool :=
  match s with
  | EmptyString => false
  | String "0"%char EmptyString => true
  | String "0"%char _ => false
  | _ => all_dec s
  end.
Definition integerNumber (s : string) : bool :=
  let abs := default s (CutPrefix "-" s) in
  integer_digits abs
  && match digits_value 0 abs with
     | Some n => if bool_decide (abs = s) then n <? 2 ^ 64 else n <=? 2 ^ 63
     | None => false
     end.
(** [scalarJSONKind] *)
Definition scalarJSONKind (j : json) : option string :=
  match j with
  | VStr _ => Some "string"
  | VBool _ => Some "boolean"
  | VNum lit => if integerNumber lit then Some "integer" else None
  | _ => None
  end.
(** [Value.check] *)
Definition value_check (v : Value) : bool :=
  v_utf8 v && match v_json v with
  | None => false
  | Some j =>
      if bool_decide (v_kind v ∈ ["string"; "integer"; "boolean"]) then bool_decide (scalarJSONKind j = Some (v_kind v))
      else if bool_decide (v_kind v = "mapping") then
        match j with
        | VObj ms => bool_decide (NoDup ms.*1) && forallb (λ kv, bool_decide (is_Some (scalarJSONKind kv.2))) ms
        | _ => false
        end
      else false
  end.
(** [Value.Decode] *)
Definition Decode (v : Value) : option json := if value_check v then v_json v else None.
