(* ===== verification/Trace.v ===== *)
(** * References resolved and traced ([internal/ingest/declare.go], [resolve.go], [trace.go], [stored.go]).

    A text's documents are the YAML decoder's nodes, a parameter, as [IngestPath] has them: an alias
    holds a copy of the node it names, and the decoder says where in its document that node stands
    ([d_anchor], of an alias's tokens and of whether it is a key), as writing the named node writes
    every alias of it.  The
    encoder is a parameter too. *)

From stdpp Require Import sorting.
From S2P Require Import Prelude IngestPath Times Json Values.

Record decoded := Decoded { d_docs : list node; d_anchor : N → list string → bool → list string * bool }.

(** ** Declarations *)

Record Reference := MkReference { r_kind : string; r_version : Z; r_encoding : string }.
Record Declarations := MkDeclarations { dl_references : gmap string Reference; dl_embedded : list (string * string) }.
Record Sanitized := MkSanitized { sn_docs : string; sn_decl : Declarations }.

Inductive rule :=
| BadName | BadDeclaration | BadPath | TagPlacement | UndeclaredName | LocalTag | Embedded | ReservedText | UnusedName
| KindMismatch | Unresolved | JSONPatch | TraceIndistinct.
#[export] Instance rule_eq : EqDecision rule. Proof. solve_decision. Defined.
(** A refusal names paths; another error is a text. *)
Inductive ingest_error := Refused (r : rule) (paths : list string) | Failed (text : string).
Notation I A := (result ingest_error A).

Definition refTag : string := "!bwref".
Definition coreTags : list string :=
  ["!!str"; "!!int"; "!!bool"; "!!float"; "!!null"; "!!map"; "!!seq"; "!!binary"; "!!timestamp"; "!!merge"].
Definition name_letter (c : ascii) : bool :=
  let n := N_of_ascii c in ((97 <=? n) && (n <=? 122) || (48 <=? n) && (n <=? 57))%N.
(** A name's parts: letters, digits and inner hyphens. *)
Definition name_part (s : string) : bool :=
  let l := String.list_ascii_of_string s in
  forallb (λ c, name_letter c || bool_decide (c = "-"%char)) l
  && match head l, last l with Some a, Some b => name_letter a && name_letter b | _, _ => false end.
Definition validName (s : string) : bool := forallb name_part (Split "/" s).

Definition reference_ok (r : Reference) : bool :=
  bool_decide (r_kind r ∈ ["string"; "integer"; "boolean"; "mapping"]) && (1 <=? r_version r)
  && (bool_decide (r_encoding r = "") || bool_decide (r_encoding r = "base64") && bool_decide (r_kind r = "string")).
(** The embedded documents by path, in the order declared. *)
Fixpoint embedded_of (seen : list (string * string)) (l : list (string * string)) : I (list (string * string)) :=
  match l with
  | [] => Ok seen
  | (path, format) :: l =>
      match ParsePath path with
      | None => Err (Refused BadPath [])
      | Some p =>
          if negb (bool_decide (p_format p = "")) || negb (bool_decide (format ∈ ["yaml"; "json"])) then Err (Refused BadDeclaration [path])
          else if bool_decide (path_string p ∈ seen.*1) then Err (Refused BadDeclaration [path_string p])
          else embedded_of (seen ++ [(path_string p, format)]) l
      end
  end.
(** [checkDeclarations]; of two bad declarations, the code's map order names either. *)
Definition checkDeclarations (d : Declarations) : I (list (string * string)) :=
  match head (filter (λ nr, validName nr.1 && reference_ok nr.2 = false) (map_to_list (dl_references d))) with
  | Some (name, r) => if validName name then Err (Refused BadDeclaration [name]) else Err (Refused BadName [])
  | None => embedded_of [] (dl_embedded d)
  end.
Definition lookup_path {A} (p : string) (l : list (string * A)) : option A := snd <$> find (λ x, bool_decide (x.1 = p)) l.

Definition node_tag (n : node) : string := match n with Scalar t _ | Mapping t _ | Sequence t _ => t | Alias _ => "" end.
Definition node_value (n : node) : string := match n with Scalar _ v => v | _ => "" end.
Definition is_scalar (n : node) : bool := match n with Scalar _ _ => true | _ => false end.

Section Ingest.
(** The decoder of a text, and the encoders of a stream and of one document as JSON. *)
Variable decode : string → option decoded.
Variable encode : list node → option string.
Variable encode_json : node → option string.

Definition parse_stream (s : string) : option decoded := d ← decode s; _ ← parseStream (d_docs d); Some d.
(** [embeddedDocument] *)
Definition embeddedDocument (n : node) : option decoded :=
  match n with
  | Scalar "!!str" v => d ← parse_stream v; if (length (d_docs d) =? 1)%nat then Some d else None
  | _ => None
  end.
Definition top (d : decoded) : node := default (Scalar "" "") (head (d_docs d)).

(** ** [validate] *)

(** What one visit checks: a reference met, a document identified, or a refusal. *)
Inductive finding := Fine | Used (name : string) | Identified (path format : string) (doc : decoded) | Bad (r : rule) (path : string).
(** [above]: the node stands in another. *)
Definition check_visit (d : Declarations) (embedded : list (string * string)) (x : node * Path * bool) (above : bool) : finding :=
  let '(n, p, key) := x in
  let at_ := path_string p in
  match n with
  | Alias t => if key && bool_decide (node_tag (deref t) = refTag) then Bad TagPlacement at_ else Fine
  | _ =>
      if bool_decide (node_tag n = refTag) then
        if key || negb (is_scalar n) || negb above then Bad TagPlacement at_
        else if negb (validName (node_value n)) then Bad BadName at_
        else if bool_decide (dl_references d !! node_value n = None) then Bad UndeclaredName at_
        else Used (node_value n)
      else if negb (bool_decide (node_tag n = "")) && negb (bool_decide (node_tag n ∈ coreTags)) then Bad LocalTag at_
      else if negb (is_scalar n) then Fine
      else match (if key || negb (bool_decide (p_format p = "")) then None else lookup_path at_ embedded) with
           | Some format => match embeddedDocument n with Some doc => Identified at_ format doc | None => Bad Embedded at_ end
           | None => if Contains (node_value n) refTag then Bad ReservedText at_ else Fine
           end
  end.
(** A document's top node stands in nothing. *)
Definition stands_in (x : node * Path * bool) : bool :=
  x.2 || negb (bool_decide (p_pointer x.1.2 = [] ∧ p_format x.1.2 = "")) && negb (bool_decide (p_inner x.1.2 = [] ∧ p_format x.1.2 ≠ "")).
(** The names used, or the first refusal, of an embedded document. *)
Fixpoint check_inner (d : Declarations) (l : list (node * Path * bool)) : I (list string) :=
  match l with
  | [] => Ok []
  | x :: l =>
      match check_visit d [] x (stands_in x) with
      | Bad r p => Err (Refused r [p])
      | Used n => match check_inner d l with Ok u => Ok (n :: u) | Err e => Err e end
      | _ => check_inner d l
      end
  end.
(** The names used and the identified paths met. *)
Fixpoint check_outer (d : Declarations) (embedded : list (string * string)) (l : list (node * Path * bool)) : I (list string * list string) :=
  match l with
  | [] => Ok ([], [])
  | x :: l =>
      match check_visit d embedded x (stands_in x) with
      | Bad r p => Err (Refused r [p])
      | Fine => check_outer d embedded l
      | Used n => match check_outer d embedded l with Ok (u, m) => Ok (n :: u, m) | Err e => Err e end
      | Identified at_ format doc =>
          match check_inner d (walkEmbedded (top doc) x.1.2 format) with
          | Err e => Err e
          | Ok u => match check_outer d embedded l with Ok (u', m) => Ok (u ++ u', at_ :: m) | Err e => Err e end
          end
      end
  end.
Definition validate (docs : list node) (d : Declarations) : I unit :=
  match checkDeclarations d with
  | Err e => Err e
  | Ok embedded =>
      match check_outer d embedded (walkStream docs) with
      | Err e => Err e
      | Ok (used, met) =>
          match head (filter (λ p, p ∉ met) (sorted_ids embedded.*1)) with
          | Some p => Err (Refused Embedded [p])
          | None => match head (filter (λ n, n ∉ used) (map_to_list (dl_references d)).*1) with
              | Some n => Err (Refused UnusedName [n])
              | None => Ok tt
              end
          end
      end
  end.
(** [Stored] *)
Definition Stored (documents : string) (decl : Declarations) : option Sanitized :=
  if bool_decide (documents = "") then None else
  d ← parse_stream documents;
  match validate (d_docs d) decl with Ok _ => Some (MkSanitized documents decl) | Err _ => None end.

(** ** Resolution *)

(** [scalarNode] *)
Definition scalarNode (x : json) : node :=
  match x with
  | VNum lit => Scalar "!!int" lit
  | VBool b => Scalar "!!bool" (if b then "true" else "false")
  | VStr s => Scalar "!!str" s
  | _ => Scalar "!!str" ""
  end.
(** [placed]: a mapping's members in key order. *)
Definition placed (name : string) (r : Reference) (values : gmap string Value) : node + rule :=
  match values !! name with
  | None => inr Unresolved
  | Some v =>
      if bool_decide (v_kind v = "") then inr Unresolved
      else if negb (bool_decide (v_kind v = r_kind r)) then inr KindMismatch
      else match Decode v with
           | None => inr Unresolved
           | Some x =>
               if negb (bool_decide (r_kind r = "mapping")) then
                 let n := scalarNode x in
                 inl (if bool_decide (r_encoding r = "base64") then Scalar (node_tag n) (EncodeToString (node_value n)) else n)
               else match x with
                    | VObj ms => inl (Mapping "!!map" ((λ k, (Scalar "!!str" k, scalarNode (default VNull (lookup_path k ms)))) <$> sorted_ids ms.*1))
                    | _ => inr Unresolved
                    end
           end
  end.

(** What the walk meets: a reference, an identified document that does not parse, or one walked, to be
    written back.  What a reference's value holds is walked too, and meets nothing. *)
Inductive event := Occurs (name : string) (p : Path) | Unparsed | Written (p : Path) (format : string) (doc : decoded).
Definition occurs (x : node * Path * bool) : list event :=
  match x.1.1 with Alias _ => [] | n => if bool_decide (node_tag n = refTag) then [Occurs (node_value n) x.1.2] else [] end.
Definition meets (embedded : list (string * string)) (x : node * Path * bool) : list event :=
  let '(n, p, key) := x in
  match n with
  | Alias _ => []
  | _ =>
      if bool_decide (node_tag n = refTag) then [Occurs (node_value n) p]
      else if key || negb (bool_decide (p_format p = "")) || negb (is_scalar n) then []
      else match lookup_path (path_string p) embedded with
           | None => []
           | Some format => match embeddedDocument n with
               | None => [Unparsed]
               | Some doc => (walkEmbedded (top doc) p format ≫= occurs) ++ [Written p format doc]
               end
           end
  end.
Definition events (embedded : list (string * string)) (docs : list node) : list event := walkStream docs ≫= meets embedded.

(** The values placed and the documents written, by path. *)
Record placing := Placing { pl_values : list (string * node); pl_hosts : list (string * (string * string)) }.
Definition tokens_of (p : Path) : list string := if bool_decide (p_format p = "") then p_pointer p else p_inner p.
Definition with_tokens (p : Path) (ts : list string) : Path :=
  if bool_decide (p_format p = "") then MkPath (p_doc p) ts (p_format p) (p_inner p) else MkPath (p_doc p) (p_pointer p) (p_format p) ts.
(** The node, each reference and identified document in it written. *)
Fixpoint place (w : placing) (anchor : list string → bool → list string * bool) (n : node) (p : Path) (key : bool) : node :=
  match n with
  | Alias t => let '(ts, k) := anchor (tokens_of p) key in Alias (place w anchor t (with_tokens p ts) k)
  | Scalar tag v =>
      if key then n
      else if bool_decide (tag = refTag) then default n (lookup_path (path_string p) (pl_values w))
      else if negb (bool_decide (p_format p = "")) then n
      else match lookup_path (path_string p) (pl_hosts w) with Some (_, text) => Scalar "!!str" text | None => n end
  | Mapping tag m =>
      Mapping tag ((fix pairs m := match m with
        | [] => [] | (k, v) :: m => (place w anchor k p true, place w anchor v (child p (keyToken k)) false) :: pairs m end) m)
  | Sequence tag l =>
      Sequence tag ((fix items i l := match l with
        | [] => [] | c :: l => place w anchor c (child p (Itoa i)) false :: items (N.succ i) l end) 0%N l)
  end.
(** [encodeEmbedded] *)
Definition encodeEmbedded (n : node) (format : string) : option string :=
  if bool_decide (format = "json") then (λ t, t +:+ String (ascii_of_N 10) "") <$> encode_json n else encode [n].
Definition pipe_member (n : node) : bool :=
  match n with Mapping _ m => existsb (λ kv, Contains (node_value kv.1) "|") m | _ => false end.
(** [resolveWith], the walk's events in order; [value] gives each reference's node. *)
Fixpoint run_events {S} (value : S → string → Path → I (node * S)) (w : placing) (s : S) (l : list event) : I (placing * S) :=
  match l with
  | [] => Ok (w, s)
  | Unparsed :: _ => Err (Refused Embedded [])
  | Occurs name p :: l =>
      match value s name p with
      | Err e => Err e
      | Ok (n, s') =>
          if bool_decide (p_format p = "") && pipe_member n then Err (Refused BadPath [path_string p])
          else run_events value (Placing (pl_values w ++ [(path_string p, n)]) (pl_hosts w)) s' l
      end
  | Written p format doc :: l =>
      let inner := MkPath (p_doc p) (p_pointer p) format [] in
      match encodeEmbedded (place w (d_anchor doc 0%N) (top doc) inner false) format with
      | None => Err (Refused Embedded [path_string p])
      | Some text => run_events value (Placing (pl_values w) (pl_hosts w ++ [(path_string p, (format, text))])) s l
      end
  end.
Definition resolveWith {S} (x : Sanitized) (value : S → string → Path → I (node * S)) (s : S) : I (string * list (string * string) * S) :=
  if bool_decide (sn_docs x = "") then Err (Failed "a sanitized value made by ingestion is required") else
  match parse_stream (sn_docs x) with
  | None => Err (Failed "a sanitized stream does not parse")
  | Some d =>
      match checkDeclarations (sn_decl x) with
      | Err e => Err e
      | Ok embedded =>
          match run_events value (Placing [] []) s (events embedded (d_docs d)) with
          | Err e => Err e
          | Ok (w, s') =>
              match encode (imap (λ i n, place w (d_anchor d (N.of_nat i)) n (MkPath (N.of_nat i) [] "" []) false) (d_docs d)) with
              | None => Err (Failed "the sanitized stream could not be encoded")
              | Some text => Ok (text, (pl_hosts w).*2, s')
              end
          end
      end
  end.
Definition declared (x : Sanitized) (name : string) : Reference := default (MkReference "" 0 "") (dl_references (sn_decl x) !! name).
(** [Resolve] *)
Definition Resolve (x : Sanitized) (values : gmap string Value) : I string :=
  match resolveWith x (λ _ name p, match placed name (declared x name) values with
                                   | inl n => Ok (n, tt) | inr r => Err (Refused r [path_string p]) end) tt with
  | Ok (text, _, _) => Ok text
  | Err e => Err e
  end.

(** ** Stand-ins *)

Inductive TraceKind := TraceString | TraceBytes | TraceInteger | TraceBoolean.
#[export] Instance TraceKind_eq : EqDecision TraceKind. Proof. solve_decision. Defined.
Record Tracer := MkTracer {
  t_id : nat; t_ref : string; t_version : Z; t_encoding : string; t_declared : string; t_member : Z; t_members : Z;
  t_kind : TraceKind; t_leaf : string; t_path : Path; t_value : string; t_raw : string; t_headless : bool }.
Definition maxTracerID : nat := 999.
Definition newline : ascii := ascii_of_N 10.

(** A stand-in's head: zq and three digits. *)
Definition trace_head (id : nat) : string :=
  let n := N.of_nat id in "zq" +:+ (if (n <? 10)%N then "00" else if (n <? 100)%N then "0" else "") +:+ Itoa n.
Definition shape_byte (c : ascii) : ascii :=
  let n := N_of_ascii c in
  if ((97 <=? n) && (n <=? 122))%N then "x"%char else if ((65 <=? n) && (n <=? 90))%N then "X"%char
  else if ((48 <=? n) && (n <=? 57))%N then "0"%char else c.
Fixpoint shape (s : string) : string := match s with String c r => String (shape_byte c) (shape r) | EmptyString => EmptyString end.
(** The bytes left of a character that the head cut. *)
Definition rune_start (c : ascii) : bool := negb (bool_decide (N.land (N_of_ascii c) 192 = 128%N)).
Fixpoint uncut (s : string) : string :=
  match s with String c r => if rune_start c then s else String "x" (uncut r) | EmptyString => EmptyString end.
Definition stand_line (id : nat) (line : string) : string :=
  let h := trace_head id in let b := shape line in
  if (String.length h <=? String.length b)%nat then h +:+ uncut (from (String.length h) b) else b.
Definition standIn (real : string) (id : nat) : string := Join (String newline "") (stand_line id <$> Split newline real).

(** [canonicalBase64] *)
Definition canonicalBase64 (s : string) : option string :=
  b ← DecodeString s; let c := EncodeToString b in if bool_decide (c = s) then None else Some c.
(** [Carried] *)
Definition within (headless : bool) (v x : string) : bool := if headless then bool_decide (v = x) else Contains v x.
Definition Carried (t : Tracer) (v : string) : bool :=
  let in_ := within (t_headless t) v in
  match t_kind t with
  | TraceString => in_ (t_value t) || match canonicalBase64 (t_value t) with Some c => in_ c | None => false end
  | TraceBytes => in_ (t_value t) || in_ (t_raw t)
      || match DecodeString v with Some b => within (t_headless t) b (t_raw t) | None => false end
  | TraceInteger => bool_decide (v = t_value t)
  | TraceBoolean => false
  end.
Definition inStandIn (t u : Tracer) : bool :=
  Carried t (t_value u) || bool_decide (t_kind u = TraceBytes) && Carried t (t_raw u).
(** [Indistinct] *)
Definition Indistinct (t u : Tracer) : option ingest_error :=
  if inStandIn t u || inStandIn u t then Some (Refused TraceIndistinct [path_string (t_path t); path_string (t_path u)]) else None.

(** ** [Trace] *)

Record tracing := Tracing { tc_next : nat; tc_tracers : list Tracer; tc_flipped : bool }.
(** One leaf's stand-in; [member] and [members] as its reference has them. *)
Definition trace_leaf (name : string) (r : Reference) (p : Path) (flip : option nat) (mapping : bool) (member members : Z)
    (s : tracing) (key : string) (leaf : node) : I (node * tracing) :=
  let id := tc_next s in
  let refused := Err (Refused TraceIndistinct [path_string p]) in
  let v := node_value leaf in
  if (maxTracerID <? id)%nat then refused else
  let tracer kind value raw :=
    let text := match kind with TraceBytes => raw | _ => value end in
    MkTracer id name (r_version r) (r_encoding r) (r_kind r) member members kind key p value raw
      (match kind with TraceString | TraceBytes => negb (Contains text (trace_head id)) | _ => false end) in
  let done_ t flipped :=
    if negb (bool_decide (t_kind t = TraceBoolean)) && bool_decide (t_value t = v) then refused
    else Ok (Scalar (node_tag leaf) (t_value t), Tracing (S id) (tc_tracers s ++ [t]) (tc_flipped s || flipped)) in
  if bool_decide (node_tag leaf = "!!int") then done_ (tracer TraceInteger (Itoa (61000 + N.of_nat id)) "") false
  else if bool_decide (node_tag leaf = "!!bool") then
    let flips := bool_decide (flip = Some id) in
    done_ (tracer TraceBoolean (if flips then if bool_decide (v = "true") then "false" else "true" else v) "") flips
  else if bool_decide (r_encoding r = "base64") && negb mapping then
    match DecodeString v with
    | None => Err (Refused Unresolved [path_string p])
    | Some plain => let raw := standIn plain id in done_ (tracer TraceBytes (EncodeToString raw) raw) false
    end
  else done_ (tracer TraceString (standIn v id) "") false.
Fixpoint trace_members (name : string) (r : Reference) (p : Path) (flip : option nat) (members i : Z) (s : tracing)
    (l : list (node * node)) : I (list (node * node) * tracing) :=
  match l with
  | [] => Ok ([], s)
  | (k, leaf) :: l =>
      match trace_leaf name r p flip true i members s (node_value k) leaf with
      | Err e => Err e
      | Ok (leaf', s) =>
          match trace_members name r p flip members (i + 1) s l with Ok (l', s) => Ok ((k, leaf') :: l', s) | Err e => Err e end
      end
  end.
Definition trace_value (x : Sanitized) (values : gmap string Value) (flip : option nat) (s : tracing) (name : string) (p : Path)
    : I (node * tracing) :=
  let r := declared x name in
  match placed name r values with
  | inr e => Err (Refused e [path_string p])
  | inl (Mapping _ []) => Err (Refused TraceIndistinct [path_string p])
  | inl (Mapping tag m) =>
      match trace_members name r p flip (Z.of_nat (length m)) 0 s m with Ok (m', s) => Ok (Mapping tag m', s) | Err e => Err e end
  | inl n => trace_leaf name r p flip false (-1) 0 s "" n
  end.
(** The text with every leaf's stand-in, its tracers and the documents written, each a format and a text. *)
Definition Trace (x : Sanitized) (values : gmap string Value) (first : nat) (flip : option nat)
    : I (string * list Tracer * list (string * string)) :=
  match resolveWith x (trace_value x values flip) (Tracing first [] false) with
  | Err e => Err e
  | Ok (text, hosts, s) =>
      if bool_decide (is_Some flip) && negb (tc_flipped s) then Err (Failed "the flip pass names no boolean tracer of the stream")
      else Ok (text, tc_tracers s, hosts)
  end.
End Ingest.
