(* ===== verification/Redactor.v ===== *)
(** * What compilation shows of a configuration that holds secrets ([internal/compile/redact.go],
    [message.go], the quotes of [internal/ingest/trace.go]): paths and messages redacted.

    A regular expression is matched as [regexp] matches it: its dot is one character of UTF-8, or one
    byte that begins none.  A pattern that is not UTF-8 does not compile, and [MustCompile] panics. *)

From stdpp Require Import sorting.
From S2P Require Import Prelude IngestPath Times Json Values Trace.
From S2P Require Recovery.

Definition redactedToken : string := "<redacted>".
Definition valueToken : string := "<redacted:value>".
(** [copyFloor] *)
Definition copyFloor : nat := 6.

(** [canonical] *)
Definition canonical (s : string) : option string :=
  b ← DecodeString s;
  let c := EncodeToString b in if bool_decide (c = "") || bool_decide (c = s) then None else Some c.

(** ** [redactor] *)

Record redactor := Redactor { rd_exact : list string; rd_contains : list string; rd_opaque : bool }.
Definition forms_of (s : string) : list string :=
  [s; EncodeToString s] ++ match canonical s with Some c => [c] | None => [] end.
(** The strings of a value: its own, or its members' keys and strings. *)
Definition strings_of (j : json) : list string :=
  match j with
  | VStr s => [s]
  | VObj ms => ms ≫= λ kv, kv.1 :: match kv.2 with VStr s => [s] | _ => [] end
  | _ => []
  end.
(** [newRedactor], of the sources' values. *)
Definition newRedactor (values : list Value) : redactor :=
  let forms := (omap Decode values ≫= strings_of) ≫= forms_of in
  Redactor forms (filter (λ f, (copyFloor <=? String.length f)%nat = true) forms)
    (existsb (λ v, bool_decide (Decode v = None)) values).

(** [holds]; [tokens] *)
Definition holds (r : redactor) (t : string) : bool :=
  bool_decide (t ∈ rd_exact r) || existsb (λ f, Contains t f) (rd_contains r).
Definition tokens (r : redactor) (ts : list string) : list string := (λ t, if holds r t then redactedToken else t) <$> ts.
(** [run]: [f] between the text's ends or separators. *)
Definition separates (c : option ascii) : bool :=
  match c with None => true | Some c => bool_decide (c = "/"%char) || bool_decide (c = "|"%char) end.
Fixpoint run_from (before : option ascii) (x f : string) : bool :=
  String.prefix f x && separates before && separates (String.get (String.length f) x)
  || match x with String c r => run_from (Some c) r f | EmptyString => false end.
Definition run (x f : string) : bool := negb (bool_decide (f = "")) && run_from None x f.
(** [~1] and [~0] unescaped, wherever they stand. *)
Fixpoint plain (s : string) : string :=
  match s with
  | String "~"%char (String "1"%char r) => String "/" (plain r)
  | String "~"%char (String "0"%char r) => String "~" (plain r)
  | String c r => String c (plain r)
  | EmptyString => EmptyString
  end.
Definition renders (r : redactor) (s : string) : bool :=
  existsb (λ x, holds r x || existsb (run x) (rd_exact r)) [s; plain s].
(** [path] *)
Definition redact_path (r : redactor) (s : string) : string :=
  match (if rd_opaque r then None else ParsePath s) with
  | None => redactedToken
  | Some p =>
      let s' := path_string (MkPath (p_doc p) (tokens r (p_pointer p)) (p_format p) (tokens r (p_inner p))) in
      let d := path_string (MkPath (p_doc p) [] "" []) in
      if negb (renders r s') then s' else if negb (renders r d) then d else redactedToken
  end.

(** ** Copies of a text in another *)

(** [occurrences] (Knuth-Morris-Pratt), over bytes: the fall back to a shorter border of [f]. *)
Fixpoint fall (fuel : nat) (f : list ascii) (next : list nat) (c : ascii) (k : nat) : nat :=
  match fuel with
  | O => k
  | S fuel => if (0 <? k)%nat && negb (bool_decide (f !! k = Some c)) then fall fuel f next c (default 0%nat (next !! (k - 1)%nat)) else k
  end.
Definition extend_border (f : list ascii) (next : list nat) (c : ascii) (k : nat) : nat :=
  let k := fall k f next c k in if bool_decide (f !! k = Some c) then S k else k.
(** [next] of [f]'s first character, then of each further one. *)
Fixpoint borders (f : list ascii) (next : list nat) (k : nat) (rest : list ascii) : list nat :=
  match rest with
  | [] => next
  | c :: rest => let k := extend_border f next c k in borders f (next ++ [k]) k rest
  end.
Fixpoint search (f : list ascii) (next : list nat) (i k : nat) (s : list ascii) : list nat :=
  match s with
  | [] => []
  | c :: s =>
      let k := extend_border f next c k in
      if (k =? length f)%nat then (S i - length f)%nat :: search f next (S i) (default 0%nat (next !! (k - 1)%nat)) s
      else search f next (S i) k s
  end.
Definition occurrences (s f : string) : list nat :=
  let f := String.list_ascii_of_string f in let s := String.list_ascii_of_string s in
  if bool_decide (f = []) || (length s <? length f)%nat then []
  else search f (borders f [0%nat] 0 (tail f)) 0 0 s.

(** [values]: every run of copies is one token; the copies covering a byte are counted by their ends. *)
Definition copies (r : redactor) (s : string) : list (nat * nat) :=
  rd_contains r ≫= λ f, (λ i, (i, i + String.length f)%nat) <$> occurrences s f.
Definition edge (l : list (nat * nat)) (i : nat) : Z :=
  Z.of_nat (length (filter (λ x, x.1 = i) l)) - Z.of_nat (length (filter (λ x, x.2 = i) l)).
Fixpoint values_from (l : list (nat * nat)) (i : nat) (n : Z) (covered : bool) (s : string) : string :=
  match s with
  | EmptyString => EmptyString
  | String c s =>
      let n := n + edge l i in
      if n =? 0 then String c (values_from l (S i) n false s)
      else if covered then values_from l (S i) n true s else valueToken +:+ values_from l (S i) n true s
  end.
Definition values (r : redactor) (s : string) : string := values_from (copies r s) 0 0 false s.

(** ** [Quotes] *)

Definition minQuote : nat := 5.
Fixpoint common (s t : string) : nat :=
  match s, t with String c s, String d t => if bool_decide (c = d) then S (common s t) else 0%nat | _, _ => 0%nat end.
(** Each place at which a text quotes the head, from an offset on; the fuel is the text's length. *)
Fixpoint prefix_quotes (fuel : nat) (head_ : string) (candidates : list string) (at_ : nat) (msg : string) : list (nat * nat) :=
  match fuel with
  | O => []
  | S fuel =>
      match Index head_ msg with
      | None => []
      | Some j =>
          let best := max_list (common (from j msg) <$> candidates) in
          ((at_ + j)%nat, (at_ + j + best)%nat) :: prefix_quotes fuel head_ candidates (at_ + j + best) (from (j + best) msg)
      end
  end.
(** [prefixQuotes] *)
Definition prefixQuotes (msg v : string) : list (nat * nat) :=
  if (String.length v <? minQuote)%nat then [] else
  prefix_quotes (String.length msg) (upto minQuote v) (v :: Split newline v) 0 msg.
(** A text's exact quotes, one after another. *)
Fixpoint exact_quotes (fuel : nat) (v : string) (at_ : nat) (msg : string) : list (nat * nat) :=
  match fuel with
  | O => []
  | S fuel =>
      match Index v msg with
      | None => []
      | Some j => let e := (j + String.length v)%nat in ((at_ + j)%nat, (at_ + e)%nat) :: exact_quotes fuel v (at_ + e) (from e msg)
      end
  end.
Definition not_digit (c : option ascii) : bool := match c with Some c => negb (is_dec c) | None => true end.
(** A number's quotes, with no digit on either side. *)
Fixpoint number_quotes (before : option ascii) (at_ : nat) (v msg : string) : list (nat * nat) :=
  (if String.prefix v msg && not_digit before && not_digit (String.get (String.length v) msg)
   then [(at_, (at_ + String.length v)%nat)] else [])
  ++ match msg with String c r => number_quotes (Some c) (S at_) v r | EmptyString => [] end.
Definition quote_before (x y : nat * nat) : Prop := (x.1 < y.1)%nat ∨ x.1 = y.1 ∧ (y.2 <= x.2)%nat.
#[export] Instance quote_before_dec : RelDecision quote_before. Proof. intros x y. unfold quote_before. apply _. Defined.
Fixpoint merged (x : nat * nat) (l : list (nat * nat)) : list (nat * nat) :=
  match l with
  | [] => [x]
  | y :: l => if (y.1 <? x.2)%nat then merged (x.1, Nat.max x.2 y.2) l else x :: merged y l
  end.
Definition Quotes (t : Tracer) (msg : string) : list (nat * nat) :=
  if t_headless t then [] else
  let all := match t_kind t with
    | TraceString => prefixQuotes msg (t_value t)
    | TraceBytes => (if bool_decide (t_value t = "") then [] else exact_quotes (String.length msg) (t_value t) 0 msg) ++ prefixQuotes msg (t_raw t)
    | TraceInteger => number_quotes None 0 (t_value t) msg
    | TraceBoolean => []
    end in
  match merge_sort quote_before all with [] => [] | x :: l => merged x l end.

(** ** [redactMessage] *)

Inductive messageOutcome := MessageNone | MessageVerbatim | MessageRedacted | MessageWithheld.
#[export] Instance messageOutcome_eq : EqDecision messageOutcome. Proof. solve_decision. Defined.
Definition withheldNotice (step : string) : string := "<withheld: the " +:+ step +:+ " message may quote a sensitive value>".
(** [tokenOf] *)
Definition tokenOf (t : Tracer) : string :=
  "<redacted:" +:+ t_ref t +:+ "@" +:+ Itoa (Z.to_N (t_version t))
  +:+ (if 0 <=? t_member t then "#" +:+ Itoa (Z.to_N (t_member t)) else "") +:+ ">".

(** [orderQuotes] *)
Notation quoted := (nat * nat * Tracer)%type.
Definition quoted_before (x y : quoted) : Prop := quote_before x.1 y.1.
#[export] Instance quoted_before_dec : RelDecision quoted_before. Proof. intros x y. unfold quoted_before. apply _. Defined.
Fixpoint order_after (q : quoted) (l : list quoted) : option (list quoted) :=
  match l with
  | [] => Some [q]
  | x :: l =>
      if (x.1.1 <? q.1.2)%nat then if (q.1.2 <? x.1.2)%nat then None else order_after q l
      else cons q <$> order_after x l
  end.
Definition orderQuotes (l : list quoted) : option (list quoted) :=
  match merge_sort quoted_before l with [] => Some [] | q :: l => order_after q l end.

(** The ends of a text's characters: one of UTF-8, or a byte that begins none; the fuel is its length. *)
Fixpoint rune_ends (fuel at_ : nat) (l : list N) : list nat :=
  match fuel, l with
  | _, [] | O, _ => []
  | S fuel, _ :: l' =>
      match Recovery.next_rune l with
      | Some (_, rest) => let w := (length l - length rest)%nat in (at_ + w)%nat :: rune_ends fuel (at_ + w) rest
      | None => S at_ :: rune_ends fuel (S at_) l'
      end
  end.
Definition valid_utf8 (s : string) : bool := bool_decide (is_Some (Recovery.runes s)).
(** A text matched by captures of one character or more, each before a literal, to the text's end:
    the first match, by the shortest captures or by the longest.  A literal is matched byte by byte; Go's
    engine also lets a literal U+FFFD match one invalid byte of the text, where this finds no match. *)
Fixpoint first_some {A B} (f : A → option B) (l : list A) : option B :=
  match l with [] => None | x :: l => match f x with Some y => Some y | None => first_some f l end end.
Fixpoint captures (greedy : bool) (literals : list string) (s : string) : option (list nat) :=
  match literals with
  | [] => if bool_decide (s = "") then Some [] else None
  | lit :: literals =>
      let ends := rune_ends (String.length s) 0 (bytes_of s) in
      first_some (λ n, rest ← CutPrefix lit (from n s); cons n <$> captures greedy literals rest) (if greedy then reverse ends else ends)
  end.
(** The literals of a trace message around its quotes: the first, and each quote's next. *)
Definition slice (i j : nat) (s : string) : string := upto (j - i) (from i s).
Fixpoint literals_after (trace : string) (l : list quoted) : list string :=
  match l with
  | [] => []
  | q :: l => slice q.1.2 (match l with x :: _ => x.1.1 | [] => String.length trace end) trace :: literals_after trace l
  end.
(** What is shown: the text around the captures without its copies, and each capture's token. *)
Fixpoint shown_message (r : redactor) (qs : list quoted) (literals : list string) : string :=
  match qs, literals with
  | q :: qs, lit :: literals => tokenOf q.2 +:+ values r lit +:+ shown_message r qs literals
  | _, _ => ""
  end.
(** [redactMessage]; [None] is a panic: the trace message's text between two quotes is not UTF-8. *)
Definition redactMessage (step real trace : string) (ts : list Tracer) (unmarked : bool) (r : redactor) : option (string * messageOutcome) :=
  if bool_decide (real = "") && bool_decide (trace = "") then Some ("", MessageNone) else
  let withheld := Some (withheldNotice step, MessageWithheld) in
  if rd_opaque r || unmarked || bool_decide (real = "") || bool_decide (trace = "") then withheld else
  match orderQuotes (ts ≫= λ t, (λ s, (s, t)) <$> Quotes t trace) with
  | None => withheld
  | Some [] =>
      if negb (bool_decide (real = trace)) then withheld
      else let out := values r real in if holds r out then withheld else Some (out, MessageVerbatim)
  | Some ((q :: _) as qs) =>
      let first := slice 0 q.1.1 trace in
      let literals := literals_after trace qs in
      if negb (forallb valid_utf8 (first :: literals)) then None else
      match (rest ← CutPrefix first real; lazy ← captures false literals rest; greedy ← captures true literals rest; Some (lazy, greedy)) with
      | None => withheld
      | Some (lazy, greedy) =>
          if negb (bool_decide (lazy = greedy)) || existsb (λ q, bool_decide (t_ref q.2 ∈ rd_exact r)) qs then withheld
          else let out := values r first +:+ shown_message r qs literals in
            if holds r out then withheld else Some (out, MessageRedacted)
      end
  end.
