(* ===== verification/Compile.v ===== *)
(** * The compiler ([internal/compile/compile.go], [compiler.go], [checks.go], [records.go],
    [internal/ingest/leaves.go]): a composition traced, each occurrence's outcome, and its records.

    The machinery that loads, patches, encodes and validates a configuration is a parameter, as are the
    YAML decoder and encoders; a message is the machinery's text.  A composed text's aliases are
    followed where they stand. *)

From stdpp Require Import sorting.
From S2P Require Import Prelude IngestPath Times Json Values Trace Redactor.

(** What composition asks of the machinery; a patch file is a strategic merge patch or a JSON6902 one. *)
Inductive patch_file (P : Type) := Strategic (p : P) | JSON6902.
Arguments Strategic {P} p. Arguments JSON6902 {P}.
Record machinery := Machinery {
  mx_input : Type; mx_config : Type; mx_patch : Type;
  mx_bytes : string → mx_input;
  mx_load : mx_input → result string mx_config;
  mx_load_patch : string → result string (patch_file mx_patch);
  mx_apply : mx_input → mx_patch → result string mx_input;
  mx_encode : mx_config → result string string;
  mx_reload : string → result string mx_config;
  mx_validate : mx_config → string → result string unit;
  mx_redact : mx_config → string → mx_config }.

Inductive crule := Rejected | CReservedText | Invalid | Fidelity | Copy | BaseOverride.
#[export] Instance crule_eq : EqDecision crule. Proof. solve_decision. Defined.
(** [Error], an [InputError] around a refusal of [ingest], [ingest]'s own, another, or a panic. *)
Inductive compile_error :=
| CError (r : crule) (input : string) (paths : list string) (message : string)
| CInput (input : string) (e : ingest_error) | CIngest (e : ingest_error) | CFailed (text : string) | CPanic.
Notation C A := (result compile_error A).
Definition fidelity {A} (paths : list string) : C A := Err (CError Fidelity "" paths "").
Definition inputName (i : nat) : string :=
  match i with O => "base" | S i => "fragment[" +:+ Itoa (N.of_nat i) +:+ "]" end.

(** [Source] and [Input] *)
Record Source := MkSource { so_revision : string; so_digest : string; so_text : Sanitized; so_values : gmap string Value }.
Record Input := MkInput { in_base : Source; in_fragments : list Source; in_mode : string }.
Definition modes : list string := ["metal"; "container"; "cloud"].

Inductive yaml_kind := ScalarNode | MappingNode | SequenceNode.
#[export] Instance yaml_kind_eq : EqDecision yaml_kind. Proof. solve_decision. Defined.
(** A value node of a composed stream; a container has no tag or value here. *)
Record leaf := Leaf { lf_path : string; lf_kind : yaml_kind; lf_tag : string; lf_value : string }.

Section Compile.
Variable decode : string → option decoded.
Variable encode : list node → option string.
Variable encode_json : node → option string.
Variable mx : machinery.

(** ** [Compose] *)

Fixpoint holdsReserved (n : node) : bool :=
  match n with
  | Scalar tag v => Contains tag refTag || Contains v refTag
  | Mapping tag m => Contains tag refTag
      || (fix pairs m := match m with [] => false | (k, v) :: m => holdsReserved k || holdsReserved v || pairs m end) m
  | Sequence tag l => Contains tag refTag || existsb holdsReserved l
  | Alias _ => false
  end.
Definition doc_path (i : nat) : string := "doc[" +:+ Itoa (N.of_nat i) +:+ "]".
Definition reservedText (text : string) : option (list string) :=
  d ← decode text; Some (omap id (imap (λ i n, if holdsReserved n then Some (doc_path i) else None) (d_docs d))).
(** A composition, with the machinery's message of a rejection. *)
Definition composed (A : Type) : Type := result (compile_error * string) A.
Definition rejected {A} (input cause : string) : composed A := Err (CError Rejected input [] "", cause).
Fixpoint apply_fragments (i : nat) (input : mx_input mx) (fragments : list string) : composed (mx_input mx) :=
  match fragments with
  | [] => Ok input
  | f :: fragments =>
      let name := inputName (S i) in
      match mx_load_patch mx f with
      | Err cause => rejected name cause
      | Ok JSON6902 => Err (CInput name (Refused JSONPatch []), "")
      | Ok (Strategic p) =>
          match mx_apply mx input p with Err cause => rejected name cause | Ok input => apply_fragments (S i) input fragments end
      end
  end.
Definition compose (base : string) (fragments : list string) : composed string :=
  let input := mx_bytes mx base in
  match mx_load mx input with
  | Err cause => rejected "base" cause
  | Ok _ =>
      match apply_fragments 0 input fragments with
      | Err e => Err e
      | Ok input =>
          match mx_load mx input with
          | Err cause => rejected "" cause
          | Ok cfg =>
              match mx_encode mx cfg with
              | Err cause => rejected "" cause
              | Ok out =>
                  match reservedText out with
                  | None => Err (CFailed "the composed configuration does not parse", "")
                  | Some [] => Ok out
                  | Some paths => Err (CError CReservedText "" paths "", "")
                  end
              end
          end
      end
  end.
Definition compose_all (l : list string) : composed string :=
  match l with [] => rejected "base" EmptyString | base :: fragments => compose base fragments end.
(** A pass's composition: whatever it fails by, the passes do not agree. *)
Definition compose_pass (l : list string) : C string := match compose_all l with Ok m => Ok m | Err _ => fidelity [] end.

(** ** [WalkLeaves] and [WalkKeys] *)

Definition leaf_of (n : node) (p : Path) : leaf :=
  match n with
  | Scalar tag v => Leaf (path_string p) ScalarNode tag v
  | Mapping _ _ => Leaf (path_string p) MappingNode "" ""
  | Sequence _ _ => Leaf (path_string p) SequenceNode "" ""
  | Alias _ => Leaf (path_string p) ScalarNode "" ""
  end.
(** The value nodes at and under a node with their paths, aliases followed; a node [stop] names is met
    and not entered. *)
Fixpoint walk_values (stop : Path → bool) (n : node) (p : Path) : list (node * Path) :=
  match n with
  | Alias t => walk_values stop t p
  | Scalar _ _ => [(n, p)]
  | Mapping _ m =>
      if stop p then [(n, p)] else (n, p) :: (fix pairs m := match m with
        | [] => [] | (k, v) :: m => walk_values stop v (child p (keyToken k)) ++ pairs m end) m
  | Sequence _ l =>
      if stop p then [(n, p)] else (n, p) :: (fix items i l := match l with
        | [] => [] | c :: l => walk_values stop c (child p (Itoa i)) ++ items (N.succ i) l end) 0%N l
  end.
(** The keys, each with the path of the value it names. *)
Fixpoint walk_keys (stop : Path → bool) (n : node) (p : Path) : list (node * Path) :=
  match n with
  | Alias t => walk_keys stop t p
  | Scalar _ _ => []
  | Mapping _ m =>
      if stop p then [] else (fix pairs m := match m with
        | [] => [] | (k, v) :: m => (deref k, child p (keyToken k)) :: walk_keys stop v (child p (keyToken k)) ++ pairs m end) m
  | Sequence _ l =>
      if stop p then [] else (fix items i l := match l with
        | [] => [] | c :: l => walk_keys stop c (child p (Itoa i)) ++ items (N.succ i) l end) 0%N l
  end.
(** A stream walked, an identified document in its host's place; every one of [hosts] is met. *)
Definition identified (hosts : list (string * string)) (p : Path) : option string :=
  if bool_decide (p_format p = "") then lookup_path (path_string p) hosts else None.
Definition inner_top (hosts : list (string * string)) (np : node * Path) : option (option (node * Path)) :=
  match identified hosts np.2 with
  | None => Some None
  | Some format =>
      match embeddedDocument decode np.1 with
      | Some doc => Some (Some (top doc, MkPath (p_doc np.2) (p_pointer np.2) format []))
      | None => None
      end
  end.
Definition is_host (hosts : list (string * string)) (p : Path) : bool := bool_decide (is_Some (identified hosts p)).
Definition no_stop (_ : Path) : bool := false.
Definition walkComposed (text : string) (hosts : list (string * string)) : option (list (node * Path) * list (node * Path)) :=
  d ← parse_stream decode text;
  let values := mjoin (imap (λ i n, walk_values (is_host hosts) n (MkPath (N.of_nat i) [] "" [])) (d_docs d)) in
  let keys := mjoin (imap (λ i n, walk_keys (is_host hosts) n (MkPath (N.of_nat i) [] "" [])) (d_docs d)) in
  let met := omap (λ np : node * Path, if is_host hosts np.2 then Some (path_string np.2) else None) values in
  if negb (forallb (λ h : string * string, bool_decide (h.1 ∈ met)) hosts) then None else
  inner ← mapM (inner_top hosts) values;
  Some (mjoin (zip_with (λ (np : node * Path) (o : option (node * Path)), match o with None => [np] | Some (n, p) => walk_values no_stop n p end) values inner),
        keys ++ mjoin ((λ o : option (node * Path), match o with None => [] | Some (n, p) => walk_keys no_stop n p end) <$> inner)).
Definition leaves (text : string) (hosts : list (string * string)) : option (list leaf) :=
  (λ w : list (node * Path) * list (node * Path), (λ np : node * Path, leaf_of np.1 np.2) <$> w.1) <$> walkComposed text hosts.
(** A key that is not a scalar is each scalar it holds. *)
Fixpoint key_scalars (n : node) (p : string) : list leaf :=
  match n with
  | Scalar tag v => [Leaf p ScalarNode tag v]
  | Alias t => key_scalars t p
  | Mapping _ m => (fix pairs m := match m with [] => [] | (k, v) :: m => key_scalars k p ++ key_scalars v p ++ pairs m end) m
  | Sequence _ l => (fix items l := match l with [] => [] | c :: l => key_scalars c p ++ items l end) l
  end.
Definition keys (text : string) (hosts : list (string * string)) : option (list leaf) :=
  (λ w : list (node * Path) * list (node * Path), w.2 ≫= λ np : node * Path, key_scalars np.1 (path_string np.2)) <$> walkComposed text hosts.

(** ** Attribution *)

Definition scalar_leaf (l : leaf) : bool := bool_decide (lf_kind l = ScalarNode).
(** [hostsOf]: the identified documents of a composed trace stream, by path; [hs] are the documents the
    trace wrote, each a format and a text. *)
Definition add_host (acc : list (string * string)) (at_format : string * string) : C (list (string * string)) :=
  match lookup_path at_format.1 acc with
  | None => Ok (acc ++ [at_format])
  | Some g => if bool_decide (g = at_format.2) then Ok acc else fidelity []
  end.
Fixpoint add_hosts (acc l : list (string * string)) : C (list (string * string)) :=
  match l with [] => Ok acc | x :: l => acc ← add_host acc x; add_hosts acc l end.
Definition formats_of (hs : list (string * string)) (l : leaf) : list (string * string) :=
  if scalar_leaf l then (λ h : string * string, (lf_path l, h.1)) <$> filter (λ h, h.2 = lf_value l) hs else [].
Definition hostsOf (text : string) (hs : list (string * string)) : C (list (string * string)) :=
  l ← or_else (CError Fidelity "" [] "") (leaves text []); add_hosts [] (l ≫= formats_of hs).
(** [shapeDiffers]; where the lengths differ it names no path. *)
Fixpoint shapeDiffers (a b : list leaf) : option string :=
  match a, b with
  | x :: a, y :: b =>
      if bool_decide (lf_path x = lf_path y) && bool_decide (lf_kind x = lf_kind y) && bool_decide (lf_tag x = lf_tag y)
      then shapeDiffers a b else Some (lf_path x)
  | [], [] => None
  | _, _ => Some ""
  end.
Definition same_shape (a b : list leaf) : C unit := match shapeDiffers a b with Some p => fidelity [p] | None => Ok tt end.
(** What each leaf that differs carries: a tracer's id and the leaf's path. *)
Fixpoint attribute_leaves (ts : list Tracer) (real trace : list leaf) : C (list (nat * string)) :=
  match real, trace with
  | r :: real, l :: trace =>
      if negb (scalar_leaf l) then attribute_leaves ts real trace else
      let carriers := filter (λ t, Carried t (lf_value l) = true) ts in
      if eqb (bool_decide (lf_value r = lf_value l)) (bool_decide (carriers = []))
      then rest ← attribute_leaves ts real trace; Ok (((λ t, (t_id t, lf_path l)) <$> carriers) ++ rest)
      else fidelity [lf_path l]
  | _, _ => Ok []
  end.
Definition walked (text : string) (hosts : list (string * string)) : C (list leaf) := or_else (CError Fidelity "" [] "") (leaves text hosts).
(** [attribute]: the paths attributed, and the identified documents. *)
Definition attribute (real trace : string) (ts : list Tracer) (hs : list (string * string)) : C (list (nat * string) * list (string * string)) :=
  hosts ← hostsOf trace hs;
  rl ← walked real hosts; tl ← walked trace hosts;
  _ ← same_shape rl tl;
  attrs ← attribute_leaves ts rl tl; Ok (attrs, hosts).
(** [flipped] *)
Definition changed_leaves (a b : list leaf) : list string :=
  omap (λ xy : leaf * leaf, if scalar_leaf xy.1 && negb (bool_decide (lf_value xy.1 = lf_value xy.2)) then Some (lf_path xy.1) else None) (zip a b).
Definition flipped (trace : list leaf) (flip : string) (hosts : list (string * string)) : C (list string) :=
  fl ← walked flip hosts; _ ← same_shape trace fl; Ok (changed_leaves trace fl).

(** ** Passes *)

(** A tracer and its source. *)
Notation traced := (Tracer * nat)%type.
(** [traceAll]: the texts, each source's first id, the tracers and the documents written. *)
Fixpoint trace_sources (i next : nat) (l : list Source) : C (list string * list nat * list traced * list (string * string)) :=
  match l with
  | [] => Ok ([], [], [], [])
  | s :: l =>
      match Trace decode encode encode_json (so_text s) (so_values s) next None with
      | Err e => Err (CInput (inputName i) e)
      | Ok (text, ts, hs) =>
          '(texts, first, ts', hs') ← trace_sources (S i) (next + length ts) l;
          Ok (text :: texts, next :: first, ((λ t, (t, i)) <$> ts) ++ ts', hs ++ hs')
      end
  end.
Fixpoint all_distinct (l : list traced) : C unit :=
  match l with
  | [] => Ok tt
  | t :: l => match first_some (λ u : traced, Indistinct t.1 u.1) l with Some e => Err (CIngest e) | None => all_distinct l end
  end.
Definition traceAll (sources : list Source) : C (list string * list nat * list traced * list (string * string)) :=
  x ← trace_sources 0 0 sources; _ ← all_distinct x.1.2; Ok x.

(** [prefixes] *)
Record prefixes := Prefixes {
  px_sources : list Source; px_real : list string; px_trace : list string; px_first : list nat; px_hosts : list (string * string) }.
(** The trace and the real leaves of the base and the first [k] fragments. *)
Definition prefix_at (p : prefixes) (k : nat) : C (list leaf * list leaf * list (string * string)) :=
  m ← compose_pass (take (S k) (px_trace p)); rm ← compose_pass (take (S k) (px_real p));
  hosts ← hostsOf m (px_hosts p);
  ls ← walked m hosts; rls ← walked rm hosts; _ ← same_shape rls ls; Ok (ls, rls, hosts).
(** A source's text in a boolean's flip pass. *)
Definition flip_text (p : prefixes) (t : traced) : C string :=
  match px_sources p !! t.2, px_first p !! t.2 with
  | Some s, Some first =>
      match Trace decode encode encode_json (so_text s) (so_values s) first (Some (t_id t.1)) with Ok (text, _, _) => Ok text | Err _ => fidelity [] end
  | _, _ => fidelity []
  end.
Definition count_leaves (p : prefixes) (t : traced) (k : nat) : C nat :=
  '(ls, rls, hosts) ← prefix_at p k;
  if negb (bool_decide (t_kind t.1 = TraceBoolean))
  then Ok (length (filter (λ xy : leaf * leaf, scalar_leaf xy.1 && negb (bool_decide (lf_value xy.1 = lf_value xy.2)) && Carried t.1 (lf_value xy.1) = true) (zip ls rls)))
  else text ← flip_text p t;
    fm ← compose_pass (<[t.2 := text]> (take (S k) (px_trace p)));
    changed ← flipped ls fm hosts; Ok (length changed).
(** [presence], from its own source's prefix on; the full composition, where it reached no leaf, last. *)
Definition presence (p : prefixes) (t : traced) : C (list bool) :=
  let n := (length (px_trace p) - 1)%nat in
  l ← all_ok (λ k, c ← count_leaves p t k; Ok (0 <? c)%nat) (seq t.2 (n - t.2));
  Ok (replicate t.2 false ++ l ++ [false]).
(** [overrider] *)
Fixpoint first_absent (k : nat) (l : list bool) : option nat :=
  match l with [] => None | b :: l => if b then first_absent (S k) l else Some k end.
Definition overrider (own : nat) (present : list bool) : C nat :=
  if bool_decide (present !! own = Some true) then
    match first_absent (S own) (drop (S own) present) with Some k => Ok (k - 1)%nat | None => fidelity [] end
  else fidelity [].
(** [narrowed] *)
Fixpoint narrowed_from (p : prefixes) (t : traced) (full n prev k : nat) (fuel : nat) : C (option nat) :=
  match fuel with
  | O => Ok None
  | S fuel =>
      c ← (if (k <? n)%nat then count_leaves p t k else Ok full);
      if (c <? prev)%nat then Ok (Some (k - 1)%nat)
      else if (prev <? c)%nat then fidelity []
      else narrowed_from p t full n prev (S k) fuel
  end.
Definition narrowed (p : prefixes) (t : traced) (full : nat) : C (option nat) :=
  let n := (length (px_trace p) - 1)%nat in
  prev ← count_leaves p t 0;
  if (prev =? full)%nat then Ok None else narrowed_from p t full n prev 1 n.
End Compile.
