(* ===== verification/Compiled.v ===== *)
(** * A compiled configuration ([internal/compile/compiler.go], [checks.go], [render.go], [records.go],
    [internal/ingest/leaves.go], [guard.go]): the output's checks, the redacted text, [Compile] and the
    records of its occurrences. *)

From stdpp Require Import sorting.
From S2P Require Import Prelude IngestPath Times Json Values Trace Redactor Compile.
From S2P Require Import Declared.

(** Where one tracer's value ended up: the paths holding it, or the fragment that overrode it. *)
Record outcome := Outcome { oc_tracer : Tracer; oc_source : nat; oc_paths : list string; oc_by : option nat }.

(** ** [checkOutput] *)

(** [ContainsToken]: no letter or digit on either side. *)
Definition not_word (c : option ascii) : bool :=
  match c with
  | None => true
  | Some c => let n := N_of_ascii c in
      negb ((97 <=? n) && (n <=? 122) || (65 <=? n) && (n <=? 90) || (48 <=? n) && (n <=? 57))%N
  end.
Fixpoint token_from (before : option ascii) (s f : string) : bool :=
  String.prefix f s && not_word before && not_word (String.get (String.length f) s)
  || match s with String c r => token_from (Some c) r f | EmptyString => false end.
Definition ContainsToken (s f : string) : bool := negb (bool_decide (f = "")) && token_from None s f.

Definition long (f : string) : bool := (copyFloor <=? String.length f)%nat.
Definition with_canonical (s : string) : list string := s :: match canonical s with Some c => [c] | None => [] end.
Definition is_member (t : Tracer) : bool := 0 <=? t_member t.
(** The forms of an occurrence's value that are looked for, and those of its member's key. *)
Definition key_forms (o : outcome) : list string :=
  if is_member (oc_tracer o) then filter (λ f, long f = true) (with_canonical (t_leaf (oc_tracer o))) else [].
Definition value_forms (sources : list Source) (o : outcome) : C (list string) :=
  let t := oc_tracer o in
  if negb (bool_decide (t_kind t ∈ [TraceString; TraceBytes])) then Ok [] else
  match (s ← sources !! oc_source o; v ← so_values s !! t_ref t; Decode v) with
  | None => fidelity []
  | Some x =>
      let x := if is_member t then match x with VObj ms => default VNull (lookup_path (t_leaf t) ms) | _ => VNull end else x in
      match x with
      | VStr s => Ok (filter (λ f, long f = true)
          (match t_kind t with TraceBytes => [s; EncodeToString s] | _ => with_canonical s end))
      | _ => Ok []
      end
  end.
Definition overrode_base (o : outcome) : option nat := if (oc_source o =? 0)%nat then oc_by o else None.
Definition checkOutput (real keys : list leaf) (sources : list Source) (outcomes : list outcome) : C unit :=
  match omap overrode_base outcomes with
  | b :: l =>
      let by_ := foldr Nat.min b l in
      Err (CError BaseOverride (inputName (S by_))
        (sorted_ids (omap (λ o, if bool_decide (overrode_base o = Some by_) then Some (path_string (t_path (oc_tracer o))) else None) outcomes)) "")
  | [] =>
      forms ← all_ok (value_forms sources) outcomes;
      let attributed := outcomes ≫= oc_paths in
      let placed := outcomes ≫= λ o, if is_member (oc_tracer o) then (λ p, (p, t_leaf (oc_tracer o))) <$> oc_paths o else [] in
      let copied v := existsb (λ f, Contains v f) (mjoin forms) || existsb (λ f, ContainsToken v f) (outcomes ≫= key_forms) in
      let copies :=
        omap (λ l, if scalar_leaf l && negb (bool_decide (lf_path l ∈ attributed)) && copied (lf_value l) then Some (lf_path l) else None) real
        ++ omap (λ k, if negb (bool_decide ((lf_path k, lf_value k) ∈ placed)) && copied (lf_value k) then Some (lf_path k) else None) keys in
      if bool_decide (copies = []) then Ok tt else Err (CError Copy "" (sorted_ids copies) "")
  end.

Section Compiled.
Variable decode : string → option decoded.
Variable encode : list node → option string.
Variable encode_json : node → option string.
Variable mx : machinery.
(** A text that no configuration holds. *)
Variable fresh_value : string.

(** ** [redactedText] *)

Definition schemaToken : string := "<redacted:schema>".
Inductive redact_error := RedactOpaque | RedactEncode | RedactRewrite | RedactSurvive.

(** Every alias a copy of the node it names; the nodes the copies add are counted. *)
Definition expandLimit : N := 1048576.
Fixpoint expand (n : node) : node :=
  match n with
  | Alias t => expand t
  | Scalar _ _ => n
  | Mapping tag m => Mapping tag ((fix pairs m := match m with [] => [] | (k, v) :: m => (expand k, expand v) :: pairs m end) m)
  | Sequence tag l => Sequence tag (expand <$> l)
  end.
Fixpoint expand_cost (copied : bool) (n : node) : N :=
  ((if copied && negb (match n with Alias _ => true | _ => false end) then 1 else 0)
  + match n with
    | Alias t => expand_cost true t
    | Scalar _ _ => 0
    | Mapping _ m => (fix pairs m := match m with [] => 0 | (k, v) :: m => expand_cost copied k + expand_cost copied v + pairs m end) m
    | Sequence _ l => foldr (λ c x, expand_cost copied c + x) 0 l
    end)%N.
(** A walk that writes: what a value node becomes, and a key; [host] gives an identified document's text. *)
Fixpoint rewrite (value : string → node → node) (key : string → node → node) (host : Path → option string) (n : node) (p : Path) : node :=
  match host p with
  | Some text => Scalar "!!str" text
  | None =>
      match value (path_string p) n with
      | Mapping _ _ =>
          match n with
          | Mapping tag m => Mapping tag ((fix pairs m := match m with
              | [] => []
              | (k, v) :: m => let c := child p (keyToken k) in (key (path_string c) k, rewrite value key host v c) :: pairs m end) m)
          | _ => n
          end
      | Sequence _ _ =>
          match n with
          | Sequence tag l => Sequence tag ((fix items i l := match l with
              | [] => [] | c :: l => rewrite value key host c (child p (Itoa i)) :: items (N.succ i) l end) 0%N l)
          | _ => n
          end
      | n' => n'
      end
  end.
(** [RewriteLeaves]: each identified document written first, then the stream. *)
Definition written_host (value key : string → node → node) (np : node * Path) (hosts : list (string * string)) : option (option (string * string)) :=
  match identified hosts np.2 with
  | None => Some None
  | Some format =>
      doc ← embeddedDocument decode np.1;
      text ← encodeEmbedded encode encode_json
        (rewrite value key (λ _, None) (expand (top doc)) (MkPath (p_doc np.2) (p_pointer np.2) format [])) format;
      Some (Some (path_string np.2, text))
  end.
Definition hosts_cost (hosts : list (string * string)) (values : list (node * Path)) : N :=
  foldr (λ np x, (match (if is_host hosts np.2 then embeddedDocument decode np.1 else None) with
    | Some doc => expand_cost false (top doc) | None => 0 end + x)%N) 0%N values.
Definition RewriteLeaves (text : string) (hosts : list (string * string)) (value key : string → node → node) : option string :=
  d ← parse_stream decode text;
  let values := mjoin (imap (λ i n, walk_values (is_host hosts) n (MkPath (N.of_nat i) [] "" [])) (d_docs d)) in
  let met := omap (λ np : node * Path, if is_host hosts np.2 then Some (path_string np.2) else None) values in
  if (expandLimit <? foldr (λ n x, expand_cost false n + x) 0 (d_docs d) + hosts_cost hosts values)%N then None else
  written ← mapM (λ np, written_host value key np hosts) values;
  if negb (forallb (λ h : string * string, bool_decide (h.1 ∈ met)) hosts) then None else
  let texts := omap id written in
  encode (imap (λ i n, rewrite value key (λ p, if bool_decide (p_format p = "") then lookup_path (path_string p) texts else None)
    (expand n) (MkPath (N.of_nat i) [] "" [])) (d_docs d)).

(** [schemaLeaves] *)
Definition scalars_of (text : string) : option (list (string * string)) :=
  (λ l : list leaf, (λ x, (lf_path x, lf_value x)) <$> filter (λ x, scalar_leaf x = true) l) <$> leaves decode text [].
Definition changed_scalars (a z : list (string * string)) : list string :=
  omap (λ pv, if bool_decide (lookup_path pv.1 z = Some pv.2) then None else Some pv.1) a.
Definition schemaLeaves (text : string) : option (list string) :=
  match mx_reload mx text with
  | Err _ => None
  | Ok cfg =>
      match mx_encode mx cfg, mx_encode mx (mx_redact mx cfg ("bronzeward-redacted-" +:+ fresh_value)) with
      | Ok raw, Ok red =>
          if negb (bool_decide (raw = text)) then None else
          match scalars_of raw, scalars_of red with Some a, Some z => Some (changed_scalars a z) | _, _ => None end
      | _, _ => None
      end
  end.
(** The token of each attributed path, and whether a member's. *)
Definition path_tokens (outcomes : list outcome) : list (string * (string * bool)) :=
  reverse (outcomes ≫= λ o, (λ p, (p, (tokenOf (oc_tracer o), is_member (oc_tracer o)))) <$> oc_paths o).
Definition shown_value (r : redactor) (s : string) : string := if bool_decide (s ∈ rd_exact r) then valueToken else values r s.
Definition redact_value (r : redactor) (ts : list (string * (string * bool))) (schema : list string) (p : string) (n : node) : node :=
  match lookup_path p ts with
  | Some (t, _) => Scalar "!!str" t
  | None =>
      if bool_decide (p ∈ schema) then Scalar "!!str" schemaToken
      else match n with
           | Scalar _ v => if bool_decide (shown_value r v = v) then n else Scalar "!!str" (shown_value r v)
           | _ => n
           end
  end.
Definition redact_key (r : redactor) (ts : list (string * (string * bool))) (p : string) (k : node) : node :=
  let v := match lookup_path p ts with Some (t, true) => t | _ => shown_value r (node_value k) end in
  if bool_decide (v = node_value k) then k else Scalar "!!str" v.
Definition redactedText (text : string) (hosts : list (string * string)) (outcomes : list outcome) (r : redactor) : result redact_error string :=
  if rd_opaque r then Err RedactOpaque else
  match schemaLeaves text with
  | None => Err RedactEncode
  | Some schema =>
      if existsb (λ o, negb (bool_decide (oc_paths o = [])) && bool_decide (t_ref (oc_tracer o) ∈ rd_exact r)) outcomes then Err RedactSurvive else
      let ts := path_tokens outcomes in
      match RewriteLeaves text hosts (redact_value r ts schema) (redact_key r ts), leaves decode text hosts with
      | Some out, Some met =>
          if negb (forallb (λ t : string * (string * bool), bool_decide (t.1 ∈ lf_path <$> met)) ts) then Err RedactRewrite
          else if holds r out then Err RedactSurvive else Ok out
      | _, _ => Err RedactRewrite
      end
  end.

(** ** [Compile] *)

(** [traced]: a tracer and its source. *)
Notation traced := (Tracer * nat)%type.
Fixpoint resolve_sources (i : nat) (l : list Source) : C (list string) :=
  match l with
  | [] => Ok []
  | s :: l =>
      match Resolve decode encode encode_json (so_text s) (so_values s) with
      | Err e => Err (CInput (inputName i) e)
      | Ok text => texts ← resolve_sources (S i) l; Ok (text :: texts)
      end
  end.
(** [validate], with the machinery's message. *)
Definition validated (text mode : string) : composed unit :=
  match mx_reload mx text with
  | Err cause => Err (CError Invalid "" [] "", cause)
  | Ok cfg => match mx_validate mx cfg mode with Err cause => Err (CError Invalid "" [] "", cause) | Ok _ => Ok tt end
  end.
Definition source_values (sources : list Source) : list Value := sources ≫= λ s, (map_to_list (so_values s)).*2.
(** [explain]; [trace] is the same step's on the trace pass, when the sources were traced. *)
Definition explain {A} (step : string) (e : compile_error) (cause : string) (sources : list Source) (ts : list traced)
    (trace : option (composed A)) : compile_error :=
  match e with
  | CError r input paths _ =>
      if bool_decide (cause = "") then e else
      let tc := match trace with
        | Some (Err (CError r' input' _ _, c)) => if bool_decide (r' = r) && bool_decide (input' = input) then c else ""
        | _ => "" end in
      let upto := default (length sources - 1)%nat (first_some (λ i, if bool_decide (inputName i = input) then Some i else None) (seq 0 (length sources))) in
      let unmarked := existsb (λ t : traced, (bool_decide (t_kind t.1 = TraceBoolean) || is_member t.1) && (t.2 <=? upto)%nat) ts in
      match redactMessage step cause tc ts.*1 unmarked (newRedactor (source_values sources)) with
      | None => CPanic
      | Some (message, _) => CError r input paths message
      end
  | _ => e
  end.
(** What is kept of an outcome: redacted paths only. *)
Record kept := Kept { kp_tracer : Tracer; kp_source : nat; kp_by : option nat; kp_shown : list string; kp_at : string }.
Record compiled := MkCompiled {
  cd_text : string; cd_outcomes : list kept; cd_origins : list origin; cd_redacted : result redact_error string }.
(** [origins] *)
Definition origins (sources : list Source) : list origin := (λ s, Origin (so_revision s) (so_digest s)) <$> sources.
(** A boolean's flip pass: its composition and the paths it changes. *)
Definition flip_pass (p : prefixes) (trace : list leaf) (hosts : list (string * string)) (t : traced) : C (nat * list string * string) :=
  text ← flip_text decode encode encode_json p t;
  fm ← compose_pass decode mx (<[t.2 := text]> (px_trace p));
  paths ← flipped decode trace fm hosts; Ok (t_id t.1, paths, fm).
Definition paths_of (attrs : list (nat * string)) (flips : list (nat * list string * string)) (t : Tracer) : list string :=
  if bool_decide (t_kind t = TraceBoolean)
  then default [] ((λ x : nat * list string * string, x.1.2) <$> find (λ x : nat * list string * string, (x.1.1 =? t_id t)%nat) flips)
  else (filter (λ x, x.1 = t_id t) attrs).*2.
Definition outcome_of (p : prefixes) (paths : Tracer → list string) (t : traced) : C outcome :=
  let ps := paths t.1 in
  if bool_decide (ps = []) then
    present ← presence decode encode encode_json mx p t; by_ ← overrider t.2 present; Ok (Outcome t.1 t.2 ps (Some by_))
  else if (t.2 =? 0)%nat && (1 <? length (px_sources p))%nat then
    by_ ← narrowed decode encode encode_json mx p t (length ps); Ok (Outcome t.1 t.2 ps by_)
  else Ok (Outcome t.1 t.2 ps None).
Definition keep (r : redactor) (o : outcome) : kept :=
  Kept (oc_tracer o) (oc_source o) (oc_by o) (redact_path r <$> oc_paths o) (redact_path r (path_string (t_path (oc_tracer o)))).
Definition is_boolean (t : traced) : bool := bool_decide (t_kind t.1 = TraceBoolean).
Definition walked_keys (text : string) (hosts : list (string * string)) : C (list leaf) :=
  or_else (CError Fidelity "" [] "") (keys decode text hosts).
Definition compile (sources : list Source) (mode : string) : C compiled :=
  if negb (bool_decide (mode ∈ modes)) then Err (CFailed "compile: an unknown platform mode") else
  if negb (bool_decide (NoDup (so_revision <$> sources))) then Err (CFailed "compile: source revision composed twice") else
  real ← resolve_sources 0 sources;
  let all := traceAll decode encode encode_json sources in
  match compose_all decode mx real with
  | Err (e, cause) =>
      Err (explain "composition" e cause sources (match all with Ok (_, _, ts, _) => ts | Err _ => [] end)
        (match all with Ok (trace, _, _, _) => Some (compose_all decode mx trace) | Err _ => None end))
  | Ok m =>
      '(trace, first, ts, hs) ← all;
      tm ← compose_pass decode mx trace;
      '(attrs, hosts) ← attribute decode m tm ts.*1 hs;
      traced_leaves ← walked decode tm hosts;
      let p := Prefixes sources real trace first hs in
      flips ← all_ok (flip_pass p traced_leaves hosts) (filter (λ t, is_boolean t = true) ts);
      outcomes ← all_ok (outcome_of p (paths_of attrs flips)) ts;
      rl ← walked decode m hosts; rk ← walked_keys m hosts;
      _ ← checkOutput rl rk sources outcomes;
      match validated m mode with
      | Err (e, cause) => Err (explain "validation" e cause sources ts (Some (validated tm mode)))
      | Ok _ =>
          _ ← all_ok (λ x, match validated x mode with Ok _ => Ok tt | Err _ => fidelity [] end) (tm :: flips.*2);
          let red := newRedactor (source_values sources) in
          Ok (MkCompiled m (keep red <$> outcomes) (origins sources) (redactedText m hosts outcomes red))
      end
  end.
(** The paths of a refusal, redacted. *)
Definition redact_ingest (r : redactor) (e : ingest_error) : ingest_error :=
  match e with Refused x paths => Refused x (redact_path r <$> paths) | _ => e end.
Definition redact_error_paths (r : redactor) (e : compile_error) : compile_error :=
  match e with
  | CError x input paths message => CError x input (redact_path r <$> paths) message
  | CInput input e => CInput input (redact_ingest r e)
  | CIngest e => CIngest (redact_ingest r e)
  | _ => e
  end.
Definition Compile (x : Input) : C compiled :=
  let sources := in_base x :: in_fragments x in
  match compile sources (in_mode x) with
  | Ok c => Ok c
  | Err e => Err (redact_error_paths (newRedactor (source_values sources)) e)
  end.
End Compiled.

(** ** Records *)

(** [ordinals]: an outcome's occurrence, by its source and its path there. *)
Definition place_of (o : kept) : nat * string := (kp_source o, path_string (t_path (kp_tracer o))).
Fixpoint ordinals_from (seen : list (nat * string)) (l : list kept) : list nat :=
  match l with
  | [] => []
  | o :: l =>
      let k := place_of o in
      let before x := length (filter (λ y : nat * string, y.1 = kp_source o) x) in
      match list_find (eq k) seen with
      | Some (i, _) => before (take i seen) :: ordinals_from seen l
      | None => before seen :: ordinals_from (seen ++ [k]) l
      end
  end.
Definition ordinals (c : compiled) : list nat := ordinals_from [] (cd_outcomes c).
Definition origin_at (c : compiled) (i : nat) : origin := default (Origin "" "") (cd_origins c !! i).
(** [Provenance] *)
Definition record_of (c : compiled) (o : kept) (n : nat) (output : string) (by_ : option origin) : provenance_record :=
  let t := kp_tracer o in
  ProvenanceRecord (t_ref t) (t_version t) (t_declared t) (t_encoding t) (t_member t) (t_members t) (origin_at c (kp_source o)) (kp_at o)
    (Z.of_nat n) output by_.
Definition records_of (c : compiled) (x : kept * nat) : list provenance_record :=
  match kp_by x.1 with
  | Some by_ => [record_of c x.1 x.2 "" (Some (origin_at c (S by_)))]
  | None => (λ p, record_of c x.1 x.2 p None) <$> kp_shown x.1
  end.
Definition Provenance (c : compiled) : list provenance_record := zip (cd_outcomes c) (ordinals c) ≫= records_of c.
(** [Effective] *)
Definition Effective (c : compiled) : list (string * Z) :=
  reverse (remove_dups (reverse (omap (λ o, if bool_decide (kp_shown o = []) then None else Some (t_ref (kp_tracer o), t_version (kp_tracer o))) (cd_outcomes c)))).
(** [Reproduction]: an occurrence's reference and version, its source, its path and its number. *)
Record Occurrence := MkOccurrence { oc_ref : string; oc_version : Z; oc_origin : origin; oc_shown : string; oc_number : nat }.
Fixpoint reproduced (c : compiled) (next : gmap nat nat) (l : list (kept * nat)) : list Occurrence :=
  match l with
  | [] => []
  | (o, n) :: l =>
      if (n <? default 0 (next !! kp_source o))%nat then reproduced c next l
      else MkOccurrence (t_ref (kp_tracer o)) (t_version (kp_tracer o)) (origin_at c (kp_source o)) (kp_at o) n
        :: reproduced c (<[kp_source o := S n]> next) l
  end.
Definition Reproduction (c : compiled) : list Occurrence := reproduced c ∅ (zip (cd_outcomes c) (ordinals c)).
