(* ===== verification/RedactorSpec.v ===== *)
(** * What redaction promises: copies are found by one pass exactly where they are (Knuth-Morris-Pratt),
    every byte of a copy is hidden and no other, and what is shown holds no form of a value. *)

From S2P Require Import Prelude IngestPath IngestSpec Times Json Values Trace Redactor.
Local Open Scope nat_scope.

(** ** Longest borders *)

Section Search.
Implicit Types (w : list ascii) (c : ascii).
Variable f : list ascii.

(** [f]'s first [k] characters end [w]; the most of them that do, under a bound. *)
Definition ends (k : nat) (w : list ascii) : Prop := k <= length f ∧ take k f `suffix_of` w.
Definition longest (B : nat) (w : list ascii) (k : nat) : Prop := (k < B ∧ ends k w) ∧ ∀ j, j < B → ends j w → j <= k.
(** Each entry of a table is the longest border of its prefix of [f]. *)
Definition bordered (next : list nat) : Prop := ∀ i b, next !! i = Some b → longest (S i) (take (S i) f) b.

Lemma ends_0 w : ends 0 w.
Proof. split; [lia|]. apply suffix_nil. Qed.
Lemma ends_snoc j w c : ends (S j) (w ++ [c]) ↔ ends j w ∧ f !! j = Some c.
Proof.
  unfold ends. split.
  - intros [Hj H]. destruct (lookup_lt_is_Some_2 f j Hj) as [d Hd]. rewrite (take_S_r _ _ d Hd) in H.
    apply suffix_snoc_inv_1 in H as Hc. apply suffix_snoc_inv_2 in H. subst d. split; [|done]. split; [lia|done].
  - intros [[_ H] Hd]. apply lookup_lt_Some in Hd as Hj. split; [lia|]. rewrite (take_S_r _ _ c Hd). by apply suffix_app.
Qed.
Lemma ends_shorter j k w : j <= k → ends j w → ends k w → ends j (take k f).
Proof.
  intros Hjk [Hj H] [Hk H']. split; [done|]. destruct (suffix_weak_total _ _ _ H H') as [?|Hs]; [done|].
  apply suffix_length in Hs as Hl. rewrite !length_take in Hl. replace j with k in * by lia. done.
Qed.
Lemma ends_trans j k w : ends j (take k f) → ends k w → ends j w.
Proof. intros [Hj H] [_ H']. split; [done|]. by trans (take k f). Qed.

Lemma fall_spec next c w B fuel : bordered next → ∀ k, k <= fuel → k <= length next → k < B → ends k w →
  (∀ j, j < B → ends j w → f !! j = Some c → j <= k) →
  let k' := fall fuel f next c k in
  k' < B ∧ ends k' w ∧ (∀ j, j < B → ends j w → f !! j = Some c → j <= k') ∧ (k' = 0 ∨ f !! k' = Some c).
Proof.
  intros Hb. induction fuel as [|fuel IH]; intros k Hf Hn HB Hk Hall; cbn [fall]; [replace k with 0 in * by lia; auto|].
  destruct (Nat.ltb_spec 0 k) as [Hpos|?]; [|replace k with 0 in * by lia; simpl; auto].
  case_bool_decide as Hc; simpl; [auto|].
  destruct (lookup_lt_is_Some_2 next (k - 1)) as [b Hnb]; [lia|]. rewrite Hnb. simpl.
  destruct (Hb _ _ Hnb) as [[Hbk Hbe] Hmax]. replace (S (k - 1)) with k in * by lia.
  apply IH; [lia..|by eapply ends_trans|]. intros j Hj Hej Hcj. pose proof (Hall j Hj Hej Hcj).
  assert (j ≠ k) by (intros ->; done). apply Hmax; [lia|]. eapply ends_shorter; [|done..]. lia.
Qed.
Lemma extend_spec next c w B k : bordered next → k <= length next → longest B w k →
  longest (S B) (w ++ [c]) (extend_border f next c k).
Proof.
  intros Hb Hn [[HB Hk] Hmax]. unfold extend_border.
  destruct (fall_spec next c w B k Hb k) as (HB' & Hk' & Hall & Hc); [lia|done..|by auto|]. set (k' := fall k f next c k) in *.
  case_bool_decide as Hfc.
  - split; [split; [lia|by apply ends_snoc]|]. intros [|j] Hj Hej; [lia|]. apply ends_snoc in Hej as [Hej Hcj].
    pose proof (Hall j ltac:(lia) Hej Hcj). lia.
  - destruct Hc as [Hc|?]; [|done]. rewrite Hc in *. split; [split; [lia|apply ends_0]|]. intros [|j] Hj Hej; [lia|].
    apply ends_snoc in Hej as [Hej Hcj]. pose proof (Hall j ltac:(lia) Hej Hcj). replace j with 0 in * by lia. done.
Qed.

Lemma borders_spec rest : ∀ next k, f = take (length next) f ++ rest → 0 < length next <= length f →
  bordered next → longest (length next) (take (length next) f) k →
  bordered (borders f next k rest) ∧ length (borders f next k rest) = length f.
Proof.
  induction rest as [|c rest IH]; intros next k Hf Hl Hb Hk; cbn [borders].
  - split; [done|]. apply (f_equal length) in Hf. rewrite app_nil_r, length_take in Hf. lia.
  - set (m := length next) in *. assert (Hc : f !! m = Some c).
    { rewrite Hf, lookup_app_r, length_take, Nat.min_l, Nat.sub_diag by (rewrite ?length_take; lia). done. }
    pose proof (extend_spec next c _ m k Hb ltac:(pose proof Hk as [[? _] _]; lia) Hk) as Hk'. rewrite <-(take_S_r _ _ _ Hc) in Hk'.
    apply lookup_lt_Some in Hc as Hm.
    assert (Hn : length (next ++ [extend_border f next c k]) = S m) by (rewrite length_app; simpl; lia).
    apply IH; rewrite ?Hn.
    + rewrite (take_S_r _ _ _ Hc), <-app_assoc. exact Hf.
    + lia.
    + intros i b [Hi|[Hge Hi]]%lookup_app_Some; [by apply Hb|]. apply list_lookup_singleton_Some in Hi as [Hi <-].
      replace i with m by lia. done.
    + done.
Qed.
Lemma table_spec : f ≠ [] → bordered (borders f [0] 0 (tail f)) ∧ length (borders f [0] 0 (tail f)) = length f.
Proof.
  intros Hf. destruct f as [|a r] eqn:E; [done|]. rewrite <-E in *.
  assert (H0 : longest 1 (take 1 f) 0) by (split; [split; [lia|apply ends_0]|]; intros; lia).
  apply borders_spec; [by rewrite E|rewrite E; simpl; lia| |done].
  intros i b Hi. apply list_lookup_singleton_Some in Hi as [-> <-]. done.
Qed.

(** ** Every place [f] ends, in order *)

Definition found (l : list ascii) (e : nat) : option nat :=
  if decide (f `suffix_of` take e l) then Some (e - length f) else None.
Lemma search_spec next s : f ≠ [] → bordered next → length next = length f → ∀ w k, longest (length f) w k →
  search f next (length w) k s = omap (found (w ++ s)) (seq (S (length w)) (length s)).
Proof.
  intros Hf Hb Hn. induction s as [|c s IH]; intros w k Hk; [done|]. cbn [search seq length].
  assert (Hlen : S (length w) = length (w ++ [c])) by (rewrite length_app; simpl; lia).
  assert (Htake : take (S (length w)) (w ++ c :: s) = w ++ [c]) by (by rewrite (cons_middle c w s), app_assoc, Hlen, take_app_length).
  pose proof (extend_spec next c w _ k Hb ltac:(pose proof Hk as [[? _] _]; lia) Hk) as [[Hlt Hend] Hmax].
  set (k' := extend_border f next c k) in *. cbn [omap list_omap]. unfold found at 1. rewrite Htake.
  assert (Hs : (k' =? length f) = true ↔ f `suffix_of` w ++ [c]).
  { rewrite Nat.eqb_eq. split.
    - intros E. rewrite E in Hend. destruct Hend as [_ H]. by rewrite take_ge in H.
    - intros H. assert (He : ends (length f) (w ++ [c])) by (split; [lia|by rewrite take_ge]).
      pose proof (Hmax (length f) ltac:(lia) He). lia. }
  rewrite (cons_middle c w s), (app_assoc w). destruct (Nat.eqb_spec k' (length f)) as [E|E].
  - rewrite decide_True by (by apply Hs). f_equal. rewrite Hlen. apply IH.
    assert (Hpos : 0 < length f) by (destruct f; [done|simpl; lia]).
    destruct (lookup_lt_is_Some_2 next (k' - 1)) as [b Hnb]; [lia|]. rewrite Hnb. simpl.
    destruct (Hb _ _ Hnb) as [[Hb1 Hb2] Hb3]. replace (S (k' - 1)) with (length f) in * by lia.
    split; [split; [done|]|].
    + eapply ends_trans; [exact Hb2|]. rewrite <-E. done.
    + intros j Hj Hej. apply Hb3; [done|]. apply (ends_shorter j (length f) (w ++ [c])); [lia|done|]. rewrite <-E. done.
  - rewrite decide_False by (intros H; apply Hs in H; lia). rewrite Hlen. apply IH.
    split; [split; [lia|done]|]. intros j Hj Hej. apply Hmax; [lia|done].
Qed.
End Search.

(** ** Copies *)

Local Notation chars := String.list_ascii_of_string.
Lemma chars_length s : length (chars s) = String.length s.
Proof. induction s as [|c s IH]; [done|]. simpl. by rewrite IH. Qed.
Lemma chars_from n : ∀ s, chars (from n s) = drop n (chars s).
Proof. induction n as [|n IH]; intros [|c s]; try done. simpl. by rewrite IH. Qed.
Lemma prefix_chars p : ∀ s, String.prefix p s = true ↔ chars p `prefix_of` chars s.
Proof.
  induction p as [|a p IH]; intros s; simpl.
  - split; [intros _; apply prefix_nil|by destruct s].
  - destruct s as [|b s]; simpl; [split; [done|intros [k Hk]; done]|].
    destruct (ascii_dec a b) as [<-|Hn]; [|split; [done|intros H%prefix_cons_inv_1; done]].
    rewrite IH. split; [apply prefix_cons|apply prefix_cons_inv_2].
Qed.
(** [f] stands in [s] at [i]. *)
Definition stands_at (f s : string) (i : nat) : bool := negb (bool_decide (f = "")) && String.prefix f (from i s).
Lemma stands_chars f s i : stands_at f s i = true ↔ f ≠ "" ∧ ∃ r, drop i (chars s) = chars f ++ r.
Proof.
  unfold stands_at. rewrite andb_true_iff, negb_true_iff, bool_decide_eq_false, prefix_chars, chars_from. done.
Qed.
Lemma chars_nil f : chars f = [] ↔ f = "".
Proof. by destruct f. Qed.
Lemma suffix_take_drop (f l : list ascii) e : e <= length l →
  f `suffix_of` take e l ↔ length f <= e ∧ ∃ r, drop (e - length f) l = f ++ r.
Proof.
  intros He. split.
  - intros [k Hk]. assert (Hl : e = length k + length f).
    { apply (f_equal length) in Hk. rewrite length_take, length_app, Nat.min_l in Hk by done. done. }
    split; [lia|]. exists (drop e l). replace (e - length f) with (length k) by lia.
    rewrite <-(take_drop e l) at 1. rewrite Hk, <-app_assoc, drop_app_length. done.
  - intros [Hf [r Hr]]. exists (take (e - length f) l). rewrite <-(take_drop (e - length f) l), Hr at 1.
    assert (Hl : length (take (e - length f) l) = e - length f) by (rewrite length_take; lia).
    rewrite take_app, Hl, (take_ge (take _ l)) by lia. f_equal. replace (e - (e - length f)) with (length f) by lia. apply take_app_length.
Qed.
Lemma occurrences_elem s f i : i ∈ occurrences s f ↔ stands_at f s i = true.
Proof.
  rewrite stands_chars. unfold occurrences. rewrite <-chars_nil. case_bool_decide as Hf; simpl; [split; [by intros ?%elem_of_nil|tauto]|].
  destruct (Nat.ltb_spec (length (chars s)) (length (chars f))) as [Hlt|Hge].
  { split; [by intros ?%elem_of_nil|]. intros [_ [r Hr]]. apply (f_equal length) in Hr. rewrite length_drop, length_app in Hr. lia. }
  destruct (table_spec _ Hf) as [Hb Hn].
  assert (Hk : longest (chars f) (length (chars f)) [] 0).
  { assert (0 < length (chars f)) by (destruct (chars f); [done|simpl; lia]). split; [split; [lia|apply ends_0]|].
    intros j Hj [_ He]. apply suffix_nil_inv, (f_equal length) in He. rewrite length_take in He. simpl in He. lia. }
  pose proof (search_spec (chars f) _ (chars s) Hf Hb Hn [] 0 Hk) as Hsearch. cbn [length app] in Hsearch. rewrite Hsearch.
  rewrite list_elem_of_omap. setoid_rewrite elem_of_seq. unfold found. split.
  - intros (e & [He1 He2] & H). case_decide as Hs; [|done]. injection H as <-. split; [done|].
    apply suffix_take_drop in Hs; [|lia]. apply Hs.
  - intros [_ Hr]. assert (Hl : i + length (chars f) <= length (chars s)).
    { destruct Hr as [r Hr]. apply (f_equal length) in Hr. rewrite length_drop, length_app in Hr.
      assert (0 < length (chars f)) by (destruct (chars f); [done|simpl; lia]). lia. }
    exists (i + length (chars f)). assert (0 < length (chars f)) by (destruct (chars f); [done|simpl; lia]). split; [lia|].
    rewrite decide_True; [f_equal; lia|]. apply suffix_take_drop; [done|]. split; [lia|].
    replace (i + length (chars f) - length (chars f)) with i by lia. done.
Qed.

(** ** What [values] hides *)

(** Whether a copy covers the byte at [i]; the text with each run of covered bytes a token. *)
Definition covered (r : redactor) (s : string) (i : nat) : bool :=
  existsb (λ f, existsb (λ o, stands_at f s o && (o <=? i) && (i <? o + String.length f)) (seq 0 (S i))) (rd_contains r).
Fixpoint hide (c : nat → bool) (i : nat) (before : bool) (s : string) : string :=
  match s with
  | EmptyString => EmptyString
  | String x s =>
      if negb (c i) then String x (hide c (S i) false s)
      else (if before then "" else valueToken) +:+ hide c (S i) true s
  end.
Lemma covered_iff r s i :
  covered r s i = true ↔ ∃ f o, f ∈ rd_contains r ∧ stands_at f s o = true ∧ o <= i < o + String.length f.
Proof.
  unfold covered. rewrite existsb_exists. setoid_rewrite existsb_exists. split.
  - intros (f & Hf & o & Ho & H). apply andb_true_iff in H as [[Hs H1]%andb_true_iff H2]. apply Nat.leb_le in H1. apply Nat.ltb_lt in H2.
    exists f, o. by rewrite list_elem_of_In.
  - intros (f & o & Hf & Hs & H). exists f. rewrite <-list_elem_of_In. split; [done|]. exists o. rewrite in_seq, Hs. split; [lia|].
    rewrite andb_true_iff. simpl. rewrite Nat.leb_le, Nat.ltb_lt. lia.
Qed.
Lemma copies_elem r s x : x ∈ copies r s ↔ ∃ f, f ∈ rd_contains r ∧ stands_at f s x.1 = true ∧ x.2 = x.1 + String.length f.
Proof.
  unfold copies. rewrite list_elem_of_bind. setoid_rewrite list_elem_of_fmap. setoid_rewrite occurrences_elem.
  split; [intros (f & (i & -> & Hi) & Hf); by exists f|]. intros (f & Hf & Hs & Hx). exists f. split; [|done]. exists x.1. split; [|done].
  destruct x; simpl in *; congruence.
Qed.
(** The copies that start at or before a byte and end after it, as the running sum counts them. *)
Definition covering (l : list (nat * nat)) (i : nat) : Z := Z.of_nat (length (filter (λ x, x.1 <= i < x.2) l)).
Lemma covering_next l i : Forall (λ x, x.1 < x.2) l →
  covering l (S i) = (covering l i + edge l (S i))%Z.
Proof.
  unfold covering, edge. induction l as [|x l IH]; intros Hl; [done|]. apply Forall_cons in Hl as [Hx Hl]. specialize (IH Hl).
  rewrite !filter_cons. repeat case_decide; simpl length; lia.
Qed.
Lemma covering_first l : Forall (λ x, x.1 < x.2) l → covering l 0 = edge l 0.
Proof.
  unfold covering, edge. induction l as [|x l IH]; intros Hl; [done|]. apply Forall_cons in Hl as [Hx Hl]. specialize (IH Hl).
  rewrite !filter_cons. repeat case_decide; simpl length; lia.
Qed.
Lemma copies_forward r s : Forall (λ x, x.1 < x.2) (copies r s).
Proof.
  apply Forall_forall. intros x (f & _ & Hs & ->)%copies_elem. apply stands_chars in Hs as [Hf _]. destruct f; [done|]. simpl. lia.
Qed.
Lemma covering_covered r s i : (covering (copies r s) i =? 0)%Z = negb (covered r s i).
Proof.
  apply eq_true_iff_eq. rewrite negb_true_iff, <-not_true_iff_false, covered_iff, Z.eqb_eq. unfold covering. split.
  - intros H (f & o & Hf & Hs & Hi). assert (Hin : (o, o + String.length f) ∈ filter (λ x, x.1 <= i < x.2) (copies r s)).
    { apply list_elem_of_filter. split; [done|]. apply copies_elem. by exists f. }
    destruct (filter _ _); [by apply elem_of_nil in Hin|]. simpl in H. lia.
  - intros H. destruct (filter _ (copies r s)) as [|x l] eqn:E; [done|]. destruct H.
    assert (Hin : x ∈ filter (λ x, x.1 <= i < x.2) (copies r s)) by (rewrite E; by left).
    apply list_elem_of_filter in Hin as [Hi (f & Hf & Hs & Hx)%copies_elem]. exists f, x.1. rewrite <-Hx. done.
Qed.
Lemma values_hide r s : values r s = hide (covered r s) 0 false s.
Proof.
  unfold values. pose proof (copies_forward r s) as Hl.
  assert (H : ∀ t i n b, (n + edge (copies r s) i = covering (copies r s) i)%Z →
    values_from (copies r s) i n b t = hide (covered r s) i b t); [|apply H; rewrite covering_first by done; lia].
  induction t as [|c t IH]; intros i n b Hn; [done|]. cbn [values_from hide]. rewrite Hn, covering_covered.
  assert (Hnext : (covering (copies r s) i + edge (copies r s) (S i) = covering (copies r s) (S i))%Z) by (by rewrite covering_next).
  destruct (covered r s i); simpl; [destruct b; by rewrite IH|]. f_equal. by apply IH.
Qed.

(** ** What is shown *)

Lemma Index_iff p s : is_Some (Index p s) ↔ ∃ i, String.prefix p (from i s) = true.
Proof.
  induction s as [|c s IH]; cbn [Index].
  - split.
    + destruct (String.prefix p "") eqn:E; [by exists 0|by intros [? ?]].
    + intros [i H]. assert (E : from i "" = "") by (by destruct i). rewrite E in H. by rewrite H.
  - destruct (String.prefix p (String c s)) eqn:E; [split; [by exists 0|done]|]. rewrite fmap_is_Some, IH. split.
    + intros [i H]. by exists (S i).
    + intros [[|i] H]; [change (String.prefix p (String c s) = true) in H; congruence|]. by exists i.
Qed.
(** A text shows no form of the values' strings: it is none, and it holds none of six bytes or more. *)
Definition keeps_out (values : list Value) (t : string) : Prop := ∀ v x s f, v ∈ values → Decode v = Some x → s ∈ strings_of x →
  f ∈ forms_of s → t ≠ f ∧ (copyFloor <= String.length f → ∀ i, String.prefix f (from i t) = false).
(** A path is shown redacted whole or shows no form. *)
Definition hides (values : list Value) (p : string) : Prop := p = redactedToken ∨ keeps_out values p.
Lemma holds_false values t : holds (newRedactor values) t = false → keeps_out values t.
Proof.
  unfold holds, newRedactor. cbn [rd_exact rd_contains]. rewrite orb_false_iff, bool_decide_eq_false. intros [He Hc] v x s f Hv Hx Hs Hf.
  assert (Hin : f ∈ (omap Decode values ≫= strings_of) ≫= forms_of).
  { apply list_elem_of_bind. exists s. split; [done|]. apply list_elem_of_bind. exists x. split; [done|]. apply list_elem_of_omap. by exists v. }
  split; [by intros ->|]. intros Hl i. apply not_true_iff_false. intros Hp. apply not_true_iff_false in Hc. apply Hc, existsb_exists.
  exists f. rewrite <-list_elem_of_In. split; [apply list_elem_of_filter; split; [by apply Nat.leb_le|done]|].
  apply bool_decide_eq_true, Index_iff. by exists i.
Qed.
Lemma path_hides values s : hides values (redact_path (newRedactor values) s).
Proof.
  unfold redact_path. destruct (if rd_opaque _ then None else _) as [p|]; [|by left].
  assert (Hr : ∀ t, renders (newRedactor values) t = false → keeps_out values t).
  { intros t H. apply holds_false. unfold renders in H. simpl in H. rewrite !orb_false_iff in H. tauto. }
  destruct (renders _ _) eqn:E; simpl; [|right; by apply Hr]. destruct (renders _ (path_string (MkPath (p_doc p) [] "" []))) eqn:E'; simpl; [by left|right; by apply Hr].
Qed.
Lemma message_hides step real trace ts unmarked values m o :
  redactMessage step real trace ts unmarked (newRedactor values) = Some (m, o) →
  m = "" ∧ o = MessageNone ∨ m = withheldNotice step ∧ o = MessageWithheld ∨ keeps_out values m ∧ o ∈ [MessageVerbatim; MessageRedacted].
Proof.
  unfold redactMessage. case_match; [intros [= <- <-]; by left|]. case_match; [intros [= <- <-]; auto|].
  case_match; [|intros [= <- <-]; auto]. case_match.
  - case_match; [intros [= <- <-]; auto|]. destruct (holds _ _) eqn:E; intros [= <- <-]; [auto|]. right; right. split; [by apply holds_false|by left].
  - case_match; [done|]. case_match; [|intros [= <- <-]; auto]. case_match. case_match; [intros [= <- <-]; auto|].
    destruct (holds _ _) eqn:E; intros [= <- <-]; [auto|]. right; right. split; [by apply holds_false|by right; left].
Qed.
Lemma forallb_false {A} (f : A → bool) l : forallb f l = false ↔ ∃ x, x ∈ l ∧ f x = false.
Proof.
  induction l as [|y l IH]; cbn; [split; [done|by intros (? & ?%elem_of_nil & _)]|]. setoid_rewrite elem_of_cons.
  rewrite andb_false_iff, IH. naive_solver.
Qed.
(** Redaction panics where the trace message is not UTF-8 before, between or after its quotes. *)
Lemma message_none step real trace ts unmarked r :
  redactMessage step real trace ts unmarked r = None ↔
  real ≠ "" ∧ trace ≠ "" ∧ rd_opaque r = false ∧ unmarked = false
  ∧ ∃ q qs, orderQuotes (ts ≫= λ t, (λ s, (s, t)) <$> Quotes t trace) = Some (q :: qs)
    ∧ ∃ t, t ∈ slice 0 q.1.1 trace :: literals_after trace (q :: qs) ∧ valid_utf8 t = false.
Proof.
  unfold redactMessage. split.
  - destruct (bool_decide_reflect (real = "")), (bool_decide_reflect (trace = "")), (rd_opaque r), unmarked; simpl; try done.
    intros H. split_and!; try done. destruct (orderQuotes _) as [[|q qs]|]; [by repeat case_match|..|done].
    exists q, qs. split; [done|].
    change (valid_utf8 (slice 0 q.1.1 trace) && forallb valid_utf8 (literals_after trace (q :: qs)))
      with (forallb valid_utf8 (slice 0 q.1.1 trace :: literals_after trace (q :: qs))) in H.
    destruct (forallb _ _) eqn:E; [by repeat case_match|]. by apply forallb_false.
  - intros (Hr & Ht & -> & -> & q & qs & -> & Hl). rewrite !bool_decide_false by done. simpl.
    rewrite <-forallb_false in Hl. cbn [forallb literals_after] in Hl. by rewrite Hl.
Qed.
