(* ===== verification/CompileSpec.v ===== *)
(** * What compilation promises of its occurrences: a tracer's stand-in is carried where it is placed and
    by no other's leaf, attribution names exactly the leaves that differ, an override is named exactly,
    and what is returned of a refusal shows no value. *)

From S2P Require Import Prelude IngestPath IngestSpec Times Json Values Trace Redactor RedactorSpec Compile Compiled.
From S2P Require Declared.

(** ** Results *)

Lemma bind_Ok {E A B} (m : result E A) (f : A → result E B) b : m ≫= f = Ok b ↔ ∃ a, m = Ok a ∧ f a = Ok b.
Proof. destruct m as [a|e]; cbn; naive_solver. Qed.
Lemma bind_Err {E A B} (m : result E A) (f : A → result E B) e : m ≫= f = Err e ↔ m = Err e ∨ ∃ a, m = Ok a ∧ f a = Err e.
Proof. destruct m as [a|e']; cbn; naive_solver. Qed.
Lemma all_ok_Ok {E A B} (f : A → result E B) l k : all_ok f l = Ok k ↔ Forall2 (λ x y, f x = Ok y) l k.
Proof.
  revert k. induction l as [|x l IH]; intros k; cbn [all_ok].
  - split; [intros [= <-]; constructor|]. by inversion 1.
  - rewrite bind_Ok. setoid_rewrite bind_Ok. setoid_rewrite IH. split.
    + intros (y & Hy & ys & Hys & [= <-]). by constructor.
    + inversion 1 as [|? y ? ys Hy Hys]; subst. eauto.
Qed.
Lemma or_else_Ok {E A} (e : E) (o : option A) a : or_else e o = Ok a ↔ o = Some a.
Proof. destruct o; cbn; naive_solver. Qed.

(** ** Attribution *)

Definition same_node (a b : leaf) : Prop := lf_path a = lf_path b ∧ lf_kind a = lf_kind b ∧ lf_tag a = lf_tag b.
Lemma shapeDiffers_none a b : shapeDiffers a b = None ↔ Forall2 same_node a b.
Proof.
  revert b. induction a as [|x a IH]; intros [|y b]; cbn [shapeDiffers].
  - split; [constructor|done].
  - split; [done|intros H; inversion H].
  - split; [done|intros H; inversion H].
  - destruct (_ && _) eqn:E; rewrite ?andb_true_iff, ?bool_decide_eq_true in E.
    + rewrite IH, Forall2_cons. unfold same_node. tauto.
    + split; [done|]. intros [(H1 & H2 & H3) _]%Forall2_cons. rewrite H1, H2, H3, !bool_decide_true in E by done. done.
Qed.
Lemma same_shape_Ok a b u : same_shape a b = Ok u ↔ Forall2 same_node a b.
Proof. unfold same_shape. rewrite <-shapeDiffers_none. destruct u. by destruct (shapeDiffers a b). Qed.
Lemma same_paths a b : Forall2 same_node a b → lf_path <$> a = lf_path <$> b.
Proof. induction 1 as [|x y a b [E _] _ IH]; [done|]. cbn. by rewrite E, IH. Qed.
(** The two texts' leaves differ exactly where a tracer's stand-in is carried. *)
Definition carriers (ts : list Tracer) (l : leaf) : list Tracer := filter (λ t, Carried t (lf_value l) = true) ts.
Definition told_apart (ts : list Tracer) (r l : leaf) : Prop := scalar_leaf l = true → lf_value r = lf_value l ↔ carriers ts l = [].
Definition carried_at (ts : list Tracer) (l : leaf) : list (nat * string) :=
  if scalar_leaf l then (λ t, (t_id t, lf_path l)) <$> carriers ts l else [].
Lemma attribute_leaves_Ok ts rl tl attrs : Forall2 same_node rl tl →
  attribute_leaves ts rl tl = Ok attrs ↔ Forall2 (told_apart ts) rl tl ∧ attrs = tl ≫= carried_at ts.
Proof.
  intros H. revert attrs. induction H as [|r l rl tl Hs H IH]; intros attrs; cbn [attribute_leaves].
  - split; [intros [= <-]; split; [constructor|done]|by intros [_ ->]].
  - rewrite Forall2_cons. cbn [mbind list_bind]. unfold told_apart at 1, carried_at at 1. destruct (scalar_leaf l) eqn:E; cbn [negb].
    + unfold carriers. set (cs := filter _ ts). destruct (eqb _ _) eqn:Eb.
      * rewrite eqb_true_iff in Eb. rewrite bind_Ok. setoid_rewrite IH. split.
        -- intros (rest & [Hf ->] & [= <-]). split; [|done]. split; [|done]. intros _.
           rewrite <-(bool_decide_eq_true (_ = _)), Eb, bool_decide_eq_true. done.
        -- intros [[_ Hf] ->]. eauto.
      * split; [done|]. intros [[Hv _] _]. specialize (Hv eq_refl). rewrite eqb_false_iff in Eb. destruct Eb.
        apply bool_decide_ext. exact Hv.
    + rewrite IH. naive_solver.
Qed.

Section Compile.
Context (decode : string → option decoded) (encode : list node → option string) (encode_json : node → option string) (mx : machinery).

Lemma walked_Ok text hosts l : walked decode text hosts = Ok l ↔ leaves decode text hosts = Some l.
Proof. apply or_else_Ok. Qed.
Lemma attribute_Ok real trace ts hs attrs hosts :
  attribute decode real trace ts hs = Ok (attrs, hosts) ↔
  ∃ rl tl, hostsOf decode trace hs = Ok hosts ∧ leaves decode real hosts = Some rl ∧ leaves decode trace hosts = Some tl
    ∧ Forall2 same_node rl tl ∧ Forall2 (told_apart ts) rl tl ∧ attrs = tl ≫= carried_at ts.
Proof.
  unfold attribute. repeat setoid_rewrite bind_Ok. setoid_rewrite walked_Ok. setoid_rewrite same_shape_Ok. split.
  - intros (? & Hh & rl & Hr & tl & Ht & _ & Hs & ? & Ha & [= <- <-]). apply attribute_leaves_Ok in Ha as [? ?]; [|done]. by exists rl, tl.
  - intros (rl & tl & Hh & Hr & Ht & Hs & Hf & ->). eexists. split; [done|]. exists rl. split; [done|]. exists tl. split; [done|].
    exists tt. split; [done|]. eexists. split; [by apply attribute_leaves_Ok|done].
Qed.

(** ** Overrides *)

Lemma first_absent_spec l : ∀ k j, first_absent k l = Some j ↔
  ∃ n, j = (k + n)%nat ∧ l !! n = Some false ∧ ∀ m, (m < n)%nat → l !! m = Some true.
Proof.
  induction l as [|b l IH]; intros k j; cbn [first_absent]; [split; [done|]; intros (n & _ & H & _); by rewrite lookup_nil in H|].
  destruct b.
  - rewrite IH. split.
    + intros (n & -> & Hn & Hm). exists (S n). split; [lia|]. split; [done|]. intros [|m] ?; [done|]. apply Hm. lia.
    + intros ([|n] & -> & Hn & Hm); [done|]. exists n. split; [lia|]. split; [done|]. intros m ?. apply (Hm (S m)). lia.
  - split; [intros [= <-]; exists 0%nat; split; [lia|]; split; [done|]; intros; lia|].
    intros ([|n] & -> & Hn & Hm); [f_equal; lia|]. specialize (Hm 0%nat ltac:(lia)). done.
Qed.
Lemma overrider_Ok own present b : overrider own present = Ok b ↔
  (own <= b)%nat ∧ present !! S b = Some false ∧ ∀ k, (own <= k <= b)%nat → present !! k = Some true.
Proof.
  unfold overrider. case_bool_decide as H.
  - destruct (first_absent _ _) as [j|] eqn:E.
    + apply first_absent_spec in E as (n & -> & Hn & Hm). rewrite lookup_drop in Hn.
      assert (Hall : ∀ k, (own <= k <= own + n)%nat → present !! k = Some true).
      { intros k Hk. destruct (decide (k = own)) as [->|]; [done|]. specialize (Hm (k - S own)%nat ltac:(lia)). rewrite lookup_drop in Hm.
        replace (S own + (k - S own))%nat with k in Hm by lia. done. }
      split.
      * intros [= Hb]. assert (b = (own + n)%nat) as -> by lia. split_and!; [lia|exact Hn|done].
      * intros (Hb & Hf & Ht). f_equal. destruct (Nat.lt_trichotomy b (own + n)) as [Hlt|[Heq|Hgt]]; [|lia|].
        -- rewrite Hall in Hf by lia. done.
        -- rewrite Ht in Hn by lia. done.
    + split; [done|]. intros (Hb & Hf & Ht). assert (Hn : first_absent (S own) (drop (S own) present) = Some (S own + (b - own))%nat); [|congruence].
      apply first_absent_spec. exists (b - own)%nat. split; [done|]. rewrite lookup_drop. replace (S own + (b - own))%nat with (S b) by lia.
      split; [done|]. intros m Hm. rewrite lookup_drop. apply Ht. lia.
  - split; [done|]. intros (Hb & _ & Ht). destruct H. apply Ht. lia.
Qed.
(** An override is named by the fragment that took away the last leaf: the value reached one in every
    composition from its own source's to that fragment's, and reaches none in the next. *)
Definition reached (p : prefixes) (t : Tracer * nat) (k : nat) : Prop := ∃ c, count_leaves decode encode encode_json mx p t k = Ok c ∧ (0 < c)%nat.
Definition unreached (p : prefixes) (t : Tracer * nat) (k : nat) : Prop := count_leaves decode encode encode_json mx p t k = Ok 0%nat.
Lemma presence_lookup p t l k : presence decode encode encode_json mx p t = Ok l → (t.2 <= k < length (px_trace p) - 1)%nat →
  ∃ c, count_leaves decode encode encode_json mx p t k = Ok c ∧ l !! k = Some (0 <? c)%nat.
Proof.
  unfold presence. rewrite bind_Ok. setoid_rewrite all_ok_Ok. intros (bs & Hf & [= <-]) Hk.
  destruct (Forall2_lookup_l _ _ _ (k - t.2)%nat k Hf) as (b & Hb & H).
  { apply lookup_seq. lia. }
  apply bind_Ok in H as (c & Hc & [= <-]). exists c. split; [done|].
  rewrite lookup_app_r, length_replicate by (rewrite length_replicate; lia).
  rewrite lookup_app_l by by eapply lookup_lt_Some. done.
Qed.
Lemma presence_length p t l : presence decode encode encode_json mx p t = Ok l → (t.2 <= length (px_trace p) - 1)%nat →
  length l = S (length (px_trace p) - 1)%nat ∧ l !! (length (px_trace p) - 1)%nat = Some false.
Proof.
  unfold presence. rewrite bind_Ok. setoid_rewrite all_ok_Ok. intros (bs & Hf & [= <-]) Hk.
  apply Forall2_length in Hf. rewrite length_seq in Hf. rewrite !length_app, length_replicate. simpl. split; [lia|].
  rewrite app_assoc, lookup_app_r, length_app, length_replicate by (rewrite length_app, length_replicate; lia).
  replace (_ - _)%nat with 0%nat by lia. done.
Qed.
Lemma override_named p t l b : (t.2 <= length (px_trace p) - 1)%nat → presence decode encode encode_json mx p t = Ok l →
  overrider t.2 l = Ok b →
  (t.2 <= b < length (px_trace p) - 1)%nat ∧ (∀ k, (t.2 <= k <= b)%nat → reached p t k)
  ∧ (S b = length (px_trace p) - 1 ∨ unreached p t (S b))%nat.
Proof.
  intros Ht Hp (Hb & Hf & Hall)%overrider_Ok. destruct (presence_length _ _ _ Hp Ht) as [Hlen Hlast].
  apply lookup_lt_Some in Hf as Hlt. rewrite Hlen in Hlt. split; [lia|]. split.
  - intros k Hk. destruct (presence_lookup _ _ _ k Hp) as (c & Hc & Hl); [lia|]. rewrite Hall in Hl by lia.
    injection Hl as Hl. symmetry in Hl. apply Nat.ltb_lt in Hl. by exists c.
  - destruct (decide (S b = length (px_trace p) - 1)%nat); [by left|right].
    destruct (presence_lookup _ _ _ (S b) Hp) as (c & Hc & Hl); [lia|]. rewrite Hf in Hl. injection Hl as Hl. symmetry in Hl.
    apply Nat.ltb_ge in Hl. unfold unreached. rewrite Hc. f_equal. lia.
Qed.

(** ** Stand-ins *)

Lemma Contains_self v : Contains v v = true.
Proof.
  apply bool_decide_eq_true, Index_iff. exists 0%nat. cbn [from]. apply prefix_chars. exists []. by rewrite app_nil_r.
Qed.
Lemma Carried_self t : t_kind t ≠ TraceBoolean → Carried t (t_value t) = true.
Proof.
  intros Hk. unfold Carried, within. destruct (t_kind t), (t_headless t); try done; rewrite ?Contains_self, ?bool_decide_true by done; done.
Qed.
Lemma first_some_None {A B} (f : A → option B) l : first_some f l = None ↔ Forall (λ x, f x = None) l.
Proof.
  induction l as [|x l IH]; cbn [first_some]; [split; [constructor|done]|]. rewrite Forall_cons.
  destruct (f x); [split; [done|by intros [? _]]|]. rewrite IH. tauto.
Qed.
Lemma Indistinct_None t u : Indistinct t u = None → Carried t (t_value u) = false ∧ Carried u (t_value t) = false.
Proof.
  unfold Indistinct, inStandIn. destruct (_ || _) eqn:E; [done|]. intros _. rewrite !orb_false_iff in E. tauto.
Qed.
Lemma all_distinct_Ok l u : all_distinct l = Ok u → ∀ i j t v, (i < j)%nat → l !! i = Some t → l !! j = Some v →
  Carried t.1 (t_value v.1) = false ∧ Carried v.1 (t_value t.1) = false.
Proof.
  induction l as [|x l IH]; intros H i j t v Hij Hi Hj; [by rewrite lookup_nil in Hi|]. cbn [all_distinct] in H.
  destruct (first_some _ l) eqn:E; [done|]. rewrite first_some_None, Forall_forall in E. destruct j as [|j]; [lia|]. destruct i as [|i].
  - injection Hi as <-. apply Indistinct_None, E. by eapply list_elem_of_lookup_2.
  - apply (IH H i j); [lia|done|done].
Qed.
(** The tracers of a text are numbered one after another. *)
Definition numbered (first : nat) (s : tracing) : Prop :=
  t_id <$> tc_tracers s = seq first (length (tc_tracers s)) ∧ tc_next s = (first + length (tc_tracers s))%nat.
Lemma numbered_snoc first s t b : numbered first s → t_id t = tc_next s → numbered first (Tracing (S (tc_next s)) (tc_tracers s ++ [t]) b).
Proof.
  intros [Hi Hn] Ht. split; cbn [tc_tracers tc_next]; rewrite length_app; simpl; [|lia].
  rewrite fmap_app, Hi, seq_app, <-Hn. simpl. by rewrite Ht.
Qed.
Lemma trace_leaf_numbered name r p flip mapping m ms first s key n n' s' : numbered first s →
  trace_leaf name r p flip mapping m ms s key n = Ok (n', s') → numbered first s'.
Proof.
  intros Hs. unfold trace_leaf. repeat (case_match; try done); intros [= <- <-]; by apply numbered_snoc.
Qed.
Lemma trace_members_numbered name r p flip ms first l : ∀ i s l' s', numbered first s →
  trace_members name r p flip ms i s l = Ok (l', s') → numbered first s'.
Proof.
  induction l as [|[k leaf] l IH]; intros i s l' s' Hs; cbn [trace_members]; [by intros [= _ <-]|].
  destruct (trace_leaf _ _ _ _ _ _ _ _ _ _) as [[n s1]|] eqn:E; [|done]. apply trace_leaf_numbered with (first:=first) in E; [|done].
  destruct (trace_members _ _ _ _ _ _ _ _) as [[l1 s2]|] eqn:E'; [|done]. intros [= _ <-]. by eapply IH.
Qed.
Lemma trace_value_numbered x values flip first s name p n s' : numbered first s → trace_value x values flip s name p = Ok (n, s') → numbered first s'.
Proof.
  intros Hs. unfold trace_value. repeat (case_match; try done); intros Hv; first [by eapply trace_leaf_numbered|idtac].
  injection Hv as _ <-. by eapply trace_members_numbered.
Qed.
Lemma run_events_keeps {S} (P : S → Prop) value l : (∀ s name p n s', P s → value s name p = Ok (n, s') → P s') →
  ∀ w s w' s', P s → run_events encode encode_json value w s l = Ok (w', s') → P s'.
Proof.
  intros Hv. induction l as [|[name p| |p format doc] l IH]; intros w s w' s' Hs; cbn [run_events]; [by intros [= _ <-]| |done|].
  - destruct (value s name p) as [[n s1]|] eqn:E; [|done]. case_match; [done|]. apply IH. by eapply Hv.
  - case_match; [|done]. by apply IH.
Qed.
Lemma Trace_numbered x values first flip text ts hs : Trace decode encode encode_json x values first flip = Ok (text, ts, hs) →
  t_id <$> ts = seq first (length ts).
Proof.
  unfold Trace, resolveWith. repeat (case_match; try done). intros [= <- <- <-]. simplify_eq.
  match goal with H : run_events _ _ _ _ _ _ = Ok _ |- _ => eapply (run_events_keeps (numbered first)) in H; [apply H| |done] end.
  intros. by eapply trace_value_numbered.
Qed.
Lemma trace_sources_numbered l : ∀ i next x, trace_sources decode encode encode_json i next l = Ok x →
  (λ t : Tracer * nat, t_id t.1) <$> x.1.2 = seq next (length x.1.2).
Proof.
  induction l as [|s l IH]; intros i next x; cbn [trace_sources]; [by intros [= <-]|].
  destruct (Trace _ _ _ _ _ _ _) as [[[text ts] hs]|] eqn:E; [|done]. apply Trace_numbered in E.
  intros ([[[texts first] ts'] hs'] & H & [= <-])%bind_Ok. apply IH in H. cbn [fst snd] in *.
  rewrite fmap_app, length_app, length_fmap, seq_app, H, <-E. f_equal. rewrite <-list_fmap_compose. done.
Qed.
Lemma traceAll_Ok sources x : traceAll decode encode encode_json sources = Ok x →
  trace_sources decode encode encode_json 0 0 sources = Ok x ∧ all_distinct x.1.2 = Ok tt.
Proof. unfold traceAll. rewrite bind_Ok. setoid_rewrite bind_Ok. intros (y & H & [] & Hd & [= <-]). done. Qed.
Lemma filter_one {A} (P : A → Prop) `{!∀ x, Decision (P x)} l i x : l !! i = Some x → P x → (∀ j y, l !! j = Some y → P y → j = i) → filter P l = [x].
Proof.
  revert i. induction l as [|a l IH]; intros i Hi Hx Hall; [done|]. rewrite filter_cons. destruct i as [|i].
  - injection Hi as ->. rewrite decide_True by done. f_equal. apply elem_of_nil_inv.
    intros y [Hy [j Hj]%list_elem_of_lookup]%list_elem_of_filter.
    specialize (Hall (S j) y Hj Hy). done.
  - rewrite decide_False by (intros Ha; by specialize (Hall 0%nat a eq_refl Ha)). apply (IH i); [done|done|]. intros j y Hj Hy.
    specialize (Hall (S j) y Hj Hy). lia.
Qed.
Lemma alone sources x t l : traceAll decode encode encode_json sources = Ok x → t ∈ x.1.2 → t_kind t.1 ≠ TraceBoolean → lf_value l = t_value t.1 →
  carriers x.1.2.*1 l = [t.1].
Proof.
  intros [_ Hd]%traceAll_Ok [i Hi]%list_elem_of_lookup Hk Hl. unfold carriers. apply (filter_one _ _ i).
  - by rewrite list_lookup_fmap, Hi.
  - rewrite Hl. by apply Carried_self.
  - intros j y Hj Hy. rewrite list_lookup_fmap in Hj. destruct (x.1.2 !! j) as [u|] eqn:Hu; [|done]. injection Hj as <-. rewrite Hl in Hy.
    destruct (Nat.lt_trichotomy i j) as [Hij|[->|Hij]]; [|done|].
    + destruct (all_distinct_Ok _ _ Hd i j t u Hij Hi Hu). congruence.
    + destruct (all_distinct_Ok _ _ Hd j i u t Hij Hu Hi). congruence.
Qed.

(** ** What a refusal shows *)

(** A refusal's message, before one is explained, is empty; once explained it is a notice or keeps the
    values out. *)
Definition quiet (e : compile_error) : Prop := match e with CError _ _ _ m => m = "" | _ => True end.
Definition quiets {A} (r : C A) : Prop := ∀ e, r = Err e → quiet e.
Definition spoken (values : list Value) (e : compile_error) : Prop :=
  match e with
  | CError _ _ _ m => m = "" ∨ m ∈ withheldNotice <$> ["composition"; "validation"] ∨ keeps_out values m
  | _ => True
  end.
Lemma quiets_ok {A} (a : A) : quiets (Ok a).
Proof. by intros e [=]. Qed.
Lemma quiets_err {A} e : quiet e → quiets (A:=A) (Err e).
Proof. by intros He ? [= <-]. Qed.
Lemma quiets_bind {A B} (m : C A) (f : A → C B) : quiets m → (∀ a, quiets (f a)) → quiets (m ≫= f).
Proof. intros Hm Hf e [H|(a & _ & H)]%bind_Err; [by apply Hm|by apply (Hf a)]. Qed.
Lemma quiets_all_ok {A B} (f : A → C B) l : (∀ x, quiets (f x)) → quiets (all_ok f l).
Proof.
  intros Hf. induction l as [|x l IH]; [apply quiets_ok|]. apply quiets_bind; [done|]. intros y. apply quiets_bind; [done|]. intros ys. apply quiets_ok.
Qed.
Lemma quiets_or_else {A} e (o : option A) : quiet e → quiets (or_else e o).
Proof. intros He. destruct o; [apply quiets_ok|by apply quiets_err]. Qed.
Ltac hush := repeat first
  [ assumption | apply quiets_ok | apply quiets_all_ok; intros ? | apply quiets_or_else; done | apply quiets_err; done
  | apply quiets_bind; [|intros ?] | progress (unfold fidelity, walked, walked_keys, same_shape, flipped, hostsOf, compose_pass) | case_match ].
Lemma quiets_add_hosts l : ∀ acc, quiets (add_hosts acc l).
Proof. induction l as [|x l IH]; intros acc; cbn [add_hosts]; [apply quiets_ok|]. apply quiets_bind; [unfold add_host; hush|]. intros acc'. apply IH. Qed.
Lemma quiets_hostsOf text hs : quiets (hostsOf decode text hs).
Proof. apply quiets_bind; [hush|]. intros l. apply quiets_add_hosts. Qed.
Lemma quiets_attribute_leaves ts rl : ∀ tl, quiets (attribute_leaves ts rl tl).
Proof. induction rl as [|r rl IH]; intros [|l tl]; cbn [attribute_leaves]; hush; try apply IH. Qed.
Lemma quiets_attribute real trace ts hs : quiets (attribute decode real trace ts hs).
Proof. apply quiets_bind; [apply quiets_hostsOf|]. intros hosts. hush. apply quiets_attribute_leaves. Qed.
Lemma quiets_flip_text p t : quiets (flip_text decode encode encode_json p t).
Proof. unfold flip_text. hush. Qed.
Lemma quiets_count_leaves p t k : quiets (count_leaves decode encode encode_json mx p t k).
Proof.
  unfold count_leaves, prefix_at. apply quiets_bind.
  - apply quiets_bind; [hush|]. intros m. apply quiets_bind; [hush|]. intros rm. apply quiets_bind; [apply quiets_hostsOf|]. intros hosts. hush.
  - intros [[ls rls] hosts]. case_match; [hush|]. apply quiets_bind; [apply quiets_flip_text|intros text]. hush.
Qed.
Lemma quiets_narrowed_from p t full n prev fuel : ∀ k, quiets (narrowed_from decode encode encode_json mx p t full n prev k fuel).
Proof.
  induction fuel as [|fuel IH]; intros k; cbn [narrowed_from]; [apply quiets_ok|]. apply quiets_bind; [case_match; [apply quiets_count_leaves|apply quiets_ok]|].
  intros c. hush. apply IH.
Qed.
Lemma quiets_outcome_of p paths t : quiets (outcome_of decode encode encode_json mx p paths t).
Proof.
  unfold outcome_of. case_match; [|case_match; [|apply quiets_ok]].
  - apply quiets_bind; [apply quiets_bind; [apply quiets_all_ok; intros k; apply quiets_bind; [apply quiets_count_leaves|intros; apply quiets_ok]|intros; apply quiets_ok]|].
    intros l. unfold overrider. hush.
  - unfold narrowed. apply quiets_bind; [|intros; apply quiets_ok]. apply quiets_bind; [apply quiets_count_leaves|]. intros prev.
    case_match; [apply quiets_ok|apply quiets_narrowed_from].
Qed.
Lemma quiets_checkOutput rl rk sources outcomes : quiets (checkOutput rl rk sources outcomes).
Proof. unfold checkOutput. case_match; [|by apply quiets_err]. 
  apply quiets_bind; [apply quiets_all_ok; intros o; unfold value_forms; hush|]. intros forms. cbv zeta. hush.
Qed.
Lemma quiets_resolve_sources l : ∀ i, quiets (resolve_sources decode encode encode_json i l).
Proof. induction l as [|s l IH]; intros i; cbn [resolve_sources]; hush. apply IH. Qed.
Lemma quiets_traceAll sources : quiets (traceAll decode encode encode_json sources).
Proof.
  apply quiets_bind.
  - generalize 0%nat at 1 as i. generalize 0%nat as next. induction sources as [|s l IH]; intros next i; cbn [trace_sources]; hush; apply IH.
  - intros x. apply quiets_bind; [|intros; apply quiets_ok]. generalize (x.1.2). intros l. induction l as [|t l IH]; cbn [all_distinct]; hush.
Qed.
Lemma quiet_apply_fragments l : ∀ i input e cause, apply_fragments mx i input l = Err (e, cause) → quiet e.
Proof.
  induction l as [|f l IH]; intros i input e cause; cbn [apply_fragments]; [done|]. unfold rejected.
  repeat case_match; try by intros [= <- <-]. apply IH.
Qed.
Lemma quiet_compose_all l e cause : compose_all decode mx l = Err (e, cause) → quiet e.
Proof.
  destruct l as [|base l]; cbn [compose_all]; unfold compose, rejected; [by intros [= <- <-]|]. case_match; [|by intros [= <- <-]].
  destruct (apply_fragments _ _ _ _) as [x|[e' c']] eqn:E; [repeat case_match; try done; by intros [= <- <-]|].
  intros [= <- <-]. by eapply quiet_apply_fragments.
Qed.
Lemma explain_spoken {A} step e cause sources ts (trace : option (composed A)) : step ∈ ["composition"; "validation"] → quiet e →
  spoken (source_values sources) (explain step e cause sources ts trace).
Proof.
  intros Hstep. destruct e as [r input paths m| | | |]; cbn [explain quiet]; try done. intros ->. case_match; [by left|].
  destruct (redactMessage _ _ _ _ _ _) as [[m o]|] eqn:E; [|done]. cbn [spoken].
  apply message_hides in E as [[-> _]|[[-> _]|[Hk _]]]; [by left|right; left; by apply list_elem_of_fmap_2|by right; right].
Qed.
Lemma spoken_quiet values e : quiet e → spoken values e.
Proof. destruct e; cbn; auto. Qed.

(** ** What a compilation returns *)

Variable fresh_value : string.
Notation compile := (compile decode encode encode_json mx fresh_value).

(** The passes of a compilation that succeeds, and what it keeps of them. *)
Record compilation (sources : list Source) (mode : string) (c : compiled) : Type := Passes {
  ps_real : list string; ps_trace : list string; ps_first : list nat; ps_ts : list (Tracer * nat); ps_hs : list (string * string);
  ps_text : string; ps_attrs : list (nat * string); ps_hosts : list (string * string); ps_leaves : list leaf;
  ps_flips : list (nat * list string * string); ps_outcomes : list outcome; ps_output : list leaf; ps_keys : list leaf;
  ps_prefixes := Prefixes sources ps_real ps_trace ps_first ps_hs;
  ps_mode : mode ∈ modes;
  ps_revisions : NoDup (so_revision <$> sources);
  ps_resolved : resolve_sources decode encode encode_json 0 sources = Ok ps_real;
  ps_composed : compose_all decode mx ps_real = Ok (cd_text c);
  ps_traced : traceAll decode encode encode_json sources = Ok (ps_trace, ps_first, ps_ts, ps_hs);
  ps_traced_text : compose_pass decode mx ps_trace = Ok ps_text;
  ps_attributed : attribute decode (cd_text c) ps_text ps_ts.*1 ps_hs = Ok (ps_attrs, ps_hosts);
  ps_traced_leaves : walked decode ps_text ps_hosts = Ok ps_leaves;
  ps_flipped : all_ok (flip_pass decode encode encode_json mx ps_prefixes ps_leaves ps_hosts) (filter (λ t, is_boolean t = true) ps_ts) = Ok ps_flips;
  ps_each : all_ok (outcome_of decode encode encode_json mx ps_prefixes (paths_of ps_attrs ps_flips)) ps_ts = Ok ps_outcomes;
  ps_walked : walked decode (cd_text c) ps_hosts = Ok ps_output;
  ps_walked_keys : walked_keys decode (cd_text c) ps_hosts = Ok ps_keys;
  ps_checked : checkOutput ps_output ps_keys sources ps_outcomes = Ok tt;
  ps_validated : ∀ text, text = cd_text c ∨ text = ps_text ∨ text ∈ ps_flips.*2 → validated mx text mode = Ok tt;
  ps_compiled : c = MkCompiled (cd_text c) (keep (newRedactor (source_values sources)) <$> ps_outcomes) (origins sources)
    (redactedText decode encode encode_json mx fresh_value (cd_text c) ps_hosts ps_outcomes (newRedactor (source_values sources))) }.
Lemma compile_passes sources mode c : compile sources mode = Ok c → inhabited (compilation sources mode c).
Proof.
  unfold Compiled.compile. case_bool_decide as Hm; [|done]. case_bool_decide as Hr; [|done]. simpl.
  intros (real & Hreal & H)%bind_Ok. destruct (compose_all _ _ _) as [m|[e cause]] eqn:Hc; [|done].
  apply bind_Ok in H as ([[[trace first] ts] hs] & Ht & H). apply bind_Ok in H as (tm & Htm & H).
  apply bind_Ok in H as ([attrs hosts] & Ha & H). apply bind_Ok in H as (tl & Htl & H). apply bind_Ok in H as (flips & Hf & H).
  apply bind_Ok in H as (outcomes & Ho & H). apply bind_Ok in H as (rl & Hrl & H). apply bind_Ok in H as (rk & Hrk & H).
  apply bind_Ok in H as ([] & Hck & H). destruct (validated mx m mode) as [[]|[e cause]] eqn:Hv; [|done].
  apply bind_Ok in H as (us & Hus & [= <-]). constructor.
  change (all_ok (λ x, match validated mx x mode with Ok _ => Ok tt | Err _ => fidelity [] end) (tm :: flips.*2) = Ok us) in Hus.
  set (c := MkCompiled m _ _ _).
  refine (Passes sources mode c real trace first ts hs tm attrs hosts tl flips outcomes rl rk Hm Hr Hreal Hc Ht Htm Ha Htl Hf Ho Hrl Hrk Hck _ eq_refl).
  intros text Hx. destruct Hx as [->|Hx]; [done|]. apply all_ok_Ok in Hus.
  assert (Hin : text ∈ tm :: flips.*2) by (destruct Hx as [->|?]; [by left|by right]).
  apply list_elem_of_lookup in Hin as [i Hi]. destruct (Forall2_lookup_l _ _ _ _ _ Hus Hi) as ([] & _ & Hy).
  destruct (validated mx text mode) as [[]|]; [done|done].
Qed.
Definition speaks {A} (values : list Value) (r : C A) : Prop := ∀ e, r = Err e → spoken values e.
Lemma speaks_quiets {A} values (r : C A) : quiets r → speaks values r.
Proof. intros H e He. by apply spoken_quiet, H. Qed.
Lemma speaks_bind {A B} values (m : C A) (f : A → C B) : quiets m → (∀ a, speaks values (f a)) → speaks values (m ≫= f).
Proof. intros Hm Hf e [H|(a & _ & H)]%bind_Err; [by apply spoken_quiet, Hm|by apply (Hf a)]. Qed.
Lemma speaks_err {A} values e : spoken values e → speaks (A:=A) values (Err e).
Proof. by intros He ? [= <-]. Qed.
Lemma compile_speaks sources mode : speaks (source_values sources) (compile sources mode).
Proof.
  unfold Compiled.compile. case_match; [by apply speaks_err|]. case_match; [by apply speaks_err|].
  apply speaks_bind; [apply quiets_resolve_sources|]. intros real. cbv zeta. destruct (compose_all _ _ _) as [m|[e cause]] eqn:E.
  2: { apply speaks_err, explain_spoken; [by left|]. by eapply quiet_compose_all. }
  apply speaks_bind; [apply quiets_traceAll|]. intros [[[trace first] ts] hs]. apply speaks_bind; [hush|]. intros tm.
  apply speaks_bind; [apply quiets_attribute|]. intros [attrs hosts]. apply speaks_bind; [hush|]. intros tl. cbv zeta.
  apply speaks_bind.
  { apply quiets_all_ok. intros t. apply quiets_bind; [apply quiets_flip_text|]. intros text. hush. }
  intros flips. apply speaks_bind; [apply quiets_all_ok; intros t; apply quiets_outcome_of|]. intros outcomes.
  apply speaks_bind; [hush|]. intros rl. apply speaks_bind; [hush|]. intros rk. apply speaks_bind; [apply quiets_checkOutput|]. intros _.
  destruct (validated mx m mode) as [[]|[e cause]] eqn:Ev.
  - apply speaks_quiets. hush.
  - apply speaks_err, explain_spoken; [by right; left|]. revert Ev. unfold validated. repeat case_match; by intros [= <- <-].
Qed.

(** What a refusal says: paths that are hidden, and a message that is a notice or keeps the values out. *)
Definition refusal_hides (values : list Value) (e : compile_error) : Prop :=
  spoken values e ∧ match e with
    | CError _ _ paths _ | CInput _ (Refused _ paths) | CIngest (Refused _ paths) => Forall (hides values) paths
    | _ => True end.
(** What a compilation tells besides its text: the redacted text, and each outcome's paths. *)
Definition output_hides (values : list Value) (c : compiled) : Prop :=
  (∀ out, cd_redacted c = Ok out → keeps_out values out)
  ∧ Forall (λ o, hides values (kp_at o) ∧ Forall (hides values) (kp_shown o)) (cd_outcomes c).
Lemma redacted_keeps_out text hosts outcomes values out :
  redactedText decode encode encode_json mx fresh_value text hosts outcomes (newRedactor values) = Ok out → keeps_out values out.
Proof.
  unfold redactedText. case_match; [done|]. destruct (schemaLeaves _ _ _ _); [|done]. case_match; [done|]. cbv zeta.
  destruct (RewriteLeaves _ _ _ _ _ _ _); [|done]. destruct (leaves _ _ _); [|done]. case_match; [done|].
  destruct (holds _ _) eqn:E; [done|]. intros [= <-]. by apply holds_false.
Qed.
Lemma hidden_paths values ps : Forall (hides values) (redact_path (newRedactor values) <$> ps).
Proof. apply Forall_fmap, Forall_true. intros p. apply path_hides. Qed.

(** ** Outcomes *)

Lemma outcome_of_Ok p paths t o : outcome_of decode encode encode_json mx p paths t = Ok o →
  oc_tracer o = t.1 ∧ oc_source o = t.2 ∧ oc_paths o = paths t.1
  ∧ match oc_by o with
    | Some by_ => paths t.1 = [] → ∃ present, presence decode encode encode_json mx p t = Ok present ∧ overrider t.2 present = Ok by_
    | None => paths t.1 ≠ []
    end.
Proof.
  unfold outcome_of. case_bool_decide as Hp; [|case_match].
  - intros (present & Hpr & H)%bind_Ok. apply bind_Ok in H as (by_ & Hb & [= <-]). cbn. split_and!; try done. intros _. by exists present.
  - intros (by_ & Hb & [= <-])%bind_Ok. cbn. split_and!; try done. by destruct by_.
  - intros [= <-]. done.
Qed.
Lemma outcomes_of p paths ts outcomes : all_ok (outcome_of decode encode encode_json mx p paths) ts = Ok outcomes →
  oc_tracer <$> outcomes = ts.*1 ∧ oc_source <$> outcomes = ts.*2 ∧ Forall (λ o, oc_paths o = paths (oc_tracer o)) outcomes.
Proof.
  rewrite all_ok_Ok. induction 1 as [|t o ts outcomes H _ (IH1 & IH2 & IH3)]; [done|]. apply outcome_of_Ok in H as (Ht & Hs & Hp & _).
  cbn. rewrite IH1, IH2, Ht, Hs. split_and!; try done. constructor; [congruence|done].
Qed.
Lemma checkOutput_Ok rl rk sources outcomes u : checkOutput rl rk sources outcomes = Ok u →
  (∀ o, o ∈ outcomes → oc_source o = 0%nat → oc_by o = None)
  ∧ ∀ l o, l ∈ rl → scalar_leaf l = true → lf_path l ∉ outcomes ≫= oc_paths → o ∈ outcomes →
    ∃ forms, value_forms sources o = Ok forms ∧ ∀ f, f ∈ forms → Contains (lf_value l) f = false.
Proof.
  unfold checkOutput. destruct (omap overrode_base outcomes) as [|b bs] eqn:E; [|done]. intros (forms & Hf & H)%bind_Ok. split.
  - intros o Ho H0. destruct (oc_by o) as [b|] eqn:Eb; [|done]. assert (Hin : b ∈ omap overrode_base outcomes).
    { apply list_elem_of_omap. exists o. split; [done|]. unfold overrode_base. by rewrite H0. }
    rewrite E in Hin. by apply elem_of_nil in Hin.
  - intros l o Hl Hs Hp Ho. apply all_ok_Ok in Hf. apply list_elem_of_lookup in Ho as [i Hi].
    destruct (Forall2_lookup_l _ _ _ _ _ Hf Hi) as (fs & Hfs & Hv). exists fs. split; [done|]. intros f Hin.
    cbv zeta in H. case_bool_decide as Hc; [|done]. apply app_eq_nil in Hc as [Hc _]. apply not_true_iff_false. intros Hco.
    assert (Hbad : lf_path l ∈ @nil string); [|by apply elem_of_nil in Hbad]. rewrite <-Hc. apply list_elem_of_omap. exists l. split; [done|].
    rewrite Hs, bool_decide_false by done. cbn [andb negb].
    assert (He : existsb (λ f, Contains (lf_value l) f) (mjoin forms) = true); [|by rewrite He].
    apply existsb_exists. exists f. rewrite <-list_elem_of_In. split; [|done]. apply list_elem_of_join. exists fs. split; [done|].
    by eapply list_elem_of_lookup_2.
Qed.
Lemma attributed_paths real trace ts hs attrs hosts x rl : attribute decode real trace ts hs = Ok (attrs, hosts) → walked decode real hosts = Ok rl →
  x ∈ attrs → x.2 ∈ lf_path <$> rl.
Proof.
  intros (rl' & tl & _ & Hr & _ & Hs & _ & ->)%attribute_Ok Hw Hx. apply walked_Ok in Hw. assert (rl' = rl) as -> by congruence.
  apply list_elem_of_bind in Hx as (l & Hx & Hl). unfold carried_at in Hx. destruct (scalar_leaf l); [|by apply elem_of_nil in Hx].
  apply list_elem_of_fmap in Hx as (t & -> & _). cbn [snd]. apply list_elem_of_lookup in Hl as [i Hi].
  destruct (Forall2_lookup_r _ _ _ _ _ Hs Hi) as (r & Hri & Hn & _). rewrite <-Hn. apply list_elem_of_fmap_2. by eapply list_elem_of_lookup_2.
Qed.
Lemma changed_paths a b q : q ∈ changed_leaves a b → q ∈ lf_path <$> a.
Proof.
  unfold changed_leaves. intros ([x y] & Hin & Hq)%list_elem_of_omap. cbn [fst snd] in Hq. case_match; [|done]. injection Hq as <-.
  apply list_elem_of_fmap_2. by apply elem_of_zip_l in Hin.
Qed.
(** An outcome's paths are leaves of the text. *)
Lemma outcome_paths sources mode c (ps : compilation sources mode c) o q : o ∈ ps_outcomes _ _ _ ps → q ∈ oc_paths o → q ∈ lf_path <$> ps_output _ _ _ ps.
Proof.
  destruct ps as [real trace first ts hs tm attrs hosts tl flips outcomes rl rk p Hm Hr Hreal Hc Ht Htm Ha Htl Hf Ho Hrl Hrk Hck Hv Hcc].
  cbn [ps_outcomes ps_output]. clear Hcc. subst p. intros Hin Hq. apply outcomes_of in Ho as (_ & _ & Hp). rewrite Forall_forall in Hp.
  rewrite (Hp o Hin) in Hq. unfold paths_of in Hq. case_bool_decide.
  - destruct (find _ flips) as [x|] eqn:Ex; [|by apply elem_of_nil in Hq]. apply find_some in Ex as [Hx _]. apply list_elem_of_In in Hx.
    apply all_ok_Ok in Hf. apply list_elem_of_lookup in Hx as [i Hi]. destruct (Forall2_lookup_r _ _ _ _ _ Hf Hi) as (t & _ & Hfl).
    unfold flip_pass in Hfl. apply bind_Ok in Hfl as (text & _ & Hfl). apply bind_Ok in Hfl as (fm & _ & Hfl). apply bind_Ok in Hfl as (qs & Hqs & [= <-]).
    unfold flipped in Hqs. apply bind_Ok in Hqs as (fl & _ & Hqs). apply bind_Ok in Hqs as (_ & _ & [= <-]). cbn in Hq. apply changed_paths in Hq.
    apply attribute_Ok in Ha as (rl' & tl' & _ & Hr' & Ht' & Hs & _). apply walked_Ok in Hrl, Htl. assert (tl' = tl) as -> by congruence. assert (rl' = rl) as -> by congruence.
    by rewrite (same_paths _ _ Hs).
  - apply list_elem_of_fmap in Hq as (x & -> & [_ Hx]%list_elem_of_filter). by eapply attributed_paths.
Qed.
End Compile.

(** ** Records *)

(** The outcomes met first at their place, each with its number. *)
Fixpoint first_at (next : gmap nat nat) (l : list (kept * nat)) : list (kept * nat) :=
  match l with
  | [] => []
  | (o, n) :: l => if (n <? default 0 (next !! kp_source o))%nat then first_at next l else (o, n) :: first_at (<[kp_source o := S n]> next) l
  end.
Definition reproduced_as (c : compiled) (x : kept * nat) : Occurrence :=
  MkOccurrence (t_ref (kp_tracer x.1)) (t_version (kp_tracer x.1)) (origin_at c (kp_source x.1)) (kp_at x.1) x.2.
Lemma reproduced_first c l : ∀ next, reproduced c next l = reproduced_as c <$> first_at next l.
Proof.
  induction l as [|[o n] l IH]; intros next; cbn [reproduced first_at]; [done|]. case_match; [apply IH|]. by rewrite fmap_cons, IH.
Qed.
Definition places_of (k : nat) (seen : list (nat * string)) : nat := length (filter (λ y : nat * string, y.1 = k) seen).
Lemma places_app k x y : places_of k (x ++ y) = (places_of k x + places_of k y)%nat.
Proof. unfold places_of. by rewrite filter_app, length_app. Qed.
Lemma places_snoc k seen p : places_of k (seen ++ [p]) = if decide (p.1 = k) then S (places_of k seen) else places_of k seen.
Proof. rewrite places_app. unfold places_of at 2. case_decide; [rewrite filter_cons_True by done|rewrite filter_cons_False by done]; simpl; lia. Qed.
Lemma places_before seen i k : seen !! i = Some k → (places_of k.1 (take i seen) < places_of k.1 seen)%nat.
Proof.
  intros Hi. rewrite <-(take_drop_middle seen i k Hi) at 2. rewrite places_app. unfold places_of at 3. rewrite filter_cons_True by done. simpl. lia.
Qed.
Lemma ordinals_cons seen o l : ordinals_from seen (o :: l) = match list_find (eq (place_of o)) seen with
  | Some (i, _) => places_of (kp_source o) (take i seen) :: ordinals_from seen l
  | None => places_of (kp_source o) seen :: ordinals_from (seen ++ [place_of o]) l end.
Proof. reflexivity. Qed.
Lemma ordinals_length l : ∀ seen, length (ordinals_from seen l) = length l.
Proof. induction l as [|o l IH]; intros seen; cbn [ordinals_from]; [done|]. case_match; [destruct p|]; simpl; by rewrite IH. Qed.
(** Each source's are numbered from 0, in order. *)
Lemma first_numbered l : ∀ seen next, (∀ k, default 0%nat (next !! k) = places_of k seen) →
  ∀ k, (filter (λ x : kept * nat, kp_source x.1 = k) (first_at next (zip l (ordinals_from seen l)))).*2
    = seq (places_of k seen) (length (filter (λ x : kept * nat, kp_source x.1 = k) (first_at next (zip l (ordinals_from seen l))))).
Proof.
  induction l as [|o l IH]; intros seen next Hn k; [done|]. rewrite ordinals_cons.
  destruct (list_find (eq (place_of o)) seen) as [[i p]|] eqn:Ef; cbn [zip zip_with first_at]; rewrite Hn.
  - apply list_find_Some in Ef as (Hi & <- & _). apply places_before in Hi. cbn [fst place_of] in Hi.
    rewrite (proj2 (Nat.ltb_lt _ _) Hi). by apply IH.
  - rewrite (proj2 (Nat.ltb_ge _ _)) by done.
    assert (Hn' : ∀ k', default 0%nat (<[kp_source o := S (places_of (kp_source o) seen)]> next !! k') = places_of k' (seen ++ [place_of o])).
    { intros k'. rewrite places_snoc. cbn [fst place_of]. case_decide as Hk'; [subst k'; by rewrite lookup_insert_eq|]. by rewrite lookup_insert_ne by done. }
    specialize (IH _ _ Hn' k). rewrite places_snoc in IH. cbn [fst place_of] in IH. destruct (decide (kp_source o = k)) as [<-|Hk].
    + rewrite filter_cons_True by done. rewrite fmap_cons, IH. done.
    + by rewrite filter_cons_False by done.
Qed.
(** Every outcome's place has one of them, with its number. *)
Lemma first_meets l : ∀ seen next, (∀ k, default 0%nat (next !! k) = places_of k seen) → ∀ x, x ∈ zip l (ordinals_from seen l) →
  (∃ i, seen !! i = Some (place_of x.1) ∧ x.2 = places_of (kp_source x.1) (take i seen))
  ∨ ∃ o, (o, x.2) ∈ first_at next (zip l (ordinals_from seen l)) ∧ place_of o = place_of x.1.
Proof.
  induction l as [|o l IH]; intros seen next Hn x Hx; [by apply elem_of_nil in Hx|]. rewrite ordinals_cons in *.
  destruct (list_find (eq (place_of o)) seen) as [[i p]|] eqn:Ef; cbn [zip zip_with first_at] in *; rewrite Hn in *.
  - apply list_find_Some in Ef as (Hi & <- & _). pose proof (places_before _ _ _ Hi) as Hlt. cbn [fst place_of] in Hlt.
    rewrite (proj2 (Nat.ltb_lt _ _) Hlt). apply elem_of_cons in Hx as [->|Hx]; [left; by exists i|]. by apply IH.
  - rewrite (proj2 (Nat.ltb_ge _ _)) by done. apply elem_of_cons in Hx as [->|Hx]; [right; exists o; split; [by left|done]|].
    assert (Hn' : ∀ k', default 0%nat (<[kp_source o := S (places_of (kp_source o) seen)]> next !! k') = places_of k' (seen ++ [place_of o])).
    { intros k'. rewrite places_snoc. cbn [fst place_of]. case_decide as Hk'; [subst k'; by rewrite lookup_insert_eq|]. by rewrite lookup_insert_ne by done. }
    destruct (IH _ _ Hn' x Hx) as [(i & Hi & E)|(o' & Ho & Hp)]; [|right; exists o'; split; [by right|done]].
    destruct (decide (i < length seen)%nat) as [Hl|Hl].
    + left. exists i. rewrite lookup_app_l in Hi by done. rewrite take_app_le in E by lia. done.
    + right. exists o. rewrite lookup_app_r in Hi by lia. apply list_lookup_singleton_Some in Hi as [Hl0 Hp].
      assert (i = length seen) as -> by lia. rewrite take_app_length in E. split; [|done]. rewrite E.
      rewrite <-(f_equal fst Hp : kp_source o = kp_source x.1). by left.
Qed.
Lemma first_sub l : ∀ next x, x ∈ first_at next l → x ∈ l.
Proof.
  induction l as [|[o n] l IH]; intros next x; cbn [first_at]; [done|]. case_match; [intros Hx; right; by eapply IH|].
  intros [->|Hx]%elem_of_cons; [by left|right; by eapply IH].
Qed.

(** Each tracer's source is one of the composition's. *)
Lemma trace_sources_indices decode encode encode_json l : ∀ i next x, trace_sources decode encode encode_json i next l = Ok x →
  Forall (λ t : Tracer * nat, (i <= t.2 < i + length l)%nat) x.1.2.
Proof.
  induction l as [|s l IH]; intros i next x; cbn [trace_sources]; [by intros [= <-]; constructor|].
  destruct (Trace _ _ _ _ _ _ _) as [[[text ts] hs]|] eqn:E; [|done].
  intros ([[[texts first] ts'] hs'] & H & [= <-])%bind_Ok. apply IH in H. cbn [fst snd] in *. apply Forall_app. split.
  - apply Forall_fmap, Forall_forall. intros t _. simpl. lia.
  - eapply Forall_impl; [exact H|]. intros t Ht. simpl in *. lia.
Qed.

(** ** The records of a compilation *)

Lemma filter_in {A} (P Q : A → Prop) `{!∀ x, Decision (P x), !∀ x, Decision (Q x)} (l : list A) : (∀ x, x ∈ l → P x ↔ Q x) → filter P l = filter Q l.
Proof.
  induction l as [|x l IH]; intros Hl; [done|]. rewrite !filter_cons, IH by (intros y Hy; apply Hl; by right).
  destruct (decide (P x)) as [Hp|Hp], (decide (Q x)) as [Hq|Hq]; try done; exfalso; rewrite (Hl x ltac:(by left)) in Hp; tauto.
Qed.

Lemma filter_fmap {A B} (f : A → B) (P : B → Prop) `{!∀ x, Decision (P x)} (l : list A) : filter P (f <$> l) = f <$> filter (P ∘ f) l.
Proof.
  induction l as [|x l IH]; [done|]. rewrite fmap_cons. destruct (decide (P (f x))) as [Hx|Hx].
  - rewrite !filter_cons_True by done. by rewrite IH.
  - rewrite !filter_cons_False by done. by rewrite IH.
Qed.
(** What a compilation keeps of its outcomes. *)
Record kept_well (sources : list Source) (c : compiled) : Prop := {
  kw_origins : cd_origins c = origins sources;
  kw_revisions : NoDup (so_revision <$> sources);
  kw_source : ∀ o, o ∈ cd_outcomes c → (kp_source o < length sources)%nat;
  kw_outcome : ∀ o, o ∈ cd_outcomes c → kp_by o = None → kp_shown o ≠ [];
  kw_place : ∀ o o', o ∈ cd_outcomes c → o' ∈ cd_outcomes c → place_of o = place_of o' → kp_at o = kp_at o' }.
Lemma compile_kept decode encode encode_json mx fresh_value sources mode c :
  compile decode encode encode_json mx fresh_value sources mode = Ok c → kept_well sources c.
Proof.
  intros [ps]%compile_passes. destruct ps as [real trace first ts hs tm attrs hosts tl flips outcomes rl rk p Hm Hr Hreal Hc Ht Htm Ha Htl Hf Ho Hrl Hrk Hck Hvs Hcc].
  pose proof (outcomes_of _ _ _ _ _ _ _ _ Ho) as (_ & Hsrc & _). rewrite Hcc. split; cbn -[path_string].
  - done.
  - done.
  - intros o (o' & -> & Ho')%list_elem_of_fmap. cbn. apply traceAll_Ok in Ht as [Ht _]. apply trace_sources_indices in Ht. cbn in Ht.
    assert (Hin : oc_source o' ∈ ts.*2) by (rewrite <-Hsrc; by apply list_elem_of_fmap_2).
    apply list_elem_of_fmap in Hin as (t & -> & Hin). rewrite Forall_forall in Ht. specialize (Ht t Hin). lia.
  - intros o (o' & -> & Ho')%list_elem_of_fmap. cbn. intros Hb He%fmap_nil_inv. apply all_ok_Ok in Ho.
    apply list_elem_of_lookup in Ho' as [i Hi]. destruct (Forall2_lookup_r _ _ _ _ _ Ho Hi) as (t & _ & Hot).
    apply outcome_of_Ok in Hot as (_ & _ & Hp & Hby). rewrite Hb in Hby. by rewrite Hp in He.
  - intros o o' (x & -> & _)%list_elem_of_fmap (x' & -> & _)%list_elem_of_fmap. intros Hp.
    change (redact_path (newRedactor (source_values sources)) (place_of (keep (newRedactor (source_values sources)) x)).2
      = redact_path (newRedactor (source_values sources)) (place_of (keep (newRedactor (source_values sources)) x')).2). by rewrite Hp.
Qed.
Section Records.
Variable sources : list Source.
Variable c : compiled.
Hypothesis Hw : kept_well sources c.
Lemma origin_of o : o ∈ cd_outcomes c → ∃ s, sources !! kp_source o = Some s ∧ origin_at c (kp_source o) = Declared.Origin (so_revision s) (so_digest s).
Proof.
  intros Ho. destruct (lookup_lt_is_Some_2 sources (kp_source o)) as [s Hs]; [by apply (kw_source _ _ Hw)|].
  exists s. split; [done|]. unfold origin_at. rewrite (kw_origins _ _ Hw). unfold origins. by rewrite list_lookup_fmap, Hs.
Qed.
Lemma origin_inj o o' : o ∈ cd_outcomes c → o' ∈ cd_outcomes c →
  Declared.or_revision (origin_at c (kp_source o)) = Declared.or_revision (origin_at c (kp_source o')) → kp_source o = kp_source o'.
Proof.
  intros (s & Hs & ->)%origin_of (s' & Hs' & ->)%origin_of. cbn. intros E.
  eapply NoDup_lookup; [apply (kw_revisions _ _ Hw)|rewrite list_lookup_fmap, Hs; done|by rewrite list_lookup_fmap, Hs', E].
Qed.
Lemma numbered_outcome o n : (o, n) ∈ zip (cd_outcomes c) (ordinals c) → o ∈ cd_outcomes c.
Proof. by intros H%elem_of_zip_l. Qed.
Lemma record_outcome r : r ∈ Provenance c ↔ ∃ o n, (o, n) ∈ zip (cd_outcomes c) (ordinals c) ∧ r ∈ records_of c (o, n).
Proof. unfold Provenance. rewrite list_elem_of_bind. split; [intros ([o n] & ? & ?)|intros (o & n & ? & ?)]; eauto. Qed.
Lemma records_of_at o n r : r ∈ records_of c (o, n) → ∃ output by_, r = record_of c o n output by_.
Proof.
  unfold records_of. cbn [fst snd]. destruct (kp_by o) as [b|].
  - intros ->%list_elem_of_singleton. eauto.
  - intros (q & -> & _)%list_elem_of_fmap. eauto.
Qed.
Lemma records_of_some o n : o ∈ cd_outcomes c → ∃ output by_, record_of c o n output by_ ∈ records_of c (o, n).
Proof.
  intros Ho. unfold records_of. cbn [fst snd]. destruct (kp_by o) as [b|] eqn:Eb; [eexists _, _; by left|].
  pose proof (kw_outcome _ _ Hw o Ho Eb) as Hs. destruct (kp_shown o) as [|q l]; [done|]. eexists q, None. by left.
Qed.
Lemma Reproduction_elem x : x ∈ Reproduction c → ∃ o n, (o, n) ∈ zip (cd_outcomes c) (ordinals c) ∧ x = reproduced_as c (o, n).
Proof. unfold Reproduction. rewrite reproduced_first. intros ([o n] & -> & Hx%first_sub)%list_elem_of_fmap. eauto. Qed.
Lemma Reproduction_numbered rev : oc_number <$> filter (λ o, Declared.or_revision (oc_origin o) = rev) (Reproduction c)
  = seq 0 (length (filter (λ o, Declared.or_revision (oc_origin o) = rev) (Reproduction c))).
Proof.
  unfold Reproduction. rewrite reproduced_first. set (l := first_at ∅ _).
  assert (Hin : ∀ x, x ∈ l → x.1 ∈ cd_outcomes c) by (intros [o n] Hx%first_sub; by eapply numbered_outcome).
  rewrite !filter_fmap, <-list_fmap_compose, length_fmap.
  destruct (decide (Exists (λ x : kept * nat, Declared.or_revision (origin_at c (kp_source x.1)) = rev) l)) as [He|He].
  - apply Exists_exists in He as (x & Hx & Hrev).
    assert (Hq : ∀ y, y ∈ l → ((λ o, Declared.or_revision (oc_origin o) = rev) ∘ reproduced_as c) y ↔ kp_source y.1 = kp_source x.1).
    { intros y Hy. cbn. split; [intros Hr; apply origin_inj; auto; congruence|intros ->; done]. }
    rewrite !(filter_in _ _ l Hq). apply (first_numbered (cd_outcomes c) [] ∅). intros k. by rewrite lookup_empty.
  - assert (Hq : ∀ y, y ∈ l → ((λ o, Declared.or_revision (oc_origin o) = rev) ∘ reproduced_as c) y ↔ False).
    { intros y Hy. split; [|done]. intros Hr. apply He, Exists_exists. by exists y. }
    rewrite !(filter_in _ _ l Hq). assert (E : filter (λ _ : kept * nat, False) l = []) by (clear; by induction l). by rewrite E.
Qed.
Lemma record_reproduced r : r ∈ Provenance c → ∃ o, o ∈ Reproduction c ∧ oc_origin o = Declared.vr_source r ∧ oc_shown o = Declared.vr_path r ∧ Declared.vr_occurrence r = Z.of_nat (oc_number o).
Proof.
  intros (o & n & Hz & (output & by_ & ->)%records_of_at)%record_outcome.
  destruct (first_meets (cd_outcomes c) [] ∅ ltac:(intros k; by rewrite lookup_empty) (o, n) Hz) as [(i & Hi & _)|(o' & Ho' & Hp)]; [done|]. cbn [fst snd] in *.
  exists (reproduced_as c (o', n)). split; [unfold Reproduction; rewrite reproduced_first; by apply list_elem_of_fmap_2|]. cbn.
  pose proof (first_sub _ _ _ Ho') as Hz'. rewrite (f_equal fst Hp : kp_source o' = kp_source o). split_and!; [done| |done].
  apply (kw_place _ _ Hw); [by eapply numbered_outcome..|done].
Qed.
Lemma reproduced_recorded o : o ∈ Reproduction c → ∃ r, r ∈ Provenance c ∧ Declared.vr_source r = oc_origin o ∧ Declared.vr_reference r = oc_ref o
  ∧ Declared.vr_version r = oc_version o ∧ Declared.vr_path r = oc_shown o ∧ Declared.vr_occurrence r = Z.of_nat (oc_number o).
Proof.
  intros (k & n & Hz & ->)%Reproduction_elem. destruct (records_of_some k n) as (output & by_ & Hr); [by eapply numbered_outcome|].
  exists (record_of c k n output by_). split; [apply record_outcome; eauto|done].
Qed.
End Records.
