(* ===== verification/CompileProps.v ===== *)
(** * The compiler's properties, and a configuration that they are shown on. *)

From S2P Require Import Prelude IngestPath IngestSpec Times Json Values Trace Redactor RedactorSpec Compile Compiled CompileSpec.

(** ** A base and two fragments *)

Module Sample.
(** A text is a line for each member: its key, its tag and its value. *)
Definition member (s : string) : option (node * node) :=
  match Split " " s with [k; t; v] => Some (Scalar "!!str" k, Scalar t v) | _ => None end.
Definition members (s : string) : option (list (node * node)) := mapM member (Split newline s).
Definition decode (s : string) : option decoded := ms ← members s; Some (Decoded [Mapping "!!map" ms] (λ _ ts key, (ts, key))).
Definition line (kv : node * node) : string := node_value kv.1 +:+ " " +:+ node_tag kv.2 +:+ " " +:+ node_value kv.2.
Definition lines (ms : list (node * node)) : string := Join (String newline "") (line <$> ms).
Definition encode (l : list node) : option string := match l with [Mapping _ ms] => Some (lines ms) | _ => None end.
Definition encode_json (n : node) : option string := encode [n].
(** A patch's members replace those of their keys, or follow. *)
Definition merge (ms : list (node * node)) (kv : node * node) : list (node * node) :=
  if existsb (λ x, bool_decide (node_value x.1 = node_value kv.1)) ms
  then (λ x, if bool_decide (node_value x.1 = node_value kv.1) then kv else x) <$> ms else ms ++ [kv].
Definition patched (input patch : string) : result string string :=
  match members input, members patch with Some a, Some b => Ok (lines (foldl merge a b)) | _, _ => Err "not a text" end.
Definition mx : machinery := Machinery string string string id Ok (λ s, Ok (Strategic s)) patched Ok Ok (λ _ _, Ok tt) (λ cfg _, cfg).

Definition two_lines (a b : string) : string := a +:+ String newline b.
Definition base_text : string := two_lines "token !bwref secret/a" "name !!str node".
Definition first_text : string := two_lines "debug !bwref secret/b" "extra !bwref secret/c".
Definition second_text : string := "extra !!str plain".
Definition declares (l : list (string * string)) : Declarations :=
  MkDeclarations (list_to_map ((λ x, (x.1, MkReference x.2 1 "")) <$> l)) [].
Definition base : Source := MkSource "r1" "d1" (MkSanitized base_text (declares [("secret/a", "string")]))
  {[ "secret/a" := MkValue "string" true (Some (VStr "hunter2-hunter2")) ]}.
Definition first : Source := MkSource "r2" "d2" (MkSanitized first_text (declares [("secret/b", "boolean"); ("secret/c", "string")]))
  {[ "secret/b" := MkValue "boolean" true (Some (VBool true)); "secret/c" := MkValue "string" true (Some (VStr "correct-horse")) ]}.
Definition second : Source := MkSource "r3" "d3" (MkSanitized second_text (declares [])) ∅.
Definition sources : list Source := [base; first; second].
Definition sample : C compiled := compile decode encode encode_json mx "fresh" sources "metal".

(** Its passes, and the occurrence that the second fragment overrides. *)
Definition real : list string := default [] (ok_of (resolve_sources decode encode encode_json 0 sources)).
Definition traced : list string * list nat * list (Tracer * nat) * list (string * string) :=
  default ([], [], [], []) (ok_of (traceAll decode encode encode_json sources)).
Definition pass : prefixes := Prefixes sources real traced.1.1.1 traced.1.1.2 traced.2.
Definition none : Tracer := MkTracer 0 "" 0 "" "" (-1) 0 TraceString "" (MkPath 0 [] "" []) "" "" false.
Definition replaced : Tracer * nat := default (none, 0%nat) (traced.1.2 !! 2%nat).
Definition kept_one : Tracer * nat := default (none, 0%nat) (traced.1.2 !! 0%nat).
End Sample.

(** ** Redaction *)

(** C26: redaction hides exactly the copies.  A text is shown with every byte that a copy of one of the
    values' long forms covers hidden, every run of covered bytes as one token, and every other byte as it
    is: the one-pass search (Knuth-Morris-Pratt) and the running count of copies give what looking for
    every form at every place gives. *)
Theorem redaction_hides_copies (r : redactor) (s : string) : values r s = hide (covered r s) 0 false s.
Proof. apply values_hide. Qed.

(** C27: when redacting a message panics.  A refusal's message is answered (shown, or withheld behind a
    notice), unless the trace pass's message holds, before, between or after its quotes of stand-ins, bytes
    that are not UTF-8: the pattern made of it then does not compile. *)
Theorem message_panics_iff (step real trace : string) (ts : list Tracer) (unmarked : bool) (r : redactor) :
  redactMessage step real trace ts unmarked r = None ↔
  real ≠ "" ∧ trace ≠ "" ∧ rd_opaque r = false ∧ unmarked = false
  ∧ ∃ q qs, orderQuotes (ts ≫= λ t, (λ s, (s, t)) <$> Quotes t trace) = Some (q :: qs)
    ∧ ∃ t, t ∈ slice 0 q.1.1 trace :: literals_after trace (q :: qs) ∧ valid_utf8 t = false.
Proof. apply message_none. Qed.

Module Panic.
(** A decoder's messages of two values it cuts off after seven bytes: a secret's and one that is none,
    whose seventh byte begins a character. *)
Definition quoting (v : string) : string :=
  "line 1: cannot unmarshal !!str `" +:+ v +:+ "...` into int; line 2: cannot unmarshal !!str `abcdef"
  +:+ String (ascii_of_N 195) "...` into int".
Definition tracer : Tracer :=
  MkTracer 0 "secret/a" 1 "" "string" (-1) 0 TraceString "" (MkPath 0 ["token"] "" []) "zq000x0-xxxxxx0" "" false.
Example message_panics :
  redactMessage "composition" (quoting "hunter2") (quoting "zq000x0") [tracer] false (newRedactor [MkValue "string" true (Some (VStr "hunter2-hunter2"))]) = None.
Proof. vm_compute. reflexivity. Qed.
(** The same message of ASCII texts is shown, the value a token. *)
Definition ascii_quoting (v : string) : string := "line 1: cannot unmarshal !!str `" +:+ v +:+ "...` into int".
Example message_shown :
  redactMessage "composition" (ascii_quoting "hunter2") (ascii_quoting "zq000x0") [tracer] false (newRedactor [MkValue "string" true (Some (VStr "hunter2-hunter2"))])
  = Some ("line 1: cannot unmarshal !!str `<redacted:secret/a@1>...` into int", MessageRedacted).
Proof. vm_compute. reflexivity. Qed.
End Panic.

Section Properties.
Context (decode : string → option decoded) (encode : list node → option string) (encode_json : node → option string) (mx : machinery).
Context (fresh_value : string).

(** C23: compilation shows no long value, and none alone.  Whatever a composition's sources and their values
    are and however the machinery answers, what a compilation tells of itself besides the text - the redacted
    text, the paths of every outcome, a refusal's paths and its message - is not a form of a value's strings
    (the string, its base64, the canonical base64 it decodes to), and contains no such form of six bytes
    or more, [copyFloor]; a shorter form may stand inside it.  A path may instead be the fixed token
    that stands for a redacted one, and a message be empty or the fixed notice that withholds one. *)
Theorem compile_shows_no_value (x : Input) :
  let shown := source_values (in_base x :: in_fragments x) in
  match Compile decode encode encode_json mx fresh_value x with
  | Ok c => output_hides shown c
  | Err e => refusal_hides shown e
  end.
Proof.
  cbv zeta. unfold Compile. set (sources := in_base x :: in_fragments x). cbv zeta.
  pose proof (compile_speaks decode encode encode_json mx fresh_value sources (in_mode x)) as Hs.
  destruct (compile _ _ _ _ _ _ _) as [c|e] eqn:E.
  - apply compile_passes in E as [ps]. pose proof (ps_compiled _ _ _ _ _ _ _ _ ps) as Hc. rewrite Hc. split; cbn [cd_redacted cd_outcomes].
    + intros out. apply redacted_keeps_out.
    + apply Forall_fmap, Forall_true. intros o. split; [apply path_hides|apply hidden_paths].
  - specialize (Hs e eq_refl). split; [by destruct e|]. destruct e as [r i paths m|i [r paths|]|[r paths|]| |]; cbn; try done; apply hidden_paths.
Qed.

(** A stand-in is attributed to its own tracer.  Of a composition that was traced, a leaf that holds a
    tracer's stand-in as placed is attributed to that tracer and to no other, and no two tracers have one
    number. *)
Theorem stand_in_attributed (sources : list Source) texts first ts hs :
  traceAll decode encode encode_json sources = Ok (texts, first, ts, hs) →
  NoDup ((λ t : Tracer * nat, t_id t.1) <$> ts)
  ∧ ∀ t l, t ∈ ts → t_kind t.1 ≠ TraceBoolean → scalar_leaf l = true → lf_value l = t_value t.1 →
    carried_at ts.*1 l = [(t_id t.1, lf_path l)].
Proof.
  intros H. pose proof (traceAll_Ok _ _ _ _ _ H) as [Hn%trace_sources_numbered _]. cbn [fst snd] in Hn. split.
  - rewrite Hn. apply NoDup_seq.
  - intros t l Ht Hk Hs Hl. unfold carried_at. rewrite Hs.
    pose proof (alone _ _ _ _ _ t l H Ht Hk Hl) as Ha. cbn [fst snd] in Ha. by rewrite Ha.
Qed.

(** C25: attribution is exact.  It succeeds just when the real and the trace composition have the same leaves, by path,
    kind and tag, and a scalar leaf's values differ just where some tracer's stand-in is carried; and what
    it attributes is every tracer carried at every scalar leaf, at that leaf's path. *)
Theorem attribution_exact real trace ts hs attrs hosts :
  attribute decode real trace ts hs = Ok (attrs, hosts) ↔
  ∃ rl tl, hostsOf decode trace hs = Ok hosts ∧ leaves decode real hosts = Some rl ∧ leaves decode trace hosts = Some tl
    ∧ Forall2 same_node rl tl ∧ Forall2 (told_apart ts) rl tl ∧ attrs = tl ≫= carried_at ts.
Proof. apply attribute_Ok. Qed.

(** An override is named exactly.  Where an occurrence's value reaches no leaf of the text and a
    fragment is named, the value reached one in the composition up to each source from its own to that
    before the named fragment, and in the composition with the named fragment none, unless that is the whole
    composition, which holds no leaf of it. *)
Theorem override_names_fragment p paths t o b :
  (t.2 <= length (px_trace p) - 1)%nat → outcome_of decode encode encode_json mx p paths t = Ok o → oc_paths o = [] → oc_by o = Some b →
  (t.2 <= b < length (px_trace p) - 1)%nat ∧ (∀ k, (t.2 <= k <= b)%nat → reached decode encode encode_json mx p t k)
  ∧ (S b = length (px_trace p) - 1 ∨ unreached decode encode encode_json mx p t (S b))%nat.
Proof.
  intros Ht (_ & _ & Hp & Hb)%outcome_of_Ok Ho Hby. rewrite Hby in Hb. destruct Hb as (present & Hpr & Hov); [congruence|].
  by eapply override_named.
Qed.

(** C24: what is compiled is whole.  The text is the composition of its sources' resolved texts in a known
    mode, no source twice, and the machinery finds it valid; every traced occurrence has one outcome, in
    order, whose paths are leaves of the text; no base occurrence is overridden, and no other leaf holds a long
    form of an occurrence's value. *)
Theorem compiled_is_whole sources mode c :
  compile decode encode encode_json mx fresh_value sources mode = Ok c →
  mode ∈ modes ∧ NoDup (so_revision <$> sources)
  ∧ (∃ real, resolve_sources decode encode encode_json 0 sources = Ok real ∧ compose_all decode mx real = Ok (cd_text c))
  ∧ validated mx (cd_text c) mode = Ok tt
  ∧ ∃ texts first ts hs hosts output outcomes, traceAll decode encode encode_json sources = Ok (texts, first, ts, hs)
    ∧ leaves decode (cd_text c) hosts = Some output
    ∧ cd_outcomes c = keep (newRedactor (source_values sources)) <$> outcomes
    ∧ zip (oc_tracer <$> outcomes) (oc_source <$> outcomes) = ts
    ∧ (∀ o q, o ∈ outcomes → q ∈ oc_paths o → q ∈ lf_path <$> output)
    ∧ (∀ o, o ∈ outcomes → oc_source o = 0%nat → oc_by o = None ∧ oc_paths o ≠ [])
    ∧ ∀ l o, l ∈ output → scalar_leaf l = true → lf_path l ∉ outcomes ≫= oc_paths → o ∈ outcomes →
      ∃ forms, value_forms sources o = Ok forms ∧ ∀ f, f ∈ forms → Contains (lf_value l) f = false.
Proof.
  intros [ps]%compile_passes. pose proof (outcome_paths _ _ _ _ _ _ _ _ ps) as Hpaths. pose proof (ps_validated _ _ _ _ _ _ _ _ ps _ (or_introl eq_refl)) as Hv.
  destruct ps as [real trace first ts hs tm attrs hosts tl flips outcomes rl rk p Hm Hr Hreal Hc Ht Htm Ha Htl Hf Ho Hrl Hrk Hck Hvs Hcc].
  cbn [ps_outcomes ps_output] in Hpaths. apply walked_Ok in Hrl. apply checkOutput_Ok in Hck as [Hbase Hcopy].
  pose proof (outcomes_of _ _ _ _ _ _ _ _ Ho) as (H1 & H2 & _).
  split_and!; [done..|by exists real|done|]. exists trace, first, ts, hs, hosts, rl, outcomes.
  split_and!; [done|done|by rewrite Hcc|rewrite H1, H2; apply zip_fst_snd|done| |done].
  intros o Hin H0. pose proof (Hbase o Hin H0) as Hby. split; [done|]. apply all_ok_Ok in Ho. apply list_elem_of_lookup in Hin as [i Hi].
  destruct (Forall2_lookup_r _ _ _ _ _ Ho Hi) as (t & _ & (_ & _ & Hp & Hb)%outcome_of_Ok). rewrite Hby in Hb. congruence.
Qed.
End Properties.

(** ** The sample *)

Lemma stand_in_attributed_witness :
  carried_at Sample.traced.1.2.*1 (Leaf "doc[0]/token" ScalarNode "!!str" (t_value Sample.kept_one.1)) = [(0%nat, "doc[0]/token")].
Proof.
  destruct (stand_in_attributed Sample.decode Sample.encode Sample.encode_json Sample.sources Sample.traced.1.1.1 Sample.traced.1.1.2
    Sample.traced.1.2 Sample.traced.2) as [_ H]; [vm_compute; reflexivity|].
  exact (H Sample.kept_one (Leaf "doc[0]/token" ScalarNode "!!str" (t_value Sample.kept_one.1))
    ltac:(apply list_elem_of_lookup; exists 0%nat; vm_compute; reflexivity) ltac:(vm_compute; discriminate) eq_refl eq_refl).
Defined.
Lemma override_names_fragment_witness :
  (∀ k, (1 <= k <= 1)%nat → reached Sample.decode Sample.encode Sample.encode_json Sample.mx Sample.pass Sample.replaced k) ∧ px_trace Sample.pass <> [].
Proof.
  destruct (override_names_fragment Sample.decode Sample.encode Sample.encode_json Sample.mx Sample.pass (λ _, []) Sample.replaced
    (Outcome Sample.replaced.1 1 [] (Some 1%nat)) 1) as (_ & H & _).
  - vm_compute. lia.
  - vm_compute. reflexivity.
  - reflexivity.
  - reflexivity.
  - split; [exact H|vm_compute; discriminate].
Defined.
Lemma compiled_is_whole_witness : ∃ c, Sample.sample = Ok c ∧ validated Sample.mx (cd_text c) "metal" = Ok tt
  ∧ ∃ real, compose_all Sample.decode Sample.mx real = Ok (cd_text c).
Proof.
  destruct Sample.sample as [c|e] eqn:E; [|vm_compute in E; discriminate E]. exists c. split; [reflexivity|].
  destruct (compiled_is_whole Sample.decode Sample.encode Sample.encode_json Sample.mx "fresh" Sample.sources "metal" c E) as (_ & _ & (real & _ & Hc) & Hv & _).
  split; [exact Hv|exists real; exact Hc].
Defined.
