(* ===== verification/Publish.v ===== *)
(** * Publication ([internal/api/publications.go], [worker.go], [publish.go], [publication_observation.go]):
    the request that queues a draft's publication, the worker's claim of it with its lease, and the
    publication commit.

    The release unit is given: what the compilation hands the commit.  SHA-256 is a parameter.  The
    commit reads the draft's entries before it takes its locks, so it is two turns. *)

From stdpp Require Import sorting pretty.
From S2P Require Import Prelude Ident IngestPath Times Json Classify Store.
From S2P Require Import World Evidence Commit Request Governance Recovery.
From S2P Require Import Drafts Declared.
From S2P Require Monitor.

(** ** The job and the unit *)

Record publishJob := PublishJob { pj_op : string; pj_draft : string; pj_cluster : string; pj_revision : Z; pj_gen : Z }.
Record usedHead := UsedHead { uh_kind : skind; uh_head : string; uh_revision : string; uh_head_revision : Z }.
Record unitMachine := UnitMachine {
  um_machine : string; um_base : string; um_assignment : string; um_mode : string; um_observation : string;
  um_ciphertext : string; um_configuration : string; um_redacted : option string; um_provenance : list provenance_record;
  um_effective : list unitDependency; um_reproduction : list unitDependency; um_encryption : unitDependency }.
Record unitStatus := UnitStatus { us_provider : string; us_object : string; us_version : Z; us_result : Result; us_began : Z }.
Record releaseUnit := ReleaseUnit {
  un_renderer : renderer; un_unchanged : list usedHead; un_machines : list unitMachine; un_statuses : list unitStatus }.
(** [sourceHead]; no head is a name the draft introduces, no revision a removal. *)
Record sourceHead := SourceHead {
  sh_kind : skind; sh_key : string; sh_head : option string; sh_revision : option string; sh_base : Z; sh_actual : Z; sh_changed : bool }.

(** [createdText]: RFC 3339 with nanoseconds, trailing zeros dropped. *)
Fixpoint drop_zeros (s : string) : string :=
  match s with
  | EmptyString => EmptyString
  | String c r => match drop_zeros r with
      | EmptyString => if bool_decide (c = "0"%char) then EmptyString else String c EmptyString
      | r => String c r end
  end.
Definition digits9 (n : Z) : string :=
  String (digit_char (n / 100000000)) (digits4 (n / 10000) +:+ digits4 n).
Definition createdText (t : Z) : string :=
  let f := fields_of (t / second) in
  let frac := drop_zeros (digits9 (t mod second)) in
  digits4 (f_year f) +:+ "-" +:+ digits2 (f_month f) +:+ "-" +:+ digits2 (f_day f) +:+ "T"
  +:+ digits2 (f_hour f) +:+ ":" +:+ digits2 (f_min f) +:+ ":" +:+ digits2 (f_sec f)
  +:+ (if bool_decide (frac = "") then "" else "." +:+ frac) +:+ "Z".

(** ** A release's content *)

Record contentSource := ContentSource { cs_kind : string; cs_key : string; cs_revision : string }.
Record contentMachine := ContentMachine { cm_machine : string; cm_base : string; cm_assignment : string; cm_mode : string; cm_configuration : string }.
Record releaseContent := ReleaseContent {
  ct_cluster : string; ct_draft : string; ct_revision : Z; ct_renderer : renderer;
  ct_sources : list contentSource; ct_machines : list contentMachine }.
#[export] Instance contentSource_eq : EqDecision contentSource. Proof. solve_decision. Defined.
#[export] Instance contentMachine_eq : EqDecision contentMachine. Proof. solve_decision. Defined.

(** [binary.BigEndian] of a [uint64] *)
Fixpoint big_endian (n : nat) (x : Z) : string :=
  match n with O => EmptyString | S n => String (ascii_of_N (Z.to_N (Z.shiftr x (8 * Z.of_nat n) mod 256))) (big_endian n x) end.
Definition count (n : Z) : string := big_endian 8 n.
Definition put (s : string) : string := count (Z.of_nat (String.length s)) +:+ s.
Definition source_before (x y : contentSource) : Prop :=
  if decide (cs_kind x = cs_kind y) then String.leb (cs_key x) (cs_key y) = true else String.leb (cs_kind x) (cs_kind y) = true.
#[export] Instance source_before_dec : RelDecision source_before.
Proof. intros x y. unfold source_before. case_decide; apply _. Defined.
Definition machine_before (x y : contentMachine) : Prop := String.leb (cm_machine x) (cm_machine y) = true.
#[export] Instance machine_before_dec : RelDecision machine_before. Proof. intros x y. unfold machine_before. apply _. Defined.
Definition put_source (s : contentSource) : string := put (cs_kind s) +:+ put (cs_key s) +:+ put (cs_revision s).
Definition put_machine (m : contentMachine) : string :=
  put (cm_machine m) +:+ put (cm_base m) +:+ put (cm_assignment m) +:+ put (cm_mode m) +:+ put (cm_configuration m).
Definition put_all {A} (f : A → string) (l : list A) : string := count (Z.of_nat (length l)) +:+ foldr String.append "" (f <$> l).
(** What [digest] hashes. *)
Definition encode_content (c : releaseContent) : string :=
  put "bronzeward-release-digest/1" +:+ put (ct_cluster c) +:+ put (ct_draft c) +:+ count (ct_revision c)
  +:+ put (rn_contract (ct_renderer c)) +:+ put (rn_machinery (ct_renderer c)) +:+ put (rn_checksum (ct_renderer c))
  +:+ put (rn_kubernetes (ct_renderer c))
  +:+ put_all put_source (merge_sort source_before (ct_sources c)) +:+ put_all put_machine (merge_sort machine_before (ct_machines c)).

(** [key_version]: the version a ciphertext names. *)
Definition key_version (ct : string) : option Z :=
  rest ← CutPrefix "vault:v" ct; ParseInt64 (Cut ":" rest).1.

Section Publish.
(** The database's clocks; this process; SHA-256 and its hexadecimal text. *)
Variable tick : Z → Z.
Variable a : api.
Variable sha256 : string → string.
Variable hex : string → string.

Definition digest (c : releaseContent) : string := sha256 (encode_content c).

(** ** The publish operation and its worker *)

Definition update_job (op : string) (f : job_row → job_row) (s : pdb) : pdb :=
  let t := tpublish s in
  set_tpublish (PublishTables (alter f op (pt_jobs t)) (pt_releases t) (pt_sources t) (pt_machines t) (pt_starts t) (pt_platforms t)) s.
Definition with_lease (l : option Z) (j : job_row) : job_row := JobRow (jb_draft j) (jb_revision j) (jb_by j) (jb_role j) l.
(** An operation's event, numbered after its last. *)
Definition op_event (op kind code : string) : PT unit :=
  in_core (n ← gets (λ d, default 0 (op_events (rlog d) !! op) + 1);
    update_rlog (with_op_event op n);; insert_fact (FOperationEvent op n (owner_epoch a) kind code)).

(** [requestPublication] (T2); [configured]: this process publishes. *)
Definition requestPublication (configured : bool) (fresh : string) (q : draft_request) : PT string :=
  let i := dq_draft q in
  failIf (negb configured) (refuse 503 "dependency-unavailable" "publication is not configured; nothing was committed" []);;
  failIf (negb (MustHave i "drf")) (refuse 404 "not-found" "no such draft" []);;
  d ← getsOr (λ s, dt_drafts (tdrafts s) !! i) (no_draft i);
  failIf (bool_decide (df_state d = DPublished))
    (refuse 409 "conflict" "the draft is published" [("draft", JStr i); ("release", JStr (str (df_release d)))]);;
  failIf (negb (bool_decide (df_state d = DOpen)))
    (refuse 409 "conflict" ("the draft is " +:+ draft_text (df_state d)) [("draft", JStr i)]);;
  failIf (negb (bool_decide (etag (df_revision d) (df_token d) = dq_if_match q)))
    (refuse 412 "precondition-failed" "the draft has moved" [("draft", JStr i)]);;
  found ← gets (λ s, head (filter (λ op, publishing i s op = true ∧ jb_revision <$> pt_jobs (tpublish s) !! op = Some (df_revision d))
    (map_to_list (pt_jobs (tpublish s))).*1));
  match found with
  | Some op => mret op
  | None =>
      taken ← gets (λ s, bool_decide (is_Some (ops (core s) !! fresh)) || bool_decide (is_Some (pt_jobs (tpublish s) !! fresh)));
      fresh_revision taken "operation";;
      in_core (now ← clock_timestamp tick;
        modify (λ d, set_ops (<[fresh := Operation (next_seq d) KPublish Queued (dq_epoch q) None 0 None None None None now None None]> (ops d)) d);;
        update_rlog (with_op_event fresh 1);; insert_fact (FOperationEvent fresh 1 (dq_epoch q) "publish" "queued"));;
      modify (λ s, let t := tpublish s in
        set_tpublish (PublishTables (<[fresh := JobRow i (df_revision d) (dq_principal q) (dq_role q) None]> (pt_jobs t))
          (pt_releases t) (pt_sources t) (pt_machines t) (pt_starts t) (pt_platforms t)) s);;
      mret fresh
  end.

(** A job queued, or running on a lapsed lease. *)
Definition claimable (now : Z) (s : pdb) (op : string) : bool :=
  match ops (core s) !! op, pt_jobs (tpublish s) !! op with
  | Some o, Some j => bool_decide (op_kind_of o = KPublish)
      && (bool_decide (op_st o = Queued)
          || bool_decide (op_st o = Running) && match jb_lease j with Some l => l <? now | None => false end)
  | _, _ => false
  end.
Definition older (s : pdb) (x y : string) : Prop :=
  default 0 (op_seq <$> ops (core s) !! x) ≤ default 0 (op_seq <$> ops (core s) !! y).
#[export] Instance older_dec s : RelDecision (older s). Proof. intros x y. unfold older. apply _. Defined.
Definition oldest_claimable (now : Z) (s : pdb) : option string :=
  head (merge_sort (older s) (filter (λ op, claimable now s op = true) (map_to_list (pt_jobs (tpublish s))).*1)).
Definition run_by (x : operation) : operation :=
  with_state Running (with_owner (owner_id a) (op_gen x + 1) (owner_epoch a) x).
(** [claimPublish]; [lease] is the worker's, in microseconds. *)
Definition claimPublish (lease : Z) : PT (option publishJob) :=
  current ← gets (epoch ∘ core);
  failIf (negb (bool_decide (current = owner_epoch a))) ENotController;;
  now ← in_core (clock_timestamp tick);
  found ← gets (oldest_claimable now);
  match found with
  | None => mret None
  | Some op =>
      o ← getsOr (λ s, ops (core s) !! op) (ENoRows "operation");
      j ← getsOr (λ s, pt_jobs (tpublish s) !! op) (ENoRows "operation");
      modify (λ s, set_core (update_op op run_by (core s)) s);;
      modify (update_job op (with_lease (Some (now + lease))));;
      cluster ← getsOr (λ s, df_cluster <$> dt_drafts (tdrafts s) !! jb_draft j) (ENoRows "draft");
      op_event op "publish" "claimed";;
      mret (Some (PublishJob op (jb_draft j) cluster (jb_revision j) (op_gen o + 1)))
  end.

(** The owner's fence: its claim at its generation and epoch, running on a live lease. *)
Definition owns_job (j : publishJob) (now : Z) (s : pdb) : bool :=
  match ops (core s) !! pj_op j, pt_jobs (tpublish s) !! pj_op j with
  | Some o, Some r => bool_decide (op_owner o = Some (owner_id a)) && (op_gen o =? pj_gen j)
      && bool_decide (op_owner_epoch o = Some (owner_epoch a)) && bool_decide (op_st o = Running)
      && match jb_lease r with Some l => now <? l | None => false end
  | _, _ => false
  end.
(** [extendPublish] *)
Definition extendPublish (lease : Z) (j : publishJob) : PT unit :=
  current ← gets (epoch ∘ core);
  failIf (negb (bool_decide (current = owner_epoch a))) ENotController;;
  now ← in_core (clock_timestamp tick);
  mine ← gets (owns_job j now);
  failIf (negb mine) ENotController;;
  modify (update_job (pj_op j) (with_lease (Some (now + lease)))).

(** [lockPublication]: the fence of an observation made for a publication, under its machine's lock. *)
Definition lockPublication (machine : string) (j : publishJob) : PT unit :=
  found ← gets (λ s, bool_decide (is_Some (ops (core s) !! pj_op j)));
  failIf (negb found) ENotController;;
  now ← in_core (clock_timestamp tick);
  mine ← gets (λ s, owns_job j now s && bool_decide (op_kind_of <$> ops (core s) !! pj_op j = Some KPublish)
    && bool_decide (is_Some (r ← pt_jobs (tpublish s) !! pj_op j; d ← dt_drafts (tdrafts s) !! jb_draft r;
         m ← machines (core s) !! machine; if bool_decide (m_cluster m = df_cluster d) then Some tt else None)));
  failIf (negb mine) ENotController.

(** [finishPublish] *)
Definition end_op (st : op_state) (res error : option doc) (x : operation) : operation :=
  Operation (op_seq x) (op_kind_of x) st (op_epoch x) None (op_gen x) None (op_plan x) (op_machine x) (op_cluster x)
    (op_created x) res error.
Definition finishPublish (j : publishJob) (st : op_state) (res error : option doc) (code : string) : PT unit :=
  current ← gets (epoch ∘ core);
  failIf (negb (bool_decide (current = owner_epoch a))) ENotController;;
  now ← in_core (clock_timestamp tick);
  mine ← gets (owns_job j now);
  failIf (negb mine) ENotController;;
  modify (λ s, set_core (update_op (pj_op j) (end_op st res error) (core s)) s);;
  modify (update_job (pj_op j) (with_lease None));;
  op_event (pj_op j) "publish" code.
End Publish.
