(* ===== verification/Release.v ===== *)
(** * The publication commit ([internal/api/publish.go], [publication_observation.go]): one transaction
    that checks the draft, its heads and machines, the node evidence, the provider's statuses and the
    sources' declarations, and writes the release.

    The conflicts a refusal lists are texts.  A constraint checked at COMMIT is checked last. *)

From stdpp Require Import sorting pretty.
From S2P Require Import Prelude Ident IngestPath Times Json Classify Store.
From S2P Require Import World Evidence Commit Request Governance Recovery.
From S2P Require Import Drafts Declared Publish.
From S2P Require Monitor.
#[export] Existing Instance Monitor.identity_eq.

Section Release.
(** The database's clocks, as the core and the monitor read them. *)
Variable tick : Z → Z.
Variable mtick : Z → Z.
Variable a : api.
Variable sha256 : string → string.
Variable hex : string → string.

(** ** What the commit reads *)

(** [draftHeads] *)
(** The head of a name in a cluster, or of a machine. *)
Definition names_head (cluster : string) (k : source_key) (r : head_row) : bool :=
  bool_decide (hd_key r = k) && (bool_decide (k_kind k = SAssignment) || bool_decide (hd_cluster r = cluster)).
Definition head_at (cluster : string) (k : source_key) (s : pdb) : option (string * head_row) :=
  find (λ x, names_head cluster k x.2) (map_to_list (st_heads (tsources s))).
Definition draftHeads (draft : string) (s : pdb) : list sourceHead :=
  let c := default "" (df_cluster <$> dt_drafts (tdrafts s) !! draft) in
  omap (λ x : string * source_key * entry_row,
    if bool_decide (x.1.1 = draft)
    then let k := x.1.2 in
      Some (SourceHead (k_kind k) (k_name k) (fst <$> head_at c k s) (en_revision x.2) (default 0 (en_base x.2)) 0 true)
    else None) (map_to_list (dt_entries (tdrafts s))).
Definition unchanged_head (h : usedHead) : sourceHead :=
  SourceHead (uh_kind h) "" (Some (uh_head h)) (Some (uh_revision h)) (uh_head_revision h) 0 false.

(** Each machine of the cluster with its import base: the draft's, its Applied release's, or none. *)
Definition base_of (draft m : string) (ms : machine_state) (s : pdb) : string :=
  match dt_imports (tdrafts s) !! (draft, m) with
  | Some b => b
  | None => default "" (rel ← ms_applied ms; mc_base <$> pt_machines (tpublish s) !! (rel, m))
  end.
Definition bases_of (cluster draft : string) (s : pdb) : list (string * string) :=
  omap (λ m, ms ← mstates (core s) !! m;
    if bool_decide (m_cluster <$> machines (core s) !! m = Some cluster) then Some (m, base_of draft m ms s) else None)
    (sorted_ids (map_to_list (mstates (core s))).*1).
Definition assoc {B} (m : string) (l : list (string * B)) : option B := snd <$> find (λ x, bool_decide (x.1 = m)) l.

(** The heads as their locks read them; a head of no row, or met twice, is the unit's defect. *)
Definition lock_head (s : pdb) (h : sourceHead) : option sourceHead :=
  match sh_head h with
  | None => Some h
  | Some i => r ← st_heads (tsources s) !! i;
      if bool_decide (k_kind (hd_key r) = sh_kind h)
      then Some (SourceHead (sh_kind h) (k_name (hd_key r)) (Some i) (sh_revision h) (sh_base h) (hd_revision r) (sh_changed h))
      else None
  end.
Definition head_before (x y : sourceHead) : Prop := String.leb (str (sh_head x)) (str (sh_head y)) = true.
#[export] Instance head_before_dec : RelDecision head_before. Proof. intros x y. unfold head_before. apply _. Defined.

(** The operation holding a machine's scope. *)
Definition held_by (m : string) (s : pdb) : option string :=
  head (ids_where (λ _ o, bool_decide (op_machine o = Some m) && bool_decide (op_kind_of o = KApplyConfig) && active (op_st o)) (ops (core s))).

(** ** [checkInputs] *)

Definition conflict_text (what expected actual : string) : string := what +:+ ": expected " +:+ expected +:+ ", actual " +:+ actual.
Definition head_conflict (h : sourceHead) : option string :=
  match sh_head h with
  | None => None
  | Some i =>
      if sh_changed h && (sh_base h =? 0) then Some (conflict_text i "absent" (pretty (sh_actual h)))
      else if sh_actual h =? sh_base h then None else Some (conflict_text i (pretty (sh_base h)) (pretty (sh_actual h)))
  end.
Definition shown (b : string) : string := if bool_decide (b = "") then "absent" else b.
Definition machine_conflict (bases : list (string * string)) (m : unitMachine) : option string :=
  let b := default "" (assoc (um_machine m) bases) in
  if bool_decide (b = um_base m) then None else Some (conflict_text (um_machine m) (um_base m) (shown b)).
Definition uncovered_conflict (ms : list unitMachine) (mb : string * string) : option string :=
  if negb (bool_decide (mb.2 = "")) && negb (bool_decide (mb.1 ∈ um_machine <$> ms))
  then Some (conflict_text mb.1 "absent" mb.2) else None.
Definition machines_before (x y : unitMachine) : Prop := String.leb (um_machine x) (um_machine y) = true.
#[export] Instance machines_before_dec : RelDecision machines_before. Proof. intros x y. unfold machines_before. apply _. Defined.
Definition conflicts_of (locked : list sourceHead) (u : releaseUnit) (bases : list (string * string)) : list string :=
  omap head_conflict locked ++ omap (machine_conflict bases) (merge_sort machines_before (un_machines u))
  ++ omap (uncovered_conflict (un_machines u)) bases.
(** A changed assignment: its machine covered, not held, and released in recovery mode. *)
Definition assignment_refusal (u : releaseUnit) (s : pdb) (h : sourceHead) : option err :=
  if negb (sh_changed h) || negb (bool_decide (sh_kind h = SAssignment)) then None
  else if negb (bool_decide (sh_key h ∈ um_machine <$> un_machines u)) then Some (ENoRows "covered machine")
  else match held_by (sh_key h) s with
       | Some op => Some (refuse 409 "scope-busy" "an operation holds the machine scope; its assignment cannot change"
           [("scope", JStr (sh_key h)); ("operation", JStr op)])
       | None => if recovery (core s) && negb (bool_decide (m_scope <$> machines (core s) !! sh_key h = Some "released"))
           then Some (refuse 409 "recovery-mode-active"
             "recovery mode refuses an assignment change on a scope not released in the current epoch" [("scope", JStr (sh_key h))])
           else None
       end.
Definition checkInputs (j : publishJob) (u : releaseUnit) (d : draft_row) (heads locked : list sourceHead)
    (bases : list (string * string)) (s : pdb) : option err :=
  if negb (bool_decide (df_state d = DOpen)) then Some (refuse 409 "conflict" "the draft is no longer open" [("draft", JStr (pj_draft j))])
  else if negb (df_revision d =? pj_revision j)
  then Some (refuse 409 "conflict" "the draft moved after the publication bound it" [("draft", JStr (pj_draft j))])
  else let l := conflicts_of locked u bases in
  if negb (bool_decide (l = []))
  then Some (refuse 409 "stale-input" ("Publication refused: " +:+ pretty (length l) +:+ " input(s) moved.") [("conflicts", JList l)])
  else head (omap (assignment_refusal u s) heads).

(** ** [publicationEvidence] *)

Definition evidence_refusal (status : Z) (machine obs rule cause : string) : err :=
  refuse status (if status =? 503 then "dependency-unavailable" else if status =? 409 then "stale-input" else "validation-failed")
    "Publication refused by its node evidence check."
    [("machine", JStr machine); ("observation", JStr obs); ("rule", JStr rule); ("cause", JStr cause)].
(** An observation that shows the identity and the running version. *)
Definition unread_of (o : observation) : bool := bool_decide ("identity" ∈ o_unread o) || bool_decide ("runningVersion" ∈ o_unread o).
Definition readable (o : observation) : bool :=
  bool_decide (is_Some (o_access o)) && bool_decide (is_Some (o_node o)) && bool_decide (is_Some (o_cluster o))
  && bool_decide (is_Some (o_running o)) && negb (unread_of o).
Definition usable (cluster : string) (o : observation) : bool :=
  readable o && match o_access o with Some (path, _, _) => bool_decide (path = "access/talos/" +:+ cluster) | None => false end.
Definition newer_contradiction (m : machine) (talos contract : string) (basis : Z) (o : observation) : bool :=
  (basis <? o_basis o) && (negb (readable o) || negb (identityMatch m talos o) || negb (minorMatch contract o)).
Definition endpoint_changed (machine : string) (basis : Z) (e : event) : bool :=
  bool_decide (e_machine e = machine) && (basis <? e_revision e) && bool_decide (entry_kind (e_entry e) = "endpoint-change").
Definition publicationEvidence (j : publishJob) (machine obs contract : string) (commit : bool) (s : pdb) : option err :=
  let d := core s in
  let ref status rule cause := Some (evidence_refusal status machine obs rule cause) in
  match (o ← observation_row obs d; if bool_decide (o_machine o = machine) then
           st ← start_of o d; x ← pt_starts (tpublish s) !! (machine, s_revision st); m ← machines d !! machine;
           talos ← clusters d !! m_cluster m; se ← event_of machine (s_revision st) d; oe ← event_of machine (o_revision o) d;
           Some (o, st, x, m, talos, se, oe) else None) with
  | None => ref 409 "publication-evidence" "missing-observation"
  | Some (o, st, x, m, talos, se, oe) =>
      let bound := bool_decide (s_purpose st = PPublication) && bool_decide (s_operation st = Some (pj_op j)) && (x.2 =? pj_gen j)
        && bool_decide (s_controller st = owner_id a) && bool_decide (e_epoch se = owner_epoch a)
        && bool_decide (e_epoch oe = owner_epoch a) && bool_decide (m_cluster m = pj_cluster j) in
      if negb bound then ref 409 "publication-evidence" "superseded-observation"
      else if negb (usable (m_cluster m) o) then ref 503 "publication-evidence" "unreadable-identity-or-version"
      else if negb (identityMatch m talos o) then ref 422 "publication-identity" "identity-mismatch"
      else if negb (minorMatch contract o) then ref 422 "publication-version" "minor-mismatch"
      else if negb commit then None
      else if negb (bool_decide (x.1 = m_endpoint m)) || existsb (endpoint_changed machine (o_basis o)) (events d)
      then ref 409 "publication-evidence" "endpoint-changed"
      else if existsb (λ y, bool_decide (o_machine y = machine) && newer_contradiction m talos contract (o_basis o) y) (observations d)
      then ref 409 "publication-evidence" "newer-observation"
      else None
  end.

(** ** The provider's statuses *)

Definition dep_identity (provider : string) (d : unitDependency) : Monitor.identity :=
  Monitor.Identity provider (ud_object d) (ud_version d) (createdText (ud_created d)).
Definition status_identity (s : unitStatus) : Monitor.identity :=
  Monitor.Identity (us_provider s) (us_object s) (us_version s) (createdText (r_created (us_result s))).
Definition status_before (x y : unitStatus) : Prop :=
  let i := status_identity x in let k := status_identity y in
  if decide (Monitor.i_provider i = Monitor.i_provider k) then
    if decide (Monitor.i_object i = Monitor.i_object k) then
      if decide (Monitor.i_version i = Monitor.i_version k)
      then String.leb (Monitor.i_created i) (Monitor.i_created k) = true
      else Monitor.i_version i ≤ Monitor.i_version k
    else String.leb (Monitor.i_object i) (Monitor.i_object k) = true
  else String.leb (Monitor.i_provider i) (Monitor.i_provider k) = true.
#[export] Instance status_before_dec : RelDecision status_before.
Proof. intros x y. unfold status_before. repeat (case_decide; [|apply _]). apply _. Defined.
Fixpoint seed_each (ids : nat → string) (n : nat) (l : list unitStatus) : PT unit :=
  match l with
  | [] => mret tt
  | s :: l =>
      failIf (negb (bool_decide (Classify.r_class (us_result s) = Retained))) (ENoRows "retained status");;
      in_monitor (Monitor.seedStatus mtick (ids n) (status_identity s) (us_result s) (us_began s));;
      seed_each ids (S n) l
  end.
(** [seedStatuses] *)
Definition seedStatuses (ids : nat → string) (l : list unitStatus) : PT unit := seed_each ids 0 (merge_sort status_before l).

(** The identities the unit's dependencies name; the begin of its classification of one. *)
Definition machine_identities (m : unitMachine) : list Monitor.identity :=
  (dep_identity "kv" <$> um_effective m ++ um_reproduction m) ++ [dep_identity "transit" (um_encryption m)].
Definition named_identities (u : releaseUnit) : list Monitor.identity := un_machines u ≫= machine_identities.
Definition began_of (u : releaseUnit) (i : Monitor.identity) : option Z :=
  us_began <$> last (filter (λ s, status_identity s = i) (un_statuses u)).
Definition same_version (i k : Monitor.identity) : bool :=
  bool_decide (Monitor.i_provider i = Monitor.i_provider k) && bool_decide (Monitor.i_object i = Monitor.i_object k)
  && (Monitor.i_version i =? Monitor.i_version k).
(** A dependency of no classification, or a version named under two creation times. *)
Definition misnamed (u : releaseUnit) : bool :=
  existsb (λ i, bool_decide (began_of u i = None)
    || existsb (λ k, same_version i k && negb (bool_decide (Monitor.i_created i = Monitor.i_created k))) (named_identities u))
    (named_identities u).
Definition dependency_members (i : Monitor.identity) (l : doc) : doc :=
  [("provider", JStr (Monitor.i_provider i)); ("object", JStr (Monitor.i_object i)); ("version", JInt (Monitor.i_version i))] ++ l.
Definition class_text (c : Classify.dclass) : string :=
  match c with Classify.Retained => "retained" | Classify.Blocked => "blocked" | Classify.Lost => "lost" | Classify.Unknown => "unknown" end.
Definition dependency_text (i : Monitor.identity) : string :=
  Monitor.i_provider i +:+ " dependency " +:+ Monitor.i_object i +:+ " version " +:+ pretty (Monitor.i_version i).
(** What a status row of a named version refuses. The members are those of the problem's dependency. *)
Definition status_refusal (u : releaseUnit) (x : Monitor.status_row) : option err :=
  let i := Monitor.sr_identity x in
  match find (same_version i) (named_identities u) with
  | None => None
  | Some k =>
      if negb (bool_decide (Monitor.i_created i = Monitor.i_created k)) then
        if bool_decide (Monitor.i_provider i = "kv")
        then Some (refuse 422 "validation-failed" ("Publication refused: the " +:+ dependency_text i +:+ " was recorded under another creation time.")
          (dependency_members i [("reason", JStr "created-time-changed")]))
        else None
      else if negb (bool_decide (Monitor.st_class (Monitor.sr_status x) = Retained))
              && negb (Monitor.sr_recorded x <? default 0 (began_of u i))
      then Some (refuse 422 "validation-failed" ("Publication refused: the " +:+ dependency_text i +:+ " was recorded " +:+ class_text (Monitor.st_class (Monitor.sr_status x))
          +:+ " after publication classified it.")
        (dependency_members i []))
      else None
  end.
Definition status_rows (s : pdb) : list Monitor.status_row :=
  let t := Monitor.m_statuses (monitored s) in omap (λ i, t !! i) (sorted_ids (map_to_list t).*1).
(** [recheckStatuses] *)
Definition recheckStatuses (u : releaseUnit) (s : pdb) : option err :=
  if misnamed u then Some (ENoRows "classification") else head (omap (status_refusal u) (status_rows s)).

(** ** Heads *)

(** A revision's cluster, key and layer. *)
Definition revision_of (kind : skind) (rev : string) (s : pdb) : option (string * source_key * string) :=
  match kind with
  | SFragment => (λ v, (fv_cluster v, SourceKey SFragment (fv_name v), fv_layer v)) <$> st_fragments (tsources s) !! rev
  | SProfile => (λ v, (pv_cluster v, SourceKey SProfile (pv_name v), "")) <$> st_profiles (tsources s) !! rev
  | SAssignment => (λ v, (av_cluster v, SourceKey SAssignment (av_machine v), "")) <$> st_assignments (tsources s) !! rev
  end.
(** A head's reference to its revision holds: its cluster's, of its name and layer. *)
Definition fits_head (cluster : string) (k : source_key) (layer : string) (rev : option string) (s : pdb) : bool :=
  match rev with Some r => bool_decide (revision_of (k_kind k) r s = Some (cluster, k, layer)) | None => true end.
(** A head written, and an assignment's seen by the core. *)
Definition view_head (k : source_key) (rev : option string) (s : pdb) : pdb :=
  match k_kind k with
  | SAssignment =>
      let d := core s in
      let h := match rev with Some r => <[k_name k := r]> (Store.heads d) | None => delete (k_name k) (Store.heads d) end in
      set_core (set_views h (contracts d) (artifacts d) (prov d) d) s
  | _ => s
  end.
Definition put_head (i : string) (h : head_row) (s : pdb) : pdb :=
  view_head (hd_key h) (hd_current h) (set_heads (<[i := h]> (st_heads (tsources s))) s).
Definition moved_head (h : sourceHead) (i : string) (n : Z) : sourceHead :=
  SourceHead (sh_kind h) (sh_key h) (Some i) (sh_revision h) n (sh_actual h) (sh_changed h).
(** [insertHead], under its savepoint. *)
Definition insertHead (cluster fresh : string) (h : sourceHead) : PT sourceHead :=
  v ← getsOr (λ s, r ← sh_revision h; revision_of (sh_kind h) r s) (ENoRows "introduced revision");
  let '(c, k, layer) := (v : string * source_key * string) in
  taken ← gets (λ s, bool_decide (is_Some (st_heads (tsources s) !! fresh)));
  fresh_revision taken "head";;
  dup ← gets (head_at c k);
  if bool_decide (dup = None)
  then modify (put_head fresh (HeadRow c k layer (sh_revision h) 1));; mret (moved_head h fresh 1)
  else other ← getsOr (head_at cluster (SourceKey (sh_kind h) (sh_key h))) (ENoRows "head");
    throw (refuse 409 "stale-input" "Publication refused: 1 input(s) moved."
      [("conflicts", JList [conflict_text other.1 "absent" (pretty (hd_revision other.2))])]).
(** [moveHead] *)
Definition moveHead (cluster fresh : string) (h : sourceHead) : PT sourceHead :=
  match sh_head h with
  | None => insertHead cluster fresh h
  | Some i =>
      r ← getsOr (λ s, st_heads (tsources s) !! i) (ENoRows "head");
      failIf (negb (hd_revision r =? sh_base h)) (ENoRows "head");;
      ok ← gets (fits_head (hd_cluster r) (hd_key r) (hd_layer r) (sh_revision h));
      failIf (negb ok) (EConstraint "head_revision");;
      modify (put_head i (HeadRow (hd_cluster r) (hd_key r) (hd_layer r) (sh_revision h) (hd_revision r + 1)));;
      mret (moved_head h i (hd_revision r + 1))
  end.
Fixpoint moveHeads (cluster : string) (ids : nat → string) (n : nat) (l : list sourceHead) : PT (list sourceHead) :=
  match l with
  | [] => mret []
  | h :: l =>
      h' ← (if sh_changed h then moveHead cluster (ids n) h else mret h);
      l' ← moveHeads cluster ids (S n) l;
      mret (h' :: l')
  end.

(** ** The release's rows *)

Definition update_publish (f : publish_tables → publish_tables) (s : pdb) : pdb := set_tpublish (f (tpublish s)) s.
Definition put_release (i : string) (r : released) (t : publish_tables) : publish_tables :=
  PublishTables (pt_jobs t) (<[i := r]> (pt_releases t)) (pt_sources t) (pt_machines t) (pt_starts t) (pt_platforms t).
Definition put_source_row (k : string * source_key) (r : source_row) (t : publish_tables) : publish_tables :=
  PublishTables (pt_jobs t) (pt_releases t) (<[k := r]> (pt_sources t)) (pt_machines t) (pt_starts t) (pt_platforms t).
Definition put_machine_row (k : string * string) (r : machine_row) (t : publish_tables) : publish_tables :=
  PublishTables (pt_jobs t) (pt_releases t) (pt_sources t) (<[k := r]> (pt_machines t)) (pt_starts t) (pt_platforms t).
Definition view_release (rel : string) (r : released) (s : pdb) : pdb :=
  let d := core s in let v := prov d in
  set_core (set_views (Store.heads d) (<[rel := rn_contract (re_renderer r)]> (contracts d)) (artifacts d)
    (Provenance (<[rel := ReleaseRow (re_cluster r) (re_draft r) (re_by r)]> (releases v)) (sources v) (authors v) (introduced v)
      (base_digests v) (services v)) d) s.
(** The insert of the release, by its operation's requester. *)
Definition insertRelease (rel : string) (j : publishJob) (u : releaseUnit) (dg : string) : PT unit :=
  job ← getsOr (λ s, pt_jobs (tpublish s) !! pj_op j) (ENoRows "operation");
  ep ← gets (epoch ∘ core);
  let row := Released (pj_cluster j) (pj_draft j) (pj_revision j) dg (un_renderer u) (pj_op j) (jb_by job) (jb_role job) ep in
  dup ← gets (λ s, bool_decide (is_Some (pt_releases (tpublish s) !! rel))
    || bool_decide (map_Exists (λ _ r, re_operation r = pj_op j ∨ re_draft r = pj_draft j ∧ re_revision r = pj_revision j) (pt_releases (tpublish s))));
  fresh_revision dup "release";;
  failIf (negb (bool_decide (jb_role job = "publisher"))) (EConstraint "release_published_role_check");;
  failIf (negb (bool_decide (jb_draft job = pj_draft j) && (jb_revision job =? pj_revision j))) (EConstraint "release_operation");;
  modify (view_release rel row ∘ update_publish (put_release rel row)).

(** [insertReleaseMachine] *)
Definition machine_refused (cluster : string) (m : unitMachine) (s : pdb) : option string :=
  if negb (bool_decide (m_cluster <$> machines (core s) !! um_machine m = Some cluster)) then Some "release_machine_cluster"
  else if negb (bool_decide (pt_platforms (tpublish s) !! um_machine m = Some (um_mode m))) then Some "release_machine_platform"
  else if negb (bool_decide (ib_machine <$> st_bases (tsources s) !! um_base m = Some (um_machine m))) then Some "release_machine_import_base"
  else if negb (bool_decide (um_assignment m = ""))
          && negb (fits_head cluster (SourceKey SAssignment (um_machine m)) "" (Some (um_assignment m)) s)
  then Some "release_machine_assignment"
  else if bool_decide (key_version (um_ciphertext m) = None) then Some "release_machine_key_version" else None.
Definition artifact_of (m : unitMachine) (v : Z) : artifact_row :=
  ArtifactRow (um_configuration m) (um_ciphertext m) (ud_object (um_encryption m)) v (um_base m) (um_assignment m) (um_redacted m).
Definition view_artifact (rel : string) (m : unitMachine) (s : pdb) : pdb :=
  let d := core s in
  set_core (set_views (Store.heads d) (contracts d)
    (<[(rel, um_machine m) := artifact_of m (default 0 (key_version (um_ciphertext m)))]> (artifacts d)) (prov d) d) s.
Definition machine_row_of (m : unitMachine) : machine_row :=
  MachineRow (um_base m) (um_assignment m) (um_mode m) (um_configuration m) (um_observation m).
Definition insertReleaseMachine (rel cluster : string) (m : unitMachine) : PT unit :=
  dup ← gets (λ s, bool_decide (is_Some (pt_machines (tpublish s) !! (rel, um_machine m))));
  fresh_revision dup "release_machine";;
  bad ← gets (machine_refused cluster m);
  reject (EConstraint <$> bad);;
  modify (view_artifact rel m ∘ update_publish (put_machine_row (rel, um_machine m) (machine_row_of m))).
Fixpoint each {A} (f : A → PT unit) (l : list A) : PT unit :=
  match l with [] => mret tt | x :: l => f x;; each f l end.

(** A source's row, at the head revision the release leaves its head at. *)
Definition view_source (rel rev : string) : pdb → pdb :=
  view_prov (λ v, Provenance (releases v) (<[rel := default [] (sources v !! rel) ++ [rev]]> (sources v)) (authors v) (introduced v)
    (base_digests v) (services v)).
Definition key_of_head (h : sourceHead) : source_key := SourceKey (sh_kind h) (sh_key h).
Definition insertSource (rel cluster : string) (h : sourceHead) : PT unit :=
  dup ← gets (λ s, bool_decide (is_Some (pt_sources (tpublish s) !! (rel, key_of_head h))));
  fresh_revision dup "release_source";;
  ok ← gets (λ s, match sh_revision h with
    | Some r => match revision_of (sh_kind h) r s with Some (c, k, _) => bool_decide (c = cluster) && bool_decide (k = key_of_head h) | None => false end
    | None => true end);
  failIf (negb ok || (sh_base h <? 1)) (EConstraint "release_source");;
  modify (update_publish (put_source_row (rel, key_of_head h) (SourceRow (str (sh_head h)) (sh_revision h) (sh_base h))));;
  match sh_revision h with Some r => modify (view_source rel r) | None => mret tt end.

(** ** [checkDeclarations] *)

Definition source_revision (rel : string) (k : source_key) (s : pdb) : option string :=
  r ← pt_sources (tpublish s) !! (rel, k); so_current r.
Definition selected_revisions (rel asr : string) (s : pdb) : list string :=
  match st_assignments (tsources s) !! asr with
  | None => []
  | Some v =>
      (av_profiles v ≫= λ p, default [] (r ← source_revision rel (SourceKey SProfile p) s; pv_pins <$> st_profiles (tsources s) !! r))
      ++ omap (λ f, source_revision rel (SourceKey SFragment f.2) s) (av_fragments v)
  end.
(** A machine's composition, from the rows written. *)
Definition composition_of (rel m : string) (s : pdb) : gmap string bool :=
  match pt_machines (tpublish s) !! (rel, m) with
  | None => ∅
  | Some r => <[mc_base r := true]> (list_to_map ((λ v, (v, false)) <$> selected_revisions rel (mc_assignment r) s))
  end.
(** A revision's stored text, and its declarations. *)
Definition stored_source (rev : string) (s : pdb) : option declaredSource :=
  match st_bases (tsources s) !! rev with
  | Some v => Some (DeclaredSource (sha256 (ib_document v)) (ib_declared v))
  | None => (λ v, DeclaredSource (sha256 (fv_document v)) (fv_declared v)) <$> st_fragments (tsources s) !! rev
  end.
Definition sources_of (revisions : list string) (s : pdb) : gmap string declaredSource :=
  list_to_map (omap (λ r, pair r <$> stored_source r s) revisions).
Definition composed_revisions (rel : string) (u : releaseUnit) (s : pdb) : list string :=
  un_machines u ≫= λ m, (map_to_list (composition_of rel (um_machine m) s)).*1.
Definition checkDeclarations (rel : string) (u : releaseUnit) (s : pdb) : result err (option clause) :=
  let revisions := composed_revisions rel u s in
  let l := sources_of revisions s in
  if negb (forallb (λ r, bool_decide (is_Some (l !! r))) revisions) then Err (ENoRows "composed source revision")
  else Ok (head (omap (λ m, disagreement hex (composition_of rel (um_machine m) s) l (um_reproduction m) (um_provenance m)) (un_machines u))).

(** ** The dependencies *)

Definition dependency_keys_unique (m : unitMachine) : bool :=
  bool_decide (NoDup ((λ d, (ud_reference d, ud_object d, ud_version d)) <$> um_effective m))
  && bool_decide (NoDup ((λ d, (ud_source d, ud_occurrence d)) <$> um_reproduction m)).
(** [insertDependencies] *)
Definition insertDependencies (rel : string) (m : unitMachine) : PT unit :=
  failIf (negb (dependency_keys_unique m)) (EDuplicate "dependency");;
  each (λ d, in_monitor (Monitor.insertDependency rel (dep_identity "kv" d))) (um_effective m);;
  each (λ d, in_monitor (Monitor.insertDependency rel (dep_identity "kv" d))) (um_reproduction m);;
  failIf (negb (bool_decide (key_version (um_ciphertext m) = Some (ud_version (um_encryption m))))) (EConstraint "dependency_encryption_key");;
  in_monitor (Monitor.insertDependency rel (dep_identity "transit" (um_encryption m))).

(** ** The content *)

Definition content_of (j : publishJob) (u : releaseUnit) (heads : list sourceHead) : releaseContent :=
  ReleaseContent (pj_cluster j) (pj_draft j) (pj_revision j) (un_renderer u)
    ((λ h, ContentSource (skind_text (sh_kind h)) (sh_key h) (str (sh_revision h))) <$> heads)
    ((λ m, ContentMachine (um_machine m) (um_base m) (um_assignment m) (um_mode m) (um_configuration m)) <$> un_machines u).
(** A stored release's content. *)
Definition stored_content (rel : string) (s : pdb) : option releaseContent :=
  let t := tpublish s in
  r ← pt_releases t !! rel;
  Some (ReleaseContent (re_cluster r) (re_draft r) (re_revision r) (re_renderer r)
    (omap (λ x : string * source_key * source_row, if bool_decide (x.1.1 = rel)
       then Some (ContentSource (skind_text (k_kind x.1.2)) (k_name x.1.2) (str (so_current x.2))) else None) (map_to_list (pt_sources t)))
    (omap (λ x : string * string * machine_row, if bool_decide (x.1.1 = rel)
       then Some (ContentMachine x.1.2 (mc_base x.2) (mc_assignment x.2) (mc_mode x.2) (mc_configuration x.2)) else None) (map_to_list (pt_machines t)))).
(** [releaseDigest] *)
Definition releaseDigest (rel : string) (s : pdb) : option string := digest sha256 <$> stored_content rel s.

(** ** [commitRelease] *)

Record commit_ids := CommitIds { ci_release : string; ci_status : nat → string; ci_head : nat → string; ci_token : string }.
(** What the commit read under its locks: the heads it names, those in id order, and the bases. *)
Record locked_inputs := LockedInputs { li_heads : list sourceHead; li_locked : list sourceHead; li_bases : list (string * string) }.
Definition lockInputs (j : publishJob) (u : releaseUnit) (heads : list sourceHead) : PT locked_inputs :=
  let covered := um_machine <$> un_machines u in
  known ← gets (λ s, forallb (λ m, bool_decide (is_Some (machines (core s) !! m))) covered);
  bases ← gets (bases_of (pj_cluster j) (pj_draft j));
  failIf (negb (known && bool_decide (NoDup covered) && forallb (λ m, bool_decide (is_Some (assoc m bases))) covered)) (ENoRows "covered machine");;
  l ← getsOr (λ s, mapM (lock_head s) (heads ++ (unchanged_head <$> un_unchanged u))) (ENoRows "head");
  failIf (negb (bool_decide (NoDup (omap sh_head l)))) (ENoRows "head used once");;
  mret (LockedInputs l (merge_sort head_before l) bases).
Definition existing_release (j : publishJob) (s : pdb) : option (string * released) :=
  find (λ x, bool_decide (re_draft x.2 = pj_draft j) && (re_revision x.2 =? pj_revision j)) (map_to_list (pt_releases (tpublish s))).
Definition released_doc (rel : string) : doc := [("release", JStr rel)].
(** The release of the draft revision, met before the checks its own commit made fail. *)
Definition meetRelease (j : publishJob) (dg : string) (op : operation) (x : string * released) : PT (string * bool) :=
  let same := bool_decide (re_digest x.2 = dg) in
  if same && bool_decide (op_st op = Succeeded) && bool_decide (op_result op = Some (released_doc x.1)) then mret (x.1, false)
  else if negb same
  then throw (refuse 409 "conflict" "the draft revision was published with other content" [("release", JStr x.1)])
  else finishPublish tick a j Succeeded (Some (released_doc x.1)) None "succeeded";; mret (x.1, false).
Fixpoint first_refusal {A} (f : A → option err) (l : list A) : option err :=
  match l with [] => None | x :: l => match f x with Some e => Some e | None => first_refusal f l end end.
Definition set_desired (covered : list string) (rel : string) (s : pdb) : pdb :=
  let d := core s in
  set_core (set_mstates (map_imap (λ m x, Some (if bool_decide (m ∈ covered)
    then MachineState (ms_revision x + 1) (Some rel) (ms_applied x) (ms_digest x) (ms_source x) (ms_baseline x) else x)) (mstates d)) d) s.
Definition publish_draft (token rel : string) (r : draft_row) : draft_row :=
  DraftRow (df_cluster r) DPublished (df_revision r + 1) token (Some rel).
(** The writes, every check passed. *)
Definition writeRelease (ids : commit_ids) (j : publishJob) (u : releaseUnit) (heads : list sourceHead) (dg : string) : PT string :=
  let rel := ci_release ids in
  seedStatuses (ci_status ids) (un_statuses u);;
  bad ← gets (recheckStatuses u); reject bad;;
  insertRelease rel j u dg;;
  each (insertReleaseMachine rel (pj_cluster j)) (un_machines u);;
  left ← moveHeads (pj_cluster j) (ci_head ids) 0 heads;
  each (insertSource rel (pj_cluster j)) left;;
  agreed ← gets (checkDeclarations rel u);
  reject (match agreed with
    | Err e => Some e
    | Ok (Some _) => Some (refuse 500 "internal-error"
        "the compiled release disagrees with its sources' reference declarations; no release or Desired change was committed" [])
    | Ok None => None end);;
  each (insertDependencies rel) (un_machines u);;
  modify (set_desired (um_machine <$> un_machines u) rel);;
  modify (update_draft (pj_draft j) (publish_draft (ci_token ids) rel));;
  stored ← gets (releaseDigest rel);
  failIf (negb (bool_decide (stored = Some dg))) (ENoRows "stored digest");;
  finishPublish tick a j Succeeded (Some (released_doc rel)) None "succeeded";;
  mret rel.
(** The release, and whether this transaction wrote it; [heads] are the draft's entries' as read before its locks. *)
Definition commitRelease (ids : commit_ids) (j : publishJob) (u : releaseUnit) (heads : list sourceHead) : PT (string * bool) :=
  current ← gets (epoch ∘ core);
  failIf (negb (bool_decide (current = owner_epoch a))) ENotController;;
  x ← lockInputs j u heads;
  d ← getsOr (λ s, dt_drafts (tdrafts s) !! pj_draft j) (ENoRows "draft");
  op ← getsOr (λ s, o ← ops (core s) !! pj_op j; if bool_decide (op_kind_of o = KPublish) then Some o else None) ENotController;
  let dg := digest sha256 (content_of j u (li_heads x)) in
  found ← gets (existing_release j);
  match found with
  | Some r => meetRelease j dg op r
  | None =>
      bad ← gets (checkInputs j u d (li_heads x) (li_locked x) (li_bases x)); reject bad;;
      bad ← gets (λ s, first_refusal (λ m, publicationEvidence j (um_machine m) (um_observation m) (rn_contract (un_renderer u)) true s)
        (un_machines u)); reject bad;;
      rel ← writeRelease ids j u (li_heads x) dg;
      mret (rel, true)
  end.

(** ** What COMMIT checks *)

Definition release_keys (rel : string) (s : pdb) : list (source_key * source_row) :=
  omap (λ x : string * source_key * source_row, if bool_decide (x.1.1 = rel) then Some (x.1.2, x.2) else None)
    (map_to_list (pt_sources (tpublish s))).
Definition names_fragment (rel frv : string) (s : pdb) : bool :=
  existsb (λ x, bool_decide (k_kind x.1 = SFragment) && bool_decide (so_current x.2 = Some frv)) (release_keys rel s).
(** [require_release_selection] *)
Definition selection_of (rel : string) (s : pdb) (x : source_key * source_row) : bool :=
  match so_current x.2 with
  | None => true
  | Some r => match k_kind x.1 with
      | SFragment => true
      | SProfile => forallb (λ p, names_fragment rel p s) (default [] (pv_pins <$> st_profiles (tsources s) !! r))
      | SAssignment => match st_assignments (tsources s) !! r with
          | None => true
          | Some v => forallb (λ p, bool_decide (is_Some (source_revision rel (SourceKey SProfile p) s))) (av_profiles v)
              && forallb (λ lf : string * string, bool_decide ((f ← source_revision rel (SourceKey SFragment lf.2) s; select_layer f s) = Some lf.1))
                   (av_fragments v)
          end
      end
  end.
(** [release_machine_assignment_source] *)
Definition assignment_source (rel : string) (s : pdb) (m : unitMachine) : bool :=
  bool_decide (um_assignment m = "")
  || bool_decide (source_revision rel (SourceKey SAssignment (um_machine m)) s = Some (um_assignment m)).
(** [require_effective_occurrence] *)
Definition effective_occurrence (rel : string) (s : pdb) (m : unitMachine) (d : unitDependency) : bool :=
  existsb (λ o, bool_decide (ud_reference o = ud_reference d) && bool_decide (ud_object o = ud_object d) && (ud_version o =? ud_version d)
    && bool_decide (createdText (ud_created o) = createdText (ud_created d))
    && bool_decide (is_Some (composition_of rel (um_machine m) s !! ud_source o))
    && match stored_source (ud_source o) s ≫= λ x, ds_declared x !! ud_reference o with
       | Some c => (dc_version c =? ud_version o) && bool_decide (dc_generation c = ud_object o) | None => false end) (um_reproduction m).
Definition deferred (rel : string) (u : releaseUnit) (s : pdb) : option string :=
  if negb (forallb (selection_of rel s) (release_keys rel s)) then Some "release_source_selection"
  else if negb (forallb (assignment_source rel s) (un_machines u)) then Some "release_machine_assignment_source"
  else if negb (forallb (λ m, forallb (effective_occurrence rel s m) (um_effective m)) (un_machines u)) then Some "dependency_effective"
  else None.

(** ** [publishCommit] *)

(** How the attempt ends besides its statements: its COMMIT goes through, every attempt deadlocks, the
    server rejects the COMMIT, or its reply is lost, the transaction committed or not. *)
Inductive fate := FCommits | FDeadlocks | FRejected | FLost (committed : bool).
Inductive commit_error := AtStatement (e : err) | AtCommit | Deadlocked | Unknown.
Definition commitTx3 (ids : commit_ids) (j : publishJob) (u : releaseUnit) (heads : list sourceHead) (f : fate) (s : pdb)
    : result commit_error string * pdb :=
  match f with
  | FDeadlocks => (Err Deadlocked, s)
  | _ => match commitRelease ids j u heads s with
      | Err e => (Err (AtStatement e), s)
      | Ok ((rel, wrote), s') =>
          if bool_decide (wrote = true ∧ is_Some (deferred rel u s')) then (Err AtCommit, s)
          else match f with
               | FRejected => (Err AtCommit, s)
               | FLost true => (Err Unknown, s')
               | FLost false => (Err Unknown, s)
               | _ => (Ok rel, s')
               end
      end
  end.
(** What the failure transaction records, or [None]: the error leaves the job to its lease. *)
Definition recorded_refusal (e : commit_error) : option err :=
  match e with
  | AtStatement (ERefused st c t m) => Some (ERefused st c t m)
  | Deadlocked => Some (refuse 503 "transient-conflict"
      "the publication deadlocked on every attempt; no release or Desired change was committed" [])
  | AtCommit => Some (refuse 500 "internal-error" "the publication commit was rejected; no release or Desired change was committed" [])
  | AtStatement (EConstraint _ | EDuplicate _) => Some (refuse 500 "internal-error"
      "the publication broke a database constraint; no release or Desired change was committed" [])
  | _ => None
  end.
Definition problem_doc (e : err) : doc :=
  match e with ERefused st c t m => [("code", JStr c); ("status", JInt st); ("detail", JStr t)] ++ m | _ => [] end.
Definition refusal_code (e : err) : string := match e with ERefused _ c _ _ => c | _ => "" end.
Definition failPublish (j : publishJob) (e : err) : PT unit :=
  finishPublish tick a j Failed None (Some (problem_doc e)) (refusal_code e).

(** The store, between whose turns the others act, and the attempts' ends to come. *)
Record pworld := PWorld { pw_store : pdb; pw_fates : list fate }.
Variable others : pdb → pdb.
Notation PP := (P pworld commit_error).
Definition p_turn {A} (m : PT A) : PP A := λ w,
  let s := others (pw_store w) in
  match m s with Ok (x, s') => (Ok x, PWorld s' (pw_fates w)) | Err e => (Err (AtStatement e), PWorld s (pw_fates w)) end.
Definition p_commit (ids : commit_ids) (j : publishJob) (u : releaseUnit) (heads : list sourceHead) : PP string := λ w,
  let '(r, s) := commitTx3 ids j u heads (default FCommits (head (pw_fates w))) (others (pw_store w)) in
  (r, PWorld s (tail (pw_fates w))).
Definition publishCommit (ids : commit_ids) (j : publishJob) (u : releaseUnit) : PP (result err string) :=
  heads ← p_turn (gets (draftHeads (pj_draft j)));
  r ← attempt_of (p_commit ids j u heads);
  match r with
  | Ok rel => mret (Ok rel)
  | Err e => match recorded_refusal e with
      | Some ref => p_turn (failPublish j ref);; mret (Err ref)
      | None => fail e
      end
  end.
(** [runPublish], with what building the release gave: a unit, a refusal, or nothing (an error, or the
    run stopped). *)
Definition runPublish (ids : commit_ids) (j : publishJob) (built : option (result err releaseUnit)) : PP (option (result err string)) :=
  match built with
  | None => mret None
  | Some (Err e) => p_turn (failPublish j e);; mret (Some (Err e))
  | Some (Ok u) => r ← publishCommit ids j u; mret (Some r)
  end.
End Release.
