(* ===== verification/Build.v ===== *)
(** * What a publication commits ([internal/api/pipeline.go], [pipeline_deps.go], [pipeline_build.go],
    [internal/compile/dependencies.go]): the snapshot it compiles, the pinned versions it reads, and the
    release unit of its compiled machines.

    The snapshot's transaction reads one state.  The provider's answers are given, each call by its
    number; so are each machine's observation with the state it leaves, the machinery's constants and its reading
    of a configuration's kubelet image, and each source revision's embedded identifications. *)

From stdpp Require Import sorting pretty.
From S2P Require Import Prelude Ident IngestPath Times Json Classify Store.
From S2P Require Import World Evidence Request.
From S2P Require Import Drafts Declared Publish Release.
From S2P Require Import Values Trace Redactor Compile Compiled.
From S2P Require Monitor.

Notation B A := (result err A).
Definition opt {A} (e : err) (o : option A) : B A := or_else e o.
Definition unless (b : bool) (e : err) : B unit := if b then Ok tt else Err e.

(** ** The snapshot *)

Record snapshotMachine := SnapshotMachine {
  sm_machine : string; sm_mode : string; sm_base : string; sm_assignment : string; sm_fragments : list string }.
Record storedSource := StoredSource { ss_document : string; ss_declarations : Declarations; ss_generations : gmap string string }.
Definition pinKey : Type := string * Z.
Record snapshot := Snapshot {
  sp_contract : string; sp_machines : list snapshotMachine; sp_sources : gmap string storedSource;
  sp_unchanged : list usedHead; sp_recorded : gmap (string * Z) Z }.
(** [sourceState]: no revision and no head are empty texts. *)
Record sourceState := SourceState { sw_revision : string; sw_head : string; sw_head_revision : Z; sw_entry : bool }.
(** Each first, in order. *)
Definition firsts {A} `{EqDecision A} (l : list A) : list A := reverse (remove_dups (reverse l)).

Definition invalid_pub (detail : string) (members : doc) : err := refuse 422 "validation-failed" ("Publication refused: " +:+ detail) members.

Section Build.
(** A source revision's embedded identifications, and a cluster's contract. *)
Variable embedded : string → list (string * string).
Variable contract_of : string → option string.

Section Snapshot.
Variable j : publishJob.
Variable s : pdb.

(** [readStates] *)
Definition cluster_head (k : source_key) : option (string * head_row) :=
  find (λ x, bool_decide (hd_cluster x.2 = pj_cluster j) && bool_decide (hd_key x.2 = k)) (map_to_list (st_heads (tsources s))).
Definition state_at (k : source_key) : sourceState :=
  let h := cluster_head k in
  let head := str (fst <$> h) in
  let revision := default 0 (hd_revision ∘ snd <$> h) in
  match dt_entries (tdrafts s) !! (pj_draft j, k) with
  | Some e => SourceState (str (en_revision e)) head revision true
  | None => SourceState (str (x ← h; hd_current x.2)) head revision false
  end.
Definition revision_at (kind : skind) (name : string) : string := sw_revision (state_at (SourceKey kind name)).

(** The covered machines: an import base after the draft. *)
Definition base_after (m : string) : string :=
  match dt_imports (tdrafts s) !! (pj_draft j, m) with
  | Some b => b
  | None => str (ms ← mstates (core s) !! m; rel ← ms_applied ms; mc_base <$> pt_machines (tpublish s) !! (rel, m))
  end.
Definition cluster_machines : list snapshotMachine :=
  omap (λ m, x ← machines (core s) !! m;
    if bool_decide (m_cluster x = pj_cluster j)
    then Some (SnapshotMachine m (str (pt_platforms (tpublish s) !! m)) (base_after m) "" []) else None)
    (sorted_ids (map_to_list (machines (core s))).*1).
Fixpoint covered_machines (l : list snapshotMachine) : B (list snapshotMachine) :=
  match l with
  | [] => Ok []
  | m :: l =>
      let st := state_at (SourceKey SAssignment (sm_machine m)) in
      if negb (bool_decide (sm_base m = ""))
      then rest ← covered_machines l;
        Ok (SnapshotMachine (sm_machine m) (sm_mode m) (sm_base m) (sw_revision st) [] :: rest)
      else if sw_entry st
      then Err (invalid_pub "the draft changes the assignment of a machine with no import base." [("machine", JStr (sm_machine m))])
      else covered_machines l
  end.

(** [readSelections]: what an assignment and a profile revision select. *)
Definition assignment_profiles (asr : string) : list string := default [] (av_profiles <$> st_assignments (tsources s) !! asr).
Definition assignment_fragments (asr layer : string) : list string :=
  (filter (λ x : string * string, x.1 = layer) (default [] (av_fragments <$> st_assignments (tsources s) !! asr))).*2.
Definition pins_of (prv : string) : list string := default [] (pv_pins <$> st_profiles (tsources s) !! prv).
Definition fragment_of (frv : string) : string * string :=
  match st_fragments (tsources s) !! frv with Some v => (fv_name v, fv_layer v) | None => ("", "") end.
(** The release's profiles by name: the draft's own, and each one a covered assignment selects. *)
Definition entered_profiles : list string :=
  omap (λ x : string * source_key, if bool_decide (x.1 = pj_draft j) && bool_decide (k_kind x.2 = SProfile) then Some (k_name x.2) else None)
    (map_to_list (dt_entries (tdrafts s))).*1.
Definition assigned (ms : list snapshotMachine) : list string := filter (λ asr, asr ≠ "") (sm_assignment <$> ms).
Definition release_profiles (ms : list snapshotMachine) : list string :=
  sorted_ids (filter (λ p, revision_at SProfile p ≠ "") (entered_profiles ++ (assigned ms ≫= assignment_profiles))).
Definition bad_pin (p : string) : option err :=
  first_some (λ ix : nat * string,
    if bool_decide (revision_at SFragment (fragment_of ix.2).1 = ix.2) then None
    else Some (invalid_pub "a pin is not its fragment's revision after the draft."
      [("profile", JStr p); ("path", JStr (at_index "fragments" ix.1)); ("revision", JStr ix.2)])) (imap pair (pins_of (revision_at SProfile p))).
Definition selects (m : snapshotMachine) (path : string) (ok : string → bool) (names : list string) : option err :=
  first_some (λ ix : nat * string,
    if ok ix.2 then None
    else Some (invalid_pub "an assignment selects a name with no revision after the draft, or a fragment outside its layer."
      [("machine", JStr (sm_machine m)); ("path", JStr (at_index path ix.1))])) (imap pair names).
Definition bad_selection (m : snapshotMachine) : option err :=
  if bool_decide (sm_assignment m = "") then None else
  match selects m "profiles" (λ p, negb (bool_decide (revision_at SProfile p = ""))) (assignment_profiles (sm_assignment m)) with
  | Some e => Some e
  | None => first_some (λ layer, selects m ("fragments." +:+ layer)
      (λ f, let r := revision_at SFragment f in negb (bool_decide (r = "")) && bool_decide ((fragment_of r).2 = layer))
      (assignment_fragments (sm_assignment m) layer)) fragmentLayers
  end.
Definition readSelections (ms : list snapshotMachine) : B unit :=
  match first_some bad_pin (release_profiles ms) with
  | Some e => Err e
  | None => match first_some bad_selection ms with Some e => Err e | None => Ok tt end
  end.
(** [compose]: each layer's pins by profile and position, then the assignment's own fragments; each
    revision at its first position. *)
Definition layer_revisions (asr layer : string) : list string :=
  filter (λ frv, (fragment_of frv).2 = layer) (assignment_profiles asr ≫= λ p, pins_of (revision_at SProfile p))
  ++ (revision_at SFragment <$> assignment_fragments asr layer).
Definition compose_fragments (asr : string) : list string :=
  if bool_decide (asr = "") then [] else firsts (fragmentLayers ≫= layer_revisions asr).
(** [unchanged] *)
Definition used_keys (ms : list snapshotMachine) : list source_key :=
  (SourceKey SAssignment ∘ sm_machine <$> ms)
  ++ (ms ≫= λ m, SourceKey SProfile <$> assignment_profiles (sm_assignment m))
  ++ (ms ≫= λ m, fragmentLayers ≫= λ l, SourceKey SFragment <$> assignment_fragments (sm_assignment m) l)
  ++ (release_profiles ms ≫= λ p, (λ frv, SourceKey SFragment (fragment_of frv).1) <$> pins_of (revision_at SProfile p)).
Definition used_before (x y : usedHead) : Prop := String.leb (uh_head x) (uh_head y) = true.
#[local] Instance used_before_dec : RelDecision used_before. Proof. intros x y. unfold used_before. apply _. Defined.
Definition unchanged_heads (ms : list snapshotMachine) : list usedHead :=
  merge_sort used_before (omap (λ k, let st := state_at k in
    if negb (sw_entry st) && negb (bool_decide (sw_head st = "")) then Some (UsedHead (k_kind k) (sw_head st) (sw_revision st) (sw_head_revision st)) else None)
    (remove_dups (used_keys ms))).

(** [readSources] *)
Definition reference_of (d : declaration) : Reference := MkReference (dc_kind d) (dc_version d) (dc_encoding d).
Definition stored_of (rev document : string) (declared : gmap string declaration) : storedSource :=
  StoredSource document (MkDeclarations (reference_of <$> declared) (embedded rev)) (dc_generation <$> declared).
Definition stored_row (rev : string) : option storedSource :=
  match st_bases (tsources s) !! rev with
  | Some v => Some (stored_of rev (ib_document v) (ib_declared v))
  | None => (λ v, stored_of rev (fv_document v) (fv_declared v)) <$> st_fragments (tsources s) !! rev
  end.
Definition readSources (ms : list snapshotMachine) : B (gmap string storedSource) :=
  let revisions := sorted_ids (ms ≫= λ m, sm_base m :: sm_fragments m) in
  l ← all_ok (λ rev, x ← opt (ENoRows "composed source revision") (stored_row rev); Ok (rev, x)) revisions;
  Ok (list_to_map l).
(** [readRecorded] *)
Definition declared_keys (sources : gmap string storedSource) : list (string * Z) :=
  (map_to_list sources).*2 ≫= λ x, (λ nr : string * Reference, (str (ss_generations x !! nr.1), r_version nr.2)) <$> map_to_list (dl_references (ss_declarations x)).
Definition readRecorded (sources : gmap string storedSource) : B (gmap (string * Z) Z) :=
  let ids := omap (λ r, let i := Monitor.sr_identity r in
    if bool_decide (Monitor.i_provider i = "kv") && bool_decide ((Monitor.i_object i, Monitor.i_version i) ∈ declared_keys sources) then Some i else None)
    (map_to_list (Monitor.m_statuses (monitored s))).*2 in
  l ← all_ok (λ i, t ← opt (ENoRows "created") (ParseRFC3339 (Monitor.i_created i)); Ok ((Monitor.i_object i, Monitor.i_version i), t)) ids;
  Ok (list_to_map l).

(** [readSnapshot] *)
Definition readSnapshot : B snapshot :=
  d ← opt (ENoRows "draft") (dt_drafts (tdrafts s) !! pj_draft j);
  contract ← opt (ENoRows "draft") (contract_of (df_cluster d));
  _ ← unless (bool_decide (df_cluster d = pj_cluster j)) (ENoRows "draft of the operation's cluster");
  _ ← unless (bool_decide (df_state d = DOpen)) (refuse 409 "conflict" "the draft is no longer open" [("draft", JStr (pj_draft j))]);
  _ ← unless (df_revision d =? pj_revision j)
    (refuse 409 "conflict" "the draft moved after the publication bound it" [("draft", JStr (pj_draft j))]);
  ms ← covered_machines cluster_machines;
  _ ← unless (negb (bool_decide (ms = []))) (invalid_pub "no machine of the cluster has an import base." [("cluster", JStr (pj_cluster j))]);
  _ ← readSelections ms;
  let ms := (λ m, SnapshotMachine (sm_machine m) (sm_mode m) (sm_base m) (sm_assignment m) (compose_fragments (sm_assignment m))) <$> ms in
  sources ← readSources ms;
  recorded ← readRecorded sources;
  Ok (Snapshot contract ms sources (unchanged_heads ms) recorded).
End Snapshot.

(** ** Pinned versions *)

(** A provider's failure: unreachable, an answer refused or not understood, or another error. *)
Inductive provider_failure := PUnavailable | PAnswer | POther (text : string).
Record dependency_error := DependencyError {
  de_reference : string; de_object : string; de_version : Z; de_class : option dclass; de_reason : string }.
Inductive dep_error := Refuses (d : dependency_error) | Provider (e : provider_failure).
Notation D A := (result dep_error A).
Definition reason_text (r : reason) : string :=
  match r with
  | RNone => "" | DeletionScheduled => "deletion-scheduled" | Malformed => "malformed" | Denied => "denied" | Absent => "absent"
  | Unavailable => "unavailable" | Unreachable => "unreachable" | Unreadable => "unreadable"
  | InsufficientEvidence => "insufficient-evidence" | IdentityMismatch => "identity-mismatch"
  | DeletionTimeUndecidable => "deletion-time-undecidable" | SoftDeleteUnobserved => "soft-delete-unobserved"
  | TrimmedUnverified => "trimmed-unverified" | BelowDecryptionFloorUnverified => "below-decryption-floor-unverified"
  | Destroyed => "destroyed" | Pruned => "pruned" | Trimmed => "trimmed" | SoftDeleted => "soft-deleted" | BelowDecryptionFloor => "below-decryption-floor"
  end.
Definition class_name (c : dclass) : string :=
  match c with Retained => "retained" | Blocked => "blocked" | Lost => "lost" | Classify.Unknown => "unknown" end.
Record Pin := MkPin { pn_reference : string; pn_path : string; pn_version : Z; pn_recorded : Z }.
Definition pin_key (p : Pin) : string * Z := (pn_path p, pn_version p).

(** The provider's answers: the metadata identity's and the compiler's, and its encryptions, by call. *)
Record answers := Answers {
  aw_kv : nat → string → result provider_failure Answer;
  aw_read : nat → string → Z → result provider_failure (Value * Z);
  aw_transit : nat → string → result provider_failure Answer;
  aw_encrypt : nat → string → result provider_failure (string * Z) }.
Definition asked {A} (r : result provider_failure A) : D A := match r with Ok x => Ok x | Err e => Err (Provider e) end.
Definition refused_for (reference object : string) (version : Z) (c : option dclass) (reason : string) : dep_error :=
  Refuses (DependencyError reference object version c reason).

Section Provider.
Variable w : answers.

(** [CheckPinned] and [ReadPinned] of one pin, the [i]th. *)
Definition check_pin (i : nat) (p : Pin) : D (Pin * Result) :=
  a ← asked (aw_kv w i (pn_path p));
  let r := Classify (ADependency KV (pn_path p) (pn_version p) (pn_recorded p)) a in
  if bool_decide (Classify.r_class r = Retained) then Ok (p, r)
  else Err (refused_for (pn_reference p) (pn_path p) (pn_version p) (Some (Classify.r_class r)) (reason_text (Classify.r_reason r))).
Definition read_pin (i : nat) (p : Pin * Result) : D Value :=
  '(v, created) ← asked (aw_read w i (pn_path p.1) (pn_version p.1));
  if created =? Classify.r_created p.2 then Ok v
  else Err (refused_for (pn_reference p.1) (pn_path p.1) (pn_version p.1) None "created-time-changed").

(** [EncryptArtifacts]: each version used, once, with its creation time of the first read. *)
Record Encrypted := MkEncrypted { ex_ciphertext : string; ex_key : string; ex_version : Z; ex_status : Result }.
Definition first_created (key : string) (first : Answer) (date v : Z) : D Z :=
  let c := Classify.r_created (Classify (ADependency Transit key v zero_time) first) in
  if IsZero c then Err (refused_for "" key v None "not-in-first-read")
  else if date <=? c then Err (refused_for "" key v None "created-not-before-date") else Ok c.
Fixpoint encrypt_each (key : string) (first : Answer) (date : Z) (created : gmap Z Z) (i : nat) (l : list string) : D (list (string * Z) * gmap Z Z) :=
  match l with
  | [] => Ok ([], created)
  | text :: l =>
      '(ct, v) ← asked (aw_encrypt w i text);
      created ← match created !! v with
        | Some _ => Ok created
        | None => c ← first_created key first date v; Ok (<[v := c]> created) end;
      '(rest, created) ← encrypt_each key first date created (S i) l;
      Ok ((ct, v) :: rest, created)
  end.
Definition versions_of (created : gmap Z Z) : list Z := merge_sort Z.le (map_to_list created).*1.
Definition second_status (key : string) (second : Answer) (created : gmap Z Z) (v : Z) : D (Z * Result) :=
  let r := Classify (ADependency Transit key v (default zero_time (created !! v))) second in
  if bool_decide (Classify.r_class r = Retained) then Ok (v, r)
  else Err (refused_for "" key v (Some (Classify.r_class r)) (reason_text (Classify.r_reason r))).
Definition no_status : Result := AResult Classify.Unknown RNone zero_time zero_time zero_time.
Definition EncryptArtifacts (key : string) (artifacts : list string) : D (list Encrypted) :=
  first ← asked (aw_transit w 0 key);
  let r := AnswerReason Transit first in
  if negb (bool_decide (r = RNone)) then Err (refused_for "" key 0 (Some Classify.Unknown) (reason_text r)) else
  match ParseDate (a_date first) with
  | None => Err (refused_for "" key 0 (Some Classify.Unknown) "no-date")
  | Some date =>
      '(used, created) ← encrypt_each key first date ∅ 0 artifacts;
      if bool_decide (artifacts = []) then Ok [] else
      second ← asked (aw_transit w 1 key);
      statuses ← all_ok (second_status key second created) (versions_of created);
      Ok ((λ cv : string * Z, MkEncrypted cv.1 key cv.2
        (default no_status (snd <$> find (λ x : Z * Result, x.1 =? cv.2) statuses))) <$> used)
  end.

(** [dependencyRefusal]: the dependency's members under its key. *)
Definition dependency_detail (reference prov object : string) (version : Z) (class_ reason_ : option string) : doc :=
  let member (k : string) (v : option string) : doc := match v with Some v => [("dependency." +:+ k, JStr v)] | None => [] end in
  [("dependency.provider", JStr prov); ("dependency.object", JStr object); ("dependency.version", JInt version)]
  ++ member "reference" (if bool_decide (reference = "") then None else Some reference) ++ member "class" class_ ++ member "reason" reason_.
Definition noRelease : string := "no release or Desired change was committed".
Definition dependencyRefusal (reference prov object : string) (version : Z) (e : dep_error) : err :=
  let unavailable detail ms := refuse 503 "dependency-unavailable" ("Publication refused: " +:+ detail +:+ "; " +:+ noRelease +:+ ".") ms in
  let undecided := "the provider's answer leaves a dependency undecided" in
  match e with
  | Refuses d =>
      let ms := dependency_detail reference prov (de_object d) (de_version d) (class_name <$> de_class d) (Some (de_reason d)) in
      if bool_decide (de_class d = Some Classify.Unknown) && negb (bool_decide (de_reason d = reason_text IdentityMismatch))
      then unavailable undecided ms
      else invalid_pub ("the " +:+ prov +:+ " dependency " +:+ de_object d +:+ " version " +:+ pretty (de_version d) +:+ " cannot be used.") ms
  | Provider PUnavailable => unavailable "the provider could not be reached" (dependency_detail reference prov object version (Some "unknown") None)
  | Provider PAnswer => unavailable undecided (dependency_detail reference prov object version (Some "unknown") None)
  | Provider (POther t) => ENoRows t
  end.
Definition for_dependency {A} (reference prov object : string) (version : Z) (r : D A) : B A :=
  match r with Ok x => Ok x | Err e => Err (dependencyRefusal reference prov object version e) end.

(** [readPinned] *)
Record pinned := Pinned { pd_values : gmap string (gmap string Value); pd_created : gmap (string * Z) Z; pd_statuses : list unitStatus }.
(** Every declared reference by revision and name, with its version. *)
Definition declared_refs (sources : gmap string storedSource) : list (string * string * (string * Z)) :=
  rev ← sorted_ids (map_to_list sources).*1;
  match sources !! rev with
  | None => []
  | Some x => (λ n, (rev, n, (str (ss_generations x !! n), r_version (default (MkReference "" 0 "") (dl_references (ss_declarations x) !! n)))))
      <$> sorted_ids (map_to_list (dl_references (ss_declarations x))).*1
  end.
Fixpoint pins_from (cluster : string) (recorded : gmap (string * Z) Z) (seen : list (string * Z)) (l : list (string * string * (string * Z))) : B (list Pin) :=
  match l with
  | [] => Ok []
  | (rev, n, k) :: l =>
      if bool_decide (k ∈ seen) then pins_from cluster recorded seen l
      else if negb (Monitor.generationPath k.1) then Err (ENoRows "generation path")
      else if negb (String.prefix ("gen/" +:+ cluster +:+ "/") k.1)
      then Err (invalid_pub ("a secret reference belongs to another cluster; " +:+ noRelease +:+ ".") [("source", JStr rev); ("reference", JStr n)])
      else rest ← pins_from cluster recorded (k :: seen) l; Ok (MkPin n k.1 k.2 (default zero_time (recorded !! k)) :: rest)
  end.
Definition numbered_calls {A} (l : list A) : list (nat * A) := imap pair l.
Definition value_at (values : list ((string * Z) * Value)) (k : string * Z) : option Value := snd <$> find (λ x : (string * Z) * Value, bool_decide (x.1 = k)) values.
Definition readPinned (cluster : string) (began : Z) (sources : gmap string storedSource) (recorded : gmap (string * Z) Z) : B pinned :=
  pins ← pins_from cluster recorded [] (declared_refs sources);
  checked ← all_ok (λ ip : nat * Pin, for_dependency (pn_reference ip.2) "kv" (pn_path ip.2) (pn_version ip.2) (check_pin ip.1 ip.2)) (numbered_calls pins);
  values ← all_ok (λ ip : nat * (Pin * Result), for_dependency (pn_reference ip.2.1) "kv" (pn_path ip.2.1) (pn_version ip.2.1) (read_pin ip.1 ip.2))
    (numbered_calls checked);
  let keyed := zip (pin_key <$> pins) values in
  Ok (Pinned
    ((λ x, map_imap (λ n r, value_at keyed (str (ss_generations x !! n), r_version r)) (dl_references (ss_declarations x))) <$> sources)
    (list_to_map ((λ pr : Pin * Result, (pin_key pr.1, Classify.r_created pr.2)) <$> checked))
    ((λ pr : Pin * Result, UnitStatus "kv" (pn_path pr.1) (pn_version pr.1) pr.2 began) <$> checked)).
End Provider.

(** ** The release unit *)

(** A build's failure: a refusal or an error, or [None] where the compilation panics. *)
Notation U A := (result (option err) A).
Definition lift {A} (r : B A) : U A := match r with Ok x => Ok x | Err e => Err (Some e) end.

Definition rule_text (r : rule) : string :=
  match r with
  | BadName => "bad-name" | BadDeclaration => "bad-declaration" | BadPath => "bad-path" | TagPlacement => "tag-placement"
  | UndeclaredName => "undeclared-name" | LocalTag => "local-tag" | Trace.Embedded => "embedded" | ReservedText => "reserved-text"
  | UnusedName => "unused-declaration" | KindMismatch => "kind-mismatch" | Unresolved => "unresolved" | JSONPatch => "json-patch"
  | TraceIndistinct => "trace-indistinct"
  end.
Definition crule_text (r : crule) : string :=
  match r with
  | Rejected => "rejected" | CReservedText => "reserved-text" | Invalid => "invalid" | Fidelity => "fidelity"
  | Copy => "exact-copy" | BaseOverride => "base-override"
  end.
(** [compileRefusal] *)
Definition member_if (key value : string) : doc := if bool_decide (value = "") then [] else [(key, JStr value)].
Definition refused_configuration (machine rule input : string) (paths : list string) (message : string) : err :=
  invalid_pub ("the configuration was refused (" +:+ rule +:+ ").")
    ([("rule", JStr rule)] ++ member_if "machine" machine ++ member_if "input" input
     ++ (if bool_decide (paths = []) then [] else [("paths", JList paths)]) ++ member_if "message" message).
Definition compileRefusal (machine : string) (e : compile_error) : option err :=
  match e with
  | CError r input paths message => Some (refused_configuration machine (crule_text r) input paths message)
  | CInput input (Refused r paths) => Some (refused_configuration machine (rule_text r) input paths "")
  | CIngest (Refused r paths) => Some (refused_configuration machine (rule_text r) "" paths "")
  | CInput _ (Failed t) | CIngest (Failed t) | CFailed t => Some (ENoRows t)
  | CPanic => None
  end.

(** ** The renderer ([internal/compile/renderer.go]) *)

(** [CheckContract]: the contract is the minor of the machinery's version. *)
Definition version_number (s : string) : bool :=
  all_dec s && (1 <=? String.length s)%nat && (String.length s <=? 4)%nat && (bool_decide (s = "0") || negb (String.prefix "0" s)).
Definition prerelease_char (c : ascii) : bool :=
  let n := N_of_ascii c in ((97 <=? n) && (n <=? 122) || (65 <=? n) && (n <=? 90) || (48 <=? n) && (n <=? 57) || (n =? 45))%N.
Definition prerelease_part (s : string) : bool :=
  negb (bool_decide (s = "")) && forallb prerelease_char (String.list_ascii_of_string s)
  && (negb (all_dec s) || bool_decide (s = "0") || negb (String.prefix "0" s)).
Definition moduleVersion (s : string) : option (string * string) :=
  rest ← CutPrefix "v" s;
  match Cut "-" rest with
  | (core, pre) =>
      match Split "." core with
      | [major; minor; patch] =>
          if version_number major && version_number minor && version_number patch
             && match pre with None => true | Some p => forallb prerelease_part (Split "." p) end
          then Some (major, minor) else None
      | _ => None
      end
  end.
Definition CheckContract (machinery contract : string) : bool :=
  match moduleVersion machinery with Some (major, minor) => bool_decide (contract = "v" +:+ major +:+ "." +:+ minor) | None => false end.

(** [Machinery]: of the build's modules, the machinery's own version and checksum. *)
Record module := BuildModule { mo_path : string; mo_version : string; mo_sum : string; mo_replaced : bool }.
Definition machineryModule : string := "github.com/siderolabs/talos/pkg/machinery".
Definition sum_char (c : ascii) : bool :=
  let n := N_of_ascii c in ((97 <=? n) && (n <=? 122) || (65 <=? n) && (n <=? 90) || (48 <=? n) && (n <=? 57) || (n =? 43) || (n =? 47))%N.
Definition moduleSum (s : string) : bool :=
  match CutPrefix "h1:" s with
  | Some r => (String.length r =? 44)%nat && String.prefix "=" (from 43 r) && forallb sum_char (String.list_ascii_of_string (upto 43 r))
  | None => false
  end.
Definition Machinery (deps : option (list module)) : option (string * string) :=
  l ← deps; d ← find (λ d, bool_decide (mo_path d = machineryModule)) l;
  if mo_replaced d || (80 <? String.length (mo_version d))%nat || negb (bool_decide (is_Some (moduleVersion (mo_version d)))) || negb (moduleSum (mo_sum d))
  then None else Some (mo_version d, mo_sum d).

(** [shownImage]: the kubelet image the redacted configuration sets; no result is a hidden one.  The
    redacted text is expanded, so that a key that is not a scalar has no text. *)
Definition key_text (k : node) : string := match k with Scalar _ v => v | _ => "" end.
Fixpoint entry_at (key : string) (m : list (node * node)) (next : option node) : option (option node) :=
  match m with
  | [] => Some next
  | (k, v) :: m => if Contains (key_text k) "<redacted" then None else entry_at key m (if bool_decide (key_text k = key) then Some v else next)
  end.
Fixpoint image_in (keys : list string) (n : node) (found : option string) : option (option string) :=
  match keys with
  | [] => Some found
  | key :: keys =>
      match n with
      | Mapping _ m =>
          next ← entry_at key m None;
          match next with
          | None => Some found
          | Some next =>
              if bool_decide (key = "image") then match next, found with Scalar _ v, None => image_in keys next (Some v) | _, _ => None end
              else image_in keys next found
          end
      | _ => None
      end
  end.
Fixpoint images_in (docs : list node) (found : option string) : option (option string) :=
  match docs with
  | [] => Some found
  | n :: docs => found ← image_in ["machine"; "kubelet"; "image"] n found; images_in docs found
  end.
Definition shownImage (docs : list node) : option string := str <$> images_in docs None.

(** [KubernetesVersion]. *)
Fixpoint from_last (p s : string) : option string :=
  match s with
  | EmptyString => None
  | String _ r => match from_last p r with Some x => Some x | None => if String.prefix p s then Some s else None end
  end.
Definition triple : Type := N * N * N.
Definition number (s : string) : N := default 0%N (Atoi s).
Definition releaseTag (s : string) : option triple :=
  rest ← CutPrefix "v" s;
  match Split "." rest with
  | [a; b; c] => if version_number a && version_number b && version_number c then Some (number a, number b, number c) else None
  | _ => None
  end.
Definition less (a b : triple) : bool :=
  let '(a0, a1, a2) := a in let '(b0, b1, b2) := b in
  if negb (a0 =? b0)%N then (a0 <? b0)%N else if negb (a1 =? b1)%N then (a1 <? b1)%N else (a2 <? b2)%N.
(** The machinery's constants: its default image and version, and its window for a minor. *)
Record constants := Constants { cs_image : string; cs_default : string; cs_window : N * N → option (triple * triple) }.
(** Of the image the machinery reads in the configuration, and the redacted configuration's documents;
    a failure is its message. *)
Definition KubernetesVersion (cs : constants) (composed : option string) (redacted : option (list node)) (machinery : string) : result string string :=
  composed ← or_else "the configuration has no machine document" composed;
  docs ← or_else "the kubelet image cannot be shown" redacted;
  shown ← or_else "the kubelet image cannot be shown" (shownImage docs);
  let image := if bool_decide (shown = "") then cs_image cs +:+ ":v" +:+ cs_default cs else shown in
  if negb (bool_decide (image = composed)) then Err "the kubelet image holds a value" else
  rest ← or_else "the kubelet image names no Kubernetes version" (from_last ":v" image);
  let tag := (Cut "@" (from 1 rest)).1 in
  v ← or_else "the kubelet image names no Kubernetes version" (releaseTag tag);
  m ← or_else "the renderer's version is not known" (moduleVersion machinery);
  w ← or_else "the renderer's version is not known" (cs_window cs (number m.1, number m.2));
  if less v w.1 || negb (less v w.2) then Err "the Kubernetes version is outside the renderer's supported window" else Ok tag.

(** [publicationObservations]: each covered machine read in order, its evidence then tested against the
    state that read left. *)
Fixpoint publicationObservations (a : api) (j : publishJob) (observe : string → B (string * pdb)) (contract : string) (l : list snapshotMachine) : B (gmap string string) :=
  match l with
  | [] => Ok ∅
  | m :: l =>
      '(o, s) ← observe (sm_machine m);
      match publicationEvidence a j (sm_machine m) o contract false s with
      | Some e => Err e
      | None => out ← publicationObservations a j observe contract l; Ok (<[sm_machine m := o]> out)
      end
  end.

#[export] Instance unitDependency_eq : EqDecision unitDependency. Proof. solve_decision. Defined.

Section Unit.
Variable decode : string → option decoded.
Variable encode : list node → option string.
Variable encode_json : node → option string.
Variable mx : machinery.
Variable fresh_value : string.
(** SHA-256, its text, and a text's digest of 32 bytes. *)
Variable sha256 : string → string.
Variable hex : string → string.
Variable unhex : string → option string.

(** [ConfigurationDigest]: one newline ends the text. *)
Fixpoint trim_newlines (l : list ascii) : list ascii :=
  match l with
  | [] => []
  | c :: l => match trim_newlines l with [] => if bool_decide (c = newline) then [] else [c] | l => c :: l end
  end.
Definition ConfigurationDigest (text : string) : string :=
  sha256 (String.string_of_list_ascii (trim_newlines (String.list_ascii_of_string text)) +:+ String newline "").

(** [machineRecords] *)
Definition unit_dependency (sources : gmap string storedSource) (created : gmap (string * Z) Z) (rev reference : string) (version : Z) : B unitDependency :=
  obj ← opt (ENoRows "declared reference") (x ← sources !! rev; ss_generations x !! reference);
  t ← opt (ENoRows "classified version") (created !! (obj, version));
  Ok (UnitDependency reference obj version t "" "" "" 0).
Definition output_dependencies (sources : gmap string storedSource) (created : gmap (string * Z) Z) (l : list provenance_record) : B (list unitDependency) :=
  ds ← all_ok (λ r, unit_dependency sources created (or_revision (vr_source r)) (vr_reference r) (vr_version r))
    (filter (λ r, vr_output r ≠ "") l);
  Ok (firsts ds).
Definition reproduction_dependency (sources : gmap string storedSource) (created : gmap (string * Z) Z) (o : Compiled.Occurrence) : B unitDependency :=
  d ← unit_dependency sources created (or_revision (oc_origin o)) (oc_ref o) (oc_version o);
  digest ← opt (ENoRows "source digest") (unhex (or_digest (oc_origin o)));
  Ok (UnitDependency (ud_reference d) (ud_object d) (ud_version d) (ud_created d) (or_revision (oc_origin o)) digest (oc_shown o) (Z.of_nat (oc_number o))).
Definition no_dependency : unitDependency := UnitDependency "" "" 0 0 "" "" "" 0.
Definition machineRecords (m : snapshotMachine) (c : compiled) (sources : gmap string storedSource) (created : gmap (string * Z) Z) : B unitMachine :=
  let provenance := Provenance c in
  effective ← output_dependencies sources created provenance;
  let reached := (λ r, (vr_reference r, vr_version r)) <$> filter (λ r, vr_output r ≠ "") provenance in
  _ ← unless (bool_decide (length (remove_dups reached) = length (Effective c)) && forallb (λ d, bool_decide (d ∈ reached)) (Effective c))
    (ENoRows "effective dependencies");
  reproduction ← all_ok (reproduction_dependency sources created) (Reproduction c);
  Ok (UnitMachine (sm_machine m) (sm_base m) (sm_assignment m) (sm_mode m) "" "" (ConfigurationDigest (cd_text c)) (ok_of (cd_redacted c))
    provenance effective reproduction no_dependency).

(** A source as it is compiled. *)
Definition compile_source (pins : pinned) (rev : string) (x : storedSource) : U Source :=
  text ← lift (opt (ENoRows "stored source") (Stored decode (ss_document x) (ss_declarations x)));
  Ok (MkSource rev (hex (sha256 (ss_document x))) text (default ∅ (pd_values pins !! rev))).
Definition no_source : Source := MkSource "" "" (MkSanitized "" (MkDeclarations ∅ [])) ∅.
(** The machinery's constants, and the kubelet image it reads in a configuration. *)
Variable cs : constants.
Variable kubelet : string → option string.
Definition kubernetes (m : string) (c : compiled) (version : string) : B string :=
  match KubernetesVersion cs (kubelet (cd_text c)) (t ← ok_of (cd_redacted c); d_docs <$> decode t) version with
  | Ok k => Ok k
  | Err message => Err (refused_configuration m "kubernetes" "" [] message)
  end.

Definition compile_machine (version : string) (compile_sources : gmap string Source) (m : snapshotMachine) : U (compiled * string) :=
  _ ← lift (unless (bool_decide (sm_mode m ∈ modes)) (ENoRows "platform mode"));
  let source rev := default no_source (compile_sources !! rev) in
  match Compile decode encode encode_json mx fresh_value (MkInput (source (sm_base m)) (source <$> sm_fragments m) (sm_mode m)) with
  | Err e => Err (compileRefusal (sm_machine m) e)
  | Ok c => k ← lift (kubernetes (sm_machine m) c version); Ok (c, k)
  end.
Definition observed_at (observation : string) (u : unitMachine) : unitMachine :=
  UnitMachine (um_machine u) (um_base u) (um_assignment u) (um_mode u) observation (um_ciphertext u)
    (um_configuration u) (um_redacted u) (um_provenance u) (um_effective u) (um_reproduction u) (um_encryption u).
(** Each machine in order: its configuration names the Kubernetes version the first does. *)
Fixpoint build_machines (version : string) (sources : gmap string storedSource) (pins : pinned) (compile_sources : gmap string Source)
    (observations : gmap string string) (k : string) (l : list snapshotMachine) : U (list (unitMachine * string) * string) :=
  match l with
  | [] => Ok ([], k)
  | m :: l =>
      '(c, k') ← compile_machine version compile_sources m;
      _ ← lift (unless (bool_decide (k = "") || bool_decide (k = k'))
        (invalid_pub "the covered machines' configurations name different Kubernetes versions." [("machine", JStr (sm_machine m)); ("rule", JStr "kubernetes")]));
      u ← lift (machineRecords m c sources (pd_created pins));
      '(rest, k'') ← build_machines version sources pins compile_sources observations k' l;
      Ok ((observed_at (str (observations !! sm_machine m)) u, cd_text c) :: rest, k'')
  end.
(** A machine's ciphertext and its key's version. *)
Definition encrypted_machine (x : unitMachine * Encrypted) : unitMachine :=
  let '(u, e) := x in
  UnitMachine (um_machine u) (um_base u) (um_assignment u) (um_mode u) (um_observation u) (ex_ciphertext e) (um_configuration u)
    (um_redacted u) (um_provenance u) (um_effective u) (um_reproduction u)
    (UnitDependency "" (ex_key e) (ex_version e) (Classify.r_created (ex_status e)) "" "" "" 0).
Definition key_statuses (began : Z) (l : list Encrypted) : list unitStatus :=
  let first v := find (λ e, ex_version e =? v) l in
  omap (λ v, (λ e, UnitStatus "transit" (ex_key e) (ex_version e) (ex_status e) began) <$> first v) (firsts (ex_version <$> l)).

(** [buildRelease], of the state its snapshot reads, the build's modules, the node observations, the
    provider's answers, the artifact key and the database's times before the two calls. *)
Definition buildRelease (a : api) (j : publishJob) (s : pdb) (deps : option (list module)) (observe : string → B (string * pdb))
    (w : answers) (key : string) (began_pins began_key : Z) : U releaseUnit :=
  sn ← lift (readSnapshot j s);
  '(version, checksum) ← lift (opt (ENoRows "machinery") (Machinery deps));
  _ ← lift (unless (CheckContract version (sp_contract sn))
    (refused_configuration "" "contract" "" [] "the cluster's contract is not the renderer's minor"));
  observations ← lift (publicationObservations a j observe (sp_contract sn) (sp_machines sn));
  pins ← lift (readPinned w (pj_cluster j) began_pins (sp_sources sn) (sp_recorded sn));
  sources ← all_ok (λ rx : string * storedSource, x ← compile_source pins rx.1 rx.2; Ok (rx.1, x)) (map_to_list (sp_sources sn));
  '(ms, k) ← build_machines version (sp_sources sn) pins (list_to_map sources) observations "" (sp_machines sn);
  encrypted ← lift (for_dependency "" "transit" key 0 (EncryptArtifacts w key ms.*2));
  Ok (ReleaseUnit (Renderer (sp_contract sn) version checksum k) (sp_unchanged sn) (encrypted_machine <$> zip ms.*1 encrypted)
    (pd_statuses pins ++ key_statuses began_key encrypted)).
End Unit.
End Build.
