(* ===== verification/BuildSpec.v ===== *)
(** * What a publication's build promises: the versions it reads are the ones it classified, the key's
    versions it uses are bracketed by two reads, and the snapshot's compositions. *)

From stdpp Require Import sorting.
From S2P Require Import Prelude IngestPath IngestSpec Times Json Classify Store.
From S2P Require Import World Evidence Request.
From S2P Require Import Drafts Declared Publish Release.
From S2P Require Import Values Trace Redactor Compile Compiled CompileSpec Build.
From S2P Require Monitor.

Lemma opt_Ok {A} (e : err) (o : option A) a : opt e o = Ok a ↔ o = Some a.
Proof. apply or_else_Ok. Qed.
Lemma unless_Ok b (e : err) u : unless b e = Ok u ↔ b = true.
Proof. destruct b, u; naive_solver. Qed.
Lemma lift_Ok {A} (r : result err A) a : lift r = Ok a ↔ r = Ok a.
Proof. destruct r; naive_solver. Qed.
Lemma for_dependency_Ok {A} reference prov object version (r : result dep_error A) a :
  for_dependency reference prov object version r = Ok a ↔ r = Ok a.
Proof. destruct r; naive_solver. Qed.
Lemma asked_Ok {A} (r : result provider_failure A) a : asked r = Ok a ↔ r = Ok a.
Proof. destruct r; naive_solver. Qed.
Lemma firsts_elem {A} `{EqDecision A} (l : list A) x : x ∈ firsts l ↔ x ∈ l.
Proof. unfold firsts. by rewrite elem_of_reverse, elem_of_remove_dups, elem_of_reverse. Qed.
Lemma firsts_NoDup {A} `{EqDecision A} (l : list A) : NoDup (firsts l).
Proof. unfold firsts. rewrite reverse_Permutation. apply NoDup_remove_dups. Qed.

Section Provider.
Variable w : answers.

(** ** Pins *)

(** A pin's answers: it classified retained under its recorded creation time, and its value was read
    with the creation time classified. *)
Definition pinned_at (recorded : gmap (string * Z) Z) (k : string * Z) (created : Z) (v : Value) : Prop :=
  ∃ i a i', aw_kv w i k.1 = Ok a
    ∧ Classify.r_class (Classify (ADependency KV k.1 k.2 (default zero_time (recorded !! k))) a) = Retained
    ∧ Classify.r_created (Classify (ADependency KV k.1 k.2 (default zero_time (recorded !! k))) a) = created
    ∧ aw_read w i' k.1 k.2 = Ok (v, created).
Lemma pins_from_Ok cluster recorded l : ∀ seen pins, pins_from cluster recorded seen l = Ok pins →
  NoDup (pin_key <$> pins) ∧ (∀ p, p ∈ pins → pin_key p ∉ seen
    ∧ pn_recorded p = default zero_time (recorded !! pin_key p)
    ∧ Monitor.generationPath (pn_path p) = true ∧ String.prefix ("gen/" +:+ cluster +:+ "/") (pn_path p) = true)
  ∧ ∀ rev n k, (rev, n, k) ∈ l → k ∈ seen ∨ k ∈ pin_key <$> pins.
Proof.
  induction l as [|[[rev n] k] l IH]; intros seen pins; cbn [pins_from].
  - intros [= <-]. split_and!; [constructor|by intros p ?%elem_of_nil|by intros ? ? ? ?%elem_of_nil].
  - case_bool_decide as Hk.
    + intros H. destruct (IH _ _ H) as (Hn & Hp & Ha). split_and!; [done..|].
      intros rev' n' k' [[= -> -> ->]|Hin]%elem_of_cons; [by left|by apply (Ha rev' n')].
    + destruct (Monitor.generationPath k.1) eqn:Hg; [|done]. destruct (String.prefix _ k.1) eqn:Hc; [|done]. cbn [negb].
      intros (rest & H & [= <-])%bind_Ok. destruct (IH _ _ H) as (Hn & Hp & Ha).
      assert (Ek : pin_key (MkPin n k.1 k.2 (default zero_time (recorded !! k))) = k) by by destruct k.
      split_and!.
      * rewrite fmap_cons, Ek. constructor; [|done]. intros (p & Hpk & Hin)%list_elem_of_fmap. destruct (Hp p Hin) as [Hs _].
        apply Hs. rewrite <-Hpk. by left.
      * intros p [->|Hin]%elem_of_cons; [by rewrite Ek|]. destruct (Hp p Hin) as (Hs & Hrest). split; [|done]. intros Hin'. apply Hs. by right.
      * intros rev' n' k' [[= -> -> ->]|Hin]%elem_of_cons; [right; rewrite fmap_cons, Ek; by left|].
        destruct (Ha rev' n' k' Hin) as [[->|?]%elem_of_cons|?]; [right; rewrite fmap_cons, Ek; by left|by left|right; rewrite fmap_cons; by right].
Qed.
Lemma declared_refs_elem sources rev x n r : sources !! rev = Some x → dl_references (ss_declarations x) !! n = Some r →
  (rev, n, (str (ss_generations x !! n), r_version r)) ∈ declared_refs sources.
Proof.
  intros Hx Hr. unfold declared_refs. apply list_elem_of_bind. exists rev. split.
  - rewrite Hx. apply list_elem_of_fmap. exists n. split; [by rewrite Hr|]. apply sorted_elem, list_elem_of_fmap. exists (n, r). by rewrite elem_of_map_to_list.
  - apply sorted_elem, list_elem_of_fmap. exists (rev, x). by rewrite elem_of_map_to_list.
Qed.
Lemma numbered_Ok {A C} (f : nat → A → result err C) l k : all_ok (λ ip : nat * A, f ip.1 ip.2) (numbered_calls l) = Ok k ↔
  length l = length k ∧ ∀ i x y, l !! i = Some x → k !! i = Some y → f i x = Ok y.
Proof.
  unfold numbered_calls. rewrite all_ok_Ok, Forall2_same_length_lookup, length_imap. apply and_iff_compat_l. split.
  - intros H i x y Hx Hy. apply (H i (i, x) y); [by rewrite list_lookup_imap, Hx|done].
  - intros H i x y Hx Hy. rewrite list_lookup_imap in Hx. destruct (l !! i) as [z|] eqn:Hz; [|done]. injection Hx as <-. by apply H.
Qed.
Lemma value_at_zip pins (values : list Value) i q v : NoDup (pin_key <$> pins) → pins !! i = Some q → values !! i = Some v →
  value_at (zip (pin_key <$> pins) values) (pin_key q) = Some v.
Proof.
  revert values i. induction pins as [|p pins IH]; intros [|u values] i Hn Hi Hv; try done. rewrite fmap_cons, NoDup_cons in Hn. destruct Hn as [Hp Hn].
  unfold value_at. cbn [zip zip_with fmap list_fmap find]. cbn [fst]. destruct i as [|i].
  - injection Hi as ->. injection Hv as ->. by rewrite bool_decide_true.
  - rewrite bool_decide_false; [by apply (IH values i)|]. intros E. apply Hp. rewrite E. apply list_elem_of_fmap_2. by eapply list_elem_of_lookup_2.
Qed.
(** The pins read, in order, each with its classification and its value. *)
Lemma readPinned_each cluster began sources recorded p : readPinned w cluster began sources recorded = Ok p →
  ∃ pins checked values, pins_from cluster recorded [] (declared_refs sources) = Ok pins
    ∧ p = Pinned ((λ x, map_imap (λ n r, value_at (zip (pin_key <$> pins) values) (str (ss_generations x !! n), r_version r))
            (dl_references (ss_declarations x))) <$> sources)
        (list_to_map ((λ pr : Pin * Result, (pin_key pr.1, Classify.r_created pr.2)) <$> checked))
        ((λ pr : Pin * Result, UnitStatus "kv" (pn_path pr.1) (pn_version pr.1) pr.2 began) <$> checked)
    ∧ (λ pr : Pin * Result, pin_key pr.1) <$> checked = pin_key <$> pins
    ∧ ∀ i q, pins !! i = Some q → ∃ r v, checked !! i = Some (q, r) ∧ values !! i = Some v
        ∧ Classify.r_class r = Retained ∧ pinned_at recorded (pin_key q) (Classify.r_created r) v.
Proof.
  unfold readPinned. intros (pins & Hpins & H)%bind_Ok. apply bind_Ok in H as (checked & Hc & H). apply bind_Ok in H as (values & Hv & [= <-]).
  destruct (pins_from_Ok _ _ _ _ _ Hpins) as (_ & Hp & _). exists pins, checked, values.
  apply (numbered_Ok (λ i p, for_dependency (pn_reference p) "kv" (pn_path p) (pn_version p) (check_pin w i p))) in Hc as [Hcl Hc].
  apply (numbered_Ok (λ i p, for_dependency (pn_reference p.1) "kv" (pn_path p.1) (pn_version p.1) (read_pin w i p))) in Hv as [Hvl Hv].
  assert (Hck : ∀ i p, pins !! i = Some p → ∃ r a, checked !! i = Some (p, r) ∧ aw_kv w i (pn_path p) = Ok a
    ∧ r = Classify (ADependency KV (pn_path p) (pn_version p) (pn_recorded p)) a ∧ Classify.r_class r = Retained).
  { intros i p Hi. destruct (lookup_lt_is_Some_2 checked i) as [[q r] Hq]; [rewrite <-Hcl; by eapply lookup_lt_Some|].
    pose proof (Hc i p (q, r) Hi Hq) as Hx. apply for_dependency_Ok in Hx. unfold check_pin in Hx. apply bind_Ok in Hx as (a & Ha%asked_Ok & Hx).
    cbv zeta in Hx. case_bool_decide as Hr; [|done]. injection Hx as <- <-. by eexists _, a. }
  split; [done|]. split; [done|]. split.
  - apply list_eq_same_length with (n := length pins); [by rewrite length_fmap|by rewrite length_fmap, <-Hcl|].
    intros i k k' Hlt. rewrite !list_lookup_fmap. destruct (pins !! i) as [q|] eqn:Hi; [|done].
    destruct (Hck i q Hi) as (r & a & -> & _). by intros [= <-] [= <-].
  - intros i q Hi. destruct (Hck i q Hi) as (r & a & Hi' & Ha & Hr & Hret).
    destruct (lookup_lt_is_Some_2 values i) as [v Hvi]; [rewrite <-Hvl; by eapply lookup_lt_Some|].
    pose proof (Hv i (q, r) v Hi' Hvi) as Hrd. apply for_dependency_Ok in Hrd. unfold read_pin in Hrd. cbn [fst snd] in Hrd.
    apply bind_Ok in Hrd as ([v' cr] & Hrd%asked_Ok & Hx'). destruct (Z.eqb_spec cr (Classify.r_created r)) as [->|]; [|done]. injection Hx' as ->.
    exists r, v. split_and!; [done..|]. destruct (Hp q) as (_ & Hrec & _); [by eapply list_elem_of_lookup_2|].
    exists i, a, i. cbn. rewrite <-Hrec, <-Hr. done.
Qed.
(** A classified version: a pin's, of the cluster, with its status and its value read. *)
Definition classified (cluster : string) (began : Z) (recorded : gmap (string * Z) Z) (p : pinned) (k : string * Z) (created : Z) : Prop :=
  Monitor.generationPath k.1 = true ∧ String.prefix ("gen/" +:+ cluster +:+ "/") k.1 = true
  ∧ (∃ v, pinned_at recorded k created v)
  ∧ ∃ r, UnitStatus "kv" k.1 k.2 r began ∈ pd_statuses p ∧ Classify.r_class r = Retained ∧ Classify.r_created r = created.
Lemma readPinned_created cluster began sources recorded p k created : readPinned w cluster began sources recorded = Ok p →
  pd_created p !! k = Some created → classified cluster began recorded p k created.
Proof.
  intros (pins & checked & values & Hpins & -> & Hfst & Heach)%readPinned_each. cbn [pd_created].
  intros Hk%elem_of_list_to_map_2. apply list_elem_of_fmap in Hk as ([q r] & [= -> ->] & Hin). cbn [fst snd] in *.
  assert (Hq : pin_key q ∈ pin_key <$> pins) by (rewrite <-Hfst; apply list_elem_of_fmap; by exists (q, r)).
  destruct (pins_from_Ok _ _ _ _ _ Hpins) as (Hn & Hp & _). apply list_elem_of_lookup in Hin as [i Hi].
  assert (Hpi : pins !! i = Some q).
  { destruct (pins !! i) as [q'|] eqn:E.
    - destruct (Heach i q' E) as (r' & v & Hi' & _). rewrite Hi in Hi'. by injection Hi' as <- <-.
    - apply lookup_ge_None in E. apply (f_equal length) in Hfst. rewrite !length_fmap in Hfst. apply lookup_lt_Some in Hi. lia. }
  destruct (Heach i q Hpi) as (r' & v & Hi' & _ & Hret & Hpin). rewrite Hi in Hi'. injection Hi' as <-.
  destruct (Hp q) as (_ & _ & Hg & Hc); [by eapply list_elem_of_lookup_2|]. split_and!; [done|done|by exists v|].
  exists r. split_and!; [|done|done]. apply list_elem_of_fmap. exists (q, r). split; [done|]. by eapply list_elem_of_lookup_2.
Qed.
(** Each declared reference's value, and the creation time it was read with. *)
Lemma readPinned_Ok cluster began sources recorded p : readPinned w cluster began sources recorded = Ok p →
  (∀ rev x n r, sources !! rev = Some x → dl_references (ss_declarations x) !! n = Some r →
    let k := (str (ss_generations x !! n), r_version r) in
    ∃ v created, (pd_values p !! rev ≫= λ m, m !! n) = Some v ∧ pd_created p !! k = Some created ∧ pinned_at recorded k created v)
  ∧ NoDup ((λ st, (us_object st, us_version st)) <$> pd_statuses p).
Proof.
  intros (pins & checked & values & Hpins & -> & Hfst & Heach)%readPinned_each. cbn [pd_values pd_created pd_statuses].
  destruct (pins_from_Ok _ _ _ _ _ Hpins) as (Hn & _ & Hall). split.
  - intros rev x n r Hx Hr. set (k := (str (ss_generations x !! n), r_version r)). destruct (Hall rev n k) as [Hnil|Hk]; [by eapply declared_refs_elem|by apply elem_of_nil in Hnil|].
    apply list_elem_of_fmap in Hk as (q & Hkq & [i Hi]%list_elem_of_lookup). destruct (Heach i q Hi) as (res & v & Hi' & Hvi & Hret & Hpin).
    exists v, (Classify.r_created res). rewrite Hkq. split_and!; [| |done].
    + rewrite lookup_fmap, Hx. cbn. rewrite map_lookup_imap, Hr. cbn. fold k. rewrite Hkq. by apply value_at_zip with i.
    + apply elem_of_list_to_map_1; [rewrite <-list_fmap_compose; exact (eq_ind_r (λ l, NoDup l) Hn Hfst)|].
      apply list_elem_of_fmap. exists (q, res). split; [done|]. by eapply list_elem_of_lookup_2.
  - rewrite <-list_fmap_compose. exact (eq_ind_r (λ l, NoDup l) Hn Hfst).
Qed.

(** ** The artifact key *)

(** A key version bracketed by the key's two reads. *)
Definition bracketed (key : string) (first second : Answer) (date v : Z) (st : Result) : Prop :=
  let c := Classify.r_created (Classify (ADependency Transit key v zero_time) first) in
  IsZero c = false ∧ c < date ∧ st = Classify (ADependency Transit key v c) second ∧ Classify.r_class st = Retained.
Definition created_ok (key : string) (first : Answer) (date : Z) (created : gmap Z Z) : Prop :=
  ∀ v c, created !! v = Some c → c = Classify.r_created (Classify (ADependency Transit key v zero_time) first) ∧ IsZero c = false ∧ c < date.
Lemma encrypt_each_Ok key first date l : ∀ created i r, created_ok key first date created →
  encrypt_each w key first date created i l = Ok r →
  length r.1 = length l ∧ created_ok key first date r.2 ∧ created ⊆ r.2
  ∧ ∀ j text cv, l !! j = Some text → r.1 !! j = Some cv → aw_encrypt w (i + j) text = Ok cv ∧ is_Some (r.2 !! cv.2).
Proof.
  induction l as [|text l IH]; intros created i r Hc; cbn [encrypt_each].
  - intros [= <-]. split_and!; [done|done|done|]. intros j text cv Hj. by rewrite lookup_nil in Hj.
  - intros ([ct v] & He%asked_Ok & H)%bind_Ok. apply bind_Ok in H as (created' & Hc' & H). apply bind_Ok in H as ([rest created''] & Hr & [= <-]).
    assert (Hstep : created_ok key first date created' ∧ created ⊆ created' ∧ is_Some (created' !! v)).
    { destruct (created !! v) as [c0|] eqn:Ev; [injection Hc' as <-; by rewrite Ev|].
      apply bind_Ok in Hc' as (c & Hf & [= <-]). unfold first_created in Hf. destruct (IsZero _) eqn:Ez; [done|].
      destruct (Z.leb_spec date (Classify.r_created (Classify (ADependency Transit key v zero_time) first))); [done|]. injection Hf as <-.
      split; [|split; [by apply insert_subseteq|by rewrite lookup_insert_eq]].
      intros v' c' [[<- <-]|[_ Hv']]%lookup_insert_Some; [done|by apply Hc]. }
    destruct Hstep as (Hc1 & Hsub & Hv). destruct (IH _ _ _ Hc1 Hr) as (Hl & Hc2 & Hsub' & Hj). cbn [fst snd] in *.
    split_and!; [simpl; by rewrite Hl|done|by etrans|]. intros [|j] text' cv Hj1 Hj2.
    + injection Hj1 as <-. injection Hj2 as <-. rewrite Nat.add_0_r. split; [done|]. destruct Hv as [c Hv]. exists c. by eapply lookup_weaken.
    + replace (i + S j)%nat with (S i + j)%nat by lia. by apply Hj.
Qed.
Lemma EncryptArtifacts_Ok key artifacts l : EncryptArtifacts w key artifacts = Ok l →
  length l = length artifacts
  ∧ ∀ i text e, artifacts !! i = Some text → l !! i = Some e →
    aw_encrypt w i text = Ok (ex_ciphertext e, ex_version e) ∧ ex_key e = key
    ∧ ∃ first second date, aw_transit w 0 key = Ok first ∧ AnswerReason Transit first = RNone ∧ ParseDate (a_date first) = Some date
      ∧ aw_transit w 1 key = Ok second ∧ bracketed key first second date (ex_version e) (ex_status e).
Proof.
  unfold EncryptArtifacts. intros (first & Hfirst%asked_Ok & H)%bind_Ok. cbv zeta in H. case_bool_decide as Hr; [|done]. cbn [negb] in H.
  destruct (ParseDate (a_date first)) as [date|] eqn:Hd; [|done]. apply bind_Ok in H as ([used created] & Hu & H).
  destruct (encrypt_each_Ok key first date artifacts ∅ 0 _ ltac:(intros v c Hv; by rewrite lookup_empty in Hv) Hu) as (Hl & Hc & _ & Hj).
  cbn [fst snd] in *. case_bool_decide as Ha.
  { injection H as <-. subst artifacts. split; [done|]. intros i text e Hi. by rewrite lookup_nil in Hi. }
  apply bind_Ok in H as (second & Hsecond%asked_Ok & H). apply bind_Ok in H as (statuses & Hst & [= <-]). rewrite length_fmap. split; [done|].
  intros i text e Hi He. rewrite list_lookup_fmap in He. destruct (used !! i) as [[ct v]|] eqn:Hui; [|done]. injection He as <-. cbn.
  destruct (Hj i text (ct, v) Hi Hui) as [He [c Hcv]]. split_and!; [done|done|]. exists first, second, date. split_and!; [done..|].
  destruct (Hc v c Hcv) as (-> & Hz & Hlt). apply all_ok_Ok in Hst.
  assert (Hfind : ∃ st, find (λ x : Z * Result, x.1 =? v) statuses = Some (v, st) ∧ second_status key second created v = Ok (v, st)).
  { assert (Hv : v ∈ versions_of created).
    { unfold versions_of. rewrite merge_sort_Permutation. apply list_elem_of_fmap. eexists (v, _). split; [done|]. by apply elem_of_map_to_list. }
    clear -Hst Hv. induction Hst as [|y [v' st] ys sts H _ IH]; [by apply elem_of_nil in Hv|]. cbn [find fst].
    assert (Hy : v' = y) by (revert H; unfold second_status; case_bool_decide; [by intros [= <- _]|done]). subst v'.
    destruct (Z.eqb_spec y v) as [->|Hn]; [by exists st|]. apply IH. by apply elem_of_cons in Hv as [->|?]. }
  destruct Hfind as (st & -> & Hs). cbn. unfold second_status in Hs. cbn [snd] in Hcv. rewrite Hcv in Hs. cbn [default] in Hs. case_bool_decide; [|done]. injection Hs as <-.
  split_and!; done.
Qed.
End Provider.

(** ** The snapshot *)

Section Snapshot.
Variable embedded : string → list (string * string).
Variable contract_of : string → option string.
Variable j : publishJob.
Variable s : pdb.

(** A fragment revision an assignment selects in a layer: pinned by one of its profiles, or a name of its own. *)
Definition selected (asr layer frv : string) : Prop :=
  (∃ p, p ∈ assignment_profiles s asr ∧ frv ∈ pins_of s (revision_at j s SProfile p) ∧ (fragment_of s frv).2 = layer)
  ∨ ∃ f, f ∈ assignment_fragments s asr layer ∧ frv = revision_at j s SFragment f.
Definition layer_index (layer : string) : nat := default (length fragmentLayers) (fst <$> list_find (eq layer) fragmentLayers).
Definition layer_le (x y : string) : Prop := (layer_index (fragment_of s x).2 <= layer_index (fragment_of s y).2)%nat.

Lemma layer_revisions_elem asr layer frv : frv ∈ layer_revisions j s asr layer ↔ selected asr layer frv.
Proof.
  unfold layer_revisions, selected. rewrite elem_of_app, list_elem_of_filter, list_elem_of_bind, list_elem_of_fmap. split.
  - intros [[Hl (p & Hf & Hp)]|(f & -> & Hf)]; [left; eauto|right; eauto].
  - intros [(p & Hp & Hf & Hl)|(f & Hf & ->)]; [left; eauto|right; eauto].
Qed.
Lemma compose_elem asr frv : asr ≠ "" → frv ∈ compose_fragments j s asr ↔ ∃ layer, layer ∈ fragmentLayers ∧ selected asr layer frv.
Proof.
  intros Ha. unfold compose_fragments. rewrite bool_decide_false, firsts_elem, list_elem_of_bind by done.
  split; [intros (layer & H%layer_revisions_elem & Hl)|intros (layer & Hl & H%layer_revisions_elem)]; by exists layer.
Qed.
Lemma selects_None m path ok names : selects m path ok names = None ↔ Forall (λ n, ok n = true) names.
Proof.
  unfold selects. rewrite first_some_None. rewrite !Forall_forall. split.
  - intros H n [i Hi]%list_elem_of_lookup. specialize (H (i, n)). rewrite elem_of_lookup_imap in H. specialize (H ltac:(by exists i, n)). cbn in H. by destruct (ok n).
  - intros H [i n] (i' & n' & [= -> ->] & Hi)%elem_of_lookup_imap. cbn. by rewrite (H n') by by eapply list_elem_of_lookup_2.
Qed.
Lemma readSelections_Ok ms u : readSelections j s ms = Ok u →
  (∀ p frv, p ∈ release_profiles j s ms → frv ∈ pins_of s (revision_at j s SProfile p) → revision_at j s SFragment (fragment_of s frv).1 = frv)
  ∧ ∀ m, m ∈ ms → sm_assignment m ≠ "" → (∀ p, p ∈ assignment_profiles s (sm_assignment m) → revision_at j s SProfile p ≠ "")
    ∧ ∀ layer f, layer ∈ fragmentLayers → f ∈ assignment_fragments s (sm_assignment m) layer →
      revision_at j s SFragment f ≠ "" ∧ (fragment_of s (revision_at j s SFragment f)).2 = layer.
Proof.
  unfold readSelections. destruct (first_some (bad_pin j s) _) eqn:Ep; [done|]. destruct (first_some (bad_selection j s) ms) eqn:Es; [done|]. intros _.
  rewrite first_some_None, Forall_forall in Ep. rewrite first_some_None, Forall_forall in Es. split.
  - intros p frv Hp [i Hi]%list_elem_of_lookup. specialize (Ep p Hp). unfold bad_pin in Ep. rewrite first_some_None, Forall_forall in Ep.
    specialize (Ep (i, frv)). rewrite elem_of_lookup_imap in Ep. specialize (Ep ltac:(by exists i, frv)). cbn in Ep. by case_bool_decide.
  - intros m Hm Ha. specialize (Es m Hm). unfold bad_selection in Es. rewrite bool_decide_false in Es by done.
    destruct (selects m "profiles" _ _) eqn:E1; [done|]. apply selects_None in E1. rewrite Forall_forall in E1.
    rewrite first_some_None, Forall_forall in Es. split.
    + intros p Hp. specialize (E1 p Hp). by rewrite negb_true_iff, bool_decide_eq_false in E1.
    + intros layer f Hl Hf. specialize (Es layer Hl). apply selects_None in Es. rewrite Forall_forall in Es. specialize (Es f Hf). cbv zeta in Es.
      rewrite andb_true_iff, negb_true_iff, bool_decide_eq_false, bool_decide_eq_true in Es. done.
Qed.
(** Dropping repetitions keeps an order. *)
Lemma firsts_sublist {A} `{EqDecision A} (l : list A) : firsts l `sublist_of` l.
Proof.
  unfold firsts. rewrite <-(reverse_involutive l) at 2. generalize (reverse l). clear l.
  intros l. induction l as [|x l IH]; [constructor|]. simpl. case_decide; rewrite !reverse_cons; [by apply sublist_inserts_r|by apply sublist_app].
Qed.
Lemma sorted_sublist {A} (R : A → A → Prop) (l k : list A) : l `sublist_of` k → StronglySorted R k → StronglySorted R l.
Proof.
  induction 1 as [|x l k H IH|x l k H IH]; intros Hs; [constructor|..]; apply StronglySorted_inv in Hs as [Hs Hx].
  - constructor; [by apply IH|]. rewrite Forall_forall in *. intros y Hy. apply Hx. by eapply elem_of_sublist.
  - by apply IH.
Qed.
Lemma bind_sorted {A B} (R : B → B → Prop) (S : A → A → Prop) (g : A → list B) (l : list A) :
  StronglySorted S l → (∀ a, a ∈ l → StronglySorted R (g a)) → (∀ a b x y, a ∈ l → b ∈ l → S a b → x ∈ g a → y ∈ g b → R x y) →
  StronglySorted R (l ≫= g).
Proof.
  induction 1 as [|a l Hl IH Ha]; intros Hg Hr; [constructor|]. rewrite bind_cons. apply StronglySorted_app_2.
  - intros x y Hx (b & Hy & Hb)%list_elem_of_bind. rewrite Forall_forall in Ha.
    apply (Hr a b); [by left|by right|by apply Ha|done..].
  - apply Hg. by left.
  - apply IH; [intros b Hb; apply Hg; by right|]. intros b c x y Hb Hc. apply Hr; by right.
Qed.
Lemma sorted_all {A} (R : A → A → Prop) (l : list A) : (∀ x y, x ∈ l → y ∈ l → R x y) → StronglySorted R l.
Proof.
  induction l as [|a l IH]; intros H; constructor.
  - apply IH. intros x y Hx Hy. apply H; by right.
  - apply Forall_forall. intros y Hy. apply H; [by left|by right].
Qed.
Definition layered (asr : string) : Prop := ∀ layer f, layer ∈ fragmentLayers → f ∈ assignment_fragments s asr layer →
  revision_at j s SFragment f ≠ "" ∧ (fragment_of s (revision_at j s SFragment f)).2 = layer.
Lemma layer_revisions_layer asr layer frv : layered asr → layer ∈ fragmentLayers → frv ∈ layer_revisions j s asr layer → (fragment_of s frv).2 = layer.
Proof. intros Hl Hin [(p & Hp & Hf & ?)|(f & Hf & ->)]%layer_revisions_elem; [done|by apply Hl]. Qed.
Lemma compose_sorted asr : layered asr → StronglySorted layer_le (compose_fragments j s asr).
Proof.
  intros Hl. unfold compose_fragments. case_bool_decide; [constructor|].
  eapply sorted_sublist; [apply firsts_sublist|].
  apply bind_sorted with (S := λ x y, (layer_index x <= layer_index y)%nat).
  - apply (bool_decide_eq_true_1 _). vm_compute. done.
  - intros layer Hin. apply sorted_all. intros x y Hx Hy. unfold layer_le.
    by rewrite (layer_revisions_layer _ _ _ Hl Hin Hx), (layer_revisions_layer _ _ _ Hl Hin Hy).
  - intros a b x y Ha Hb Hab Hx Hy. unfold layer_le.
    by rewrite (layer_revisions_layer _ _ _ Hl Ha Hx), (layer_revisions_layer _ _ _ Hl Hb Hy).
Qed.
(** The machines of the cluster, and the covered ones. *)
Definition in_cluster (m : snapshotMachine) : Prop :=
  (∃ x, machines (core s) !! sm_machine m = Some x ∧ m_cluster x = pj_cluster j)
  ∧ sm_mode m = str (pt_platforms (tpublish s) !! sm_machine m) ∧ sm_base m = base_after j s (sm_machine m).
Lemma cluster_machines_elem m : m ∈ cluster_machines j s ↔ in_cluster m ∧ sm_assignment m = "" ∧ sm_fragments m = [].
Proof.
  unfold cluster_machines, in_cluster. rewrite list_elem_of_omap. split.
  - intros (n & _ & (x & Hx & H)%bind_Some). case_bool_decide; [|done]. injection H as <-. cbn. split_and!; eauto.
  - intros (((x & Hx & Hc) & Hm & Hb) & Ha & Hf). exists (sm_machine m). split.
    + apply sorted_elem, list_elem_of_fmap. exists (sm_machine m, x). split; [done|]. by apply elem_of_map_to_list.
    + rewrite Hx. cbn. rewrite bool_decide_true by done. rewrite <-Hm, <-Hb, <-Ha, <-Hf. by destruct m.
Qed.
Lemma cluster_machines_names : sm_machine <$> cluster_machines j s `sublist_of` sorted_ids (map_to_list (machines (core s))).*1.
Proof.
  unfold cluster_machines. generalize (sorted_ids (map_to_list (machines (core s))).*1). intros l.
  induction l as [|n l IH]; [constructor|]. cbn [omap list_omap]. destruct (x ← machines (core s) !! n; _) as [m|] eqn:E; [|by apply sublist_cons].
  apply bind_Some in E as (x & _ & E). case_bool_decide; [|done]. injection E as <-. by apply sublist_skip.
Qed.
Definition assigned_machine (m : snapshotMachine) : snapshotMachine :=
  SnapshotMachine (sm_machine m) (sm_mode m) (sm_base m) (revision_at j s SAssignment (sm_machine m)) [].
Lemma covered_machines_Ok l : ∀ ms, covered_machines j s l = Ok ms →
  ms = assigned_machine <$> filter (λ m, sm_base m ≠ "") l
  ∧ ∀ m, m ∈ l → sm_base m = "" → sw_entry (state_at j s (SourceKey SAssignment (sm_machine m))) = false.
Proof.
  induction l as [|m l IH]; intros ms; cbn [covered_machines]; [intros [= <-]; split; [done|by intros m ?%elem_of_nil]|].
  case_bool_decide as Hb; cbn [negb].
  - destruct (sw_entry _) eqn:Ee; [done|]. intros H. apply IH in H as [-> Hm]. rewrite filter_cons_False by (intros H; by apply H).
    split; [done|]. by intros n [->|Hn]%elem_of_cons; [|apply Hm].
  - intros (rest & Hr & [= <-])%bind_Ok. apply IH in Hr as [-> Hm]. rewrite filter_cons_True by done.
    split; [done|]. by intros n [->|Hn]%elem_of_cons; [|apply Hm].
Qed.
(** A map read key by key. *)
Lemma read_each {A} (e : err) (f : string → option A) keys l :
  all_ok (λ k, x ← opt e (f k); Ok (k, x)) keys = Ok l → ∀ k, (k ∈ keys → is_Some (f k)) ∧ ((list_to_map l : gmap string A) !! k = if bool_decide (k ∈ keys) then f k else None).
Proof.
  rewrite all_ok_Ok. induction 1 as [|k y keys l H _ IH]; intros k'.
  - split; [by intros ?%elem_of_nil|]. rewrite bool_decide_false by apply not_elem_of_nil. apply lookup_empty.
  - apply bind_Ok in H as (x & Hx%opt_Ok & [= <-]). destruct (IH k') as [Hs Hl]. split; [by intros [->|?]%elem_of_cons; [rewrite Hx|apply Hs]|].
    cbn. destruct (decide (k = k')) as [->|Hn].
    + rewrite lookup_insert_eq, bool_decide_true by by left. done.
    + rewrite lookup_insert_ne, Hl by done. rewrite (bool_decide_ext (k' ∈ k :: keys) (k' ∈ keys)); [done|]. rewrite elem_of_cons. naive_solver.
Qed.
(** What a snapshot holds. *)
Record snapshot_of (sn : snapshot) : Prop := {
  so_draft : ∃ d, dt_drafts (tdrafts s) !! pj_draft j = Some d ∧ df_state d = DOpen ∧ df_revision d = pj_revision j
    ∧ df_cluster d = pj_cluster j ∧ contract_of (pj_cluster j) = Some (sp_contract sn);
  so_names : NoDup (sm_machine <$> sp_machines sn);
  so_some : sp_machines sn ≠ [];
  so_machines : ∀ m, m ∈ sp_machines sn ↔ in_cluster m ∧ sm_base m ≠ "" ∧ sm_assignment m = revision_at j s SAssignment (sm_machine m)
    ∧ sm_fragments m = compose_fragments j s (sm_assignment m);
  so_left : ∀ m, in_cluster m → sm_base m = "" → sw_entry (state_at j s (SourceKey SAssignment (sm_machine m))) = false;
  so_pins : ∀ m p frv, m ∈ sp_machines sn → sm_assignment m ≠ "" → p ∈ assignment_profiles s (sm_assignment m) →
    frv ∈ pins_of s (revision_at j s SProfile p) → revision_at j s SFragment (fragment_of s frv).1 = frv;
  so_layers : ∀ m, m ∈ sp_machines sn → sm_assignment m ≠ "" → layered (sm_assignment m);
  so_profiles : ∀ m p, m ∈ sp_machines sn → sm_assignment m ≠ "" → p ∈ assignment_profiles s (sm_assignment m) → revision_at j s SProfile p ≠ "";
  so_sources : ∀ rev x, sp_sources sn !! rev = Some x ↔ (∃ m, m ∈ sp_machines sn ∧ (rev = sm_base m ∨ rev ∈ sm_fragments m)) ∧ stored_row embedded s rev = Some x;
  so_read : ∀ m rev, m ∈ sp_machines sn → rev = sm_base m ∨ rev ∈ sm_fragments m → is_Some (stored_row embedded s rev) }.
Lemma readSources_Ok ms sources : readSources embedded s ms = Ok sources → ∀ rev,
  ((∃ m, m ∈ ms ∧ (rev = sm_base m ∨ rev ∈ sm_fragments m)) → is_Some (stored_row embedded s rev))
  ∧ ∀ x, sources !! rev = Some x ↔ (∃ m, m ∈ ms ∧ (rev = sm_base m ∨ rev ∈ sm_fragments m)) ∧ stored_row embedded s rev = Some x.
Proof.
  intros (l & Hl & [= <-])%bind_Ok rev. destruct (read_each _ _ _ _ Hl rev) as [Hs Hv].
  assert (Hin : rev ∈ sorted_ids (ms ≫= λ m, sm_base m :: sm_fragments m) ↔ ∃ m, m ∈ ms ∧ (rev = sm_base m ∨ rev ∈ sm_fragments m)).
  { rewrite sorted_elem, list_elem_of_bind. setoid_rewrite elem_of_cons. naive_solver. }
  rewrite <-Hin. split; [done|]. intros x. rewrite Hv. case_bool_decide; naive_solver.
Qed.
(** The machines a snapshot composes. *)
Definition composed_machine (m : snapshotMachine) : snapshotMachine :=
  SnapshotMachine (sm_machine m) (sm_mode m) (sm_base m) (sm_assignment m) (compose_fragments j s (sm_assignment m)).
Lemma covered_elem ms m : covered_machines j s (cluster_machines j s) = Ok ms →
  m ∈ composed_machine <$> ms ↔ in_cluster m ∧ sm_base m ≠ "" ∧ sm_assignment m = revision_at j s SAssignment (sm_machine m)
    ∧ sm_fragments m = compose_fragments j s (sm_assignment m).
Proof.
  intros [-> _]%covered_machines_Ok. rewrite list_elem_of_fmap. setoid_rewrite list_elem_of_fmap. setoid_rewrite list_elem_of_filter.
  setoid_rewrite cluster_machines_elem. split.
  - intros (? & -> & n & -> & Hb & Hn & _). unfold in_cluster in *. cbn. tauto.
  - intros (Hc & Hb & Ha & Hf). eexists. split; [|exists (SnapshotMachine (sm_machine m) (sm_mode m) (sm_base m) "" []); split; [done|by split_and!]].
    unfold composed_machine. cbn. rewrite <-Ha, <-Hf. by destruct m.
Qed.
Lemma sublist_fmap {A B} (f : A → B) (l k : list A) : l `sublist_of` k → f <$> l `sublist_of` f <$> k.
Proof. induction 1; [constructor|by apply sublist_skip|by apply sublist_cons]. Qed.
Lemma covered_names ms : covered_machines j s (cluster_machines j s) = Ok ms → NoDup (sm_machine <$> (composed_machine <$> ms)).
Proof.
  intros [-> _]%covered_machines_Ok. rewrite <-!list_fmap_compose.
  apply (sublist_NoDup _ (sm_machine <$> cluster_machines j s)); [|apply sublist_fmap, sublist_filter].
  eapply sublist_NoDup; [apply sorted_nodup|apply cluster_machines_names].
Qed.
Lemma readSnapshot_Ok sn : readSnapshot embedded contract_of j s = Ok sn → snapshot_of sn.
Proof.
  unfold readSnapshot. intros (d & Hd%opt_Ok & H)%bind_Ok. apply bind_Ok in H as (contract & Hc%opt_Ok & H).
  apply bind_Ok in H as (? & H1%unless_Ok%bool_decide_eq_true & H). apply bind_Ok in H as (? & H2%unless_Ok%bool_decide_eq_true & H).
  apply bind_Ok in H as (? & H3%unless_Ok%Z.eqb_eq & H). apply bind_Ok in H as (ms & Hms & H).
  apply bind_Ok in H as (? & H4%unless_Ok & H). apply bind_Ok in H as (? & Hsel%readSelections_Ok & H). cbv zeta in H.
  apply bind_Ok in H as (sources & Hso & H). apply bind_Ok in H as (recorded & _ & [= <-]).
  change ((λ m, SnapshotMachine _ _ _ _ _) <$> ms) with (composed_machine <$> ms) in *. destruct Hsel as [Hp Hl].
  assert (Hin : ∀ m, m ∈ composed_machine <$> ms → ∃ n, n ∈ ms ∧ sm_assignment n = sm_assignment m).
  { intros m (n & -> & Hn)%list_elem_of_fmap. by exists n. }
  split; cbn.
  - exists d. rewrite H1 in Hc. done.
  - by apply covered_names.
  - apply negb_true_iff, bool_decide_eq_false in H4. by intros ->%fmap_nil_inv.
  - intros m. by apply covered_elem.
  - intros m Hm Hb. destruct (covered_machines_Ok _ _ Hms) as [_ Ha].
    apply (Ha (SnapshotMachine (sm_machine m) (sm_mode m) (sm_base m) "" [])); [|done]. by apply cluster_machines_elem.
  - intros m p frv Hm Ha Hpm Hf. destruct (Hin m Hm) as (n & Hn & En). rewrite <-En in Ha, Hpm. apply (Hp p); [|done].
    unfold release_profiles. apply sorted_elem, list_elem_of_filter. split; [by apply (Hl n)|]. apply elem_of_app. right.
    apply list_elem_of_bind. exists (sm_assignment n). split; [done|]. unfold assigned. apply list_elem_of_filter. split; [done|]. by apply list_elem_of_fmap_2.
  - intros m Hm Ha. destruct (Hin m Hm) as (n & Hn & En). rewrite <-En in Ha |- *. by destruct (Hl n Hn Ha) as [_ ?].
  - intros m p Hm Ha. destruct (Hin m Hm) as (n & Hn & En). rewrite <-En in Ha |- *. apply (Hl n Hn Ha).
  - intros rev y. apply (readSources_Ok _ _ Hso rev).
  - intros m rev Hm Hr. apply (readSources_Ok _ _ Hso rev). eauto.
Qed.
End Snapshot.

(** ** The renderer *)

Lemma or_else_ok {E A} (e : E) (o : option A) a : or_else e o = Ok a ↔ o = Some a.
Proof. destruct o; naive_solver. Qed.
(** A Kubernetes version is the tag of the image composed, in the machinery's window. *)
Lemma KubernetesVersion_Ok cs composed redacted machinery k : KubernetesVersion cs composed redacted machinery = Ok k →
  ∃ docs image rest v mm lo hi, redacted = Some docs ∧ composed = Some image
    ∧ (shownImage docs = Some image ∨ shownImage docs = Some "" ∧ image = cs_image cs +:+ ":v" +:+ cs_default cs)
    ∧ from_last ":v" image = Some rest ∧ k = (Cut "@" (from 1 rest)).1 ∧ releaseTag k = Some v
    ∧ moduleVersion machinery = Some mm ∧ cs_window cs (number mm.1, number mm.2) = Some (lo, hi) ∧ less v lo = false ∧ less v hi = true.
Proof.
  unfold KubernetesVersion. intros (image & Hi%or_else_ok & H)%bind_Ok. apply bind_Ok in H as (docs & Hd%or_else_ok & H).
  apply bind_Ok in H as (shown & Hs%or_else_ok & H). cbv zeta in H. case_bool_decide as E; [|done]. cbn [negb] in H.
  apply bind_Ok in H as (rest & Hr%or_else_ok & H). apply bind_Ok in H as (v & Hv%or_else_ok & H). apply bind_Ok in H as (mm & Hm%or_else_ok & H).
  apply bind_Ok in H as ([lo hi] & Hw%or_else_ok & H). cbn [fst snd] in *. destruct (less v lo) eqn:El; [done|]. destruct (less v hi) eqn:Eh; [|done].
  injection H as <-. rewrite E in Hr. exists docs, image, rest, v, mm, lo, hi. split_and!; try done. revert E. case_bool_decide as Ee.
  - intros <-. right. by rewrite Hs, Ee.
  - intros <-. by left.
Qed.
Lemma KubernetesVersion_some cs composed redacted machinery k : KubernetesVersion cs composed redacted machinery = Ok k → k ≠ "".
Proof. by intros (? & ? & ? & v & ? & ? & ? & _ & _ & _ & _ & _ & Hv & _)%KubernetesVersion_Ok ->. Qed.

(** ** The unit *)

Section Unit.
Variable embedded : string → list (string * string).
Variable contract_of : string → option string.
Variable decode : string → option decoded.
Variable encode : list node → option string.
Variable encode_json : node → option string.
Variable mx : machinery.
Variable fresh_value : string.
Variable sha256 : string → string.
Variable hex : string → string.
Variable unhex : string → option string.
Variable cs : constants.
Variable kubelet : string → option string.

Notation kubernetes := (kubernetes decode cs kubelet).
Notation Compile := (Compile decode encode encode_json mx fresh_value).
Notation compile_machine := (compile_machine decode encode encode_json mx fresh_value cs kubelet).
Notation build_machines := (build_machines decode encode encode_json mx fresh_value sha256 unhex cs kubelet).
Notation machineRecords := (machineRecords sha256 unhex).

Lemma kubernetes_Ok m c version k : kubernetes m c version = Ok k →
  KubernetesVersion cs (kubelet (cd_text c)) (t ← ok_of (cd_redacted c); d_docs <$> decode t) version = Ok k.
Proof. unfold Build.kubernetes. destruct (KubernetesVersion _ _ _ _); naive_solver. Qed.
(** What the sources give a machine's compilation. *)
Definition input_of (sources : gmap string Source) (m : snapshotMachine) : Input :=
  let source rev := default no_source (sources !! rev) in MkInput (source (sm_base m)) (source <$> sm_fragments m) (sm_mode m).
Lemma compile_machine_Ok version sources m c k : compile_machine version sources m = Ok (c, k) →
  sm_mode m ∈ modes ∧ Compile (input_of sources m) = Ok c ∧ kubernetes (sm_machine m) c version = Ok k.
Proof.
  unfold Build.compile_machine. intros (? & H1%lift_Ok%unless_Ok%bool_decide_eq_true & H)%bind_Ok. cbv zeta in H.
  change (MkInput _ _ _) with (input_of sources m) in H. destruct (Compile (input_of sources m)) as [c'|] eqn:E; [|done].
  apply bind_Ok in H as (k' & Hk%lift_Ok & [= <- <-]). done.
Qed.
Lemma build_machines_Ok version sources pins compiled observations l : ∀ k ms K,
  build_machines version sources pins compiled observations k l = Ok (ms, K) →
  (k = "" ∨ l = [] ∨ k = K)
  ∧ Forall2 (λ m x, ∃ c u, compile_machine version compiled m = Ok (c, K) ∧ machineRecords m c sources (pd_created pins) = Ok u
      ∧ x = (observed_at (str (observations !! sm_machine m)) u, cd_text c)) l ms.
Proof.
  induction l as [|m l IH]; intros k ms K; cbn [Build.build_machines]; [intros [= <- <-]; split; [tauto|constructor]|].
  intros ([c k'] & Hc & H)%bind_Ok. apply bind_Ok in H as (? & Hk%lift_Ok%unless_Ok & H). apply bind_Ok in H as (u & Hu%lift_Ok & H).
  apply bind_Ok in H as ([rest k''] & Hr & [= <- <-]). destruct (IH _ _ _ Hr) as [Hkk Hrest].
  pose proof (compile_machine_Ok _ _ _ _ _ Hc) as (_ & _ & Hk'%kubernetes_Ok%KubernetesVersion_some).
  assert (k' = k'') as <-. { destruct Hkk as [?|[->|?]]; [done| |done]. cbn in Hr. by injection Hr. }
  split; [|constructor; [by exists c, u|done]]. rewrite orb_true_iff, !bool_decide_eq_true in Hk. tauto.
Qed.

(** Each machine's observation, with the state its evidence was tested against. *)
Lemma publicationObservations_Ok a j observe contract l out : publicationObservations a j observe contract l = Ok out →
  ∀ m, m ∈ sm_machine <$> l → ∃ o s, observe m = Ok (o, s) ∧ publicationEvidence a j m o contract false s = None ∧ out !! m = Some o.
Proof.
  revert out. induction l as [|m l IH]; intros out; cbn [publicationObservations]; [intros _ m ?%elem_of_nil; done|].
  intros ([o s] & Ho & H)%bind_Ok. destruct (publicationEvidence _ _ _ _ _ _ _) eqn:Ev; [done|]. apply bind_Ok in H as (rest & Hr & [= <-]).
  intros n Hn. rewrite fmap_cons in Hn. destruct (decide (n = sm_machine m)) as [->|Hne].
  - exists o, s. split_and!; [done..|]. by rewrite lookup_insert_eq.
  - apply elem_of_cons in Hn as [?|Hn]; [done|]. destruct (IH _ Hr n Hn) as (o' & s' & ? & ? & ?). exists o', s'.
    split_and!; [done..|]. by rewrite lookup_insert_ne by done.
Qed.
Lemma sources_read pins l k : all_ok (λ rx : string * storedSource, x ← compile_source decode sha256 hex pins rx.1 rx.2; Ok (rx.1, x)) l = Ok k →
  NoDup l.*1 → ∀ rev x, (rev, x) ∈ l → ∃ y, compile_source decode sha256 hex pins rev x = Ok y ∧ (list_to_map k : gmap string Source) !! rev = Some y.
Proof.
  rewrite all_ok_Ok. induction 1 as [|[r x] y l k H Hf IH]; intros Hn rev x' Hin; [by apply elem_of_nil in Hin|].
  apply bind_Ok in H as (z & Hz & [= <-]). rewrite fmap_cons in Hn. apply NoDup_cons in Hn as [Hr Hn].
  apply elem_of_cons in Hin as [[= -> ->]|Hin]; [exists z; cbn; by rewrite lookup_insert_eq|].
  destruct (IH Hn rev x' Hin) as (y & Hy & Hl). exists y. split; [done|]. cbn. rewrite lookup_insert_ne; [done|]. intros ->. apply Hr.
  apply list_elem_of_fmap. by exists (rev, x').
Qed.

(** A release unit as it is built. *)
Record built (a : api) (j : publishJob) (s : pdb) (deps : option (list module)) (observe : string → B (string * pdb))
    (w : answers) (key : string) (began_pins began_key : Z) (u : releaseUnit) : Type := Built {
  bt_snapshot : snapshot; bt_version : string; bt_checksum : string; bt_observations : gmap string string; bt_pins : pinned;
  bt_sources : gmap string Source; bt_machines : list (unitMachine * string); bt_kubernetes : string; bt_encrypted : list Encrypted;
  bt_read : readSnapshot embedded contract_of j s = Ok bt_snapshot;
  bt_machinery : Machinery deps = Some (bt_version, bt_checksum);
  bt_contract : CheckContract bt_version (sp_contract bt_snapshot) = true;
  bt_observed : publicationObservations a j observe (sp_contract bt_snapshot) (sp_machines bt_snapshot) = Ok bt_observations;
  bt_pinned : readPinned w (pj_cluster j) began_pins (sp_sources bt_snapshot) (sp_recorded bt_snapshot) = Ok bt_pins;
  bt_texts : ∀ rev x, sp_sources bt_snapshot !! rev = Some x → ∃ y, compile_source decode sha256 hex bt_pins rev x = Ok y ∧ bt_sources !! rev = Some y;
  bt_each : Forall2 (λ m x, ∃ c v, compile_machine bt_version bt_sources m = Ok (c, bt_kubernetes)
    ∧ machineRecords m c (sp_sources bt_snapshot) (pd_created bt_pins) = Ok v
    ∧ x = (observed_at (str (bt_observations !! sm_machine m)) v, cd_text c)) (sp_machines bt_snapshot) bt_machines;
  bt_artifacts : EncryptArtifacts w key bt_machines.*2 = Ok bt_encrypted;
  bt_unit : u = ReleaseUnit (Renderer (sp_contract bt_snapshot) bt_version bt_checksum bt_kubernetes) (sp_unchanged bt_snapshot)
    (encrypted_machine <$> zip bt_machines.*1 bt_encrypted) (pd_statuses bt_pins ++ key_statuses began_key bt_encrypted) }.
Lemma buildRelease_Ok a j s deps observe w key bp bk u :
  buildRelease embedded contract_of decode encode encode_json mx fresh_value sha256 hex unhex cs kubelet a j s deps observe w key bp bk = Ok u →
  inhabited (built a j s deps observe w key bp bk u).
Proof.
  unfold buildRelease. intros (sn & Hsn%lift_Ok & H)%bind_Ok. apply bind_Ok in H as ([version checksum] & Hm%lift_Ok%opt_Ok & H).
  apply bind_Ok in H as (? & Hc%lift_Ok%unless_Ok & H). apply bind_Ok in H as (observations & Ho%lift_Ok & H).
  apply bind_Ok in H as (pins & Hp%lift_Ok & H). apply bind_Ok in H as (sources & Hs & H). apply bind_Ok in H as ([ms k] & Hb & H).
  apply bind_Ok in H as (enc & He%lift_Ok%for_dependency_Ok & [= <-]). constructor.
  apply build_machines_Ok in Hb as [_ Hb].
  refine (Built a j s deps observe w key bp bk _ sn version checksum observations pins (list_to_map sources) ms k enc Hsn Hm Hc Ho Hp _ Hb He eq_refl).
  intros rev y Hx. eapply sources_read; [exact Hs|apply NoDup_fst_map_to_list|by apply elem_of_map_to_list].
Qed.

(** A record's dependency: its source's generation, at the time it was classified with. *)
Lemma unit_dependency_Ok sources created rev reference version d : unit_dependency sources created rev reference version = Ok d →
  ∃ x obj t, sources !! rev = Some x ∧ ss_generations x !! reference = Some obj ∧ created !! (obj, version) = Some t
    ∧ d = UnitDependency reference obj version t "" "" "" 0.
Proof.
  unfold unit_dependency. intros (obj & Ho%opt_Ok & H)%bind_Ok. apply bind_Some in Ho as (x & Hx & Ho).
  apply bind_Ok in H as (t & Ht%opt_Ok & [= <-]). by exists x, obj, t.
Qed.
Lemma reproduction_dependency_Ok sources created o d : reproduction_dependency unhex sources created o = Ok d →
  ∃ x obj t digest, sources !! or_revision (oc_origin o) = Some x ∧ ss_generations x !! oc_ref o = Some obj
    ∧ created !! (obj, oc_version o) = Some t ∧ unhex (or_digest (oc_origin o)) = Some digest
    ∧ d = UnitDependency (oc_ref o) obj (oc_version o) t (or_revision (oc_origin o)) digest (oc_shown o) (Z.of_nat (oc_number o)).
Proof.
  unfold reproduction_dependency. intros (d' & (x & obj & t & Hx & Ho & Ht & ->)%unit_dependency_Ok & H)%bind_Ok.
  apply bind_Ok in H as (digest & Hd%opt_Ok & [= <-]). by exists x, obj, t, digest.
Qed.
Lemma machineRecords_Ok m c sources created v : machineRecords m c sources created = Ok v →
  v = UnitMachine (sm_machine m) (sm_base m) (sm_assignment m) (sm_mode m) "" "" (ConfigurationDigest sha256 (cd_text c)) (ok_of (cd_redacted c))
    (Provenance c) (um_effective v) (um_reproduction v) no_dependency
  ∧ (∀ d, d ∈ um_effective v ↔ ∃ r, r ∈ Provenance c ∧ vr_output r ≠ "" ∧ unit_dependency sources created (or_revision (vr_source r)) (vr_reference r) (vr_version r) = Ok d)
  ∧ NoDup (um_effective v)
  ∧ (∀ x, x ∈ Effective c ↔ ∃ d, d ∈ um_effective v ∧ x = (ud_reference d, ud_version d))
  ∧ Forall2 (λ o d, reproduction_dependency unhex sources created o = Ok d) (Reproduction c) (um_reproduction v).
Proof.
  unfold Build.machineRecords. cbv zeta. intros (effective & He & H)%bind_Ok. apply bind_Ok in H as (? & Hu%unless_Ok & H).
  apply bind_Ok in H as (reproduction & Hr & [= <-]). cbn [um_effective um_reproduction]. split; [done|].
  unfold output_dependencies in He. apply bind_Ok in He as (ds & Hds & [= <-]). apply all_ok_Ok in Hds. apply all_ok_Ok in Hr.
  assert (Hd : ∀ d, d ∈ firsts ds ↔ ∃ r, r ∈ Provenance c ∧ vr_output r ≠ "" ∧ unit_dependency sources created (or_revision (vr_source r)) (vr_reference r) (vr_version r) = Ok d).
  { intros d. rewrite firsts_elem. split.
    - intros [i Hi]%list_elem_of_lookup. destruct (Forall2_lookup_r _ _ _ _ _ Hds Hi) as (r & Hri & Hd).
      apply list_elem_of_lookup_2, list_elem_of_filter in Hri as [Ho Hin]. by exists r.
    - intros (r & Hin & Ho & Hd). assert (Hri : r ∈ filter (λ r, vr_output r ≠ "") (Provenance c)) by by apply list_elem_of_filter.
      apply list_elem_of_lookup in Hri as [i Hi]. destruct (Forall2_lookup_l _ _ _ _ _ Hds Hi) as (d' & Hi' & Hd'). rewrite Hd in Hd'. injection Hd' as <-.
      by eapply list_elem_of_lookup_2. }
  split; [done|]. split; [apply firsts_NoDup|]. split; [|done].
  apply andb_true_iff in Hu as [Hlen%bool_decide_eq_true Hall]. rewrite forallb_forall in Hall.
  assert (Hsub : Effective c ⊆ remove_dups ((λ r, (vr_reference r, vr_version r)) <$> filter (λ r, vr_output r ≠ "") (Provenance c))).
  { intros y Hx. apply elem_of_remove_dups. specialize (Hall y). rewrite bool_decide_eq_true, <-list_elem_of_In in Hall. by apply Hall. }
  assert (Hnd : NoDup (Effective c)) by (unfold Effective; rewrite reverse_Permutation; apply NoDup_remove_dups).
  assert (Hperm : Effective c ≡ₚ remove_dups ((λ r, (vr_reference r, vr_version r)) <$> filter (λ r, vr_output r ≠ "") (Provenance c))).
  { apply submseteq_length_Permutation; [by apply NoDup_submseteq|by rewrite Hlen]. }
  intros y. rewrite Hperm, elem_of_remove_dups, list_elem_of_fmap. setoid_rewrite list_elem_of_filter. setoid_rewrite Hd. split.
  - intros (r & -> & Ho & Hin). assert (Hri : r ∈ filter (λ r, vr_output r ≠ "") (Provenance c)) by by apply list_elem_of_filter.
    apply list_elem_of_lookup in Hri as [i Hi]. destruct (Forall2_lookup_l _ _ _ _ _ Hds Hi) as (d & _ & Hdd). exists d.
    split; [by exists r|]. by apply unit_dependency_Ok in Hdd as (? & ? & ? & _ & _ & _ & ->).
  - intros (d & (r & Hin & Ho & (? & ? & ? & _ & _ & _ & ->)%unit_dependency_Ok) & ->). by exists r.
Qed.
(** An effective dependency is a provenance record's that reached the output: its version, under the
    generation that the record's source declares for its reference. *)
Definition reached_by (sources : gmap string storedSource) (r : provenance_record) (d : unitDependency) : Prop :=
  vr_output r ≠ "" ∧ ud_reference d = vr_reference r ∧ ud_version d = vr_version r
  ∧ ∃ x, sources !! or_revision (vr_source r) = Some x ∧ ss_generations x !! vr_reference r = Some (ud_object d).
Lemma machineRecords_reached m c sources created v : machineRecords m c sources created = Ok v →
  (∀ d, d ∈ um_effective v → ∃ r, r ∈ Provenance c ∧ reached_by sources r d)
  ∧ ∀ r, r ∈ Provenance c → vr_output r ≠ "" → ∃ d, d ∈ um_effective v ∧ reached_by sources r d.
Proof.
  assert (Hu : ∀ r d, vr_output r ≠ "" → unit_dependency sources created (or_revision (vr_source r)) (vr_reference r) (vr_version r) = Ok d →
    reached_by sources r d).
  { intros r d Ho (x & obj & t & Hx & Hobj & _ & ->)%unit_dependency_Ok. split; [done|]. simpl. split_and!; [done..|]. by exists x. }
  intros H. pose proof (machineRecords_Ok _ _ _ _ _ H) as (_ & He & _). split.
  - intros d (r & Hr & Ho & Hd)%He. exists r. split; [done|]. by apply Hu.
  - intros r Hr Ho. unfold Build.machineRecords in H. cbv zeta in H. apply bind_Ok in H as (effective & Heff & _).
    unfold output_dependencies in Heff. apply bind_Ok in Heff as (ds & Hds%all_ok_Ok & _).
    assert (Hri : r ∈ filter (λ r, vr_output r ≠ "") (Provenance c)) by by apply list_elem_of_filter.
    apply list_elem_of_lookup in Hri as [i Hi]. destruct (Forall2_lookup_l _ _ _ _ _ Hds Hi) as (d & _ & Hd). exists d.
    split; [apply He; by exists r|by apply Hu].
Qed.
(** The key's statuses: one of each version used. *)
Lemma key_statuses_elem began l e : e ∈ l → ∃ e', e' ∈ l ∧ ex_version e' = ex_version e
  ∧ UnitStatus "transit" (ex_key e') (ex_version e') (ex_status e') began ∈ key_statuses began l.
Proof.
  intros He. destruct (find (λ e', ex_version e' =? ex_version e) l) as [e'|] eqn:Ef.
  - pose proof (find_some _ _ Ef) as [Hin%list_elem_of_In Hv%Z.eqb_eq]. exists e'. split_and!; [done..|]. unfold key_statuses.
    apply list_elem_of_omap. exists (ex_version e). split; [by apply firsts_elem, list_elem_of_fmap_2|].
    by rewrite Ef.
  - apply list_elem_of_In in He. pose proof (find_none _ _ Ef e He) as Hn. cbn in Hn. by rewrite Z.eqb_refl in Hn.
Qed.
(** Each machine of a built unit. *)
Lemma built_machine a j s deps observe w key bp bk u (b : built a j s deps observe w key bp bk u) :
  length (un_machines u) = length (sp_machines (bt_snapshot _ _ _ _ _ _ _ _ _ _ b))
  ∧ ∀ i m, sp_machines (bt_snapshot _ _ _ _ _ _ _ _ _ _ b) !! i = Some m → ∃ c v e,
    compile_machine (bt_version _ _ _ _ _ _ _ _ _ _ b) (bt_sources _ _ _ _ _ _ _ _ _ _ b) m = Ok (c, bt_kubernetes _ _ _ _ _ _ _ _ _ _ b)
    ∧ machineRecords m c (sp_sources (bt_snapshot _ _ _ _ _ _ _ _ _ _ b)) (pd_created (bt_pins _ _ _ _ _ _ _ _ _ _ b)) = Ok v
    ∧ bt_encrypted _ _ _ _ _ _ _ _ _ _ b !! i = Some e
    ∧ (bt_machines _ _ _ _ _ _ _ _ _ _ b).*2 !! i = Some (cd_text c)
    ∧ un_machines u !! i = Some (encrypted_machine (observed_at (str (bt_observations _ _ _ _ _ _ _ _ _ _ b !! sm_machine m)) v, e)).
Proof.
  destruct b as [sn version checksum obs pins srcs ms k enc Hsn Hm Hc Ho Hp Ht Hb He ->]. cbn. apply EncryptArtifacts_Ok in He as [Hl _].
  rewrite length_fmap in Hl. pose proof (Forall2_length _ _ _ Hb) as Hlm. split.
  - rewrite length_fmap, length_zip, length_fmap. lia.
  - intros i m Hi. destruct (Forall2_lookup_l _ _ _ _ _ Hb Hi) as (x & Hx & c & v & Hcm & Hmr & ->).
    destruct (lookup_lt_is_Some_2 enc i) as [e Hei]; [rewrite Hl; by eapply lookup_lt_Some|]. exists c, v, e.
    split_and!; [done..|by rewrite list_lookup_fmap, Hx|]. rewrite list_lookup_fmap, lookup_zip_with, list_lookup_fmap, Hx. cbn. by rewrite Hei.
Qed.
End Unit.
