(* ===== verification/BuildProps.v ===== *)
(** * The build's properties, and a draft that they are shown on. *)

From stdpp Require Import sorting.
From S2P Require Import Prelude Ident IngestPath IngestSpec Times Json Classify Store.
From S2P Require Import World Evidence Request Observe Scenario.
From S2P Require Import Drafts Declared Publish Release.
From S2P Require Import Values Trace Redactor Compile Compiled CompileSpec CompileProps Build BuildSpec.
From S2P Require Monitor.
From S2P Require Staging.

Section Build.
Variable embedded : string → list (string * string).
Variable contract_of : string → option string.
Variable decode : string → option decoded.
Variable encode : list node → option string.
Variable encode_json : node → option string.
Variable mx : machinery.
Variable fresh_value : string.
Variable sha256 : string → string.
Variable hex : string → string.
Variable unhex : string → option string.
Variable cs : constants.
Variable kubelet : string → option string.
Variable w : answers.

Notation buildRelease := (buildRelease embedded contract_of decode encode encode_json mx fresh_value sha256 hex unhex cs kubelet).
Notation Compile := (Compile decode encode encode_json mx fresh_value).

(** C18: what a publication compiles is the draft as the operation bound it.  The draft is open at the bound
    revision; the machines are the cluster's that have an import base after the draft, each once, with its
    assignment after the draft and its fragments, and the draft changes the assignment of no other; each
    profile an assignment selects has a revision after the draft and pins its fragments' revisions after the
    draft; each fragment it selects in a layer has one, of that layer; a machine's
    fragments are the selected ones, each once, in the order of the layers; and the stored sources are exactly
    the bases and fragments composed. *)
Theorem snapshot_composes j s sn : readSnapshot embedded contract_of j s = Ok sn →
  (∃ d, dt_drafts (tdrafts s) !! pj_draft j = Some d ∧ df_state d = DOpen ∧ df_revision d = pj_revision j
    ∧ df_cluster d = pj_cluster j ∧ contract_of (pj_cluster j) = Some (sp_contract sn))
  ∧ NoDup (sm_machine <$> sp_machines sn) ∧ sp_machines sn ≠ []
  ∧ (∀ m, m ∈ sp_machines sn ↔ in_cluster j s m ∧ sm_base m ≠ "" ∧ sm_assignment m = revision_at j s SAssignment (sm_machine m)
      ∧ sm_fragments m = compose_fragments j s (sm_assignment m))
  ∧ (∀ m, in_cluster j s m → sm_base m = "" → sw_entry (state_at j s (SourceKey SAssignment (sm_machine m))) = false)
  ∧ (∀ m, m ∈ sp_machines sn → sm_assignment m ≠ "" →
      (∀ p, p ∈ assignment_profiles s (sm_assignment m) → revision_at j s SProfile p ≠ ""
        ∧ ∀ frv, frv ∈ pins_of s (revision_at j s SProfile p) → revision_at j s SFragment (fragment_of s frv).1 = frv)
      ∧ (∀ layer f, layer ∈ fragmentLayers → f ∈ assignment_fragments s (sm_assignment m) layer →
        revision_at j s SFragment f ≠ "" ∧ (fragment_of s (revision_at j s SFragment f)).2 = layer)
      ∧ NoDup (sm_fragments m) ∧ StronglySorted (layer_le s) (sm_fragments m)
      ∧ ∀ frv, frv ∈ sm_fragments m ↔ ∃ layer, layer ∈ fragmentLayers ∧ selected j s (sm_assignment m) layer frv)
  ∧ ∀ rev x, sp_sources sn !! rev = Some x ↔
      (∃ m, m ∈ sp_machines sn ∧ (rev = sm_base m ∨ rev ∈ sm_fragments m)) ∧ stored_row embedded s rev = Some x.
Proof.
  intros [Hd Hn He Hm Hl Hp Hy Hf Hs Hr]%readSnapshot_Ok. split_and!; [done..| |done].
  intros m Hin Ha. pose proof (proj1 (Hm m) Hin) as (_ & _ & _ & E). rewrite E. split_and!.
  - intros p Hpm. split; [by apply (Hf m)|]. intros frv. by apply (Hp m).
  - by apply Hy.
  - unfold compose_fragments. case_bool_decide; [constructor|apply firsts_NoDup].
  - apply compose_sorted. by apply Hy.
  - intros frv. by apply compose_elem.
Qed.

(** C19: a release unit is its snapshot's, compiled.  The unit has one machine for each of the snapshot's, in
    order: its base, assignment and mode are the snapshot's; its configuration is the digest of the text its
    sources compile to, its provenance and redacted text that compilation's, its ciphertext the encryption of that
    text; it names an observation whose evidence was tested against the cluster's contract; and the renderer is the
    contract's minor, with the one Kubernetes version every machine's configuration names. *)
Theorem unit_compiles_snapshot a j s deps observe key bp bk u :
  buildRelease a j s deps observe w key bp bk = Ok u →
  ∃ sn sources, readSnapshot embedded contract_of j s = Ok sn
    ∧ (∀ rev x, sp_sources sn !! rev = Some x → ∃ y, sources !! rev = Some y ∧ so_revision y = rev ∧ so_digest y = hex (sha256 (ss_document x))
        ∧ Stored decode (ss_document x) (ss_declarations x) = Some (so_text y))
    ∧ rn_contract (un_renderer u) = sp_contract sn
    ∧ Machinery deps = Some (rn_machinery (un_renderer u), rn_checksum (un_renderer u))
    ∧ CheckContract (rn_machinery (un_renderer u)) (sp_contract sn) = true
    ∧ un_unchanged u = sp_unchanged sn
    ∧ Forall2 (λ m x, ∃ i c o s', Compile (input_of sources m) = Ok c
        ∧ um_machine x = sm_machine m ∧ um_base x = sm_base m ∧ um_assignment x = sm_assignment m ∧ um_mode x = sm_mode m
        ∧ um_configuration x = ConfigurationDigest sha256 (cd_text c) ∧ um_redacted x = ok_of (cd_redacted c) ∧ um_provenance x = Provenance c
        ∧ aw_encrypt w i (cd_text c) = Ok (um_ciphertext x, ud_version (um_encryption x))
        ∧ KubernetesVersion cs (kubelet (cd_text c)) (t ← ok_of (cd_redacted c); d_docs <$> decode t) (rn_machinery (un_renderer u))
          = Ok (rn_kubernetes (un_renderer u))
        ∧ observe (sm_machine m) = Ok (o, s') ∧ um_observation x = o ∧ publicationEvidence a j (sm_machine m) o (sp_contract sn) false s' = None)
      (sp_machines sn) (un_machines u).
Proof.
  intros [b]%buildRelease_Ok. pose proof (built_machine _ _ _ _ _ _ _ _ _ _ _ _ _ _ _ _ _ _ _ _ _ _ b) as [Hl Hm].
  destruct b as [sn version checksum obs pins srcs ms k enc Hsn Hma Hc Ho Hp Ht Hb He ->]. cbn in *. exists sn, srcs. split_and!; [done| |done..|].
  - intros rev x Hx. destruct (Ht rev x Hx) as (y & Hy & Hs). exists y. split; [done|]. unfold compile_source in Hy.
    apply bind_Ok in Hy as (text & Htext%lift_Ok%opt_Ok & [= <-]). done.
  - apply Forall2_same_length_lookup. split; [done|]. intros i m x Hi Hx.
    destruct (Hm i m Hi) as (c & v & e & Hcm & Hmr & Hei & Hti & Hui). rewrite Hui in Hx. injection Hx as <-.
    apply compile_machine_Ok in Hcm as (Hmode & Hcomp & Hk). apply machineRecords_Ok in Hmr as (-> & _).
    destruct (publicationObservations_Ok _ _ _ _ _ _ Ho (sm_machine m)) as (o & s' & Hos & Hev & Hob); [apply list_elem_of_fmap_2; by eapply list_elem_of_lookup_2|].
    apply EncryptArtifacts_Ok in He as [_ He]. destruct (He i (cd_text c) e Hti Hei) as (Henc & _).
    exists i, c, o, s'. cbn. rewrite Hob. cbn. split_and!; try done. by eapply kubernetes_Ok.
Qed.

(** C20: every dependency was classified and read.  Each secret version that a built machine depends on, in its
    output or to be reproduced, is one of the operation's cluster that classified retained, at the creation time the
    dependency names, and whose value the compiler read with that same creation time; and the unit has its status.  A
    machine's effective dependencies are each once, and are those its compilation reached: each is of one of its
    provenance records that has a path in the output, under the generation the record's source declares, each such
    record has one, and by reference and version they are the compilation's own effective set. *)
Theorem dependencies_classified a j s deps observe key bp bk u :
  buildRelease a j s deps observe w key bp bk = Ok u →
  ∃ sn sources, readSnapshot embedded contract_of j s = Ok sn
    ∧ Forall2 (λ m x, ∃ c, Compile (input_of sources m) = Ok c ∧ um_provenance x = Provenance c
        ∧ ∀ y, y ∈ Effective c ↔ ∃ d, d ∈ um_effective x ∧ y = (ud_reference d, ud_version d)) (sp_machines sn) (un_machines u)
    ∧ ∀ x, x ∈ un_machines u → NoDup (um_effective x)
    ∧ (∀ d, d ∈ um_effective x → ∃ r, r ∈ um_provenance x ∧ reached_by (sp_sources sn) r d)
    ∧ (∀ r, r ∈ um_provenance x → vr_output r ≠ "" → ∃ d, d ∈ um_effective x ∧ reached_by (sp_sources sn) r d)
    ∧ ∀ d, d ∈ um_effective x ∨ d ∈ um_reproduction x →
      Monitor.generationPath (ud_object d) = true ∧ String.prefix ("gen/" +:+ pj_cluster j +:+ "/") (ud_object d) = true
      ∧ (∃ v, pinned_at w (sp_recorded sn) (ud_object d, ud_version d) (ud_created d) v)
      ∧ ∃ r, UnitStatus "kv" (ud_object d) (ud_version d) r bp ∈ un_statuses u ∧ Classify.r_class r = Retained ∧ Classify.r_created r = ud_created d.
Proof.
  intros [b]%buildRelease_Ok. pose proof (built_machine _ _ _ _ _ _ _ _ _ _ _ _ _ _ _ _ _ _ _ _ _ _ b) as [Hl Hm].
  destruct b as [sn version checksum obs pins srcs ms k enc Hsn Hma Hc Ho Hp Ht Hb He ->]. cbn in *. exists sn, srcs. split; [done|]. split.
  { apply Forall2_same_length_lookup. split; [done|]. intros i m x Hi Hx. destruct (Hm i m Hi) as (c & v & e & Hcm & Hmr & _ & _ & Hui).
    rewrite Hui in Hx. injection Hx as <-. apply compile_machine_Ok in Hcm as (_ & Hcomp & _). apply machineRecords_Ok in Hmr as (-> & _ & _ & Heff & _).
    exists c. by split_and!. }
  assert (Hcl : ∀ obj v created, pd_created pins !! (obj, v) = Some created → Monitor.generationPath obj = true
    ∧ String.prefix ("gen/" +:+ pj_cluster j +:+ "/") obj = true ∧ (∃ x, pinned_at w (sp_recorded sn) (obj, v) created x)
    ∧ ∃ r, UnitStatus "kv" obj v r bp ∈ pd_statuses pins ++ key_statuses bk enc ∧ Classify.r_class r = Retained ∧ Classify.r_created r = created).
  { intros obj v created Hk. destruct (readPinned_created _ _ _ _ _ _ _ _ Hp Hk) as (Hg & Hpre & Hpin & r & Hr & Hret & Hcr).
    split_and!; [done..|]. exists r. split_and!; [|done..]. apply elem_of_app. by left. }
  intros x [i Hi]%list_elem_of_lookup. destruct (lookup_lt_is_Some_2 (sp_machines sn) i) as [m Hmi]; [rewrite <-Hl; by eapply lookup_lt_Some|].
  destruct (Hm i m Hmi) as (c & v & e & _ & Hmr & _ & _ & Hui). rewrite Hi in Hui. injection Hui as ->. cbn.
  pose proof (machineRecords_reached _ _ _ _ _ _ _ Hmr) as [Hto Hfrom]. apply machineRecords_Ok in Hmr as (Hv & Heff & Hnd & _ & Hrep).
  assert (Hpr : um_provenance v = Provenance c) by (by rewrite Hv). rewrite Hpr. do 3 (split; [done|]). intros d [Hd|Hd].
  - apply Heff in Hd as (r & _ & _ & (? & obj & t & _ & _ & Hk & ->)%unit_dependency_Ok). by apply Hcl.
  - apply list_elem_of_lookup in Hd as [n Hn]. destruct (Forall2_lookup_r _ _ _ _ _ Hrep Hn) as (o & _ & Hd).
    apply reproduction_dependency_Ok in Hd as (? & obj & t & ? & _ & _ & Hk & _ & ->). by apply Hcl.
Qed.

(** C21: the artifact key's version is bracketed.  Each machine's ciphertext is sealed under the artifact key, at a
    version whose creation time the key's first read gave, before the second that read is dated in, and that the
    key's second read classifies retained with that same creation time, which the unit records, with its status. *)
Theorem artifacts_bracketed a j s deps observe key bp bk u :
  buildRelease a j s deps observe w key bp bk = Ok u → ∀ x, x ∈ un_machines u →
  ∃ first second date r, aw_transit w 0 key = Ok first ∧ aw_transit w 1 key = Ok second ∧ ParseDate (a_date first) = Some date
    ∧ ud_object (um_encryption x) = key
    ∧ bracketed key first second date (ud_version (um_encryption x)) r ∧ ud_created (um_encryption x) = Classify.r_created r
    ∧ UnitStatus "transit" key (ud_version (um_encryption x)) r bk ∈ un_statuses u.
Proof.
  intros [b]%buildRelease_Ok x. pose proof (built_machine _ _ _ _ _ _ _ _ _ _ _ _ _ _ _ _ _ _ _ _ _ _ b) as [Hl Hm].
  destruct b as [sn version checksum obs pins srcs ms k enc Hsn Hma Hc Ho Hp Ht Hb He ->]. cbn in *. apply EncryptArtifacts_Ok in He as [Hle He].
  intros [i Hi]%list_elem_of_lookup. destruct (lookup_lt_is_Some_2 (sp_machines sn) i) as [m Hmi]; [rewrite <-Hl; by eapply lookup_lt_Some|].
  destruct (Hm i m Hmi) as (c & v & e & _ & _ & Hei & Hti & Hui). rewrite Hi in Hui. injection Hui as ->. cbn.
  destruct (He i _ e Hti Hei) as (_ & Hkey & first & second & date & H0 & _ & Hd & H1 & Hbr).
  destruct (key_statuses_elem bk enc e) as (e' & He' & Hv & Hin); [by eapply list_elem_of_lookup_2|].
  apply list_elem_of_lookup in He' as [i' Hi']. destruct (lookup_lt_is_Some_2 ms.*2 i') as [t' Ht']; [rewrite <-Hle; by eapply lookup_lt_Some|].
  destruct (He i' t' e' Ht' Hi') as (_ & Hkey' & first' & second' & date' & H0' & _ & Hd' & H1' & Hbr').
  exists first, second, date, (ex_status e). split_and!; [done..|]. apply elem_of_app. right.
  assert (ex_status e' = ex_status e) as <-; [|by rewrite <-Hkey', <-Hv]. rewrite H0 in H0'. rewrite H1 in H1'. injection H0' as <-. injection H1' as <-.
  destruct Hbr as (_ & _ & -> & _), Hbr' as (_ & _ & -> & _). by rewrite Hv.
Qed.

(** C22: a machine's occurrences are accounted for, as the commit will check.  The reproduction dependencies of each
    source are numbered from 0, in order; every provenance record is at the place and number of one of them; and every one
    of them is the occurrence, of its source, reference, place and number, that a provenance record names. *)
Theorem occurrences_accounted a j s deps observe key bp bk u :
  buildRelease a j s deps observe w key bp bk = Ok u → ∀ x, x ∈ un_machines u →
  (∀ rev, occurrences_from (um_reproduction x) rev = Z.of_nat <$> seq 0 (length (occurrences_from (um_reproduction x) rev)))
  ∧ (∀ r, r ∈ um_provenance x → ∃ d, d ∈ um_reproduction x
      ∧ ud_source d = or_revision (vr_source r) ∧ ud_path d = vr_path r ∧ ud_occurrence d = vr_occurrence r)
  ∧ ∀ d, d ∈ um_reproduction x → ∃ r, r ∈ um_provenance x ∧ recorded_at r = occurrence_of d ∧ vr_version r = ud_version d.
Proof.
  intros [b]%buildRelease_Ok x. pose proof (built_machine _ _ _ _ _ _ _ _ _ _ _ _ _ _ _ _ _ _ _ _ _ _ b) as [Hl Hm].
  destruct b as [sn version checksum obs pins srcs ms k enc Hsn Hma Hc Ho Hp Ht Hb He ->]. cbn in *.
  intros [i Hi]%list_elem_of_lookup. destruct (lookup_lt_is_Some_2 (sp_machines sn) i) as [m Hmi]; [rewrite <-Hl; by eapply lookup_lt_Some|].
  destruct (Hm i m Hmi) as (c & v & e & Hcm & Hmr & _ & _ & Hui). rewrite Hi in Hui. injection Hui as ->. cbn [um_reproduction um_provenance encrypted_machine observed_at].
  apply compile_machine_Ok in Hcm as (_ & Hcm & _). apply machineRecords_Ok in Hmr as (Hv & _ & _ & _ & Hrep).
  assert (Hw : kept_well (in_base (input_of srcs m) :: in_fragments (input_of srcs m)) c).
  { unfold Compiled.Compile in Hcm. destruct (compile _ _ _ _ _ _ _) as [c'|] eqn:Ec; [|done]. injection Hcm as ->. by eapply compile_kept. }
  assert (Hpr : um_provenance v = Provenance c) by (by rewrite Hv). rewrite Hpr.
  assert (Hd : Forall2 (λ o d, or_revision (oc_origin o) = ud_source d ∧ oc_ref o = ud_reference d ∧ Compiled.oc_version o = ud_version d
    ∧ oc_shown o = ud_path d ∧ Z.of_nat (oc_number o) = ud_occurrence d) (Reproduction c) (um_reproduction v)).
  { eapply Forall2_impl; [exact Hrep|]. by intros o d (? & ? & ? & ? & _ & _ & _ & _ & ->)%reproduction_dependency_Ok. }
  clear -Hw Hd. split_and!.
  - intros rev. assert (E : occurrences_from (um_reproduction v) rev = Z.of_nat <$> (oc_number <$> filter (λ o, or_revision (oc_origin o) = rev) (Reproduction c))).
    { clear Hw. induction Hd as [|o d os ds (Hs & _ & _ & _ & Hn) _ IH]; [done|]. unfold occurrences_from in *.
      destruct (decide (ud_source d = rev)) as [Hr|Hr].
      - rewrite !filter_cons_True by congruence. by rewrite !fmap_cons, IH, Hn.
      - rewrite !filter_cons_False by congruence. done. }
    rewrite E, (Reproduction_numbered _ _ Hw). by rewrite length_fmap, length_seq.
  - intros r Hr. destruct (record_reproduced _ _ Hw r Hr) as (o & Hin & Ho & Hp & Hn). apply list_elem_of_lookup in Hin as [i Hi].
    destruct (Forall2_lookup_l _ _ _ _ _ Hd Hi) as (d & Hdi & Hs & _ & _ & Hsh & Hnn). exists d.
    split; [by eapply list_elem_of_lookup_2|]. rewrite <-Hs, <-Hsh, <-Hnn, Ho, Hn, Hp. done.
  - intros d [i Hi]%list_elem_of_lookup. destruct (Forall2_lookup_r _ _ _ _ _ Hd Hi) as (o & Hoi & Hs & Href & Hver & Hsh & Hnn).
    destruct (reproduced_recorded _ _ Hw o) as (r & Hr & H1 & H2 & H3 & H4 & H5); [by eapply list_elem_of_lookup_2|].
    exists r. split; [done|]. unfold recorded_at, occurrence_of. rewrite H1, H2, H3, H4, H5, Hs, Href, Hver, Hsh, Hnn. done.
Qed.
End Build.

(** ** A draft built *)

(** A machine whose base holds a secret and whose draft assigns it a fragment that is published and holds another. *)
Module Draft.
Definition word : string := "aaaaaaaaaaaaaaaaaaaaaaaaaa".
Definition cluster : string := "cl_" +:+ word.
Definition m : string := "mch_" +:+ word.
Definition object (version : string) : string := "gen/" +:+ cluster +:+ "/ing_" +:+ word +:+ "/" +:+ version.
Definition fragment_text : string := Sample.two_lines "debug !bwref secret/b" "extra !!str plain".
Definition db : Db :=
  MkDb "ep_1" false 0 {[m := Machine cluster "normal" false 0 None (Some "node_1") "10.0.0.1"]}
    {[m := MachineState 0 None None None None None]} ∅ {[cluster := sc_talos]} ∅ ∅
    ∅ ∅ ∅ {["prn_2" := false]} ∅ ∅ ∅ [] [] [] [] {["op_1" := Operation 1 KPublish Running "ep_1" (Some "exe_1") 1 (Some "ep_1") None None None 0 None None]}
    [] [] [] [] (Ledger [] ∅) (Store.Provenance ∅ ∅ ∅ ∅ ∅ ∅) (RecoveryLog {["ep_1" := EpochRow 0 None None]} ∅ ∅ ∅ ∅ ∅ ∅ []).
Definition s : pdb :=
  Pdb db (Monitor.Mdb "ep_1" 0 ∅ [] (Monitor.MonitorRow 0 None None 0) [] 0) (Staging.Stage "ep_1" 0 ∅ ∅ [])
    (DraftTables {["drf_1" := DraftRow cluster DOpen 4 "t4" None]} {[("drf_1", SourceKey SAssignment m) := EntryRow (Some "asr_1") None]}
      {[("drf_1", m) := "ibr_1"]})
    (SourceTables {["fra_1" := HeadRow cluster (SourceKey SFragment "base") "global" (Some "frv_1") 1]}
      {["frv_1" := FragmentRev cluster "base" "global" fragment_text {["secret/b" := Declaration "boolean" "" (object "v2") 2]}]} ∅
      {["asr_1" := AssignmentRev cluster m [] [("global", "base")]]}
      {["ibr_1" := ImportRev m Sample.base_text {["secret/a" := Declaration "string" "" (object "v1") 1]} "before"]})
    (PublishTables ∅ ∅ ∅ ∅ {[(m, 1) := ("10.0.0.1", 1)]} {[m := "metal"]}).
Definition j : publishJob := PublishJob "op_1" "drf_1" cluster 4 1.
Definition tick (t : Z) : Z := t + 10.
Definition observed_db : Db :=
  w_db (observe sc_others (λ _, "obs_1") tick sc_api m (ObserveFor PPublication "" "op_1" None false)
    (World db 0 0 0 (replicate 10 (Answered ("access/talos/" +:+ cluster, 3, "t0"))) (replicate 10 (Answered "plain")) [sc_node "after"] [] [])).2.
Definition observing (_ : string) : result err (string * pdb) := Ok ("obs_1", set_core observed_db s).
(** The provider: two versions of a generation, and the key's one. *)
Definition created : string := "2026-01-01T00:00:00Z".
Definition at_ : Z := 1767225600 * second.
Definition version_row : Json.json := VObj [("created_time", VStr created); ("deletion_time", VStr ""); ("destroyed", VBool false)].
Definition data (ms : list (string * Json.json)) : Answer := AnAnswer 200 "Thu, 01 Jan 2026 01:00:00 GMT" (Some (VObj [("data", VObj ms)])) false.
Definition kv : Answer :=
  data [("current_version", VNum "2"); ("oldest_version", VNum "0"); ("versions", VObj [("1", version_row); ("2", version_row)])].
Definition key : Answer :=
  data [("keys", VObj [("1", VNum "1767225600")]); ("latest_version", VNum "1"); ("min_available_version", VNum "0");
    ("min_decryption_version", VNum "1"); ("soft_deleted", VBool false)].
Definition read (version : Z) : Value :=
  if version =? 1 then MkValue "string" true (Some (VStr "hunter2-hunter2")) else MkValue "boolean" true (Some (VBool true)).
Definition given : answers :=
  Answers (λ _ _, Ok kv) (λ _ _ version, Ok (read version, at_)) (λ _ _, Ok key) (λ _ text, Ok ("vault:v1:" +:+ text, 1)).
Definition deps : option (list module) :=
  Some [BuildModule machineryModule "v1.9.3" ("h1:" +:+ "aaaaaaaaaaaaaaaaaaaaaaaaaaaaaaaaaaaaaaaaaaa" +:+ "=") false].
Definition cs : constants := Constants "k" "1.31.2" (λ m, if bool_decide (m = (1, 9)%N) then Some ((1, 26, 0), (1, 32, 0))%N else None).
Definition contract_of (c : string) : option string := if bool_decide (c = cluster) then Some "v1.9" else None.
Notation snapshot_of_draft := (readSnapshot (λ _, []) contract_of j s).
Notation build_of_draft := (buildRelease (λ _, []) contract_of Sample.decode Sample.encode Sample.encode_json Sample.mx "fresh" id id Some cs (λ _, Some "k:v1.31.2")
  sc_api j s deps observing given "key" 7 8).
(** The unit built; and the draft moved on since, and a key whose first read is dated at its version's creation. *)
Definition moved : pdb :=
  Pdb db (monitored s) (staged s) (DraftTables {["drf_1" := DraftRow cluster DOpen 5 "t5" None]} (dt_entries (tdrafts s)) (dt_imports (tdrafts s))) (tsources s) (tpublish s).
Example unit_built : (λ u, (rn_kubernetes (un_renderer u), (λ x, (um_machine x, um_ciphertext x, length (um_provenance x))) <$> un_machines u, length (un_statuses u)))
    <$> ok_of build_of_draft
  = Some ("v1.31.2", [(m, "vault:v1:" +:+ Sample.two_lines (Sample.two_lines "token !!str hunter2-hunter2" "name !!str node")
      (Sample.two_lines "debug !!bool true" "extra !!str plain"), 2%nat)], 3%nat).
Proof. vm_compute. reflexivity. Qed.
Example moved_refused : readSnapshot (λ _, []) contract_of j moved
  = Err (refuse 409 "conflict" "the draft moved after the publication bound it" [("draft", JStr "drf_1")]).
Proof. vm_compute. reflexivity. Qed.
Definition late (a : Answer) : Answer := AnAnswer (a_status a) "Thu, 01 Jan 2026 00:00:00 GMT" (a_body a) false.
Example late_key_refused : EncryptArtifacts (Answers (aw_kv given) (aw_read given) (λ _ _, Ok (late key)) (aw_encrypt given)) "key" ["text"]
  = Err (Refuses (DependencyError "" "key" 1 None "created-not-before-date")).
Proof. vm_compute. reflexivity. Qed.
Definition unit_ : releaseUnit := default (ReleaseUnit (Renderer "" "" "" "") [] [] []) (ok_of build_of_draft).
Lemma unit_Ok : build_of_draft = Ok unit_.
Proof. vm_compute. reflexivity. Qed.
Definition machine_ : unitMachine := default (UnitMachine "" "" "" "" "" "" "" None [] [] [] no_dependency) (head (un_machines unit_)).
Lemma machine_in : machine_ ∈ un_machines unit_.
Proof. apply list_elem_of_lookup. exists 0%nat. vm_compute. reflexivity. Qed.
End Draft.

Lemma snapshot_composes_witness : ∃ sn, readSnapshot (λ _, []) Draft.contract_of Draft.j Draft.s = Ok sn
  ∧ NoDup (sm_machine <$> sp_machines sn) ∧ sp_machines sn ≠ [].
Proof.
  destruct (readSnapshot (λ _, []) Draft.contract_of Draft.j Draft.s) as [sn|e] eqn:E; [|vm_compute in E; discriminate E]. exists sn.
  destruct (snapshot_composes (λ _, []) Draft.contract_of Draft.j Draft.s sn E) as (_ & Hn & He & _). split; [reflexivity|]. split; [exact Hn|exact He].
Defined.
Lemma unit_compiles_snapshot_witness : rn_contract (un_renderer Draft.unit_) = "v1.9"
  ∧ CheckContract (rn_machinery (un_renderer Draft.unit_)) "v1.9" = true.
Proof.
  destruct (unit_compiles_snapshot _ _ _ _ _ _ _ _ _ _ _ _ _ _ _ _ _ _ _ _ _ _ Draft.unit_Ok) as (sn & sources & Hsn & _ & Hc & _ & Hk & _).
  assert (E : sp_contract sn = "v1.9") by (vm_compute in Hsn; injection Hsn as <-; reflexivity). rewrite E in Hc, Hk. split; [exact Hc|exact Hk].
Defined.
Lemma dependencies_classified_witness : NoDup (um_effective Draft.machine_).
Proof.
  destruct (dependencies_classified _ _ _ _ _ _ _ _ _ _ _ _ _ _ _ _ _ _ _ _ _ _ Draft.unit_Ok) as (sn & sources & _ & _ & H).
  exact (proj1 (H Draft.machine_ Draft.machine_in)).
Defined.
Lemma artifacts_bracketed_witness : ud_object (um_encryption Draft.machine_) = "key".
Proof.
  destruct (artifacts_bracketed _ _ _ _ _ _ _ _ _ _ _ _ _ _ _ _ _ _ _ _ _ _ Draft.unit_Ok Draft.machine_ Draft.machine_in) as (_ & _ & _ & _ & _ & _ & _ & H & _).
  exact H.
Defined.
Lemma occurrences_accounted_witness : occurrences_from (um_reproduction Draft.machine_) "ibr_1" = [0].
Proof.
  destruct (occurrences_accounted _ _ _ _ _ _ _ _ _ _ _ _ _ _ _ _ _ _ _ _ _ _ Draft.unit_Ok Draft.machine_ Draft.machine_in) as (H & _ & _).
  rewrite (H "ibr_1"). vm_compute. reflexivity.
Defined.
