(* ===== verification/ContentSpec.v ===== *)
(** * A release's content as its digest encodes it, and a creation time as its text: both are read back. *)

From stdpp Require Import sorting.
From S2P Require Import Prelude Store Times TimesSpec Drafts Declared Publish.

(** ** Encodings of which none starts another *)

Definition decodable {A} (ok : A → Prop) (f : A → string) : Prop :=
  ∀ x y r r', ok x → ok y → f x +:+ r = f y +:+ r' → x = y ∧ r = r'.

Lemma append_same_length (s s' r r' : string) : String.length s = String.length s' → s +:+ r = s' +:+ r' → s = s' ∧ r = r'.
Proof.
  revert s'. induction s as [|c s IH]; intros [|c' s']; simpl; [done|done|done|].
  intros [= Hl] [= -> H]. destruct (IH s' Hl H) as [-> ->]. done.
Qed.

Lemma byte_eq (x y : Z) : ascii_of_N (Z.to_N (x mod 256)) = ascii_of_N (Z.to_N (y mod 256)) → x mod 256 = y mod 256.
Proof.
  intros H. apply (f_equal N_of_ascii) in H. pose proof (Z.mod_pos_bound x 256). pose proof (Z.mod_pos_bound y 256).
  rewrite !N_ascii_embedding in H by lia. lia.
Qed.
Lemma big_endian_inj n x y r r' :
  big_endian n x +:+ r = big_endian n y +:+ r' → x mod 2 ^ (8 * Z.of_nat n) = y mod 2 ^ (8 * Z.of_nat n) ∧ r = r'.
Proof.
  induction n as [|n IH]; [intros H; change (r = r') in H; subst; by rewrite !Z.mod_1_r|].
  cbn [big_endian]. intros H. injection H as Hb Hr. apply byte_eq in Hb. destruct (IH Hr) as [Hm ->]. split; [|done].
  replace (8 * Z.of_nat (S n)) with (8 * Z.of_nat n + 8) by lia. rewrite Z.pow_add_r by lia.
  rewrite !Z.shiftr_div_pow2 in Hb by lia. rewrite !Z.rem_mul_r by lia. change (2 ^ 8) with 256. by rewrite Hm, Hb.
Qed.

Definition counted (n : Z) : Prop := 0 ≤ n < 2 ^ 64.
Lemma count_decodable : decodable counted count.
Proof. intros x y r r' Hx Hy [H ->]%big_endian_inj. split; [|done]. unfold counted in *. by rewrite !Z.mod_small in H. Qed.
(** A text of a length a [uint64] counts. *)
Definition short (s : string) : Prop := Z.of_nat (String.length s) < 2 ^ 64.
Lemma put_decodable : decodable short put.
Proof.
  unfold put. intros s s' r r' Hs Hs'. unfold short in *. rewrite !append_assoc.
  intros [Hl%Nat2Z.inj H]%count_decodable; [|split; lia..]. by apply append_same_length in H.
Qed.
Section Lists.
Context {A : Type} (ok : A → Prop) (f : A → string) (Hf : decodable ok f).
Lemma concat_decodable l l' r r' :
  length l = length l' → Forall ok l → Forall ok l' →
  foldr String.append "" (f <$> l) +:+ r = foldr String.append "" (f <$> l') +:+ r' → l = l' ∧ r = r'.
Proof using Hf.
  revert l'. induction l as [|x l IH]; intros [|y l']; [done|done|done|]. intros [= Hl] Hx%Forall_cons Hy%Forall_cons.
  cbn [fmap list_fmap foldr]. rewrite !append_assoc. intros [-> H]%Hf; [|apply Hx|apply Hy].
  by destruct (IH l' Hl (proj2 Hx) (proj2 Hy) H) as [-> ->].
Qed.
Lemma put_all_decodable : decodable (λ l, counted (Z.of_nat (length l)) ∧ Forall ok l) (put_all f).
Proof using Hf.
  unfold put_all. intros l l' r r' [Hn Hl] [Hn' Hl']. rewrite !append_assoc.
  intros [Hc%Nat2Z.inj H]%count_decodable; [|done..]. by apply concat_decodable in H.
Qed.
End Lists.

(** One field after another. *)
Ltac decode_next := match goal with
  | H : (_ +:+ _) +:+ _ = _ |- _ => rewrite !append_assoc in H
  | H : put _ +:+ _ = put _ +:+ _ |- _ => apply put_decodable in H as [? H]; [|tauto..]
  | H : count _ +:+ _ = count _ +:+ _ |- _ => apply count_decodable in H as [? H]; [|tauto..]
  end.
Definition short_source (s : contentSource) : Prop := short (cs_kind s) ∧ short (cs_key s) ∧ short (cs_revision s).
Lemma source_decodable : decodable short_source put_source.
Proof.
  unfold put_source, short_source. intros [] [] r r' Hx Hy H. simpl in *. repeat decode_next. subst. done.
Qed.
Definition short_machine (m : contentMachine) : Prop :=
  short (cm_machine m) ∧ short (cm_base m) ∧ short (cm_assignment m) ∧ short (cm_mode m) ∧ short (cm_configuration m).
Lemma machine_decodable : decodable short_machine put_machine.
Proof.
  unfold put_machine, short_machine. intros [] [] r r' Hx Hy H. simpl in *. repeat decode_next. subst. done.
Qed.

#[local] Opaque put count put_all.

(** ** The content *)

(** What the types and the schema bound: each length and the revision. *)
Record content_fits (c : releaseContent) : Prop := ContentFits {
  cf_texts : Forall short [ct_cluster c; ct_draft c; rn_contract (ct_renderer c); rn_machinery (ct_renderer c);
                           rn_checksum (ct_renderer c); rn_kubernetes (ct_renderer c)];
  cf_revision : counted (ct_revision c);
  cf_sources : counted (Z.of_nat (length (ct_sources c))) ∧ Forall short_source (ct_sources c);
  cf_machines : counted (Z.of_nat (length (ct_machines c))) ∧ Forall short_machine (ct_machines c) }.
(** The same content, whatever the order of its sources and machines. *)
Record same_content (c c' : releaseContent) : Prop := SameContent {
  sc_cluster : ct_cluster c = ct_cluster c'; sc_draft : ct_draft c = ct_draft c'; sc_revision : ct_revision c = ct_revision c';
  sc_renderer : ct_renderer c = ct_renderer c'; sc_sources : ct_sources c ≡ₚ ct_sources c'; sc_machines : ct_machines c ≡ₚ ct_machines c' }.

Lemma sorted_fits {A} (R : A → A → Prop) `{∀ x y, Decision (R x y)} (ok : A → Prop) l :
  counted (Z.of_nat (length l)) ∧ Forall ok l → counted (Z.of_nat (length (merge_sort R l))) ∧ Forall ok (merge_sort R l).
Proof. by rewrite (merge_sort_Permutation R l). Qed.
Lemma encode_same c c' : content_fits c → content_fits c' → encode_content c = encode_content c' → same_content c c'.
Proof.
  intros [Ht Hr Hs Hm] [Ht' Hr' Hs' Hm'] H. unfold encode_content in H.
  apply (f_equal (λ s, s +:+ "")) in H. rewrite !append_assoc in H.
  rewrite !Forall_cons in Ht, Ht'. apply put_decodable in H as [_ H]; [|done..]. repeat decode_next.
  apply (put_all_decodable _ _ source_decodable) in H as [Hso H]; [|by apply sorted_fits..].
  apply (put_all_decodable _ _ machine_decodable) in H as [Hma _]; [|by apply sorted_fits..].
  split; [done..| | |].
  - destruct (ct_renderer c), (ct_renderer c'). simpl in *. by subst.
  - rewrite <-(merge_sort_Permutation source_before (ct_sources c)), Hso. apply merge_sort_Permutation.
  - rewrite <-(merge_sort_Permutation machine_before (ct_machines c)), Hma. apply merge_sort_Permutation.
Qed.

(** *** Its order does not matter *)

Lemma leb_trans x y z : String.leb x y = true → String.leb y z = true → String.leb x z = true.
Proof.
  intros H1 H2. apply Is_true_true. apply Is_true_true in H1, H2. assert (Ht : Transitive String.le) by apply _. exact (Ht x y z H1 H2).
Qed.
Lemma leb_anti x y : String.leb x y = true → String.leb y x = true → x = y.
Proof. apply String.leb_antisym. Qed.
Lemma leb_either x y : String.leb x y = true ∨ String.leb y x = true.
Proof. apply String.leb_total. Qed.
(** A list sorted on keys that no two elements share is one list, whatever it was sorted from. *)
Lemma merge_sort_unique {A} (R : A → A → Prop) `{∀ x y, Decision (R x y)} `{!Transitive R} `{!Total R} l l' :
  (∀ x y, x ∈ l → y ∈ l → R x y → R y x → x = y) → l ≡ₚ l' → merge_sort R l = merge_sort R l'.
Proof.
  intros Ha Hp. apply (StronglySorted_unique_strong R); [|by apply StronglySorted_merge_sort..|].
  - intros x y. rewrite !merge_sort_Permutation, <-Hp. apply Ha.
  - by rewrite !merge_sort_Permutation.
Qed.
#[export] Instance source_before_trans : Transitive source_before.
Proof.
  intros x y z. unfold source_before. intros H1 H2.
  destruct (decide (cs_kind x = cs_kind y)) as [E|N], (decide (cs_kind y = cs_kind z)) as [E'|N'],
    (decide (cs_kind x = cs_kind z)) as [E''|N'']; try congruence; try exact (leb_trans _ _ _ H1 H2).
  destruct N. apply leb_anti; [done|by rewrite E''].
Qed.
#[export] Instance source_before_total : Total source_before.
Proof.
  intros x y. unfold source_before. destruct (decide (cs_kind x = cs_kind y)) as [E|N], (decide (cs_kind y = cs_kind x)) as [E'|N'];
    try congruence; apply leb_either.
Qed.
#[export] Instance machine_before_trans : Transitive machine_before.
Proof. intros x y z. unfold machine_before. apply leb_trans. Qed.
#[export] Instance machine_before_total : Total machine_before.
Proof. intros x y. unfold machine_before. apply leb_either. Qed.

(** No two sources share a kind and key, no two machines a machine. *)
Definition distinct_content (c : releaseContent) : Prop :=
  NoDup ((λ s, (cs_kind s, cs_key s)) <$> ct_sources c) ∧ NoDup (cm_machine <$> ct_machines c).
Lemma NoDup_fmap_eq {A B} (f : A → B) l x y : NoDup (f <$> l) → x ∈ l → y ∈ l → f x = f y → x = y.
Proof.
  induction l as [|z l IH]; [by intros _ ?%elem_of_nil|]. cbn [fmap list_fmap]. rewrite NoDup_cons, !elem_of_cons.
  intros [Hn Hl] [->|Hx] [->|Hy] He; [done| | |by apply IH].
  - destruct Hn. rewrite He. by apply list_elem_of_fmap_2.
  - destruct Hn. rewrite <-He. by apply list_elem_of_fmap_2.
Qed.
Lemma same_encode c c' : distinct_content c → same_content c c' → encode_content c = encode_content c'.
Proof.
  intros [Hs Hm] []. unfold encode_content. rewrite sc_cluster0, sc_draft0, sc_revision0, sc_renderer0.
  rewrite (merge_sort_unique source_before _ (ct_sources c')), (merge_sort_unique machine_before _ (ct_machines c')); [done| |done| |done].
  - intros x y Hx Hy H1 H2. apply (NoDup_fmap_eq cm_machine _ _ _ Hm Hx Hy). by apply leb_anti.
  - intros x y Hx Hy H1 H2. apply (NoDup_fmap_eq (λ s, (cs_kind s, cs_key s)) _ _ _ Hs Hx Hy). unfold source_before in *.
    destruct (decide (cs_kind x = cs_kind y)) as [E|N], (decide (cs_kind y = cs_kind x)) as [E'|N']; try congruence.
    + f_equal; [done|by apply leb_anti].
    + destruct N. by apply leb_anti.
Qed.

(** ** A creation time's text *)

Fixpoint all_digits (s : string) : Prop := match s with String c r => is_Some (digit c) ∧ all_digits r | EmptyString => True end.
(** What a fraction's digits count, the first at [unit_]. *)
Fixpoint frac_value (unit_ : Z) (s : string) : Z :=
  match s with String c r => default 0 (digit c) * unit_ + frac_value (unit_ / 10) r | EmptyString => 0 end.
Lemma take_fraction_reads s unit_ acc : all_digits s → take_fraction unit_ acc (s +:+ "Z") = (acc + frac_value unit_ s, "Z").
Proof.
  revert unit_ acc. induction s as [|c s IH]; intros u acc; simpl; [intros _; by rewrite Z.add_0_r|].
  intros [[x Hx] Hs]. change (String c s +:+ "Z") with (String c (s +:+ "Z")). simpl. rewrite Hx, IH by done. simpl. f_equal. lia.
Qed.
Lemma drop_zeros_cons c s : drop_zeros (String c s) =
  if bool_decide (drop_zeros s = "") && bool_decide (c = "0"%char) then "" else String c (drop_zeros s).
Proof. simpl. destruct (drop_zeros s); [|done]. simpl. by destruct (bool_decide (c = "0"%char)). Qed.
Lemma drop_zeros_digits s : all_digits s → all_digits (drop_zeros s).
Proof. induction s as [|c s IH]; [done|]. intros [Hc Hs]. rewrite drop_zeros_cons. destruct (_ && _); [done|]. by split; [|apply IH]. Qed.
Lemma drop_zeros_value s u : frac_value u (drop_zeros s) = frac_value u s.
Proof.
  revert u. induction s as [|c s IH]; intros u; [done|]. rewrite drop_zeros_cons. cbn [frac_value]. rewrite <-IH.
  destruct (bool_decide_reflect (drop_zeros s = "")) as [E|N]; [|done]. destruct (bool_decide_reflect (c = "0"%char)) as [->|]; [|done].
  rewrite E. change (default 0 (digit "0"%char)) with 0. by simpl.
Qed.
Lemma digits9_digits n : all_digits (digits9 n).
Proof. unfold digits9, digits4, digits2. simpl. repeat (split; [rewrite digit_of; by eexists|]). done. Qed.
(** A number's digit and what is above it. *)
Lemma digit_step n k : 0 < k → n / k = 10 * (n / (k * 10)) + n / k mod 10.
Proof. intros Hk. rewrite <-Z.div_div by lia. by apply Z.div_mod. Qed.
(** Products of numerals as numerals. *)
Ltac numerals := repeat match goal with
  | |- context [Z.mul (Zpos ?x) (Zpos ?y)] => let v := eval vm_compute in (Z.mul (Zpos x) (Zpos y)) in change (Z.mul (Zpos x) (Zpos y)) with v
  | H : context [Z.mul (Zpos ?x) (Zpos ?y)] |- _ =>
      let v := eval vm_compute in (Z.mul (Zpos x) (Zpos y)) in change (Z.mul (Zpos x) (Zpos y)) with v in H
  end.
Lemma digits9_value n : 0 ≤ n < second → frac_value 100000000 (digits9 n) = n.
Proof.
  intros Hn. unfold digits9, digits4, digits2. simpl. rewrite !digit_of. simpl. rewrite !Z.div_div by lia.
  assert (Htop : n / 1000000000 = 0) by (by apply Z.div_small). pose proof (digit_step n 1 ltac:(lia)) as H0. rewrite Z.div_1_r in H0.
  pose proof (digit_step n 10 ltac:(lia)). pose proof (digit_step n 100 ltac:(lia)). pose proof (digit_step n 1000 ltac:(lia)).
  pose proof (digit_step n 10000 ltac:(lia)). pose proof (digit_step n 100000 ltac:(lia)). pose proof (digit_step n 1000000 ltac:(lia)).
  pose proof (digit_step n 10000000 ltac:(lia)). pose proof (digit_step n 100000000 ltac:(lia)). numerals.
  repeat match goal with |- context [Z.div (Zpos ?x) (Zpos ?y)] =>
    let v := eval vm_compute in (Z.div (Zpos x) (Zpos y)) in change (Z.div (Zpos x) (Zpos y)) with v end.
  lia.
Qed.

Lemma take_hour_digits n r : 0 ≤ n < 100 → take_hour (digits2 n +:+ r) = Some (n, r).
Proof. intros Hn. unfold digits2. simpl. rewrite !digit_of. simpl. do 2 f_equal. div_lia. Qed.
Lemma all_digits_head c s : all_digits (String c s) → is_Some (digit c).
Proof. by intros [? _]. Qed.
Lemma fraction_reads n : 0 ≤ n < second →
  fraction ((if bool_decide (drop_zeros (digits9 n) = "") then "" else "." +:+ drop_zeros (digits9 n)) +:+ "Z") = (n, "Z").
Proof.
  intros Hn. pose proof (digits9_value n Hn) as Hv. rewrite <-drop_zeros_value in Hv.
  pose proof (drop_zeros_digits _ (digits9_digits n)) as Hd. destruct (drop_zeros (digits9 n)) as [|c s] eqn:E.
  - simpl in Hv. by subst n.
  - rewrite bool_decide_false by done. change (("." +:+ String c s) +:+ "Z") with (String "." (String c (s +:+ "Z"))).
    assert (Hf : fraction (String "." (String c (s +:+ "Z"))) = take_fraction 100000000 0 (String c s +:+ "Z")).
    { unfold fraction. rewrite (bool_decide_true (is_Some (digit c))) by (by eapply all_digits_head). done. }
    rewrite Hf. by rewrite take_fraction_reads, Hv.
Qed.
(** A creation time of the years 0 to 9999 is read back to the nanosecond. *)
Lemma createdText_read t : 0 ≤ f_year (fields_of (t / second)) < 10000 → ParseRFC3339 (createdText t) = Some t.
Proof.
  intros Hy. destruct (seconds_fields (t / second)) as [Hs Hv]. unfold createdText.
  pose proof Hv as Hf. rewrite valid_true in Hf. destruct Hf as (Hm & Hd & Hh & Hmi & Hse).
  assert (Hd31 : f_day (fields_of (t / second)) ≤ 31) by (destruct Hd as [_ (_ & _ & ?)%days_in_le]; done).
  set (f := fields_of (t / second)) in *. clearbody f. unfold ParseRFC3339.
  pose proof (fraction_reads (t mod second) ltac:(by apply Z.mod_pos_bound)) as Hfr.
  set (rest := _ +:+ "Z") in *. clearbody rest.
  repeat first [rewrite take4_digits by lia|rewrite take2_digits by lia|rewrite take_hour_digits by lia|rewrite take_lit_app
    |progress cbn [mbind option_bind]]. rewrite Hfr. change (zone "Z") with (Some 0). cbn [mbind option_bind].
  replace (Fields _ _ _ _ _ _) with f by by destruct f. rewrite Hv, Hs. f_equal. rewrite Z.sub_0_r.
  rewrite (Z.mul_comm _ second). symmetry. by apply Z.div_mod.
Qed.

(** ** What it is for a machine's records to agree with its sources' declarations, and that the check
    finds no clause exactly when they do. *)

Section Agreement.
Variable hex : string → string.
Variable composition : gmap string bool.
Variable composed : gmap string declaredSource.
Notation source_at := (source_at composed).

(** ** Agreement *)

(** A reproduction dependency names a declaration of a composed source, as declared, with its text's digest. *)
Definition dependency_declared (d : unitDependency) : Prop :=
  is_Some (composition !! ud_source d) ∧ ud_digest d = ds_digest (source_at (ud_source d))
  ∧ ∃ c, ds_declared (source_at (ud_source d)) !! ud_reference d = Some c
    ∧ ud_version d = dc_version c ∧ ud_object d = dc_generation c.
(** A record's source, form and paths, and the fragment that overrode it. *)
Definition overrider_ok (r : provenance_record) : Prop :=
  ∀ by_, vr_overridden r = Some by_ →
    composition !! or_revision by_ = Some false ∧ or_digest by_ = hex (ds_digest (source_at (or_revision by_))).
Definition record_declared (r : provenance_record) : Prop :=
  is_Some (composition !! or_revision (vr_source r))
  ∧ or_digest (vr_source r) = hex (ds_digest (source_at (or_revision (vr_source r))))
  ∧ (∃ c, ds_declared (source_at (or_revision (vr_source r))) !! vr_reference r = Some c
      ∧ vr_version r = dc_version c ∧ vr_encoding r = dc_encoding c ∧ vr_kind r = dc_kind c)
  ∧ (if decide (vr_kind r = "mapping") then 0 ≤ vr_member r < vr_members r else vr_member r = -1 ∧ vr_members r = 0)
  ∧ (vr_output r = "" ↔ is_Some (vr_overridden r))
  ∧ storedPath (vr_path r) = true ∧ (vr_output r = "" ∨ storedPath (vr_output r) = true)
  ∧ overrider_ok r.
(** Two records: of one outcome only as two outputs, of one occurrence with one member count. *)
Definition compatible (r r' : provenance_record) : Prop :=
  (outcome_at r = outcome_at r' → vr_overridden r = None ∧ vr_overridden r' = None)
  ∧ (recorded_at r = recorded_at r' → member_count r = member_count r').
(** The members of an occurrence that records name. *)
Definition members_at (o : occurrence) (l : list provenance_record) : list Z := vr_member <$> filter (λ r, recorded_at r = o) l.

Record agree (reproduction : list unitDependency) (records : list provenance_record) : Prop := Agree {
  ag_dependencies : Forall dependency_declared reproduction;
  ag_numbered : ∀ s, occurrences_from reproduction s ≡ₚ Z.of_nat <$> seq 0 (length (occurrences_from reproduction s));
  ag_records : Forall record_declared records;
  ag_compatible : ∀ i j r r', (i < j)%nat → records !! i = Some r → records !! j = Some r' → compatible r r';
  ag_used : ∀ s n, is_Some (composition !! s) → is_Some (ds_declared (source_at s) !! n) →
    (∃ d, d ∈ reproduction ∧ ud_source d = s ∧ ud_reference d = n)
    ∧ ∃ r, r ∈ records ∧ or_revision (vr_source r) = s ∧ vr_reference r = n;
  ag_members : ∀ r m, r ∈ records → vr_kind r = "mapping" → 0 ≤ m < vr_members r → m ∈ members_at (recorded_at r) records;
  ag_occurrences : ∀ o, o ∈ occurrence_of <$> reproduction ↔ o ∈ recorded_at <$> records }.

(** ** The clauses *)

Lemma first_clause_none {A} (f : A → option clause) l : first_clause f l = None ↔ Forall (λ x, f x = None) l.
Proof.
  unfold first_clause. induction l as [|x l IH]; [done|]. rewrite Forall_cons. cbn [omap list_omap]. destruct (f x) as [c|] eqn:E.
  - simpl. split; [done|intros [? _]; done].
  - rewrite IH. naive_solver.
Qed.
(** One test after another: the first that fails gives its clause. *)
Lemma unless_none {A} (b : bool) (c : A) (rest : option A) : (if b then Some c else rest) = None ↔ b = false ∧ rest = None.
Proof. destruct b; naive_solver. Qed.

Lemma reproduction_clause_none d : reproduction_clause composition composed d = None ↔ dependency_declared d.
Proof.
  unfold reproduction_clause, dependency_declared. rewrite unless_none, bool_decide_eq_false, <-not_eq_None_Some.
  destruct (ds_declared _ !! _) as [c|]; [|naive_solver].
  rewrite !unless_none, !negb_false_iff, Z.eqb_eq, !bool_decide_eq_true. naive_solver.
Qed.

Lemma numbered_true l : numbered_from_0 l = true ↔ l ≡ₚ Z.of_nat <$> seq 0 (length l).
Proof.
  unfold numbered_from_0. rewrite bool_decide_eq_true. split.
  - intros <-. by rewrite merge_sort_Permutation.
  - intros H. apply (StronglySorted_unique Z.le); [by apply StronglySorted_merge_sort; apply _| |by rewrite merge_sort_Permutation].
    generalize 0%nat as k. generalize (length l) as n. clear. induction n as [|n IH]; intros k; [constructor|]. simpl. constructor; [apply IH|].
    apply Forall_forall. intros x (y & -> & Hy%elem_of_seq)%list_elem_of_fmap. lia.
Qed.
Lemma numbering_clause_none l :
  numbering_clause l = None ↔ ∀ s, occurrences_from l s ≡ₚ Z.of_nat <$> seq 0 (length (occurrences_from l s)).
Proof.
  unfold numbering_clause. rewrite first_clause_none, Forall_forall. split.
  - intros H s. destruct (decide (s ∈ ud_source <$> l)) as [Hs|Hs].
    + apply numbered_true. specialize (H s). rewrite elem_of_reverse, elem_of_remove_dups, elem_of_reverse in H. specialize (H Hs). by destruct (numbered_from_0 _).
    + assert (E : occurrences_from l s = []); [|by rewrite E].
      clear H. unfold occurrences_from. induction l as [|d l IH]; [done|]. cbn in Hs. apply not_elem_of_cons in Hs as [Hd Hs].
      rewrite filter_cons_False by done. by apply IH.
  - intros H s _. by rewrite (proj2 (numbered_true _) (H s)).
Qed.

Lemma fits_kind_true c r : vr_kind r = dc_kind c →
  fits_kind c r = true ↔ if decide (vr_kind r = "mapping") then 0 ≤ vr_member r < vr_members r else vr_member r = -1 ∧ vr_members r = 0.
Proof.
  intros Hk. unfold fits_kind. rewrite <-Hk. case_decide.
  - rewrite bool_decide_true by done. rewrite andb_true_iff, Z.leb_le, Z.ltb_lt. lia.
  - rewrite bool_decide_false by done. rewrite andb_true_iff, !Z.eqb_eq. lia.
Qed.
Lemma outcome_true r : eqb (bool_decide (vr_output r = "")) (negb (overridden r)) = false ↔ (vr_output r = "" ↔ is_Some (vr_overridden r)).
Proof.
  unfold overridden. rewrite eqb_false_iff. destruct (bool_decide_reflect (vr_output r = "")), (bool_decide_reflect (is_Some (vr_overridden r)));
    simpl; intuition congruence.
Qed.
Lemma paths_false r :
  negb (storedPath (vr_path r)) || negb (bool_decide (vr_output r = "")) && negb (storedPath (vr_output r)) = false
  ↔ storedPath (vr_path r) = true ∧ (vr_output r = "" ∨ storedPath (vr_output r) = true).
Proof.
  rewrite orb_false_iff, negb_false_iff, andb_false_iff, !negb_false_iff, bool_decide_eq_true. done.
Qed.
Lemma record_clause_none r : record_clause hex composition composed r = None ↔ record_declared r.
Proof.
  unfold record_clause, record_declared. rewrite !unless_none, bool_decide_eq_false, <-not_eq_None_Some.
  rewrite negb_false_iff, bool_decide_eq_true. destruct (ds_declared _ !! _) as [c|]; [|naive_solver].
  rewrite !unless_none, !negb_false_iff, Z.eqb_eq, !bool_decide_eq_true, outcome_true, paths_false.
  assert (Ho : match vr_overridden r with
     | Some by_ => if negb (bool_decide (composition !! or_revision by_ = Some false)) then Some "provenance override is not a fragment of the composition"
         else if negb (bool_decide (or_digest by_ = hex (ds_digest (source_at (or_revision by_))))) then Some "provenance override digest differs" else None
     | None => None end = None ↔ overrider_ok r).
  { unfold overrider_ok. destruct (vr_overridden r) as [o|]; [|naive_solver].
    rewrite !unless_none, !negb_false_iff, !bool_decide_eq_true. naive_solver. }
  rewrite Ho. split.
  - intros (? & ? & ? & ? & Hf & Hk & ? & [? ?] & ?). apply fits_kind_true in Hf; [|done]. split_and!; try done. by exists c.
  - intros (? & ? & (c' & [= <-] & ? & ? & Hk) & Hf & ? & ? & ? & ?). apply (fits_kind_true c) in Hf; [|done]. done.
Qed.

(** ** The records met *)

Record met_of (m : met) (l : list provenance_record) : Prop := MetOf {
  mo_overridden : ∀ k, k ∈ mt_overridden m ↔ ∃ r, r ∈ l ∧ overridden r = true ∧ outcome_at r = k;
  mo_output : ∀ k, k ∈ mt_output m ↔ ∃ r, r ∈ l ∧ overridden r = false ∧ outcome_at r = k;
  mo_members : ∀ o n, mt_members m !! o = Some n → ∃ r, r ∈ l ∧ recorded_at r = o ∧ member_count r = n;
  mo_all : ∀ r, r ∈ l → is_Some (mt_members m !! recorded_at r);
  mo_covered : ∀ o, o ∈ recorded_at <$> l → mt_covered m !! o = Some (Z.of_nat (size (list_to_set (C:=gset Z) (members_at o l))));
  mo_uncovered : ∀ o, o ∉ recorded_at <$> l → mt_covered m !! o = None }.
Definition compatible_all (l : list provenance_record) : Prop :=
  ∀ i j r r', (i < j)%nat → l !! i = Some r → l !! j = Some r' → compatible r r'.

Lemma met_nil : met_of (Met ∅ ∅ ∅ ∅) [].
Proof. split; intros; try set_solver; by simplify_map_eq. Qed.
Lemma compatible_snoc l r : compatible_all (l ++ [r]) ↔ compatible_all l ∧ Forall (λ x, compatible x r) l.
Proof.
  split.
  - intros H. split.
    + intros i j x y Hij Hi Hj. apply (H i j); [done|by apply lookup_app_l_Some..].
    + apply Forall_lookup. intros i x Hi. apply (H i (length l)); [by eapply lookup_lt_Some|by apply lookup_app_l_Some|].
      by rewrite lookup_app_r, Nat.sub_diag.
  - intros [H Hr] i j x y Hij Hi Hj. assert (Hjl : (j < length (l ++ [r]))%nat) by by eapply lookup_lt_Some.
    rewrite length_app in Hjl. simpl in Hjl. rewrite lookup_app_l in Hi by lia. destruct (decide (j < length l)%nat) as [Hlt|Hge].
    + rewrite lookup_app_l in Hj by done. by apply (H i j).
    + replace j with (length l) in Hj by lia. rewrite lookup_app_r, Nat.sub_diag in Hj by done. injection Hj as <-.
      rewrite Forall_lookup in Hr. by apply (Hr i).
Qed.
Lemma overridden_none r : overridden r = false ↔ vr_overridden r = None.
Proof. unfold overridden. rewrite bool_decide_eq_false. destruct (vr_overridden r); naive_solver. Qed.
Lemma repeats_none m l r : met_of m l → compatible_all l → repeats_clause m r = None ↔ Forall (λ x, compatible x r) l.
Proof.
  intros [Hov Hou Hm Hall _ _] Hl. unfold repeats_clause. rewrite unless_none, orb_false_iff, andb_false_iff, !bool_decide_eq_false.
  rewrite Forall_forall. split.
  - intros [[H1 H2] H3] x Hx. split.
    + intros Ho. assert (Hxo : overridden x = false).
      { destruct (overridden x) eqn:E; [|done]. destruct H1. apply Hov. by exists x. }
      split; [by apply overridden_none|]. apply overridden_none. destruct H2 as [H2|H2]; [done|]. destruct H2. apply Hou. by exists x.
    + intros Ho. destruct (Hall x Hx) as [n Hn]. rewrite Ho in Hn. rewrite Hn in H3. apply unless_none in H3 as [H3 _].
      apply negb_false_iff, Z.eqb_eq in H3. destruct (Hm _ _ Hn) as (y & Hy & Hyo & Hyn).
      assert (Hxy : member_count x = member_count y); [|lia].
      apply list_elem_of_lookup in Hx as [i Hi]. apply list_elem_of_lookup in Hy as [k Hk].
      destruct (Nat.lt_trichotomy i k) as [Hik|[->|Hik]].
      * apply (Hl i k x y Hik Hi Hk). congruence.
      * congruence.
      * symmetry. apply (Hl k i y x Hik Hk Hi). congruence.
  - intros H. split; [split|].
    + intros (x & Hx & Hxo & Hk)%Hov. destruct (H x Hx) as [Hc _]. destruct (Hc Hk) as [Hn _]. apply overridden_none in Hn. congruence.
    + destruct (overridden r) eqn:E; [right|by left]. intros (x & Hx & _ & Hk)%Hou. destruct (H x Hx) as [Hc _].
      destruct (Hc Hk) as [_ Hn]. apply overridden_none in Hn. congruence.
    + destruct (mt_members m !! recorded_at r) as [n|] eqn:En; [|done]. destruct (Hm _ _ En) as (x & Hx & Ho & <-).
      destruct (H x Hx) as [_ Hc]. rewrite (Hc Ho), Z.eqb_refl. done.
Qed.

Lemma members_snoc o l r : members_at o (l ++ [r]) = members_at o l ++ (if decide (recorded_at r = o) then [vr_member r] else []).
Proof. unfold members_at. rewrite filter_app, fmap_app. f_equal. cbn. by case_decide. Qed.
Lemma member_elem o m l : m ∈ members_at o l ↔ ∃ r, r ∈ l ∧ recorded_at r = o ∧ vr_member r = m.
Proof. unfold members_at. rewrite list_elem_of_fmap. setoid_rewrite list_elem_of_filter. naive_solver. Qed.
Lemma no_member o l : o ∉ recorded_at <$> l → members_at o l = [].
Proof.
  intros Ho. destruct (members_at o l) as [|m k] eqn:E; [done|]. destruct Ho.
  assert (Hm : m ∈ members_at o l) by (rewrite E; by left). apply member_elem in Hm as (r & Hr & <- & _). by apply list_elem_of_fmap_2.
Qed.
(** Whether an output of the outcome was met tells whether its member is one already. *)
Lemma member_known m l r : met_of m l → Forall (λ x, compatible x r) l →
  outcome_at r ∈ mt_output m ↔ vr_member r ∈ members_at (recorded_at r) l.
Proof.
  intros Hm Hr. rewrite (mo_output _ _ Hm), member_elem. rewrite Forall_forall in Hr. split.
  - intros (x & Hx & _ & Hk). exists x. split; [done|]. exact (conj (f_equal fst Hk) (f_equal snd Hk)).
  - intros (x & Hx & Ho & Hv). exists x. assert (Hk : outcome_at x = outcome_at r) by (unfold outcome_at; congruence).
    destruct (Hr x Hx) as [Hc _]. destruct (Hc Hk) as [Hn _]. split; [done|]. split; [by apply overridden_none|done].
Qed.
Lemma meet_covered m l r : met_of m l → Forall (λ x, compatible x r) l →
  mt_covered (meet m r) !! recorded_at r = Some (Z.of_nat (size (list_to_set (C:=gset Z) (members_at (recorded_at r) (l ++ [r]))))).
Proof.
  intros Hm Hr. pose proof (member_known m l r Hm Hr) as Hk. cbn [meet mt_covered]. rewrite members_snoc, decide_True by done.
  rewrite list_to_set_app_L, list_to_set_singleton_L. case_bool_decide as H.
  - apply Hk in H. pose proof H as (x & Hx & Ho & _)%member_elem. rewrite (mo_covered _ _ Hm) by (rewrite <-Ho; by apply list_elem_of_fmap_2).
    do 3 f_equal. set_solver.
  - rewrite Hk in H. rewrite lookup_insert_eq, size_union, size_singleton by set_solver. f_equal.
    destruct (decide (recorded_at r ∈ recorded_at <$> l)) as [Hi|Hi].
    + rewrite (mo_covered _ _ Hm) by done. simpl. lia.
    + rewrite (mo_uncovered _ _ Hm), no_member by done. done.
Qed.
Lemma meet_ok m l r : met_of m l → Forall (λ x, compatible x r) l → met_of (meet m r) (l ++ [r]).
Proof.
  intros Hm Hr. split.
  - intros k. cbn [meet mt_overridden]. setoid_rewrite elem_of_app. setoid_rewrite list_elem_of_singleton.
    destruct (overridden r) eqn:E; rewrite ?elem_of_union, ?elem_of_singleton, (mo_overridden _ _ Hm); split;
      [intros [->|(x & ? & ? & ?)]; eauto|intros (x & [?| ->] & ? & <-); eauto 6; congruence
      |intros (x & ? & ? & ?); eauto|intros (x & [?| ->] & ? & <-); eauto 6; congruence].
  - intros k. cbn [meet mt_output]. setoid_rewrite elem_of_app. setoid_rewrite list_elem_of_singleton.
    destruct (overridden r) eqn:E; rewrite ?elem_of_union, ?elem_of_singleton, (mo_output _ _ Hm); split;
      [intros (x & ? & ? & ?); eauto|intros (x & [?| ->] & ? & <-); eauto 6; congruence
      |intros [->|(x & ? & ? & ?)]; eauto|intros (x & [?| ->] & ? & <-); eauto 6; congruence].
  - intros o n. cbn [meet mt_members]. setoid_rewrite elem_of_app. setoid_rewrite list_elem_of_singleton.
    rewrite lookup_insert_Some. intros [[<- <-]|[_ H]]; [by exists r; auto|]. destruct (mo_members _ _ Hm _ _ H) as (x & ? & ? & ?). eauto.
  - intros x. cbn [meet mt_members]. rewrite elem_of_app, list_elem_of_singleton. rewrite lookup_insert_is_Some.
    intros [Hx| ->]; [|by left]. destruct (decide (recorded_at r = recorded_at x)); [by left|right]. split; [done|]. by apply (mo_all _ _ Hm).
  - intros o Ho. destruct (decide (recorded_at r = o)) as [<-|Hn]; [by apply meet_covered|].
    rewrite members_snoc, decide_False, app_nil_r by done. cbn [meet mt_covered].
    assert (Ho' : o ∈ recorded_at <$> l) by (rewrite fmap_app, elem_of_app in Ho; destruct Ho as [?|Ho]; [done|]; apply list_elem_of_singleton in Ho; congruence).
    rewrite <-(mo_covered _ _ Hm) by done. case_bool_decide; [done|]. by rewrite lookup_insert_ne.
  - intros o. rewrite fmap_app, elem_of_app. intros Ho. cbn [meet mt_covered].
    assert (recorded_at r ≠ o) by (intros <-; apply Ho; right; by left). rewrite <-(mo_uncovered _ _ Hm o) by tauto.
    case_bool_decide; [done|]. by rewrite lookup_insert_ne.
Qed.
Lemma records_clause_cases m l0 l : met_of m l0 → compatible_all l0 →
  (∃ m', records_clause hex composition composed m l = inl m' ∧ met_of m' (l0 ++ l) ∧ Forall record_declared l ∧ compatible_all (l0 ++ l))
  ∨ (∃ c, records_clause hex composition composed m l = inr c ∧ ¬ (Forall record_declared l ∧ compatible_all (l0 ++ l))).
Proof.
  revert m l0. induction l as [|r l IH]; intros m l0 Hm Hl0; [left; exists m; by rewrite app_nil_r|]. simpl.
  destruct (record_clause hex composition composed r) as [t|] eqn:E.
  { right. eexists. split; [done|]. intros [[H _]%Forall_cons _]. apply record_clause_none in H. congruence. }
  destruct (repeats_clause m r) as [t|] eqn:E'.
  { right. eexists. split; [done|]. intros [_ H]. rewrite cons_middle, app_assoc in H.
    assert (H' : compatible_all (l0 ++ [r])).
    { intros i j x y Hij Hi Hj. apply (H i j); [done|by apply lookup_app_l_Some..]. }
    apply compatible_snoc in H' as [_ H']. apply (repeats_none m l0 r Hm Hl0) in H'. congruence. }
  apply record_clause_none in E. apply (repeats_none m l0 r Hm Hl0) in E'.
  rewrite cons_middle, app_assoc. destruct (IH (meet m r) (l0 ++ [r])) as [(m' & H1 & H2 & H3 & H4)|(c & H1 & H2)].
  - by apply meet_ok.
  - by apply compatible_snoc.
  - left. exists m'. split_and!; try done. by constructor.
  - right. exists c. split; [done|]. rewrite Forall_cons. naive_solver.
Qed.

(** ** Every member of an occurrence has an outcome *)

Lemma same_occurrence r x : record_declared r → record_declared x → recorded_at x = recorded_at r → vr_kind x = vr_kind r.
Proof.
  intros (_ & _ & (c & Hc & _ & _ & Hk) & _) (_ & _ & (c' & Hc' & _ & _ & Hk') & _) Ho. unfold recorded_at in Ho.
  injection Ho as Hs Hr _ _. congruence.
Qed.
Lemma count_of r : record_declared r → member_count r = if decide (vr_kind r = "mapping") then vr_members r else 1.
Proof. intros (_ & _ & _ & Hf & _). unfold member_count. case_decide; lia. Qed.
Lemma compatible_elem l r x : compatible_all l → r ∈ l → x ∈ l → recorded_at r = recorded_at x → member_count r = member_count x.
Proof.
  intros Hl [i Hi]%list_elem_of_lookup [j Hj]%list_elem_of_lookup Ho. destruct (Nat.lt_trichotomy i j) as [Hij|[->|Hij]].
  - by apply (Hl i j r x Hij Hi Hj).
  - congruence.
  - symmetry. by apply (Hl j i x r Hij Hj Hi).
Qed.
Lemma filled_iff l r : Forall record_declared l → compatible_all l → r ∈ l →
  Z.of_nat (size (list_to_set (C:=gset Z) (members_at (recorded_at r) l))) = member_count r
  ↔ (vr_kind r = "mapping" → ∀ m, 0 ≤ m < vr_members r → m ∈ members_at (recorded_at r) l).
Proof.
  intros Hd Hl Hr. rewrite Forall_forall in Hd. pose proof (Hd r Hr) as Hdr. rewrite (count_of r Hdr).
  assert (Hin : ∀ m, m ∈ members_at (recorded_at r) l →
    if decide (vr_kind r = "mapping") then 0 ≤ m < vr_members r else m = -1).
  { intros m (x & Hx & Ho & <-)%member_elem. pose proof (Hd x Hx) as Hdx. pose proof (same_occurrence r x Hdr Hdx Ho) as Hk.
    pose proof (compatible_elem l x r Hl Hx Hr Ho) as Hc. rewrite (count_of r), (count_of x), Hk in Hc by done.
    destruct Hdx as (_ & _ & _ & Hf & _). rewrite Hk in Hf. case_decide; lia. }
  case_decide as Hk.
  - assert (Hs : list_to_set (C:=gset Z) (members_at (recorded_at r) l) ⊆ list_to_set (seqZ 0 (vr_members r))).
    { intros m. rewrite !elem_of_list_to_set, elem_of_seqZ. intros Hm%Hin. lia. }
    assert (Hn : size (list_to_set (C:=gset Z) (seqZ 0 (vr_members r))) = Z.to_nat (vr_members r)).
    { rewrite size_list_to_set by apply NoDup_seqZ. apply length_seqZ. }
    assert (Hpos : 0 ≤ vr_members r) by (destruct Hdr as (_ & _ & _ & Hf & _); rewrite decide_True in Hf by done; lia).
    split.
    + intros Hsz _ m Hm. rewrite <-(elem_of_list_to_set (C:=gset Z)). rewrite (set_subseteq_size_eq _ _ Hs) by lia.
      rewrite elem_of_list_to_set, elem_of_seqZ. lia.
    + intros Hall. enough (Heq : list_to_set (C:=gset Z) (members_at (recorded_at r) l) = list_to_set (seqZ 0 (vr_members r))) by (rewrite Heq; lia).
      apply set_eq. intros m. split; [apply Hs|]. rewrite !elem_of_list_to_set, elem_of_seqZ. intros. apply Hall; [done|lia].
  - split; [done|intros _]. assert (Heq : list_to_set (C:=gset Z) (members_at (recorded_at r) l) = {[ -1 ]}).
    { apply set_eq. intros m. rewrite elem_of_list_to_set, elem_of_singleton. split; [apply Hin|]. intros ->. apply member_elem.
      exists r. split_and!; [done..|]. destruct Hdr as (_ & _ & _ & Hf & _). rewrite decide_False in Hf by done. lia. }
    by rewrite Heq, size_singleton.
Qed.
Lemma declared_names_elem s n :
  (s, n) ∈ declared_names composition composed ↔ is_Some (composition !! s) ∧ is_Some (ds_declared (source_at s) !! n).
Proof.
  unfold declared_names. rewrite list_elem_of_bind. split.
  - intros (s' & H & Hs). apply list_elem_of_bind in H as (n' & [= <- <-]%list_elem_of_singleton & Hn).
    apply sorted_elem, list_elem_of_fmap in Hs, Hn. destruct Hs as ([? ?] & -> & ?%elem_of_map_to_list), Hn as ([? ?] & -> & ?%elem_of_map_to_list).
    by split; eexists.
  - intros [[b Hb] [c Hc]]. exists s. split.
    + apply list_elem_of_bind. exists n. split; [by left|]. apply sorted_elem, list_elem_of_fmap. exists (n, c). by rewrite elem_of_map_to_list.
    + apply sorted_elem, list_elem_of_fmap. exists (s, b). by rewrite elem_of_map_to_list.
Qed.
Lemma unused_clause_none p q : unused_clause composition composed p q = None ↔
  ∀ s n, is_Some (composition !! s) → is_Some (ds_declared (source_at s) !! n) → (s, n) ∈ p ∧ (s, n) ∈ q.
Proof.
  unfold unused_clause. rewrite first_clause_none, Forall_forall. split.
  - intros H s n Hs Hn. specialize (H (s, n)). rewrite declared_names_elem, !unless_none, !negb_false_iff, !bool_decide_eq_true in H.
    destruct (H (conj Hs Hn)) as (? & ? & _). done.
  - intros H [s n]. rewrite declared_names_elem, !unless_none, !negb_false_iff, !bool_decide_eq_true. intros [Hs Hn].
    destruct (H s n Hs Hn). done.
Qed.

(** ** The check *)

Lemma filled_clause_none m l : met_of m l → Forall record_declared l → compatible_all l →
  first_clause (λ r, if bool_decide (mt_covered m !! recorded_at r = mt_members m !! recorded_at r) then None
    else Some (of_record r "provenance occurrence without an outcome for every member")) l = None
  ↔ ∀ r n, r ∈ l → vr_kind r = "mapping" → 0 ≤ n < vr_members r → n ∈ members_at (recorded_at r) l.
Proof.
  intros Hm Hd Hl. rewrite first_clause_none, Forall_forall.
  assert (Heq : ∀ r, r ∈ l → mt_covered m !! recorded_at r = mt_members m !! recorded_at r
    ↔ Z.of_nat (size (list_to_set (C:=gset Z) (members_at (recorded_at r) l))) = member_count r).
  { intros r Hr. rewrite (mo_covered _ _ Hm) by by apply list_elem_of_fmap_2. destruct (mo_all _ _ Hm r Hr) as [n Hn]. rewrite Hn.
    destruct (mo_members _ _ Hm _ _ Hn) as (x & Hx & Ho & <-). rewrite (compatible_elem l x r Hl Hx Hr Ho).
    split; [by intros [= ->]|by intros ->]. }
  split.
  - intros H r n Hr Hk Hn. specialize (H r Hr). apply (filled_iff l r Hd Hl Hr); [|done..]. apply Heq; [done|]. by case_bool_decide.
  - intros H r Hr. rewrite bool_decide_true; [done|]. apply Heq; [done|]. apply (filled_iff l r Hd Hl Hr). intros. by apply H.
Qed.
Lemma each_in_none {A} (key : A → occurrence) (f : A → clause) (l : list A) (k : list occurrence) :
  first_clause (λ x, if bool_decide (key x ∈ k) then None else Some (f x)) l = None ↔ ∀ o, o ∈ key <$> l → o ∈ k.
Proof.
  rewrite first_clause_none, Forall_forall. split.
  - intros H o (x & -> & Hx)%list_elem_of_fmap. specialize (H x Hx). by case_bool_decide.
  - intros H x Hx. rewrite bool_decide_true; [done|]. by apply H, list_elem_of_fmap_2.
Qed.
Lemma disagreement_none reproduction records :
  disagreement hex composition composed reproduction records = None ↔ agree reproduction records.
Proof.
  unfold disagreement. destruct (first_clause (reproduction_clause composition composed) reproduction) eqn:E1.
  { split; [done|]. intros [H _ _ _ _ _ _]. assert (E : first_clause (reproduction_clause composition composed) reproduction = None); [|congruence].
    apply first_clause_none. eapply Forall_impl; [exact H|]. intros d. by apply reproduction_clause_none. }
  destruct (numbering_clause reproduction) eqn:E2.
  { split; [done|]. intros [_ H _ _ _ _ _]. apply numbering_clause_none in H. congruence. }
  assert (H1 : Forall dependency_declared reproduction).
  { apply first_clause_none in E1. eapply Forall_impl; [exact E1|]. intros d. by apply reproduction_clause_none. }
  rewrite numbering_clause_none in E2.
  destruct (records_clause_cases _ [] records met_nil) as [(m & -> & Hm & Hd & Hl)|(c & -> & Hno)].
  { intros i j r r' _ Hi. by rewrite lookup_nil in Hi. }
  2: { split; [done|]. intros [_ _ H3 H4 _ _ _]. by destruct Hno. }
  simpl in Hm, Hl. pose proof (unused_clause_none ((λ d, (ud_source d, ud_reference d)) <$> reproduction)
    ((λ r, (or_revision (vr_source r), vr_reference r)) <$> records)) as Hu.
  destruct (unused_clause _ _ _ _) as [c|] eqn:E3.
  { split; [done|]. intros [_ _ _ _ H5 _ _]. destruct Hu as [_ Hu]. rewrite Hu; [done|]. intros s n Hs Hn.
    destruct (H5 s n Hs Hn) as [(d & Hd' & Ha & Hb) (r & Hr & Hc & He)]. split; apply list_elem_of_fmap; [exists d|exists r]; split; congruence. }
  destruct Hu as [Hu _]. specialize (Hu eq_refl).
  pose proof (filled_clause_none m records Hm Hd Hl) as Hf. destruct (first_clause _ records) as [c|] eqn:E4.
  { split; [done|]. intros [_ _ _ _ _ H6 _]. assert (Hn : Some c = None); [|done]. apply Hf. intros r n Hr. by apply H6. }
  destruct Hf as [Hf _]. specialize (Hf eq_refl). clear E4.
  pose proof (each_in_none recorded_at (λ r, of_record r "provenance occurrence without a reproduction dependency") records
    (occurrence_of <$> reproduction)) as Ho.
  pose proof (each_in_none occurrence_of (λ d, ("reproduction dependency without a provenance record", ud_source d, ud_reference d)) reproduction
    (recorded_at <$> records)) as Ho'. cbv beta in Ho, Ho'.
  destruct (first_clause _ records) as [c|] eqn:E5.
  { split; [done|]. intros [_ _ _ _ _ _ H7]. destruct Ho as [_ Ho]. assert (Hn : Some c = None); [|done]. apply Ho. intros o. apply H7. }
  destruct Ho as [Ho _]. specialize (Ho eq_refl). rewrite Ho'. split.
  - intros Hr. split; try done; [|intros o; split; auto]. intros s n Hs Hn. destruct (Hu s n Hs Hn) as [Hp Hq].
    apply list_elem_of_fmap in Hp as (d & [= -> ->] & Hp). apply list_elem_of_fmap in Hq as (r & [= Hq1 Hq2] & Hq).
    split; [by exists d|by exists r].
  - intros [_ _ _ _ _ _ H7] o. apply H7.
Qed.
End Agreement.
