(* ===== verification/PublishSpec.v ===== *)
(** * What the transactions of drafts and publication leave alone of the core's store. *)

From stdpp Require Import sorting relations.
From S2P Require Import Prelude Store World Evidence Commit Lifecycle Refinement System Ident IngestPath Request.
From S2P Require Import Governance Authority Governed Recovery RecoveryGate Recovered Times Json Classify Drafts Ingested Declared.
From S2P Require Import Publish Release.
From S2P Require Monitor.
From S2P Require Staging.

(** ** Frames *)

Lemma keeps_in_core {B A} (g : Db → B) (m : Tx A) : keeps g m → keeps (g ∘ core) (in_core m).
Proof. intros Hm s x s' H. unfold in_core in H. destruct (m (core s)) as [[y d]|] eqn:E; [|done]. injection H as <- <-. by eapply Hm. Qed.
Lemma keeps_in_core' {B A} (f : pdb → B) (m : Tx A) : (∀ x s, f (set_core x s) = f s) → keeps f (in_core m).
Proof. intros Hf s x s' H. unfold in_core in H. destruct (m (core s)) as [[y d]|] eqn:E; [|done]. injection H as <- <-. apply Hf. Qed.
Lemma keeps_in_monitor {B A} (f : pdb → B) (m : M Monitor.mdb Monitor.monitor_error A) :
  (∀ x s, f (set_monitored x s) = f s) → keeps f (in_monitor m).
Proof. intros Hf s x s' H. unfold in_monitor in H. destruct (m (monitored s)) as [[y d]|[]] eqn:E; try done. injection H as <- <-. apply Hf. Qed.
Lemma keeps_in_staging {B A} (f : pdb → B) (m : M Staging.stage Staging.stage_error A) :
  (∀ x s, f (set_staged x s) = f s) → keeps f (in_staging m).
Proof. intros Hf s x s' H. unfold in_staging in H. destruct (m (staged s)) as [[y d]|[]] eqn:E; try done. injection H as <- <-. apply Hf. Qed.
Lemma keeps_each {B A} (f : pdb → B) (g : A → PT unit) l : (∀ x, keeps f (g x)) → keeps f (each g l).
Proof. intros Hg. induction l as [|x l IH]; simpl; [apply keeps_ret|]. apply keeps_bind; [apply Hg|done]. Qed.
#[export] Hint Extern 1 (keeps _ (in_monitor _)) => apply keeps_in_monitor; intros; reflexivity : keeps.
#[export] Hint Extern 1 (keeps _ (in_staging _)) => apply keeps_in_staging; intros; reflexivity : keeps.
#[export] Hint Extern 2 (keeps _ (in_core _)) => apply keeps_in_core'; intros; reflexivity : keeps.

(** A view of the core that its clock, the events of operations, the publication views and Desired do
    not change; and that its operations do not. *)
Class ViewFree {B} (g : Db → B) : Prop := {
  vf_clock t d : g (Store.set_clock t d) = g d;
  vf_views h c r v d : g (set_views h c r v d) = g d;
  vf_mstates m d : g (set_mstates m d) = g d;
  vf_event op n d : g (set_rlog (with_op_event op n (rlog d)) d) = g d;
  vf_fact x d : g (set_rlog (with_fact x (rlog d)) d) = g d }.
Class PubFree {B} (g : Db → B) : Prop := { pf_view :: ViewFree g; pf_ops o d : g (set_ops o d) = g d }.
(** The tables of plans, attempts and what followed. *)
Definition still (d : Db) := (plans d, attempts d, responses d, accountings d, classifications d).
#[export] Instance ops_free : ViewFree ops. Proof. by split. Qed.
#[export] Instance still_free : PubFree still. Proof. by repeat split. Qed.
#[export] Instance authority_free : PubFree authority_of. Proof. by repeat split. Qed.
#[export] Instance gate_free : PubFree gate_of. Proof. by repeat split. Qed.
#[export] Instance epoch_free : PubFree epoch. Proof. by repeat split. Qed.
#[export] Instance machines_free : PubFree machines. Proof. by repeat split. Qed.

Section Views.
Context {B : Type} (g : Db → B) `{!ViewFree g}.
Variables tick mtick : Z → Z.
Variable a : api.
Variables sha256 hex : string → string.

Lemma free_clock : keeps (g ∘ core) (in_core (Store.clock_timestamp tick)).
Proof using ViewFree0.
  apply keeps_in_core. unfold Store.clock_timestamp. solve_keeps. apply keeps_modify. intros. apply vf_clock.
Qed.
Lemma free_event op kind code : keeps (g ∘ core) (op_event a op kind code).
Proof using ViewFree0.
  unfold op_event, update_rlog, insert_fact. apply keeps_in_core. apply keeps_bind; [apply keeps_gets|intros n].
  apply keeps_bind; [apply keeps_modify; intros; apply vf_event|intros _]. apply keeps_modify; intros; apply vf_fact.
Qed.
Hint Resolve free_clock free_event : keeps.
Lemma free_extend lease j : keeps (g ∘ core) (extendPublish tick a lease j).
Proof using ViewFree0. unfold extendPublish. solve_keeps. Qed.

(** *** The acts on a draft *)

Lemma free_views (f : pdb → pdb) : (∀ s, ∃ h c r v, core (f s) = set_views h c r v (core s)) → keeps (E:=err) (g ∘ core) (modify f).
Proof using ViewFree0. intros Hf. apply keeps_modify. intros s. destruct (Hf s) as (h & c & r & v & E). simpl. rewrite E. apply vf_views. Qed.
Ltac views := apply free_views; intros; unfold compose; repeat eexists; reflexivity.
Lemma free_lockDraft q : keeps (g ∘ core) (lockDraft q).
Proof using ViewFree0. unfold lockDraft. solve_keeps. Qed.
Lemma free_keyOf q d k : keeps (g ∘ core) (keyOf q d k).
Proof using ViewFree0. unfold keyOf. solve_keeps. Qed.
Lemma free_setEntry d k r : keeps (g ∘ core) (setEntry d k r).
Proof using ViewFree0. unfold setEntry. solve_keeps. views. Qed.
Lemma free_answer token d e : keeps (g ∘ core) (Drafts.answer token d e).
Proof using ViewFree0. unfold Drafts.answer, advance. solve_keeps. Qed.
Lemma free_author rev who : keeps (E:=err) (g ∘ core) (modify (set_author rev who)).
Proof using ViewFree0. views. Qed.
Hint Resolve free_lockDraft free_keyOf free_setEntry free_answer free_author : keeps.
Lemma free_removeSource token q k : keeps (g ∘ core) (removeSource token q k).
Proof using ViewFree0. unfold removeSource. solve_keeps. Qed.
Lemma free_updateProfile token prv q pins held : keeps (g ∘ core) (updateProfile token prv q pins held).
Proof using ViewFree0. unfold updateProfile, fresh_revision. solve_keeps. Qed.
Lemma free_updateAssignment token asr q i held : keeps (g ∘ core) (updateAssignment token asr q i held).
Proof using ViewFree0. unfold updateAssignment, fresh_revision. solve_keeps. Qed.
Lemma free_discardDraft token q : keeps (g ∘ core) (discardDraft token q).
Proof using ViewFree0. unfold discardDraft. solve_keeps. Qed.
Lemma free_createDraft token i cluster : keeps (g ∘ core) (createDraft token i cluster).
Proof using ViewFree0. unfold createDraft, fresh_revision. solve_keeps. Qed.
Lemma free_refusal_of {A} (m : PT A) : keeps (g ∘ core) m → keeps (g ∘ core) (refusal_of m).
Proof using ViewFree0. intros Hm s x s' H. unfold refusal_of in H. destruct (m s) as [[y t]|[]] eqn:E; try done; injection H as <- <-; [by eapply Hm|done]. Qed.
Lemma free_updateFragment o token frv q layer x : keeps (g ∘ core) (updateFragment tick o token frv q layer x).
Proof using ViewFree0.
  unfold updateFragment, ingest_refused, fresh_revision. solve_keeps; apply free_refusal_of; solve_keeps.
Qed.

(** *** The publication commit *)

Lemma free_seed ids n l : keeps (g ∘ core) (seed_each mtick ids n l).
Proof using ViewFree0. revert n. induction l as [|x l IH]; intros n; simpl; [apply keeps_ret|]. solve_keeps. Qed.
Lemma free_seedStatuses ids l : keeps (g ∘ core) (seedStatuses mtick ids l).
Proof using ViewFree0. apply free_seed. Qed.
Lemma free_put_head i h : keeps (E:=err) (g ∘ core) (modify (put_head i h)).
Proof using ViewFree0.
  apply keeps_modify. intros s. unfold put_head, view_head, compose. destruct (k_kind (hd_key h)); [done|done|]. exact (vf_views (g:=g) _ _ _ _ _).
Qed.
Hint Resolve free_put_head : keeps.
Lemma free_moveHead cluster fresh h : keeps (g ∘ core) (moveHead cluster fresh h).
Proof using ViewFree0. unfold moveHead, insertHead, fresh_revision. solve_keeps. Qed.
Hint Resolve free_moveHead : keeps.
Lemma free_moveHeads cluster ids n l : keeps (g ∘ core) (moveHeads cluster ids n l).
Proof using ViewFree0. revert n. induction l as [|x l IH]; intros n; simpl; [apply keeps_ret|]. solve_keeps. Qed.
Lemma free_insertRelease rel j u dg : keeps (g ∘ core) (insertRelease rel j u dg).
Proof using ViewFree0. unfold insertRelease, fresh_revision. solve_keeps. views. Qed.
Lemma free_insertReleaseMachine rel cluster m : keeps (g ∘ core) (insertReleaseMachine rel cluster m).
Proof using ViewFree0. unfold insertReleaseMachine, fresh_revision. solve_keeps. views. Qed.
Lemma free_insertSource rel cluster h : keeps (g ∘ core) (insertSource rel cluster h).
Proof using ViewFree0. unfold insertSource, fresh_revision. solve_keeps. views. Qed.
Lemma free_insertDependencies rel m : keeps (g ∘ core) (insertDependencies rel m).
Proof using ViewFree0. unfold insertDependencies. solve_keeps; apply keeps_each; solve_keeps. Qed.
Lemma free_desired l rel : keeps (E:=err) (g ∘ core) (modify (set_desired l rel)).
Proof using ViewFree0. apply keeps_modify. intros. exact (vf_mstates (g:=g) _ _). Qed.
Lemma free_lockInputs j u l : keeps (g ∘ core) (lockInputs j u l).
Proof using ViewFree0. unfold lockInputs. solve_keeps. Qed.
End Views.
#[export] Hint Resolve free_clock free_event free_lockDraft free_keyOf free_setEntry free_answer free_author free_put_head free_moveHead
  free_seedStatuses free_moveHeads free_insertRelease free_insertReleaseMachine free_insertSource free_insertDependencies free_desired
  free_lockInputs : keeps.

Section Free.
Context {B : Type} (g : Db → B) `{!PubFree g}.
Variables tick mtick : Z → Z.
Variable a : api.
Variables sha256 hex : string → string.

Lemma free_job (j : publishJob) f : keeps (E:=err) (g ∘ core) (modify (λ s, set_core (update_op (pj_op j) f (core s)) s)).
Proof using PubFree0. apply keeps_modify. intros. exact (pf_ops (g:=g) _ _). Qed.
Hint Resolve free_job : keeps.
Lemma free_finish j st res error code : keeps (g ∘ core) (finishPublish tick a j st res error code).
Proof using PubFree0. unfold finishPublish. solve_keeps; apply _. Qed.
Lemma free_claim lease : keeps (g ∘ core) (claimPublish tick a lease).
Proof using PubFree0.
  unfold claimPublish. solve_keeps; try apply _. apply keeps_modify. intros. exact (pf_ops (g:=g) _ _).
Qed.
Lemma free_request configured fresh q : keeps (g ∘ core) (requestPublication tick configured fresh q).
Proof using PubFree0.
  unfold requestPublication. solve_keeps. apply keeps_in_core. unfold Store.clock_timestamp, update_rlog, insert_fact.
  solve_keeps; apply keeps_modify; intros; first [apply vf_clock|apply vf_event|apply vf_fact|apply pf_ops].
Qed.
Lemma free_end_ingest o j st cst res e : keeps (g ∘ core) (Ingested.finish o j st cst res e).
Proof using PubFree0. unfold Ingested.finish. solve_keeps. apply keeps_in_core. solve_keeps. apply keeps_modify. intros. apply pf_ops. Qed.
Hint Resolve free_end_ingest : keeps.
Lemma free_abandon o j code : keeps (g ∘ core) (abandon tick o j code).
Proof using PubFree0. unfold abandon. solve_keeps. Qed.
Lemma free_commitImport o token ibr j i : keeps (g ∘ core) (commitImport tick o token ibr j i).
Proof using PubFree0.
  unfold commitImport, fresh_revision. solve_keeps; try apply _.
  all: first [apply (free_author g)|apply (free_views g); intros; unfold compose; repeat eexists; reflexivity].
Qed.
Hint Resolve free_finish : keeps.
Lemma free_writeRelease ids j u l dg : keeps (g ∘ core) (writeRelease tick mtick a sha256 hex ids j u l dg).
Proof using PubFree0. unfold writeRelease. solve_keeps; try apply _; apply keeps_each; solve_keeps; apply _.
Qed.
Hint Resolve free_writeRelease : keeps.
Lemma free_commitRelease ids j u l : keeps (g ∘ core) (commitRelease tick mtick a sha256 hex ids j u l).
Proof using PubFree0. unfold commitRelease, meetRelease. solve_keeps; apply _. Qed.
End Free.

(** ** Operations *)

(** A transaction body that only moves along a preorder. *)
Definition within {S E A} (R : S → S → Prop) (m : M S E A) : Prop := ∀ s x s', m s = Ok (x, s') → R s s'.
Lemma within_bind {S E A B} (R : S → S → Prop) `{!Transitive R} (m : M S E A) (k : A → M S E B) :
  within R m → (∀ x, within R (k x)) → within R (m ≫= k).
Proof. intros Hm Hk s y s' (x & t & H1 & H2)%bind_ok. etrans; [by eapply Hm|by eapply Hk]. Qed.
Lemma within_keeps {S E A B} (f : S → B) (R : S → S → Prop) (m : M S E A) :
  (∀ s s', f s' = f s → R s s') → keeps f m → within R m.
Proof. intros Hf Hm s x s' H. by apply Hf, (Hm _ _ _ H). Qed.

(** The operations satisfy their checks, a publish operation's generation included. *)
Definition ops_ok (d : Db) : Prop :=
  map_Forall (λ _ o, checks_ok o ∧ (op_kind_of o = KPublish → 0 ≤ op_gen o)) (ops d).
(** Apply-config operations stay as they are, and the others change along their checks. *)
Definition ops_move (s s' : pdb) : Prop :=
  ops_ok (core s) → ops_ok (core s')
    ∧ ∀ id o, op_kind_of o = KApplyConfig → ops (core s) !! id = Some o ↔ ops (core s') !! id = Some o.
#[export] Instance ops_move_preorder : PreOrder ops_move.
Proof.
  split; [done|]. intros x y z H1 H2 Hx. destruct (H1 Hx) as [Hy He1]. destruct (H2 Hy) as [Hz He2].
  split; [done|]. intros id o Hk. by rewrite (He1 id o Hk), (He2 id o Hk).
Qed.
Lemma ops_move_keeps {A} (m : PT A) : keeps (ops ∘ core) m → within ops_move m.
Proof. apply within_keeps. intros s s' H Hok. unfold ops_ok in *. simpl in H. rewrite H. by split. Qed.

Lemma ops_move_update s id f x :
  ops (core s) !! id = Some x → (op_kind_of x = KApplyConfig → checks_ok x → False) → op_kind_of (f x) = op_kind_of x →
  (checks_ok x → (op_kind_of x = KPublish → 0 ≤ op_gen x) → checks_ok (f x) ∧ (op_kind_of x = KPublish → 0 ≤ op_gen (f x))) →
  ops_move s (set_core (update_op id f (core s)) s).
Proof.
  intros Hx Hk Hf Hc Hok. pose proof (Hok id x Hx) as [Hcx Hgx]. split.
  - intros i o. simpl. rewrite lookup_alter_Some. intros [(-> & y & Hy & ->)|[_ Ho]]; [|by apply (Hok i)].
    assert (y = x) as -> by congruence. destruct (Hc Hcx Hgx). split; [done|by rewrite Hf].
  - intros i o Ho. simpl. rewrite lookup_alter_Some. split.
    + intros Hi. right. split; [|done]. intros <-. assert (o = x) as -> by congruence. by apply Hk.
    + intros [(-> & y & Hy & ->)|[_ ?]]; [|done]. assert (y = x) as -> by congruence. exfalso. apply Hk; [congruence|done].
Qed.
Section Ops.
Variables tick mtick : Z → Z.
Variable a : api.
Variables sha256 hex : string → string.

Lemma owned_running j now s : owns_job a j now s = true → ∃ o r, ops (core s) !! pj_op j = Some o ∧ pt_jobs (tpublish s) !! pj_op j = Some r
  ∧ op_owner o = Some (owner_id a) ∧ op_gen o = pj_gen j ∧ op_owner_epoch o = Some (owner_epoch a) ∧ op_st o = Running
  ∧ ∃ l, jb_lease r = Some l ∧ now < l.
Proof.
  unfold owns_job. destruct (ops (core s) !! pj_op j) as [o|]; [|done]. destruct (pt_jobs (tpublish s) !! pj_op j) as [r|]; [|done].
  rewrite !andb_true_iff, !bool_decide_eq_true, Z.eqb_eq. intros ((((H1 & H2) & H3) & H4) & H5). exists o, r. split_and!; try done.
  destruct (jb_lease r) as [l|]; [|done]. exists l. split; [done|]. by apply Z.ltb_lt.
Qed.
Lemma running_not_apply o : op_st o = Running → op_kind_of o = KApplyConfig → checks_ok o → False.
Proof. intros Hs Hk [H _]. by rewrite Hs, Hk in H. Qed.
Lemma ended_ok st res error o : st = Succeeded ∨ st = Failed → op_st o = Running → checks_ok o → checks_ok (end_op st res error o).
Proof.
  intros Hst Hr [Hk [Ho [Hg Ha]]]. split; [|split; [|split]]; simpl; [|by split; intros [? [=]]|by intros [? [=]]|].
  - rewrite Hr in Hk. by destruct (op_kind_of o), Hst as [-> | ->].
  - intros Hka. rewrite Hr, Hka in Hk. done.
Qed.
(** A finish that went through. *)
Lemma finish_ok j st res error code s u s' :
  finishPublish tick a j st res error code s = Ok (u, s') →
  epoch (core s) = owner_epoch a
  ∧ let now := tick (clock (core s)) in
    owns_job a j now s = true
  ∧ let s1 := set_core (update_op (pj_op j) (end_op st res error) (Store.set_clock now (core s))) s in
    let n := default 0 (op_events (rlog (core s)) !! pj_op j) + 1 in
    s' = update_job (pj_op j) (with_lease None)
      (set_core (set_rlog (with_fact (FOperationEvent (pj_op j) n (owner_epoch a) "publish" code) (with_op_event (pj_op j) n (rlog (core s)))) (core s1)) s1).
Proof.
  unfold finishPublish, op_event, in_core, Store.clock_timestamp, update_rlog, insert_fact. intros H. m_inv.
  repeat match goal with
  | H : (match ?m ?d with _ => _ end) = Ok _ |- _ => destruct (m d) as [[? ?]|] eqn:?; [|done]
  end. m_inv. apply negb_false_iff in H0. split; [exact H|]. split; [exact H0|reflexivity].
Qed.

Lemma finish_ops j st res error code : st = Succeeded ∨ st = Failed → within ops_move (finishPublish tick a j st res error code).
Proof using.
  intros Hst s u s' (_ & Hown & ->)%finish_ok. apply owned_running in Hown as (o & r & Ho & _ & _ & _ & _ & Hr & _).
  assert (H : ops_move s (set_core (update_op (pj_op j) (end_op st res error) (core s)) s)); [|exact H].
  apply (ops_move_update s (pj_op j) _ o Ho); [by apply running_not_apply|done|].
  intros Hc Hg. split; [by apply ended_ok|by intros ?%Hg].
Qed.

(** An operation's event, appended. *)
Definition with_event (op kind code : string) (d : Db) : Db :=
  let n := default 0 (op_events (rlog d) !! op) + 1 in
  set_rlog (with_fact (FOperationEvent op n (owner_epoch a) kind code) (with_op_event op n (rlog d))) d.
Definition claimed (now lease : Z) (j : publishJob) (s : pdb) : pdb :=
  let s1 := set_core (update_op (pj_op j) (run_by a) (Store.set_clock now (core s))) s in
  update_job (pj_op j) (with_lease (Some (now + lease))) (set_core (with_event (pj_op j) "publish" "claimed" (core s1)) s1).
Lemma claimable_row now s op : claimable now s op = true →
  ∃ o r, ops (core s) !! op = Some o ∧ pt_jobs (tpublish s) !! op = Some r ∧ op_kind_of o = KPublish
    ∧ (op_st o = Queued ∨ op_st o = Running ∧ ∃ l, jb_lease r = Some l ∧ l < now).
Proof using.
  unfold claimable. destruct (ops (core s) !! op) as [o|]; [|done]. destruct (pt_jobs (tpublish s) !! op) as [r|]; [|done].
  rewrite andb_true_iff, orb_true_iff, andb_true_iff, !bool_decide_eq_true. intros (Hk & Hst). exists o, r. split_and!; try done.
  destruct Hst as [Hq|[Hr Hl]]; [by left|right]. split; [done|]. destruct (jb_lease r) as [l|]; [|done]. exists l. split; [done|]. by apply Z.ltb_lt.
Qed.
Lemma oldest_in now s op : oldest_claimable now s = Some op → claimable now s op = true
  ∧ ∀ op', claimable now s op' = true → older s op op'.
Proof using.
  unfold oldest_claimable. set (l := filter _ _). intros H.
  assert (Hall : ∀ x, x ∈ merge_sort (older s) l ↔ claimable now s x = true ∧ x ∈ (map_to_list (pt_jobs (tpublish s))).*1).
  { intros x. rewrite merge_sort_Permutation. unfold l. rewrite list_elem_of_filter. done. }
  destruct (merge_sort (older s) l) as [|x k] eqn:E; [done|]. injection H as ->.
  split; [apply Hall; by left|]. intros op' Hc. assert (Hin : op' ∈ op :: k).
  { apply Hall. split; [done|]. destruct (claimable_row _ _ _ Hc) as (o & r & _ & Hr & _). apply list_elem_of_fmap. exists (op', r).
    by rewrite elem_of_map_to_list. }
  assert (Hs : StronglySorted (older s) (op :: k)).
  { rewrite <-E. apply StronglySorted_merge_sort; [intros x y z; unfold older; lia|intros x y; unfold older; lia]. }
  apply StronglySorted_inv in Hs as [_ Hs]. apply elem_of_cons in Hin as [->|Hin]; [unfold older; lia|].
  rewrite Forall_forall in Hs. by apply Hs.
Qed.
Lemma claim_ok lease s r s' :
  claimPublish tick a lease s = Ok (r, s') →
  epoch (core s) = owner_epoch a
  ∧ let now := tick (clock (core s)) in
    match r with
    | None => oldest_claimable now s = None ∧ s' = set_core (Store.set_clock now (core s)) s
    | Some j => ∃ o row d, oldest_claimable now s = Some (pj_op j) ∧ ops (core s) !! pj_op j = Some o ∧ op_gen o + 1 = pj_gen j
        ∧ pt_jobs (tpublish s) !! pj_op j = Some row ∧ jb_draft row = pj_draft j ∧ jb_revision row = pj_revision j
        ∧ dt_drafts (tdrafts s) !! pj_draft j = Some d ∧ df_cluster d = pj_cluster j ∧ s' = claimed now lease j s
    end.
Proof using.
  unfold claimPublish, op_event, in_core, Store.clock_timestamp, update_rlog, insert_fact. intros H. m_inv.
  repeat match goal with
  | H : (match ?m ?d with _ => _ end) = Ok _ |- _ => destruct (m d) as [[? ?]|] eqn:?; [|done]
  end. m_inv. split; [exact H|]. cbv zeta.
  change (oldest_claimable _ _) with (oldest_claimable (tick (clock (core s))) s) in *.
  destruct (oldest_claimable (tick (clock (core s))) s) as [op|] eqn:Eo.
  - m_inv. repeat match goal with
    | H : (match ?m ?d with _ => _ end) = Ok _ |- _ => destruct (m d) as [[? ?]|] eqn:?; [|done]
    end. m_inv. simpl in *.
    repeat match goal with H : _ <$> _ = Some _ |- _ => apply fmap_Some in H as (? & ? & ?) end.
    eexists _, _, _. split_and!; try done.
  - m_inv. done.
Qed.

Lemma claim_ops lease : within ops_move (claimPublish tick a lease).
Proof using.
  intros s r s' [_ H]%claim_ok. cbv zeta in H. destruct r as [j|]; [|by destruct H as [_ ->]].
  destruct H as (o & row & d & Hold & Ho & _ & _ & _ & _ & _ & _ & ->). apply oldest_in in Hold as [Hc _].
  apply claimable_row in Hc as (o' & r & Ho' & _ & Hk & Hst). assert (o' = o) as -> by congruence.
  assert (H : ops_move s (set_core (update_op (pj_op j) (run_by a) (core s)) s)); [|exact H].
  apply (ops_move_update s (pj_op j) _ o Ho); [by rewrite Hk|done|].
  intros (Hks & Hw & Hg & Ha) Hgp. specialize (Hgp Hk). unfold run_by. split; [|simpl; intros; lia].
  split; [|split; [|split]]; simpl; [by rewrite Hk|by split; eexists|lia|by rewrite Hk].
Qed.
(** A publication's request that queued an operation, or found it. *)
Definition queued (fresh : string) (q : draft_request) (d : draft_row) (now : Z) (s : pdb) : pdb :=
  let c := Store.set_clock now (core s) in
  let s1 := set_core (set_ops (<[fresh := Operation (next_seq c) KPublish Queued (dq_epoch q) None 0 None None None None now None None]> (ops c)) c) s in
  let l := with_op_event fresh 1 (rlog (core s1)) in
  let s2 := set_core (set_rlog (with_fact (FOperationEvent fresh 1 (dq_epoch q) "publish" "queued") l) (core s1)) s1 in
  let t := tpublish s2 in
  set_tpublish (PublishTables (<[fresh := JobRow (dq_draft q) (df_revision d) (dq_principal q) (dq_role q) None]> (pt_jobs t))
    (pt_releases t) (pt_sources t) (pt_machines t) (pt_starts t) (pt_platforms t)) s2.
Lemma request_ok configured fresh q s op s' :
  requestPublication tick configured fresh q s = Ok (op, s') →
  ∃ d, dt_drafts (tdrafts s) !! dq_draft q = Some d ∧ df_state d = DOpen ∧ etag (df_revision d) (df_token d) = dq_if_match q
  ∧ ((s' = s ∧ publishing (dq_draft q) s op = true ∧ jb_revision <$> pt_jobs (tpublish s) !! op = Some (df_revision d))
     ∨ (op = fresh ∧ ops (core s) !! fresh = None ∧ pt_jobs (tpublish s) !! fresh = None
        ∧ s' = queued fresh q d (tick (clock (core s))) s
        ∧ ∀ op', publishing (dq_draft q) s op' = true → jb_revision <$> pt_jobs (tpublish s) !! op' ≠ Some (df_revision d))).
Proof using.
  unfold requestPublication, fresh_revision, in_core, Store.clock_timestamp, update_rlog, insert_fact. intros H.
  m_inv. eexists. split; [eassumption|]. split; [assumption|]. split; [assumption|].
  match goal with H : (match ?x with _ => _ end) _ = Ok _ |- _ => destruct x as [op'|] eqn:Ef end.
  - m_inv. left. split; [done|].
    match type of Ef with _ ?l = _ => assert (Hin : op ∈ l) by (destruct l; [done|]; injection Ef as ->; by left) end.
    apply list_elem_of_filter in Hin as [[? ?] _]. done.
  - m_inv. repeat match goal with
    | H : (match ?m ?d with _ => _ end) = Ok _ |- _ => destruct (m d) as [[? ?]|] eqn:?; [|done]
    end. m_inv. right. repeat match goal with H : _ || _ = false |- _ => apply orb_false_iff in H as [? ?] end.
    repeat match goal with H : bool_decide _ = false |- _ => apply bool_decide_eq_false in H end.
    split_and!; [done|by apply eq_None_not_Some|by apply eq_None_not_Some|done|].
    intros op' Hp Hr. match type of Ef with _ ?l = _ => assert (Hin : op' ∈ l); [|destruct l; [by apply elem_of_nil in Hin|done]] end.
    apply list_elem_of_filter. split; [done|]. destruct (pt_jobs (tpublish s) !! op') as [row|] eqn:Er; [|done].
    apply list_elem_of_fmap. exists (op', row). by rewrite elem_of_map_to_list.
Qed.
Lemma request_ops configured fresh q : within ops_move (requestPublication tick configured fresh q).
Proof using.
  intros s op s' (d & _ & _ & _ & [[-> _]|(-> & Ho & _ & -> & _)])%request_ok; [done|]. intros Hok. split.
  - unfold ops_ok. simpl. apply map_Forall_insert_2; [|done]. split; [|done].
    split; [done|]. split; [by split; intros [? [=]]|]. split; [by intros [? [=]]|done].
  - intros i o Hk. simpl. rewrite lookup_insert_Some. split.
    + intros Hi. right. split; [|done]. intros <-. congruence.
    + intros [[<- <-]|[_ ?]]; done.
Qed.
Lemma end_ingest_ops o j st cst res e : cst = Succeeded ∨ cst = Failed → within ops_move (Ingested.finish o j st cst res e).
Proof using.
  intros Hst s u s' H. unfold Ingested.finish in H. m_inv.
  match goal with H : in_staging _ _ = Ok (_, ?t) |- _ =>
    assert (Hc : core t = core s) by (by apply (keeps_in_staging core _ ltac:(done) _ _ _ H)); rename t into s1 end.
  unfold in_core in *. match goal with H : (match ?m ?d with _ => _ end) = Ok _ |- _ => destruct (m d) as [[? ?]|] eqn:?; [|done] end.
  m_inv. match goal with H : negb (_ && _) = false |- _ => apply negb_false_iff, andb_true_iff in H as [Hk Hr] end. apply bool_decide_eq_true in Hk, Hr. rewrite Hc in *.
  assert (Hx : ops_move s (set_core (update_op (ij_op j) (ended cst res e) (core s)) s)); [|exact Hx].
  eapply ops_move_update; [eassumption|by rewrite Hk|done|]. intros (Hks & Hw & Hg & Ha) _. split; [|by rewrite Hk].
  split; [|split; [|split]]; simpl; [rewrite Hk; by destruct Hst as [-> | ->]|by split; intros [? [=]]|by intros [? [=]]|by rewrite Hk].
Qed.

(** Proves that a body moves along a preorder from its parts, those not known by a frame. *)
Ltac solve_within :=
  intros; repeat first
    [ solve [eauto 3 with within]
    | solve [apply ops_move_keeps; first [solve [solve_keeps]|apply keeps_each; solve_keeps]]
    | progress cbv zeta
    | lazymatch goal with
      | |- within _ (mbind _ _) => apply within_bind; [apply _| |intros ?]
      | |- within _ (match ?x with _ => _ end) => destruct x
      end ].
Hint Resolve finish_ops end_ingest_ops : within.
Lemma writeRelease_ops ids j u l dg : within ops_move (writeRelease tick mtick a sha256 hex ids j u l dg).
Proof using. pose proof (finish_ops j). unfold writeRelease. solve_within. Qed.
Lemma commitRelease_ops ids j u l : within ops_move (commitRelease tick mtick a sha256 hex ids j u l).
Proof using. pose proof writeRelease_ops. unfold commitRelease, meetRelease. solve_within. Qed.
Lemma commitImport_ops o token ibr j i : within ops_move (commitImport tick o token ibr j i).
Proof using.
  unfold commitImport, fresh_revision. solve_within;
    apply ops_move_keeps, (free_views ops); intros; unfold compose; repeat eexists; reflexivity.
Qed.
Lemma abandon_ops o j code : within ops_move (abandon tick o j code).
Proof using. unfold abandon. solve_within. Qed.
End Ops.

(** ** Publication among everything else: the processes that edit drafts, publish and run the core's
    transactions on one store, and what every transaction of publication is to the core. *)

(** The job a claim gave: its operation's row binds the draft and revision. *)
Definition bound_job (j : publishJob) (s : pdb) : Prop :=
  ∃ r d, pt_jobs (tpublish s) !! pj_op j = Some r ∧ jb_draft r = pj_draft j ∧ jb_revision r = pj_revision j
    ∧ dt_drafts (tdrafts s) !! pj_draft j = Some d ∧ df_cluster d = pj_cluster j.
(** A head the compilation uses as its snapshot reads it. *)
Definition snapshot_read (h : usedHead) (s : pdb) : Prop :=
  ∃ r, st_heads (tsources s) !! uh_head h = Some r ∧ hd_current r = Some (uh_revision h) ∧ hd_revision r = uh_head_revision h.

Section Runs.
Variables tick mtick : Z → Z.
Variable decode : string → option (list node).
Variable encode : list node → option string.
Variables sha256 hex : string → string.

(** A transaction of drafts and publication that went through, in a run that has passed through the
    stores of [seen]: a commit uses the draft's heads and its snapshot's as some of them showed them. *)
Inductive pact (seen : list pdb) : pdb → pdb → Prop :=
| pa_create token i cluster s r s' : createDraft token i cluster s = Ok (r, s') → pact seen s s'
| pa_fragment o token frv q layer g s r s' : updateFragment tick o token frv q layer g s = Ok (r, s') → pact seen s s'
| pa_profile token prv q pins held s r s' : updateProfile token prv q pins held s = Ok (r, s') → pact seen s s'
| pa_assignment token asr q i held s r s' : updateAssignment token asr q i held s = Ok (r, s') → pact seen s s'
| pa_remove token q k s r s' : removeSource token q k s = Ok (r, s') → pact seen s s'
| pa_discard token q s r s' : discardDraft token q s = Ok (r, s') → pact seen s s'
| pa_import o token ibr j i s r s' : commitImport tick o token ibr j i s = Ok (r, s') → pact seen s s'
| pa_abandon o j code s r s' : abandon tick o j code s = Ok (r, s') → pact seen s s'
| pa_request configured fresh q s r s' : requestPublication tick configured fresh q s = Ok (r, s') → pact seen s s'
| pa_claim a lease s r s' : claimPublish tick a lease s = Ok (r, s') → pact seen s s'
| pa_extend a lease j s r s' : extendPublish tick a lease j s = Ok (r, s') → pact seen s s'
| pa_fail a j e s r s' : failPublish tick a j e s = Ok (r, s') → pact seen s s'
| pa_commit a ids j u s0 s r s' :
    s0 ∈ s :: seen → bound_job j s0 → Forall (λ h, ∃ s1, s1 ∈ s :: seen ∧ snapshot_read h s1) (un_unchanged u) →
    commitRelease tick mtick a sha256 hex ids j u (draftHeads (pj_draft j) s0) s = Ok (r, s') →
    (r.2 = true → deferred sha256 r.1 u s' = None) → pact seen s s'.

(** To the core each is a step of the rest of the program that leaves authority and gates alone. *)
Lemma quiet_step s s' :
  still (core s') = still (core s) → authority_of (core s') = authority_of (core s) → gate_of (core s') = gate_of (core s) →
  ops_move s s' → ops_ok (core s) → rstep tick decode encode (core s) (core s') ∧ ops_ok (core s').
Proof using.
  intros Hst Ha Hg Hm Hok. destruct (Hm Hok) as [Hok' Hap]. split; [|done]. apply rs_governed; [|done].
  apply (gs_quiet _ _ _ _ _ (principals (core s))); [|done|by rewrite Ha]. apply s_env. unfold still in Hst. injection Hst as H1 H2 H3 H4 H5.
  unfold env. rewrite H1. split_and!; try done. intros id o Ho _. by apply (Hok' id o).
Qed.
(** A body whose frames and operations make it one. *)
Definition quiet_body {A} (m : PT A) : Prop :=
  keeps (still ∘ core) m ∧ keeps (authority_of ∘ core) m ∧ keeps (gate_of ∘ core) m ∧ within ops_move m.
Lemma quiet_run {A} (m : PT A) s x s' : quiet_body m → m s = Ok (x, s') → ops_ok (core s) →
  rstep tick decode encode (core s) (core s') ∧ ops_ok (core s').
Proof using. intros (H1 & H2 & H3 & H4) H. apply quiet_step; [by apply (H1 _ _ _ H)|by apply (H2 _ _ _ H)|by apply (H3 _ _ _ H)|by eapply H4]. Qed.
(** One that leaves the operations alone. *)
Lemma quiet_views {A} (m : PT A) : (∀ B (g : Db → B), ViewFree g → keeps (g ∘ core) m) → quiet_body m.
Proof using. intros H. split_and!; [apply H, _..|]. apply ops_move_keeps, H, _. Qed.
Lemma quiet_free {A} (m : PT A) : (∀ B (g : Db → B), PubFree g → keeps (g ∘ core) m) → within ops_move m → quiet_body m.
Proof using. intros H Hm. split_and!; [apply H, _..|done]. Qed.

Lemma pact_quiet seen s s' : pact seen s s' → ops_ok (core s) → rstep tick decode encode (core s) (core s') ∧ ops_ok (core s').
Proof using.
  intros H. destruct H as [token i cluster s r s' H|o token frv q layer g s r s' H|token prv q pins held s r s' H|token asr q i held s r s' H
    |token q k s r s' H|token q s r s' H|o token ibr j i s r s' H|o j code s r s' H|configured fresh q s r s' H|a lease s r s' H
    |a lease j s r s' H|a j e s r s' H|a ids j u s0 s r s' _ _ _ H _];
    (eapply quiet_run; [|exact H]).
  - apply quiet_views. intros. by apply free_createDraft.
  - apply quiet_views. intros. by apply free_updateFragment.
  - apply quiet_views. intros. by apply free_updateProfile.
  - apply quiet_views. intros. by apply free_updateAssignment.
  - apply quiet_views. intros. by apply free_removeSource.
  - apply quiet_views. intros. by apply free_discardDraft.
  - apply quiet_free; [intros; by apply free_commitImport|apply commitImport_ops].
  - apply quiet_free; [intros; by apply free_abandon|apply abandon_ops].
  - apply quiet_free; [intros; by apply free_request|apply request_ops].
  - apply quiet_free; [intros; by apply free_claim|apply claim_ops].
  - apply quiet_views. intros. by apply free_extend.
  - unfold failPublish. apply quiet_free; [intros B g Hg; by apply free_finish|apply finish_ops; by right].
  - apply quiet_free; [intros B g Hg; exact (free_commitRelease g tick mtick a sha256 hex ids j u _)|exact (commitRelease_ops tick mtick a sha256 hex ids j u _)].
Qed.
End Runs.
