(* ===== verification/ReleaseSpec.v ===== *)
(** * What the publication commit reads and writes. *)

From stdpp Require Import sorting.
From S2P Require Import Prelude Store World Evidence Commit Lifecycle Ident Request Governance Recovery Times Json.
From S2P Require Import Classify Drafts Ingested Declared Publish Release PublishSpec.
From S2P Require Monitor.
From S2P Require Staging.

(** ** Bodies that write one table *)

Lemma each_cons {A} (f : A → PT unit) x l s u s' : each f (x :: l) s = Ok (u, s') ↔ ∃ v s1, f x s = Ok (v, s1) ∧ each f l s1 = Ok (u, s').
Proof. simpl. by rewrite bind_ok. Qed.

(** The tables by themselves. *)
Definition revisions_of (s : pdb) := (st_fragments (tsources s), st_profiles (tsources s), st_assignments (tsources s), st_bases (tsources s)).
Definition heads_of (s : pdb) : gmap string head_row := st_heads (tsources s).
Definition sources_rows (s : pdb) := pt_sources (tpublish s).
Definition machine_rows (s : pdb) := pt_machines (tpublish s).
Definition release_rows (s : pdb) := pt_releases (tpublish s).
Definition jobs_of (s : pdb) := pt_jobs (tpublish s).
Definition core_heads (s : pdb) : gmap string string := Store.heads (core s).

Section Writes.
Variables tick mtick : Z → Z.
Variable a : api.
Variables sha256 hex : string → string.

Lemma seedStatuses_frame {B} (f : pdb → B) ids l : (∀ x s, f (set_monitored x s) = f s) → keeps f (seedStatuses mtick ids l).
Proof using. intros Hf. unfold seedStatuses. generalize 0%nat as n. induction (merge_sort status_before l) as [|x k IH]; intros n; simpl; [apply keeps_ret|].
  apply keeps_bind; [apply keeps_failIf|intros _]. apply keeps_bind; [by apply keeps_in_monitor|intros _]. apply IH. Qed.
Lemma insertDependencies_frame {B} (f : pdb → B) rel m : (∀ x s, f (set_monitored x s) = f s) → keeps f (insertDependencies rel m).
Proof using.
  intros Hf. unfold insertDependencies.
  repeat first [apply keeps_failIf|by apply keeps_in_monitor|apply keeps_each; intros|apply keeps_bind; [|intros _]].
Qed.
Lemma insertRelease_ok rel j u dg s v s' :
  insertRelease rel j u dg s = Ok (v, s') →
  ∃ job, jobs_of s !! pj_op j = Some job ∧ jb_draft job = pj_draft j ∧ jb_revision job = pj_revision j ∧ jb_role job = "publisher"
  ∧ release_rows s !! rel = None
  ∧ (∀ i r, release_rows s !! i = Some r → re_operation r ≠ pj_op j ∧ ¬ (re_draft r = pj_draft j ∧ re_revision r = pj_revision j))
  ∧ let row := Released (pj_cluster j) (pj_draft j) (pj_revision j) dg (un_renderer u) (pj_op j) (jb_by job) (jb_role job) (epoch (core s)) in
    s' = view_release rel row (update_publish (put_release rel row) s).
Proof using.
  unfold insertRelease, fresh_revision. intros H. m_inv. exists a0.
  repeat match goal with
  | H : _ || _ = false |- _ => apply orb_false_iff in H as [? ?]
  | H : negb (_ && _) = false |- _ => apply negb_false_iff, andb_true_iff in H as [? ?]
  | H : bool_decide _ = true |- _ => apply bool_decide_eq_true in H
  | H : bool_decide _ = false |- _ => apply bool_decide_eq_false in H
  end. split_and!; try done; [by apply Z.eqb_eq|by apply eq_None_not_Some|].
  intros i r Hr. match goal with H : ¬ map_Exists _ _ |- _ => rename H into Hno end.
  split; [intros ?; apply Hno; exists i, r; auto|intros ?; apply Hno; exists i, r; auto].
Qed.

(** A row per machine, and per source. *)
Definition machine_inserts (rel : string) (l : list unitMachine) : gmap (string * string) machine_row :=
  list_to_map ((λ m, ((rel, um_machine m), machine_row_of m)) <$> l).
Lemma insertReleaseMachine_ok rel cluster m s v s' :
  insertReleaseMachine rel cluster m s = Ok (v, s') →
  machine_rows s !! (rel, um_machine m) = None ∧ machine_refused cluster m s = None
  ∧ s' = view_artifact rel m (update_publish (put_machine_row (rel, um_machine m) (machine_row_of m)) s).
Proof using.
  unfold insertReleaseMachine, fresh_revision. intros H. m_inv.
  repeat match goal with H : bool_decide _ = false |- _ => apply bool_decide_eq_false in H end.
  split_and!; [by apply eq_None_not_Some| |done]. by destruct (machine_refused cluster m s).
Qed.

(** A body run on each of a list, as the fold of what it writes. *)
Lemma each_fold {A} (f : A → PT unit) (w : A → pdb → pdb) (Q : A → pdb → Prop) l s u s' :
  (∀ x s v s', f x s = Ok (v, s') → Q x s ∧ s' = w x s) → each f l s = Ok (u, s') →
  s' = foldl (λ s x, w x s) s l ∧ ∀ k x, l !! k = Some x → Q x (foldl (λ s x, w x s) s (take k l)).
Proof using.
  intros Hf. revert s. induction l as [|x l IH]; intros s H.
  - apply ret_ok in H as [_ ->]. split; [done|]. intros k y Hk. by rewrite lookup_nil in Hk.
  - apply each_cons in H as (v & s1 & H1 & H2). apply Hf in H1 as [HQ ->]. destruct (IH _ H2) as [-> Hall]. split; [done|].
    intros [|k] y Hk; [by injection Hk as <-|]. by apply Hall.
Qed.
Lemma foldl_keep {A B} (f : pdb → B) (w : A → pdb → pdb) l s : (∀ x s, f (w x s) = f s) → f (foldl (λ s x, w x s) s l) = f s.
Proof using. intros Hw. revert s. induction l as [|x l IH]; intros s; simpl; [done|]. by rewrite IH, Hw. Qed.
(** Rows inserted under distinct new keys. *)
Lemma foldl_insert {A K V} `{Countable K} (f : pdb → gmap K V) (w : A → pdb → pdb) (key : A → K) (row : A → V) l s :
  (∀ x s, f (w x s) = <[key x := row x]> (f s)) →
  (∀ k x, l !! k = Some x → f (foldl (λ s x, w x s) s (take k l)) !! key x = None) →
  NoDup (key <$> l) ∧ (∀ x, x ∈ l → f s !! key x = None)
  ∧ f (foldl (λ s x, w x s) s l) = list_to_map ((λ x, (key x, row x)) <$> l) ∪ f s.
Proof using.
  intros Hw. revert s. induction l as [|x l IH]; intros s Hn.
  - split; [constructor|]. split; [by intros x ?%elem_of_nil|]. simpl. by rewrite map_empty_union.
  - destruct (IH (w x s)) as (Hd & Hf & Hm). { intros k y Hk. by apply (Hn (S k) y). }
    pose proof (Hn 0%nat x eq_refl) as Hx. simpl in Hx.
    assert (Hnot : key x ∉ key <$> l).
    { intros (y & Hy & Hin)%list_elem_of_fmap. specialize (Hf y Hin). rewrite Hw, <-Hy, lookup_insert_eq in Hf. done. }
    split; [by constructor|]. split.
    + intros y [->|Hy]%elem_of_cons; [done|]. specialize (Hf y Hy). rewrite Hw, lookup_insert_None in Hf. by destruct Hf.
    + simpl. rewrite Hm, Hw. rewrite <-insert_union_l, insert_union_r; [done|]. apply not_elem_of_list_to_map. by rewrite <-list_fmap_compose.
Qed.

Definition machine_written (rel : string) (m : unitMachine) (s : pdb) : pdb :=
  view_artifact rel m (update_publish (put_machine_row (rel, um_machine m) (machine_row_of m)) s).
Lemma machines_inserted rel cluster l s u s' :
  each (insertReleaseMachine rel cluster) l s = Ok (u, s') →
  s' = foldl (λ s m, machine_written rel m s) s l
  ∧ NoDup (um_machine <$> l) ∧ (∀ m, m ∈ l → machine_rows s !! (rel, um_machine m) = None ∧ machine_refused cluster m s = None)
  ∧ machine_rows s' = machine_inserts rel l ∪ machine_rows s.
Proof using.
  intros H. apply (each_fold _ (machine_written rel) (λ m s, machine_rows s !! (rel, um_machine m) = None ∧ machine_refused cluster m s = None)) in H
    as [-> Hall]; [|intros x t v t' (H1 & H2 & H3)%insertReleaseMachine_ok; done].
  destruct (foldl_insert machine_rows (machine_written rel) (λ m, (rel, um_machine m)) machine_row_of l s) as (Hd & Hn & Hm);
    [done|by intros k x Hk; apply (Hall k x Hk)|].
  split; [done|]. split.
  { apply (NoDup_fmap_1 (pair rel)). by rewrite <-list_fmap_compose. }
  split; [|done]. intros m Hin. split; [by apply Hn|]. apply list_elem_of_lookup in Hin as [k Hk]. destruct (Hall k m Hk) as [_ Hr].
  assert (Hf : ∀ (t : pdb), machine_refused cluster m (foldl (λ s m, machine_written rel m s) t (take k l)) = machine_refused cluster m t).
  { intros t. by apply (foldl_keep (machine_refused cluster m)). }
  by rewrite Hf in Hr.
Qed.

Definition source_row_of (h : sourceHead) : source_row := SourceRow (str (sh_head h)) (sh_revision h) (sh_base h).
Definition source_written (rel : string) (h : sourceHead) (s : pdb) : pdb :=
  let s1 := update_publish (put_source_row (rel, key_of_head h) (source_row_of h)) s in
  match sh_revision h with Some r => view_source rel r s1 | None => s1 end.
(** A revision of the cluster and key. *)
Definition names_key (cluster : string) (k : source_key) (rev : option string) (s : pdb) : Prop :=
  ∀ r, rev = Some r → ∃ layer, revision_of (k_kind k) r s = Some (cluster, k, layer).
Lemma insertSource_ok rel cluster h s v s' :
  insertSource rel cluster h s = Ok (v, s') →
  (sources_rows s !! (rel, key_of_head h) = None ∧ names_key cluster (key_of_head h) (sh_revision h) s ∧ 1 ≤ sh_base h)
  ∧ s' = source_written rel h s.
Proof using.
  unfold insertSource, fresh_revision, source_written. intros H.
  apply bind_ok in H as (dup & s1 & [<- <-]%gets_ok & H). apply bind_ok in H as ([] & s1 & [Hd <-]%failIf_ok & H).
  apply bind_ok in H as (ok & s1 & [<- <-]%gets_ok & H). apply bind_ok in H as ([] & s1 & [Hb <-]%failIf_ok & H).
  apply bind_ok in H as ([] & s1 & <-%modify_ok & H).
  apply bool_decide_eq_false in Hd. apply orb_false_iff in Hb as [Hok Hb]. apply negb_false_iff in Hok. apply Z.ltb_ge in Hb.
  assert (Hs : s' = source_written rel h s).
  { unfold source_written, source_row_of. destruct (sh_revision h) as [r|]; [by apply modify_ok in H as <-|by apply ret_ok in H as [_ <-]]. }
  split; [|done]. split; [by apply eq_None_not_Some|]. split; [|lia].
  intros r Hr. rewrite Hr in Hok. unfold key_of_head. simpl. destruct (revision_of (sh_kind h) r s) as [[[c k] layer]|]; [|done].
  apply andb_true_iff in Hok as [->%bool_decide_eq_true ->%bool_decide_eq_true]. by exists layer.
Qed.
Lemma sources_inserted rel cluster l s u s' :
  each (insertSource rel cluster) l s = Ok (u, s') →
  s' = foldl (λ s h, source_written rel h s) s l
  ∧ NoDup (key_of_head <$> l) ∧ (∀ h, h ∈ l → names_key cluster (key_of_head h) (sh_revision h) s ∧ 1 ≤ sh_base h)
  ∧ (∀ h, h ∈ l → sources_rows s !! (rel, key_of_head h) = None)
  ∧ sources_rows s' = list_to_map ((λ h, ((rel, key_of_head h), source_row_of h)) <$> l) ∪ sources_rows s.
Proof using.
  intros H. apply (each_fold _ (source_written rel) (λ h s, sources_rows s !! (rel, key_of_head h) = None
    ∧ names_key cluster (key_of_head h) (sh_revision h) s ∧ 1 ≤ sh_base h)) in H as [-> Hall]; [|intros x t v t'; apply insertSource_ok].
  destruct (foldl_insert sources_rows (source_written rel) (λ h, (rel, key_of_head h)) source_row_of l s) as (Hd & Hn & Hm);
    [intros x t; unfold source_written; by destruct (sh_revision x)|by intros k x Hk; apply (Hall k x Hk)|].
  split; [done|]. split.
  { apply (NoDup_fmap_1 (pair rel)). by rewrite <-list_fmap_compose. }
  split; [|done]. intros h Hin. apply list_elem_of_lookup in Hin as [k Hk]. destruct (Hall k h Hk) as (_ & Hr & Hb). split; [|done].
  intros r Hrev. destruct (Hr r Hrev) as [layer Hl]. exists layer. rewrite <-Hl. symmetry.
  apply (foldl_keep (revision_of _ r)). intros x t. unfold source_written. by destruct (sh_revision x).
Qed.

End Writes.

(** ** Heads *)

Lemma head_at_some c k s i r : head_at c k s = Some (i, r) → heads_of s !! i = Some r ∧ names_head c k r = true.
Proof.
  unfold head_at. intros H. apply find_some in H as [Hin Hn]. split; [|done]. apply list_elem_of_In, elem_of_map_to_list in Hin. done.
Qed.
Lemma head_at_none c k s : head_at c k s = None ↔ ∀ i r, heads_of s !! i = Some r → names_head c k r = false.
Proof.
  unfold head_at. split.
  - intros H i r Hr. apply (find_none _ _ H (i, r)). apply list_elem_of_In, elem_of_map_to_list. done.
  - intros H. destruct (find _ _) as [[i r]|] eqn:E; [|done]. apply find_some in E as [Hin Hn].
    apply list_elem_of_In, elem_of_map_to_list in Hin. simpl in Hn. rewrite (H i r) in Hn; done.
Qed.
(** A head moved from its base, or introduced. *)
Record head_moved (cluster fresh : string) (h : sourceHead) (i : string) (row : head_row) (s : pdb) : Prop := HeadMoved {
  hm_current : hd_current row = sh_revision h;
  hm_case : match sh_head h with
    | Some i0 => i = i0 ∧ ∃ r, heads_of s !! i = Some r ∧ hd_revision r = sh_base h ∧ hd_revision row = sh_base h + 1
        ∧ hd_cluster row = hd_cluster r ∧ hd_key row = hd_key r ∧ hd_layer row = hd_layer r
        ∧ fits_head (hd_cluster r) (hd_key r) (hd_layer r) (sh_revision h) s = true
    | None => i = fresh ∧ heads_of s !! i = None ∧ hd_revision row = 1
        ∧ (∃ rev, sh_revision h = Some rev ∧ revision_of (sh_kind h) rev s = Some (hd_cluster row, hd_key row, hd_layer row))
        ∧ ∀ j r, heads_of s !! j = Some r → names_head (hd_cluster row) (hd_key row) r = false
    end }.
Lemma moveHead_ok cluster fresh h s h' s' :
  moveHead cluster fresh h s = Ok (h', s') →
  ∃ i row, h' = moved_head h i (hd_revision row) ∧ s' = put_head i row s ∧ head_moved cluster fresh h i row s.
Proof.
  unfold moveHead, insertHead, fresh_revision. intros H. destruct (sh_head h) as [i|] eqn:Eh.
  - m_inv. exists i, (HeadRow (hd_cluster a) (hd_key a) (hd_layer a) (sh_revision h) (hd_revision a + 1)).
    split; [done|]. split; [done|]. split; [done|]. rewrite Eh. split; [done|]. exists a.
    repeat match goal with H : negb _ = false |- _ => apply negb_false_iff in H end.
    match goal with H : (_ =? _) = true |- _ => apply Z.eqb_eq in H end. split_and!; try done. simpl. lia.
  - m_inv. destruct a as [[c k] layer]. m_inv. destruct (head_at c k s) as [[j r]|] eqn:Ea.
    { match goal with H : (if bool_decide _ then _ else _) _ = _ |- _ => rewrite bool_decide_false in H by done end. m_inv. }
    match goal with H : (if bool_decide _ then _ else _) _ = _ |- _ => rewrite bool_decide_true in H by done end. m_inv. exists fresh, (HeadRow c k layer (sh_revision h) 1). split; [reflexivity|]. split; [reflexivity|].
    match goal with H : bool_decide _ = false |- _ => apply bool_decide_eq_false in H; rename H into Hf end.
    split; [done|]. rewrite Eh. split; [done|]. split; [by apply eq_None_not_Some|]. split; [done|]. split; [|by apply head_at_none].
    destruct (sh_revision h) as [rev|] eqn:Er; [|done]. by exists rev.
Qed.

(** A head's later rows: the same name, each change a revision more. *)
Definition head_later (r r' : head_row) : Prop :=
  hd_cluster r' = hd_cluster r ∧ hd_key r' = hd_key r ∧ hd_layer r' = hd_layer r
  ∧ hd_revision r ≤ hd_revision r' ∧ (hd_revision r' = hd_revision r → r' = r).
#[export] Instance head_later_preorder : PreOrder head_later.
Proof.
  split; [done|]. intros x y z (?&?&?&?&Hxy) (?&?&?&?&Hyz). split_and!; try congruence; [lia|].
  intros He. assert (hd_revision y = hd_revision x) by lia. rewrite <-Hxy by done. apply Hyz. lia.
Qed.
Definition heads_grow (s s' : pdb) : Prop :=
  ∀ i r, heads_of s !! i = Some r → ∃ r', heads_of s' !! i = Some r' ∧ head_later r r'.
#[export] Instance heads_grow_preorder : PreOrder heads_grow.
Proof.
  split; [by intros s i r Hr; exists r|]. intros x y z H1 H2 i r (r1 & Hr1 & Hl1)%H1. destruct (H2 i r1 Hr1) as (r2 & Hr2 & Hl2).
  exists r2. split; [done|by etrans].
Qed.
(** A cluster's name, and a machine, has one head; the core sees the assignments' heads. *)
Definition heads_unique (s : pdb) : Prop :=
  ∀ i j r r', heads_of s !! i = Some r → heads_of s !! j = Some r' → names_head (hd_cluster r) (hd_key r) r' = true → i = j.
Definition heads_viewed (s : pdb) : Prop :=
  ∀ m rev, core_heads s !! m = Some rev ↔
    ∃ i r, heads_of s !! i = Some r ∧ hd_key r = SourceKey SAssignment m ∧ hd_current r = Some rev.

Lemma names_self r : names_head (hd_cluster r) (hd_key r) r = true.
Proof. unfold names_head. rewrite andb_true_iff, orb_true_iff, !bool_decide_eq_true. auto. Qed.
Lemma names_same c k r r' : hd_cluster r' = hd_cluster r → hd_key r' = hd_key r → names_head c k r' = names_head c k r.
Proof. unfold names_head. by intros -> ->. Qed.
Lemma heads_put i row s : heads_of (put_head i row s) = <[i := row]> (heads_of s).
Proof. unfold put_head, view_head. by destruct (k_kind (hd_key row)). Qed.
Lemma revisions_put i row s : revisions_of (put_head i row s) = revisions_of s.
Proof. unfold put_head, view_head. by destruct (k_kind (hd_key row)). Qed.
Lemma core_heads_put i row s : core_heads (put_head i row s) =
  if decide (k_kind (hd_key row) = SAssignment)
  then match hd_current row with Some r => <[k_name (hd_key row) := r]> (core_heads s) | None => delete (k_name (hd_key row)) (core_heads s) end
  else core_heads s.
Proof. unfold put_head, view_head, core_heads. destruct (k_kind (hd_key row)) eqn:E; simpl; done. Qed.

Section Moved.
Context (cluster fresh : string) (h : sourceHead) (i : string) (row : head_row) (s : pdb) (Hm : head_moved cluster fresh h i row s).
Lemma moved_before r : heads_of s !! i = Some r →
  hd_revision row = hd_revision r + 1 ∧ hd_cluster row = hd_cluster r ∧ hd_key row = hd_key r ∧ hd_layer row = hd_layer r.
Proof using Hm.
  intros Hr. destruct Hm as [_ Hc]. destruct (sh_head h) as [i0|].
  - destruct Hc as (-> & r' & Hr' & Hb & Hb' & ? & ? & ? & _). assert (r' = r) as -> by congruence. split_and!; try done. lia.
  - destruct Hc as (_ & Hn & _). congruence.
Qed.
Lemma moved_grow : heads_grow s (put_head i row s).
Proof using Hm.
  intros j r Hr. rewrite heads_put. destruct (decide (j = i)) as [->|Hne].
  - rewrite lookup_insert_eq. exists row. split; [done|]. destruct (moved_before r Hr) as (? & ? & ? & ?). split_and!; try done; lia.
  - rewrite lookup_insert_ne by done. by exists r.
Qed.
Lemma moved_others j r : j ≠ i → heads_of s !! j = Some r → heads_unique s → names_head (hd_cluster row) (hd_key row) r = false.
Proof using Hm.
  intros Hne Hr Hu. destruct (heads_of s !! i) as [r0|] eqn:E.
  - destruct (moved_before r0 E) as (_ & Hcl & Hk & _). rewrite Hcl, Hk. apply not_true_is_false. intros Hn. destruct Hne. symmetry. by eapply Hu.
  - destruct Hm as [_ Hc]. destruct (sh_head h) as [i0|]; [destruct Hc as (-> & r' & ? & _); congruence|].
    destruct Hc as (_ & _ & _ & _ & Hall). by eapply Hall.
Qed.
Lemma names_sym r r' : names_head (hd_cluster r) (hd_key r) r' = true → names_head (hd_cluster r') (hd_key r') r = true.
Proof.
  unfold names_head. rewrite !andb_true_iff, !orb_true_iff, !bool_decide_eq_true. intros [Hk [Ha|Hc]]; (split; [done|]); [left; congruence|by right].
Qed.
Lemma moved_unique : heads_unique s → heads_unique (put_head i row s).
Proof using Hm.
  intros Hu j k r r'. rewrite heads_put, !lookup_insert_Some.
  intros [[<- <-]|[Hj Hr]] [[<- <-]|[Hk Hr']] Hn; [done| | |by eapply Hu].
  - rewrite (moved_others k r') in Hn by done. done.
  - apply names_sym in Hn. rewrite (moved_others j r) in Hn by done. done.
Qed.
Lemma moved_viewed : heads_unique s → heads_viewed s → heads_viewed (put_head i row s).
Proof using Hm.
  intros Hu Hv m rev. rewrite core_heads_put, heads_put. case_decide as Hk.
  - destruct (decide (m = k_name (hd_key row))) as [->|Hne].
    + trans (hd_current row = Some rev).
      { destruct (hd_current row) as [r|]; [rewrite lookup_insert_eq|rewrite lookup_delete_eq]; naive_solver. }
      split.
      * intros Hc. exists i, row. rewrite lookup_insert_eq. split_and!; try done. destruct (hd_key row). simpl in *. by subst.
      * intros (j & r & Hj & Hkr & Hc). apply lookup_insert_Some in Hj as [[<- <-]|[Hne Hr]]; [done|]. exfalso.
        assert (Hn : names_head (hd_cluster row) (hd_key row) r = false) by (by eapply moved_others).
        unfold names_head in Hn. rewrite Hkr in Hn. destruct (hd_key row) as [kk kn]. simpl in *. subst kk. by rewrite !bool_decide_true in Hn.
    + trans (core_heads s !! m = Some rev).
      { destruct (hd_current row); [by rewrite lookup_insert_ne|by rewrite lookup_delete_ne]. }
      rewrite (Hv m rev). split; intros (j & r & Hj & Hkr & Hc); exists j, r; split_and!; try done.
      * rewrite lookup_insert_ne; [done|]. intros <-. destruct (moved_before r Hj) as (_ & _ & Hkk & _). rewrite Hkk, Hkr in Hne. done.
      * apply lookup_insert_Some in Hj as [[<- <-]|[_ ?]]; [|done]. by rewrite Hkr in Hne.
  - rewrite (Hv m rev). split; intros (j & r & Hj & Hkr & Hc); exists j, r; split_and!; try done.
    + rewrite lookup_insert_ne; [done|]. intros <-. destruct (moved_before r Hj) as (_ & _ & Hkk & _). by rewrite Hkk, Hkr in Hk.
    + apply lookup_insert_Some in Hj as [[<- <-]|[_ ?]]; [|done]. by rewrite Hkr in Hk.
Qed.
End Moved.

(** ** The heads of a list *)

Lemma head_moved_back cluster fresh h i row s t :
  heads_grow s t → revisions_of t = revisions_of s → (∀ j, sh_head h = Some j → heads_of t !! j = heads_of s !! j) →
  head_moved cluster fresh h i row t → head_moved cluster fresh h i row s.
Proof.
  intros Hg Hr Hj [Hc Hm]. assert (Hrev : ∀ k r, revision_of k r t = revision_of k r s).
  { intros k r. unfold revision_of, revisions_of in *. injection Hr as E1 E2 E3 E4. by rewrite E1, E2, E3. }
  split; [done|]. destruct (sh_head h) as [i0|].
  - destruct Hm as (-> & r & Hr0 & H1 & H2 & H3 & H4 & H5 & H6). split; [done|]. exists r. rewrite (Hj i0 eq_refl) in Hr0. split_and!; try done.
    rewrite <-H6. unfold fits_head. destruct (sh_revision h); [|done]. by rewrite Hrev.
  - destruct Hm as (-> & Hn & H1 & (rev & Hsr & Hrv) & Hall). split; [done|]. split; [|split; [done|split]].
    + destruct (heads_of s !! fresh) as [r|] eqn:E; [|done]. destruct (Hg _ _ E) as (r' & Hr' & _). congruence.
    + exists rev. by rewrite <-Hrev.
    + intros j r Hrj. destruct (Hg _ _ Hrj) as (r' & Hr' & Hcl & Hk & _). rewrite <-(Hall j r' Hr'). symmetry. by apply names_same.
Qed.
(** What a changed head became, and an unchanged one. *)
Definition head_result (cluster : string) (s s' : pdb) (h h' : sourceHead) : Prop :=
  if sh_changed h
  then ∃ fresh i row, h' = moved_head h i (hd_revision row) ∧ heads_of s' !! i = Some row ∧ head_moved cluster fresh h i row s
  else h' = h.
Record heads_moved (cluster : string) (l l' : list sourceHead) (s s' : pdb) : Prop := HeadsMoved {
  hs_grow : heads_grow s s';
  hs_results : Forall2 (head_result cluster s s') l l';
  hs_others : ∀ i, (∀ h', h' ∈ l' → sh_changed h' = true → sh_head h' ≠ Some i) → heads_of s' !! i = heads_of s !! i;
  hs_revisions : revisions_of s' = revisions_of s;
  hs_unique : heads_unique s → heads_unique s';
  hs_viewed : heads_unique s → heads_viewed s → heads_viewed s' }.
Lemma moveHeads_ok cluster ids n l s l' s' :
  moveHeads cluster ids n l s = Ok (l', s') → NoDup (omap sh_head l) →
  (∀ h i, h ∈ l → sh_head h = Some i → is_Some (heads_of s !! i)) → heads_moved cluster l l' s s'.
Proof.
  revert n s l'. induction l as [|h l IH]; intros n s l' H Hd Hex.
  { simpl in H. m_inv. split; [done|constructor|done..]. }
  simpl in H. apply bind_ok in H as (h1 & s1 & H1 & H). apply bind_ok in H as (l1 & s2 & H2 & H). m_inv.
  assert (Hex' : ∀ h0 i, h0 ∈ l → sh_head h0 = Some i → is_Some (heads_of s !! i)) by (intros; eapply Hex; [by right|done]).
  assert (Hd' : NoDup (omap sh_head l)).
  { cbn in Hd. destruct (sh_head h); [by apply NoDup_cons in Hd as [_ ?]|done]. }
  destruct (sh_changed h) eqn:Ec.
  - apply moveHead_ok in H1 as (i & row & -> & -> & Hm).
    pose proof (moved_grow _ _ _ _ _ _ Hm) as Hg. pose proof (revisions_put i row s) as Hrv.
    assert (Hex1 : ∀ h0 j, h0 ∈ l → sh_head h0 = Some j → is_Some (heads_of (put_head i row s) !! j)).
    { intros h0 j Hin Hj. destruct (Hex' h0 j Hin Hj) as [r Hr]. destruct (Hg j r Hr) as (r' & Hr' & _). by exists r'. }
    destruct (IH _ _ _ H2 Hd' Hex1) as [Ig Ir Io Iv Iu Iw].
    assert (Hi : ∀ h0, h0 ∈ l → sh_head h0 ≠ Some i).
    { intros h0 Hin Hj. pose proof (hm_case _ _ _ _ _ _ Hm) as Hc. destruct (sh_head h) as [i0|] eqn:Eh.
      - destruct Hc as [-> _]. cbn in Hd. rewrite Eh in Hd. apply NoDup_cons in Hd as [Hn _]. apply Hn, list_elem_of_omap. by exists h0.
      - destruct Hc as (-> & Hn & _). destruct (Hex' h0 _ Hin Hj) as [r Hr]. congruence. }
    assert (Hl1 : ∀ h', h' ∈ l1 → sh_changed h' = true → sh_head h' ≠ Some i).
    { intros h' [k Hk]%list_elem_of_lookup Hch Hj. destruct (Forall2_lookup_r _ _ _ _ _ Ir Hk) as (h0 & Hk0 & Hres).
      assert (Hin : h0 ∈ l) by by apply list_elem_of_lookup; exists k. unfold head_result in Hres. destruct (sh_changed h0) eqn:E0.
      - destruct Hres as (f & j & row0 & -> & _ & [_ Hc]). injection Hj as ->. destruct (sh_head h0) as [j0|] eqn:Ej.
        + destruct Hc as [-> _]. by apply (Hi h0).
        + destruct Hc as (_ & Hn & _). by rewrite heads_put, lookup_insert_eq in Hn.
      - subst h'. congruence. }
    assert (Hrow : heads_of s2 !! i = Some row) by by rewrite (Io i Hl1), heads_put, lookup_insert_eq.
    split; [by etrans| | |by rewrite Iv| |].
    + constructor.
      * unfold head_result. rewrite Ec. by eexists _, i, row.
      * apply Forall2_same_length_lookup in Ir as [Hlen Hall]. apply Forall2_same_length_lookup. split; [done|]. intros k h0 h' Hk Hk'.
        specialize (Hall k h0 h' Hk Hk'). unfold head_result in *. destruct (sh_changed h0); [|done].
        destruct Hall as (f & j & row0 & -> & Hj & Hm0). exists f, j, row0. split; [done|]. split; [done|].
        apply (head_moved_back _ _ _ _ _ _ (put_head i row s) Hg Hrv); [|done]. intros j0 Hj0. rewrite heads_put, lookup_insert_ne; [done|].
        intros <-. apply (Hi h0); [|done]. apply list_elem_of_lookup. by exists k.
    + intros j Hj. rewrite (Io j), heads_put, lookup_insert_ne; [done| |].
      * intros <-. apply (Hj (moved_head h i (hd_revision row))); [by left|done|done].
      * intros h' Hin. apply Hj. by right.
    + intros Hu. by apply Iu, (moved_unique _ _ _ _ _ _ Hm).
    + intros Hu Hv. apply Iw; [by apply (moved_unique _ _ _ _ _ _ Hm)|by apply (moved_viewed _ _ _ _ _ _ Hm)].
  - apply ret_ok in H1 as [<- <-]. destruct (IH _ _ _ H2 Hd' Hex') as [Ig Ir Io Iv Iu Iw]. split; try done.
    + constructor; [|done]. unfold head_result. by rewrite Ec.
    + intros j Hj. apply Io. intros h' Hin. apply Hj. by right.
Qed.

(** ** The release's writes *)

Lemma heads_moved_ext cluster l l' s s' t t' :
  heads_of t = heads_of s → revisions_of t = revisions_of s → core_heads t = core_heads s →
  heads_of t' = heads_of s' → revisions_of t' = revisions_of s' → core_heads t' = core_heads s' →
  heads_moved cluster l l' s s' → heads_moved cluster l l' t t'.
Proof.
  intros E1 E2 E3 E1' E2' E3' [Ig Ir Io Iv Iu Iw].
  assert (Hb : ∀ f h i row, head_moved cluster f h i row s → head_moved cluster f h i row t).
  { intros f h i row. apply head_moved_back; [|by rewrite E2|by intros; rewrite E1]. intros j r Hr. exists r. rewrite <-E1. by split. }
  split; unfold heads_grow, heads_unique, heads_viewed in *; rewrite ?E1, ?E1', ?E2, ?E2', ?E3, ?E3'; try done.
  apply Forall2_same_length_lookup in Ir as [Hlen Hall]. apply Forall2_same_length_lookup. split; [done|]. intros k h h' Hk Hk'.
  specialize (Hall k h h' Hk Hk'). unfold head_result in *. destruct (sh_changed h); [|done].
  destruct Hall as (f & i & row & -> & Hi & Hm). exists f, i, row. split; [done|]. split; [by rewrite E1'|by apply Hb].
Qed.

Lemma moveHead_frame {B} (f : pdb → B) cluster fresh h : (∀ i r s, f (put_head i r s) = f s) → keeps f (moveHead cluster fresh h).
Proof. intros Hf s h' s' (i & row & -> & -> & _)%moveHead_ok. apply Hf. Qed.
Lemma moveHeads_frame {B} (f : pdb → B) cluster ids n l : (∀ i r s, f (put_head i r s) = f s) → keeps f (moveHeads cluster ids n l).
Proof.
  intros Hf. revert n. induction l as [|h l IH]; intros n; simpl; [apply keeps_ret|]. apply keeps_bind.
  - destruct (sh_changed h); [by apply moveHead_frame|apply keeps_ret].
  - intros h'. apply keeps_bind; [apply IH|intros; apply keeps_ret].
Qed.

(** Proves that a write leaves a table alone. *)
Ltac frame := intros; first [reflexivity|unfold put_head, view_head; destruct (k_kind _); reflexivity|unfold source_written; destruct (sh_revision _); reflexivity].
Section Commit.
Variables tick mtick : Z → Z.
Variable a : api.
Variables sha256 hex : string → string.

Definition desired_row (covered : list string) (rel m : string) (x : machine_state) : machine_state :=
  if bool_decide (m ∈ covered)
  then MachineState (ms_revision x + 1) (Some rel) (ms_applied x) (ms_digest x) (ms_source x) (ms_baseline x) else x.
Definition release_row_of (j : publishJob) (u : releaseUnit) (job : job_row) (dg ep : string) : released :=
  Released (pj_cluster j) (pj_draft j) (pj_revision j) dg (un_renderer u) (pj_op j) (jb_by job) (jb_role job) ep.
(** What a release's transaction leaves in the tables of drafts, sources, publication and operations;
    [release_recorded] is the rest of it. *)
Record release_written (rel : string) (j : publishJob) (u : releaseUnit) (heads : list sourceHead) (dg : string) (s s' : pdb) : Prop := ReleaseWritten {
  rw_owned : epoch (core s) = owner_epoch a ∧ owns_job a j (tick (clock (core s))) s = true;
  rw_release : ∃ job, jobs_of s !! pj_op j = Some job ∧ jb_draft job = pj_draft j ∧ jb_revision job = pj_revision j ∧ jb_role job = "publisher"
    ∧ release_rows s' = <[rel := release_row_of j u job dg (epoch (core s))]> (release_rows s);
  rw_new : release_rows s !! rel = None
    ∧ ∀ i r, release_rows s !! i = Some r → re_operation r ≠ pj_op j ∧ ¬ (re_draft r = pj_draft j ∧ re_revision r = pj_revision j);
  rw_machines : NoDup (um_machine <$> un_machines u) ∧ machine_rows s' = machine_inserts rel (un_machines u) ∪ machine_rows s
    ∧ ∀ m, m ∈ un_machines u → machine_rows s !! (rel, um_machine m) = None ∧ machine_refused (pj_cluster j) m s = None;
  rw_sources : ∃ left, heads_moved (pj_cluster j) heads left s s' ∧ NoDup (key_of_head <$> left)
    ∧ (∀ h, h ∈ left → names_key (pj_cluster j) (key_of_head h) (sh_revision h) s ∧ 1 ≤ sh_base h ∧ sources_rows s !! (rel, key_of_head h) = None)
    ∧ sources_rows s' = list_to_map ((λ h, ((rel, key_of_head h), source_row_of h)) <$> left) ∪ sources_rows s;
  rw_declared : checkDeclarations sha256 hex rel u s' = Ok None;
  rw_digest : releaseDigest sha256 rel s' = Some dg;
  rw_drafts : ∃ token, tdrafts s' = DraftTables (alter (publish_draft token rel) (pj_draft j) (dt_drafts (tdrafts s)))
    (dt_entries (tdrafts s)) (dt_imports (tdrafts s));
  rw_jobs : jobs_of s' = alter (with_lease None) (pj_op j) (jobs_of s);
  rw_ops : ops (core s') = alter (end_op Succeeded (Some (released_doc rel)) None) (pj_op j) (ops (core s));
  rw_desired : mstates (core s') = map_imap (λ m x, Some (desired_row (um_machine <$> un_machines u) rel m x)) (mstates (core s)) }.

Lemma writeRelease_ok ids j u heads dg s rel s' :
  writeRelease tick mtick a sha256 hex ids j u heads dg s = Ok (rel, s') →
  NoDup (omap sh_head heads) → (∀ h i, h ∈ heads → sh_head h = Some i → is_Some (heads_of s !! i)) →
  release_written rel j u heads dg s s'.
Proof.
  intros H Hd Hex. unfold writeRelease in H.
  apply bind_ok in H as ([] & s1 & H1 & H). apply bind_ok in H as (bad & s1' & [_ <-]%gets_ok & H). apply bind_ok in H as ([] & s1'' & [_ <-]%reject_ok & H).
  apply bind_ok in H as ([] & s2 & H2 & H). apply bind_ok in H as ([] & s3 & H3 & H). apply bind_ok in H as (left & s4 & H4 & H).
  apply bind_ok in H as ([] & s5 & H5 & H). apply bind_ok in H as (agreed & s5' & [Hag <-]%gets_ok & H).
  apply bind_ok in H as ([] & s5'' & [Hno <-]%reject_ok & H). apply bind_ok in H as ([] & s6 & H6 & H).
  apply bind_ok in H as ([] & s7 & <-%modify_ok & H). apply bind_ok in H as ([] & s8 & <-%modify_ok & H).
  apply bind_ok in H as (stored & s8' & [Hst <-]%gets_ok & H). apply bind_ok in H as ([] & s8'' & [Hdg <-]%failIf_ok & H).
  apply bind_ok in H as ([] & s9 & H9 & H). apply ret_ok in H as [<- <-].
  assert (K1 : ∀ B (f : pdb → B), (∀ x s, f (set_monitored x s) = f s) → f s1 = f s).
  { intros B f Hf. exact (seedStatuses_frame mtick f _ _ Hf _ _ _ H1). }
  assert (K6 : ∀ B (f : pdb → B), (∀ x s, f (set_monitored x s) = f s) → f s6 = f s5).
  { intros B f Hf. refine (keeps_each f _ _ _ _ _ _ H6). intros m. by apply insertDependencies_frame. }
  apply insertRelease_ok in H2 as (job & Hj1 & Hj2 & Hj3 & Hj4 & Hn1 & Hn2 & H2). apply machines_inserted in H3 as (H3 & Hm1 & Hm2 & Hm3).
  apply sources_inserted in H5 as (H5 & Hs1 & Hs2 & Hs3 & Hs4). apply finish_ok in H9 as (He & Hown & H9).
  set (rel := ci_release ids) in *.
  assert (K2 : ∀ B (f : pdb → B), (∀ r s, f (view_release rel r (update_publish (put_release rel r) s)) = f s) → f s2 = f s1) by (intros B f Hf; rewrite H2; apply Hf).
  assert (K3 : ∀ B (f : pdb → B), (∀ m s, f (machine_written rel m s) = f s) → f s3 = f s2) by (intros B f Hf; rewrite H3; by apply foldl_keep).
  assert (K4 : ∀ B (f : pdb → B), (∀ i r s, f (put_head i r s) = f s) → f s4 = f s3).
  { intros B f Hf. refine (moveHeads_frame f _ _ _ _ _ _ _ _ H4). done. }
  assert (K5 : ∀ B (f : pdb → B), (∀ h s, f (source_written rel h s) = f s) → f s5 = f s4) by (intros B f Hf; rewrite H5; by apply foldl_keep).
  assert (H78 : s9 = update_job (pj_op j) (with_lease None) (set_core (core s9) (update_draft (pj_draft j) (publish_draft (ci_token ids) rel)
    (set_desired (um_machine <$> un_machines u) rel s6)))) by (rewrite H9; reflexivity).
  assert (KA : ∀ B (f : pdb → B), (∀ x s, f (set_monitored x s) = f s) → (∀ r s, f (view_release rel r (update_publish (put_release rel r) s)) = f s) →
    (∀ m s, f (machine_written rel m s) = f s) → (∀ i r s, f (put_head i r s) = f s) → (∀ h s, f (source_written rel h s) = f s) → f s6 = f s).
  { intros B f F1 F2 F3 F4 F5. by rewrite (K6 _ f F1), (K5 _ f F5), (K4 _ f F4), (K3 _ f F3), (K2 _ f F2), (K1 _ f F1). }
  assert (Eown : owns_job a j (tick (clock (core s6))) s6 = owns_job a j (tick (clock (core s))) s) by (apply (KA _ (λ s, owns_job a j (tick (clock (core s))) s)); frame).
  assert (Eep : epoch (core s6) = epoch (core s)) by (apply (KA _ (λ s, epoch (core s))); frame).
  assert (Eep1 : epoch (core s1) = epoch (core s)) by (apply (K1 _ (epoch ∘ core)); frame).
  assert (Eops : ops (core s6) = ops (core s)) by (apply (KA _ (λ s, ops (core s))); frame).
  assert (Ems : mstates (core s6) = mstates (core s)) by (apply (KA _ (λ s, mstates (core s))); frame).
  assert (Edr : tdrafts s6 = tdrafts s) by (apply (KA _ tdrafts); frame).
  assert (Ejobs : jobs_of s6 = jobs_of s) by (apply (KA _ jobs_of); frame).
  assert (Erv : ∀ t, t = s4 ∨ t = s6 → ∀ k r, revision_of k r t = revision_of k r s).
  { intros t [-> | ->] k r.
    - rewrite (K4 _ (revision_of k r)), (K3 _ (revision_of k r)), (K2 _ (revision_of k r)), (K1 _ (revision_of k r)); [done|frame..].
    - apply (KA _ (revision_of k r)); frame. }
  split.
  - by rewrite <-Eown, <-Eep.
  - exists job. rewrite <-(K1 _ jobs_of) by frame. split_and!; try done. trans (release_rows s6); [by rewrite H9|].
    rewrite (K6 _ release_rows), (K5 _ release_rows), (K4 _ release_rows), (K3 _ release_rows) by frame. rewrite H2.
    rewrite <-(K1 _ release_rows) by frame. by rewrite <-Eep1.
  - rewrite <-(K1 _ release_rows) by frame. done.
  - split; [done|]. split.
    + trans (machine_rows s6); [by rewrite H9|].
      rewrite (K6 _ machine_rows), (K5 _ machine_rows), (K4 _ machine_rows), Hm3, (K2 _ machine_rows), (K1 _ machine_rows) by frame. done.
    + intros m Hm. destruct (Hm2 m Hm) as [H3a H3b]. rewrite (K2 _ machine_rows), (K1 _ machine_rows) in H3a by frame.
      rewrite (K2 _ (machine_refused _ m)), (K1 _ (machine_refused _ m)) in H3b by frame. done.
  - exists left. split; [|split; [done|split]].
    + apply (heads_moved_ext _ _ _ s3 s4); [..|eapply moveHeads_ok; [exact H4|done|]].
      * symmetry. rewrite (K3 _ heads_of), (K2 _ heads_of), (K1 _ heads_of) by frame. done.
      * symmetry. rewrite (K3 _ revisions_of), (K2 _ revisions_of), (K1 _ revisions_of) by frame. done.
      * symmetry. rewrite (K3 _ core_heads), (K2 _ core_heads), (K1 _ core_heads) by frame. done.
      * trans (heads_of s6); [by rewrite H9|]. by rewrite (K6 _ heads_of), (K5 _ heads_of) by frame.
      * trans (revisions_of s6); [by rewrite H9|]. by rewrite (K6 _ revisions_of), (K5 _ revisions_of) by frame.
      * trans (core_heads s6); [by rewrite H9|]. by rewrite (K6 _ core_heads), (K5 _ core_heads) by frame.
      * intros h i Hin Hi. rewrite (K3 _ heads_of), (K2 _ heads_of), (K1 _ heads_of) by frame. by eapply Hex.
    + intros h Hin. destruct (Hs2 h Hin) as [Hk Hb]. split; [|split; [done|]].
      * intros r Hr. destruct (Hk r Hr) as [layer Hl]. exists layer. rewrite <-Hl. symmetry. apply Erv. by left.
      * rewrite <-(Hs3 h Hin). by rewrite (K4 _ sources_rows), (K3 _ sources_rows), (K2 _ sources_rows), (K1 _ sources_rows) by frame.
    + trans (sources_rows s6); [by rewrite H9|]. rewrite (K6 _ sources_rows), Hs4 by frame.
      by rewrite (K4 _ sources_rows), (K3 _ sources_rows), (K2 _ sources_rows), (K1 _ sources_rows) by frame.
  - trans (checkDeclarations sha256 hex rel u s6); [by rewrite H9|]. rewrite (K6 _ (checkDeclarations sha256 hex rel u)) by frame.
    rewrite Hag. destruct agreed as [[c|]|e]; done.
  - apply unless_ok in Hdg. subst stored. rewrite <-Hdg. by rewrite H9.
  - exists (ci_token ids). rewrite <-Edr. by rewrite H9.
  - rewrite <-Ejobs. by rewrite H9.
  - rewrite <-Eops. by rewrite H9.
  - rewrite <-Ems. by rewrite H9.
Qed.

(** ** The commit *)

Record inputs_locked (j : publishJob) (u : releaseUnit) (heads : list sourceHead) (x : locked_inputs) (s : pdb) : Prop := InputsLocked {
  il_heads : Forall2 (λ h h', lock_head s h = Some h') (heads ++ (unchanged_head <$> un_unchanged u)) (li_heads x);
  il_once : NoDup (omap sh_head (li_heads x));
  il_locked : li_locked x = merge_sort head_before (li_heads x);
  il_bases : li_bases x = bases_of (pj_cluster j) (pj_draft j) s;
  il_covered : NoDup (um_machine <$> un_machines u) ∧ ∀ m, m ∈ um_machine <$> un_machines u →
    is_Some (machines (core s) !! m) ∧ is_Some (assoc m (li_bases x)) }.
Lemma lockInputs_ok j u heads s x s' : lockInputs j u heads s = Ok (x, s') → s' = s ∧ inputs_locked j u heads x s.
Proof.
  unfold lockInputs. intros H. m_inv. split; [done|].
  repeat match goal with H : negb _ = false |- _ => apply negb_false_iff in H | H : _ && _ = true |- _ => apply andb_true_iff in H as [? ?] end.
  match goal with H : mapM _ _ = Some _ |- _ => apply mapM_Some in H end.
  split; [assumption|assumption|reflexivity|reflexivity|]. split; [by eapply bool_decide_eq_true_1|]. intros m Hm.
  repeat match goal with H : forallb _ _ = true |- _ => rewrite forallb_forall in H end.
  split; eapply bool_decide_eq_true; [apply H|apply H2]; by apply list_elem_of_In.
Qed.
Lemma first_refusal_none {A} (f : A → option err) l : first_refusal f l = None ↔ ∀ x, x ∈ l → f x = None.
Proof.
  induction l as [|x l IH]; simpl; [split; [by intros _ x ?%elem_of_nil|done]|]. destruct (f x) eqn:E.
  - split; [done|]. intros H. rewrite H in E; [done|by left].
  - rewrite IH. split; [|intros H y Hy; apply H; by right]. intros H y [->|Hy]%elem_of_cons; [done|by apply H].
Qed.
Lemma lock_head_ok s h h' : lock_head s h = Some h' →
  sh_kind h' = sh_kind h ∧ sh_head h' = sh_head h ∧ sh_revision h' = sh_revision h ∧ sh_base h' = sh_base h ∧ sh_changed h' = sh_changed h
  ∧ match sh_head h with
    | None => h' = h
    | Some i => ∃ r, heads_of s !! i = Some r ∧ hd_key r = key_of_head h' ∧ sh_actual h' = hd_revision r
    end.
Proof.
  unfold lock_head. destruct (sh_head h) as [i|] eqn:E; [|by intros [= ->]]. destruct (st_heads (tsources s) !! i) as [r|] eqn:Er; [|done].
  simpl. case_bool_decide as Hk; [|done]. intros [= <-]. simpl. split_and!; try done. exists r. split_and!; try done.
  unfold key_of_head. simpl. rewrite <-Hk. by destruct (hd_key r).
Qed.
Definition locked_content (j : publishJob) (u : releaseUnit) (x : locked_inputs) : string := digest sha256 (content_of j u (li_heads x)).
Lemma commitRelease_ok ids j u heads s rel wrote s' :
  commitRelease tick mtick a sha256 hex ids j u heads s = Ok ((rel, wrote), s') →
  epoch (core s) = owner_epoch a ∧ ∃ x d op, inputs_locked j u heads x s ∧ dt_drafts (tdrafts s) !! pj_draft j = Some d
  ∧ ops (core s) !! pj_op j = Some op ∧ op_kind_of op = KPublish
  ∧ match existing_release j s with
    | Some (i, r) => wrote = false ∧ rel = i ∧ re_digest r = locked_content j u x
        ∧ (op_st op = Succeeded ∧ op_result op = Some (released_doc i) ∧ s' = s
           ∨ finishPublish tick a j Succeeded (Some (released_doc i)) None "succeeded" s = Ok (tt, s'))
    | None => wrote = true ∧ rel = ci_release ids
        ∧ checkInputs j u d (li_heads x) (li_locked x) (li_bases x) s = None
        ∧ (∀ m, m ∈ un_machines u → publicationEvidence a j (um_machine m) (um_observation m) (rn_contract (un_renderer u)) true s = None)
        ∧ release_written rel j u (li_heads x) (locked_content j u x) s s'
    end.
Proof.
  intros H. unfold commitRelease in H.
  apply bind_ok in H as (cur & t & [<- <-]%gets_ok & H). apply bind_ok in H as ([] & t & [He <-]%failIf_ok & H).
  apply bind_ok in H as (x & t & [-> Hx]%lockInputs_ok & H). apply bind_ok in H as (d & t & [Hd <-]%getsOr_ok & H).
  apply bind_ok in H as (op & t & [Ho <-]%getsOr_ok & H). apply bind_ok in H as (found & t & [<- <-]%gets_ok & H).
  apply unless_ok in He. split; [done|]. exists x, d, op.
  destruct (ops (core s) !! pj_op j) as [o|]; [|done]. simpl in Ho. case_bool_decide as Hk; [|done]. injection Ho as ->.
  split_and!; try done. destruct (existing_release j s) as [[i r]|].
  - unfold meetRelease in H. simpl in H. fold (locked_content j u x) in *. case_bool_decide as Hs; simpl in H.
    + destruct (bool_decide (op_st op = Succeeded) && _) eqn:E.
      * m_inv. apply andb_true_iff in E as [E1 E2]. apply bool_decide_eq_true in E1, E2. injection H as <- <-.
        do 3 (split; [done|]). by left.
      * apply bind_ok in H as ([] & t & H & [[= <- <-] <-]%ret_ok). do 3 (split; [done|]). by right.
    + done.
  - apply bind_ok in H as (bad & t & [<- <-]%gets_ok & H). apply bind_ok in H as ([] & t & [Hb <-]%reject_ok & H).
    apply bind_ok in H as (bad & t & [<- <-]%gets_ok & H). apply bind_ok in H as ([] & t & [Hb2 <-]%reject_ok & H).
    apply bind_ok in H as (rel0 & t & H & [[= <- <-] <-]%ret_ok). split; [done|].
    assert (Hrel : rel0 = ci_release ids).
    { clear -H. unfold writeRelease in H. repeat (apply bind_ok in H as (? & ? & _ & H)). by apply ret_ok in H as [<- _]. }
    split; [done|]. split; [done|]. split; [by apply first_refusal_none|].
    eapply writeRelease_ok; [exact H|apply Hx|]. intros h i Hin Hi. destruct Hx as [Hh _ _ _ _].
    apply list_elem_of_lookup in Hin as [k Hk']. destruct (Forall2_lookup_r _ _ _ _ _ Hh Hk') as (h0 & _ & Hl).
    apply lock_head_ok in Hl as (_ & Hsh & _ & _ & _ & Hm). rewrite <-Hsh, Hi in Hm. destruct Hm as (r & Hr & _). by exists r.
Qed.
End Commit.

(** ** What the transaction records beside the release: dependencies, statuses and its event *)

Section Recorded.
Variables tick mtick : Z → Z.
Variable a : api.
Variables sha256 hex : string → string.

(** A status of the unit as its row is seeded, where no row has its identity. *)
Definition seed_row (x : unitStatus) (at_ : Z) : Monitor.status_row :=
  let r := us_result x in
  Monitor.StatusRow (status_identity x)
    (Monitor.Status Retained (r_reason r) (Monitor.kept (us_began x)) zero_time zero_time
      (if bool_decide (r_reason r = DeletionScheduled) then Monitor.kept (r_deletion r) else zero_time) zero_time)
    (Monitor.kept (us_began x)) at_ (r_date r).
Definition seed_one (id_ : string) (x : unitStatus) (d : Monitor.mdb) : Monitor.mdb :=
  let at_ := Monitor.kept (mtick (Monitor.m_clock d)) in
  let d1 := Monitor.set_clock at_ d in
  if Monitor.seeded (status_identity x) d || bool_decide (is_Some (Monitor.m_statuses d !! id_)) then d1
  else Monitor.set_statuses (<[id_ := seed_row x at_]> (Monitor.m_statuses d)) d1.
Fixpoint seed_all (ids : nat → string) (n : nat) (l : list unitStatus) (d : Monitor.mdb) : Monitor.mdb :=
  match l with [] => d | x :: l => seed_all ids (S n) l (seed_one (ids n) x d) end.
Definition depend_all (rel : string) (l : list Monitor.identity) (d : Monitor.mdb) : Monitor.mdb :=
  Monitor.Mdb (Monitor.m_epoch d) (Monitor.m_clock d) (Monitor.m_statuses d) (reverse (pair rel <$> l) ++ Monitor.m_deps d)
    (Monitor.m_monitor d) (Monitor.m_alerts d) (Monitor.m_seq d).
(** What a status row of a version the unit depends on may say of it: the creation time the unit names,
    and for that identity that it is retained, or was recorded before the unit's own classification began. *)
Definition row_admits (u : releaseUnit) (i : Monitor.identity) (x : Monitor.status_row) : Prop :=
  let k := Monitor.sr_identity x in
  (Monitor.i_provider i = "kv" → Monitor.i_created k = Monitor.i_created i)
  ∧ (k = i → Monitor.st_class (Monitor.sr_status x) = Retained ∨ ∃ b, began_of u i = Some b ∧ Monitor.sr_recorded x < b).
(** The monitor's tables and the operation's events after a release's transaction, and what it checked
    of them. *)
Record release_recorded (ids : nat → string) (rel : string) (j : publishJob) (u : releaseUnit) (s s' : pdb) : Prop := ReleaseRecorded {
  rr_monitored : monitored s' = depend_all rel (named_identities u) (seed_all ids 0 (merge_sort status_before (un_statuses u)) (monitored s));
  rr_retained x : x ∈ un_statuses u → r_class (us_result x) = Retained;
  rr_classified i : i ∈ named_identities u → is_Some (began_of u i);
  rr_status i : i ∈ named_identities u → ∃ k row, Monitor.m_statuses (monitored s') !! k = Some row ∧ Monitor.sr_identity row = i;
  rr_admitted i k row : i ∈ named_identities u → Monitor.m_statuses (monitored s') !! k = Some row →
    same_version (Monitor.sr_identity row) i = true → row_admits u i row;
  rr_keys m : m ∈ un_machines u → dependency_keys_unique m = true ∧ key_version (um_ciphertext m) = Some (ud_version (um_encryption m));
  rr_event : let n := default 0 (op_events (rlog (core s)) !! pj_op j) + 1 in
    rlog (core s') = with_fact (FOperationEvent (pj_op j) n (owner_epoch a) "publish" "succeeded") (with_op_event (pj_op j) n (rlog (core s))) }.

Lemma in_monitor_ok {A} (m : M Monitor.mdb Monitor.monitor_error A) s x s' : in_monitor m s = Ok (x, s') →
  ∃ d, m (monitored s) = Ok (x, d) ∧ s' = set_monitored d s.
Proof using. unfold in_monitor. destruct (m (monitored s)) as [[y d]|[]]; try done. intros [= -> <-]. by exists d. Qed.
Lemma seed_one_ok id_ x s v s' :
  in_monitor (Monitor.seedStatus mtick id_ (status_identity x) (us_result x) (us_began x)) s = Ok (v, s') →
  s' = set_monitored (seed_one id_ x (monitored s)) s.
Proof using.
  intros (d & H & ->)%in_monitor_ok. f_equal. unfold Monitor.seedStatus, Monitor.clock, Monitor.check in H. m_inv.
  unfold seed_one. lazymatch goal with H : (if ?b then _ else _) _ = Ok _ |- context [if ?c then _ else _] => change b with c in H; destruct c end; m_inv; done.
Qed.
Lemma seed_each_ok ids n l s v s' : seed_each mtick ids n l s = Ok (v, s') →
  s' = set_monitored (seed_all ids n l (monitored s)) s ∧ ∀ x, x ∈ l → r_class (us_result x) = Retained.
Proof using.
  revert n s. induction l as [|x l IH]; intros n s H; simpl in H.
  - apply ret_ok in H as [_ <-]. split; [by destruct s|by intros x ?%elem_of_nil].
  - apply bind_ok in H as ([] & t & [Hc <-]%failIf_ok & H). apply bind_ok in H as ([] & t & ->%seed_one_ok & H).
    apply IH in H as [-> H]. split; [done|]. intros y [->|Hy]%elem_of_cons; [by apply unless_ok in Hc|by apply H].
Qed.
Lemma depend_one rel i s v s' : in_monitor (Monitor.insertDependency rel i) s = Ok (v, s') →
  s' = set_monitored (depend_all rel [i] (monitored s)) s ∧ ∃ k row, Monitor.m_statuses (monitored s) !! k = Some row ∧ Monitor.sr_identity row = i.
Proof using.
  intros (d & H & ->)%in_monitor_ok. unfold Monitor.insertDependency in H. m_inv. split; [done|].
  match goal with H : bool_decide _ = true |- _ => apply bool_decide_eq_true in H as (k & row & ? & ?) | H : map_Exists _ _ |- _ => destruct H as (k & row & ? & ?) end.
  by exists k, row.
Qed.
(** The statements that add dependencies leave the store with these added, each of a version with a status. *)
Definition depends {A} (m : PT A) (rel : string) (l : list Monitor.identity) : Prop := ∀ s v s', m s = Ok (v, s') →
  s' = set_monitored (depend_all rel l (monitored s)) s
  ∧ ∀ i, i ∈ l → ∃ k row, Monitor.m_statuses (monitored s) !! k = Some row ∧ Monitor.sr_identity row = i.
Lemma depends_nil rel s : set_monitored (depend_all rel [] (monitored s)) s = s.
Proof using. unfold depend_all. simpl. destruct s as [c [] g d e f]. done. Qed.
Lemma depends_bind {A B} (m : PT A) (k : A → PT B) rel l l' : depends m rel l → (∀ x, depends (k x) rel l') → depends (m ≫= k) rel (l ++ l').
Proof using.
  intros Hm Hk s v s' (x & t & H1 & H2)%bind_ok. apply Hm in H1 as [-> H1]. apply Hk in H2 as [-> H2]. split.
  - unfold depend_all, set_monitored. simpl. rewrite fmap_app, reverse_app. by rewrite <-app_assoc.
  - intros i [Hi|Hi]%elem_of_app; [by apply H1|by apply H2].
Qed.
Lemma depends_check b (e : err) rel : depends (failIf b e) rel [].
Proof using. intros s v s' [_ <-]%failIf_ok. rewrite depends_nil. split; [done|]. by intros i ?%elem_of_nil. Qed.
Lemma depends_one rel i : depends (in_monitor (Monitor.insertDependency rel i)) rel [i].
Proof using. intros s v s' [-> H]%depend_one. split; [done|]. by intros k ->%list_elem_of_singleton. Qed.
Lemma depends_each {A} (f : A → PT unit) (g : A → list Monitor.identity) rel l : (∀ x, depends (f x) rel (g x)) → depends (each f l) rel (l ≫= g).
Proof using.
  intros Hf. induction l as [|x l IH]; simpl.
  - intros s v s' [_ <-]%ret_ok. rewrite depends_nil. split; [done|]. by intros i ?%elem_of_nil.
  - by apply depends_bind.
Qed.
Lemma dependencies_inserted rel m : depends (insertDependencies rel m) rel (machine_identities m).
Proof using.
  unfold insertDependencies, machine_identities. rewrite fmap_app. rewrite <-app_assoc, <-(app_nil_l (_ ++ _)).
  assert (He : ∀ l, depends (each (λ d, in_monitor (Monitor.insertDependency rel (dep_identity "kv" d))) l) rel (dep_identity "kv" <$> l)).
  { intros l. replace (dep_identity "kv" <$> l) with (l ≫= λ d, [dep_identity "kv" d]) by (induction l as [|d l IH]; [done|]; csimpl; by rewrite IH).
    apply depends_each. intros. apply depends_one. }
  repeat first [apply depends_check|apply depends_one|apply He|apply depends_bind; [|intros ?]].
  rewrite <-(app_nil_l [_]). apply depends_bind; [apply depends_check|intros; apply depends_one].
Qed.
Lemma dependencies_keyed rel l s v s' : each (insertDependencies rel) l s = Ok (v, s') →
  ∀ m, m ∈ l → dependency_keys_unique m = true ∧ key_version (um_ciphertext m) = Some (ud_version (um_encryption m)).
Proof using.
  revert s. induction l as [|x l IH]; intros s; [by intros _ m ?%elem_of_nil|]. intros (w & t & H1 & H2)%each_cons m [->|Hm]%elem_of_cons; [|by eapply IH].
  unfold insertDependencies in H1. apply bind_ok in H1 as (? & ? & [Hu _]%failIf_ok & H1). apply bind_ok in H1 as (? & ? & _ & H1).
  apply bind_ok in H1 as (? & ? & _ & H1). apply bind_ok in H1 as (? & ? & [Hk _]%failIf_ok & H1). apply negb_false_iff in Hu.
  split; [done|by apply unless_ok in Hk].
Qed.

Lemma rows_elem s row : row ∈ status_rows s ↔ ∃ k, Monitor.m_statuses (monitored s) !! k = Some row.
Proof using.
  unfold status_rows. rewrite list_elem_of_omap. split; [intros (k & _ & H); by exists k|]. intros [k H]. exists k. split; [|done].
  apply sorted_elem, list_elem_of_fmap. exists (k, row). split; [done|]. by apply elem_of_map_to_list.
Qed.
Lemma same_version_spec i k : same_version i k = true ↔
  Monitor.i_provider i = Monitor.i_provider k ∧ Monitor.i_object i = Monitor.i_object k ∧ Monitor.i_version i = Monitor.i_version k.
Proof using.
  unfold same_version. rewrite !andb_true_iff, !bool_decide_eq_true, Z.eqb_eq. naive_solver.
Qed.
Lemma named_once u i : misnamed u = false → i ∈ named_identities u →
  is_Some (began_of u i) ∧ ∀ k, k ∈ named_identities u → same_version i k = true → Monitor.i_created i = Monitor.i_created k.
Proof using.
  unfold misnamed. intros H Hi. apply not_true_iff_false in H. rewrite existsb_exists in H. split.
  - destruct (began_of u i) eqn:E; [by eexists|]. exfalso. apply H. exists i. split; [by apply list_elem_of_In|]. by rewrite E.
  - intros k Hk Hs. destruct (decide (Monitor.i_created i = Monitor.i_created k)) as [|Hne]; [done|]. exfalso. apply H. exists i.
    split; [by apply list_elem_of_In|]. apply orb_true_iff. right. apply existsb_exists. exists k. split; [by apply list_elem_of_In|].
    by rewrite Hs, bool_decide_false.
Qed.
Lemma recheck_admits u s i k row : recheckStatuses u s = None → i ∈ named_identities u → Monitor.m_statuses (monitored s) !! k = Some row →
  same_version (Monitor.sr_identity row) i = true → is_Some (began_of u i) ∧ row_admits u i row.
Proof using.
  unfold recheckStatuses. destruct (misnamed u) eqn:Em; [done|]. intros Hn Hi Hr Hs. destruct (named_once u i Em Hi) as [Hb Hone].
  split; [done|]. assert (Hf : status_refusal u row = None).
  { destruct (omap (status_refusal u) (status_rows s)) eqn:E; [|done]. rewrite omap_none in E. apply E, rows_elem. by exists k. }
  unfold status_refusal in Hf. destruct (find (same_version (Monitor.sr_identity row)) (named_identities u)) as [k'|] eqn:Ef.
  - apply find_some in Ef as [Hin Hs']. apply list_elem_of_In in Hin. assert (Hc : Monitor.i_created i = Monitor.i_created k').
    { apply Hone; [done|]. apply same_version_spec in Hs as (? & ? & ?), Hs' as (? & ? & ?). apply same_version_spec. split_and!; congruence. }
    rewrite <-Hc in Hf. apply same_version_spec in Hs as (Hp & Ho & Hv). unfold row_admits. rewrite <-Hp. cbv zeta.
    destruct (decide (Monitor.i_created (Monitor.sr_identity row) = Monitor.i_created i)) as [Heq|Hne].
    + rewrite bool_decide_true in Hf by done. simpl in Hf. split; [done|]. intros Hk. rewrite Hk in Hf. destruct Hb as [b Hb].
      rewrite Hb in Hf. simpl in Hf. destruct (decide (Monitor.st_class (Monitor.sr_status row) = Retained)); [by left|right].
      rewrite bool_decide_false in Hf by done. simpl in Hf. destruct (Z.ltb_spec (Monitor.sr_recorded row) b); [by exists b|done].
    + rewrite bool_decide_false in Hf by done. simpl in Hf. case_bool_decide; [done|]. split; [done|]. intros Hk. by rewrite Hk in Hne.
  - exfalso. eapply find_none in Ef; [|by apply list_elem_of_In]. congruence.
Qed.
Lemma recheck_same u s s' : Monitor.m_statuses (monitored s') = Monitor.m_statuses (monitored s) → recheckStatuses u s' = recheckStatuses u s.
Proof using. unfold recheckStatuses, status_rows. by intros ->. Qed.

Definition recorded_part (s : pdb) := (monitored s, rlog (core s)).
Lemma rows_unrecorded rel j u dg ids heads s s1 s2 s3 s4 : ∀ v1 v2 left v4,
  insertRelease rel j u dg s = Ok (v1, s1) → each (insertReleaseMachine rel (pj_cluster j)) (un_machines u) s1 = Ok (v2, s2) →
  moveHeads (pj_cluster j) ids 0 heads s2 = Ok (left, s3) → each (insertSource rel (pj_cluster j)) left s3 = Ok (v4, s4) →
  recorded_part s4 = recorded_part s.
Proof using.
  intros v1 v2 left v4 H1 H2 H3 H4. trans (recorded_part s3); [|trans (recorded_part s2); [|trans (recorded_part s1)]].
  - refine (keeps_each recorded_part _ _ _ _ _ _ H4). intros h. unfold insertSource, fresh_revision. solve_keeps.
  - refine (moveHeads_frame recorded_part _ _ _ _ _ _ _ _ H3). frame.
  - refine (keeps_each recorded_part _ _ _ _ _ _ H2). intros h. unfold insertReleaseMachine, fresh_revision. solve_keeps.
  - assert (K : keeps recorded_part (insertRelease rel j u dg)) by (unfold insertRelease, fresh_revision; solve_keeps). by eapply K.
Qed.
Lemma writeRelease_recorded ids j u heads dg s rel s' :
  writeRelease tick mtick a sha256 hex ids j u heads dg s = Ok (rel, s') → release_recorded (ci_status ids) rel j u s s'.
Proof using.
  intros H. unfold writeRelease in H.
  apply bind_ok in H as ([] & s1 & [-> H1]%seed_each_ok & H). apply bind_ok in H as (bad & s1' & [<- <-]%gets_ok & H).
  apply bind_ok in H as ([] & s1'' & [Hb <-]%reject_ok & H). apply bind_ok in H as ([] & s2 & H2 & H). apply bind_ok in H as ([] & s3 & H3 & H).
  apply bind_ok in H as (left & s4 & H4 & H). apply bind_ok in H as ([] & s5 & H5 & H). apply bind_ok in H as (agreed & s5' & [_ <-]%gets_ok & H).
  apply bind_ok in H as ([] & s5'' & [_ <-]%reject_ok & H). apply bind_ok in H as ([] & s6 & H6 & H).
  pose proof (dependencies_keyed _ _ _ _ _ H6) as Hk. apply (depends_each _ machine_identities (ci_release ids)) in H6 as [-> Hs]; [|apply dependencies_inserted].
  apply bind_ok in H as ([] & s7 & <-%modify_ok & H). apply bind_ok in H as ([] & s8 & <-%modify_ok & H).
  apply bind_ok in H as (stored & s8' & [_ <-]%gets_ok & H). apply bind_ok in H as ([] & s8'' & [_ <-]%failIf_ok & H).
  apply bind_ok in H as ([] & s9 & (_ & _ & ->)%finish_ok & H). apply ret_ok in H as [<- <-].
  pose proof (rows_unrecorded _ _ _ _ _ _ _ _ _ _ _ _ _ _ _ H2 H3 H4 H5) as E. injection E as Em Er.
  rewrite Em in Hs. set (d := seed_all _ _ _ _) in *. change (∀ i, i ∈ named_identities u →
    ∃ k row, Monitor.m_statuses d !! k = Some row ∧ Monitor.sr_identity row = i) in Hs.
  assert (Hmon : monitored s5 = d) by done. split; simpl; try done.
  - by rewrite Hmon.
  - intros x Hx. apply H1. by rewrite merge_sort_Permutation.
  - intros i Hi. destruct (Hs i Hi) as (k & row & Hr & <-). eapply (recheck_admits u (set_monitored d s)); [done|done|exact Hr|by apply same_version_spec].
  - rewrite Hmon. done.
  - intros i k row Hi Hr Hv. rewrite Hmon in Hr. by eapply (recheck_admits u (set_monitored d s)).
  - by rewrite Er.
Qed.
Lemma commitRelease_recorded ids j u heads s rel s' :
  commitRelease tick mtick a sha256 hex ids j u heads s = Ok ((rel, true), s') → release_recorded (ci_status ids) rel j u s s'.
Proof using.
  intros H. unfold commitRelease in H. do 6 (apply bind_ok in H as (? & ? & ?H & H)).
  repeat match goal with H : gets _ _ = Ok _ |- _ => apply gets_ok in H as [_ <-] | H : getsOr _ _ _ = Ok _ |- _ => apply getsOr_ok in H as [_ <-]
    | H : failIf _ _ _ = Ok _ |- _ => apply failIf_ok in H as [_ <-] | H : lockInputs _ _ _ _ = Ok _ |- _ => apply lockInputs_ok in H as [-> _] end.
  case_match.
  - unfold meetRelease in H. repeat case_match; m_inv; try done.
  - apply bind_ok in H as (? & ? & [_ <-]%gets_ok & H). apply bind_ok in H as (? & ? & [_ <-]%reject_ok & H).
    apply bind_ok in H as (? & ? & [_ <-]%gets_ok & H). apply bind_ok in H as (? & ? & [_ <-]%reject_ok & H).
    apply bind_ok in H as (rel0 & ? & H & [[= <-] <-]%ret_ok). by eapply writeRelease_recorded.
Qed.
End Recorded.

(** ** What an act on a draft leaves: the draft one revision on, with one entry or import of its own
    set, every other draft, head and publication row as it was. *)

Definition drafts_of (s : pdb) : gmap string draft_row := dt_drafts (tdrafts s).
Definition entries_of (s : pdb) := dt_entries (tdrafts s).
Definition imports_of (s : pdb) := dt_imports (tdrafts s).
(** The revisions of sources and import bases are only added. *)
Definition revisions_grow (s s' : pdb) : Prop :=
  st_fragments (tsources s) ⊆ st_fragments (tsources s') ∧ st_profiles (tsources s) ⊆ st_profiles (tsources s')
  ∧ st_assignments (tsources s) ⊆ st_assignments (tsources s') ∧ st_bases (tsources s) ⊆ st_bases (tsources s').
#[export] Instance revisions_grow_preorder : PreOrder revisions_grow.
Proof. split; [by repeat split|]. intros x y z (?&?&?&?) (?&?&?&?). split_and!; by etrans. Qed.
Lemma revisions_same s s' : revisions_of s' = revisions_of s → revisions_grow s s'.
Proof. unfold revisions_of, revisions_grow. intros [= -> -> -> ->]. by split_and!. Qed.
Lemma revision_kept k rev s s' x : revisions_grow s s' → revision_of k rev s = Some x → revision_of k rev s' = Some x.
Proof.
  intros (H1 & H2 & H3 & _). unfold revision_of.
  destruct k; intros (v & Hv & ->)%fmap_Some; [rewrite (lookup_weaken _ _ _ _ Hv H1)|rewrite (lookup_weaken _ _ _ _ Hv H2)|
    rewrite (lookup_weaken _ _ _ _ Hv H3)]; done.
Qed.
(** A key's head in a draft's cluster. *)
Definition head_in (cluster : string) (k : source_key) (i : string) (r : head_row) (s : pdb) : Prop :=
  heads_of s !! i = Some r ∧ hd_cluster r = cluster ∧ hd_key r = k.
(** The base of an entry first made at a store. *)
Definition base_at (cluster : string) (k : source_key) (b : option Z) (s : pdb) : Prop :=
  match b with
  | Some b => ∃ i r, head_in cluster k i r s ∧ hd_revision r = b
  | None => ∀ i r, ¬ head_in cluster k i r s
  end.
(** The publish operations are left alone. *)
Definition publishes_kept (s s' : pdb) : Prop :=
  ∀ id o, op_kind_of o = KPublish → ops (core s) !! id = Some o ↔ ops (core s') !! id = Some o.
Definition edited_row (d : draft_row) (st : draft_state) (token : string) : draft_row :=
  DraftRow (df_cluster d) st (df_revision d + 1) token (df_release d).
Record edited (i : string) (s s' : pdb) : Prop := Edited {
  ed_draft : ∃ d token st, drafts_of s !! i = Some d ∧ df_state d = DOpen ∧ st ≠ DPublished
    ∧ drafts_of s' = <[i := edited_row d st token]> (drafts_of s)
    ∧ ∀ k e, entries_of s' !! (i, k) = Some e →
        entries_of s !! (i, k) = Some e
        ∨ match en_revision e with Some r => ∃ layer, revision_of (k_kind k) r s' = Some (df_cluster d, k, layer) | None => True end
          ∧ match entries_of s !! (i, k) with Some e0 => en_base e = en_base e0 | None => base_at (df_cluster d) k (en_base e) s end;
  ed_entries j k : j ≠ i → entries_of s' !! (j, k) = entries_of s !! (j, k);
  ed_imports j m : j ≠ i → imports_of s' !! (j, m) = imports_of s !! (j, m);
  ed_revisions : revisions_grow s s';
  ed_heads : heads_of s' = heads_of s;
  ed_publish : tpublish s' = tpublish s;
  ed_view : core_heads s' = core_heads s;
  ed_ops : publishes_kept s s' }.

Lemma lockDraft_ok q s d s' : lockDraft q s = Ok (d, s') → s' = s ∧ ∃ r, drafts_of s !! dq_draft q = Some r ∧ df_state r = DOpen
  ∧ etag (df_revision r) (df_token r) = dq_if_match q ∧ d = LockedDraft (dq_draft q) (df_cluster r) (df_revision r)
  ∧ active_publication (dq_draft q) s = None.
Proof.
  unfold lockDraft. intros H. m_inv.
  match goal with H : (match active_publication ?i ?s with _ => _ end) _ = _ |- _ => destruct (active_publication i s) eqn:Ea end; m_inv.
  split; [done|]. eexists. split_and!; try done.
Qed.
Lemma keyOf_ok q d kind s k s' : keyOf q d kind s = Ok (k, s') → s' = s ∧ k = SourceKey kind (dq_name q).
Proof. unfold keyOf. intros H. destruct kind; m_inv; done. Qed.
Lemma headOf_some d k s i r : headOf d k s = Some (i, r) → head_in (ld_cluster d) k i r s.
Proof.
  unfold headOf. intros [Hin Hn]%find_some. apply list_elem_of_In, elem_of_map_to_list in Hin.
  apply andb_true_iff in Hn as [H1%bool_decide_eq_true H2%bool_decide_eq_true]. by split.
Qed.
Lemma headOf_none d k s i r : headOf d k s = None → ¬ head_in (ld_cluster d) k i r s.
Proof.
  unfold headOf. intros H (Hr & Hc & Hk). assert (Hin : In (i, r) (map_to_list (st_heads (tsources s)))) by by apply list_elem_of_In, elem_of_map_to_list.
  apply (find_none _ _ H) in Hin. simpl in Hin. by rewrite !bool_decide_true in Hin.
Qed.
(** The entry set, the draft advanced. *)
Definition entry_base (d : lockedDraft) (k : source_key) (s : pdb) : option Z :=
  match entryOf d k s with Some e => en_base e | None => hd_revision ∘ snd <$> headOf d k s end.
Definition edit_entry (token : string) (d : lockedDraft) (k : source_key) (rev : option string) (s : pdb) : pdb :=
  update_draft (ld_id d) (λ r, edited_row r (df_state r) token) (put_entry (ld_id d) k (EntryRow rev (entry_base d k s)) s).
Lemma set_and_answer token d k rev s r s' :
  (e ← setEntry d k rev; Drafts.answer token d e) s = Ok (r, s') → s' = edit_entry token d k rev s.
Proof. unfold setEntry, Drafts.answer, advance. intros H. m_inv. reflexivity. Qed.

(** An entry set at a revision that fits the draft's cluster and the key. *)
Lemma edit_edited token d k rev s t row :
  drafts_of s !! ld_id d = Some row → df_state row = DOpen → df_cluster row = ld_cluster d →
  tdrafts t = tdrafts s → heads_of t = heads_of s → tpublish t = tpublish s → revisions_grow s t → core_heads t = core_heads s →
  publishes_kept s t →
  match rev with Some r => ∃ layer, revision_of (k_kind k) r t = Some (ld_cluster d, k, layer) | None => True end →
  edited (ld_id d) s (edit_entry token d k rev t).
Proof.
  intros Hd Ho Hc Et Eh Ep Hr Ev Eo Hfit. unfold edit_entry. split; try done.
  - exists row, token, DOpen. split; [done|]. split; [done|]. split; [done|]. split.
    + unfold drafts_of in *. simpl. rewrite Et. apply map_eq. intros j. destruct (decide (j = ld_id d)) as [->|Hne].
      * rewrite lookup_alter_eq, lookup_insert_eq, Hd. simpl. by rewrite Ho.
      * by rewrite lookup_alter_ne, lookup_insert_ne by done.
    + intros k0 e. unfold entries_of. simpl. rewrite Et. destruct (decide (k0 = k)) as [->|Hne].
      2:{ rewrite lookup_insert_ne by congruence. by left. }
      rewrite lookup_insert_eq. intros [= <-]. right. simpl. rewrite Hc. split; [by destruct rev|].
      unfold entry_base, entryOf. rewrite Et. destruct (dt_entries (tdrafts s) !! (ld_id d, k)) as [e0|]; [done|].
      assert (Hh : headOf d k t = headOf d k s) by (unfold headOf, heads_of in *; by rewrite Eh). rewrite Hh.
      destruct (headOf d k s) as [[i r]|] eqn:E; simpl.
      * exists i, r. split; [by apply headOf_some|done].
      * intros i r. by apply headOf_none.
  - intros j k0 Hne. unfold entries_of. simpl. rewrite Et, lookup_insert_ne; [done|congruence].
  - intros j m Hne. unfold imports_of. simpl. by rewrite Et.
Qed.

(** No draft, head or publication row written. *)
Record unedited (s s' : pdb) : Prop := Unedited {
  un_tdrafts : tdrafts s' = tdrafts s; un_tsources : tsources s' = tsources s; un_tpublish : tpublish s' = tpublish s;
  un_view : core_heads s' = core_heads s; un_ops : publishes_kept s s' }.
Lemma staged_unedited {A} (m : M Staging.stage Staging.stage_error A) s r s' : in_staging m s = Ok (r, s') → ∃ t, s' = set_staged t s.
Proof. unfold in_staging. intros H. destruct (m (staged s)) as [[x d]|[]]; try done. injection H as <- <-. by exists d. Qed.
Lemma refused_staged tick o {A} c e s (r : result err A) s' : ingest_refused tick o c e s = Ok (r, s') → r = Err e ∧ ∃ t, s' = set_staged t s.
Proof.
  unfold ingest_refused. intros (? & ? & H1 & H)%bind_ok. apply ret_ok in H as [<- <-]. split; [done|]. by apply staged_unedited in H1.
Qed.

Section Acts.
Variable tick : Z → Z.

Lemma removeSource_edited token q kind s r s' : removeSource token q kind s = Ok (r, s') → edited (dq_draft q) s s'.
Proof using.
  unfold removeSource. intros H. apply bind_ok in H as (d & s1 & [-> (row & Hd & Ho & _ & -> & _)]%lockDraft_ok & H).
  apply bind_ok in H as (k & s1 & [-> ->]%keyOf_ok & H). apply bind_ok in H as (? & s1 & [_ <-]%gets_ok & H).
  apply bind_ok in H as (? & s1 & [_ <-]%gets_ok & H). apply bind_ok in H as (? & s1 & [_ <-]%failIf_ok & H).
  apply set_and_answer in H as ->. by eapply (edit_edited token (LockedDraft _ _ _)).
Qed.
(** An entry proposed with its new revision and author. *)
Ltac proposed_edit rev := eapply (edit_edited _ (LockedDraft _ _ _)); simpl; try eassumption; try done;
  [repeat split; try done; by apply insert_subseteq, eq_None_not_Some|by eexists; unfold revision_of; simpl; rewrite lookup_insert_eq].
Lemma updateProfile_edited token prv q pins held s r s' : updateProfile token prv q pins held s = Ok (r, s') → edited (dq_draft q) s s'.
Proof using.
  unfold updateProfile, fresh_revision. intros H. apply bind_ok in H as (d & s1 & [-> (row & Hd & Ho & _ & -> & _)]%lockDraft_ok & H).
  apply bind_ok in H as (k & s1 & [-> ->]%keyOf_ok & H). apply bind_ok in H as (bad & s1 & [_ <-]%gets_ok & H).
  apply bind_ok in H as (? & s1 & [_ <-]%reject_ok & H). apply bind_ok in H as (taken & s1 & [<- <-]%gets_ok & H).
  apply bind_ok in H as (? & s1 & [Ht%bool_decide_eq_false <-]%failIf_ok & H). apply bind_ok in H as (? & s1 & <-%modify_ok & H).
  apply bind_ok in H as (? & s1 & <-%modify_ok & H). apply set_and_answer in H as ->. proposed_edit prv.
Qed.
Lemma updateAssignment_edited token asr q i held s r s' : updateAssignment token asr q i held s = Ok (r, s') → edited (dq_draft q) s s'.
Proof using.
  unfold updateAssignment, fresh_revision. intros H. apply bind_ok in H as (d & s1 & [-> (row & Hd & Ho & _ & -> & _)]%lockDraft_ok & H).
  apply bind_ok in H as (k & s1 & [-> ->]%keyOf_ok & H). apply bind_ok in H as (bad & s1 & [_ <-]%gets_ok & H).
  apply bind_ok in H as (? & s1 & [_ <-]%reject_ok & H). apply bind_ok in H as (taken & s1 & [<- <-]%gets_ok & H).
  apply bind_ok in H as (? & s1 & [Ht%bool_decide_eq_false <-]%failIf_ok & H). apply bind_ok in H as (? & s1 & <-%modify_ok & H).
  apply bind_ok in H as (? & s1 & <-%modify_ok & H). apply set_and_answer in H as ->. proposed_edit asr.
Qed.
Lemma discardDraft_edited token q s r s' : discardDraft token q s = Ok (r, s') → edited (dq_draft q) s s'.
Proof using.
  unfold discardDraft. intros H. apply bind_ok in H as (d & s1 & [-> (row & Hd & Ho & _ & -> & _)]%lockDraft_ok & H). apply modify_ok in H as <-.
  split; try done. exists row, token, DDiscarded. split; [done|]. split; [done|]. split; [done|]. split; [|by left].
  unfold drafts_of in *. simpl. apply map_eq. intros j. destruct (decide (j = dq_draft q)) as [->|Hne].
  - by rewrite lookup_alter_eq, lookup_insert_eq, Hd.
  - by rewrite lookup_alter_ne, lookup_insert_ne by done.
Qed.
Lemma edited_staged i s x s' : edited i (set_staged x s) s' → edited i s s'.
Proof using. intros []. by split. Qed.
Lemma refusal_of_ok {A} (m : PT A) s r s' : refusal_of m s = Ok (r, s') → (∃ x, r = Ok x ∧ m s = Ok (x, s')) ∨ (∃ e, r = Err e) ∧ s' = s.
Proof using.
  unfold refusal_of. destruct (m s) as [[x t]|[]]; try done; intros [= <- <-]; [left|right]; eauto.
Qed.
Lemma updateFragment_edited o token frv q layer g s r s' :
  updateFragment tick o token frv q layer g s = Ok (r, s') →
  match r with Ok _ => edited (dq_draft q) s s' | Err _ => ∃ t, s' = set_staged t s end.
Proof using.
  unfold updateFragment, fresh_revision. intros H. apply bind_ok in H as (? & s1 & [t1 ->]%staged_unedited & H).
  assert (Hrefused : ∀ e, ingest_refused tick o (gp_claim g) e (set_staged t1 s) = Ok (r, s') →
    match r with Ok _ => edited (dq_draft q) s s' | Err _ => ∃ t, s' = set_staged t s end).
  { intros e (-> & t & ->)%refused_staged. by exists t. }
  destruct (gp_refusal g) as [e|]; [by eapply Hrefused|].
  apply bind_ok in H as (dk & s2 & [(dkk & -> & Hl)|[[e ->] ->]]%refusal_of_ok & H); [|by eapply Hrefused].
  apply bind_ok in Hl as (d & s3 & [-> (row & Hd & Ho & _ & -> & _)]%lockDraft_ok & Hl).
  apply bind_ok in Hl as (k & s3 & [-> ->]%keyOf_ok & [<- <-]%ret_ok). apply bind_ok in H as (refs & s3 & [<- <-]%gets_ok & H).
  destruct (resolveReferences _ _ _ _) as [refs|e]; [|by eapply Hrefused].
  apply bind_ok in H as (taken & s3 & [<- <-]%gets_ok & H).
  apply bind_ok in H as (? & s3 & [Ht%bool_decide_eq_false <-]%failIf_ok & H). apply bind_ok in H as (? & s3 & <-%modify_ok & H).
  apply bind_ok in H as (? & s3 & <-%modify_ok & H). apply bind_ok in H as (e & s3 & H3 & H).
  apply bind_ok in H as (? & s4 & [t4 ->]%staged_unedited & H). apply bind_ok in H as (ans & s5 & H5 & [<- <-]%ret_ok).
  apply (edited_staged _ _ t1). clear Hrefused.
  match type of H3 with setEntry ?d ?k _ ?t = _ => assert (Hs : s5 = set_staged t4 (edit_entry token d k (Some frv) t)) end.
  { unfold setEntry in H3. unfold Drafts.answer, advance in H5. m_inv. reflexivity. }
  rewrite Hs. match goal with |- edited _ _ (set_staged _ ?u) => cut (edited (dq_draft q) (set_staged t1 s) u); [by intros []; split|] end.
  proposed_edit frv.
Qed.

(** *** The import *)

Lemma end_ingest_row o j st cst res e s u s' : Ingested.finish o j st cst res e s = Ok (u, s') →
  ∃ t x f, ops (core s) !! ij_op j = Some x ∧ op_kind_of x = KIngest ∧ op_kind_of (f x) = KIngest
    ∧ s' = set_core (update_op (ij_op j) f (core s)) (set_staged t s).
Proof using.
  unfold Ingested.finish. intros H. apply bind_ok in H as (u0 & s1 & [t1 ->]%staged_unedited & H). apply bind_ok in H as (x & s2 & [Hx <-]%getsOr_ok & H).
  apply bind_ok in H as (u2 & s2 & [Hk <-]%failIf_ok & H). apply negb_false_iff, andb_true_iff in Hk as [Hk%bool_decide_eq_true _].
  exists t1, x, (ended cst res e). split; [done|]. split; [done|]. split; [done|]. unfold in_core in H. simpl in H. by injection H as <- <-.
Qed.
Lemma ingest_publishes_kept id f x s : ops (core s) !! id = Some x → op_kind_of x = KIngest → op_kind_of (f x) = KIngest →
  publishes_kept s (set_core (update_op id f (core s)) s).
Proof using.
  intros Hx Hk Hf i o Ho. simpl. rewrite lookup_alter_Some. split.
  - intros Hi. right. split; [|done]. intros <-. congruence.
  - intros [(-> & y & Hy & ->)|[_ ?]]; [|done]. congruence.
Qed.
Lemma abandon_unedited o j code s r s' : abandon tick o j code s = Ok (r, s') → unedited s s'.
Proof using.
  unfold abandon. intros (? & s1 & [t1 ->]%staged_unedited & (t2 & x & f & Hx & Hk & Hf & ->)%end_ingest_row)%bind_ok.
  split; try done. exact (ingest_publishes_kept _ f x s Hx Hk Hf).
Qed.
Lemma commitImport_edited o token ibr j i s r s' : commitImport tick o token ibr j i s = Ok (r, s') → edited (ij_draft j) s s'.
Proof using.
  unfold commitImport, fresh_revision. intros H. apply bind_ok in H as (? & s1 & [t1 ->]%staged_unedited & H).
  apply bind_ok in H as (d & t & [Hd <-]%getsOr_ok & H). apply bind_ok in H as (? & t & [Ho <-]%failIf_ok & H).
  apply bind_ok in H as (u1 & t & [Hrv <-]%failIf_ok & H). apply bind_ok in H as (pub & t & [_ <-]%gets_ok & H).
  apply bind_ok in H as (? & t & [_ <-]%reject_ok & H). apply bind_ok in H as (refs & t & [_ <-]%getsOr_ok & H).
  apply bind_ok in H as (m & t & [_ <-]%getsOr_ok & H). apply bind_ok in H as (taken & t & [<- <-]%gets_ok & H).
  apply bind_ok in H as (? & t & [Ht%bool_decide_eq_false <-]%failIf_ok & H). apply bind_ok in H as (? & t & <-%modify_ok & H).
  do 3 apply bind_ok in H as (? & t & <-%modify_ok & H). apply bind_ok in H as (? & t & <-%modify_ok & H).
  apply end_ingest_row in H as (t2 & op & f & Hx & Hk & Hf & ->). apply negb_false_iff, bool_decide_eq_true in Ho.
  apply (edited_staged _ _ t1). split; try done.
  - exists d, token, DOpen. split; [done|]. split; [done|]. split; [done|]. split; [|by left]. unfold drafts_of. simpl. apply map_eq. intros k.
    destruct (decide (k = ij_draft j)) as [->|Hne].
    + rewrite lookup_alter_eq, lookup_insert_eq. simpl in Hd. rewrite Hd. simpl. unfold edited_row. by rewrite Ho.
    + by rewrite lookup_alter_ne, lookup_insert_ne by done.
  - intros k m0 Hne. unfold imports_of. simpl. rewrite lookup_insert_ne; [done|congruence].
  - repeat split; try done. by apply insert_subseteq, eq_None_not_Some.
  - exact (ingest_publishes_kept _ f op s Hx Hk Hf).
Qed.
End Acts.
