(* ===== verification/PublishEffect.v ===== *)
(** * What every transaction of drafts and publication does to the tables they share: a draft edited or
    created, the publish operations moved on, or a release written. *)

From stdpp Require Import sorting relations.
From S2P Require Import Prelude Ident Times Json Classify Store.
From S2P Require Import World Evidence Commit Lifecycle System Request Governance Authority Recovery RecoveryGate Recovered.
From S2P Require Import Drafts Ingested Declared Publish Release PublishSpec ReleaseSpec.
From S2P Require Staging.

(** Publish operations keep their generations or raise them, an end that succeeded is final, and none
    but [now] succeeds. *)
Record ops_forward (now : option string) (s s' : pdb) : Prop := OpsForward {
  of_kept id o : ops (core s) !! id = Some o → op_kind_of o = KPublish → ∃ o', ops (core s') !! id = Some o' ∧ op_kind_of o' = KPublish
    ∧ op_gen o ≤ op_gen o' ∧ (op_st o = Succeeded → o' = o);
  of_old id o' : ops (core s') !! id = Some o' → op_kind_of o' = KPublish → op_st o' = Succeeded →
    now = Some id ∨ ops (core s) !! id = Some o' }.
#[export] Instance ops_forward_refl now : Reflexive (ops_forward now).
Proof. intros s. split; [|by right]. intros id o Ho Hk. by exists o. Qed.
Lemma forward_kept now s s' : publishes_kept s s' → ops_forward now s s'.
Proof.
  intros H. split.
  - intros id o Ho Hk. exists o. split; [by apply H|]. by split_and!.
  - intros id o Ho Hk _. right. by apply H.
Qed.
(** One publish operation changed. *)
Lemma forward_update s t id x f now :
  ops (core s) !! id = Some x → op_kind_of (f x) = op_kind_of x → op_gen x ≤ op_gen (f x) → op_st x ≠ Succeeded →
  (op_st (f x) = Succeeded → now = Some id) →
  ops (core t) = alter f id (ops (core s)) → ops_forward now s t.
Proof.
  intros Hx Hk Hg Hs Hn E. split.
  - intros i o Ho Hp. rewrite E. destruct (decide (i = id)) as [->|Hne].
    + assert (o = x) as -> by congruence. exists (f x). rewrite lookup_alter_eq, Ho. split_and!; try done. congruence.
    + exists o. rewrite lookup_alter_ne by done. by split_and!.
  - intros i o. rewrite E, lookup_alter_Some. intros [(-> & y & Hy & ->)|[_ Ho]] _ Hsu; [|by right].
    left. assert (y = x) as -> by congruence. by apply Hn.
Qed.

(** The publication tables a transaction does not write. *)
Definition unwritten (s s' : pdb) : Prop :=
  tdrafts s' = tdrafts s ∧ tsources s' = tsources s ∧ release_rows s' = release_rows s ∧ sources_rows s' = sources_rows s
  ∧ machine_rows s' = machine_rows s ∧ core_heads s' = core_heads s.
(** Jobs change by their leases, and a new one binds a draft at its revision. *)
Definition jobs_forward (s s' : pdb) : Prop :=
  (∀ op r, jobs_of s !! op = Some r → ∃ l, jobs_of s' !! op = Some (with_lease l r))
  ∧ ∀ op r, jobs_of s' !! op = Some r → (∃ r0, jobs_of s !! op = Some r0)
      ∨ (∃ o, ops (core s') !! op = Some o ∧ op_kind_of o = KPublish) ∧ ∃ d, drafts_of s' !! jb_draft r = Some d ∧ df_revision d = jb_revision r.
Lemma with_lease_self r : with_lease (jb_lease r) r = r.
Proof. by destruct r. Qed.
Lemma jobs_same s s' : jobs_of s' = jobs_of s → jobs_forward s s'.
Proof.
  intros E. unfold jobs_forward. rewrite E. split; [|by intros op r Hr; left; exists r]. intros op r Hr. exists (jb_lease r). by rewrite with_lease_self.
Qed.
Lemma jobs_alter s s' op l : jobs_of s' = alter (with_lease l) op (jobs_of s) → jobs_forward s s'.
Proof.
  intros E. unfold jobs_forward. rewrite E. split.
  - intros i r Hr. destruct (decide (i = op)) as [->|Hne]; [exists l; by rewrite lookup_alter_eq, Hr|].
    exists (jb_lease r). by rewrite lookup_alter_ne, Hr, with_lease_self by done.
  - intros i r. rewrite lookup_alter_Some. intros [(_ & r0 & Hr0 & _)|[_ Hr]]; left; by eexists.
Qed.
Record worked (now : option string) (s s' : pdb) : Prop := Worked {
  wk_tables : unwritten s s'; wk_jobs : jobs_forward s s'; wk_ops : ops_forward now s s' }.
(** An operation ended with the release its draft revision already had. *)
Record met (j : publishJob) (s s' : pdb) : Prop := Met {
  me_worked : worked (Some (pj_op j)) s s';
  me_release : ∃ rel r, release_rows s !! rel = Some r ∧ re_draft r = pj_draft j ∧ re_revision r = pj_revision j
    ∧ ∃ o, ops (core s') !! pj_op j = Some o ∧ op_kind_of o = KPublish ∧ op_st o = Succeeded ∧ op_result o = Some (released_doc rel) }.

Record created (i : string) (s s' : pdb) : Prop := Created {
  cr_new : drafts_of s !! i = None;
  cr_drafts : ∃ c token, tdrafts s' = DraftTables (<[i := DraftRow c DOpen 1 token None]> (drafts_of s)) (entries_of s) (imports_of s);
  cr_rest : tsources s' = tsources s ∧ tpublish s' = tpublish s ∧ core s' = core s }.

(** A release written from the heads that its inputs locked, none of them moved. *)
Record published (rel : string) (j : publishJob) (u : releaseUnit) (heads : list sourceHead) (x : locked_inputs) (dg : string)
    (a : api) (tick : Z → Z) (sha256 hex : string → string) (s s' : pdb) : Prop := Published {
  pb_inputs : inputs_locked j u heads x s;
  pb_changed : Forall (λ h, sh_changed h = true) heads;
  pb_draft : ∃ d, drafts_of s !! pj_draft j = Some d ∧ df_state d = DOpen ∧ df_revision d = pj_revision j;
  pb_conflicts : conflicts_of (li_locked x) u (li_bases x) = [];
  pb_assignments : ∀ h, h ∈ li_heads x → assignment_refusal u s h = None;
  pb_evidence : ∀ m, m ∈ un_machines u → publicationEvidence a j (um_machine m) (um_observation m) (rn_contract (un_renderer u)) true s = None;
  pb_written : release_written tick a sha256 hex rel j u (li_heads x) dg s s' }.

Section Effects.
Variables tick mtick : Z → Z.
Variables sha256 hex : string → string.

Inductive effect (s s' : pdb) : Prop :=
| ef_edited i : edited i s s' → effect s s'
| ef_created i : created i s s' → effect s s'
| ef_worked : worked None s s' → effect s s'
| ef_met j : bound_job j s → met j s s' → effect s s'
| ef_published rel a j u heads x : published rel j u heads x (locked_content sha256 j u x) a tick sha256 hex s s' → bound_job j s →
    Forall (λ h, snapshot_read h s) (un_unchanged u) → effect s s'.

Lemma createDraft_created token i cluster s r s' : createDraft token i cluster s = Ok (r, s') → created i s s'.
Proof using.
  unfold createDraft, fresh_revision. intros H. m_inv. split; [|by exists cluster, token|done].
  match goal with H : bool_decide _ = false |- _ => apply bool_decide_eq_false in H end. by apply eq_None_not_Some.
Qed.
Lemma unedited_worked s s' : unedited s s' → worked None s s'.
Proof using. intros [H1 H2 H3 H4 H5]. split; [|apply jobs_same; unfold jobs_of; by rewrite H3|by apply forward_kept].
  unfold unwritten, release_rows, sources_rows, machine_rows. by rewrite H1, H2, H3, H4. Qed.
Lemma staged_worked t s : worked None s (set_staged t s).
Proof using. apply unedited_worked. by split. Qed.
Lemma request_worked configured fresh q s op s' : requestPublication tick configured fresh q s = Ok (op, s') → worked None s s'.
Proof using.
  intros (d & Hd & _ & _ & [[-> _]|(-> & Ho & Hj & -> & _)])%request_ok; [apply (unedited_worked s s); by split|]. split; [done| |].
  - split.
    + intros i r Hr. exists (jb_lease r). rewrite with_lease_self. unfold jobs_of in *. simpl. rewrite lookup_insert_ne; [done|congruence].
    + intros i r. unfold jobs_of. simpl. rewrite lookup_insert_Some. intros [[<- <-]|[_ Hr]]; [right|left; by exists r].
      simpl. rewrite lookup_insert_eq. split; [by eexists|]. by exists d.
  - split.
    + intros i o Hi Hk. exists o. simpl. rewrite lookup_insert_ne by congruence. by split_and!.
    + intros i o. simpl. rewrite lookup_insert_Some. intros [[<- <-]|[_ Hi]]; [done|by right].
Qed.
Lemma claim_worked a lease s r s' : claimPublish tick a lease s = Ok (r, s') → worked None s s'.
Proof using.
  intros [_ H]%claim_ok. cbv zeta in H. destruct r as [j|]; [|destruct H as [_ ->]; apply unedited_worked; by split].
  destruct H as (o & row & d & Hold & Ho & Hg & _ & _ & _ & _ & _ & ->). apply oldest_in in Hold as [Hc _].
  apply claimable_row in Hc as (o' & r & Ho' & _ & Hk & Hst). assert (o' = o) as -> by congruence.
  split; [done|by eapply jobs_alter|]. eapply (forward_update _ _ (pj_op j) o (run_by a)); try done; simpl; [lia|].
  by destruct Hst as [-> |[-> _]].
Qed.
Lemma extend_worked a lease j s r s' : extendPublish tick a lease j s = Ok (r, s') → worked None s s'.
Proof using.
  unfold extendPublish. intros H. apply bind_ok in H as (? & t & [_ <-]%gets_ok & H). apply bind_ok in H as (? & t & [_ <-]%failIf_ok & H).
  apply bind_ok in H as (now & t & [= <- <-] & H). apply bind_ok in H as (? & t & [_ <-]%gets_ok & H).
  apply bind_ok in H as (? & t & [_ <-]%failIf_ok & H). apply modify_ok in H as <-.
  split; [done|by eapply jobs_alter|by apply forward_kept].
Qed.
Lemma finish_worked a j st res error code s u s' : finishPublish tick a j st res error code s = Ok (u, s') → st = Succeeded ∨ st = Failed →
  worked (if decide (st = Succeeded) then Some (pj_op j) else None) s s'
  ∧ ∃ o, ops (core s) !! pj_op j = Some o ∧ ops (core s') !! pj_op j = Some (end_op st res error o).
Proof using.
  intros (_ & Hown & ->)%finish_ok Hst. apply owned_running in Hown as (o & r & Ho & _ & _ & _ & _ & Hr & _).
  split.
  - split; [done|by eapply jobs_alter|]. eapply (forward_update _ _ (pj_op j) o (end_op st res error)); try done; simpl; [by rewrite Hr|].
    intros ->. by rewrite decide_True.
  - exists o. split; [done|]. simpl. by rewrite lookup_alter_eq, Ho.
Qed.

(** ** The history of the tables *)

(** What stays or only grows: a draft of the same revision is the same draft with the same entries. *)
Record later (s s' : pdb) : Prop := Later {
  la_heads : heads_grow s s';
  la_drafts i d : drafts_of s !! i = Some d → ∃ d', drafts_of s' !! i = Some d' ∧ df_cluster d' = df_cluster d ∧ df_revision d ≤ df_revision d'
    ∧ (df_revision d' = df_revision d → d' = d ∧ (∀ k, entries_of s' !! (i, k) = entries_of s !! (i, k)) ∧ ∀ m, imports_of s' !! (i, m) = imports_of s !! (i, m));
  la_jobs op r : jobs_of s !! op = Some r → ∃ l, jobs_of s' !! op = Some (with_lease l r);
  la_rows : release_rows s ⊆ release_rows s' ∧ sources_rows s ⊆ sources_rows s' ∧ machine_rows s ⊆ machine_rows s';
  la_revisions : revisions_grow s s';
  la_ops id o : ops (core s) !! id = Some o → op_kind_of o = KPublish → ∃ o', ops (core s') !! id = Some o' ∧ op_kind_of o' = KPublish
    ∧ op_gen o ≤ op_gen o' ∧ (op_st o = Succeeded → o' = o) }.
#[export] Instance later_preorder : PreOrder later.
Proof using.
  split.
  - intros s. split; try done.
    + intros i d Hd. exists d. by split_and!.
    + intros op r Hr. exists (jb_lease r). by rewrite with_lease_self.
    + intros id o Ho Hk. by exists o.
  - intros x y z [Hh Hd Hj (Hr1 & Hr2 & Hr3) Hv Ho] [Hh' Hd' Hj' (Hr1' & Hr2' & Hr3') Hv' Ho']. split.
    + by etrans.
    + intros i d (d1 & H1 & Hc1 & Hl1 & He1)%Hd. destruct (Hd' _ _ H1) as (d2 & H2 & Hc2 & Hl2 & He2). exists d2.
      split; [done|]. split; [congruence|]. split; [lia|]. intros He. destruct He1 as (-> & E1 & I1); [lia|]. destruct He2 as (-> & E2 & I2); [lia|].
      split; [done|]. split; intros k; [by rewrite E2|by rewrite I2].
    + intros op r (l1 & H1)%Hj. destruct (Hj' _ _ H1) as (l2 & H2). by exists l2.
    + split_and!; by etrans.
    + by etrans.
    + intros id o Hi Hk. destruct (Ho _ _ Hi Hk) as (o1 & H1 & Hk1 & Hg1 & Hs1). destruct (Ho' _ _ H1 Hk1) as (o2 & H2 & Hk2 & Hg2 & Hs2).
      exists o2. split; [done|]. split; [done|]. split; [lia|]. intros Hs. rewrite (Hs1 Hs) in Hs2. by apply Hs2.
Qed.
Lemma rows_union_later {K V} `{Countable K} (m n : gmap K V) : (∀ k x, n !! k = Some x → m !! k = None) → m ⊆ n ∪ m.
Proof using.
  intros Hd. apply map_subseteq_spec. intros k x Hk. apply lookup_union_Some_raw. right. split; [|done].
  destruct (n !! k) as [y|] eqn:E; [|done]. rewrite (Hd _ _ E) in Hk. done.
Qed.

Lemma edited_later i s s' : edited i s s' → later s s'.
Proof using.
  intros [(d & token & st & Hd & _ & _ & Hd' & _) He Hi Hr Hh Hp _ Ho].
  split; unfold release_rows, sources_rows, machine_rows, jobs_of; rewrite ?Hp; try done.
  - unfold heads_grow. rewrite Hh. intros j r Hj. by exists r.
  - intros j r Hj. rewrite Hd'. destruct (decide (j = i)) as [->|Hne].
    + rewrite lookup_insert_eq. assert (r = d) as -> by congruence. eexists. split; [done|]. split_and!; simpl; [done|lia|lia].
    + rewrite lookup_insert_ne by done. exists r. split_and!; try done. intros _. split; [done|]. split; intros k; [by apply He|by apply Hi].
  - apply jobs_same. done.
  - apply (forward_kept None _ _ Ho).
Qed.
Lemma worked_later now s s' : worked now s s' → later s s'.
Proof using.
  intros [(Hd & Hs & Hr & Hso & Hm & _) [Hj _] [Ho _]]. split; try done.
  - unfold heads_grow, heads_of. rewrite Hs. intros j r Hj'. by exists r.
  - unfold drafts_of, entries_of, imports_of. rewrite Hd. intros j r Hj'. exists r. by split_and!.
  - by rewrite Hr, Hso, Hm.
  - apply revisions_same. unfold revisions_of. by rewrite Hs.
Qed.
Lemma created_later i s s' : created i s s' → later s s'.
Proof using.
  intros [Hn (c & token & Hd) (Hs & Hp & Hc)].
  split; unfold release_rows, sources_rows, machine_rows, jobs_of, heads_grow, heads_of; rewrite ?Hp, ?Hs, ?Hc; try done.
  - intros j r Hj. by exists r.
  - unfold drafts_of at 2, entries_of at 1, imports_of at 1. rewrite Hd. simpl. intros j r Hj. exists r. rewrite lookup_insert_ne by congruence. by split_and!.
  - intros op r Hr. exists (jb_lease r). by rewrite with_lease_self.
  - apply revisions_same. unfold revisions_of. by rewrite Hs.
  - intros id o Ho Hk. by exists o.
Qed.
Lemma draftHeads_changed draft s : Forall (λ h, sh_changed h = true) (draftHeads draft s).
Proof using.
  apply Forall_forall. unfold draftHeads. intros h (x & _ & Hx)%list_elem_of_omap. case_bool_decide; [by injection Hx as <-|done].
Qed.
Lemma published_later rel j u heads x dg a s s' : published rel j u heads x dg a tick sha256 hex s s' → later s s'.
Proof using.
  intros [_ _ _ _ _ _ [Hown (job & Hj & _ & _ & _ & Hr) (Hrn & _) (_ & Hm & Hmn) (left & Hh & _ & Hsn & Hs) _ _ (token & Hd) Hjs Ho _]].
  split.
  - apply (hs_grow _ _ _ _ _ Hh).
  - unfold drafts_of, entries_of, imports_of. rewrite Hd. simpl. intros i d Hi. destruct (decide (i = pj_draft j)) as [->|Hne].
    + rewrite lookup_alter_eq, Hi. simpl. eexists. split; [done|]. split_and!; simpl; [done|lia|lia].
    + rewrite lookup_alter_ne by done. exists d. by split_and!.
  - by eapply jobs_alter.
  - split; [rewrite Hr; by apply insert_subseteq|]. split.
    + rewrite Hs. apply rows_union_later. intros k y Hk. apply elem_of_list_to_map_2, list_elem_of_fmap in Hk as (h & [= -> _] & Hin). by apply Hsn.
    + rewrite Hm. apply rows_union_later. intros k y Hk. apply elem_of_list_to_map_2, list_elem_of_fmap in Hk as (h & [= -> _] & Hin). by apply Hmn.
  - apply revisions_same, (hs_revisions _ _ _ _ _ Hh).
  - destruct Hown as [_ Hown]. apply owned_running in Hown as (o & r & Ho' & _ & _ & _ & _ & Hst & _).
    intros id o0 Hid Hk. rewrite Ho. destruct (decide (id = pj_op j)) as [->|Hne].
    + assert (o0 = o) as -> by congruence. rewrite lookup_alter_eq, Hid. eexists. split; [done|]. split; [done|]. split; [done|]. congruence.
    + rewrite lookup_alter_ne by done. by exists o0.
Qed.
Lemma effect_later s s' : effect s s' → later s s'.
Proof using.
  intros [i H|i H|H|j _ [H _]|rel a j u heads x H _ _]; [by eapply edited_later|by eapply created_later|by eapply worked_later..|by eapply published_later].
Qed.

(** ** The effect of each transaction *)

Lemma bound_later j s s' : later s s' → bound_job j s → bound_job j s'.
Proof using.
  intros H (r & d & Hr & H1 & H2 & Hd & Hc). destruct (la_jobs _ _ H _ _ Hr) as (l & Hl). destruct (la_drafts _ _ H _ _ Hd) as (d' & Hd' & Hc' & _).
  exists (with_lease l r), d'. split_and!; try done. congruence.
Qed.
(** What a checked unit's unchanged head shows: the row its snapshot read. *)
Lemma unchanged_locked j u heads x s h :
  inputs_locked j u heads x s → conflicts_of (li_locked x) u (li_bases x) = [] → h ∈ un_unchanged u →
  ∃ r, heads_of s !! uh_head h = Some r ∧ hd_revision r = uh_head_revision h.
Proof using.
  intros [Hh _ Hl _ _] Hc Hin. unfold conflicts_of in Hc. apply app_eq_nil in Hc as [Hc _].
  assert (Hin' : unchanged_head h ∈ heads ++ (unchanged_head <$> un_unchanged u)) by (apply elem_of_app; right; by apply list_elem_of_fmap_2).
  apply list_elem_of_lookup in Hin' as [k Hk]. destruct (Forall2_lookup_l _ _ _ _ _ Hh Hk) as (h' & Hk' & Hlock).
  apply lock_head_ok in Hlock as (_ & Hsh & _ & Hb & Hch & r & Hr & _ & Ha). simpl in *. exists r. split; [done|].
  assert (Hn : head_conflict h' = None).
  { rewrite omap_none in Hc. apply Hc. rewrite Hl, merge_sort_Permutation. apply list_elem_of_lookup. by exists k. }
  unfold head_conflict in Hn. rewrite Hsh, Hch in Hn. simpl in Hn. destruct (Z.eqb_spec (sh_actual h') (sh_base h')); [congruence|done].
Qed.
Lemma commit_effect a ids j u s s1 seen r s' :
  (∀ s0, s0 ∈ seen → later s0 s) → s1 ∈ s :: seen → bound_job j s1 →
  Forall (λ h, ∃ s2, s2 ∈ s :: seen ∧ snapshot_read h s2) (un_unchanged u) →
  commitRelease tick mtick a sha256 hex ids j u (draftHeads (pj_draft j) s1) s = Ok (r, s') →
  effect s s' ∧ (r.2 = true → ∃ x, published r.1 j u (draftHeads (pj_draft j) s1) x (locked_content sha256 j u x) a tick sha256 hex s s').
Proof using.
  intros Hseen Hs1 Hb Hu H. assert (Hlater : ∀ s0, s0 ∈ s :: seen → later s0 s) by (intros s0 [->|?]%elem_of_cons; [done|by apply Hseen]).
  assert (Hbs : bound_job j s) by (eapply bound_later; [by apply Hlater|done]). destruct r as [rel wrote].
  apply commitRelease_ok in H as (_ & x & d & op & Hx & Hd & Hop & Hk & H). destruct (existing_release j s) as [[i r]|] eqn:Er.
  - destruct H as (-> & -> & _ & H). split; [|done]. destruct H as [(_ & _ & ->)|H]; [apply ef_worked, unedited_worked; by split|].
    apply ef_met with j; [done|]. apply finish_worked in H as [Hw (o & Ho & Ho')]; [|by left]. split; [done|].
    unfold existing_release in Er. apply find_some in Er as [Hin Hm]. apply list_elem_of_In, elem_of_map_to_list in Hin. simpl in *.
    apply andb_true_iff in Hm as [Hm1%bool_decide_eq_true Hm2%Z.eqb_eq]. exists i, r. do 3 (split; [done|]). eexists. split; [exact Ho'|].
    assert (o = op) as -> by congruence. done.
  - destruct H as (-> & -> & Hc & He & Hw). unfold checkInputs in Hc.
    destruct (bool_decide (df_state d = DOpen)) eqn:Eo; [|done]. apply bool_decide_eq_true in Eo. simpl in Hc.
    destruct (Z.eqb_spec (df_revision d) (pj_revision j)) as [Erv|]; [|done]. simpl in Hc.
    destruct (bool_decide_reflect (conflicts_of (li_locked x) u (li_bases x) = [])) as [Ec|]; [|done]. simpl in Hc.
    assert (Hp : published (ci_release ids) j u (draftHeads (pj_draft j) s1) x (locked_content sha256 j u x) a tick sha256 hex s s').
    { split; try done; [apply draftHeads_changed|by exists d|]. apply omap_none. by destruct (omap _ _). }
    split; [|by exists x]. eapply ef_published; [exact Hp|done|]. apply Forall_forall. intros h Hin. rewrite Forall_forall in Hu.
    destruct (Hu h Hin) as (s2 & Hs2 & r & Hr & Hcur & Hrev). destruct (la_heads _ _ (Hlater s2 Hs2) _ _ Hr) as (r' & Hr' & Hl').
    destruct (unchanged_locked _ _ _ _ _ _ Hx Ec Hin) as (r2 & Hr2 & Hv2). assert (r2 = r') as -> by congruence.
    destruct Hl' as (_ & _ & _ & _ & Heq). exists r'. split; [done|]. rewrite Heq by congruence. done.
Qed.
Lemma pact_effect seen s s' : (∀ s0, s0 ∈ seen → later s0 s) → pact tick mtick sha256 hex seen s s' → effect s s'.
Proof using.
  intros Hseen H. destruct H as [token i cluster s r s' H|o token frv q layer g s r s' H|token prv q pins held s r s' H|token asr q i held s r s' H
    |token q k s r s' H|token q s r s' H|o token ibr j i s r s' H|o j code s r s' H|configured fresh q s r s' H|a lease s r s' H
    |a lease j s r s' H|a j e s r s' H|a ids j u s0 s r s' Hs0 Hb Hu H _].
  - by eapply ef_created, createDraft_created.
  - apply updateFragment_edited in H. destruct r as [x|e]; [by eapply ef_edited|destruct H as [t ->]; apply ef_worked, staged_worked].
  - by eapply ef_edited, updateProfile_edited.
  - by eapply ef_edited, updateAssignment_edited.
  - by eapply ef_edited, removeSource_edited.
  - by eapply ef_edited, discardDraft_edited.
  - by eapply ef_edited, commitImport_edited.
  - by eapply ef_worked, unedited_worked, abandon_unedited.
  - by eapply ef_worked, request_worked.
  - by eapply ef_worked, claim_worked.
  - by eapply ef_worked, extend_worked.
  - unfold failPublish in H. apply finish_worked in H as [H _]; [|by right]. by apply ef_worked.
  - by eapply commit_effect.
Qed.
End Effects.
