(* ===== verification/PublishInv.v ===== *)
(** * The runs of publication among the rest of the program, and the invariant that ties drafts,
    operations, heads and releases together. *)

From stdpp Require Import sorting relations.
From S2P Require Import Prelude Store World Evidence Commit Lifecycle System Ident IngestPath Request Governance.
From S2P Require Import Authority Recovery RecoveryGate Recovered Times Json Classify Drafts Ingested Declared Publish Release.
From S2P Require Import ContentSpec PublishSpec ReleaseSpec PublishEffect.

(** ** A release's stored content *)

Definition rows_of {K V} (rel : string) (l : list (string * K * V)) : list (K * V) :=
  omap (λ x, if bool_decide (x.1.1 = rel) then Some (x.1.2, x.2) else None) l.
Lemma rows_of_elem {K V} rel (l : list (string * K * V)) k v : (k, v) ∈ rows_of rel l ↔ (rel, k, v) ∈ l.
Proof.
  unfold rows_of. rewrite list_elem_of_omap. split.
  - intros ([[r k'] v'] & Hin & H). simpl in H. by case_bool_decide; simplify_eq.
  - intros Hin. exists (rel, k, v). split; [done|]. simpl. by rewrite bool_decide_true.
Qed.
Lemma rows_of_nodup {K V} rel (l : list (string * K * V)) : NoDup l.*1 → NoDup (rows_of rel l).*1.
Proof.
  induction l as [|[[r k] v] l IH]; [constructor|]. rewrite fmap_cons, NoDup_cons. intros [Hn Hl]. specialize (IH Hl).
  unfold rows_of. cbn. case_bool_decide as Hr; [|done]. cbn. constructor; [|done]. subst. intros ([k' v'] & Hk & Hin)%list_elem_of_fmap.
  simpl in Hk. subst k'. apply (rows_of_elem rel l) in Hin. apply Hn, list_elem_of_fmap. by exists (rel, k, v').
Qed.
Lemma rows_of_same {K V} {EK : EqDecision K} {CK : Countable K} (rel : string) (m m' : gmap (string * K) V) :
  (∀ k, m' !! (rel, k) = m !! (rel, k)) → rows_of rel (map_to_list m) ≡ₚ rows_of rel (map_to_list m').
Proof.
  intros Hm. apply NoDup_Permutation; [apply (NoDup_fmap_1 fst), rows_of_nodup, NoDup_fst_map_to_list..|].
  intros [k v]. by rewrite !rows_of_elem, !elem_of_map_to_list, Hm.
Qed.
Lemma rows_of_map {K V B} (g : K → V → B) rel (l : list (string * K * V)) :
  omap (λ x, if bool_decide (x.1.1 = rel) then Some (g x.1.2 x.2) else None) l = (λ x, g x.1 x.2) <$> rows_of rel l.
Proof. unfold rows_of. induction l as [|[[r k] v] l IH]; [done|]. cbn. case_bool_decide; cbn; by rewrite IH. Qed.
Lemma stored_content_rows rel s : stored_content rel s = (λ r, ReleaseContent (re_cluster r) (re_draft r) (re_revision r) (re_renderer r)
    ((λ x, ContentSource (skind_text (k_kind x.1)) (k_name x.1) (str (so_current x.2))) <$> rows_of rel (map_to_list (sources_rows s)))
    ((λ x, ContentMachine x.1 (mc_base x.2) (mc_assignment x.2) (mc_mode x.2) (mc_configuration x.2)) <$> rows_of rel (map_to_list (machine_rows s))))
  <$> release_rows s !! rel.
Proof.
  unfold stored_content, release_rows. destruct (pt_releases (tpublish s) !! rel) as [r|]; [|done]. cbn. do 2 f_equal.
  - apply (rows_of_map (λ k v, ContentSource (skind_text (k_kind k)) (k_name k) (str (so_current v)))).
  - apply (rows_of_map (λ k v, ContentMachine k (mc_base v) (mc_assignment v) (mc_mode v) (mc_configuration v))).
Qed.
Lemma stored_distinct rel s c : stored_content rel s = Some c → distinct_content c.
Proof.
  rewrite stored_content_rows. intros (r & _ & ->)%fmap_Some. split; simpl; rewrite <-list_fmap_compose.
  - rewrite (list_fmap_ext _ ((λ k, (skind_text (k_kind k), k_name k)) ∘ fst)) by done. rewrite list_fmap_compose.
    apply NoDup_fmap_2; [|apply rows_of_nodup, NoDup_fst_map_to_list]. intros [[] n] [[] n']; by intros [=->].
  - rewrite (list_fmap_ext _ fst) by done. apply rows_of_nodup, NoDup_fst_map_to_list.
Qed.
Lemma digest_same sha256 rel s s' :
  release_rows s' !! rel = release_rows s !! rel → (∀ k, sources_rows s' !! (rel, k) = sources_rows s !! (rel, k)) →
  (∀ m, machine_rows s' !! (rel, m) = machine_rows s !! (rel, m)) → releaseDigest sha256 rel s' = releaseDigest sha256 rel s.
Proof.
  intros Hr Hs Hm. unfold releaseDigest. destruct (stored_content rel s) as [c|] eqn:E.
  - pose proof (stored_distinct _ _ _ E) as Hd. rewrite stored_content_rows in E. apply fmap_Some in E as (r & Er & ->).
    rewrite stored_content_rows, Hr, Er. simpl. unfold digest. do 2 f_equal. symmetry. apply same_encode; [done|].
    split; try done; simpl; f_equiv; by apply rows_of_same.
  - rewrite stored_content_rows in *. by rewrite Hr, (proj1 (fmap_None _ _) E).
Qed.

(** ** Runs *)

Section Runs.
Variables tick mtick : Z → Z.
Variable decode : string → option (list node).
Variable encode : list node → option string.
Variables sha256 hex : string → string.

(** The rest of the program: steps of the core that leave the publication's tables alone, and move its
    operations only as recovery's entry does. *)
Record rest (s s' : pdb) : Prop := Rest {
  rt_worked : worked None s s'; rt_core : rtc (rstep tick decode encode) (core s) (core s'); rt_checks : ops_ok (core s') }.
(** A store before any draft. *)
Record unpublished (s : pdb) : Prop := Unpublished {
  up_drafts : tdrafts s = DraftTables ∅ ∅ ∅; up_heads : heads_of s = ∅; up_view : core_heads s = ∅;
  up_publish : jobs_of s = ∅ ∧ release_rows s = ∅ ∧ sources_rows s = ∅ ∧ machine_rows s = ∅;
  up_ops : ops_ok (core s) ∧ ∀ id o, ops (core s) !! id = Some o → op_kind_of o ≠ KPublish }.
(** The stores a run passed through, latest first, and the store it is at. *)
Inductive prun : list pdb → pdb → Prop :=
| pr_start s : unpublished s → prun [] s
| pr_act seen s s' : prun seen s → pact tick mtick sha256 hex seen s s' → prun (s :: seen) s'
| pr_rest seen s s' : prun seen s → rest s s' → prun (s :: seen) s'.

Lemma prun_later seen s : prun seen s → ∀ s0, s0 ∈ s :: seen → later s0 s.
Proof using.
  induction 1 as [s H|seen s s' Hr IH Hp|seen s s' Hr IH Hp].
  - by intros s0 ->%list_elem_of_singleton.
  - intros s0 [->|Hs]%elem_of_cons; [done|]. etrans; [by apply IH|]. eapply effect_later, pact_effect; [|exact Hp].
    intros s1 H1. apply IH. by right.
  - intros s0 [->|Hs]%elem_of_cons; [done|]. etrans; [by apply IH|]. by eapply worked_later, rt_worked.
Qed.
Lemma prun_ops seen s : prun seen s → ops_ok (core s).
Proof using. induction 1 as [s H|seen s s' Hr IH Hp|seen s s' Hr IH Hp]; [apply H|by eapply (pact_quiet tick mtick decode encode)|apply Hp]. Qed.
Lemma prun_core seen s : prun seen s → ∃ s0, last (s :: seen) = Some s0 ∧ unpublished s0 ∧ rtc (rstep tick decode encode) (core s0) (core s).
Proof using.
  induction 1 as [s H|seen s s' Hr (s0 & Hl & Hu & Hc) Hp|seen s s' Hr (s0 & Hl & Hu & Hc) Hp]; [by exists s|..]; exists s0; (split; [done|]); (split; [done|]).
  - eapply rtc_r; [done|]. eapply (pact_quiet tick mtick); [done|by eapply prun_ops].
  - etrans; [done|apply Hp].
Qed.

(** ** The invariant *)

Definition entry_fits (i : string) (k : source_key) (e : entry_row) (s : pdb) : Prop :=
  ∃ d, drafts_of s !! i = Some d
    ∧ match en_revision e with Some r => ∃ layer, revision_of (k_kind k) r s = Some (df_cluster d, k, layer) | None => True end.
Definition job_fits (op : string) (r : job_row) (s : pdb) : Prop :=
  (∃ o, ops (core s) !! op = Some o ∧ op_kind_of o = KPublish) ∧ ∃ d, drafts_of s !! jb_draft r = Some d ∧ jb_revision r ≤ df_revision d.
Definition draft_fits (i : string) (d : draft_row) (s : pdb) : Prop :=
  match df_state d with
  | DPublished => ∃ rel r, df_release d = Some rel ∧ release_rows s !! rel = Some r ∧ re_draft r = i
      ∧ re_revision r + 1 = df_revision d ∧ re_cluster r = df_cluster d
  | _ => df_release d = None
  end.
Definition op_fits (id : string) (o : operation) (s : pdb) : Prop :=
  ∃ rel r job, op_result o = Some (released_doc rel) ∧ release_rows s !! rel = Some r
    ∧ jobs_of s !! id = Some job ∧ jb_draft job = re_draft r ∧ jb_revision job = re_revision r.
Definition release_fits (rel : string) (r : released) (s : pdb) : Prop :=
  (∃ d, drafts_of s !! re_draft r = Some d ∧ df_state d = DPublished ∧ df_release d = Some rel)
  ∧ (∃ o, ops (core s) !! re_operation r = Some o ∧ op_kind_of o = KPublish ∧ op_st o = Succeeded ∧ op_result o = Some (released_doc rel))
  ∧ (∃ job, jobs_of s !! re_operation r = Some job ∧ jb_draft job = re_draft r ∧ jb_revision job = re_revision r
      ∧ jb_role job = "publisher" ∧ re_by r = jb_by job)
  ∧ releaseDigest sha256 rel s = Some (re_digest r).
(** A release's source names a head that has not gone back, and while it has not moved on, holds what the release left. *)
Definition source_fits (k : source_key) (r : source_row) (s : pdb) : Prop :=
  ∃ h, heads_of s !! so_head r = Some h ∧ hd_key h = k ∧ so_revision r ≤ hd_revision h
    ∧ (so_revision r = hd_revision h → so_current r = hd_current h).
Record pub_inv (s : pdb) : Prop := PubInv {
  pi_unique : heads_unique s;
  pi_viewed : heads_viewed s;
  pi_entries i k e : entries_of s !! (i, k) = Some e → entry_fits i k e s;
  pi_jobs op r : jobs_of s !! op = Some r → job_fits op r s;
  pi_drafts i d : drafts_of s !! i = Some d → draft_fits i d s;
  pi_ops id o : ops (core s) !! id = Some o → op_kind_of o = KPublish → op_st o = Succeeded → op_fits id o s;
  pi_releases rel r : release_rows s !! rel = Some r → release_fits rel r s;
  pi_sources rel k r : sources_rows s !! (rel, k) = Some r → is_Some (release_rows s !! rel) ∧ source_fits k r s;
  pi_machines rel m r : machine_rows s !! (rel, m) = Some r → is_Some (release_rows s !! rel);
  pi_agree x y r r' : sources_rows s !! x = Some r → sources_rows s !! y = Some r' → so_head r = so_head r' → so_revision r = so_revision r' →
    so_current r = so_current r' }.

Lemma unpublished_inv s : unpublished s → pub_inv s.
Proof using.
  intros [Hd Hh Hv (Hj & Hr & Hs & Hm) [_ Ho]]. unfold heads_unique, heads_viewed, drafts_of, entries_of in *.
  split; unfold heads_unique, heads_viewed, drafts_of, entries_of; rewrite ?Hd, ?Hh, ?Hv, ?Hj, ?Hr, ?Hs, ?Hm; try (by intros; simplify_map_eq).
  - intros m rev. rewrite lookup_empty. split; [done|]. intros (i & r & Hi & _). by rewrite lookup_empty in Hi.
  - intros id o Hid Hk. by destruct (Ho id o Hid).
Qed.

(** *** What a later store keeps of it *)

Section Kept.
Context (s s' : pdb) (Hl : later s s').
Lemma entry_fits_later i k e : entry_fits i k e s → entry_fits i k e s'.
Proof using Hl.
  intros (d & Hd & Hf). destruct (la_drafts _ _ Hl _ _ Hd) as (d' & Hd' & Hc & _). exists d'. split; [done|].
  destruct (en_revision e) as [r|]; [|done]. destruct Hf as (layer & Hf). exists layer. rewrite Hc. eapply revision_kept; [apply Hl|done].
Qed.
Lemma job_fits_later op r l : job_fits op r s → job_fits op (with_lease l r) s'.
Proof using Hl.
  intros ((o & Ho & Hk) & d & Hd & Hr). destruct (la_ops _ _ Hl _ _ Ho Hk) as (o' & Ho' & Hk' & _).
  destruct (la_drafts _ _ Hl _ _ Hd) as (d' & Hd' & _ & Hr' & _). split; [by exists o'|]. exists d'. split; [done|]. simpl. lia.
Qed.
Lemma draft_fits_later i d : draft_fits i d s → draft_fits i d s'.
Proof using Hl.
  unfold draft_fits. destruct (df_state d); try done. intros (rel & r & H1 & H2 & H3). exists rel, r. split; [done|]. split; [|done].
  eapply lookup_weaken; [done|apply (la_rows _ _ Hl)].
Qed.
Lemma op_fits_later id o : op_fits id o s → op_fits id o s'.
Proof using Hl.
  intros (rel & r & job & H1 & H2 & H3 & H4 & H5). destruct (la_jobs _ _ Hl _ _ H3) as (l & H3'). exists rel, r, (with_lease l job).
  split_and!; try done. eapply lookup_weaken; [done|apply (la_rows _ _ Hl)].
Qed.
Lemma source_fits_later k r : source_fits k r s → source_fits k r s'.
Proof using Hl.
  intros (h & Hh & Hk & Hr & Hc). destruct (la_heads _ _ Hl _ _ Hh) as (h' & Hh' & _ & Hk' & _ & Hr' & He). exists h'.
  split; [done|]. split; [congruence|]. split; [lia|]. intros E. rewrite He by lia. apply Hc. lia.
Qed.
Lemma release_fits_later rel r :
  drafts_of s' !! re_draft r = drafts_of s !! re_draft r → release_rows s' !! rel = release_rows s !! rel →
  (∀ k, sources_rows s' !! (rel, k) = sources_rows s !! (rel, k)) → (∀ m, machine_rows s' !! (rel, m) = machine_rows s !! (rel, m)) →
  release_fits rel r s → release_fits rel r s'.
Proof using Hl.
  intros Hd Hr Hs Hm (H1 & (o & Ho & Hk & Hst & Hres) & (job & Hj & H2) & H3). split; [by rewrite Hd|]. split.
  - destruct (la_ops _ _ Hl _ _ Ho Hk) as (o' & Ho' & Hk' & _ & He). rewrite (He Hst) in *. by exists o.
  - split; [|by rewrite (digest_same _ _ s)]. destruct (la_jobs _ _ Hl _ _ Hj) as (l & Hj'). by exists (with_lease l job).
Qed.
(** The invariant of a later store, from what is new in it. *)
Lemma inv_later :
  pub_inv s → heads_unique s' → heads_viewed s' →
  (∀ i k e, entries_of s' !! (i, k) = Some e → entries_of s !! (i, k) = Some e ∨ entry_fits i k e s') →
  (∀ op r, jobs_of s' !! op = Some r → is_Some (jobs_of s !! op) ∨ job_fits op r s') →
  (∀ i d, drafts_of s' !! i = Some d → drafts_of s !! i = Some d ∨ draft_fits i d s') →
  (∀ id o, ops (core s') !! id = Some o → op_kind_of o = KPublish → op_st o = Succeeded → ops (core s) !! id = Some o ∨ op_fits id o s') →
  (∀ rel r, release_rows s' !! rel = Some r →
    (release_rows s !! rel = Some r ∧ drafts_of s' !! re_draft r = drafts_of s !! re_draft r
      ∧ (∀ k, sources_rows s' !! (rel, k) = sources_rows s !! (rel, k)) ∧ ∀ m, machine_rows s' !! (rel, m) = machine_rows s !! (rel, m))
    ∨ release_fits rel r s') →
  (∀ rel k r, sources_rows s' !! (rel, k) = Some r → sources_rows s !! (rel, k) = Some r ∨ is_Some (release_rows s' !! rel) ∧ source_fits k r s') →
  (∀ rel m r, machine_rows s' !! (rel, m) = Some r → machine_rows s !! (rel, m) = Some r ∨ is_Some (release_rows s' !! rel)) →
  (∀ x y r r', sources_rows s' !! x = Some r → sources_rows s' !! y = Some r' → so_head r = so_head r' → so_revision r = so_revision r' →
    so_current r = so_current r') →
  pub_inv s'.
Proof using Hl.
  intros [_ _ He Hj Hd Ho Hr Hs Hm _] Hu Hv He' Hj' Hd' Ho' Hr' Hs' Hm' Ha'. destruct (la_rows _ _ Hl) as (Hrr & _ & _).
  assert (Hsome : ∀ rel, is_Some (release_rows s !! rel) → is_Some (release_rows s' !! rel)).
  { intros rel [r H]. exists r. by eapply lookup_weaken. }
  split; try done.
  - intros i k e H. destruct (He' _ _ _ H); [by eapply entry_fits_later, He|done].
  - intros op r H. destruct (Hj' _ _ H) as [[r0 H0]|]; [|done]. destruct (la_jobs _ _ Hl _ _ H0) as (l & Hl'). assert (r = with_lease l r0) as -> by congruence.
    by apply job_fits_later, Hj.
  - intros i d H. destruct (Hd' _ _ H); [by apply draft_fits_later, Hd|done].
  - intros id o H1 H2 H3. destruct (Ho' _ _ H1 H2 H3); [by eapply op_fits_later, Ho|done].
  - intros rel r H. destruct (Hr' _ _ H) as [(H0 & H1 & H2 & H3)|]; [|done]. apply release_fits_later; try done; [congruence|by apply Hr].
  - intros rel k r H. destruct (Hs' _ _ _ H) as [H0|]; [|done]. destruct (Hs _ _ _ H0). split; [by apply Hsome|by apply source_fits_later].
  - intros rel m r H. destruct (Hm' _ _ _ H) as [H0|]; [|done]. by eapply Hsome, Hm.
Qed.
End Kept.

(** *** Steps that leave the releases alone *)

Lemma same_heads_unique s s' : heads_of s' = heads_of s → heads_unique s → heads_unique s'.
Proof using. unfold heads_unique. by intros ->. Qed.
Lemma same_heads_viewed s s' : heads_of s' = heads_of s → core_heads s' = core_heads s → heads_viewed s → heads_viewed s'.
Proof using. unfold heads_viewed. by intros -> ->. Qed.
Lemma worked_inv now s s' : worked now s s' → (∀ id o, now = Some id → ops (core s') !! id = Some o → op_fits id o s') → pub_inv s → pub_inv s'.
Proof using.
  intros Hw Hn Hi. pose proof (worked_later _ _ _ Hw) as Hl. destruct Hw as [(Hd & Hs & Hr & Hso & Hm & Hv) [_ Hj] [_ Ho]].
  assert (Hh : heads_of s' = heads_of s) by (unfold heads_of; by rewrite Hs).
  unfold drafts_of, entries_of in *. apply (inv_later s s' Hl Hi); unfold drafts_of, entries_of; rewrite ?Hd, ?Hr, ?Hso, ?Hm; try (by left); try apply Hi.
  - eapply same_heads_unique; [done|apply Hi].
  - eapply same_heads_viewed; [done|done|apply Hi].
  - intros op r H. destruct (Hj _ _ H) as [(r0 & ?)|(Hop & d & Hdd & Hrev)]; [left; by exists r0|right]. split; [done|].
    exists d. split; [done|]. lia.
  - intros id o H1 H2 H3. destruct (Ho _ _ H1 H2 H3) as [->|]; [right; by apply Hn|by left].
Qed.
Lemma edited_inv i s s' : edited i s s' → pub_inv s → pub_inv s'.
Proof using.
  intros He Hi. pose proof (edited_later _ _ _ He) as Hl.
  destruct He as [(d & token & st & Hd & Hst & Hst' & Hd' & Hen) He _ _ Hh Hp Hv Ho].
  apply (inv_later s s' Hl Hi); unfold release_rows, sources_rows, machine_rows, jobs_of; rewrite ?Hp; try (by left); try apply Hi.
  - eapply same_heads_unique; [done|apply Hi].
  - eapply same_heads_viewed; [done|done|apply Hi].
  - intros j k e H. destruct (decide (j = i)) as [->|Hne]; [|left; by rewrite <-He].
    destruct (Hen _ _ H) as [|[Hf _]]; [by left|right]. exists (edited_row d st token). rewrite Hd', lookup_insert_eq. by split.
  - intros j r. rewrite Hd', lookup_insert_Some. intros [[<- <-]|[_ H]]; [right|by left]. pose proof (pi_drafts _ Hi _ _ Hd) as Hf.
    unfold draft_fits in *. simpl. rewrite Hst in Hf. by destruct st.
  - intros id o H1 H2 H3. left. by apply Ho.
  - intros rel r H. left. split; [done|]. split; [|done]. rewrite Hd', lookup_insert_ne; [done|]. intros ->.
    destruct (pi_releases _ Hi _ _ H) as ((d0 & Hd0 & Hp0 & _) & _). assert (d0 = d) as -> by congruence. congruence.
Qed.
Lemma created_inv i s s' : created i s s' → pub_inv s → pub_inv s'.
Proof using.
  intros Hc Hi. pose proof (created_later _ _ _ Hc) as Hl. destruct Hc as [Hn (c & token & Hd) (Hs & Hp & Hc)].
  assert (Hd' : drafts_of s' = <[i := DraftRow c DOpen 1 token None]> (drafts_of s)) by (unfold drafts_of at 1; by rewrite Hd).
  assert (He' : entries_of s' = entries_of s) by (unfold entries_of at 1; by rewrite Hd).
  apply (inv_later s s' Hl Hi); unfold release_rows, sources_rows, machine_rows, jobs_of; rewrite ?Hp, ?Hd', ?He', ?Hc; try (by left); try apply Hi.
  - eapply same_heads_unique; [|apply Hi]. unfold heads_of. by rewrite Hs.
  - eapply same_heads_viewed; [| |apply Hi]; unfold heads_of, core_heads; by rewrite ?Hs, ?Hc.
  - intros j r. rewrite lookup_insert_Some. intros [[<- <-]|[_ H]]; [by right|by left].
  - intros rel r H. left. split; [done|]. split; [|done]. rewrite lookup_insert_ne; [done|]. intros ->.
    destruct (pi_releases _ Hi _ _ H) as ((d0 & Hd0 & _) & _). congruence.
Qed.
Lemma met_inv j s s' : bound_job j s → met j s s' → pub_inv s → pub_inv s'.
Proof using.
  intros (r & d & Hr & Hjd & Hjr & _) [Hw (rel & re & Hre & Hd & Hrv & o & Ho & _ & _ & Hres)] Hi. eapply worked_inv; [done| |done].
  intros id o' [= <-] Ho'. assert (o' = o) as -> by congruence. destruct Hw as [(_ & _ & Hrr & _) [Hj _] _]. destruct (Hj _ _ Hr) as (l & Hl).
  exists rel, re, (with_lease l r). split_and!; try done; simpl; congruence.
Qed.

(** *** A release *)

Section Published.
Context (rel : string) (j : publishJob) (u : releaseUnit) (heads : list sourceHead) (x : locked_inputs) (dg : string) (a : api) (s s' : pdb).
Context (Hp : published rel j u heads x dg a tick sha256 hex s s') (Hb : bound_job j s).
Context (Hu : Forall (λ h, snapshot_read h s) (un_unchanged u)) (Hi : pub_inv s).

Lemma locked_from h : h ∈ li_heads x → ∃ h0, lock_head s h0 = Some h ∧ (sh_changed h = false → ∃ k, k ∈ un_unchanged u ∧ h0 = unchanged_head k).
Proof using Hp.
  destruct (pb_inputs _ _ _ _ _ _ _ _ _ _ _ _ Hp) as [Hh _ _ _ _]. intros [n Hn]%list_elem_of_lookup.
  destruct (Forall2_lookup_r _ _ _ _ _ Hh Hn) as (h0 & Hn0 & Hl). exists h0. split; [done|]. intros Hc.
  assert (Hc0 : sh_changed h0 = false) by (apply lock_head_ok in Hl as (_ & _ & _ & _ & E & _); congruence).
  apply list_elem_of_lookup_2 in Hn0. apply elem_of_app in Hn0 as [H0|H0].
  - pose proof (pb_changed _ _ _ _ _ _ _ _ _ _ _ _ Hp) as Hall. rewrite Forall_forall in Hall. rewrite (Hall _ H0) in Hc0. done.
  - apply list_elem_of_fmap in H0 as (k & -> & Hk). by exists k.
Qed.
(** A source row of the release: its head as the release left it, or as it found it. *)
Lemma new_source k r : sources_rows s' !! (rel, k) = Some r → sources_rows s !! (rel, k) = None →
  (∃ row, heads_of s' !! so_head r = Some row ∧ hd_key row = k ∧ so_revision r = hd_revision row ∧ so_current r = hd_current row
    ∧ ∀ r0, heads_of s !! so_head r = Some r0 → hd_revision r0 < so_revision r)
  ∨ (∃ row, heads_of s !! so_head r = Some row ∧ hd_key row = k ∧ so_revision r = hd_revision row ∧ so_current r = hd_current row).
Proof using Hp Hu.
  intros H Hn. destruct (rw_sources _ _ _ _ _ _ _ _ _ _ _ (pb_written _ _ _ _ _ _ _ _ _ _ _ _ Hp)) as (left & Hm & _ & Hnk & Hs).
  rewrite Hs in H. apply lookup_union_Some_raw in H as [H|[_ H]]; [|congruence].
  apply elem_of_list_to_map_2, list_elem_of_fmap in H as (h & [= -> ->] & Hin). destruct (Hnk h Hin) as (Hk & _ & _).
  apply list_elem_of_lookup in Hin as [n Hn0]. destruct (Forall2_lookup_r _ _ _ _ _ (hs_results _ _ _ _ _ Hm) Hn0) as (h0 & Hn1 & Hres).
  destruct (locked_from h0) as (h1 & Hl & Hun); [by eapply list_elem_of_lookup_2|]. apply lock_head_ok in Hl as (Ek & Eh & Er & Eb & Ec & Hl).
  unfold head_result in Hres. destruct (sh_changed h0) eqn:Ech.
  - left. destruct Hres as (fresh & i & row & -> & Hrow & [Hcur Hc]). exists row. simpl. split; [done|].
    assert (Hkey : hd_key row = key_of_head h0 ∧ ∀ r0, heads_of s !! i = Some r0 → hd_revision r0 < hd_revision row).
    { destruct (sh_head h0) as [i0|] eqn:E0.
      - destruct Hc as (-> & r & Hr & Hb0 & Hb1 & _ & Hkk & _). rewrite <-Eh in Hl. destruct Hl as (r1 & Hr1 & Hk1 & _).
        assert (r1 = r) as -> by congruence. split; [congruence|]. intros r0 Hr0. assert (r0 = r) as -> by congruence. lia.
      - destruct Hc as (-> & Hnone & _ & (rev & Hrev & Hrv) & _). split; [|congruence].
        destruct (Hk rev) as (layer & Hly); [done|]. unfold key_of_head in Hly. simpl in Hly. rewrite Hly in Hrv. by injection Hrv. }
    destruct Hkey as [Hkey Hlt]. split; [done|]. split_and!; done.
  - right. subst h. destruct (Hun eq_refl) as (k & Hk0 & ->). rewrite Forall_forall in Hu. destruct (Hu k Hk0) as (r & Hr & Hcur & Hrev).
    simpl in *. destruct Hl as (r1 & Hr1 & Hk1 & _). assert (r1 = r) as -> by (unfold heads_of in *; congruence). exists r.
    rewrite Eh. simpl. split; [done|]. split; [done|]. split; [congruence|]. simpl. congruence.
Qed.
Local Notation pb f := (f _ _ _ _ _ _ _ _ _ _ _ _ Hp).
Local Notation rw f := (f _ _ _ _ _ _ _ _ _ _ _ (pb_written _ _ _ _ _ _ _ _ _ _ _ _ Hp)).
Lemma release_later : later s s'.
Proof using Hp. by eapply published_later. Qed.
Lemma no_rows_before : (∀ k, sources_rows s !! (rel, k) = None) ∧ ∀ m, machine_rows s !! (rel, m) = None.
Proof using Hp Hi.
  destruct (rw rw_new) as [Hn _]. split; intros k.
  - destruct (sources_rows s !! (rel, k)) as [r|] eqn:E; [|done]. destruct (pi_sources _ Hi _ _ _ E) as [[r' Hr'] _]. congruence.
  - destruct (machine_rows s !! (rel, k)) as [r|] eqn:E; [|done]. destruct (pi_machines _ Hi _ _ _ E) as [r' Hr']. congruence.
Qed.
Lemma sources_others r k : r ≠ rel → sources_rows s' !! (r, k) = sources_rows s !! (r, k).
Proof using Hp.
  intros Hne. destruct (rw rw_sources) as (left & _ & _ & _ & ->). rewrite lookup_union_r; [done|].
  apply not_elem_of_list_to_map. intros ([k' y] & Hk & (h & [= -> ->] & _)%list_elem_of_fmap)%list_elem_of_fmap. simpl in Hk. congruence.
Qed.
Lemma machines_others r m : r ≠ rel → machine_rows s' !! (r, m) = machine_rows s !! (r, m).
Proof using Hp.
  intros Hne. destruct (rw rw_machines) as (_ & -> & _). rewrite lookup_union_r; [done|].
  apply not_elem_of_list_to_map. intros ([k' y] & Hk & (h & [= -> ->] & _)%list_elem_of_fmap)%list_elem_of_fmap. simpl in Hk. congruence.
Qed.
Lemma release_row : ∃ job, jobs_of s !! pj_op j = Some job ∧ jb_draft job = pj_draft j ∧ jb_revision job = pj_revision j ∧ jb_role job = "publisher"
  ∧ release_rows s' = <[rel := release_row_of j u job dg (epoch (core s))]> (release_rows s)
  ∧ release_fits rel (release_row_of j u job dg (epoch (core s))) s'
  ∧ (∃ d', drafts_of s' !! pj_draft j = Some d' ∧ draft_fits (pj_draft j) d' s')
  ∧ ∃ o', ops (core s') !! pj_op j = Some o' ∧ op_fits (pj_op j) o' s'.
Proof using Hp Hb Hi.
  destruct (rw rw_release) as (job & Hj & Hjd & Hjr & Hjp & Hr). exists job. do 5 (split; [done|]).
  destruct (pb pb_draft) as (d & Hd & Ho & Hrev). destruct (rw rw_drafts) as (token & Ht).
  destruct Hb as (_ & d0 & _ & _ & _ & Hd0 & Hc0). assert (d0 = d) as -> by (unfold drafts_of in Hd; congruence).
  assert (Hd' : drafts_of s' !! pj_draft j = Some (publish_draft token rel d)).
  { unfold drafts_of in *. rewrite Ht. simpl. by rewrite lookup_alter_eq, Hd. }
  destruct (pi_jobs _ Hi _ _ Hj) as ((o & Hop & Hk) & _).
  assert (Hop' : ops (core s') !! pj_op j = Some (end_op Succeeded (Some (released_doc rel)) None o)) by by rewrite (rw rw_ops), lookup_alter_eq, Hop.
  assert (Hj' : jobs_of s' !! pj_op j = Some (with_lease None job)) by by rewrite (rw rw_jobs), lookup_alter_eq, Hj.
  assert (Hrel : release_rows s' !! rel = Some (release_row_of j u job dg (epoch (core s)))) by by rewrite Hr, lookup_insert_eq.
  split; [|split].
  - split; [by eexists|]. split; [by eexists|]. split; [by exists (with_lease None job)|]. apply (rw rw_digest).
  - eexists. split; [exact Hd'|]. unfold draft_fits. simpl. eexists _, _. split; [done|]. split; [exact Hrel|]. simpl. split_and!; [done|lia|done].
  - eexists. split; [exact Hop'|]. eexists rel, _, _. split; [done|]. split; [exact Hrel|]. split; [exact Hj'|]. done.
Qed.
Lemma published_agree y z r r' : sources_rows s' !! y = Some r → sources_rows s' !! z = Some r' → so_head r = so_head r' →
  so_revision r = so_revision r' → so_current r = so_current r'.
Proof using Hp Hu Hi.
  destruct no_rows_before as [Hns _]. pose proof (la_heads _ _ release_later) as Hg.
  assert (Hmixed : ∀ k w q q', sources_rows s' !! (rel, k) = Some q → sources_rows s !! w = Some q' → so_head q = so_head q' →
    so_revision q = so_revision q' → so_current q = so_current q').
  { intros k [w1 w2] q q' Hq Hq' Eh Er. destruct (pi_sources _ Hi _ _ _ Hq') as (_ & h & Hh & _ & Hle & Hcur).
    destruct (new_source k q Hq (Hns k)) as [(row & _ & _ & _ & _ & Hlt)|(row & Hrow & _ & Hv & Hc)].
    - rewrite Eh in Hlt. specialize (Hlt _ Hh). lia.
    - rewrite Eh in Hrow. assert (row = h) as -> by congruence. rewrite Hc, Hcur; [done|congruence]. }
  assert (Hkey : ∀ k q, sources_rows s' !! (rel, k) = Some q → ∃ row, heads_of s' !! so_head q = Some row ∧ hd_key row = k).
  { intros k q Hq. destruct (new_source k q Hq (Hns k)) as [(row & Hrow & Hk & _)|(row & Hrow & Hk & _)]; [by exists row|].
    destruct (Hg _ _ Hrow) as (row' & Hrow' & _ & Hk' & _). exists row'. split; [done|congruence]. }
  intros Hy Hz Eh Er. destruct y as [y1 y2], z as [z1 z2]. destruct (decide (y1 = rel)) as [->|Hy1], (decide (z1 = rel)) as [->|Hz1].
  - destruct (Hkey _ _ Hy) as (r1 & Hr1 & Hk1), (Hkey _ _ Hz) as (r2 & Hr2 & Hk2). rewrite Eh in Hr1. assert (y2 = z2) as -> by congruence. congruence.
  - rewrite sources_others in Hz by done. by eapply Hmixed.
  - rewrite sources_others in Hy by done. symmetry. by eapply Hmixed.
  - rewrite sources_others in Hy, Hz by done. by eapply (pi_agree _ Hi).
Qed.
Lemma published_inv : pub_inv s'.
Proof using Hp Hu Hi Hb.
  pose proof release_later as Hl. destruct release_row as (job & Hj & _ & _ & _ & Hr & Hfit & (d' & Hd' & Hdf) & (o' & Ho' & Hof)).
  destruct (rw rw_sources) as (left & Hm & _). destruct (rw rw_drafts) as (token & Ht). destruct no_rows_before as [Hns Hnm].
  destruct (pb pb_draft) as (d & Hd & Hopen & _).
  assert (Hdo : ∀ i, i ≠ pj_draft j → drafts_of s' !! i = drafts_of s !! i) by (intros i Hne; unfold drafts_of; rewrite Ht; simpl; by rewrite lookup_alter_ne).
  apply (inv_later s s' Hl Hi).
  - apply (hs_unique _ _ _ _ _ Hm), Hi.
  - apply (hs_viewed _ _ _ _ _ Hm); apply Hi.
  - intros i k e. unfold entries_of. rewrite Ht. by left.
  - intros op r. rewrite (rw rw_jobs), lookup_alter_Some. intros [(_ & r0 & H0 & _)|[_ H0]]; left; by eexists.
  - intros i d0 H0. destruct (decide (i = pj_draft j)) as [->|Hne]; [right; by simplify_eq|left; by rewrite <-Hdo].
  - intros id o H0 _ _. destruct (decide (id = pj_op j)) as [->|Hne]; [right; by simplify_eq|left].
    by rewrite (rw rw_ops), lookup_alter_ne in H0 by done.
  - intros r0 r H0. rewrite Hr, lookup_insert_Some in H0. destruct H0 as [[<- <-]|[Hne H0]]; [by right|left]. split; [done|].
    split; [|split; intros; [by apply sources_others|by apply machines_others]]. apply Hdo. intros He.
    destruct (pi_releases _ Hi _ _ H0) as ((d0 & Hd0 & Hp0 & _) & _). rewrite He in Hd0. assert (d0 = d) as -> by congruence. congruence.
  - intros r0 k r H0. destruct (decide (r0 = rel)) as [->|Hne]; [right|left; by rewrite <-sources_others]. split; [rewrite Hr, lookup_insert_eq; by eexists|].
    destruct (new_source k r H0 (Hns k)) as [(row & Hrow & Hk & Hv & Hc & _)|(row & Hrow & Hk & Hv & Hc)].
    + exists row. split_and!; try done. lia.
    + apply (source_fits_later s s' Hl). exists row. split_and!; try done. lia.
  - intros r0 m r H0. destruct (decide (r0 = rel)) as [->|Hne]; [right|left; by rewrite <-machines_others]. rewrite Hr, lookup_insert_eq. by eexists.
  - apply published_agree.
Qed.
End Published.

Lemma effect_inv s s' : effect tick sha256 hex s s' → pub_inv s → pub_inv s'.
Proof using.
  intros [i H|i H|H|j Hb H|rel a j u heads x H Hb Hu] Hi; [by eapply edited_inv|by eapply created_inv|by eapply worked_inv|by eapply met_inv|by eapply published_inv].
Qed.
Lemma prun_inv seen s : prun seen s → ∀ s0, s0 ∈ s :: seen → pub_inv s0.
Proof using.
  induction 1 as [s H|seen s s' Hr IH Hp|seen s s' Hr IH Hp].
  - intros s0 ->%list_elem_of_singleton. by apply unpublished_inv.
  - intros s0 [->|Hs]%elem_of_cons; [|by apply IH]. eapply effect_inv; [|apply IH; by left]. eapply pact_effect; [|exact Hp].
    intros s1 H1. eapply prun_later; [done|by right].
  - intros s0 [->|Hs]%elem_of_cons; [|by apply IH]. eapply worked_inv; [apply Hp|done|apply IH; by left].
Qed.
End Runs.

(** ** What runs of publication give its properties: where an entry's base was read, what a release
    leaves alone, and which assignments move. *)

Section Facts.
Variables tick mtick : Z → Z.
Variable decode : string → option (list node).
Variable encode : list node → option string.
Variables sha256 hex : string → string.
Local Notation run := (prun tick mtick decode encode sha256 hex).

(** ** Where an entry's base was read *)

(** Of the stores [l], latest first, [s0] is the last one in which draft [i] had no entry for [k]: in each
    store after it there is one, and its base has not been set again. *)
Definition first_set (i : string) (k : source_key) (base : option Z) (l : list pdb) (s0 : pdb) : Prop := ∃ after before, l = after ++ s0 :: before
  ∧ entries_of s0 !! (i, k) = None ∧ Forall (λ t, ∃ e, entries_of t !! (i, k) = Some e ∧ en_base e = base) after.
Lemma first_set_in i k base l s0 : first_set i k base l s0 → s0 ∈ l.
Proof using. intros (after & before & -> & _). apply elem_of_app. right. by left. Qed.
Lemma first_set_more i k e l s0 s : entries_of s !! (i, k) = Some e → first_set i k (en_base e) l s0 → first_set i k (en_base e) (s :: l) s0.
Proof using. intros He (after & before & -> & Hn & Ha). exists (s :: after), before. split_and!; [done|done|]. constructor; [by exists e|done]. Qed.
Lemma first_set_now i k e l s s' : entries_of s !! (i, k) = None → entries_of s' !! (i, k) = Some e → first_set i k (en_base e) (s' :: s :: l) s.
Proof using. intros Hn He. exists [s'], l. split_and!; [done|done|]. constructor; [by exists e|done]. Qed.
Definition based (seen : list pdb) (s : pdb) : Prop := ∀ i k e d, entries_of s !! (i, k) = Some e → drafts_of s !! i = Some d →
  ∃ s0, first_set i k (en_base e) (s :: seen) s0 ∧ base_at (df_cluster d) k (en_base e) s0.
Lemma based_same seen s s' : (∀ i d', drafts_of s' !! i = Some d' → is_Some (drafts_of s !! i) → ∃ d, drafts_of s !! i = Some d ∧ df_cluster d = df_cluster d') →
  entries_of s' = entries_of s → (∀ i k e, entries_of s !! (i, k) = Some e → is_Some (drafts_of s !! i)) → based seen s → based (s :: seen) s'.
Proof using.
  intros Hd He Hx Hb i k e d'. intros H1 H2. pose proof H1 as H1'. rewrite He in H1'. destruct (Hd i d' H2 (Hx _ _ _ H1')) as (d & Hd1 & Hc).
  destruct (Hb i k e d H1' Hd1) as (s0 & Hs0 & H0). exists s0. rewrite <-Hc. split; [by apply first_set_more|done].
Qed.
Lemma effect_based seen s s' : effect tick sha256 hex s s' → pub_inv sha256 s → based seen s → based (s :: seen) s'.
Proof using.
  intros H Hi Hb. pose proof (effect_later _ _ _ _ _ H) as Hl.
  assert (Hd : ∀ i d', drafts_of s' !! i = Some d' → is_Some (drafts_of s !! i) → ∃ d, drafts_of s !! i = Some d ∧ df_cluster d = df_cluster d').
  { intros i d' H1 [d H2]. exists d. split; [done|]. destruct (la_drafts _ _ Hl _ _ H2) as (d1 & H3 & H4 & _). congruence. }
  assert (Hx : ∀ i k e, entries_of s !! (i, k) = Some e → is_Some (drafts_of s !! i)).
  { intros i k e H1. destruct (pi_entries _ _ Hi _ _ _ H1) as (d & H2 & _). by exists d. }
  destruct H as [i He|i He|He|j _ He|rel a j u heads x He _ _].
  - destruct He as [(d & token & st & H1 & _ & _ & _ & Hen) Hot _ _ _ _ _ _]. intros i0 k e d' H2 H3.
    destruct (decide (i0 = i)) as [->|Hne].
    + destruct (Hd _ _ H3) as (d0 & H4 & Hc); [by exists d|]. assert (d0 = d) as -> by congruence. rewrite <-Hc.
      assert (Hold : ∀ e0, entries_of s !! (i, k) = Some e0 → en_base e = en_base e0 →
        ∃ s0, first_set i k (en_base e) (s' :: s :: seen) s0 ∧ base_at (df_cluster d) k (en_base e) s0).
      { intros e0 H5 E. destruct (Hb _ _ _ _ H5 H1) as (s0 & Hs0 & H6). exists s0. rewrite <-E in *. split; [by apply first_set_more|done]. }
      destruct (Hen _ _ H2) as [H5|[_ H5]]; [by apply (Hold e)|]. destruct (entries_of s !! (i, k)) as [e0|] eqn:E0; [by apply (Hold e0)|].
      exists s. split; [by apply first_set_now|done].
    + pose proof H2 as H2'. rewrite Hot in H2' by done. destruct (Hd _ _ H3) as (d0 & H4 & <-); [by eapply Hx|].
      destruct (Hb _ _ _ _ H2' H4) as (s0 & Hs0 & H6). exists s0. split; [by apply first_set_more|done].
  - destruct He as [_ (c & token & Hdd) _]. apply based_same; try done. unfold entries_of at 1. by rewrite Hdd.
  - apply based_same; try done. unfold entries_of. by rewrite (proj1 (wk_tables _ _ _ He)).
  - apply based_same; try done. unfold entries_of. by rewrite (proj1 (wk_tables _ _ _ (me_worked _ _ _ He))).
  - destruct (rw_drafts _ _ _ _ _ _ _ _ _ _ _ (pb_written _ _ _ _ _ _ _ _ _ _ _ _ He)) as (token & Ht).
    apply based_same; try done. unfold entries_of. by rewrite Ht.
Qed.
Lemma run_based seen s : run seen s → based seen s.
Proof using.
  induction 1 as [s H|seen s s' Hr IH Hp|seen s s' Hr IH Hp].
  - intros i k e d. unfold entries_of. rewrite (up_drafts _ H). simpl. by rewrite lookup_empty.
  - eapply effect_based; [|eapply prun_inv; [done|by left]|done]. eapply pact_effect; [|exact Hp].
    intros s1 H1. eapply prun_later; [done|by right].
  - eapply effect_based; [eapply ef_worked, Hp|eapply prun_inv; [done|by left]|done].
Qed.

(** ** The heads a release replaces *)

Section Inputs.
Context (seen : list pdb) (s s1 : pdb) (Hrun : run seen s) (Hs1 : s1 ∈ s :: seen).
Context (rel : string) (j : publishJob) (u : releaseUnit) (x : locked_inputs) (dg : string) (a : api) (s' : pdb).
Context (Hb : bound_job j s1) (Hp : published rel j u (draftHeads (pj_draft j) s1) x dg a tick sha256 hex s s').

(** The draft read before the locks is the draft under them. *)
Lemma read_draft : ∃ d, drafts_of s !! pj_draft j = Some d ∧ drafts_of s1 !! pj_draft j = Some d ∧ df_cluster d = pj_cluster j
  ∧ df_revision d = pj_revision j ∧ ∀ k, entries_of s !! (pj_draft j, k) = entries_of s1 !! (pj_draft j, k).
Proof using Hrun Hs1 Hb Hp.
  destruct (pb_draft _ _ _ _ _ _ _ _ _ _ _ _ Hp) as (d & Hd & _ & Hrev). destruct Hb as (r & d1 & Hr & Hjd & Hjr & Hd1 & Hc).
  pose proof (prun_later _ _ _ _ _ _ _ _ Hrun s1 Hs1) as Hl. destruct (la_drafts _ _ Hl _ _ Hd1) as (d' & Hd' & Hc' & Hle & He).
  assert (d' = d) as -> by congruence. destruct (pi_jobs _ _ (prun_inv _ _ _ _ _ _ _ _ Hrun s1 Hs1) _ _ Hr) as (_ & d2 & Hd2 & Hle2).
  rewrite Hjd in Hd2. assert (d2 = d1) as -> by (unfold drafts_of in *; congruence). destruct He as (-> & He & _); [lia|].
  exists d1. by split_and!.
Qed.
(** The lock of an entry. *)
Lemma entry_locked k e : entries_of s !! (pj_draft j, k) = Some e → ∃ h, h ∈ li_heads x ∧ sh_changed h = true
  ∧ sh_kind h = k_kind k ∧ sh_head h = fst <$> head_at (pj_cluster j) k s1 ∧ sh_revision h = en_revision e ∧ sh_base h = default 0 (en_base e)
  ∧ head_conflict h = None
  ∧ match sh_head h with Some i => ∃ r, heads_of s !! i = Some r ∧ sh_actual h = hd_revision r | None => True end.
Proof using Hrun Hs1 Hb Hp.
  intros He. destruct read_draft as (d & Hd & Hd1 & Hc & _ & Hen). rewrite Hen in He.
  set (h0 := SourceHead (k_kind k) (k_name k) (fst <$> head_at (pj_cluster j) k s1) (en_revision e) (default 0 (en_base e)) 0 true).
  assert (Hin : h0 ∈ draftHeads (pj_draft j) s1).
  { unfold draftHeads. apply list_elem_of_omap. exists (pj_draft j, k, e). split; [by apply elem_of_map_to_list|]. simpl.
    rewrite bool_decide_true by done. unfold drafts_of in Hd1. rewrite Hd1. simpl. by rewrite Hc. }
  destruct (pb_inputs _ _ _ _ _ _ _ _ _ _ _ _ Hp) as [Hh _ Hl _ _].
  assert (Hin' : h0 ∈ draftHeads (pj_draft j) s1 ++ (unchanged_head <$> un_unchanged u)) by (apply elem_of_app; by left).
  apply list_elem_of_lookup in Hin' as [n Hn]. destruct (Forall2_lookup_l _ _ _ _ _ Hh Hn) as (h & Hn' & Hlock).
  apply list_elem_of_lookup_2 in Hn'. exists h. apply lock_head_ok in Hlock as (E1 & E2 & E3 & E4 & E5 & E6). split; [done|].
  simpl in *. do 5 (split; [done|]). split.
  - pose proof (pb_conflicts _ _ _ _ _ _ _ _ _ _ _ _ Hp) as Hcf. apply app_eq_nil in Hcf as [Hcf _]. rewrite omap_none in Hcf. apply Hcf.
    by rewrite Hl, merge_sort_Permutation.
  - rewrite E2. destruct (fst <$> _) as [i|]; [|done]. destruct E6 as (r & Hr & _ & Ha). by exists r.
Qed.
(** A name that has no head as the draft was read has none under the locks. *)
Lemma introduced_new k e i r : entries_of s !! (pj_draft j, k) = Some e → head_at (pj_cluster j) k s1 = None →
  ¬ head_in (pj_cluster j) k i r s.
Proof using Hrun Hs1 Hb Hp.
  intros He Hn (Hr & Hc & Hk). destruct (entry_locked k e He) as (h & Hin & Hch & Ek & Eh & Er & _ & _). rewrite Hn in Eh.
  destruct (rw_sources _ _ _ _ _ _ _ _ _ _ _ (pb_written _ _ _ _ _ _ _ _ _ _ _ _ Hp)) as (left & Hm & _).
  apply list_elem_of_lookup in Hin as [n Hin]. destruct (Forall2_lookup_l _ _ _ _ _ (hs_results _ _ _ _ _ Hm) Hin) as (h' & _ & Hres).
  unfold head_result in Hres. rewrite Hch in Hres. destruct Hres as (fresh & i0 & row & _ & _ & [_ Hcase]). simpl in Eh. rewrite Eh in Hcase.
  destruct Hcase as (_ & _ & _ & (rev & Hrev & Hrv) & Hall).
  destruct (pi_entries _ _ (prun_inv _ _ _ _ _ _ _ _ Hrun s ltac:(by left)) _ _ _ He) as (d & Hd & Hfit).
  destruct read_draft as (d' & Hd' & _ & Hcl & _). assert (d' = d) as -> by congruence.
  rewrite Er in Hrev. rewrite Hrev in Hfit. destruct Hfit as (layer & Hfit). rewrite Ek, Hfit in Hrv. injection Hrv as E1 E2 _.
  specialize (Hall _ _ Hr). rewrite <-E1, <-E2, Hcl, <-Hc, <-Hk, names_self in Hall. done.
Qed.
(** Each name's head is as it was when the draft first set its entry. *)
Lemma entry_unmoved k e : entries_of s !! (pj_draft j, k) = Some e → ∃ s0, first_set (pj_draft j) k (en_base e) (s :: seen) s0 ∧ base_at (pj_cluster j) k (en_base e) s0
  ∧ ∀ i r, head_in (pj_cluster j) k i r s ↔ head_in (pj_cluster j) k i r s0.
Proof using Hrun Hs1 Hb Hp.
  intros He. destruct read_draft as (d & Hd & _ & Hcl & _). destruct (run_based _ _ Hrun _ _ _ _ He Hd) as (s0 & Hset & Hbase).
  rewrite Hcl in Hbase. exists s0. split; [done|]. split; [done|]. pose proof (first_set_in _ _ _ _ _ Hset) as Hs0. pose proof (prun_later _ _ _ _ _ _ _ _ Hrun s0 Hs0) as Hl0.
  pose proof (prun_later _ _ _ _ _ _ _ _ Hrun s1 Hs1) as Hl1.
  assert (Hu : ∀ t, t ∈ s :: seen → ∀ i i' r r', head_in (pj_cluster j) k i r t → head_in (pj_cluster j) k i' r' t → i = i' ∧ r = r').
  { intros t Ht i i' r r' (Hr & Hc & Hk) (Hr' & Hc' & Hk'). assert (i = i') as <-; [|split; [done|congruence]].
    eapply (pi_unique _ _ (prun_inv _ _ _ _ _ _ _ _ Hrun t Ht)); [done|done|]. by rewrite Hc, Hk, <-Hc', <-Hk', names_self. }
  destruct (entry_locked k e He) as (h & Hin & Hch & _ & Eh & _ & Eb & Hcf & Hact). destruct (head_at (pj_cluster j) k s1) as [[i1 r1]|] eqn:Ea.
  - simpl in Eh. rewrite Eh in Hact. destruct Hact as (r & Hr & Hact). unfold head_conflict in Hcf. rewrite Eh, Hch in Hcf. simpl in Hcf.
    destruct (Z.eqb_spec (sh_base h) 0) as [|Hnz]; [done|]. destruct (Z.eqb_spec (sh_actual h) (sh_base h)) as [Heq|]; [|done].
    destruct (en_base e) as [b|]; [|simpl in Eb; lia]. simpl in Eb. destruct Hbase as (i0 & r0 & (Hr0 & Hc0 & Hk0) & Hv0).
    apply head_at_some in Ea as [Hr1 Hn1]. destruct (la_heads _ _ Hl1 _ _ Hr1) as (r1' & Hr1' & Hc1 & Hk1 & _).
    destruct (la_heads _ _ Hl0 _ _ Hr0) as (r0' & Hr0' & Hc0' & Hk0' & _ & _ & He0).
    assert (i0 = i1) as ->.
    { eapply (pi_unique _ _ (prun_inv _ _ _ _ _ _ _ _ Hrun s ltac:(by left))); [exact Hr0'|exact Hr1'|].
      rewrite Hc0', Hk0', Hc0, Hk0. by rewrite (names_same _ _ r1 r1'). }
    assert (r1' = r) as -> by congruence. assert (r0' = r) as -> by congruence. rewrite He0 in * by congruence.
    assert (Ha : head_in (pj_cluster j) k i1 r0 s) by done. assert (Hz : head_in (pj_cluster j) k i1 r0 s0) by done.
    intros i t. split; intros H; [destruct (Hu s ltac:(by left) _ _ _ _ H Ha) as [-> ->]|destruct (Hu s0 Hs0 _ _ _ _ H Hz) as [-> ->]]; done.
  - assert (Hno : ∀ i r, ¬ head_in (pj_cluster j) k i r s) by (intros i r; by eapply introduced_new).
    intros i r. split; [by intros ?%Hno|]. intros (Hr & Hc & Hk). destruct (la_heads _ _ Hl0 _ _ Hr) as (r' & Hr' & Hc' & Hk' & _).
    exfalso. apply (Hno i r'). split_and!; [done|congruence|congruence].
Qed.
(** Every head the unit uses unchanged is as its snapshot read it. *)
Lemma unchanged_unmoved h : Forall (λ h, ∃ s2, s2 ∈ s :: seen ∧ snapshot_read h s2) (un_unchanged u) → h ∈ un_unchanged u → snapshot_read h s.
Proof using Hrun Hp.
  intros Hu Hin. rewrite Forall_forall in Hu. destruct (Hu h Hin) as (s2 & Hs2 & r & Hr & Hcur & Hrev).
  destruct (la_heads _ _ (prun_later _ _ _ _ _ _ _ _ Hrun s2 Hs2) _ _ Hr) as (r' & Hr' & _ & _ & _ & _ & He).
  destruct (unchanged_locked _ _ _ _ _ _ (pb_inputs _ _ _ _ _ _ _ _ _ _ _ _ Hp) (pb_conflicts _ _ _ _ _ _ _ _ _ _ _ _ Hp) Hin) as (r2 & Hr2 & Hv2).
  assert (r2 = r') as -> by congruence. exists r'. split; [done|]. rewrite He by congruence. done.
Qed.
End Inputs.

(** ** Import bases *)

Lemma bases_unmoved rel j u heads x dg a s s' : published rel j u heads x dg a tick sha256 hex s s' →
  (∀ m, m ∈ un_machines u → assoc (um_machine m) (bases_of (pj_cluster j) (pj_draft j) s) = Some (um_base m))
  ∧ ∀ m b, (m, b) ∈ bases_of (pj_cluster j) (pj_draft j) s → b ≠ "" → m ∈ um_machine <$> un_machines u.
Proof using.
  intros Hp. pose proof (pb_conflicts _ _ _ _ _ _ _ _ _ _ _ _ Hp) as Hc. destruct (pb_inputs _ _ _ _ _ _ _ _ _ _ _ _ Hp) as [_ _ _ Hb [_ Hcov]].
  rewrite Hb in *. unfold conflicts_of in Hc. apply app_eq_nil in Hc as [_ Hc]. apply app_eq_nil in Hc as [H1 H2]. rewrite omap_none in H1. rewrite omap_none in H2.
  split.
  - intros m Hm. destruct (Hcov (um_machine m)) as [_ [b Hb']]; [by apply list_elem_of_fmap_2|]. rewrite Hb'. specialize (H1 m).
    rewrite merge_sort_Permutation in H1. specialize (H1 Hm). unfold machine_conflict in H1. rewrite Hb' in H1. simpl in H1. by case_bool_decide; subst.
  - intros m b Hin Hne. specialize (H2 _ Hin). unfold uncovered_conflict in H2. simpl in H2. rewrite (bool_decide_false _ Hne) in H2. simpl in H2.
    by case_bool_decide.
Qed.

(** ** Releases do not change *)

Definition same_release (rel : string) (s s' : pdb) : Prop :=
  release_rows s' !! rel = release_rows s !! rel ∧ (∀ k, sources_rows s' !! (rel, k) = sources_rows s !! (rel, k))
  ∧ ∀ m, machine_rows s' !! (rel, m) = machine_rows s !! (rel, m).
#[export] Instance same_release_preorder rel : PreOrder (same_release rel).
Proof using.
  split; [by split|]. intros y z t (H1 & H2 & H3) (H4 & H5 & H6). split; [congruence|]. split; intros; [by rewrite H5|by rewrite H6].
Qed.
Lemma tables_same_release rel s s' : release_rows s' = release_rows s → sources_rows s' = sources_rows s → machine_rows s' = machine_rows s →
  same_release rel s s'.
Proof using. unfold same_release. by intros -> -> ->. Qed.
Lemma effect_release rel s s' : effect tick sha256 hex s s' → pub_inv sha256 s → is_Some (release_rows s !! rel) → same_release rel s s'.
Proof using.
  intros H Hi [r Hr]. destruct H as [i He|i He|He|j _ He|rel' a j u heads x He Hb Hu].
  - apply tables_same_release; unfold release_rows, sources_rows, machine_rows; by rewrite (ed_publish _ _ _ He).
  - destruct He as [_ _ (_ & Hp & _)]. apply tables_same_release; unfold release_rows, sources_rows, machine_rows; by rewrite Hp.
  - destruct He as [(_ & _ & ? & ? & ? & _) _ _]. by apply tables_same_release.
  - destruct He as [[(_ & _ & ? & ? & ? & _) _ _] _]. by apply tables_same_release.
  - pose proof (rw_new _ _ _ _ _ _ _ _ _ _ _ (pb_written _ _ _ _ _ _ _ _ _ _ _ _ He)) as [Hn _].
    assert (Hne : rel ≠ rel') by congruence. split; [|split; intros k; [by eapply sources_others|by eapply machines_others]].
    destruct (rw_release _ _ _ _ _ _ _ _ _ _ _ (pb_written _ _ _ _ _ _ _ _ _ _ _ _ He)) as (job & _ & _ & _ & _ & ->). by rewrite lookup_insert_ne.
Qed.
Lemma run_release seen s s0 rel : run seen s → s0 ∈ s :: seen → is_Some (release_rows s0 !! rel) → same_release rel s0 s.
Proof using.
  intros H. revert s0. induction H as [s H|seen s s' Hr IH Hp|seen s s' Hr IH Hp]; intros s0.
  - intros ->%list_elem_of_singleton. done.
  - intros [->|Hs]%elem_of_cons H0; [done|]. specialize (IH s0 Hs H0). trans s; [done|].
    eapply effect_release; [eapply pact_effect; [|exact Hp]|by eapply prun_inv; [|left]|destruct IH as [-> _]; done].
    intros s1 H1. eapply prun_later; [done|by right].
  - intros [->|Hs]%elem_of_cons H0; [done|]. specialize (IH s0 Hs H0). trans s; [done|].
    eapply effect_release; [eapply ef_worked, Hp|by eapply prun_inv; [|left]|destruct IH as [-> _]; done].
Qed.

(** ** The assignments a release moves *)

Lemma assignment_moved rel j u heads x dg a s s' m :
  published rel j u heads x dg a tick sha256 hex s s' → bound_job j s → Forall (λ h, snapshot_read h s) (un_unchanged u) → pub_inv sha256 s →
  core_heads s' !! m ≠ core_heads s !! m →
  ∃ h, h ∈ li_heads x ∧ sh_changed h = true ∧ key_of_head h = SourceKey SAssignment m.
Proof using.
  intros Hp Hb Hu Hi Hne. destruct (rw_sources _ _ _ _ _ _ _ _ _ _ _ (pb_written _ _ _ _ _ _ _ _ _ _ _ _ Hp)) as (left & Hm & Hnd & _ & Hs).
  destruct (decide (Exists (λ h, sh_changed h = true ∧ key_of_head h = SourceKey SAssignment m) (li_heads x))) as [He|Hno].
  { apply Exists_exists in He as (h & Hin & ? & ?). by exists h. }
  exfalso. apply Hne. clear Hne.
  assert (Hmv : ∀ h i row, h ∈ left → sh_changed h = true → sh_head h = Some i → heads_of s' !! i = Some row → hd_key row ≠ SourceKey SAssignment m).
  { intros h i row Hin Hch Hh Hrow Hk. apply Hno, Exists_exists. apply list_elem_of_lookup in Hin as [n Hn].
    destruct (Forall2_lookup_r _ _ _ _ _ (hs_results _ _ _ _ _ Hm) Hn) as (h0 & Hn0 & Hres). exists h0. split; [by eapply list_elem_of_lookup_2|].
    assert (Hkh : sh_changed h0 = true ∧ key_of_head h0 = key_of_head h).
    { unfold head_result in Hres. destruct (sh_changed h0) eqn:E; [|congruence]. by destruct Hres as (? & ? & ? & -> & _). }
    destruct Hkh as [? Hkh]. split; [done|]. rewrite Hkh, <-Hk.
    assert (Hsr : sources_rows s' !! (rel, key_of_head h) = Some (source_row_of h)).
    { rewrite Hs. apply lookup_union_Some_l, elem_of_list_to_map_1.
      - rewrite <-list_fmap_compose. rewrite (list_fmap_ext _ (pair rel ∘ key_of_head)) by done. rewrite list_fmap_compose.
        apply NoDup_fmap_2; [by intros ?? [=]|done].
      - apply list_elem_of_fmap. exists h. split; [done|by eapply list_elem_of_lookup_2]. }
    assert (Hns : ∀ k, sources_rows s !! (rel, k) = None) by (eapply no_rows_before; done).
    eapply new_source in Hsr as [(row' & Hr' & Hk' & _)|(row' & Hr' & Hk' & _)]; try done.
    - simpl in Hr'. rewrite Hh in Hr'. simpl in Hr'. congruence.
    - simpl in Hr'. rewrite Hh in Hr'. simpl in Hr'. destruct (hs_grow _ _ _ _ _ Hm _ _ Hr') as (r2 & Hr2 & _ & Hk2 & _). congruence. }
  assert (Hother : ∀ i r, heads_of s' !! i = Some r → hd_key r = SourceKey SAssignment m → heads_of s !! i = Some r).
  { intros i r Hr Hk. rewrite <-(hs_others _ _ _ _ _ Hm i); [done|]. intros h' Hin Hch Hh. by eapply Hmv. }
  pose proof (pi_viewed _ _ Hi) as Hv. pose proof (hs_viewed _ _ _ _ _ Hm (pi_unique _ _ Hi) Hv) as Hv'.
  apply option_eq. intros rev. rewrite (Hv m rev), (Hv' m rev). split; intros (i & r & Hr & Hk & Hc); exists i, r; split_and!; try done.
  - by apply Hother.
  - destruct (hs_grow _ _ _ _ _ Hm _ _ Hr) as (r' & Hr' & _ & Hk' & _). assert (heads_of s !! i = Some r') by (apply Hother; congruence). congruence.
Qed.
(** An assignment is moved on no held scope, and in recovery on a released one. *)
Lemma moved_free rel j u heads x dg a s s' h : published rel j u heads x dg a tick sha256 hex s s' → h ∈ li_heads x → sh_changed h = true →
  sh_kind h = SAssignment → sh_key h ∈ um_machine <$> un_machines u ∧ held_by (sh_key h) s = None
    ∧ (recovery (core s) = true → m_scope <$> machines (core s) !! sh_key h = Some "released").
Proof using.
  intros Hp Hin Hch Hk. pose proof (pb_assignments _ _ _ _ _ _ _ _ _ _ _ _ Hp h Hin) as Ha. unfold assignment_refusal in Ha.
  rewrite Hch, (bool_decide_true _ Hk) in Ha. simpl in Ha. destruct (bool_decide_reflect (sh_key h ∈ um_machine <$> un_machines u)); [|done].
  simpl in Ha. destruct (held_by (sh_key h) s); [done|]. split; [done|]. split; [done|]. intros Hr. rewrite Hr in Ha. simpl in Ha. by case_bool_decide.
Qed.
(** Only a release moves them. *)
Lemma effect_view s s' : effect tick sha256 hex s s' → core_heads s' = core_heads s
  ∨ ∃ rel a j u heads x, published rel j u heads x (locked_content sha256 j u x) a tick sha256 hex s s' ∧ bound_job j s ∧ Forall (λ h, snapshot_read h s) (un_unchanged u).
Proof using.
  intros [i He|i He|He|j _ He|rel' a j u heads x He Hb Hu]; [left..|right; by eexists _, _, _, _, _, _].
  - apply He.
  - unfold core_heads. by rewrite (proj2 (proj2 (cr_rest _ _ _ He))).
  - apply (wk_tables _ _ _ He).
  - apply (wk_tables _ _ _ (me_worked _ _ _ He)).
Qed.
End Facts.
