(* ===== verification/PublishScenario.v ===== *)
(** * A concrete publication: a draft created, a fragment and an assignment proposed, an import's base
    bound, the publication requested, claimed twice, and committed. *)

From stdpp Require Import relations sorting pretty.
From S2P Require Import Prelude Ident Times Json Classify Store.
From S2P Require Import World Evidence Commit Observe Lifecycle System Scenario Request Governance Authority Governed GovernedScenario.
From S2P Require Import Recovery RecoveryGate Recovered IngestPath.
From S2P Require Import Drafts Ingested Declared Publish Release PublishSpec ReleaseSpec PublishEffect PublishInv.
From S2P Require Monitor.
From S2P Require Staging.

Definition ps_m : string := "mch_" +:+ gv_word.
Definition ps_draft : string := "drf_" +:+ gv_word.
Definition ps_frv : string := "frv_" +:+ gv_word.
Definition ps_draft2 : string := "drf_" +:+ "aaaaaaaaaaaaaaaaaaaaaaaaae".
Definition ps_frv2 : string := "frv_" +:+ "aaaaaaaaaaaaaaaaaaaaaaaaae".
Definition ps_sha256 (s : string) : string := s.
Definition ps_hex (s : string) : string := s.
(** The process that ingests and the first to publish, and another that publishes. *)
Definition ps_first : api := sc_api.
Definition ps_second : api := sc_other.
Definition ps_owner : Staging.owner := Staging.Owner "exe_1" "ep_1".
Definition ps_tick (t : Z) : Z := t + 10.

(** One machine, an import running and a fragment's ingestion held, and nothing published. *)
Definition ps_core : Db :=
  MkDb "ep_1" false 0 {[ps_m := Machine "cl_1" "normal" false 0 None (Some "node_1") "10.0.0.1"]}
    {[ps_m := MachineState 0 None None None None None]} ∅ {["cl_1" := sc_talos]} ∅ ∅
    ∅ ∅ ∅ {["prn_2" := false]} ∅ ∅ ∅ [] [] [] [] {["op_i" := Operation 1 KIngest Running "ep_1" (Some "exe_1") 1 (Some "ep_1") None None None 0 None None]}
    [] [] [] [] (Ledger [] ∅) (Provenance ∅ ∅ ∅ ∅ ∅ ∅)
    (RecoveryLog {["ep_1" := EpochRow 0 None None]} ∅ ∅ ∅ ∅ ∅ ∅ []).
Definition ps_claim (k : Staging.claim_kind) (m d : option string) : Staging.claim :=
  Staging.MkClaim Staging.Transient Staging.Held "exe_1" 1 "ep_1" 1000000 1000000 None None "cl_1" m d k None 0.
Definition ps_stage : Staging.stage :=
  Staging.Stage "ep_1" 0 {["ing_i" := ps_claim Staging.KImport (Some ps_m) None; "ing_f" := ps_claim Staging.KDraftUpdate None (Some ps_draft);
      "ing_g" := ps_claim Staging.KDraftUpdate None (Some ps_draft2)]}
    {["ing_i" := Staging.MkJob Staging.JRunning (Some "exe_1") 1 (Some "ep_1") (Some 1000000) 1]} [].
Definition ps_monitor : Monitor.mdb := Monitor.Mdb "ep_1" 1000000000 ∅ [] (Monitor.MonitorRow 0 None None 0) [] 0.
Definition ps_0 : pdb := Pdb ps_core ps_monitor ps_stage (DraftTables ∅ ∅ ∅) (SourceTables ∅ ∅ ∅ ∅ ∅)
  (PublishTables ∅ ∅ ∅ ∅ ∅ {[ps_m := "metal"]}).

Definition ps_run {A} (m : PT A) (s : pdb) : pdb := match m s with Ok (_, s') => s' | Err _ => s end.
Definition ps_ask_of (draft : string) (revision : Z) (token name : string) : draft_request :=
  DraftRequest draft name (etag revision token) "prn_2" "publisher" "ep_1".
Definition ps_ask := ps_ask_of ps_draft.
Definition ps_create : PT string := createDraft "t1" ps_draft "cl_1".
Definition ps_1 : pdb := ps_run ps_create ps_0.
Definition ps_ingest (claim draft text : string) : draftIngest :=
  DraftIngest (Staging.AClaim claim Staging.KDraftUpdate Staging.Transient "cl_1" None (Some draft) None 1) text ∅ ∅ None.
Definition ps_fragment : PT (result err (string * sourceEntry)) :=
  updateFragment ps_tick ps_owner "t2" ps_frv (ps_ask 1 "t1" "base") "global" (ps_ingest "ing_f" ps_draft "debug: true").
Definition ps_2 : pdb := ps_run ps_fragment ps_1.
Definition ps_assign : PT (string * sourceEntry) :=
  updateAssignment "t3" "asr_1" (ps_ask 2 "t2" ps_m) (AssignmentInput [] [("global", ["base"])]) ps_2.
Definition ps_3 : pdb := ps_run ps_assign ps_2.
Definition ps_job : ingest_job :=
  IngestJob "op_i" (Staging.AClaim "ing_i" Staging.KImport Staging.Transient "cl_1" (Some ps_m) None None 1) ps_draft 3 "prn_2".
Definition ps_import : PT unit := commitImport ps_tick ps_owner "t4" "ibr_1" ps_job (Imported "machine: {}" ∅ ∅ "before" "before").
Definition ps_4 : pdb := ps_run ps_import ps_3.
Definition ps_request : PT string := requestPublication ps_tick true "op_1" (ps_ask 4 "t4" "").
Definition ps_5 : pdb := ps_run ps_request ps_4.
(** A claim whose lease lapses, and the other process's. *)
Definition ps_claimed : PT (option publishJob) := claimPublish ps_tick ps_first 1000.
Definition ps_6 : pdb := ps_run ps_claimed ps_5.
Definition ps_7 : pdb := set_core (Store.set_clock 100000 (core ps_6)) ps_6.
Definition ps_reclaimed : PT (option publishJob) := claimPublish ps_tick ps_second 100000000.
Definition ps_8 : pdb := ps_run ps_reclaimed ps_7.
Definition ps_earlier : publishJob := PublishJob "op_1" ps_draft "cl_1" 4 1.
Definition ps_later : publishJob := PublishJob "op_1" ps_draft "cl_1" 4 2.
(** The node's observation for a claim, with its start's endpoint and generation. *)
Definition ps_observed (a : api) (obs op : string) (d : Db) : Db :=
  w_db (observe sc_others (λ _, obs) ps_tick a ps_m (ObserveFor PPublication "" op None false)
    (World d 0 0 0 (replicate 10 (Answered ("access/talos/cl_1", 3, "t0"))) (replicate 10 (Answered "plain")) [sc_node "after"] [] [])).2.
Definition ps_observe (a : api) (obs op : string) (revision gen : Z) (s : pdb) : pdb :=
  let t := tpublish s in
  set_core (ps_observed a obs op (core s))
    (set_tpublish (PublishTables (pt_jobs t) (pt_releases t) (pt_sources t) (pt_machines t) (<[(ps_m, revision) := ("10.0.0.1", gen)]> (pt_starts t))
      (pt_platforms t)) s).
Definition ps_9 : pdb := ps_observe ps_second "obs_1" "op_1" 1 2 ps_8.
(** The unit: the machine from its base and assignment, its configuration sealed under the transit key. *)
Definition ps_key : unitDependency := UnitDependency "" "key" 1 0 "" "" "" 0.
Definition ps_unit (obs configuration : string) (unchanged : list usedHead) : releaseUnit :=
  ReleaseUnit (Renderer "v1.9" "m1" "c1" "v1.31") unchanged
    [UnitMachine ps_m "ibr_1" "asr_1" "metal" obs "vault:v1:xyz" configuration None [] [] [] ps_key]
    [UnitStatus "transit" "key" 1 (AResult Retained RNone 0 zero_time 500000000) 400000000].
Definition ps_unit1 : releaseUnit := ps_unit "obs_1" "after" [].
Definition ps_ids (rel token : string) : commit_ids := CommitIds rel (λ n, "dst_" +:+ pretty n) (λ n, "hd_" +:+ pretty n) token.
Definition ps_ids1 : commit_ids := ps_ids "rel_1" "t5".
Definition ps_commit (a : api) (ids : commit_ids) (j : publishJob) (u : releaseUnit) (s1 : pdb) : PT (string * bool) :=
  commitRelease ps_tick ps_tick a ps_sha256 ps_hex ids j u (draftHeads (pj_draft j) s1).
Definition ps_10 : pdb := ps_run (ps_commit ps_second ps_ids1 ps_later ps_unit1 ps_9) ps_9.

(** The release applied, and a second draft: the fragment replaced, the assignment used unchanged. *)
Definition ps_11 : pdb :=
  set_core (set_mstates {[ps_m := MachineState 1 (Some "rel_1") (Some "rel_1") None None None]} (core ps_10)) ps_10.
Definition ps_create2 : PT string := createDraft "t1" ps_draft2 "cl_1".
Definition ps_12 : pdb := ps_run ps_create2 ps_11.
Definition ps_fragment2 : PT (result err (string * sourceEntry)) :=
  updateFragment ps_tick ps_owner "t2" ps_frv2 (ps_ask_of ps_draft2 1 "t1" "base") "global" (ps_ingest "ing_g" ps_draft2 "debug: false").
Definition ps_13 : pdb := ps_run ps_fragment2 ps_12.
Definition ps_request2 : PT string := requestPublication ps_tick true "op_2" (ps_ask_of ps_draft2 2 "t2" "").
Definition ps_14 : pdb := ps_run ps_request2 ps_13.
Definition ps_claimed2 : PT (option publishJob) := claimPublish ps_tick ps_second 100000000.
Definition ps_15 : pdb := ps_run ps_claimed2 ps_14.
Definition ps_16 : pdb := ps_observe ps_second "obs_2" "op_2" 3 1 ps_15.
Definition ps_job2 : publishJob := PublishJob "op_2" ps_draft2 "cl_1" 2 1.
Definition ps_unit2 : releaseUnit := ps_unit "obs_2" "changed" [UsedHead SAssignment "hd_0" "asr_1" 1].
Definition ps_ids2 : commit_ids := ps_ids "rel_2" "t3".
Definition ps_17 : pdb := ps_run (ps_commit ps_second ps_ids2 ps_job2 ps_unit2 ps_16) ps_16.

(** ** It is a run *)

Notation ps_prun := (prun ps_tick ps_tick gv_decode gv_encode ps_sha256 ps_hex).
Notation ps_pact := (pact ps_tick ps_tick ps_sha256 ps_hex).
Definition ps_goes {A} (m : PT A) (s : pdb) : Prop := match m s with Ok _ => True | Err _ => False end.
Lemma ps_ok {A} (m : PT A) s : ps_goes m s → ∃ x, m s = Ok (x, ps_run m s).
Proof. unfold ps_goes, ps_run. destruct (m s) as [[x s']|e]; [by exists x|done]. Qed.
Definition ps_answer {A} (m : PT A) (s : pdb) : option A := match m s with Ok (x, _) => Some x | Err _ => None end.
Lemma ps_answered {A} (m : PT A) s x : ps_answer m s = Some x → m s = Ok (x, ps_run m s).
Proof. unfold ps_answer, ps_run. destruct (m s) as [[y s']|]; [by intros [= ->]|done]. Qed.
Lemma ps_step {A} (m : PT A) seen s :
  ps_prun seen s → (∀ x s', m s = Ok (x, s') → ps_pact seen s s') → ps_goes m s → ps_prun (s :: seen) (ps_run m s).
Proof. intros H Hm [x Hx]%ps_ok. eapply pr_act; [done|by eapply Hm]. Qed.
Lemma ps_rest seen s s' :
  ps_prun seen s → unwritten s s' ∧ jobs_of s' = jobs_of s ∧ still (core s') = still (core s) ∧ authority_of (core s') = authority_of (core s)
    ∧ gate_of (core s') = gate_of (core s) ∧ ops (core s') = ops (core s) → ps_prun (s :: seen) s'.
Proof.
  intros H (Ht & Hj & H1 & H2 & H3 & H4). eapply pr_rest; [done|]. pose proof (prun_ops _ _ _ _ _ _ _ _ H) as Hok.
  assert (Hm : ops_move s s') by (intros _; unfold ops_ok; rewrite H4; by split).
  destruct (quiet_step ps_tick gv_decode gv_encode s s' H1 H2 H3 Hm Hok) as [Hs Hok'].
  split; [split; [done|by apply jobs_same|apply forward_kept; unfold publishes_kept; by rewrite H4]|by apply rtc_once|done].
Qed.
Lemma ps_wait seen s t : ps_prun seen s → ps_prun (s :: seen) (set_core (Store.set_clock t (core s)) s).
Proof. intros H. apply ps_rest; [done|]. by repeat split. Qed.
Lemma ps_applies seen s x : ps_prun seen s → gate_of (core (set_core (set_mstates x (core s)) s)) = gate_of (core s) →
  ps_prun (s :: seen) (set_core (set_mstates x (core s)) s).
Proof. intros H Hg. apply ps_rest; [done|]. by repeat split. Qed.
Definition ps_kept (d : Db) := (Store.heads d, still d, authority_of d, gate_of d, ops d).
Lemma ps_observes a obs op revision gen seen s : ps_prun seen s → ps_kept (ps_observed a obs op (core s)) = ps_kept (core s) →
  ps_prun (s :: seen) (ps_observe a obs op revision gen s).
Proof. intros H [= H1 H2 H3 H4 H5 H6 H7 H8]. apply ps_rest; [done|]. repeat split; try done; unfold core_heads, still, authority_of, gate_of; simpl; congruence. Qed.
Ltac ps_steps := apply ps_step; [| |vm_compute; exact I].

Definition ps_past9 : list pdb := [ps_8; ps_7; ps_6; ps_5; ps_4; ps_3; ps_2; ps_1; ps_0].
Lemma ps_unpublished : unpublished ps_0.
Proof.
  split; [done..| |].
  - done.
  - split.
    + apply map_Forall_singleton. split; [|done]. split; [done|]. split; [by split; eexists|]. split; [|done]. intros _. simpl. lia.
    + intros id o Ho. assert (H : map_Forall (λ _ x, op_kind_of x ≠ KPublish) (ops (core ps_0))) by by apply map_Forall_singleton.
      by eapply H.
Qed.
Lemma ps_run_8 : ps_prun (tail ps_past9) ps_8.
Proof.
  ps_steps; [|intros; by eapply pa_claim]. apply ps_wait. ps_steps; [|intros; by eapply pa_claim]. ps_steps; [|intros; by eapply pa_request].
  ps_steps; [|intros; by eapply pa_import]. ps_steps; [|intros; by eapply pa_assignment]. ps_steps; [|intros; by eapply pa_fragment].
  ps_steps; [|intros; by eapply pa_create]. apply pr_start, ps_unpublished.
Qed.
Lemma ps_run_9 : ps_prun ps_past9 ps_9.
Proof. apply ps_observes; [apply ps_run_8|vm_compute; reflexivity]. Qed.
Lemma ps_bound1 : bound_job ps_later ps_9.
Proof. eexists _, _. split_and!; vm_compute; reflexivity. Qed.
Lemma ps_committed1 : ps_commit ps_second ps_ids1 ps_later ps_unit1 ps_9 ps_9 = Ok (("rel_1", true), ps_10).
Proof. unfold ps_10. apply ps_answered. vm_compute. reflexivity. Qed.
Lemma ps_deferred1 : deferred ps_sha256 "rel_1" ps_unit1 ps_10 = None.
Proof. vm_compute. reflexivity. Qed.
Lemma ps_pact_10 : ps_pact ps_past9 ps_9 ps_10.
Proof.
  pose proof ps_committed1 as Hx.
  eapply (pa_commit ps_tick ps_tick ps_sha256 ps_hex ps_past9 ps_second ps_ids1 ps_later ps_unit1 ps_9);
    [by left|apply ps_bound1|constructor|exact Hx|intros _; exact ps_deferred1].
Qed.
Definition ps_past16 : list pdb := [ps_15; ps_14; ps_13; ps_12; ps_11; ps_10; ps_9] ++ ps_past9.
Lemma ps_run_10 : ps_prun (ps_9 :: ps_past9) ps_10.
Proof. eapply pr_act; [apply ps_run_9|apply ps_pact_10]. Qed.
Lemma ps_run_15 : ps_prun (tail ps_past16) ps_15.
Proof.
  ps_steps; [|intros; by eapply pa_claim]. ps_steps; [|intros; by eapply pa_request]. ps_steps; [|intros; by eapply pa_fragment].
  ps_steps; [|intros; by eapply pa_create]. apply ps_applies; [apply ps_run_10|]. vm_compute. reflexivity.
Qed.
Lemma ps_run_16 : ps_prun ps_past16 ps_16.
Proof. apply ps_observes; [apply ps_run_15|vm_compute; reflexivity]. Qed.
Lemma ps_bound2 : bound_job ps_job2 ps_16.
Proof. eexists _, _. split_and!; vm_compute; reflexivity. Qed.
Lemma ps_snapshot2 : Forall (λ h, ∃ s, s ∈ ps_16 :: ps_past16 ∧ snapshot_read h s) (un_unchanged ps_unit2).
Proof.
  constructor; [|constructor]. exists ps_12. split; [do 4 right; left|]. eexists. split_and!; vm_compute; reflexivity.
Qed.
Lemma ps_committed2 : ps_commit ps_second ps_ids2 ps_job2 ps_unit2 ps_16 ps_16 = Ok (("rel_2", true), ps_17).
Proof. unfold ps_17. apply ps_answered. vm_compute. reflexivity. Qed.
Lemma ps_run_17 : ps_prun (ps_16 :: ps_past16) ps_17.
Proof.
  eapply pr_act; [apply ps_run_16|]. pose proof ps_committed2 as H.
  apply (pa_commit ps_tick ps_tick ps_sha256 ps_hex ps_past16 ps_second ps_ids2 ps_job2 ps_unit2 ps_16 ps_16 ("rel_2", true) ps_17);
    [by left|exact ps_bound2|exact ps_snapshot2|exact H|intros _; vm_compute; reflexivity].
Qed.
Example ps_story : (λ s, (df_state <$> drafts_of s !! ps_draft, op_st <$> ops (core s) !! "op_1", Store.heads (core s) !! ps_m)) <$> [ps_1; ps_5; ps_8; ps_10]
  = [(Some DOpen, None, None); (Some DOpen, Some Queued, None); (Some DOpen, Some Running, None); (Some DPublished, Some Succeeded, Some "asr_1")].
Proof. vm_compute. reflexivity. Qed.
