(* ===== verification/PublishProps.v ===== *)
(** * The properties of drafts and publication: a run is governed, a release replaces what its draft
    read, a draft has one release that never changes, an earlier claim writes nothing, and every
    attempt's answer is true of the store. *)

From stdpp Require Import sorting relations.
From S2P Require Import Prelude Ident IngestPath Times Json Classify Store.
From S2P Require Import World Evidence Commit Lifecycle System Request Governance Authority Recovery RecoveryGate Recovered.
From S2P Require Import Scenario GovernedScenario.
From S2P Require Import Drafts Ingested Declared Publish Release ContentSpec PublishSpec ReleaseSpec PublishEffect PublishInv PublishScenario.

Section Properties.
Variables tick mtick : Z → Z.
Variable decode : string → option (list node).
Variable encode : list node → option string.
Variables sha256 hex : string → string.
Local Notation run := (prun tick mtick decode encode sha256 hex).

(** C15: a run of drafts and publication among the rest of the program is, to the core, a run of its
    governed and recovering steps from the store it began with: every transaction that creates, edits
    or discards a draft, ends an ingestion, or requests, claims, extends, fails or commits a
    publication is one such step, and keeps the operations' checks. *)
Theorem publication_governed seen s : run seen s →
  (∃ s0, last (s :: seen) = Some s0 ∧ unpublished s0 ∧ rtc (rstep tick decode encode) (core s0) (core s))
  ∧ ops_ok (core s)
  ∧ ∀ s', pact tick mtick sha256 hex seen s s' → rstep tick decode encode (core s) (core s') ∧ ops_ok (core s').
Proof using.
  intros H. split; [by eapply prun_core|]. split; [by eapply prun_ops|]. intros s' Hp. eapply pact_quiet; [done|by eapply prun_ops].
Qed.

(** C13: a release loses no update.  Whatever else ran between the edits, the compilation's snapshot and
    the commit: a commit that wrote a release found its draft open at the revision the operation
    bound; every name the draft proposes has, in the store the commit ran on, exactly the head it had
    in the store that the draft's entry was first set in - the last store of the run that had no such
    entry, since when no edit has moved the entry's base - which is the head its base names; every head the unit
    uses unchanged is as the snapshot read it; every covered machine has the import base it was
    compiled from, and no other machine of the cluster has one. *)
Theorem release_loses_no_update seen s s1 a ids j u rel s' :
  run seen s → s1 ∈ s :: seen → bound_job j s1 →
  Forall (λ h, ∃ s2, s2 ∈ s :: seen ∧ snapshot_read h s2) (un_unchanged u) →
  commitRelease tick mtick a sha256 hex ids j u (draftHeads (pj_draft j) s1) s = Ok ((rel, true), s') →
  (∃ d, drafts_of s !! pj_draft j = Some d ∧ df_state d = DOpen ∧ df_revision d = pj_revision j)
  ∧ (∀ k e, entries_of s !! (pj_draft j, k) = Some e → ∃ s0, first_set (pj_draft j) k (en_base e) (s :: seen) s0
      ∧ base_at (pj_cluster j) k (en_base e) s0 ∧ ∀ i r, head_in (pj_cluster j) k i r s ↔ head_in (pj_cluster j) k i r s0)
  ∧ (∀ h, h ∈ un_unchanged u → snapshot_read h s)
  ∧ (∀ m, m ∈ un_machines u → assoc (um_machine m) (bases_of (pj_cluster j) (pj_draft j) s) = Some (um_base m))
  ∧ ∀ m b, (m, b) ∈ bases_of (pj_cluster j) (pj_draft j) s → b ≠ "" → m ∈ um_machine <$> un_machines u.
Proof using.
  intros Hr Hs1 Hb Hu H. destruct (commit_effect tick mtick sha256 hex a ids j u s s1 seen (rel, true) s') as [_ Hp]; [|done..|].
  { intros s0 H0. eapply prun_later; [done|by right]. }
  destruct (Hp eq_refl) as (x & Hpub). destruct (bases_unmoved _ _ _ _ _ _ _ _ _ _ _ _ Hpub) as [H1 H2].
  split; [by eapply pb_draft|]. split; [intros; by eapply entry_unmoved|]. split; [|done]. intros h Hh. by eapply unchanged_unmoved.
Qed.

(** C14: drafts, operations and releases name each other, one to one: a draft is published exactly when a
    release of it exists, which it names, at the revision published; no two releases are of one draft
    or by one operation; the operation of a release succeeded, bound that draft revision for a
    publisher, and answers with the release; and a publish operation that succeeded answers with the
    release of the draft revision it bound. *)
Theorem one_release_per_draft seen s : run seen s →
  (∀ i d rel, drafts_of s !! i = Some d →
    (df_state d = DPublished ∧ df_release d = Some rel) ↔ ∃ r, release_rows s !! rel = Some r ∧ re_draft r = i ∧ re_revision r + 1 = df_revision d)
  ∧ (∀ rel rel' r r', release_rows s !! rel = Some r → release_rows s !! rel' = Some r' →
      re_draft r = re_draft r' ∨ re_operation r = re_operation r' → rel = rel')
  ∧ (∀ rel r, release_rows s !! rel = Some r → ∃ o job, ops (core s) !! re_operation r = Some o ∧ op_kind_of o = KPublish ∧ op_st o = Succeeded
      ∧ op_result o = Some (released_doc rel) ∧ jobs_of s !! re_operation r = Some job ∧ jb_draft job = re_draft r
      ∧ jb_revision job = re_revision r ∧ jb_role job = "publisher" ∧ re_by r = jb_by job)
  ∧ ∀ id o, ops (core s) !! id = Some o → op_kind_of o = KPublish → op_st o = Succeeded → op_fits id o s.
Proof using.
  intros Hr. pose proof (prun_inv _ _ _ _ _ _ _ _ Hr s ltac:(by left)) as Hi. split; [|split; [|split]].
  - intros i d rel Hd. pose proof (pi_drafts _ _ Hi _ _ Hd) as Hf. unfold draft_fits in Hf. split.
    + intros [Hst Hrel]. rewrite Hst in Hf. destruct Hf as (rel' & r & Hrel' & Hrr & Hdr & Hv & _). assert (rel' = rel) as -> by congruence. by exists r.
    + intros (r & Hrr & <- & _). destruct (pi_releases _ _ Hi _ _ Hrr) as ((d' & Hd' & Hst & Hrel) & _). assert (d' = d) as -> by congruence. done.
  - intros rel rel' r r' Hrr Hrr' Hsame. destruct (pi_releases _ _ Hi _ _ Hrr) as ((d & Hd & _ & Hrel) & (o & Ho & _ & _ & Hres) & _).
    destruct (pi_releases _ _ Hi _ _ Hrr') as ((d' & Hd' & _ & Hrel') & (o' & Ho' & _ & _ & Hres') & _).
    destruct Hsame as [E|E]; [rewrite E in Hd|rewrite E in Ho]; [congruence|]. assert (o' = o) as -> by congruence.
    rewrite Hres in Hres'. unfold released_doc in Hres'. congruence.
  - intros rel r Hrr. destruct (pi_releases _ _ Hi _ _ Hrr) as (_ & (o & ? & ? & ? & ?) & (job & ? & ? & ? & ? & ?) & _). exists o, job. by split_and!.
  - apply (pi_ops _ _ Hi).
Qed.

(** C16: a release never changes.  From the store it is first in on, its row, its sources and its machines
    stay as they are, its digest is the digest of what is stored of it, and each of its sources names
    a head that has not gone back from the revision the release left it at and, until it moves on,
    holds the revision the release names. *)
Theorem release_never_changes seen s s0 rel r : run seen s → s0 ∈ s :: seen → release_rows s0 !! rel = Some r →
  same_release rel s0 s ∧ releaseDigest sha256 rel s = Some (re_digest r)
  ∧ ∀ k x, sources_rows s !! (rel, k) = Some x → source_fits k x s.
Proof using.
  intros Hr Hs0 Hrr. pose proof (run_release _ _ _ _ _ _ _ _ _ rel Hr Hs0 ltac:(by eexists)) as Hsame.
  pose proof (prun_inv _ _ _ _ _ _ _ _ Hr s ltac:(by left)) as Hi. split; [done|]. split.
  - destruct Hsame as [Hrow _]. rewrite Hrr in Hrow. by destruct (pi_releases _ _ Hi _ _ Hrow) as (_ & _ & _ & H).
  - intros k x Hx. by apply (pi_sources _ _ Hi _ _ _ Hx).
Qed.

(** ** Fences *)

Lemma owned_generation a j now s : owns_job a j now s = true → ∃ o, ops (core s) !! pj_op j = Some o ∧ op_gen o = pj_gen j.
Proof using. intros (o & r & Ho & _ & _ & Hg & _)%owned_running. by exists o. Qed.
Lemma extend_owned a lease j s r s' : extendPublish tick a lease j s = Ok (r, s') → owns_job a j (tick (clock (core s))) s = true.
Proof using.
  unfold extendPublish. intros H. apply bind_ok in H as (? & t & [_ <-]%gets_ok & H). apply bind_ok in H as (? & t & [_ <-]%failIf_ok & H).
  apply bind_ok in H as (now & t & [= <- <-] & H). apply bind_ok in H as (mine & t & [<- <-]%gets_ok & H).
  apply bind_ok in H as (? & t & [Hm <-]%failIf_ok & H). by apply negb_false_iff in Hm.
Qed.
Lemma unowned_commit a ids j u heads s r s' : commitRelease tick mtick a sha256 hex ids j u heads s = Ok (r, s') →
  owns_job a j (tick (clock (core s))) s = false → r.2 = false ∧ s' = s.
Proof using.
  destruct r as [rel wrote]. intros (_ & x & d & op & _ & _ & _ & _ & H)%commitRelease_ok Hno. destruct (existing_release j s) as [[i r]|].
  - destruct H as (-> & _ & _ & [(_ & _ & ->)|[_ [Hown _]]%finish_ok]); [done|congruence].
  - destruct H as (_ & _ & _ & _ & Hw). destruct (rw_owned _ _ _ _ _ _ _ _ _ _ _ Hw) as [_ Hown]. congruence.
Qed.
Lemma locked_owned a machine j s r s' : lockPublication tick a machine j s = Ok (r, s') → owns_job a j (tick (clock (core s))) s = true.
Proof using.
  unfold lockPublication. intros H. apply bind_ok in H as (? & t & [_ <-]%gets_ok & H). apply bind_ok in H as (? & t & [_ <-]%failIf_ok & H).
  apply bind_ok in H as (now & t & [= <- <-] & H). apply bind_ok in H as (mine & t & [<- <-]%gets_ok & H).
  apply failIf_ok in H as [Hm _]. apply negb_false_iff in Hm. by apply andb_true_iff in Hm as [[Hm _]%andb_true_iff _].
Qed.
(** An earlier claim is fenced.  Once a later claim of an operation went through, by whatever process,
    the earlier one renews no lease, starts no node observation for the publication, records no failure
    and writes no release, in that store and every later one of the run: its commit fails, or finds the release already written and leaves the
    store as it is. *)
Theorem earlier_claim_fenced seen s s1 s2 a a' lease' j j' : run seen s → s2 ∈ s :: seen →
  claimPublish tick a' lease' s1 = Ok (Some j', s2) → pj_op j' = pj_op j → pj_gen j < pj_gen j' →
  (∀ lease, ∃ e, extendPublish tick a lease j s = Err e)
  ∧ (∀ machine, ∃ e, lockPublication tick a machine j s = Err e)
  ∧ (∀ e, ∃ e', failPublish tick a j e s = Err e')
  ∧ ∀ ids u heads r s', commitRelease tick mtick a sha256 hex ids j u heads s = Ok (r, s') → r.2 = false ∧ s' = s.
Proof using.
  intros Hr Hs2 Hc Hop Hg.
  assert (Hno : ∀ now, owns_job a j now s = false).
  { intros now. apply not_true_is_false. intros (o & Ho & Hgo)%owned_generation.
    apply claim_ok in Hc as [_ (o1 & row & d & Hold & Ho1 & Hg1 & _ & _ & _ & _ & _ & Hs)].
    apply oldest_in in Hold as [Hcl _]. apply claimable_row in Hcl as (o1' & _ & Ho1' & _ & Hk & _). assert (o1' = o1) as -> by congruence.
    assert (H2 : ops (core s2) !! pj_op j = Some (run_by a' o1)) by (rewrite Hs; simpl; by rewrite <-Hop, lookup_alter_eq, Ho1).
    destruct (la_ops _ _ (prun_later _ _ _ _ _ _ _ _ Hr s2 Hs2) _ _ H2 Hk) as (o' & Ho' & _ & Hle & _).
    assert (o' = o) as -> by congruence. simpl in Hle. lia. }
  split; [|split; [|split]].
  - intros lease. destruct (extendPublish tick a lease j s) as [[r s']|e] eqn:E; [|by exists e]. apply extend_owned in E.
    specialize (Hno (tick (clock (core s)))). congruence.
  - intros machine. destruct (lockPublication tick a machine j s) as [[r s']|e] eqn:E; [|by exists e]. apply locked_owned in E.
    specialize (Hno (tick (clock (core s)))). congruence.
  - intros e. destruct (failPublish tick a j e s) as [[r s']|e'] eqn:E; [|by exists e'].
    unfold failPublish in E. apply finish_ok in E as [_ [Hown _]].
    specialize (Hno (tick (clock (core s)))). congruence.
  - intros ids u heads r s' H. eapply unowned_commit; [done|apply Hno].
Qed.

(** The head of a machine's assignment, which authorizes its plans, is moved only by a publication
    commit, only where no operation holds the machine's scope, and in recovery mode only where the
    scope has been released. *)
Theorem assignment_moves_unheld seen s s' m : run seen s → pact tick mtick sha256 hex seen s s' →
  Store.heads (core s') !! m ≠ Store.heads (core s) !! m →
  held_by m s = None ∧ (recovery (core s) = true → m_scope <$> machines (core s) !! m = Some "released")
  ∧ ∃ rel, release_rows s !! rel = None ∧ is_Some (release_rows s' !! rel).
Proof using.
  intros Hr Hp Hne. pose proof (prun_inv _ _ _ _ _ _ _ _ Hr s ltac:(by left)) as Hi.
  assert (He : effect tick sha256 hex s s').
  { eapply pact_effect; [|exact Hp]. intros s0 H0. eapply prun_later; [done|by right]. }
  destruct (effect_view _ _ _ _ _ He) as [E|(rel & a & j & u & heads & x & Hpub & Hb & Hu)]; [by unfold core_heads in E; rewrite E in Hne|].
  destruct (assignment_moved _ _ _ _ _ _ _ _ _ _ _ _ m Hpub Hb Hu Hi Hne) as (h & Hin & Hch & Hk). injection Hk as Hk <-.
  destruct (moved_free _ _ _ _ _ _ _ _ _ _ _ _ h Hpub Hin Hch Hk) as (_ & H1 & H2). split; [done|]. split; [done|]. exists rel.
  destruct (rw_new _ _ _ _ _ _ _ _ _ _ _ (pb_written _ _ _ _ _ _ _ _ _ _ _ _ Hpub)) as [Hn _]. split; [done|].
  destruct (rw_release _ _ _ _ _ _ _ _ _ _ _ (pb_written _ _ _ _ _ _ _ _ _ _ _ _ Hpub)) as (job & _ & _ & _ & _ & ->).
  rewrite lookup_insert_eq. by eexists.
Qed.

(** ** Attempts *)

(** A release written whole, its inputs, evidence and deferred constraints checked: its own rows, heads
    and pointers, and what [release_recorded] has of it - its dependency rows, each of a version with a
    status, the statuses seeded for it and checked again, and its operation's event. *)
Definition written_whole a ids (j : publishJob) (u : releaseUnit) heads (rel : string) (s s' : pdb) : Prop :=
  ∃ x d, inputs_locked j u heads x s ∧ drafts_of s !! pj_draft j = Some d
  ∧ rel = ci_release ids ∧ checkInputs j u d (li_heads x) (li_locked x) (li_bases x) s = None
  ∧ (∀ m, m ∈ un_machines u → publicationEvidence a j (um_machine m) (um_observation m) (rn_contract (un_renderer u)) true s = None)
  ∧ release_written tick a sha256 hex rel j u (li_heads x) (locked_content sha256 j u x) s s'
  ∧ release_recorded mtick a (ci_status ids) rel j u s s'
  ∧ deferred sha256 rel u s' = None.
(** The release of the draft revision, of the same content, already there. *)
Definition already_written a (j : publishJob) (u : releaseUnit) heads (rel : string) (s s' : pdb) : Prop :=
  ∃ x r, inputs_locked j u heads x s ∧ existing_release j s = Some (rel, r) ∧ re_digest r = locked_content sha256 j u x
  ∧ (s' = s ∨ finishPublish tick a j Succeeded (Some (released_doc rel)) None "succeeded" s = Ok (tt, s')).
Definition released_by a ids j u heads rel s s' : Prop := written_whole a ids j u heads rel s s' ∨ already_written a j u heads rel s s'.
Lemma commitTx3_ok a ids j u heads f s r s' :
  commitTx3 tick mtick a sha256 hex ids j u heads f s = (r, s') →
  match r with
  | Ok rel => released_by a ids j u heads rel s s'
  | Err Unknown => s' = s ∨ ∃ rel, released_by a ids j u heads rel s s'
  | Err _ => s' = s
  end.
Proof using.
  unfold commitTx3. destruct f as [| | |c]; [|by intros [= <- <-]| |].
  all: destruct (commitRelease tick mtick a sha256 hex ids j u heads s) as [[[rel wrote] t]|e] eqn:E; [|by intros [= <- <-]].
  all: case_bool_decide as Hd; [by intros [= <- <-]|].
  all: assert (Hrel : released_by a ids j u heads rel s t).
  1,3,5: pose proof E as E'; apply commitRelease_ok in E as (_ & x & d & op & Hx & Hdr & _ & _ & H); destruct (existing_release j s) as [[i r0]|] eqn:Er;
    [right; destruct H as (-> & -> & Hdg & H); exists x, r0; split_and!; try done; destruct H as [(_ & _ & ->)|H]; auto
    |left; destruct H as (-> & -> & Hc & He & Hw); apply commitRelease_recorded in E'; exists x, d; split_and!; try done;
     destruct (deferred _ _ _ _); [destruct Hd; split; [done|by eexists]|done]].
  - by intros [= <- <-].
  - by intros [= <- <-].
  - destruct c; intros [= <- <-]; [right; by exists rel|by left].
Qed.

(** C17: a release is written whole or not at all, however the attempt ends: the answer names a release
    only where every write of it is in the store - its row, machines, sources, heads, the draft's and
    the machines' pointers, the operation's end and its event, the dependency rows and the statuses
    seeded for them - after every check of its inputs, evidence, sources and statuses held, or where
    it was already there with the same content; an unknown reply leaves either the whole release or
    the store as it was; every other error leaves the store as it was. *)
Theorem release_whole_or_nothing a ids j u heads f s r s' :
  commitTx3 tick mtick a sha256 hex ids j u heads f s = (r, s') →
  match r with
  | Ok rel => released_by a ids j u heads rel s s'
  | Err Unknown => s' = s ∨ ∃ rel, released_by a ids j u heads rel s s'
  | Err _ => s' = s
  end.
Proof using. apply commitTx3_ok. Qed.

Lemma released_row a ids j u heads rel s s' : released_by a ids j u heads rel s s' →
  ∃ row, release_rows s' !! rel = Some row ∧ re_draft row = pj_draft j ∧ re_revision row = pj_revision j.
Proof using.
  intros [(x & d & _ & _ & _ & _ & _ & Hw & _ & _)|(x & r & _ & He & _ & H)].
  - destruct (rw_release _ _ _ _ _ _ _ _ _ _ _ Hw) as (job & _ & _ & _ & _ & ->). rewrite lookup_insert_eq. by eexists.
  - unfold existing_release in He. apply find_some in He as [Hin Hm]. apply list_elem_of_In, elem_of_map_to_list in Hin. simpl in *.
    apply andb_true_iff in Hm as [H1%bool_decide_eq_true H2%Z.eqb_eq]. exists r. split; [|done].
    assert (E : release_rows s' = release_rows s); [|by rewrite E]. destruct H as [->|H]; [done|].
    apply finish_worked in H as [[(_ & _ & E & _) _ _] _]; [done|by left].
Qed.
(** A publication attempt answers truly.  Among any acts of others: where it answers with a release,
    the release of the draft revision is in the store; where it answers with a refusal, the operation
    failed with that problem and nothing else of publication's tables was written; where it gives
    up, nothing was written, unless the reply to the COMMIT was lost, and the job is left to
    its lease. *)
Theorem publication_answers_truly a others ids j u w r w' :
  publishCommit tick mtick a sha256 hex others ids j u w = (r, w') →
  let s2 := others (others (pw_store w)) in
  match r with
  | Ok (Ok rel) => ∃ row, release_rows (pw_store w') !! rel = Some row ∧ re_draft row = pj_draft j ∧ re_revision row = pj_revision j
  | Ok (Err e) => worked None (others s2) (pw_store w')
      ∧ ∃ o, ops (core (pw_store w')) !! pj_op j = Some o ∧ op_st o = Failed ∧ op_error o = Some (problem_doc e)
  | Err e => pw_store w' = s2 ∨ pw_store w' = others s2
      ∨ e = Unknown ∧ ∃ rel, released_by a ids j u (draftHeads (pj_draft j) (others (pw_store w))) rel s2 (pw_store w')
  end.
Proof using.
  intros H s2. assert (Hrun : ∃ f r0 s3, commitTx3 tick mtick a sha256 hex ids j u (draftHeads (pj_draft j) (others (pw_store w))) f s2 = (r0, s3)
    ∧ match r0 with
      | Ok rel => r = Ok (Ok rel) ∧ pw_store w' = s3
      | Err e => match recorded_refusal e with
          | Some ref => match failPublish tick a j ref (others s3) with
              | Ok (_, s4) => r = Ok (Err ref) ∧ pw_store w' = s4
              | Err _ => (∃ e, r = Err (AtStatement e)) ∧ pw_store w' = others s3 end
          | None => r = Err e ∧ pw_store w' = s3 end
      end).
  { unfold publishCommit, p_turn, p_commit, attempt_of, mbind, mret, P_bind, P_ret, fail in H.
    rewrite (proj2 (gets_ok _ _ _ _) (conj eq_refl eq_refl)) in H. cbn -[commitTx3 failPublish] in H. fold s2 in H.
    exists (default FCommits (head (pw_fates w))). destruct (commitTx3 tick mtick a sha256 hex ids j u _ _ s2) as [r0 s3]. exists r0, s3. split; [done|].
    destruct r0 as [rel|e]; [by injection H as <- <-|]. destruct (recorded_refusal e) as [ref|]; [|by injection H as <- <-].
    cbn -[failPublish] in H. destruct (failPublish tick a j ref (others s3)) as [[[] s4]|e'] eqn:Ef; injection H as <- <-; [done|]. split; [by eexists|done]. }
  clear H. destruct Hrun as (f & r0 & s3 & H & Hr). apply commitTx3_ok in H. destruct r0 as [rel|e].
  - destruct Hr as [-> ->]. by eapply released_row.
  - destruct (recorded_refusal e) as [ref|] eqn:Ee.
    + assert (s3 = s2) as -> by (by destruct e). destruct (failPublish tick a j ref (others s2)) as [[[] s4]|e'] eqn:Ef.
      * destruct Hr as [-> ->]. unfold failPublish in Ef. apply finish_worked in Ef as [Hw (o & _ & Ho)]; [|by right]. split; [done|].
        eexists. split; [exact Ho|done].
      * destruct Hr as [[e0 ->] ->]. right. by left.
    + destruct Hr as [-> ->]. destruct e; try (by left). destruct H as [->|H]; [by left|]. right. by right.
Qed.

(** ** What a release's rows say *)

(** C36: the machines' provenance is exact.  The commit finds no disagreement between a machine's
    reproduction dependencies, its provenance records and the sources its composition names exactly
    where they agree: every dependency and record names a declaration of a composed source with its
    version, generation, encoding, kind and digest, occurrences are numbered from zero, no occurrence
    or member is recorded twice or left out, and every declaration is used by both. *)
Theorem declarations_agree_iff composition composed reproduction records :
  disagreement hex composition composed reproduction records = None ↔ agree hex composition composed reproduction records.
Proof using. apply disagreement_none. Qed.
End Properties.

(** C37: what a release's digest hashes names its content: two contents, whose names are distinct and whose
    lengths a [uint64] counts, are encoded alike exactly where they are the same content, whatever
    the order their sources and machines are listed in. *)
Theorem digest_names_content c c' : content_fits c → content_fits c' → distinct_content c →
  encode_content c = encode_content c' ↔ same_content c c'.
Proof. intros Hc Hc' Hd. split; [by apply encode_same|by apply same_encode]. Qed.

(** A version's creation time, as a dependency row holds it, reads back as the time it was written
    from, to the nanosecond, in the years RFC 3339 can write. *)
Theorem created_text_reads t : 0 ≤ f_year (fields_of (t / second)) < 10000 → ParseRFC3339 (createdText t) = Some t.
Proof. apply createdText_read. Qed.

(** ** Witnesses *)

Lemma publication_governed_witness :
  rtc (rstep ps_tick gv_decode gv_encode) ps_core (core ps_17) ∧ rstep ps_tick gv_decode gv_encode (core ps_9) (core ps_10).
Proof.
  split.
  - destruct (publication_governed ps_tick ps_tick gv_decode gv_encode ps_sha256 ps_hex _ _ ps_run_17) as [(s0 & Hl & _ & H) _].
    assert (Hl' : last (ps_17 :: ps_16 :: ps_past16) = Some ps_0) by reflexivity. rewrite Hl' in Hl. injection Hl as <-. exact H.
  - destruct (publication_governed ps_tick ps_tick gv_decode gv_encode ps_sha256 ps_hex _ _ ps_run_9) as (_ & _ & H).
    apply (H ps_10 ps_pact_10).
Defined.
Lemma release_loses_no_update_witness :
  (∃ s0, first_set ps_draft2 (SourceKey SFragment "base") (Some 1) (ps_16 :: ps_past16) s0 ∧ base_at "cl_1" (SourceKey SFragment "base") (Some 1) s0
    ∧ ∀ i r, head_in "cl_1" (SourceKey SFragment "base") i r ps_16 ↔ head_in "cl_1" (SourceKey SFragment "base") i r s0)
  ∧ snapshot_read (UsedHead SAssignment "hd_0" "asr_1" 1) ps_16.
Proof.
  assert (Hin : ps_16 ∈ ps_16 :: ps_past16) by by left.
  destruct (release_loses_no_update ps_tick ps_tick gv_decode gv_encode ps_sha256 ps_hex _ _ ps_16 ps_second ps_ids2 ps_job2 ps_unit2 "rel_2" ps_17
    ps_run_16 Hin ps_bound2 ps_snapshot2 ps_committed2) as (_ & He & Hu & _).
  split; [|apply Hu; by left].
  apply (He (SourceKey SFragment "base") (EntryRow (Some ps_frv2) (Some 1))). vm_compute. reflexivity.
Defined.
Lemma one_release_per_draft_witness :
  (∃ o job, ops (core ps_17) !! "op_1" = Some o ∧ op_kind_of o = KPublish ∧ op_st o = Succeeded ∧ op_result o = Some (released_doc "rel_1")
    ∧ jobs_of ps_17 !! "op_1" = Some job ∧ jb_draft job = ps_draft ∧ jb_revision job = 4 ∧ jb_role job = "publisher" ∧ "prn_2" = jb_by job)
  ∧ ∃ r, release_rows ps_17 !! "rel_2" = Some r ∧ re_draft r = ps_draft2.
Proof.
  destruct (one_release_per_draft ps_tick ps_tick gv_decode gv_encode ps_sha256 ps_hex _ _ ps_run_17) as (Hd & _ & Hr & _). split.
  - assert (Hx : ∃ r, release_rows ps_17 !! "rel_1" = Some r ∧ re_operation r = "op_1" ∧ re_draft r = ps_draft ∧ re_revision r = 4 ∧ re_by r = "prn_2")
      by (eexists; split_and!; vm_compute; reflexivity).
    destruct Hx as (r & Hx & H1 & H2 & H3 & H4). specialize (Hr _ _ Hx). rewrite H1, H2, H3, H4 in Hr. exact Hr.
  - assert (Hx : ∃ d, drafts_of ps_17 !! ps_draft2 = Some d ∧ df_state d = DPublished ∧ df_release d = Some "rel_2")
      by (eexists; split_and!; vm_compute; reflexivity).
    destruct Hx as (d & Hx & Hst & Hrel). destruct (proj1 (Hd _ _ _ Hx) (conj Hst Hrel)) as (r & H1 & H2 & _). exists r. split; [exact H1|exact H2].
Defined.
Lemma ps_10_seen : ps_10 ∈ ps_17 :: ps_16 :: ps_past16.
Proof. do 7 right. by left. Qed.
Lemma release_never_changes_witness :
  same_release "rel_1" ps_10 ps_17 ∧ is_Some (releaseDigest ps_sha256 "rel_1" ps_17).
Proof.
  assert (Hx : ∃ r, release_rows ps_10 !! "rel_1" = Some r) by (eexists; vm_compute; reflexivity). destruct Hx as [r Hx].
  destruct (release_never_changes ps_tick ps_tick gv_decode gv_encode ps_sha256 ps_hex _ _ ps_10 "rel_1" r ps_run_17 ps_10_seen Hx) as (H1 & H2 & _).
  split; [exact H1|]. rewrite H2. by eexists.
Defined.
Lemma earlier_claim_fenced_witness :
  (∃ e, extendPublish ps_tick ps_first 1000 ps_earlier ps_9 = Err e)
  ∧ (∃ e, failPublish ps_tick ps_first ps_earlier (ENoRows "") ps_9 = Err e).
Proof.
  assert (Hc : claimPublish ps_tick ps_second 100000000 ps_7 = Ok (Some ps_later, ps_8)) by (unfold ps_8; apply ps_answered; vm_compute; reflexivity).
  assert (Hin : ps_8 ∈ ps_9 :: ps_past9) by (right; by left).
  destruct (earlier_claim_fenced ps_tick ps_tick gv_decode gv_encode ps_sha256 ps_hex _ _ ps_7 ps_8 ps_first ps_second 100000000 ps_earlier ps_later
    ps_run_9 Hin Hc eq_refl ltac:(done)) as (H1 & _ & H2 & _).
  split; [apply H1|apply H2].
Defined.
Lemma assignment_moves_unheld_witness :
  held_by ps_m ps_9 = None ∧ ∃ rel, release_rows ps_9 !! rel = None ∧ is_Some (release_rows ps_10 !! rel).
Proof.
  assert (Hne : Store.heads (core ps_10) !! ps_m ≠ Store.heads (core ps_9) !! ps_m) by (vm_compute; discriminate).
  destruct (assignment_moves_unheld ps_tick ps_tick gv_decode gv_encode ps_sha256 ps_hex _ _ _ ps_m ps_run_9 ps_pact_10 Hne) as (H1 & _ & H2).
  by split.
Defined.
(** A commit whose reply is lost, and one that answers. *)
Definition ps_attempt (f : fate) : result commit_error string * pdb :=
  commitTx3 ps_tick ps_tick ps_second ps_sha256 ps_hex ps_ids1 ps_later ps_unit1 (draftHeads (pj_draft ps_later) ps_9) f ps_9.
Lemma ps_commits : ps_attempt FCommits = (Ok "rel_1", ps_10) ∧ ps_attempt (FLost true) = (Err Unknown, ps_10).
Proof.
  unfold ps_attempt, commitTx3. pose proof ps_committed1 as Hx. unfold ps_commit in Hx. rewrite Hx, ps_deferred1.
  rewrite (bool_decide_false (true = true ∧ is_Some (None : option string))); [by split|]. by intros [_ [? [=]]].
Qed.
Lemma release_whole_or_nothing_witness :
  released_by ps_tick ps_tick ps_sha256 ps_hex ps_second ps_ids1 ps_later ps_unit1 (draftHeads (pj_draft ps_later) ps_9) "rel_1" ps_9 ps_10.
Proof.
  destruct ps_commits as [H _]. unfold ps_attempt in H.
  exact (release_whole_or_nothing ps_tick ps_tick ps_sha256 ps_hex ps_second ps_ids1 ps_later ps_unit1 (draftHeads (pj_draft ps_later) ps_9) FCommits ps_9 (Ok "rel_1") ps_10 H).
Defined.
Lemma publication_answers_truly_witness :
  ∃ row, release_rows ps_10 !! "rel_1" = Some row ∧ re_draft row = ps_draft ∧ re_revision row = 4.
Proof.
  assert (H : publishCommit ps_tick ps_tick ps_second ps_sha256 ps_hex id ps_ids1 ps_later ps_unit1 (PWorld ps_9 []) = (Ok (Ok "rel_1"), PWorld ps_10 [])).
  { destruct ps_commits as [Hx _]. unfold ps_attempt in Hx. unfold publishCommit, p_turn, p_commit, attempt_of, mbind, mret, P_bind, P_ret, id.
    rewrite (proj2 (gets_ok _ _ _ _) (conj eq_refl eq_refl)). cbn -[commitTx3 ps_9 ps_10]. unfold id. cbn -[commitTx3 ps_9 ps_10] in Hx. rewrite Hx. reflexivity. }
  exact (publication_answers_truly ps_tick ps_tick ps_sha256 ps_hex ps_second id ps_ids1 ps_later ps_unit1 (PWorld ps_9 []) (Ok (Ok "rel_1")) (PWorld ps_10 []) H).
Defined.
Lemma digest_names_content_witness :
  encode_content (ReleaseContent "c" "d" 1 (Renderer "1" "2" "3" "4") [ContentSource "fragment" "b" "r2"; ContentSource "fragment" "a" "r1"] [])
  = encode_content (ReleaseContent "c" "d" 1 (Renderer "1" "2" "3" "4") [ContentSource "fragment" "a" "r1"; ContentSource "fragment" "b" "r2"] []).
Proof.
  apply digest_names_content.
  - split; simpl; repeat constructor; unfold short, counted; simpl; lia.
  - split; simpl; repeat constructor; unfold short, counted; simpl; lia.
  - split; simpl; [|constructor]. apply NoDup_cons. split; [|apply NoDup_singleton]. intros H%list_elem_of_singleton. discriminate.
  - split; simpl; try reflexivity. apply Permutation_swap.
Defined.
Lemma created_text_reads_witness : ParseRFC3339 (createdText 1500000000) = Some 1500000000.
Proof. apply created_text_reads. vm_compute. split; [discriminate|reflexivity]. Defined.
